(* ===== verification/_CoqProject ===== *)
-Q . S2P
Prelude.v
GoStrings.v
GoRegexp.v
Gtid.v
GtidText.v
GtidModel.v
MariaGtid.v
MariaTimeline.v
Archive.v
Forks.v
GtidOps.v
ObjectStore.v
BinlogFiles.v
Archiver.v
ArchiverIndex.v
ArchiverPass.v
ArchiverContents.v
ArchiveLoop.v
LoopSafety.v
Retention.v
Replay.v
ReplayMaria.v
ReplayMariaRun.v
Scan.v
Election.v
Cluster.v
Observation.v
Failover.v
Switchover.v
GroupReplication.v
Versions.v
SqlText.v
Instance.v
RoleReconciler.v
LeaseProtocol.v
Users.v
MetricsGrants.v
Config.v
Status.v
Backups.v
StatusPatch.v
Requests.v
Provision.v
ProvisionSafety.v
ProvisionProtocol.v
Guard.v
