(* ===== verification/Prelude.v ===== *)
(** * CNMSQL: a verification library for the operator's data-safety core

    CNMSQL is a Kubernetes operator for MySQL and MariaDB clusters.  This library
    models the parts of it that decide whether committed transactions survive:
    GTID arithmetic, the binary-log archive, point-in-time replay, failover and
    switchover, retention, group-replication quorum, the roles the instances take, the
    Pods and data volumes the operator creates, rolls and removes, and what it observes
    and records of them.  Around them it models the text the
    operator exchanges with the server and its tools: SQL statements, the configuration
    file and the output of the binary-log client.  Every definition is translated from
    the Go source and is executable.

    ** The parts and where they are modelled

    - Positions.  [Gtid], [GtidText]: interval sets of
      [pkg/management/mysql/replication/gtid.go], their algebra, parser and printer.
      [GtidModel], [MariaGtid]: the [GTIDModel] interface of [pkg/engine] as a class
      with laws, and both engines.  [MariaTimeline]: the MariaDB primary timeline
      ([pkg/engine/mariadb_timeline.go]).
    - The archive's records.  [Archive]: keys and the index
      ([pkg/management/mysql/objectstore/binlog.go]).  [Forks]: judging archived
      segments against a primary ([pkg/management/mysql/binlog/forks.go]).
    - Writing the archive.  [ObjectStore]: the store, its versioned writes and the
      compare-and-swap loop of [index_cas.go]; [BinlogFiles]: [binlog.go];
      [Archiver]: [archiver.go], with its proofs in [ArchiverIndex] (the index),
      [ArchiverPass] (a pass) and [ArchiverContents] (what is stored and reported);
      [ArchiveLoop]: [loop.go] and [reader.go], with its proofs in [LoopSafety].
    - Thinning the archive.  [Retention]: [retention.go], [logical.go],
      [internal/controller/cluster_retention.go] and [scheduledbackup_retention.go].
    - Reading the archive.  [GtidOps]: the planner's set interface; [Replay],
      [ReplayMaria]: [replay.go] and [replay_mariadb_forks.go], with what a MariaDB plan
      replays in [ReplayMariaRun].  [Scan]: [scan.go] and [scanfile.go], which read the
      text of the binary-log client, on the regular expressions of [GoRegexp].
    - Choosing a primary.  [Election]: [SelectFailoverCandidate]; [Cluster]: the
      policy accessors and status patches; [Observation], [Failover], [Switchover]:
      the reconcilers of [internal/controller/async] and
      [internal/controller/cluster_switchover.go].  [GroupReplication]:
      [cluster_observation.go] and [cluster_quorum.go] of
      [internal/controller/groupreplication].
    - Observing and recording.  [Status]: the polling, the phase, the archive's state and
      the MariaDB timeline of [cluster_status.go] and [cluster_timeline.go]; [Backups]:
      dead-branch verdicts, archive gaps and the choice of a backup to recover from
      ([cluster_dead_backups.go], [cluster_archive_gap.go],
      [cluster_recovery_select.go]); [StatusPatch]: [patchStatus].
    - Pods and volumes.  [Requests]: passes as trees of requests to a server; [Provision]:
      [cluster_topology.go], [cluster_reinit.go], [cluster_auto_reinit.go], the bootstrap
      Jobs of [cluster_bootstrap.go] and the volume and Pod steps of
      [cluster_resources.go]; [ProvisionSafety]: what a pass deletes and why;
      [ProvisionProtocol]: passes interleaved with the API server and its other clients.
      [Guard]: the fence guard, guided quorum recovery, routing and disruption budgets of
      [cluster_guard.go] and the handoff of a group ([groupreplication/cluster_switchover.go]).
    - Inside a Pod.  [Versions], [SqlText]: server versions, upgrade chains and the
      replication statements of both engines ([pkg/engine], [version],
      [replication/statements.go]).  [Instance]: the operations of [replication.Manager]
      and [instance.Controller], and the semi-sync set-up of a start
      ([instance/runner.go]), as trees of requests.  [RoleReconciler]: the passes of
      [instance/rolereconciler], with the primary Lease; [LeaseProtocol]: the passes and
      set-ups of all instances interleaved.
    - Around the server.  [Users]: accounts, grants and schemas
      ([pkg/management/mysql/user], [pkg/engine/grants.go]); [MetricsGrants]: the metrics
      account; [Config]: the configuration file ([pkg/management/mysql/config]).

    The files interact as the packages do: the archiver runs on the object store and
    the fork judges, the loop on the archiver, retention on the index update; the
    planner and the archiver see GTID sets only through [gtidOps], the election only
    through [GTIDModel]; a status patch judges the Backups on the object store and
    applies the conditions only through [StatusConditions].

    ** How the code is modelled

    - A Go function that returns an error is a [result]; the sentinels that
      [errors.Is] tells apart are constructors of [error], and wrapping keeps them.
    - Integers keep their width where it matters ([i64], the capped counters);
      instants and durations are nanoseconds in [Z].
    - A reconcile pass ([Cluster]) and a computation on the store ([ObjectStore]) are
      state-passing functions.  Every call takes its answer from an environment by
      call number, so a theorem covers every answer.  Before each request to the
      store the other writers may change it; a request may fail, also after its write
      took effect.
    - Closures over local variables are functions that thread those variables.
    - Parameters: the entity tags of the store ([Versioning]: they identify an
      object's content), the checksum function, [sort.Slice] ([SortSlice]), the
      server's and the other instances' answers.  Ground truth about local files is
      a predicate the theorems quantify over.
    - In-Pod code is a [prog], a finite tree of requests to the server, the supervisor
      and the API.  Theorems about one pass quantify over every answer ([within],
      [always]); [LeaseProtocol] makes the trees threads of a step relation over a
      server ([Mysqld]: what is documented of [read_only]) and an API server.
    - A pass over the Pods and volumes ([Provision]) is such a tree too, of requests to
      the API server.  [ProvisionSafety] quantifies over the answers; [ProvisionProtocol]
      gives the requests their effect on Pods, volumes and Jobs, lets writes fail with or
      without effect and others act between any two requests; reads are current.
    - SQL text is specified by a lexer ([SqlText.lex]) and configuration text by the
      server's reading of lines and option names ([Config.settings], [Config.sets]).  The
      text of a binary log is specified by printers of its events ([Scan.print_mysql],
      [Scan.print_maria]); regular expressions are syntax with Go's leftmost-first
      matcher.
    - Log lines, events and the texts of messages are left out, except where a text
      is stored.

    ** What the theorems show

    - Sets: operations are exact on transactions and keep the normal form; printing
      and parsing are inverse; counters never overflow; each flavour's engine keeps the
      interface's contract under the engine's own meaning of a position.
    - Archive: on an endpoint that honours conditional writes an index update never
      loses another writer's change; the index stays consistent with the files along
      any history of writes; a pass that ends without an error leaves every rotated file
      listed, and with a scanner that tells the truth only true records; a demoted
      primary cannot judge and ships only what the new primary holds; over any number of
      ticks a log is purged only when it is archived and every instance has applied it.
    - Retention: the newest backup and every log a kept backup may need stay; only
      stores proven to be the cluster's are touched; a pass that deletes and succeeds
      stamps the status last.
    - Replay: a MySQL plan recovers exactly the base backup and the archive less the
      disowned transactions, up to its target; MariaDB segments are chosen without a hole
      from the first one on, and a MariaDB plan replays one run of surviving
      transactions with one author each.
    - Topology: a promotion goes to a safest replica of the election the pass held,
      after the delay and the cooldown of its own clock; a drain switchover too; on
      MySQL divergence is detected exactly.
    - Scanning: what is recorded of a MySQL binary log is what its events say, where no
      statement text looks like a GTID assignment and previous sets are one line; offsets
      of MariaDB transactions are exact; a scan is never partial.
    - Recording: the Ready phase is justified; the archive's state is the last current
      report's; the timeline follows the primary; a recorded position is never
      forgotten while its instance is a member.
    - Backups: a verdict on a backup names exactly the transactions that left the
      timeline; a Backup is newly marked only once the index knows; the automatic choice
      of a backup, with the index at hand, passes over what the index disowns; a list of
      gaps that stands unchanged gets a base backup.
    - Pods and volumes: a pass takes down one Pod at most, and the primary only with
      every other instance read as ready; a data volume goes only
      for a requested re-initialisation or when its bootstrap never finished; a Pod and a
      bootstrap Job never share a volume, and only a volume whose own Job completed
      counts as bootstrapped.
    - Guards: a new fence leaves a quorum of active members, where the members are traced
      to instances; a group is re-formed through one member, recorded without quorum, on
      request or after a full outage, and while members are ONLINE from one that is
      alone, PRIMARY or behind none of known position (with none ONLINE, from the
      recorded primary, whose position is not compared); a Pod is out of routing exactly
      when it is fenced or lost; drains leave a quorum; a group hands over only to an
      ONLINE secondary.
    - Roles: a pass promotes only a designated instance that is caught up and, with the
      Lease enabled, holds it; at most one server is writable as long as no Lease is
      taken from an instance that is up, no manager stops while its server is writable
      and no starting instance is opened for the semi-sync plugins without the Lease, and
      all three do happen; a group is founded once.
    - Text: statements say exactly what a request asks for, on the requested account
      only; the metrics account can only read; a user parameter overrides no setting the
      operator renders but [gtid_strict_mode], [binlog_checksum] and the semi-sync
      options, and parameters are accepted exactly when they set no option of the managed
      and denied lists.

    ** Bounds

    The update loop has the code's eight attempts.  [Run] takes the number of ticks;
    its theorem holds for every number.  The MariaDB segment selection uses as fuel
    the number of segments plus one, which its theorem shows is enough.

    ** Not modelled

    The S3 client, JSON encoding, process supervision, the contents of Pod templates and
    other Kubernetes objects, metrics exporters and the command line: input and output,
    generated code, or plain data.  Of the status, the storage pressure (a floating-point
    percentage), the certificates and the events.  Listing the manifests of the store,
    the sequence of the top-level reconciler, the execution of backups, the admission
    webhooks and the controllers of users and databases are left out: they order calls to
    what is modelled here or check fields one by one. *)

From Stdlib Require Import ZArith Lia Bool Ascii String DecimalString DecimalN.
From stdpp Require Import base list strings gmap sorting.

Local Open Scope Z_scope.

(** ** Go errors *)

(** The sentinels the code distinguishes with [errors.Is] (replay planning, the
    archiver, the conditional index writes), and [Errorf] for an error that wraps
    none of them; its argument is the fixed text of the message. *)
Inductive error :=
| ErrTargetBeforeBackup
| ErrTargetBeyondArchive
| ErrForkedTimeline
| ErrBackupOnDeadBranch
| ErrArchiveGap
| ErrCollision
| ErrNotCurrentPrimary
| errDeferred
| ErrPreconditionFailed
| ErrIndexContention
| ErrAmbientCredentialsDisabled
| ErrCredentialsSecretRefused
| Errorf (what : string).

#[export] Instance error_eq_dec : EqDecision error.
Proof. solve_decision. Defined.

(** A Go function returning [(T, error)]. *)
Inductive result (A : Type) :=
| Ok (a : A)
| Err (e : error).
Arguments Ok {A} a.
Arguments Err {A} e.

Definition rbind {A B} (r : result A) (f : A -> result B) : result B :=
  match r with
  | Ok a => f a
  | Err e => Err e
  end.

(** [if err != nil { return fmt.Errorf("...: %w", err) }]: wrapping keeps the
    sentinel, so only a plain error takes the new text. *)
Definition wrapf {A} (what : string) (r : result A) : result A :=
  match r with
  | Err (Errorf _) => Err (Errorf what)
  | _ => r
  end.

Declare Scope go_scope.
Delimit Scope go_scope with go.
Notation "'let?' x := r 'in' k" := (rbind r (fun x => k))
  (at level 10, x name, r at level 100, k at level 200) : go_scope.
Notation "'let?' ' p := r 'in' k" := (rbind r (fun x => match x with p => k end))
  (at level 10, p pattern, r at level 100, k at level 200) : go_scope.
Open Scope go_scope.

Definition is_ok {A} (r : result A) : bool :=
  match r with Ok _ => true | Err _ => false end.

Lemma rbind_Ok {A B} (r : result A) (f : A -> result B) b :
  rbind r f = Ok b <-> exists a, r = Ok a /\ f a = Ok b.
Proof.
  destruct r as [a|e]; cbn; split.
  - intros H; exists a; auto.
  - intros [a' [[= ->] H]]; exact H.
  - discriminate.
  - intros [a' [[=] _]].
Qed.

Lemma rbind_Err {A B} (r : result A) (f : A -> result B) e :
  rbind r f = Err e <-> r = Err e \/ exists a, r = Ok a /\ f a = Err e.
Proof.
  destruct r as [a|e']; cbn; split.
  - intros H; right; exists a; auto.
  - intros [[=]|[a' [[= ->] H]]]; exact H.
  - intros [= ->]; left; reflexivity.
  - intros [[= ->]|[a' [[=] _]]]; reflexivity.
Qed.

Lemma wrapf_Ok {A} what (r : result A) a : wrapf what r = Ok a <-> r = Ok a.
Proof. destruct r as [|[]]; cbn; split; intros [=]; subst; reflexivity. Qed.

(** ** Machine integers *)

Definition MaxInt64 : Z := 2 ^ 63 - 1.
Definition MinInt64 : Z := - 2 ^ 63.
Definition MaxUint32 : Z := 2 ^ 32 - 1.
Definition MaxUint64 : Z := 2 ^ 64 - 1.

(** Two's-complement wrap-around of [int64] arithmetic. *)
Definition i64 (z : Z) : Z := (z + 2 ^ 63) mod 2 ^ 64 - 2 ^ 63.
(** Wrap-around of [uint64] arithmetic. *)
Definition u64 (z : Z) : Z := z mod 2 ^ 64.

Lemma i64_id z : MinInt64 <= z <= MaxInt64 -> i64 z = z.
Proof. unfold i64, MinInt64, MaxInt64. intros H. rewrite Z.mod_small; lia. Qed.

Lemma u64_id z : 0 <= z <= MaxUint64 -> u64 z = z.
Proof. unfold u64, MaxUint64. intros H. rewrite Z.mod_small; lia. Qed.

Lemma MaxInt64_pos : 1 <= MaxInt64. Proof. unfold MaxInt64; lia. Qed.

(** [time.Time] and [time.Duration] in nanoseconds; an instant counts from
    January 1 of year 1, so the zero [time.Time] is [0]. *)
Abbreviation Time := Z (only parsing).
Abbreviation Duration := Z (only parsing).
Definition IsZero (t : Time) : bool := t =? 0.

(** ** Automation *)

(** Well-formedness facts of GTID sets. *)
Create HintDb gtid.

(** ** Tactics *)

(** Turns boolean tests into the propositions they decide. *)
Ltac boolp :=
  repeat match goal with
  | H : andb _ _ = true |- _ => apply andb_true_iff in H; destruct H
  | H : orb _ _ = false |- _ => apply orb_false_iff in H; destruct H
  | H : negb _ = true |- _ => apply negb_true_iff in H
  | H : negb _ = false |- _ => apply negb_false_iff in H
  | H : andb _ _ = false |- _ => apply andb_false_iff in H
  | H : orb _ _ = true |- _ => apply orb_true_iff in H
  | H : bool_decide _ = true |- _ => apply bool_decide_eq_true in H
  | H : bool_decide _ = false |- _ => apply bool_decide_eq_false in H
  | H : String.eqb _ _ = true |- _ => apply String.eqb_eq in H
  | H : String.eqb _ _ = false |- _ => apply String.eqb_neq in H
  | H : Z.eqb _ _ = true |- _ => apply Z.eqb_eq in H
  | H : Z.eqb _ _ = false |- _ => apply Z.eqb_neq in H
  | H : Z.ltb _ _ = true |- _ => apply Z.ltb_lt in H
  | H : Z.ltb _ _ = false |- _ => apply Z.ltb_ge in H
  | H : Z.leb _ _ = true |- _ => apply Z.leb_le in H
  | H : Z.leb _ _ = false |- _ => apply Z.leb_gt in H
  end.

(** Case analysis on every [if]/[match] discriminee of the goal or of [H]. *)
Ltac case_if :=
  match goal with
  | |- context [if ?b then _ else _] => destruct b eqn:?
  | H : context [if ?b then _ else _] |- _ => destruct b eqn:?
  end.

(** Opens the [let?] chains of a successful or failed computation. *)
Ltac inv_result :=
  repeat match goal with
  | H : rbind _ _ = Ok _ |- _ => apply rbind_Ok in H; destruct H as [? [? H]]
  | H : wrapf _ _ = Ok _ |- _ => apply wrapf_Ok in H
  | H : Ok _ = Ok _ |- _ => injection H as H; subst
  | H : Err _ = Ok _ |- _ => discriminate H
  | H : Ok _ = Err _ |- _ => discriminate H
  end.

(** ** Sorting

    [sort.SliceStable] and [slices.SortStableFunc] are the stable insertion sort
    below, with [leb a b] for "[b] does not sort before [a]".  The unstable
    [sort.Slice] and [slices.SortFunc] are modelled by it too; where that could
    matter a theorem shows that the result does not depend on the order of
    equal elements. *)

Section Sort.
Context {A : Type} (leb : A -> A -> bool).

Fixpoint insert_sorted (x : A) (l : list A) : list A :=
  match l with
  | [] => [x]
  | y :: l' => if leb x y then x :: y :: l' else y :: insert_sorted x l'
  end.

Fixpoint isort (l : list A) : list A :=
  match l with
  | [] => []
  | x :: l' => insert_sorted x (isort l')
  end.

Lemma insert_sorted_perm x l : insert_sorted x l ≡ₚ x :: l.
Proof.
  induction l as [|y l IH]; cbn; [done|].
  destruct (leb x y); [done|]. rewrite IH. apply Permutation_swap.
Qed.

Lemma isort_perm l : isort l ≡ₚ l.
Proof. induction l as [|x l IH]; cbn; [done|]. by rewrite insert_sorted_perm, IH. Qed.

Context (leb_total : forall a b, leb a b = false -> leb b a = true).
Context (leb_trans : forall a b c, leb a b = true -> leb b c = true -> leb a c = true).

Lemma insert_sorted_sorted x l :
  StronglySorted (fun a b => leb a b = true) l ->
  StronglySorted (fun a b => leb a b = true) (insert_sorted x l).
Proof using leb_total leb_trans.
  induction 1 as [|y l Hl IH Hy]; cbn; [repeat constructor|].
  destruct (leb x y) eqn:Hxy.
  - constructor; [by constructor|]. constructor; [done|].
    eapply List.Forall_impl; [|exact Hy]. cbn; eauto.
  - constructor; [done|]. rewrite insert_sorted_perm. constructor; [by apply leb_total|done].
Qed.

Lemma isort_sorted l : StronglySorted (fun a b => leb a b = true) (isort l).
Proof using leb_total leb_trans.
  induction l as [|x l IH]; cbn; [constructor|]. by apply insert_sorted_sorted.
Qed.
End Sort.

Lemma StronglySorted_weaken {A} (R S : A -> A -> Prop) l :
  (forall a b, R a b -> S a b) -> StronglySorted R l -> StronglySorted S l.
Proof.
  intros HRS. induction 1 as [|x l Hl IH Hx]; constructor; [done|]. eapply List.Forall_impl; [|exact Hx]. auto.
Qed.

(** Sorting is stable: the elements equivalent to a given key keep their order. *)
Lemma insert_sorted_filter {A} (leb : A -> A -> bool) (k : A -> Z) (z : Z) x l :
  (forall a b, leb a b = (k a <=? k b)) ->
  filter (fun a => k a = z) (insert_sorted leb x l) =
  filter (fun a => k a = z) (x :: l).
Proof.
  intros Hk. induction l as [|y l IH]; [done|]. cbn [insert_sorted].
  rewrite Hk. destruct (Z.leb_spec (k x) (k y)) as [Hle|Hlt]; [done|].
  rewrite filter_cons, IH, !filter_cons.
  repeat case_decide; [lia|done..].
Qed.

Lemma isort_stable {A} (leb : A -> A -> bool) (k : A -> Z) (z : Z) l :
  (forall a b, leb a b = (k a <=? k b)) ->
  filter (fun a => k a = z) (isort leb l) = filter (fun a => k a = z) l.
Proof.
  intros Hk. induction l as [|x l IH]; [done|]. cbn [isort].
  rewrite (insert_sorted_filter leb k) by done. by rewrite !filter_cons, IH.
Qed.

(** Sorting integers depends only on the elements. *)
Lemma isort_Zleb_perm l l' : l ≡ₚ l' -> isort Z.leb l = isort Z.leb l'.
Proof.
  intros H. assert (AntiSymm (=) (fun a b => (a <=? b) = true)) by (intros a b ? ?; lia).
  apply (StronglySorted_unique (fun a b => (a <=? b) = true)).
  - apply isort_sorted; lia.
  - apply isort_sorted; lia.
  - by rewrite !isort_perm.
Qed.

Lemma existsb_false {A} (f : A -> bool) l x : existsb f l = false -> In x l -> f x = false.
Proof.
  intros H Hx. destruct (f x) eqn:E; [|done]. rewrite <- H. symmetry. apply existsb_exists. eauto.
Qed.

Lemma exists_snoc {A} (P : A -> Prop) l x :
  (exists y, y ∈ l ++ [x] /\ P y) <-> (exists y, y ∈ l /\ P y) \/ P x.
Proof.
  setoid_rewrite elem_of_app. setoid_rewrite list_elem_of_singleton. split.
  - intros (y & [Hy| ->] & HP); eauto.
  - intros [(y & Hy & HP)|HP]; eauto.
Qed.

(** ** Loops that may fail *)

(** [for _, x := range l { acc, err = f(acc, x); if err != nil { return err } }] *)
Fixpoint fold_result {A B} (f : B -> A -> result B) (acc : B) (l : list A) : result B :=
  match l with
  | [] => Ok acc
  | x :: l' => let? acc' := f acc x in fold_result f acc' l'
  end.

Lemma fold_result_app {A B} (f : B -> A -> result B) acc l l' :
  fold_result f acc (l ++ l') = let? acc' := fold_result f acc l in fold_result f acc' l'.
Proof.
  revert acc. induction l as [|x l IH]; intros acc; cbn; [done|].
  destruct (f acc x); cbn; auto.
Qed.

(** An invariant of every iteration holds of the result. *)
Lemma fold_result_inv {A B} (f : B -> A -> result B) (P : B -> Prop) acc l acc' :
  P acc -> (forall b x b', x ∈ l -> P b -> f b x = Ok b' -> P b') ->
  fold_result f acc l = Ok acc' -> P acc'.
Proof.
  revert acc. induction l as [|x l IH]; intros acc H0 Hf; cbn; intros H; inv_result; [done|].
  eapply IH; [| |exact H].
  - eapply Hf; [|exact H0|done]. by left.
  - intros b y b' Hy. apply Hf. by right.
Qed.

(** Filtering by a boolean. *)
Lemma elem_of_filter_bool {A} (p : A -> bool) (l : list A) x : x ∈ List.filter p l <-> x ∈ l /\ p x = true.
Proof. by rewrite !list_elem_of_In, filter_In. Qed.

(** [for i, x := range l { y, err := f(x); if err != nil { return err } }] *)
Fixpoint map_result {A B} (f : A -> result B) (l : list A) : result (list B) :=
  match l with
  | [] => Ok []
  | x :: l' => let? y := f x in let? ys := map_result f l' in Ok (y :: ys)
  end.

Lemma map_result_Forall2 {A B} (f : A -> result B) l ys :
  map_result f l = Ok ys <-> Forall2 (fun x y => f x = Ok y) l ys.
Proof.
  revert ys. induction l as [|x l IH]; intros ys; cbn.
  - split; [intros [= <-]; constructor|]. by inversion 1.
  - split.
    + intros H. inv_result. constructor; [done|]. by apply IH.
    + inversion 1 as [|? y ? ys' Hx Hl]; subst. rewrite Hx. cbn.
      by rewrite (proj2 (IH ys') Hl).
Qed.
