(* ===== verification/GoStrings.v ===== *)
(** * Go's [strings] and [strconv] functions used by the GTID code

    Strings are byte strings ([String.string]); the functions are exact on
    ASCII, which is all that GTID sets, positions and binlog names are made of
    (on other bytes Go's [ToLower] and [Map] also decode UTF-8).  The number
    parsers keep Go's bounds: [ParseInt] and [ParseUint] refuse a value that
    does not fit their width, and accept leading zeros. *)

From Stdlib Require Import ZArith Lia Bool Ascii String DecimalString DecimalN Decimal.
From stdpp Require Import base list strings gmap.
From S2P Require Import Prelude.

Local Open Scope Z_scope.
#[local] Arguments String.append : simpl nomatch.

(** ** Characters *)

(** The characters the GTID parsers drop: [' '], ['\n'], ['\r'], ['\t']. *)
Definition is_gtid_space (c : ascii) : bool :=
  Ascii.eqb c " " || Ascii.eqb c "010" || Ascii.eqb c "013" || Ascii.eqb c "009".

(** [unicode.IsSpace] on ASCII. *)
Definition is_space (c : ascii) : bool :=
  is_gtid_space c || Ascii.eqb c "011" || Ascii.eqb c "012".

Definition is_digit (c : ascii) : bool :=
  (N_of_ascii "0" <=? N_of_ascii c)%N && (N_of_ascii c <=? N_of_ascii "9")%N.

Definition lower_ascii (c : ascii) : ascii :=
  if (65 <=? N_of_ascii c)%N && (N_of_ascii c <=? 90)%N
  then ascii_of_N (N_of_ascii c + 32) else c.

(** ** Strings *)

(** [strings.Map] with a mapping that drops (returns -1) or keeps a character. *)
Fixpoint string_filter (keep : ascii -> bool) (s : string) : string :=
  match s with
  | EmptyString => EmptyString
  | String c s' => if keep c then String c (string_filter keep s') else string_filter keep s'
  end.

(** [strings.ToLower]. *)
Fixpoint ToLower (s : string) : string :=
  match s with
  | EmptyString => EmptyString
  | String c s' => String (lower_ascii c) (ToLower s')
  end.

(** [strings.Split] (and [SplitSeq]) with a one-character separator. *)
Fixpoint Split (s : string) (sep : ascii) : list string :=
  match s with
  | EmptyString => [EmptyString]
  | String c s' =>
      if Ascii.eqb c sep then EmptyString :: Split s' sep
      else match Split s' sep with
           | h :: t => String c h :: t
           | [] => [String c EmptyString]
           end
  end.

(** [strings.Cut]: before, after, found. *)
Fixpoint Cut (s : string) (sep : ascii) : string * string * bool :=
  match s with
  | EmptyString => (EmptyString, EmptyString, false)
  | String c s' =>
      if Ascii.eqb c sep then (EmptyString, s', true)
      else let '(before, after, found) := Cut s' sep in (String c before, after, found)
  end.

(** [strings.Join]. *)
Definition Join (l : list string) (sep : string) : string := String.concat sep l.

Fixpoint trim_left (s : string) : string :=
  match s with
  | EmptyString => EmptyString
  | String c s' => if is_space c then trim_left s' else s
  end.

Fixpoint trim_right (s : string) : string :=
  match s with
  | EmptyString => EmptyString
  | String c s' =>
      match trim_right s' with
      | EmptyString => if is_space c then EmptyString else String c EmptyString
      | t => String c t
      end
  end.

(** [strings.TrimSpace]. *)
Definition TrimSpace (s : string) : string := trim_right (trim_left s).

(** ** Numbers *)

(** A non-empty run of decimal digits. *)
Definition parse_digits (s : string) : option Z :=
  match NilEmpty.uint_of_string s with
  | Some Nil => None
  | Some d => Some (Z.of_N (N.of_uint d))
  | None => None
  end.

(** [strconv.ParseUint(s, 10, bits)]. *)
Definition ParseUint (s : string) (bits : Z) : option Z :=
  match parse_digits s with
  | Some n => if n <=? 2 ^ bits - 1 then Some n else None
  | None => None
  end.

(** [strconv.ParseInt(s, 10, 64)]: an optional sign, then digits. *)
Definition ParseInt (s : string) : option Z :=
  let signed (neg : bool) (digits : string) :=
    match parse_digits digits with
    | Some n =>
        let v := if neg then - n else n in
        if (MinInt64 <=? v) && (v <=? MaxInt64) then Some v else None
    | None => None
    end in
  match s with
  | String "+" d => signed false d
  | String "-" d => signed true d
  | _ => signed false s
  end.

(** [strconv.FormatUint(n, 10)]. *)
Definition FormatUint (n : Z) : string := NilEmpty.string_of_uint (N.to_uint (Z.to_N n)).

(** [strconv.FormatInt(n, 10)]. *)
Definition FormatInt (n : Z) : string :=
  if n <? 0 then String "-" (FormatUint (- n)) else FormatUint n.

Lemma append_assoc (a b c : string) : (a +:+ b) +:+ c = a +:+ (b +:+ c).
Proof. induction a as [|x a IH]; cbn; [done|]. by rewrite IH. Qed.

Lemma append_nil_r (s : string) : s +:+ "" = s.
Proof. induction s as [|c s IH]; cbn; [done|]. by rewrite IH. Qed.

(** ** Character sets *)

(** Every character of [s] satisfies [p]. *)
Fixpoint all_chars (p : ascii -> bool) (s : string) : bool :=
  match s with
  | EmptyString => true
  | String c s' => p c && all_chars p s'
  end.

Lemma all_chars_app p s t :
  all_chars p (s +:+ t) = all_chars p s && all_chars p t.
Proof. induction s as [|c s IH]; cbn; [done|]. by rewrite IH, andb_assoc. Qed.

Lemma all_chars_impl (p q : ascii -> bool) s :
  (forall c, p c = true -> q c = true) -> all_chars p s = true -> all_chars q s = true.
Proof.
  intros Hpq. induction s as [|c s IH]; cbn; [done|].
  rewrite !andb_true_iff. intros [Hc Hs]. split; [by apply Hpq|by apply IH].
Qed.

Lemma string_filter_id keep s : all_chars keep s = true -> string_filter keep s = s.
Proof.
  induction s as [|c s IH]; cbn; [done|]. intros [Hc Hs]%andb_true_iff.
  rewrite Hc. by rewrite IH.
Qed.

Lemma string_filter_all keep s : all_chars keep (string_filter keep s) = true.
Proof.
  induction s as [|c s IH]; cbn; [done|]. destruct (keep c) eqn:Hc; cbn; [by rewrite Hc|done].
Qed.

Lemma string_filter_all_chars keep p s :
  all_chars p s = true -> all_chars p (string_filter keep s) = true.
Proof.
  induction s as [|c s IH]; cbn; [done|]. intros [Hc Hs]%andb_true_iff.
  destruct (keep c); cbn; rewrite ?Hc; auto.
Qed.

Lemma ToLower_id s :
  all_chars (fun c => Ascii.eqb (lower_ascii c) c) s = true -> ToLower s = s.
Proof.
  induction s as [|c s IH]; cbn; [done|]. intros [Hc Hs]%andb_true_iff.
  apply Ascii.eqb_eq in Hc. by rewrite Hc, IH.
Qed.

Lemma lower_ascii_idem c : lower_ascii (lower_ascii c) = lower_ascii c.
Proof. destruct c as [[] [] [] [] [] [] [] []]; reflexivity. Qed.

Lemma ToLower_idem s : ToLower (ToLower s) = ToLower s.
Proof. induction s as [|c s IH]; cbn; [done|]. by rewrite lower_ascii_idem, IH. Qed.

Lemma ToLower_empty s : ToLower s = EmptyString <-> s = EmptyString.
Proof. destruct s; cbn; done. Qed.

Lemma all_chars_ToLower (p : ascii -> bool) s :
  (forall c, p c = true -> p (lower_ascii c) = true) ->
  all_chars p s = true -> all_chars p (ToLower s) = true.
Proof.
  intros Hp. induction s as [|c s IH]; cbn; [done|].
  rewrite !andb_true_iff. intros [Hc Hs]. split; [by apply Hp|by apply IH].
Qed.

(** ** Splitting and joining *)

Definition no_char (sep : ascii) (s : string) : bool :=
  all_chars (fun c => negb (Ascii.eqb c sep)) s.

Lemma Split_no_sep s sep : no_char sep s = true -> Split s sep = [s].
Proof.
  induction s as [|c s IH]; cbn; [done|]. intros [Hc Hs]%andb_true_iff.
  apply negb_true_iff in Hc. rewrite Hc. by rewrite IH.
Qed.

Lemma Split_app s sep t :
  no_char sep s = true -> Split (s +:+ String sep t) sep = s :: Split t sep.
Proof.
  induction s as [|c s IH]; cbn.
  - intros _. by rewrite Ascii.eqb_refl.
  - intros [Hc Hs]%andb_true_iff. apply negb_true_iff in Hc. rewrite Hc. by rewrite IH.
Qed.

(** Splitting what was joined gives the pieces back. *)
Lemma Split_Join l sep :
  l <> [] -> Forall (fun s => no_char sep s = true) l ->
  Split (Join l (String sep EmptyString)) sep = l.
Proof.
  intros Hne Hall. induction Hall as [|s l Hs Hl IH]; [done|].
  unfold Join in *. destruct l as [|t l]; cbn [String.concat].
  - by apply Split_no_sep.
  - change (Split (s +:+ String sep (String.concat (String sep "") (t :: l))) sep = s :: t :: l).
    rewrite Split_app by done. f_equal. by apply IH.
Qed.

Lemma Split_pieces p s sep :
  all_chars p s = true ->
  Forall (fun x => all_chars p x = true /\ no_char sep x = true) (Split s sep).
Proof.
  induction s as [|c s IH]; cbn; [by repeat constructor|]. intros [Hc Hs]%andb_true_iff.
  specialize (IH Hs). destruct (Ascii.eqb c sep) eqn:E.
  - by constructor.
  - destruct (Split s sep) as [|h t]; cbn.
    + constructor; [|constructor]. cbn. by rewrite Hc, E.
    + inversion IH as [|?? [H1 H2] H3]; subst. constructor; [|done].
      unfold no_char. cbn. rewrite Hc, E. auto.
Qed.

Lemma Cut_no_sep s sep : no_char sep s = true -> Cut s sep = (s, EmptyString, false).
Proof.
  induction s as [|c s IH]; cbn; [done|]. intros [Hc Hs]%andb_true_iff.
  apply negb_true_iff in Hc. rewrite Hc. by rewrite IH.
Qed.

Lemma Cut_app s sep t :
  no_char sep s = true -> Cut (s +:+ String sep t) sep = (s, t, true).
Proof.
  induction s as [|c s IH]; cbn.
  - intros _. by rewrite Ascii.eqb_refl.
  - intros [Hc Hs]%andb_true_iff. apply negb_true_iff in Hc. rewrite Hc. by rewrite IH.
Qed.

(** ** Printing and parsing numbers *)

Lemma string_of_uint_digits d : all_chars is_digit (NilEmpty.string_of_uint d) = true.
Proof. induction d; cbn; rewrite ?IHd; reflexivity. Qed.

Lemma FormatUint_digits n : all_chars is_digit (FormatUint n) = true.
Proof. apply string_of_uint_digits. Qed.

Lemma to_uint_nonnil n : N.to_uint n <> Nil.
Proof. destruct n as [|p]; cbn; [done|]. apply DecimalPos.Unsigned.to_uint_nonnil. Qed.

Lemma parse_digits_FormatUint n : 0 <= n -> parse_digits (FormatUint n) = Some n.
Proof.
  intros Hn. unfold parse_digits, FormatUint. rewrite NilEmpty.usu.
  destruct (N.to_uint (Z.to_N n)) eqn:E; [by destruct (to_uint_nonnil _ E)|..];
    rewrite <- E, Unsigned.of_to; f_equal; lia.
Qed.

Lemma parse_digits_nonneg s n : parse_digits s = Some n -> 0 <= n.
Proof.
  unfold parse_digits. destruct (NilEmpty.uint_of_string s) as [[]|]; intros [=]; subst; lia.
Qed.

Lemma ParseUint_FormatUint n bits : 0 <= n < 2 ^ bits -> ParseUint (FormatUint n) bits = Some n.
Proof.
  intros Hn. unfold ParseUint. rewrite parse_digits_FormatUint by lia.
  destruct (Z.leb_spec n (2 ^ bits - 1)); [done|lia].
Qed.

Lemma ParseUint_bound s bits n : ParseUint s bits = Some n -> 0 <= n < 2 ^ bits.
Proof.
  unfold ParseUint. destruct (parse_digits s) as [m|] eqn:E; [|done].
  apply parse_digits_nonneg in E. destruct (Z.leb_spec m (2 ^ bits - 1)); intros [=]; lia.
Qed.

Lemma FormatUint_cons n : exists c s, FormatUint n = String c s /\ is_digit c = true.
Proof.
  unfold FormatUint. pose proof (string_of_uint_digits (N.to_uint (Z.to_N n))) as H.
  pose proof (to_uint_nonnil (Z.to_N n)) as Hn.
  destruct (NilEmpty.string_of_uint (N.to_uint (Z.to_N n))) as [|c s] eqn:E.
  - destruct (N.to_uint (Z.to_N n)); done.
  - cbn in H. apply andb_true_iff in H as [H _]. eauto.
Qed.

Lemma ParseInt_digits s c t :
  s = String c t -> is_digit c = true ->
  ParseInt s = match parse_digits s with
               | Some n => if (MinInt64 <=? n) && (n <=? MaxInt64) then Some n else None
               | None => None
               end.
Proof. intros -> Hc. destruct c as [[] [] [] [] [] [] [] []]; try discriminate Hc; reflexivity. Qed.

Lemma ParseInt_FormatInt n : 0 <= n <= MaxInt64 -> ParseInt (FormatInt n) = Some n.
Proof.
  intros Hn. unfold FormatInt. destruct (Z.ltb_spec n 0); [lia|].
  destruct (FormatUint_cons n) as (c & s & E & Hc).
  rewrite (ParseInt_digits _ c s E Hc), parse_digits_FormatUint by lia.
  unfold MinInt64. destruct (Z.leb_spec (- 2 ^ 63) n); [|lia].
  destruct (Z.leb_spec n MaxInt64); [done|lia].
Qed.

Lemma ParseInt_bound s n : ParseInt s = Some n -> MinInt64 <= n <= MaxInt64.
Proof.
  assert (forall (neg : bool) d, match parse_digits d with
    | Some n => let v := if neg then - n else n in
        if (MinInt64 <=? v) && (v <=? MaxInt64) then Some v else None
    | None => None end = Some n -> MinInt64 <= n <= MaxInt64) as H.
  { intros neg d. destruct (parse_digits d) as [m|]; [|done]. cbn zeta.
    destruct (_ && _) eqn:E; [|done]. intros [= <-]. boolp. lia. }
  unfold ParseInt. destruct s as [|c s]; [apply (H false)|].
  destruct c as [[] [] [] [] [] [] [] []];
    first [apply (H false _) | apply (H true _)].
Qed.

Lemma digit_not (c d : ascii) : is_digit c = true -> is_digit d = false -> Ascii.eqb c d = false.
Proof. intros Hc Hd. apply Ascii.eqb_neq. intros ->. congruence. Qed.

Lemma FormatUint_no_char n d : is_digit d = false -> no_char d (FormatUint n) = true.
Proof.
  intros Hd. eapply all_chars_impl; [|apply FormatUint_digits].
  cbn. intros c Hc. by rewrite digit_not.
Qed.

Lemma FormatInt_FormatUint n : 0 <= n -> FormatInt n = FormatUint n.
Proof. intros Hn. unfold FormatInt. destruct (Z.ltb_spec n 0); [lia|done]. Qed.

Lemma FormatUint_inj a b : 0 <= a -> 0 <= b -> FormatUint a = FormatUint b -> a = b.
Proof.
  intros Ha Hb E. pose proof (parse_digits_FormatUint a Ha) as H1.
  rewrite E, parse_digits_FormatUint in H1 by done. by injection H1.
Qed.
