(* ===== verification/GoRegexp.v ===== *)
(** * Go's [regexp] and [bufio.Scanner], as the scanners use them

    The patterns of [pkg/management/mysql/binlog/scan.go] are sequences of
    literals, counted character classes, anchors, word boundaries and groups that
    do not nest.  [FindStringSubmatch] is Go's leftmost-first match: the earliest
    start, then the longest count of each class in turn, with backtracking.
    Strings are bytes, so a case-insensitive literal folds ASCII letters only.

    [scan_lines] is what a [bufio.Scanner] with its default split function hands
    out, and [line_too_long] when it gives up. *)

From Stdlib Require Import ZArith Lia Bool Ascii String.
From stdpp Require Import base list strings.
From S2P Require Import Prelude GoStrings.

Local Open Scope Z_scope.
#[local] Arguments String.append : simpl nomatch.

(** ** Patterns *)

Inductive regexp :=
| Lit (s : string)
| LitFold (s : string)
| Rep (p : ascii -> bool) (min : nat) (max : option nat)
| Then (r1 r2 : regexp)
| Group (r : regexp)
| Bol
| Eol
| WordB.

Declare Scope regexp_scope.
Delimit Scope regexp_scope with regexp.
Bind Scope regexp_scope with regexp.
Open Scope regexp_scope.
Infix "⋅⋅" := Then (at level 60, right associativity) : regexp_scope.

(** Character classes. *)
Definition char_between (lo hi c : ascii) : bool :=
  (N_of_ascii lo <=? N_of_ascii c)%N && (N_of_ascii c <=? N_of_ascii hi)%N.
Definition is_hex (c : ascii) : bool := is_digit c || char_between "a" "f" c || char_between "A" "F" c.
(** [\s]: no vertical tab. *)
Definition is_re_space (c : ascii) : bool := is_gtid_space c || Ascii.eqb c "012".
(** [\w]. *)
Definition is_word (c : ascii) : bool :=
  is_digit c || char_between "a" "z" c || char_between "A" "Z" c || Ascii.eqb c "_".
Definition same_letter (a b : ascii) : bool := Ascii.eqb (lower_ascii a) (lower_ascii b).

(** ** Matching *)

Fixpoint eat (same : ascii -> ascii -> bool) (l : string) (prev : option ascii) (s : string)
  : option (option ascii * string) :=
  match l with
  | EmptyString => Some (prev, s)
  | String c l' =>
      match s with
      | String d s' => if same c d then eat same l' (Some d) s' else None
      | EmptyString => None
      end
  end.

Definition more (max : option nat) : bool := match max with Some O => false | _ => true end.

(** As many characters of the class as possible, then fewer. *)
Fixpoint eat_class {R} (p : ascii -> bool) (min : nat) (max : option nat) (prev : option ascii) (s : string)
    (k : option ascii -> string -> option R) : option R :=
  let stop := if Nat.eqb min 0 then k prev s else None in
  match s with
  | EmptyString => stop
  | String c s' =>
      if p c && more max then
        match eat_class p (pred min) (pred <$> max) (Some c) s' k with
        | Some r => Some r
        | None => stop
        end
      else stop
  end.

Definition word_at (prev : option ascii) (s : string) : bool :=
  xorb (match prev with Some c => is_word c | None => false end)
       (match s with String c _ => is_word c | EmptyString => false end).

(** The text between two places of one string. *)
Definition taken (s rest : string) : string := substring 0 (String.length s - String.length rest) s.

(** A match at the place [s], after the character [prev]; the continuation gets
    the place it ends and the groups. *)
Fixpoint match_at {R} (r : regexp) (prev : option ascii) (s : string) (groups : list string)
    (k : option ascii -> string -> list string -> option R) : option R :=
  match r with
  | Lit l => match eat Ascii.eqb l prev s with Some (prev', s') => k prev' s' groups | None => None end
  | LitFold l => match eat same_letter l prev s with Some (prev', s') => k prev' s' groups | None => None end
  | Rep p min max => eat_class p min max prev s (fun prev' s' => k prev' s' groups)
  | Then r1 r2 => match_at r1 prev s groups (fun prev' s' groups' => match_at r2 prev' s' groups' k)
  | Group r => match_at r prev s groups (fun prev' s' groups' => k prev' s' (groups' ++ [taken s s']))
  | Bol => match prev with None => k prev s groups | Some _ => None end
  | Eol => match s with EmptyString => k prev s groups | String _ _ => None end
  | WordB => if word_at prev s then k prev s groups else None
  end.

Fixpoint find_from (r : regexp) (prev : option ascii) (s : string) : option (list string) :=
  match match_at r prev s [] (fun _ _ groups => Some groups) with
  | Some groups => Some groups
  | None => match s with EmptyString => None | String c s' => find_from r (Some c) s' end
  end.

(** The groups of the leftmost match; [m[i]] is the [i-1]-th of them. *)
Definition FindStringSubmatch (r : regexp) (s : string) : option (list string) := find_from r None s.
Definition MatchString (r : regexp) (s : string) : bool := match FindStringSubmatch r s with Some _ => true | None => false end.

(** ** Lines *)

Definition newline : ascii := "010".
Definition carriage_return : ascii := "013".

Fixpoint dropCR (s : string) : string :=
  match s with
  | EmptyString => EmptyString
  | String c EmptyString => if Ascii.eqb c carriage_return then EmptyString else s
  | String c s' => String c (dropCR s')
  end.

(** The pieces between newlines, without an empty last one. *)
Definition raw_lines (text : string) : list string :=
  let pieces := Split text newline in
  match List.last pieces "" with EmptyString => List.removelast pieces | _ => pieces end.

Definition scan_lines (text : string) : list string := dropCR <$> raw_lines text.

(** The buffer has no room for the line and its end. *)
Definition line_too_long (max : Z) (text : string) : bool :=
  existsb (fun l => max <=? Z.of_nat (String.length l)) (raw_lines text).

(** ** Matching known text *)

Fixpoint last_char (prev : option ascii) (s : string) : option ascii :=
  match s with EmptyString => prev | String c s' => last_char (Some c) s' end.

Lemma last_char_app prev a b : last_char prev (a +:+ b) = last_char (last_char prev a) b.
Proof. revert prev. induction a as [|c a IH]; intros prev; [done|]. apply (IH (Some c)). Qed.

Lemma eat_app same l prev s : (forall c, same c c = true) -> eat same l prev (l +:+ s) = Some (last_char prev l, s).
Proof.
  intros Hr. revert prev. induction l as [|c l IH]; intros prev; [done|].
  cbn. by rewrite Hr, IH.
Qed.

Lemma length_app_string a b : String.length (a +:+ b) = (String.length a + String.length b)%nat.
Proof. induction a as [|c a IH]; cbn; [done|]. by rewrite IH. Qed.

Lemma substring_prefix a b : substring 0 (String.length a) (a +:+ b) = a.
Proof. induction a as [|c a IH]; cbn; [by destruct b|]. by rewrite IH. Qed.

Lemma taken_app a b : taken (a +:+ b) b = a.
Proof.
  unfold taken. rewrite length_app_string, Nat.add_sub. apply substring_prefix.
Qed.

Lemma taken_all s : taken s "" = s.
Proof. rewrite <- (append_nil_r s) at 1. apply taken_app. Qed.

(** A class eats a run of its characters when the pattern's limits allow it and
    the run ends there, or the limit does. *)
Definition ends (p : ascii -> bool) (max : option nat) (a s : string) : bool :=
  bool_decide (max = Some (String.length a)) || match s with EmptyString => true | String c _ => negb (p c) end.

Definition within (min : nat) (max : option nat) (n : nat) : bool :=
  Nat.leb min n && match max with Some m => Nat.leb n m | None => true end.

Lemma eat_class_run {R} p min max prev a s (k : option ascii -> string -> option R) r :
  all_chars p a = true -> within min max (String.length a) = true -> ends p max a s = true ->
  k (last_char prev a) s = Some r -> eat_class p min max prev (a +:+ s) k = Some r.
Proof.
  revert min max prev. induction a as [|c a IH]; intros min max prev Ha Hw He Hk.
  - cbn in *. unfold within in Hw. boolp. assert (min = 0%nat) as -> by (apply Nat.leb_le in H; lia). cbn.
    destruct s as [|d s]; cbn; [done|]. unfold ends in He. destruct (p d); cbn in *; [|done].
    rewrite orb_false_r in He. boolp. by subst max.
  - cbn in Ha, Hk. boolp. change (String c a +:+ s) with (String c (a +:+ s)). cbn.
    rewrite H. unfold within in *. cbn in Hw. boolp. apply Nat.leb_le in H1.
    assert (more max = true) as -> by (destruct max as [[|m]|]; done). cbn. rewrite (IH (pred min) (pred <$> max)); try done.
    + apply andb_true_iff. split; [apply Nat.leb_le; lia|]. destruct max as [m|]; [|done]. cbn.
      by destruct m.
    + unfold ends in *. apply orb_true_iff in He as [He|He]; apply orb_true_iff; [left|by right].
      boolp. subst max. cbn. by apply bool_decide_eq_true.
Qed.

(** Steps of [match_at] on known text, for rewriting. *)
Lemma match_Lit {R} l prev s g (k : _ -> _ -> _ -> option R) :
  match_at (Lit l) prev (l +:+ s) g k = k (last_char prev l) s g.
Proof. cbn. by rewrite eat_app by apply Ascii.eqb_refl. Qed.

Lemma match_LitFold {R} l prev s g (k : _ -> _ -> _ -> option R) :
  match_at (LitFold l) prev (l +:+ s) g k = k (last_char prev l) s g.
Proof. cbn. rewrite eat_app; [done|]. intros c. apply Ascii.eqb_refl. Qed.

Lemma match_Rep {R} p min max prev a s g (k : _ -> _ -> _ -> option R) r :
  all_chars p a = true -> within min max (String.length a) = true -> ends p max a s = true ->
  k (last_char prev a) s g = Some r -> match_at (Rep p min max) prev (a +:+ s) g k = Some r.
Proof. intros. cbn. by apply eat_class_run. Qed.

(** ** Where there is no match *)

(** No match starts at a character of the class. *)
Definition avoids (r : regexp) (c : ascii) : Prop :=
  forall prev s g, match_at r prev (String c s) g (fun _ _ groups => Some groups) = None.

Lemma find_skip r prev a s :
  (forall c, c ∈ list_ascii_of_string a -> avoids r c) ->
  find_from r prev (a +:+ s) = find_from r (last_char prev a) s.
Proof.
  revert prev. induction a as [|c a IH]; intros prev Ha; [done|].
  change (String c a +:+ s) with (String c (a +:+ s)). cbn [find_from].
  rewrite (Ha c) by (cbn; left). apply IH. intros d Hd. apply Ha. cbn. by right.
Qed.

Lemma avoids_Lit c l r d : c <> d -> avoids (Lit (String c l) ⋅⋅ r) d.
Proof. intros Hne prev s g. cbn. destruct (Ascii.eqb_spec c d); done. Qed.

Lemma avoids_WordB c l r d : c <> d -> avoids (WordB ⋅⋅ Lit (String c l) ⋅⋅ r) d.
Proof. intros Hne prev s g. cbn. destruct (word_at _ _); [|done]. destruct (Ascii.eqb_spec c d); done. Qed.

Lemma avoids_WordB_fold c l r d : same_letter c d = false -> avoids (WordB ⋅⋅ LitFold (String c l) ⋅⋅ r) d.
Proof. intros Hne prev s g. cbn. destruct (word_at _ _); [|done]. by rewrite Hne. Qed.

(** An anchored pattern matches at the start or nowhere. *)
Lemma find_Bol r s :
  FindStringSubmatch (Bol ⋅⋅ r) s = match_at r None s [] (fun _ _ groups => Some groups).
Proof.
  unfold FindStringSubmatch. assert (forall c s, find_from (Bol ⋅⋅ r) (Some c) s = None) as Hn.
  { intros c t. revert c. induction t as [|d t IH]; intros c; cbn; [done|]. apply IH. }
  destruct s as [|c s]; cbn; [by destruct (match_at _ _ _ _ _)|]. rewrite Hn. by destruct (match_at _ _ _ _ _).
Qed.

Lemma find_here r prev s groups :
  match_at r prev s [] (fun _ _ groups => Some groups) = Some groups -> find_from r prev s = Some groups.
Proof. intros H. destruct s; cbn [find_from]; by rewrite H. Qed.

(** ** Lines of joined text *)

Definition print_lines (ls : list string) : string := String.concat "" ((fun l => l +:+ String newline "") <$> ls).

Definition line_ok (l : string) : bool := no_char newline l && no_char carriage_return l.

Lemma Split_print_lines ls :
  Forall (fun l => line_ok l = true) ls -> Split (print_lines ls) newline = ls ++ [EmptyString].
Proof.
  unfold print_lines. induction 1 as [|l ls Hl _ IH]; [done|]. unfold line_ok in Hl. boolp.
  change (String.concat "" ((fun l => l +:+ String newline "") <$> l :: ls)) with
    (match (fun l => l +:+ String newline "") <$> ls with
     | [] => l +:+ String newline ""
     | _ => (l +:+ String newline "") +:+ "" +:+ String.concat "" ((fun l => l +:+ String newline "") <$> ls) end).
  destruct ls as [|l2 ls].
  - cbn [fmap list_fmap]. by rewrite Split_app.
  - cbn [fmap list_fmap]. rewrite append_assoc. cbn [String.append] in *.
    change (String newline "" +:+ ?x) with (String newline x). rewrite Split_app by done.
    cbn [app]. f_equal. exact IH.
Qed.

Lemma raw_print_lines ls :
  Forall (fun l => line_ok l = true) ls -> raw_lines (print_lines ls) = ls.
Proof.
  intros H. unfold raw_lines. rewrite Split_print_lines by done. rewrite List.last_last. apply List.removelast_last.
Qed.

Lemma dropCR_id l : no_char carriage_return l = true -> dropCR l = l.
Proof.
  unfold no_char. induction l as [|c l IH]; cbn [all_chars]; [done|]. intros H. boolp. cbn [dropCR].
  destruct l as [|d l]; [by rewrite H|]. by rewrite IH.
Qed.

Lemma scan_print_lines ls :
  Forall (fun l => line_ok l = true) ls -> scan_lines (print_lines ls) = ls.
Proof.
  intros H. unfold scan_lines. rewrite raw_print_lines by done.
  induction H as [|l ls Hl _ IH]; [done|]. cbn. rewrite IH. unfold line_ok in Hl. boolp. by rewrite dropCR_id.
Qed.
