(* ===== verification/Gtid.v ===== *)
(** * MySQL GTID sets: the interval algebra

    Model of [GTIDInterval] and [GTIDSet] of
    [pkg/management/mysql/replication/gtid.go]: a map from a source UUID to the
    inclusive ranges of transaction numbers executed from it.  A Go map is a
    [gmap]; a loop that ranges over one walks [map_to_list], and where the walk
    has an early exit or an accumulator a lemma shows that every order gives
    the same answer.  [int64] arithmetic wraps ([i64]).

    The meaning of a set is the relation [gtid_in s u n] ("transaction [n] of
    source [u] is in [s]"); [set_wf] is the invariant the parser establishes
    (no empty entry, every range list sorted and coalesced) and that every
    operation preserves.  The specification lemmas state each operation on that
    meaning. *)

From Stdlib Require Import ZArith Lia Bool Ascii String.
From stdpp Require Import base list list_numbers strings gmap sorting.
From S2P Require Import Prelude GoStrings.

Local Open Scope Z_scope.

(** ** Data *)

(** An inclusive transaction-number range. *)
Record GTIDInterval := mkGTIDInterval { iv_Start : Z; iv_End : Z }.

#[export] Instance GTIDInterval_eq_dec : EqDecision GTIDInterval.
Proof. solve_decision. Defined.

Abbreviation GTIDSet := (gmap string (list GTIDInterval)).

(** ** Interval lists *)

(** The loop of [normalizeIntervals]: [last] points at the last element of
    [out]; everything before it is final. *)
Fixpoint coalesce (last : GTIDInterval) (rest : list GTIDInterval) : list GTIDInterval :=
  match rest with
  | [] => [last]
  | iv :: rest' =>
      if (iv_End last =? MaxInt64) || (iv_Start iv <=? i64 (iv_End last + 1))
      then coalesce (if iv_End last <? iv_End iv
                     then mkGTIDInterval (iv_Start last) (iv_End iv) else last) rest'
      else last :: coalesce iv rest'
  end.

Definition by_start (a b : GTIDInterval) : bool := iv_Start a <=? iv_Start b.

Definition normalizeIntervals (ivs : list GTIDInterval) : list GTIDInterval :=
  if Nat.leb (length ivs) 1 then ivs
  else match isort by_start ivs with
       | [] => []
       | iv :: rest => coalesce iv rest
       end.

Definition intervalsCover (mine : list GTIDInterval) (iv : GTIDInterval) : bool :=
  existsb (fun m => (iv_Start m <=? iv_Start iv) && (iv_End iv <=? iv_End m)) mine.

Fixpoint uncovered_loop (iv : GTIDInterval) (mine : list GTIDInterval) (remaining : Z) : Z :=
  match mine with
  | [] => remaining
  | m :: mine' =>
      if iv_End m <? iv_Start iv then uncovered_loop iv mine' remaining
      else if iv_End iv <? iv_Start m then remaining
      else uncovered_loop iv mine'
             (i64 (remaining -
                   i64 (i64 (Z.min (iv_End m) (iv_End iv) - Z.max (iv_Start m) (iv_Start iv)) + 1)))
  end.

Definition uncoveredBy (iv : GTIDInterval) (mine : list GTIDInterval) : Z :=
  let remaining := i64 (i64 (iv_End iv - iv_Start iv) + 1) in
  if remaining <=? 0 then 0 else Z.max (uncovered_loop iv mine remaining) 0.

(** The sweep of [minus], from [start] to the end of [iv]. *)
Fixpoint minus_loop (iv_end : Z) (sub : list GTIDInterval) (start : Z) : list GTIDInterval :=
  match sub with
  | [] => [mkGTIDInterval start iv_end]
  | m :: sub' =>
      if iv_End m <? start then minus_loop iv_end sub' start
      else if iv_end <? iv_Start m then [mkGTIDInterval start iv_end]
      else
        let piece := if start <? iv_Start m
                     then [mkGTIDInterval start (i64 (iv_Start m - 1))] else [] in
        if iv_end <=? iv_End m then piece
        else piece ++ minus_loop iv_end sub' (i64 (iv_End m + 1))
  end.

Definition minus (iv : GTIDInterval) (sub : list GTIDInterval) : list GTIDInterval :=
  minus_loop (iv_End iv) sub (iv_Start iv).

(** The holes between consecutive ranges. *)
Fixpoint holes_of (ivs : list GTIDInterval) : list GTIDInterval :=
  match ivs with
  | a :: (b :: _) as rest =>
      mkGTIDInterval (i64 (iv_End a + 1)) (i64 (iv_Start b - 1)) :: holes_of rest
  | _ => []
  end.

(** ** Sets *)

Definition GTIDSet_get (s : GTIDSet) (uuid : string) : list GTIDInterval :=
  default [] (s !! uuid).

Definition GTIDSet_IsEmpty (s : GTIDSet) : bool :=
  forallb (fun '(_, intervals) => Nat.eqb (length intervals) 0) (map_to_list s).

(** [for uuid, intervals := range other], in the order [l]. *)
Fixpoint Contains_loop (s : GTIDSet) (l : list (string * list GTIDInterval)) : bool :=
  match l with
  | [] => true
  | (uuid, intervals) :: l' =>
      match s !! uuid with
      | None => Nat.eqb (length intervals) 0
      | Some mine =>
          if forallb (intervalsCover mine) intervals then Contains_loop s l' else false
      end
  end.

Definition GTIDSet_Contains (s other : GTIDSet) : bool :=
  Contains_loop s (map_to_list other).

Definition GTIDSet_Equal (s other : GTIDSet) : bool :=
  GTIDSet_Contains s other && GTIDSet_Contains other s.

(** The inner loop of [MissingCount]; [None] is its [return math.MaxInt64]. *)
Fixpoint missing_loop (mine intervals : list GTIDInterval) (missing : Z) : option Z :=
  match intervals with
  | [] => Some missing
  | iv :: intervals' =>
      let n := uncoveredBy iv mine in
      if i64 (MaxInt64 - n) <? missing then None
      else missing_loop mine intervals' (i64 (missing + n))
  end.

Fixpoint MissingCount_loop (s : GTIDSet) (l : list (string * list GTIDInterval)) (missing : Z) : Z :=
  match l with
  | [] => missing
  | (uuid, intervals) :: l' =>
      match missing_loop (GTIDSet_get s uuid) intervals missing with
      | None => MaxInt64
      | Some missing' => MissingCount_loop s l' missing'
      end
  end.

Definition GTIDSet_MissingCount (s other : GTIDSet) : Z :=
  MissingCount_loop s (map_to_list other) 0.

(** A deep copy: fresh slices, equal contents. *)
Definition GTIDSet_Clone (s : GTIDSet) : GTIDSet :=
  (fun intervals : list GTIDInterval => (fun iv => mkGTIDInterval (iv_Start iv) (iv_End iv)) <$> intervals) <$> s.

Definition GTIDSet_AddInterval (s : GTIDSet) (uuid : string) (iv : GTIDInterval) : GTIDSet :=
  let uuid := ToLower uuid in
  <[uuid := normalizeIntervals (GTIDSet_get s uuid ++ [iv])]> s.

Definition GTIDSet_Union (s other : GTIDSet) : GTIDSet :=
  foldl (fun s '(uuid, intervals) => foldl (fun s iv => GTIDSet_AddInterval s uuid iv) s intervals)
        s (map_to_list other).

Definition GTIDSet_Difference (s other : GTIDSet) : GTIDSet :=
  map_imap (fun uuid intervals =>
    let kept := intervals ≫= (fun iv => minus iv (GTIDSet_get other uuid)) in
    match kept with
    | [] => None
    | _ => Some kept
    end) s.

Definition GTIDSet_Intersect (s other : GTIDSet) : GTIDSet :=
  GTIDSet_Difference s (GTIDSet_Difference s other).

Definition GTIDSet_Holes (s : GTIDSet) : GTIDSet :=
  map_imap (fun _ intervals =>
    match holes_of intervals with
    | [] => None
    | holes => Some holes
    end) s.

(** ** Meaning and invariant *)

(** [n] lies in one of the ranges. *)
Definition covers (ivs : list GTIDInterval) (n : Z) : Prop :=
  exists iv, iv ∈ ivs /\ iv_Start iv <= n <= iv_End iv.

Definition iv_valid (iv : GTIDInterval) : Prop :=
  1 <= iv_Start iv /\ iv_Start iv <= iv_End iv /\ iv_End iv <= MaxInt64.

(** Sorted, non-empty ranges from [lo] on, with a hole between neighbours. *)
Fixpoint separated (lo : Z) (ivs : list GTIDInterval) : Prop :=
  match ivs with
  | [] => True
  | iv :: ivs' =>
      lo <= iv_Start iv /\ iv_Start iv <= iv_End iv /\ iv_End iv <= MaxInt64 /\
      separated (iv_End iv + 2) ivs'
  end.

Definition normalized (ivs : list GTIDInterval) : Prop := separated 1 ivs.

(** Transaction [n] of source [u] is in [s]. *)
Definition gtid_in (s : GTIDSet) (u : string) (n : Z) : Prop := covers (GTIDSet_get s u) n.

(** The invariant of a parsed set. *)
Definition set_wf (s : GTIDSet) : Prop :=
  map_Forall (fun u ivs => ivs <> [] /\ normalized ivs /\ ToLower u = u) s.

(** Two sets with the same transactions. *)
Definition gtid_equiv (s t : GTIDSet) : Prop := forall u n, gtid_in s u n <-> gtid_in t u n.

(** ** Ranges and coverage *)

Lemma covers_nil n : ~ covers [] n.
Proof. intros (iv & Hiv & _). by apply not_elem_of_nil in Hiv. Qed.

Lemma covers_cons iv ivs n :
  covers (iv :: ivs) n <-> iv_Start iv <= n <= iv_End iv \/ covers ivs n.
Proof. unfold covers. setoid_rewrite elem_of_cons. naive_solver. Qed.

Lemma covers_app a b n : covers (a ++ b) n <-> covers a n \/ covers b n.
Proof. unfold covers. setoid_rewrite elem_of_app. naive_solver. Qed.

Lemma covers_perm a b n : a ≡ₚ b -> covers a n <-> covers b n.
Proof. intros Hp. unfold covers. by setoid_rewrite Hp. Qed.

Lemma covers_singleton iv n : covers [iv] n <-> iv_Start iv <= n <= iv_End iv.
Proof. rewrite covers_cons. pose proof (covers_nil n). tauto. Qed.

Lemma separated_weaken lo lo' ivs : lo' <= lo -> separated lo ivs -> separated lo' ivs.
Proof. destruct ivs as [|iv ivs]; cbn; [done|]. intros Hlo (? & ? & ? & ?). repeat split; [lia..|done]. Qed.

Lemma separated_bounds lo ivs n : separated lo ivs -> covers ivs n -> lo <= n <= MaxInt64.
Proof.
  revert lo. induction ivs as [|iv ivs IH]; intros lo; [by intros _ ?%covers_nil|].
  cbn. intros (H1 & H2 & H3 & H4) [Hn|Hn]%covers_cons; [lia|].
  specialize (IH _ H4 Hn). lia.
Qed.

Lemma separated_valid lo ivs : 1 <= lo -> separated lo ivs -> Forall iv_valid ivs.
Proof.
  revert lo. induction ivs as [|iv ivs IH]; intros lo Hlo; cbn; [constructor|].
  intros (H1 & H2 & H3 & H4). constructor; [unfold iv_valid; lia|].
  eapply IH; [|exact H4]. lia.
Qed.

Lemma normalized_valid ivs : normalized ivs -> Forall iv_valid ivs.
Proof. by apply separated_valid. Qed.

Lemma separated_join lo a b :
  separated lo a -> separated lo b ->
  (forall n m, covers a n -> covers b m -> n + 2 <= m) -> separated lo (a ++ b).
Proof.
  revert lo. induction a as [|iv a IH]; intros lo; cbn; [done|].
  intros (H1 & H2 & H3 & H4) Hb Hab. repeat split; [lia..|]. apply IH; [done|..].
  - destruct b as [|ib b]; [done|]. destruct Hb as (B1 & B2 & B3 & B4).
    repeat split; [|done..].
    apply Hab; apply covers_cons; left; lia.
  - intros n m Hn Hm. apply Hab; [|done]. apply covers_cons. by right.
Qed.

(** A normalised list is determined by what it covers: the canonical form. *)
Lemma separated_canonical lo lo' a b :
  separated lo a -> separated lo' b -> (forall n, covers a n <-> covers b n) -> a = b.
Proof.
  revert lo lo' b. induction a as [|ia a IH]; intros lo lo' [|ib b]; [done|..].
  - cbn. intros _ (? & ? & ?) E. exfalso. apply (covers_nil (iv_Start ib)), E.
    apply covers_cons. left; lia.
  - cbn. intros (? & ? & ?) _ E. exfalso. apply (covers_nil (iv_Start ia)), E.
    apply covers_cons. left; lia.
  - cbn. intros (A1 & A2 & A3 & A4) (B1 & B2 & B3 & B4) E.
    assert (Ca : forall n, covers a n -> iv_End ia + 2 <= n) by
      (intros n Hn; eapply separated_bounds in Hn; eauto; lia).
    assert (Cb : forall n, covers b n -> iv_End ib + 2 <= n) by
      (intros n Hn; eapply separated_bounds in Hn; eauto; lia).
    setoid_rewrite covers_cons in E.
    assert (iv_Start ia = iv_Start ib) as Hs.
    { pose proof (proj1 (E (iv_Start ia)) (or_introl (conj (Z.le_refl _) A2))) as [?|?%Cb];
      pose proof (proj2 (E (iv_Start ib)) (or_introl (conj (Z.le_refl _) B2))) as [?|?%Ca]; lia. }
    assert (iv_End ia = iv_End ib) as He.
    { destruct (Z.lt_trichotomy (iv_End ia) (iv_End ib)) as [Hl|[Hl|Hl]]; [|done|].
      - destruct (proj2 (E (iv_End ia + 1))) as [?|?%Ca]; lia.
      - destruct (proj1 (E (iv_End ib + 1))) as [?|?%Cb]; lia. }
    f_equal; [destruct ia, ib; cbn in *; congruence|].
    eapply IH; [exact A4|exact B4|]. intros n. split; intros Hn.
    + destruct (proj1 (E n) (or_intror Hn)) as [?|?]; [apply Ca in Hn; lia|done].
    + destruct (proj2 (E n) (or_intror Hn)) as [?|?]; [apply Cb in Hn; lia|done].
Qed.

(** ** [normalizeIntervals] *)

Lemma by_start_total a b : by_start a b = false -> by_start b a = true.
Proof. unfold by_start. intros H. boolp. apply Z.leb_le. lia. Qed.

Lemma by_start_trans a b c : by_start a b = true -> by_start b c = true -> by_start a c = true.
Proof. unfold by_start. intros H1 H2. boolp. apply Z.leb_le. lia. Qed.

Lemma coalesce_spec last rest :
  Forall iv_valid (last :: rest) ->
  StronglySorted (fun a b => by_start a b = true) (last :: rest) ->
  separated (iv_Start last) (coalesce last rest) /\
  forall n, covers (coalesce last rest) n <-> covers (last :: rest) n.
Proof.
  revert last. induction rest as [|iv rest IH]; intros last Hv Hs; cbn.
  - inversion Hv as [|?? (? & ? & ?) _]; subst. split; [repeat split; lia|done].
  - inversion Hv as [|?? (L1 & L2 & L3) Hv']; subst. inversion Hv' as [|?? (I1 & I2 & I3) Hr]; subst.
    inversion Hs as [|?? Hs' Hb]; subst. inversion Hs' as [|?? Hs'' Hb']; subst.
    inversion Hb as [|?? Hli Hb'']; subst. unfold by_start in Hli; boolp.
    destruct (_ || _) eqn:E.
    + assert (iv_Start iv <= iv_End last + 1) as Hadj.
      { destruct (Z.eq_dec (iv_End last) MaxInt64) as [He|]; [lia|].
        apply orb_true_iff in E as [E|E]; boolp; [lia|].
        rewrite i64_id in E; unfold MinInt64; lia. }
      set (last' := if iv_End last <? iv_End iv then _ else last).
      assert (iv_Start last' = iv_Start last /\ iv_End last' = Z.max (iv_End last) (iv_End iv))
        as [Es Ee] by (subst last'; destruct (Z.ltb_spec (iv_End last) (iv_End iv)); cbn; lia).
      destruct (IH last') as [Hsep Hcov].
      * constructor; [unfold iv_valid; lia|done].
      * constructor; [done|]. eapply List.Forall_impl; [|exact Hb''].
        unfold by_start. intros ? ?. boolp. apply Z.leb_le. lia.
      * rewrite Es in Hsep. split; [done|]. intros n. rewrite Hcov, !covers_cons, Es, Ee.
        pose proof (covers_nil n). split; [intros [?|?]|intros [?|[?|?]]]; try tauto; lia.
    + apply orb_false_iff in E as [E1 E2]. boolp.
      rewrite i64_id in E2 by (unfold MinInt64; lia).
      destruct (IH iv) as [Hsep Hcov]; [done..|]. cbn. split.
      * repeat split; [lia..|]. eapply separated_weaken; [|exact Hsep]. lia.
      * intros n. rewrite !covers_cons, Hcov, covers_cons. tauto.
Qed.

Lemma normalizeIntervals_covers_normalized ivs :
  Forall iv_valid ivs ->
  normalized (normalizeIntervals ivs) /\ forall n, covers (normalizeIntervals ivs) n <-> covers ivs n.
Proof.
  intros Hv. unfold normalizeIntervals. destruct (Nat.leb_spec (length ivs) 1) as [Hl|Hl].
  - split; [|done]. destruct ivs as [|iv [|? ?]]; cbn in Hl; [done| |lia].
    inversion Hv as [|?? (? & ? & ?) _]; subst. repeat split; lia.
  - pose proof (isort_perm by_start ivs) as Hp.
    pose proof (isort_sorted by_start by_start_total by_start_trans ivs) as Hs.
    destruct (isort by_start ivs) as [|iv rest] eqn:E.
    { apply Permutation_nil_l in Hp. subst; cbn in Hl; lia. }
    destruct (coalesce_spec iv rest) as [Hsep Hcov].
    { by rewrite Hp. }
    { done. }
    split.
    + eapply separated_weaken; [|exact Hsep].
      assert (iv_valid iv) as (? & _); [|done].
      rewrite <- Hp in Hv. by inversion Hv.
    + intros n. rewrite Hcov. by apply covers_perm.
Qed.

(** An unstable sort gives the same result: the outcome depends only on the
    transactions covered, so not on the order of the input. *)
Lemma normalizeIntervals_ext a b :
  Forall iv_valid a -> Forall iv_valid b -> (forall n, covers a n <-> covers b n) ->
  normalizeIntervals a = normalizeIntervals b.
Proof.
  intros Ha Hb E.
  destruct (normalizeIntervals_covers_normalized a Ha) as [Na Ca].
  destruct (normalizeIntervals_covers_normalized b Hb) as [Nb Cb].
  eapply separated_canonical; [exact Na|exact Nb|]. intros n. by rewrite Ca, Cb.
Qed.

Lemma normalizeIntervals_id ivs : normalized ivs -> normalizeIntervals ivs = ivs.
Proof.
  intros Hn. destruct (normalizeIntervals_covers_normalized ivs) as [Hn' Hc];
    [by apply normalized_valid|].
  eapply separated_canonical; [exact Hn'|exact Hn|done].
Qed.

Lemma normalizeIntervals_nonempty ivs : ivs <> [] -> normalizeIntervals ivs <> [].
Proof.
  intros Hne. unfold normalizeIntervals. destruct (Nat.leb_spec (length ivs) 1) as [Hl|Hl]; [done|].
  pose proof (isort_perm by_start ivs) as Hp.
  destruct (isort by_start ivs) as [|iv rest]; [by apply Permutation_nil_l in Hp|].
  clear. revert iv. induction rest as [|x rest IH]; intros iv; cbn; [done|].
  destruct (_ || _); [apply IH|done].
Qed.

(** ** [intervalsCover] *)

Lemma covers_dec_gap lo ivs n m :
  separated lo ivs -> (forall k, n <= k <= m -> covers ivs k) -> n <= m ->
  exists iv, iv ∈ ivs /\ iv_Start iv <= n /\ m <= iv_End iv.
Proof.
  revert lo. induction ivs as [|iv ivs IH]; intros lo; cbn.
  - intros _ H Hnm. destruct (covers_nil n). apply H. lia.
  - intros (S1 & S2 & S3 & S4) H Hnm.
    assert (forall k, covers ivs k -> iv_End iv + 2 <= k) as Hlo by
      (intros k Hk; eapply separated_bounds in Hk; eauto; lia).
    destruct (proj1 (covers_cons iv ivs n) (H n ltac:(lia))) as [Hn|Hn].
    + exists iv. rewrite elem_of_cons. split; [by left|]. split; [lia|].
      destruct (Z.le_gt_cases m (iv_End iv)) as [|Hgt]; [done|].
      destruct (proj1 (covers_cons iv ivs (iv_End iv + 1)) (H (iv_End iv + 1) ltac:(lia))) as [|?%Hlo]; lia.
    + pose proof (Hlo _ Hn). destruct (IH _ S4) as (iv' & Hin & Hr); [|done|].
      * intros k Hk. destruct (proj1 (covers_cons iv ivs k) (H _ Hk)) as [|]; [lia|done].
      * exists iv'. rewrite elem_of_cons. eauto.
Qed.

(** A range is covered exactly when one coalesced range covers it. *)
Lemma intervalsCover_spec mine iv :
  normalized mine -> iv_Start iv <= iv_End iv ->
  intervalsCover mine iv = true <-> forall n, iv_Start iv <= n <= iv_End iv -> covers mine n.
Proof.
  intros Hm Hiv. unfold intervalsCover. rewrite existsb_exists. split.
  - intros (m & Hin & Hc) n Hn. boolp. exists m. rewrite list_elem_of_In. split; [done|lia].
  - intros H. destruct (covers_dec_gap 1 mine (iv_Start iv) (iv_End iv)) as (m & Hin & H1 & H2);
      [done..|]. exists m. rewrite <- list_elem_of_In. split; [done|].
    apply andb_true_iff; split; apply Z.leb_le; lia.
Qed.

(** ** [minus] *)

Lemma minus_loop_spec iv_end sub lo start :
  separated lo sub -> 1 <= lo -> 1 <= start -> start <= iv_end -> iv_end <= MaxInt64 ->
  separated start (minus_loop iv_end sub start) /\
  forall n, covers (minus_loop iv_end sub start) n <-> start <= n <= iv_end /\ ~ covers sub n.
Proof.
  revert lo start. induction sub as [|m sub IH]; intros lo start Hsub Hlo Hs1 Hs2 Hmax;
    cbn [minus_loop].
  { split; [cbn; lia|]. intros n. rewrite covers_singleton. cbn.
    pose proof (covers_nil n). tauto. }
  destruct Hsub as (M1 & M2 & M3 & M4).
  assert (forall k, covers sub k -> iv_End m + 2 <= k) as Hge by
    (intros k Hk; eapply separated_bounds in Hk; eauto; lia).
  destruct (Z.ltb_spec (iv_End m) start) as [Hb|Hb].
  { destruct (IH (iv_End m + 2) start) as [Hsep Hcov]; [done|lia..|]. split; [done|].
    intros n. rewrite Hcov, covers_cons. split; intros [? Hn]; (split; [done|]); [|tauto].
    intros [?|?]; [lia|tauto]. }
  destruct (Z.ltb_spec iv_end (iv_Start m)) as [Ha|Ha].
  { split; [cbn; lia|]. intros n. rewrite covers_singleton, covers_cons. cbn.
    split; [|tauto]. intros Hn. split; [done|]. intros [?|?%Hge]; lia. }
  rewrite (i64_id (iv_Start m - 1)) by (unfold MinInt64; lia).
  set (piece := if start <? iv_Start m then _ else _).
  assert (forall n, covers piece n <-> start <= n < iv_Start m) as Hpiece.
  { intros n. subst piece. destruct (Z.ltb_spec start (iv_Start m)).
    - rewrite covers_singleton. cbn. lia.
    - pose proof (covers_nil n). split; [tauto|lia]. }
  assert (separated start piece) as Hpsep.
  { subst piece. destruct (Z.ltb_spec start (iv_Start m)); cbn; lia. }
  destruct (Z.leb_spec iv_end (iv_End m)) as [He|He].
  { split; [done|]. intros n. rewrite Hpiece, covers_cons. split.
    - intros Hn. split; [lia|]. intros [?|?%Hge]; lia.
    - intros [Hn Hnc]. destruct (Z.lt_ge_cases n (iv_Start m)); [lia|].
      destruct Hnc. left. lia. }
  rewrite (i64_id (iv_End m + 1)) by (unfold MinInt64; lia).
  destruct (IH (iv_End m + 2) (iv_End m + 1)) as [Hsep Hcov]; [done|lia..|]. split.
  - apply separated_join; [done| |].
    + eapply separated_weaken; [|exact Hsep]. lia.
    + intros a b Hpa%Hpiece Hb'%Hcov. lia.
  - intros n. rewrite covers_app, Hpiece, Hcov, covers_cons. split.
    + intros [Hn|[Hn Hnc]]; (split; [lia|]); [intros [?|?%Hge]; lia|].
      intros [?|?]; [lia|tauto].
    + intros [Hn Hnc]. destruct (Z.lt_ge_cases n (iv_Start m)); [left; lia|].
      right. split; [|tauto]. destruct (Z.le_gt_cases n (iv_End m)); [|lia].
      destruct Hnc. left. lia.
Qed.

Lemma minus_spec iv sub :
  iv_valid iv -> normalized sub ->
  separated (iv_Start iv) (minus iv sub) /\
  forall n, covers (minus iv sub) n <-> iv_Start iv <= n <= iv_End iv /\ ~ covers sub n.
Proof. intros (? & ? & ?) Hs. by eapply (minus_loop_spec _ _ 1). Qed.

Lemma minus_all_spec lo ivs sub :
  separated lo ivs -> 1 <= lo -> normalized sub ->
  separated lo (ivs ≫= fun iv => minus iv sub) /\
  forall n, covers (ivs ≫= fun iv => minus iv sub) n <-> covers ivs n /\ ~ covers sub n.
Proof.
  intros Hi Hlo Hs. revert lo Hi Hlo. induction ivs as [|iv ivs IH]; intros lo Hi Hlo.
  { cbn. split; [done|]. intros n. pose proof (covers_nil n). tauto. }
  destruct Hi as (I1 & I2 & I3 & I4). rewrite bind_cons.
  destruct (IH (iv_End iv + 2) I4) as [Hsep Hcov]; [lia|].
  destruct (minus_spec iv sub) as [Hsep1 Hcov1]; [unfold iv_valid; lia|done|].
  split.
  - apply separated_join.
    + eapply separated_weaken; [|exact Hsep1]. lia.
    + eapply separated_weaken; [|exact Hsep]. lia.
    + intros n m Hn%Hcov1 [Hm _]%Hcov. eapply separated_bounds in Hm; eauto. lia.
  - intros n. rewrite covers_app, Hcov1, Hcov, covers_cons. tauto.
Qed.

(** ** [holes_of] *)

Lemma holes_of_spec lo ivs :
  separated lo ivs -> 1 <= lo ->
  separated (lo + 1) (holes_of ivs) /\
  forall n, covers (holes_of ivs) n <->
    ~ covers ivs n /\ (exists a, covers ivs a /\ a < n) /\ (exists b, covers ivs b /\ n < b).
Proof.
  revert lo. induction ivs as [|a ivs IH]; intros lo Hi Hlo.
  { cbn. split; [done|]. intros n. pose proof (covers_nil n). split; [tauto|].
    intros (_ & (x & Hx & _) & _). by apply covers_nil in Hx. }
  destruct ivs as [|b ivs].
  { cbn. split; [done|]. intros n. setoid_rewrite covers_singleton.
    pose proof (covers_nil n). split; [tauto|]. intros (H1 & (x & Hx) & (y & Hy)). lia. }
  destruct Hi as (A1 & A2 & A3 & Hb). pose proof Hb as (B1 & B2 & B3 & B4).
  cbn [holes_of]. fold (holes_of (b :: ivs)).
  rewrite !i64_id by (unfold MinInt64; lia).
  destruct (IH _ Hb) as [Hsep Hcov]; [lia|]. split.
  - cbn [separated iv_Start iv_End]. repeat split; [lia..|].
    eapply (separated_weaken (iv_Start b + 1)); [lia|].
    destruct (IH (iv_Start b)) as [H _]; [|lia|exact H]. cbn. repeat split; [lia..|done].
  - intros n. rewrite covers_cons, Hcov. cbn [iv_Start iv_End].
    assert (forall k, covers (b :: ivs) k -> iv_Start b <= k) as Hge.
    { intros k Hk. eapply (separated_bounds (iv_Start b)) in Hk; [lia|]. cbn.
      repeat split; [lia..|done]. }
    assert (forall k, covers (a :: b :: ivs) k <->
      iv_Start a <= k <= iv_End a \/ covers (b :: ivs) k) as Hc by (intros; apply covers_cons).
    split.
    + intros [Hn|(H1 & (x & Hx & Hxn) & (y & Hy & Hny))].
      * split; [rewrite Hc; intros [?|?%Hge]; lia|]. split.
        -- exists (iv_End a). rewrite Hc. split; [left; lia|lia].
        -- exists (iv_Start b). rewrite Hc, covers_cons. split; [right; left; lia|lia].
      * split; [rewrite Hc; intros [?|?]; [apply Hge in Hx; lia|tauto]|]. split.
        -- exists x. rewrite Hc. tauto.
        -- exists y. rewrite Hc. tauto.
    + intros (H1 & (x & Hx & Hxn) & (y & Hy & Hny)). rewrite Hc in *.
      destruct (Z.lt_ge_cases n (iv_Start b)) as [Hlt|Hgeb].
      * left. split; [|lia]. destruct Hx as [Hx|Hx%Hge]; [|lia]. lia.
      * right. split; [tauto|]. split.
        -- exists (iv_Start b). rewrite covers_cons. split; [left; lia|].
           destruct (Z.eq_dec n (iv_Start b)) as [->|]; [|lia].
           destruct H1. right. rewrite covers_cons. left; lia.
        -- exists y. split; [|done]. destruct Hy as [Hy|Hy]; [lia|done].
Qed.

(** ** [uncoveredBy] *)

(** How many transactions a list of disjoint ranges holds. *)
Definition ivs_size (ivs : list GTIDInterval) : Z :=
  foldr (fun iv acc => iv_End iv - iv_Start iv + 1 + acc) 0 ivs.

Lemma ivs_size_app a b : ivs_size (a ++ b) = ivs_size a + ivs_size b.
Proof. induction a as [|iv a IH]; cbn; [done|]. unfold ivs_size in *. rewrite IH. lia. Qed.

Lemma ivs_size_nonneg lo ivs : separated lo ivs -> 0 <= ivs_size ivs.
Proof.
  revert lo. induction ivs as [|iv ivs IH]; intros lo; cbn; [done|].
  intros (? & ? & ? & H). specialize (IH _ H). unfold ivs_size in *. lia.
Qed.

Lemma ivs_size_bound lo ivs e :
  separated lo ivs -> (forall n, covers ivs n -> n <= e) -> ivs <> [] -> ivs_size ivs <= e - lo + 1.
Proof.
  revert lo. induction ivs as [|iv ivs IH]; intros lo; cbn; [done|].
  intros (H1 & H2 & H3 & H4) He _.
  assert (iv_End iv <= e) by (apply He, covers_cons; left; lia).
  destruct ivs as [|iv' ivs]; [cbn; lia|].
  assert (ivs_size (iv' :: ivs) <= e - (iv_End iv + 2) + 1); [|unfold ivs_size in *; lia].
  apply IH; [done| |done]. intros n Hn. apply He, covers_cons. by right.
Qed.

Lemma ivs_size_zero lo ivs : separated lo ivs -> ivs_size ivs = 0 <-> ivs = [].
Proof.
  destruct ivs as [|iv ivs]; [done|]. cbn. intros (? & ? & ? & H).
  apply ivs_size_nonneg in H. unfold ivs_size in *. split; [lia|done].
Qed.

Lemma uncovered_loop_past iv mine lo r :
  separated lo mine -> iv_End iv < lo -> iv_valid iv -> uncovered_loop iv mine r = r.
Proof.
  destruct mine as [|m mine]; cbn; [done|]. intros (? & ? & ? & _) ? (? & ? & ?).
  destruct (Z.ltb_spec (iv_End m) (iv_Start iv)); [lia|].
  destruct (Z.ltb_spec (iv_End iv) (iv_Start m)); [done|lia].
Qed.

(** The subtraction of overlaps and the sweep of [minus] agree at every step. *)
Lemma uncovered_loop_spec iv mine lo st r :
  iv_valid iv -> separated lo mine -> 1 <= lo ->
  iv_Start iv <= st <= iv_End iv -> (st = iv_Start iv \/ st <= lo) ->
  iv_End iv - st + 1 <= r <= MaxInt64 ->
  uncovered_loop iv mine r = r - (iv_End iv - st + 1) + ivs_size (minus_loop (iv_End iv) mine st).
Proof.
  intros (V1 & V2 & V3). revert lo st r.
  induction mine as [|m mine IH]; intros lo st r Hm Hlo Hst Hor Hr; cbn [uncovered_loop minus_loop].
  { cbn. lia. }
  destruct Hm as (M1 & M2 & M3 & M4).
  destruct (Z.ltb_spec (iv_End m) (iv_Start iv)) as [E1|E1].
  { destruct (Z.ltb_spec (iv_End m) st); [|lia].
    destruct Hor; [|lia]. rewrite (IH (iv_End m + 2) st) by (done || lia). done. }
  destruct (Z.ltb_spec (iv_End m) st) as [E2|E2]; [lia|].
  destruct (Z.ltb_spec (iv_End iv) (iv_Start m)) as [E3|E3]; [cbn; lia|].
  assert (Z.max (iv_Start m) (iv_Start iv) = Z.max (iv_Start m) st) as -> by lia.
  unfold MaxInt64 in *.
  rewrite !(i64_id (_ - Z.max _ _)) by (unfold MinInt64, MaxInt64; lia).
  rewrite !(i64_id (_ - Z.max _ _ + 1)) by (unfold MinInt64, MaxInt64; lia).
  rewrite !(i64_id (r - _)) by (unfold MinInt64, MaxInt64; lia).
  rewrite (i64_id (iv_Start m - 1)) by (unfold MinInt64, MaxInt64; lia).
  set (piece := if st <? iv_Start m then _ else _).
  assert (ivs_size piece = Z.max 0 (iv_Start m - st)) as Hp by
    (subst piece; destruct (Z.ltb_spec st (iv_Start m)); cbn; lia).
  destruct (Z.leb_spec (iv_End iv) (iv_End m)) as [E4|E4].
  - rewrite (uncovered_loop_past iv mine (iv_End m + 2)) by (unfold iv_valid, MaxInt64; done || lia).
    lia.
  - rewrite (i64_id (iv_End m + 1)) by (unfold MinInt64, MaxInt64; lia).
    rewrite ivs_size_app, (IH (iv_End m + 2) (iv_End m + 1)) by (done || lia). lia.
Qed.

Lemma uncoveredBy_spec iv mine :
  iv_valid iv -> normalized mine -> uncoveredBy iv mine = ivs_size (minus iv mine).
Proof.
  intros Hv Hm. pose proof Hv as (V1 & V2 & V3). unfold uncoveredBy.
  unfold MaxInt64 in V3.
  rewrite (i64_id (iv_End iv - iv_Start iv)) by (unfold MinInt64, MaxInt64; lia).
  rewrite i64_id by (unfold MinInt64, MaxInt64; lia).
  destruct (Z.leb_spec (iv_End iv - iv_Start iv + 1) 0); [lia|].
  rewrite (uncovered_loop_spec iv mine 1 (iv_Start iv)) by
    first [exact Hv | exact Hm | unfold MaxInt64; lia].
  destruct (minus_spec iv mine Hv Hm) as [Hsep _].
  pose proof (ivs_size_nonneg _ _ Hsep). unfold minus in *. lia.
Qed.

Lemma uncoveredBy_bounds iv mine :
  iv_valid iv -> normalized mine -> 0 <= uncoveredBy iv mine <= MaxInt64.
Proof.
  intros Hv Hm. rewrite uncoveredBy_spec by done.
  destruct (minus_spec iv mine Hv Hm) as [Hsep Hc]. pose proof (ivs_size_nonneg _ _ Hsep).
  split; [done|]. destruct Hv as (? & ? & ?). destruct (minus iv mine) as [|x l] eqn:E; [done|].
  rewrite <- E in *. assert (ivs_size (minus iv mine) <= iv_End iv - iv_Start iv + 1); [|lia].
  apply ivs_size_bound; [done| |by rewrite E]. intros n Hn%Hc. lia.
Qed.

(** ** Sets *)

Lemma GTIDSet_get_lookup (s : GTIDSet) u ivs : s !! u = Some ivs -> GTIDSet_get s u = ivs.
Proof. unfold GTIDSet_get. by intros ->. Qed.

Lemma set_wf_get s u : set_wf s -> normalized (GTIDSet_get s u).
Proof.
  intros Hs. unfold GTIDSet_get. destruct (s !! u) as [ivs|] eqn:E; cbn; [|done].
  by apply Hs in E as (_ & ? & _).
Qed.

Lemma set_wf_lookup (s : GTIDSet) u ivs :
  set_wf s -> s !! u = Some ivs -> ivs <> [] /\ normalized ivs /\ ToLower u = u.
Proof. intros Hs E. by apply Hs in E. Qed.

Lemma set_wf_empty : set_wf ∅.
Proof. apply map_Forall_empty. Qed.

Lemma gtid_in_empty u n : ~ gtid_in ∅ u n.
Proof. unfold gtid_in, GTIDSet_get. rewrite lookup_empty. apply covers_nil. Qed.

Lemma gtid_in_lookup s u n :
  gtid_in s u n <-> exists ivs, s !! u = Some ivs /\ covers ivs n.
Proof.
  unfold gtid_in, GTIDSet_get. destruct (s !! u) as [ivs|] eqn:E; cbn; split.
  - intros H. eauto.
  - by intros (? & [= <-] & ?).
  - intros H. by apply covers_nil in H.
  - by intros (? & [=] & ?).
Qed.

Lemma gtid_in_bounds s u n : set_wf s -> gtid_in s u n -> 1 <= n <= MaxInt64.
Proof. intros Hs Hn. eapply separated_bounds; [|exact Hn]. by apply set_wf_get. Qed.

(** A well-formed set is determined by its transactions. *)
Lemma set_wf_canonical s t : set_wf s -> set_wf t -> gtid_equiv s t -> s = t.
Proof.
  intros Hs Ht E. apply map_eq. intros u. specialize (E u).
  unfold gtid_in, GTIDSet_get in E.
  destruct (s !! u) as [a|] eqn:Ea, (t !! u) as [b|] eqn:Eb; cbn in E.
  - f_equal. eapply separated_canonical; [by apply Hs in Ea as (_ & ? & _)|
      by apply Ht in Eb as (_ & ? & _)|done].
  - exfalso. apply Hs in Ea as (Hne & Hn & _). destruct a as [|iv a]; [done|].
    destruct Hn as (? & ? & _). destruct (covers_nil (iv_Start iv)). apply E, covers_cons. left; lia.
  - exfalso. apply Ht in Eb as (Hne & Hn & _). destruct b as [|iv b]; [done|].
    destruct Hn as (? & ? & _). destruct (covers_nil (iv_Start iv)). apply E, covers_cons. left; lia.
  - done.
Qed.

#[export] Instance gtid_equiv_equivalence : Equivalence gtid_equiv.
Proof.
  split.
  - done.
  - intros s t E u n. specialize (E u n). tauto.
  - intros s t r E1 E2 u n. specialize (E1 u n). specialize (E2 u n). tauto.
Qed.

#[export] Instance gtid_in_proper : Proper (gtid_equiv ==> (=) ==> (=) ==> iff) gtid_in.
Proof. intros s t E u ? <- n ? <-. apply E. Qed.

(** [IsEmpty] on any set whose entries hold a transaction. *)
Lemma GTIDSet_IsEmpty_spec s :
  set_wf s -> GTIDSet_IsEmpty s = true <-> forall u n, ~ gtid_in s u n.
Proof.
  intros Hs. unfold GTIDSet_IsEmpty. rewrite forallb_forall. split.
  - intros H u n (ivs & E & Hc)%gtid_in_lookup.
    specialize (H (u, ivs)). rewrite <- list_elem_of_In, elem_of_map_to_list in H.
    specialize (H E). cbn in H. apply Nat.eqb_eq, nil_length_inv in H. subst. by apply covers_nil in Hc.
  - intros H [u ivs]. rewrite <- list_elem_of_In, elem_of_map_to_list. intros E. exfalso.
    destruct (set_wf_lookup _ _ _ Hs E) as (Hne & Hn & _). destruct ivs as [|iv ivs]; [done|].
    destruct Hn as (? & ? & _). apply (H u (iv_Start iv)), gtid_in_lookup.
    eexists. split; [done|]. apply covers_cons. left; lia.
Qed.

Lemma GTIDSet_IsEmpty_wf s : set_wf s -> GTIDSet_IsEmpty s = true <-> s = ∅.
Proof.
  intros Hs. rewrite GTIDSet_IsEmpty_spec by done. split.
  - intros H. apply set_wf_canonical; [done|apply set_wf_empty|].
    intros u n. split; intros Hn; [by apply H in Hn|by apply gtid_in_empty in Hn].
  - intros -> u n. apply gtid_in_empty.
Qed.

(** *** [Contains] *)

(** Containment of every entry of [l], the specification of the loop. *)
Lemma Contains_loop_spec s l :
  set_wf s -> Forall (fun '(u, ivs) => ivs <> [] /\ normalized ivs) l ->
  Contains_loop s l = true <->
  Forall (fun '(u, ivs) => forall n, covers ivs n -> gtid_in s u n) l.
Proof.
  intros Hs. induction 1 as [|[u ivs] l [Hne Hn] Hl IH]; [split; [constructor|done]|].
  cbn [Contains_loop]. rewrite Forall_cons, <- IH. clear IH.
  assert (forall mine, normalized mine ->
    forallb (intervalsCover mine) ivs = true <-> forall n, covers ivs n -> covers mine n) as Hall.
  { intros mine Hm. rewrite forallb_forall. pose proof (normalized_valid _ Hn) as Hv.
    rewrite Forall_forall in Hv. split.
    - intros H n (iv & Hin & Hb). pose proof (Hv _ Hin) as (_ & ? & _).
      rewrite list_elem_of_In in Hin. by eapply (proj1 (intervalsCover_spec mine iv Hm ltac:(done)) (H _ Hin)).
    - intros H iv Hin. rewrite <- list_elem_of_In in Hin. pose proof (Hv _ Hin) as (_ & ? & _).
      apply intervalsCover_spec; [done..|]. intros n Hb. apply H. by exists iv. }
  unfold gtid_in, GTIDSet_get. destruct (s !! u) as [mine|] eqn:E; cbn.
  - specialize (Hall mine). destruct (set_wf_lookup _ _ _ Hs E) as (_ & Hm & _).
    destruct (forallb _ _) eqn:Ef; split.
    + intros H. split; [by apply Hall|done].
    + by intros [_ H].
    + done.
    + intros [H _]. by apply Hall in H.
  - destruct ivs as [|iv ivs]; [done|]. cbn. split; [done|]. intros [H _]. exfalso.
    destruct Hn as (? & ? & _). eapply (covers_nil (iv_Start iv)), H, covers_cons. left; lia.
Qed.

Lemma wf_entries s : set_wf s -> Forall (fun '(u, ivs) => ivs <> [] /\ normalized ivs) (map_to_list s).
Proof.
  intros Hs. apply Forall_forall. intros [u ivs] E%elem_of_map_to_list.
  by destruct (set_wf_lookup _ _ _ Hs E) as (? & ? & _).
Qed.

Lemma Contains_loop_perm s l l' :
  set_wf s -> Forall (fun '(u, ivs) => ivs <> [] /\ normalized ivs) l -> l ≡ₚ l' ->
  Contains_loop s l = Contains_loop s l'.
Proof.
  intros Hs Hl Hp. apply eq_true_iff_eq.
  rewrite !Contains_loop_spec by (done || by rewrite <- Hp). by rewrite Hp.
Qed.

Lemma GTIDSet_Contains_spec s other :
  set_wf s -> set_wf other ->
  GTIDSet_Contains s other = true <-> forall u n, gtid_in other u n -> gtid_in s u n.
Proof.
  intros Hs Ho. unfold GTIDSet_Contains.
  rewrite Contains_loop_spec by (done || by apply wf_entries). rewrite Forall_forall. split.
  - intros H u n (ivs & E & Hc)%gtid_in_lookup. apply elem_of_map_to_list in E. by apply (H _ E).
  - intros H [u ivs] E%elem_of_map_to_list n Hc. apply H, gtid_in_lookup. eauto.
Qed.

Lemma GTIDSet_Equal_spec s other :
  set_wf s -> set_wf other -> GTIDSet_Equal s other = true <-> s = other.
Proof.
  intros Hs Ho. unfold GTIDSet_Equal. rewrite andb_true_iff, !GTIDSet_Contains_spec by done.
  split.
  - intros [H1 H2]. apply set_wf_canonical; [done..|]. intros u n. naive_solver.
  - by intros ->.
Qed.

(** A non-empty set has a transaction. *)
Lemma gtid_witness s : set_wf s -> s <> ∅ -> exists u n, gtid_in s u n.
Proof.
  intros Hs Hne. apply map_choose in Hne as (u & ivs & E). exists u.
  destruct (Hs u ivs E) as (Hivs & Hn & _). destruct ivs as [|iv ivs]; [done|].
  exists (iv_Start iv). unfold gtid_in, GTIDSet_get. rewrite E. exists iv. split; [by left|].
  cbn in Hn. lia.
Qed.

(** *** [Difference], [Intersect], [Holes], [Clone] *)

Lemma GTIDSet_Difference_get s other u :
  GTIDSet_get (GTIDSet_Difference s other) u =
  GTIDSet_get s u ≫= (fun iv => minus iv (GTIDSet_get other u)).
Proof.
  unfold GTIDSet_Difference. generalize (GTIDSet_get other) as f; intros f.
  unfold GTIDSet_get. rewrite map_lookup_imap.
  destruct (s !! u) as [ivs|]; cbn; [|done]. by destruct (ivs ≫= _).
Qed.

Lemma GTIDSet_Difference_in s other u n :
  set_wf s -> set_wf other ->
  gtid_in (GTIDSet_Difference s other) u n <-> gtid_in s u n /\ ~ gtid_in other u n.
Proof.
  intros Hs Ho. unfold gtid_in at 1. rewrite GTIDSet_Difference_get.
  apply (minus_all_spec 1); [by apply set_wf_get|lia|by apply set_wf_get].
Qed.

Lemma GTIDSet_Difference_wf s other :
  set_wf s -> set_wf other -> set_wf (GTIDSet_Difference s other).
Proof.
  intros Hs Ho u kept E. unfold GTIDSet_Difference in E. rewrite map_lookup_imap in E.
  destruct (s !! u) as [ivs|] eqn:Eu; cbn in E; [|done].
  destruct (set_wf_lookup _ _ _ Hs Eu) as (_ & Hn & Hl).
  destruct (minus_all_spec 1 ivs (GTIDSet_get other u) Hn) as [Hsep _];
    [lia|by apply set_wf_get|].
  destruct (ivs ≫= _) as [|k ks] eqn:Ek; [done|]. injection E as <-. split; [done|]. split; [|done].
  exact Hsep.
Qed.

Lemma GTIDSet_Intersect_in s other u n :
  set_wf s -> set_wf other ->
  gtid_in (GTIDSet_Intersect s other) u n <-> gtid_in s u n /\ gtid_in other u n.
Proof.
  intros Hs Ho. unfold GTIDSet_Intersect.
  rewrite !GTIDSet_Difference_in by auto using GTIDSet_Difference_wf.
  assert (gtid_in other u n \/ ~ gtid_in other u n) as Hd; [|tauto].
  unfold gtid_in, covers. generalize (GTIDSet_get other u); intros ivs.
  induction ivs as [|iv ivs [IH|IH]]; [right; by intros (? & ?%not_elem_of_nil & _)|..].
  - left. destruct IH as (x & ? & ?). exists x. rewrite elem_of_cons. auto.
  - destruct (Z.le_gt_cases (iv_Start iv) n), (Z.le_gt_cases n (iv_End iv));
      [left; exists iv; rewrite elem_of_cons; auto|..];
      right; intros (x & [->|Hx]%elem_of_cons & ?); [lia|apply IH; eauto|lia|apply IH; eauto|lia|apply IH; eauto].
Qed.

Lemma GTIDSet_Intersect_wf s other :
  set_wf s -> set_wf other -> set_wf (GTIDSet_Intersect s other).
Proof. intros Hs Ho. unfold GTIDSet_Intersect. auto using GTIDSet_Difference_wf. Qed.

Lemma GTIDSet_Holes_get s u : GTIDSet_get (GTIDSet_Holes s) u = holes_of (GTIDSet_get s u).
Proof.
  unfold GTIDSet_Holes, GTIDSet_get. rewrite map_lookup_imap.
  destruct (s !! u) as [ivs|]; cbn; [|done]. by destruct (holes_of ivs).
Qed.

Lemma GTIDSet_Holes_in s u n :
  set_wf s ->
  gtid_in (GTIDSet_Holes s) u n <->
  ~ gtid_in s u n /\ (exists a, gtid_in s u a /\ a < n) /\ (exists b, gtid_in s u b /\ n < b).
Proof.
  intros Hs. unfold gtid_in at 1. rewrite GTIDSet_Holes_get.
  apply (holes_of_spec 1); [by apply set_wf_get|lia].
Qed.

Lemma GTIDSet_Holes_wf s : set_wf s -> set_wf (GTIDSet_Holes s).
Proof.
  intros Hs u hs E. unfold GTIDSet_Holes in E. rewrite map_lookup_imap in E.
  destruct (s !! u) as [ivs|] eqn:Eu; cbn in E; [|done].
  destruct (set_wf_lookup _ _ _ Hs Eu) as (_ & Hn & Hl).
  destruct (holes_of_spec 1 ivs Hn) as [Hsep _]; [lia|].
  destruct (holes_of ivs) as [|k ks] eqn:Ek; [done|]. injection E as <-. split; [done|]. split; [|done].
  eapply separated_weaken; [|exact Hsep]. lia.
Qed.

Lemma GTIDSet_Clone_id s : GTIDSet_Clone s = s.
Proof.
  unfold GTIDSet_Clone. rewrite <- (map_fmap_id s) at 2. apply map_fmap_ext. intros u ivs _. cbn.
  rewrite <- (list_fmap_id ivs) at 2. apply list_fmap_ext. by intros ? [].
Qed.

(** *** [AddInterval] and [Union] *)

Lemma GTIDSet_AddInterval_get s u iv v :
  GTIDSet_get (GTIDSet_AddInterval s u iv) v =
  if decide (v = ToLower u) then normalizeIntervals (GTIDSet_get s v ++ [iv]) else GTIDSet_get s v.
Proof.
  unfold GTIDSet_AddInterval, GTIDSet_get at 1. rewrite lookup_insert.
  repeat case_decide; subst; done.
Qed.

Lemma add_valid s u iv :
  set_wf s -> iv_valid iv -> Forall iv_valid (GTIDSet_get s u ++ [iv]).
Proof.
  intros Hs Hv. apply Forall_app. split; [|by constructor].
  by apply normalized_valid, set_wf_get.
Qed.

Lemma GTIDSet_AddInterval_wf s u iv :
  set_wf s -> iv_valid iv -> set_wf (GTIDSet_AddInterval s u iv).
Proof.
  intros Hs Hv. apply map_Forall_insert_2; [|done]. split; [|split].
  - apply normalizeIntervals_nonempty. by destruct (GTIDSet_get s (ToLower u)).
  - by apply normalizeIntervals_covers_normalized, add_valid.
  - apply ToLower_idem.
Qed.

Lemma GTIDSet_AddInterval_in s u iv v n :
  set_wf s -> iv_valid iv ->
  gtid_in (GTIDSet_AddInterval s u iv) v n <->
  gtid_in s v n \/ (v = ToLower u /\ iv_Start iv <= n <= iv_End iv).
Proof.
  intros Hs Hv. unfold gtid_in. rewrite GTIDSet_AddInterval_get. case_decide as E; [|tauto].
  destruct (normalizeIntervals_covers_normalized (GTIDSet_get s v ++ [iv])) as [_ ->];
    [by apply add_valid|].
  rewrite covers_app, covers_singleton. tauto.
Qed.

Lemma add_intervals_spec s u ivs :
  set_wf s -> Forall iv_valid ivs ->
  let s' := foldl (fun s iv => GTIDSet_AddInterval s u iv) s ivs in
  set_wf s' /\ forall v n, gtid_in s' v n <-> gtid_in s v n \/ (v = ToLower u /\ covers ivs n).
Proof.
  intros Hs Hv. revert s Hs. induction Hv as [|iv ivs Hiv Hv IH]; intros s Hs; cbn.
  - split; [done|]. intros v n. pose proof (covers_nil n). tauto.
  - destruct (IH (GTIDSet_AddInterval s u iv)) as [Hwf Hin]; [by apply GTIDSet_AddInterval_wf|].
    split; [done|]. intros v n. rewrite Hin, GTIDSet_AddInterval_in, covers_cons by done. tauto.
Qed.

(** The loop of [Union], whatever order the other map is walked in. *)
Lemma union_loop_spec s l :
  set_wf s -> Forall (fun '(u, ivs) => Forall iv_valid ivs) l ->
  let s' := foldl (fun s '(u, ivs) => foldl (fun s iv => GTIDSet_AddInterval s u iv) s ivs) s l in
  set_wf s' /\ forall v n, gtid_in s' v n <->
    gtid_in s v n \/ exists u ivs, (u, ivs) ∈ l /\ v = ToLower u /\ covers ivs n.
Proof.
  intros Hs Hl. revert s Hs. induction Hl as [|[u ivs] l Hv Hl IH]; intros s Hs; cbn.
  - split; [done|]. intros v n. split; [tauto|]. intros [?|(? & ? & ?%not_elem_of_nil & _)]; [done|done].
  - destruct (add_intervals_spec s u ivs Hs Hv) as [Hwf Hin].
    destruct (IH _ Hwf) as [Hwf' Hin']. split; [done|]. intros v n. rewrite Hin', Hin.
    setoid_rewrite elem_of_cons. split.
    + intros [[?|[-> ?]]|(u' & i' & ? & ? & ?)]; [by left|right; eauto 10|right; eauto 10].
    + intros [?|(u' & i' & [[= -> ->]|?] & ? & ?)]; [by left; left|by left; right|right; eauto].
Qed.

Lemma GTIDSet_Union_spec s other :
  set_wf s -> set_wf other ->
  set_wf (GTIDSet_Union s other) /\
  forall u n, gtid_in (GTIDSet_Union s other) u n <-> gtid_in s u n \/ gtid_in other u n.
Proof.
  intros Hs Ho. destruct (union_loop_spec s (map_to_list other) Hs) as [Hwf Hin].
  { apply Forall_forall. intros [u ivs] E%elem_of_map_to_list.
    by destruct (set_wf_lookup _ _ _ Ho E) as (_ & ?%normalized_valid & _). }
  split; [done|]. intros v n. unfold GTIDSet_Union. rewrite Hin. rewrite (gtid_in_lookup other).
  split; (intros [?|H]; [by left|right]).
  - destruct H as (u & ivs & E%elem_of_map_to_list & -> & Hc).
    destruct (set_wf_lookup _ _ _ Ho E) as (_ & _ & ->). eauto.
  - destruct H as (ivs & E & Hc). exists v, ivs. rewrite elem_of_map_to_list.
    by destruct (set_wf_lookup _ _ _ Ho E) as (_ & _ & ->).
Qed.

(** *** [MissingCount] *)

(** The number of transactions a set holds. *)
Definition gtid_size (s : GTIDSet) : Z :=
  foldr (fun '(_, ivs) acc => ivs_size ivs + acc) 0 (map_to_list s).

Definition missing_in (mine ivs : list GTIDInterval) : Z :=
  ivs_size (ivs ≫= fun iv => minus iv mine).

Lemma missing_loop_spec mine ivs m :
  normalized mine -> Forall iv_valid ivs -> 0 <= m <= MaxInt64 ->
  missing_loop mine ivs m =
  if m + missing_in mine ivs <=? MaxInt64 then Some (m + missing_in mine ivs) else None.
Proof.
  intros Hm Hv. revert m. induction Hv as [|iv ivs Hiv Hv IH]; intros m Hb; cbn [missing_loop].
  { unfold missing_in. cbn. rewrite Z.add_0_r. destruct (Z.leb_spec m MaxInt64); [done|lia]. }
  pose proof (uncoveredBy_bounds iv mine Hiv Hm) as Hu.
  assert (missing_in mine (iv :: ivs) = uncoveredBy iv mine + missing_in mine ivs) as ->.
  { unfold missing_in. by rewrite bind_cons, ivs_size_app, uncoveredBy_spec by done. }
  assert (0 <= missing_in mine ivs) as Hr.
  { clear IH. unfold missing_in. induction Hv as [|iv' ivs Hiv' Hv IH']; [done|].
    rewrite bind_cons, ivs_size_app. destruct (minus_spec iv' mine Hiv' Hm) as [Hs _].
    apply ivs_size_nonneg in Hs. lia. }
  rewrite (i64_id (MaxInt64 - _)) by (unfold MinInt64, MaxInt64 in *; lia).
  destruct (Z.ltb_spec (MaxInt64 - uncoveredBy iv mine) m).
  - destruct (Z.leb_spec (m + (uncoveredBy iv mine + missing_in mine ivs)) MaxInt64); [lia|done].
  - rewrite (i64_id (m + _)) by (unfold MinInt64; lia). rewrite IH by lia.
    by rewrite !Z.add_assoc.
Qed.

Lemma missing_in_nonneg lo mine ivs :
  separated lo ivs -> 1 <= lo -> normalized mine -> 0 <= missing_in mine ivs.
Proof. intros H1 H2 H3. eapply ivs_size_nonneg, (minus_all_spec lo); done. Qed.

Definition missing_total (s : GTIDSet) (l : list (string * list GTIDInterval)) : Z :=
  foldr (fun '(u, ivs) acc => missing_in (GTIDSet_get s u) ivs + acc) 0 l.

Lemma missing_total_nonneg s l :
  set_wf s -> Forall (fun '(u, ivs) => ivs <> [] /\ normalized ivs) l -> 0 <= missing_total s l.
Proof.
  intros Hs. induction 1 as [|[u ivs] l [_ Hn] Hl IH]; cbn; [done|].
  pose proof (missing_in_nonneg 1 (GTIDSet_get s u) ivs Hn ltac:(lia) (set_wf_get s u Hs)).
  unfold missing_total in IH. lia.
Qed.

Lemma MissingCount_loop_spec s l m :
  set_wf s -> Forall (fun '(u, ivs) => ivs <> [] /\ normalized ivs) l -> 0 <= m <= MaxInt64 ->
  MissingCount_loop s l m = Z.min MaxInt64 (m + missing_total s l).
Proof.
  intros Hs Hl. revert m. induction Hl as [|[u ivs] l [_ Hn] Hl IH]; intros m Hm; cbn.
  { lia. }
  rewrite missing_loop_spec by (done || by apply set_wf_get || by apply normalized_valid).
  pose proof (missing_in_nonneg 1 (GTIDSet_get s u) ivs Hn ltac:(lia) (set_wf_get s u Hs)).
  pose proof (missing_total_nonneg s l Hs Hl). fold (missing_total s l).
  destruct (Z.leb_spec (m + missing_in (GTIDSet_get s u) ivs) MaxInt64).
  - rewrite IH by lia. lia.
  - lia.
Qed.

Lemma missing_total_perm s l l' : l ≡ₚ l' -> missing_total s l = missing_total s l'.
Proof. unfold missing_total. induction 1 as [|[]|[] []|]; cbn; lia. Qed.

Lemma gtid_size_insert s u ivs :
  s !! u = None -> gtid_size (<[u:=ivs]> s) = ivs_size ivs + gtid_size s.
Proof.
  intros Hu. unfold gtid_size.
  assert (forall l l' : list (string * list GTIDInterval), l ≡ₚ l' ->
    foldr (fun '(_, i) acc => ivs_size i + acc) 0 l =
    foldr (fun '(_, i) acc => ivs_size i + acc) 0 l') as Hperm.
  { induction 1 as [|[]|[] []|]; cbn; lia. }
  by rewrite (Hperm _ _ (map_to_list_insert s u ivs Hu)).
Qed.

Lemma missing_total_size s other :
  missing_total s (map_to_list other) = gtid_size (GTIDSet_Difference other s).
Proof.
  induction other as [|u ivs other Hu IH] using map_ind.
  { unfold missing_total, GTIDSet_Difference, gtid_size. rewrite map_imap_empty.
    by rewrite !map_to_list_empty. }
  rewrite (missing_total_perm s _ _ (map_to_list_insert other u ivs Hu)). cbn.
  fold (missing_total s (map_to_list other)). rewrite IH.
  unfold GTIDSet_Difference. rewrite map_imap_insert. unfold missing_in. cbn zeta.
  destruct (ivs ≫= _) as [|k ks] eqn:Ek; cbn zeta.
  - rewrite delete_id; [done|]. rewrite map_lookup_imap. by rewrite Hu.
  - rewrite gtid_size_insert; [done|]. rewrite map_lookup_imap. by rewrite Hu.
Qed.

Lemma GTIDSet_MissingCount_spec s other :
  set_wf s -> set_wf other ->
  GTIDSet_MissingCount s other = Z.min MaxInt64 (gtid_size (GTIDSet_Difference other s)).
Proof.
  intros Hs Ho. unfold GTIDSet_MissingCount.
  rewrite MissingCount_loop_spec by first [done | by apply wf_entries | unfold MaxInt64; lia].
  by rewrite missing_total_size.
Qed.

Lemma gtid_size_zero s : set_wf s -> gtid_size s = 0 <-> s = ∅.
Proof.
  intros Hs. assert (0 <= gtid_size s /\ (gtid_size s = 0 <-> s = ∅)) as [_ H]; [|done].
  induction s as [|u ivs s Hu IH] using map_ind.
  { unfold gtid_size. by rewrite map_to_list_empty. }
  rewrite gtid_size_insert by done.
  assert (set_wf s) as Hs' by (intros v i E; apply Hs; rewrite lookup_insert_ne; [done|congruence]).
  specialize (IH Hs') as [IH1 IH2].
  destruct (set_wf_lookup _ u ivs Hs (lookup_insert_eq _ _ _)) as (Hne & Hn & _).
  pose proof (ivs_size_nonneg 1 ivs Hn).
  split; [lia|]. split; [|intros E; by apply insert_non_empty in E].
  intros E. exfalso. apply Hne, (ivs_size_zero 1 ivs Hn). lia.
Qed.

Lemma GTIDSet_MissingCount_zero s other :
  set_wf s -> set_wf other ->
  GTIDSet_MissingCount s other = 0 <-> GTIDSet_Contains s other = true.
Proof.
  intros Hs Ho. rewrite GTIDSet_MissingCount_spec, GTIDSet_Contains_spec by done.
  pose proof (GTIDSet_Difference_wf other s Ho Hs) as Hd.
  assert (0 <= gtid_size (GTIDSet_Difference other s)) as Hnn.
  { rewrite <- missing_total_size. by apply missing_total_nonneg; [|apply wf_entries]. }
  transitivity (gtid_size (GTIDSet_Difference other s) = 0); [unfold MaxInt64; lia|].
  rewrite gtid_size_zero by done. rewrite <- GTIDSet_IsEmpty_wf, GTIDSet_IsEmpty_spec by done.
  setoid_rewrite GTIDSet_Difference_in; [|done..]. split; [|naive_solver].
  intros H u n Hn. destruct (decide (Exists (fun iv => iv_Start iv <= n /\ n <= iv_End iv) (GTIDSet_get s u)))
    as [He|He].
  - apply Exists_exists in He as (iv & ? & ?). by exists iv.
  - destruct (H u n). split; [done|]. intros (iv & ? & ?). apply He, Exists_exists. eauto.
Qed.

(** ** Properties *)

(** Normalising valid intervals (sorting and coalescing overlaps and
    neighbours) yields the sorted, separated form of the same transactions, and
    that form depends on the transactions only. *)
Theorem normalize_is_canonical ivs :
  Forall iv_valid ivs ->
  normalized (normalizeIntervals ivs) /\ (forall n, covers (normalizeIntervals ivs) n <-> covers ivs n) /\
  forall ivs', Forall iv_valid ivs' -> (forall n, covers ivs n <-> covers ivs' n) ->
    normalizeIntervals ivs = normalizeIntervals ivs'.
Proof.
  intros Hv. destruct (normalizeIntervals_covers_normalized ivs Hv) as [H1 H2]. split_and!; [done..|].
  intros ivs' Hv' Heq. by apply normalizeIntervals_ext.
Qed.

Lemma normalize_is_canonical_witness :
  normalizeIntervals [mkGTIDInterval 7 9; mkGTIDInterval 1 3; mkGTIDInterval 4 5] = [mkGTIDInterval 1 5; mkGTIDInterval 7 9] /\
  normalized (normalizeIntervals [mkGTIDInterval 7 9; mkGTIDInterval 1 3; mkGTIDInterval 4 5]).
Proof.
  split; [reflexivity|].
  apply (normalize_is_canonical [mkGTIDInterval 7 9; mkGTIDInterval 1 3; mkGTIDInterval 4 5]).
  repeat constructor; cbn; unfold MaxInt64; lia.
Defined.

(** [Contains] is inclusion of transactions, whatever the order in which
    the map is walked (its early return included). *)
Theorem contains_is_inclusion s other :
  set_wf s -> set_wf other ->
  (GTIDSet_Contains s other = true <-> forall u n, gtid_in other u n -> gtid_in s u n) /\
  (GTIDSet_Equal s other = true <-> s = other) /\
  forall l, l ≡ₚ map_to_list other -> Contains_loop s l = GTIDSet_Contains s other.
Proof.
  intros Hs Ho. split_and!; [by apply GTIDSet_Contains_spec|by apply GTIDSet_Equal_spec|].
  intros l Hl. apply Contains_loop_perm; [done| |done]. rewrite Hl. by apply wf_entries.
Qed.

(** Two sources, one of them with a hole. *)
Definition sample_set : GTIDSet := <["a" := [mkGTIDInterval 1 5; mkGTIDInterval 8 9]]> (<["b" := [mkGTIDInterval 3 3]]> ∅).
Definition sample_part : GTIDSet := <["a" := [mkGTIDInterval 2 4]]> ∅.

Lemma sample_wf : set_wf sample_set /\ set_wf sample_part.
Proof.
  split; repeat (apply map_Forall_insert_2; [cbn; unfold normalized; cbn; unfold MaxInt64; split_and!; (done || lia)|]);
    apply map_Forall_empty.
Qed.

Lemma contains_is_inclusion_witness :
  GTIDSet_Contains sample_set sample_part = true /\ forall u n, gtid_in sample_part u n -> gtid_in sample_set u n.
Proof.
  split; [vm_compute; reflexivity|]. destruct sample_wf as [H1 H2].
  apply (contains_is_inclusion sample_set sample_part H1 H2). vm_compute. reflexivity.
Defined.

(** C26: The set algebra is exact and preserves the invariant: a union holds what
    either side holds, a difference what the left side holds and the right does
    not, an intersection what both hold, and the holes of a set are the numbers
    it lacks between two it has. *)
Theorem set_algebra_is_exact s other u n :
  set_wf s -> set_wf other ->
  (gtid_in (GTIDSet_Union s other) u n <-> gtid_in s u n \/ gtid_in other u n) /\
  (gtid_in (GTIDSet_Difference s other) u n <-> gtid_in s u n /\ ~ gtid_in other u n) /\
  (gtid_in (GTIDSet_Intersect s other) u n <-> gtid_in s u n /\ gtid_in other u n) /\
  (gtid_in (GTIDSet_Holes s) u n <->
     ~ gtid_in s u n /\ (exists a, gtid_in s u a /\ a < n) /\ (exists b, gtid_in s u b /\ n < b)) /\
  set_wf (GTIDSet_Union s other) /\ set_wf (GTIDSet_Difference s other) /\
  set_wf (GTIDSet_Intersect s other) /\ set_wf (GTIDSet_Holes s).
Proof.
  intros Hs Ho. destruct (GTIDSet_Union_spec s other Hs Ho) as [H1 H2].
  split_and!; [apply H2|by apply GTIDSet_Difference_in|by apply GTIDSet_Intersect_in|by apply GTIDSet_Holes_in|done|
    by apply GTIDSet_Difference_wf|by apply GTIDSet_Intersect_wf|by apply GTIDSet_Holes_wf].
Qed.

Lemma set_algebra_is_exact_witness :
  GTIDSet_get (GTIDSet_Difference sample_set sample_part) "a" = [mkGTIDInterval 1 1; mkGTIDInterval 5 5; mkGTIDInterval 8 9] /\
  (gtid_in (GTIDSet_Union sample_set sample_part) "a" 2 <-> gtid_in sample_set "a" 2 \/ gtid_in sample_part "a" 2).
Proof.
  split; [vm_compute; reflexivity|]. destruct sample_wf as [H1 H2].
  apply (set_algebra_is_exact sample_set sample_part "a" 2 H1 H2).
Defined.

(** [MissingCount] counts exactly the transactions that one set has and the
    other lacks, capped at the largest int64, without overflowing on the way; it
    is zero exactly for a contained set. *)
Theorem missing_count_is_exact s other :
  set_wf s -> set_wf other ->
  GTIDSet_MissingCount s other = Z.min MaxInt64 (gtid_size (GTIDSet_Difference other s)) /\
  0 <= GTIDSet_MissingCount s other <= MaxInt64 /\
  (GTIDSet_MissingCount s other = 0 <-> forall u n, gtid_in other u n -> gtid_in s u n).
Proof.
  intros Hs Ho. rewrite <- (GTIDSet_Contains_spec s other) by done. rewrite GTIDSet_MissingCount_zero by done.
  rewrite GTIDSet_MissingCount_spec by done. split_and!; [done| |unfold MaxInt64; lia|done].
  rewrite <- missing_total_size. pose proof (missing_total_nonneg s _ Hs (wf_entries other Ho)). unfold MaxInt64; lia.
Qed.

Lemma missing_count_is_exact_witness :
  GTIDSet_MissingCount sample_part sample_set = 5 /\
  GTIDSet_MissingCount sample_part sample_set = Z.min MaxInt64 (gtid_size (GTIDSet_Difference sample_set sample_part)).
Proof.
  split; [vm_compute; reflexivity|]. destruct sample_wf as [H1 H2].
  apply (missing_count_is_exact sample_part sample_set H2 H1).
Defined.
