(* ===== verification/GtidText.v ===== *)
(** * MySQL GTID sets: the text form

    [ParseGTIDSet], [GTIDSet.String] and the string-level operations of
    [pkg/management/mysql/replication/gtid.go].  The parser establishes
    [text_wf] (the invariant of [Gtid], plus keys that the printer can emit),
    and printing then parsing gives the set back, so that equal positions have
    equal strings. *)

From Stdlib Require Import ZArith Lia Bool Ascii String.
From stdpp Require Import base list strings gmap sorting.
From S2P Require Import Prelude GoStrings Gtid.

Local Open Scope Z_scope.
#[local] Arguments String.append : simpl nomatch.

(** ** Parsing *)

Definition parseInterval (s : string) : result GTIDInterval :=
  let bad := Err (Errorf "bad interval") in
  let '(lo, hi, ranged) := Cut s "-" in
  match ParseInt lo with
  | None => bad
  | Some start =>
      match (if ranged : bool then ParseInt hi else Some start) with
      | None => bad
      | Some end_ =>
          if (start <? 1) || (end_ <? start) then bad else Ok (mkGTIDInterval start end_)
      end
  end.

(** One [uuid:interval:interval...] group. *)
Definition parse_uuid_set (set : GTIDSet) (uuidSet : string) : result GTIDSet :=
  match Split uuidSet ":" with
  | p0 :: (_ :: _) as ivStrs =>
      let uuid := ToLower p0 in
      if String.eqb uuid "" then Err (Errorf "invalid gtid set: empty uuid")
      else fold_result (fun (set : GTIDSet) ivStr =>
             let? iv := wrapf "invalid gtid set" (parseInterval ivStr) in
             Ok (<[uuid := GTIDSet_get set uuid ++ [iv]]> set)) set ivStrs
  | _ => Err (Errorf "invalid gtid set: missing intervals")
  end.

Definition ParseGTIDSet (raw : string) : result GTIDSet :=
  let cleaned := string_filter (fun c => negb (is_gtid_space c)) raw in
  if String.eqb cleaned "" then Ok ∅
  else let? set := fold_result parse_uuid_set ∅ (Split cleaned ",") in
       Ok (normalizeIntervals <$> set).

(** ** Printing *)

Definition format_interval (iv : GTIDInterval) : string :=
  if iv_Start iv =? iv_End iv then FormatInt (iv_Start iv)
  else FormatInt (iv_Start iv) +:+ String "-" (FormatInt (iv_End iv)).

Definition format_source (uuid : string) (ivs : list GTIDInterval) : string :=
  foldl (fun b iv => b +:+ String ":" (format_interval iv)) uuid ivs.

Definition GTIDSet_String (s : GTIDSet) : string :=
  let uuids := isort String.leb
    (fst <$> List.filter (fun '(_, ivs) => Nat.ltb 0 (length ivs)) (map_to_list s)) in
  Join ((fun uuid => format_source uuid (GTIDSet_get s uuid)) <$> uuids) ",".

(** ** Operations on strings *)

Definition UnionGTIDStrings (sets : list string) : result string :=
  let? union := fold_result (fun union raw =>
    let? parsed := ParseGTIDSet raw in Ok (GTIDSet_Union union parsed)) ∅ sets in
  Ok (GTIDSet_String union).

Definition GTIDContains (superset subset : string) : result bool :=
  let? super := ParseGTIDSet superset in
  let? sub := ParseGTIDSet subset in
  Ok (GTIDSet_Contains super sub).

Definition DifferenceGTIDStrings (a b : string) : result string :=
  let? setA := ParseGTIDSet a in
  let? setB := ParseGTIDSet b in
  Ok (GTIDSet_String (GTIDSet_Difference setA setB)).

Definition IntersectsGTIDStrings (a b : string) : result bool :=
  let? setA := ParseGTIDSet a in
  let? setB := ParseGTIDSet b in
  Ok (negb (GTIDSet_Equal (GTIDSet_Difference setA setB) setA)).

Definition HolesGTIDString (raw : string) : result string :=
  let? set := ParseGTIDSet raw in
  Ok (GTIDSet_String (GTIDSet_Holes set)).

Definition IntersectGTIDStrings (a b : string) : result string :=
  let? setA := ParseGTIDSet a in
  let? setB := ParseGTIDSet b in
  Ok (GTIDSet_String (GTIDSet_Intersect setA setB)).

(** ** The invariant of a parsed set *)

(** A source key the printer can emit: not empty, lower case, and free of the
    characters that separate or are dropped. *)
Definition key_char (c : ascii) : bool :=
  negb (Ascii.eqb c ",") && negb (Ascii.eqb c ":") && negb (is_gtid_space c).

Definition key_ok (u : string) : Prop := u <> "" /\ all_chars key_char u = true.

Definition text_wf (s : GTIDSet) : Prop := set_wf s /\ map_Forall (fun u _ => key_ok u) s.

Lemma text_wf_set s : text_wf s -> set_wf s.
Proof. by intros [? _]. Qed.

(** A subset of the keys keeps the keys printable. *)
Lemma text_wf_dom s t :
  text_wf s -> set_wf t -> (forall u, is_Some (t !! u) -> is_Some (s !! u)) -> text_wf t.
Proof.
  intros [_ Hk] Ht Hd. split; [done|]. intros u ivs E.
  destruct (Hd u ltac:(eauto)) as [x Hx]. by apply Hk in Hx.
Qed.

(** ** The parser establishes the invariant *)

Lemma parseInterval_valid s iv : parseInterval s = Ok iv -> iv_valid iv.
Proof.
  unfold parseInterval. destruct (Cut s "-") as [[lo hi] ranged].
  destruct (ParseInt lo) as [start|] eqn:E1; [|done].
  destruct (if ranged then ParseInt hi else Some start) as [end_|] eqn:E2; [|done].
  destruct (_ || _) eqn:E; [done|]. intros [= <-]. boolp. unfold iv_valid; cbn.
  assert (end_ <= MaxInt64); [|lia].
  destruct ranged; [apply ParseInt_bound in E2; lia|]. injection E2 as <-.
  apply ParseInt_bound in E1; lia.
Qed.

(** What the accumulated map satisfies before normalisation. *)
Definition raw_wf (s : GTIDSet) : Prop :=
  map_Forall (fun u ivs => ivs <> [] /\ Forall iv_valid ivs /\ ToLower u = u /\ key_ok u) s.

Lemma raw_wf_get s u : raw_wf s -> Forall iv_valid (GTIDSet_get s u).
Proof.
  intros Hs. unfold GTIDSet_get. destruct (s !! u) eqn:E; cbn; [|constructor].
  by apply Hs in E as (_ & ? & _).
Qed.

Definition piece_char (c : ascii) : bool := negb (Ascii.eqb c ",") && negb (is_gtid_space c).

Lemma key_char_lower c : key_char c = true -> key_char (lower_ascii c) = true.
Proof. destruct c as [[] [] [] [] [] [] [] []]; done. Qed.

Lemma key_ok_lower p0 :
  all_chars piece_char p0 = true -> no_char ":" p0 = true -> ToLower p0 <> "" -> key_ok (ToLower p0).
Proof.
  intros Hp Hc Hne. split; [done|]. apply all_chars_ToLower; [apply key_char_lower|].
  clear Hne. revert Hp Hc. unfold no_char. induction p0 as [|c s IH]; cbn; [done|].
  unfold piece_char at 1. rewrite !andb_true_iff. intros [[H1 H2] H3] [H4 H5].
  unfold key_char at 1. rewrite H1, H2, H4. auto.
Qed.

Lemma raw_wf_add s u iv :
  raw_wf s -> ToLower u = u -> key_ok u -> iv_valid iv ->
  raw_wf (<[u := GTIDSet_get s u ++ [iv]]> s).
Proof.
  intros Hs Hl Hk Hv. apply map_Forall_insert_2; [|done]. split; [by destruct (GTIDSet_get s u)|].
  split; [|done]. apply Forall_app. split; [by apply raw_wf_get|by constructor].
Qed.

Lemma parse_uuid_set_wf set piece set' :
  all_chars piece_char piece = true -> raw_wf set -> parse_uuid_set set piece = Ok set' -> raw_wf set'.
Proof.
  intros Hp Hs. unfold parse_uuid_set. pose proof (Split_pieces _ _ ":" Hp) as Hps.
  destruct (Split piece ":") as [|p0 [|p1 ps]]; [done|done|].
  inversion Hps as [|?? [Hc Hn] _]; subst.
  destruct (String.eqb_spec (ToLower p0) "") as [|Hne]; [done|].
  apply (fold_result_inv _ raw_wf); [done|].
  intros s ivStr s' _ Hws H. inv_result. apply raw_wf_add; auto using ToLower_idem, key_ok_lower.
  by eapply parseInterval_valid.
Qed.

Lemma raw_wf_normalize s : raw_wf s -> text_wf (normalizeIntervals <$> s).
Proof.
  intros Hs. split; intros u ivs; rewrite lookup_fmap; destruct (s !! u) as [raw|] eqn:E; try done;
    cbn; intros [= <-]; apply Hs in E as (Hne & Hv & Hl & Hk); [|done].
  split; [by apply normalizeIntervals_nonempty|]. split; [|done].
  by apply normalizeIntervals_covers_normalized.
Qed.

Lemma text_wf_empty : text_wf ∅.
Proof. split; apply map_Forall_empty. Qed.

Lemma cleaned_pieces raw sep :
  let cleaned := string_filter (fun c => negb (is_gtid_space c)) raw in
  Forall (fun x => all_chars (fun c => negb (is_gtid_space c)) x = true /\ no_char sep x = true)
         (Split cleaned sep).
Proof. cbn zeta. apply Split_pieces, string_filter_all. Qed.

Lemma piece_char_of x :
  all_chars (fun c => negb (is_gtid_space c)) x = true -> no_char "," x = true ->
  all_chars piece_char x = true.
Proof.
  unfold no_char. induction x as [|c x IH]; cbn; [done|]. rewrite !andb_true_iff.
  intros [H1 H2] [H3 H4]. unfold piece_char at 1. rewrite H1, H3. auto.
Qed.

Lemma ParseGTIDSet_wf raw s : ParseGTIDSet raw = Ok s -> text_wf s.
Proof.
  unfold ParseGTIDSet. pose proof (cleaned_pieces raw ",") as Hp. cbn zeta in Hp.
  destruct (String.eqb _ "") eqn:E; [intros [= <-]; apply text_wf_empty|].
  intros H. inv_result. apply raw_wf_normalize.
  eapply (fold_result_inv _ raw_wf); [apply map_Forall_empty| |done].
  intros b p b' Hin Hb Hf. rewrite Forall_forall in Hp. apply Hp in Hin as [H1 H2].
  eapply parse_uuid_set_wf; [|done..]. by apply piece_char_of.
Qed.

(** The operations keep the keys printable. *)
Lemma GTIDSet_Difference_text s t : text_wf s -> text_wf t -> text_wf (GTIDSet_Difference s t).
Proof.
  intros Hs Ht. eapply text_wf_dom; [exact Hs|apply GTIDSet_Difference_wf; by apply text_wf_set|].
  intros u [x Hx]. unfold GTIDSet_Difference in Hx. rewrite map_lookup_imap in Hx.
  destruct (s !! u); [eauto|done].
Qed.

Lemma GTIDSet_Intersect_text s t : text_wf s -> text_wf t -> text_wf (GTIDSet_Intersect s t).
Proof. intros Hs Ht. unfold GTIDSet_Intersect. auto using GTIDSet_Difference_text. Qed.

Lemma GTIDSet_Holes_text s : text_wf s -> text_wf (GTIDSet_Holes s).
Proof.
  intros Hs. eapply text_wf_dom; [exact Hs|apply GTIDSet_Holes_wf; by apply text_wf_set|].
  intros u [x Hx]. unfold GTIDSet_Holes in Hx. rewrite map_lookup_imap in Hx.
  destruct (s !! u); [eauto|done].
Qed.

Lemma GTIDSet_AddInterval_text s u iv :
  text_wf s -> iv_valid iv -> key_ok (ToLower u) -> text_wf (GTIDSet_AddInterval s u iv).
Proof.
  intros [Hs Hk] Hv Hu. split; [by apply GTIDSet_AddInterval_wf|]. by apply map_Forall_insert_2.
Qed.

Lemma GTIDSet_Union_text s t : text_wf s -> text_wf t -> text_wf (GTIDSet_Union s t).
Proof.
  intros [Hs Hk] [Ht Hkt]. split; [by apply GTIDSet_Union_spec|].
  unfold GTIDSet_Union.
  assert (Forall (fun '(u, _) => key_ok (ToLower u)) (map_to_list t)) as Hl.
  { apply Forall_forall. intros [u ivs] E%elem_of_map_to_list.
    destruct (set_wf_lookup _ _ _ Ht E) as (_ & _ & ->). by apply Hkt in E. }
  clear Hs Ht Hkt. revert s Hk. induction Hl as [|[u ivs] l Hu Hl IH]; intros s Hk; cbn; [done|].
  apply IH. clear IH Hl. revert s Hk. induction ivs as [|iv ivs IH]; intros s Hk; cbn; [done|].
  apply IH. by apply map_Forall_insert_2.
Qed.

#[export] Hint Resolve text_wf_set text_wf_empty GTIDSet_Difference_text GTIDSet_Intersect_text
  GTIDSet_Holes_text GTIDSet_Union_text ParseGTIDSet_wf : gtid.

(** ** Printing then parsing *)

Lemma format_interval_chars iv :
  iv_valid iv -> all_chars (fun c => is_digit c || Ascii.eqb c "-") (format_interval iv) = true.
Proof.
  intros (? & ? & ?). assert (forall n, 0 <= n ->
    all_chars (fun c => is_digit c || Ascii.eqb c "-") (FormatInt n) = true) as Hd.
  { intros n Hn. rewrite FormatInt_FormatUint by done.
    eapply all_chars_impl; [|apply FormatUint_digits]. cbn. by intros c ->. }
  unfold format_interval. destruct (_ =? _); [apply Hd; lia|].
  rewrite all_chars_app. cbn. rewrite !Hd by lia. done.
Qed.

Lemma parseInterval_format iv : iv_valid iv -> parseInterval (format_interval iv) = Ok iv.
Proof.
  intros (H1 & H2 & H3). unfold parseInterval, format_interval.
  rewrite !(FormatInt_FormatUint (iv_Start iv)), !(FormatInt_FormatUint (iv_End iv)) by lia.
  destruct (Z.eqb_spec (iv_Start iv) (iv_End iv)) as [E|E].
  - rewrite Cut_no_sep by (by apply FormatUint_no_char).
    rewrite <- FormatInt_FormatUint, ParseInt_FormatInt by lia.
    destruct (Z.ltb_spec (iv_Start iv) 1); [lia|]. cbn. rewrite Z.ltb_irrefl.
    destruct iv; cbn in *; by subst.
  - rewrite Cut_app by (by apply FormatUint_no_char).
    rewrite <- !FormatInt_FormatUint, !ParseInt_FormatInt by lia.
    destruct (Z.ltb_spec (iv_Start iv) 1), (Z.ltb_spec (iv_End iv) (iv_Start iv)); try lia.
    by destruct iv.
Qed.

Lemma Split_foldl u l :
  no_char ":" u = true -> Forall (fun s => no_char ":" s = true) l ->
  Split (foldl (fun b s => b +:+ String ":" s) u l) ":" = u :: l.
Proof.
  intros Hu Hl.
  assert (foldl (fun b s => b +:+ String ":" s) u l = Join (u :: l) ":") as ->.
  { clear Hu Hl. revert u. induction l as [|s l IH]; intros u; cbn [foldl]; [done|].
    rewrite IH. unfold Join. destruct l as [|t l].
    - done.
    - cbn [String.concat]. change (":" +:+ ?x) with (String ":" x).
      by rewrite append_assoc. }
  apply Split_Join; [done|]. by constructor.
Qed.

Lemma key_ok_no_colon u : key_ok u -> no_char ":" u = true.
Proof.
  intros [_ H]. eapply all_chars_impl; [|exact H]. unfold key_char. cbn. intros c.
  rewrite !andb_true_iff. tauto.
Qed.

Lemma format_source_Split u ivs :
  key_ok u -> Forall iv_valid ivs ->
  Split (format_source u ivs) ":" = u :: (format_interval <$> ivs).
Proof.
  intros Hk Hv. unfold format_source.
  assert (foldl (fun b iv => b +:+ String ":" (format_interval iv)) u ivs =
          foldl (fun b s => b +:+ String ":" s) u (format_interval <$> ivs)) as ->.
  { clear. revert u. induction ivs as [|iv ivs IH]; intros u; cbn; [done|]. apply IH. }
  apply Split_foldl; [by apply key_ok_no_colon|].
  apply Forall_fmap. eapply List.Forall_impl; [|exact Hv]. intros iv Hi. cbn.
  eapply all_chars_impl; [|by apply format_interval_chars]. cbn. intros c.
  rewrite orb_true_iff. intros [Hd|Hd]; [by rewrite digit_not|].
  apply Ascii.eqb_eq in Hd. by subst.
Qed.

Lemma add_all_intervals set u ivs :
  Forall iv_valid ivs ->
  fold_result (fun (set : GTIDSet) ivStr =>
     let? iv := wrapf "invalid gtid set" (parseInterval ivStr) in
     Ok (<[u := GTIDSet_get set u ++ [iv]]> set)) set (format_interval <$> ivs) =
  Ok (if decide (ivs = []) then set else <[u := GTIDSet_get set u ++ ivs]> set).
Proof.
  intros Hv. revert set. induction Hv as [|iv ivs Hi Hv IH]; intros set; cbn [fmap list_fmap fold_result].
  - by rewrite decide_True.
  - rewrite parseInterval_format by done. cbn [wrapf rbind]. rewrite IH.
    rewrite (decide_False (P := iv :: ivs = [])) by done. f_equal.
    unfold GTIDSet_get. case_decide; subst; [done|].
    rewrite lookup_insert_eq, insert_insert_eq. cbn. by rewrite <- app_assoc.
Qed.

Lemma parse_format_source set u ivs :
  key_ok u -> ToLower u = u -> Forall iv_valid ivs -> ivs <> [] -> set !! u = None ->
  parse_uuid_set set (format_source u ivs) = Ok (<[u := ivs]> set).
Proof.
  intros Hk Hl Hv Hne Hu. unfold parse_uuid_set. rewrite format_source_Split by done.
  destruct ivs as [|iv ivs]; [done|]. cbn [fmap list_fmap]. rewrite Hl.
  destruct (String.eqb_spec u "") as [->|_]; [by destruct Hk|].
  etransitivity; [exact (add_all_intervals set u (iv :: ivs) Hv)|].
  rewrite decide_False by done. unfold GTIDSet_get. by rewrite Hu.
Qed.

Lemma add_sources_lookup (s : GTIDSet) l (acc : GTIDSet) u :
  foldl (fun a v => <[v := GTIDSet_get s v]> a) acc l !! u =
  if decide (u ∈ l) then Some (GTIDSet_get s u) else acc !! u.
Proof.
  revert acc. induction l as [|v l IH]; intros acc; cbn.
  - rewrite decide_False by apply not_elem_of_nil. done.
  - rewrite IH, lookup_insert. repeat case_decide; subst; try done; set_solver.
Qed.

Lemma parse_sources (s acc : GTIDSet) l :
  text_wf s -> NoDup l -> (forall u, u ∈ l -> is_Some (s !! u) /\ acc !! u = None) ->
  fold_result parse_uuid_set acc ((fun u => format_source u (GTIDSet_get s u)) <$> l) =
  Ok (foldl (fun a v => <[v := GTIDSet_get s v]> a) acc l).
Proof.
  intros [Hs Hk] Hnd. revert acc. induction Hnd as [|u l Hu Hnd IH]; intros acc Hl; [done|].
  cbn [fmap list_fmap fold_result foldl].
  destruct (Hl u) as [[ivs E] Hacc]; [by left|].
  rewrite (GTIDSet_get_lookup _ _ _ E).
  destruct (set_wf_lookup _ _ _ Hs E) as (Hne & Hn & Hlow).
  rewrite parse_format_source; [|by apply Hk in E|done|by apply normalized_valid|done|done].
  cbn [rbind]. apply IH. intros v Hv. destruct (Hl v) as [H1 H2]; [by right|].
  split; [done|]. rewrite lookup_insert_ne; [done|]. intros ->. done.
Qed.

Lemma string_keys s :
  set_wf s ->
  isort String.leb (fst <$> List.filter (fun '(_, ivs) => Nat.ltb 0 (length ivs)) (map_to_list s))
  ≡ₚ fst <$> map_to_list s.
Proof.
  intros Hs. rewrite isort_perm. pose proof (wf_entries s Hs) as Hall.
  induction Hall as [|[u ivs] l [Hne _] Hl IH]; [done|]. cbn.
  destruct ivs as [|iv ivs]; [done|]. cbn. by rewrite IH.
Qed.

Lemma format_source_chars u ivs :
  key_ok u -> Forall iv_valid ivs ->
  format_source u ivs <> "" /\ all_chars piece_char (format_source u ivs) = true.
Proof.
  intros [Hne Hk] Hv.
  assert (all_chars piece_char u = true) as Hu.
  { eapply all_chars_impl; [|exact Hk]. unfold key_char, piece_char. intros c.
    rewrite !andb_true_iff. tauto. }
  clear Hk. unfold format_source. revert u Hne Hu.
  induction Hv as [|iv ivs Hi Hv IH]; intros u Hne Hu; cbn [foldl]; [done|].
  apply IH; [by destruct u|]. rewrite all_chars_app. cbn. rewrite Hu. cbn.
  eapply all_chars_impl; [|by apply format_interval_chars].
  intros c. rewrite orb_true_iff. intros [Hd|Hd].
  - unfold piece_char, is_gtid_space. by rewrite !digit_not.
  - apply Ascii.eqb_eq in Hd. by subst.
Qed.

Lemma ParseGTIDSet_String s : text_wf s -> ParseGTIDSet (GTIDSet_String s) = Ok s.
Proof.
  intros Hs. pose proof (text_wf_set s Hs) as Hw. unfold GTIDSet_String.
  pose proof (string_keys s Hw) as Hperm. cbn zeta. set (keys := isort _ _) in *.
  assert (forall u, u ∈ keys -> is_Some (s !! u)) as Hkeys.
  { intros u. rewrite Hperm, list_elem_of_fmap. intros ([v ivs] & -> & E%elem_of_map_to_list). by exists ivs. }
  set (pieces := (fun u => format_source u (GTIDSet_get s u)) <$> keys).
  assert (Forall (fun p => p <> "" /\ all_chars piece_char p = true) pieces) as Hp.
  { apply Forall_fmap, Forall_forall. intros u Hu. cbn. destruct (Hkeys u Hu) as [ivs E].
    rewrite (GTIDSet_get_lookup _ _ _ E). apply format_source_chars.
    - by apply Hs in E.
    - by destruct (set_wf_lookup _ _ _ Hw E) as (_ & ?%normalized_valid & _). }
  unfold ParseGTIDSet.
  rewrite string_filter_id.
  2:{ clear -Hp. unfold Join. induction Hp as [|p l [_ Hp] Hl IH]; [done|]. cbn [String.concat].
      assert (all_chars (fun c => negb (is_gtid_space c)) p = true).
      { eapply all_chars_impl; [|exact Hp]. unfold piece_char. intros c. rewrite andb_true_iff. tauto. }
      destruct l; [done|]. rewrite !all_chars_app. by rewrite H, IH. }
  destruct (String.eqb_spec (Join pieces ",") "") as [E|E].
  - destruct keys as [|u keys'].
    + f_equal. symmetry. apply map_to_list_empty_iff. apply Permutation_nil_l in Hperm.
      by destruct (map_to_list s).
    + exfalso. cbn in pieces. subst pieces. inversion Hp as [|?? [Hne _] _]; subst.
      unfold Join in E. destruct (format_source u (GTIDSet_get s u)) as [|c r]; [done|].
      cbn in E. by destruct keys'.
  - rewrite Split_Join.
    2:{ intros ->. done. }
    2:{ eapply List.Forall_impl; [|exact Hp]. cbn. intros p [_ H]. eapply all_chars_impl; [|exact H].
        unfold piece_char. intros c. rewrite andb_true_iff. tauto. }
    subst pieces. rewrite parse_sources; [|done| |].
    + cbn. f_equal. apply map_eq. intros u. rewrite lookup_fmap, add_sources_lookup, lookup_empty.
      case_decide as Hu; cbn.
      * destruct (Hkeys u Hu) as [ivs E']. rewrite (GTIDSet_get_lookup _ _ _ E'), E'. f_equal.
        apply normalizeIntervals_id. by destruct (set_wf_lookup _ _ _ Hw E') as (_ & ? & _).
      * destruct (s !! u) as [ivs|] eqn:E'; [|done]. destruct Hu. rewrite Hperm, list_elem_of_fmap.
        exists (u, ivs). by rewrite elem_of_map_to_list.
    + rewrite Hperm. apply NoDup_fst_map_to_list.
    + intros u Hu. split; [by apply Hkeys|done].
Qed.

(** Equal positions have equal strings, and only they do. *)
Lemma GTIDSet_String_inj s t : text_wf s -> text_wf t -> GTIDSet_String s = GTIDSet_String t -> s = t.
Proof.
  intros Hs Ht E. pose proof (ParseGTIDSet_String s Hs) as H. rewrite E, ParseGTIDSet_String in H by done.
  by injection H.
Qed.

Lemma GTIDSet_String_empty s : text_wf s -> GTIDSet_String s = "" <-> s = ∅.
Proof.
  intros Hs. split.
  - intros E. apply GTIDSet_String_inj; [done|apply text_wf_empty|by rewrite E].
  - by intros ->.
Qed.

(** ** What a text denotes *)

(** Transaction [u:n] is named by one of the groups [pieces]. *)
Definition named_by (pieces : list string) (u : string) (n : Z) : Prop :=
  exists piece p0 ivStrs ivStr iv,
    piece ∈ pieces /\ Split piece ":" = p0 :: ivStrs /\ ivStr ∈ ivStrs /\
    parseInterval ivStr = Ok iv /\ u = ToLower p0 /\ iv_Start iv <= n <= iv_End iv.

Lemma add_intervals_in set u ivStrs set' :
  fold_result (fun (set : GTIDSet) ivStr =>
     let? iv := wrapf "invalid gtid set" (parseInterval ivStr) in
     Ok (<[u := GTIDSet_get set u ++ [iv]]> set)) set ivStrs = Ok set' ->
  forall v n, gtid_in set' v n <-> gtid_in set v n \/
    (v = u /\ exists ivStr iv, ivStr ∈ ivStrs /\ parseInterval ivStr = Ok iv /\ iv_Start iv <= n <= iv_End iv).
Proof.
  revert set. induction ivStrs as [|x ivStrs IH]; intros set; cbn; intros H v n; inv_result.
  { split; [tauto|]. intros [?|(_ & ? & ? & ?%not_elem_of_nil & _)]; done. }
  rewrite (IH _ H). unfold gtid_in at 1, GTIDSet_get at 1. rewrite lookup_insert.
  setoid_rewrite elem_of_cons. case_decide as E; cbn.
  - subst v. rewrite covers_app, covers_singleton. fold (gtid_in set u n).
    split.
    + intros [[?|?]|(_ & s & iv & ? & ? & ?)]; [by left|right; eauto 10|right; eauto 10].
    + intros [?|(_ & s & iv & [->|?] & Hs & ?)]; [by left; left| |right; eauto 10].
      left; right. congruence.
  - fold (GTIDSet_get set v). fold (gtid_in set v n).
    split; (intros [?|(-> & _)]; [by left|done]).
Qed.

Lemma parse_uuid_set_in set piece set' :
  parse_uuid_set set piece = Ok set' ->
  forall u n, gtid_in set' u n <-> gtid_in set u n \/ named_by [piece] u n.
Proof.
  unfold parse_uuid_set, named_by. intros H u n. setoid_rewrite list_elem_of_singleton.
  destruct (Split piece ":") as [|p0 [|p1 ps]] eqn:E; [done|done|].
  destruct (String.eqb _ ""); [done|]. rewrite (add_intervals_in _ _ _ _ H).
  split; (intros [?|Hr]; [by left|right]).
  - destruct Hr as (-> & s & iv & ? & ? & ?). exists piece, p0, (p1 :: ps), s, iv. done.
  - destruct Hr as (? & q0 & qs & s & iv & -> & Hq & ? & ? & -> & ?). rewrite E in Hq.
    injection Hq as <- <-. split; [done|]. by exists s, iv.
Qed.

Lemma named_by_cons p l u n : named_by (p :: l) u n <-> named_by [p] u n \/ named_by l u n.
Proof.
  split.
  - intros (x & p0 & js & i & iv & [->|Hx]%elem_of_cons & H).
    + left. exists p, p0, js, i, iv. split; [by left|done].
    + right. exists x, p0, js, i, iv. done.
  - intros [(x & p0 & js & i & iv & ->%list_elem_of_singleton & H)|(x & p0 & js & i & iv & Hx & H)].
    + exists p, p0, js, i, iv. split; [by left|done].
    + exists x, p0, js, i, iv. split; [by right|done].
Qed.

Lemma named_by_nil u n : ~ named_by [] u n.
Proof. by intros (? & ? & ? & ? & ? & ?%not_elem_of_nil & _). Qed.

Lemma parse_pieces_in set pieces set' :
  fold_result parse_uuid_set set pieces = Ok set' ->
  forall u n, gtid_in set' u n <-> gtid_in set u n \/ named_by pieces u n.
Proof.
  revert set. induction pieces as [|p l IH]; intros set; cbn; intros H u n; inv_result.
  - pose proof (named_by_nil u n). tauto.
  - rewrite (IH _ H), (parse_uuid_set_in set p) by done. rewrite (named_by_cons p l). tauto.
Qed.

Lemma gtid_in_normalize (s : GTIDSet) u n :
  raw_wf s -> gtid_in (normalizeIntervals <$> s) u n <-> gtid_in s u n.
Proof.
  intros Hs. unfold gtid_in, GTIDSet_get. rewrite lookup_fmap.
  destruct (s !! u) as [ivs|] eqn:E; cbn; [|done]. apply Hs in E as (_ & Hv & _).
  by apply normalizeIntervals_covers_normalized.
Qed.

Definition clean (raw : string) : string := string_filter (fun c => negb (is_gtid_space c)) raw.

Lemma parse_pieces_wf raw set :
  fold_result parse_uuid_set ∅ (Split (clean raw) ",") = Ok set -> raw_wf set.
Proof.
  intros H. pose proof (cleaned_pieces raw ",") as Hp. rewrite Forall_forall in Hp.
  eapply (fold_result_inv _ raw_wf); [apply map_Forall_empty| |exact H].
  intros b p b' Hin Hb Hf. apply Hp in Hin as [H1 H2].
  eapply parse_uuid_set_wf; [|done..]. by apply piece_char_of.
Qed.

(** A parsed set holds exactly the transactions the text names. *)
Lemma ParseGTIDSet_in raw s :
  ParseGTIDSet raw = Ok s -> forall u n, gtid_in s u n <-> named_by (Split (clean raw) ",") u n.
Proof.
  unfold ParseGTIDSet. fold (clean raw). intros H u n. destruct (String.eqb_spec (clean raw) "") as [E|E].
  - injection H as <-. rewrite E. pose proof (gtid_in_empty u n). split; [done|].
    intros (p & p0 & ps & x & iv & ->%list_elem_of_singleton & [= <- <-] & ?%not_elem_of_nil & _). done.
  - inv_result. rewrite gtid_in_normalize by (by eapply parse_pieces_wf).
    erewrite parse_pieces_in by done. pose proof (gtid_in_empty u n). tauto.
Qed.

(** ** The string-level operations *)

Lemma UnionGTIDStrings_spec sets out :
  UnionGTIDStrings sets = Ok out ->
  exists parsed U, map_result ParseGTIDSet sets = Ok parsed /\ out = GTIDSet_String U /\
    ParseGTIDSet out = Ok U /\ text_wf U /\
    forall u n, gtid_in U u n <-> exists s, s ∈ parsed /\ gtid_in s u n.
Proof.
  unfold UnionGTIDStrings. intros H. inv_result.
  enough (forall acc U, text_wf acc ->
    fold_result (fun union raw => let? p := ParseGTIDSet raw in Ok (GTIDSet_Union union p)) acc sets = Ok U ->
    exists parsed, map_result ParseGTIDSet sets = Ok parsed /\ text_wf U /\
      forall u n, gtid_in U u n <-> gtid_in acc u n \/ exists s, s ∈ parsed /\ gtid_in s u n) as Hgen.
  { destruct (Hgen ∅ x text_wf_empty) as (parsed & Hp & Hw & Hin); [done|].
    exists parsed, x. split; [done|]. split; [done|]. split; [by apply ParseGTIDSet_String|].
    split; [done|]. intros u n. rewrite Hin. pose proof (gtid_in_empty u n). tauto. }
  clear. induction sets as [|raw sets IH]; intros acc U Hacc H; cbn in H.
  - injection H as <-. exists []. split; [done|]. split; [done|]. intros u n. set_solver.
  - apply rbind_Ok in H as (a' & Hs & H). apply rbind_Ok in Hs as (p & Hraw & [= <-]).
    destruct (IH (GTIDSet_Union acc p) U) as (parsed & Hp & Hw & Hin); eauto with gtid.
    exists (p :: parsed). cbn. rewrite Hraw. cbn. rewrite Hp. split; [done|]. split; [done|].
    intros u n. rewrite Hin. destruct (GTIDSet_Union_spec acc p) as [_ ->]; eauto with gtid.
    set_solver.
Qed.

Lemma DifferenceGTIDStrings_spec a b out :
  DifferenceGTIDStrings a b = Ok out ->
  exists A B D, ParseGTIDSet a = Ok A /\ ParseGTIDSet b = Ok B /\ out = GTIDSet_String D /\
    ParseGTIDSet out = Ok D /\ text_wf D /\
    forall u n, gtid_in D u n <-> gtid_in A u n /\ ~ gtid_in B u n.
Proof.
  unfold DifferenceGTIDStrings. intros H. inv_result.
  exists x, x0, (GTIDSet_Difference x x0). split; [done|]. split; [done|]. split; [done|].
  split; [apply ParseGTIDSet_String; eauto with gtid|]. split; [eauto with gtid|].
  intros u n. apply GTIDSet_Difference_in; eauto with gtid.
Qed.

Lemma IntersectGTIDStrings_spec a b out :
  IntersectGTIDStrings a b = Ok out ->
  exists A B D, ParseGTIDSet a = Ok A /\ ParseGTIDSet b = Ok B /\ ParseGTIDSet out = Ok D /\ text_wf D /\
    forall u n, gtid_in D u n <-> gtid_in A u n /\ gtid_in B u n.
Proof.
  unfold IntersectGTIDStrings. intros H. inv_result.
  exists x, x0, (GTIDSet_Intersect x x0). split; [done|]. split; [done|].
  split; [apply ParseGTIDSet_String; eauto with gtid|]. split; [eauto with gtid|].
  intros u n. apply GTIDSet_Intersect_in; eauto with gtid.
Qed.

Lemma gtid_in_dec s u n : gtid_in s u n \/ ~ gtid_in s u n.
Proof.
  destruct (decide (Exists (fun iv => iv_Start iv <= n /\ n <= iv_End iv) (GTIDSet_get s u))) as [He|He].
  - left. apply Exists_exists in He as (iv & ? & ?). by exists iv.
  - right. intros (iv & ? & ?). apply He, Exists_exists. eauto.
Qed.

Lemma IntersectsGTIDStrings_spec a b r :
  IntersectsGTIDStrings a b = Ok r ->
  exists A B, ParseGTIDSet a = Ok A /\ ParseGTIDSet b = Ok B /\
    (r = false <-> forall u n, gtid_in A u n -> ~ gtid_in B u n).
Proof.
  unfold IntersectsGTIDStrings. intros H. inv_result. exists x, x0. split; [done|]. split; [done|].
  assert (set_wf x) as Hx by eauto with gtid. assert (set_wf x0) as Hx0 by eauto with gtid.
  rewrite negb_false_iff, GTIDSet_Equal_spec by auto using GTIDSet_Difference_wf. split.
  - intros E u n Hn. rewrite <- E in Hn. by apply GTIDSet_Difference_in in Hn as [_ ?].
  - intros Hd. apply set_wf_canonical; [auto using GTIDSet_Difference_wf..|].
    intros u n. rewrite GTIDSet_Difference_in by done. naive_solver.
Qed.

(** ** Properties *)

(** A parsed GTID set holds exactly the transactions its text names: number
    [n] of source [u] when some piece [u:...:a-b:...] has [a <= n <= b], the
    source lowercased; and the parsed set satisfies the invariant. *)
Theorem parse_denotes_named_transactions raw s :
  ParseGTIDSet raw = Ok s ->
  text_wf s /\ forall u n, gtid_in s u n <-> named_by (Split (clean raw) ",") u n.
Proof. intros H. split; [by eapply ParseGTIDSet_wf|by apply ParseGTIDSet_in]. Qed.

Definition sample_text : string := "A1:1-5:7, b2:3".
Definition sample_parsed : GTIDSet := Eval vm_compute in match ParseGTIDSet sample_text with Ok s => s | Err _ => ∅ end.

Lemma parse_denotes_named_transactions_witness :
  GTIDSet_String sample_parsed = "a1:1-5:7,b2:3" /\ text_wf sample_parsed.
Proof.
  split; [vm_compute; reflexivity|].
  apply (parse_denotes_named_transactions sample_text sample_parsed). vm_compute. reflexivity.
Defined.

(** C28: Printing and parsing are inverse: a parsed set prints to a text that
    parses back to it, and two parsed sets print alike exactly when they hold the
    same transactions. *)
Theorem print_parse_roundtrip raw raw' s s' :
  ParseGTIDSet raw = Ok s -> ParseGTIDSet raw' = Ok s' ->
  ParseGTIDSet (GTIDSet_String s) = Ok s /\
  (GTIDSet_String s = GTIDSet_String s' <-> forall u n, gtid_in s u n <-> gtid_in s' u n).
Proof.
  intros Hs Hs'. apply ParseGTIDSet_wf in Hs as W, Hs' as W'. split; [by apply ParseGTIDSet_String|]. split.
  - intros E. apply GTIDSet_String_inj in E; [by subst|done..].
  - intros E. by rewrite (set_wf_canonical s s') by (try apply text_wf_set; done).
Qed.

Lemma print_parse_roundtrip_witness :
  ParseGTIDSet (GTIDSet_String sample_parsed) = Ok sample_parsed.
Proof.
  apply (print_parse_roundtrip sample_text sample_text sample_parsed sample_parsed); vm_compute; reflexivity.
Defined.
