(* ===== verification/GtidModel.v ===== *)
(** * The GTID interface of the engines

    [Ordering] and [GTIDModel] of [pkg/engine/gtid.go], and the MySQL model of
    [pkg/engine/gtid_mysql.go].  The interface is a class of operations on
    engine-opaque strings; [GTIDModelLaws] states what a client (the failover
    election, the replay planner) may rely on, in terms of the transactions a
    string holds.  Both engines are instances. *)

From Stdlib Require Import ZArith Lia Bool Ascii String.
From stdpp Require Import base list strings gmap.
From S2P Require Import Prelude GoStrings Gtid GtidText.

Local Open Scope Z_scope.

(** ** Ordering *)

Inductive Ordering :=
| OrderingEqual
| OrderingAhead
| OrderingBehind
| OrderingDiverged.

#[export] Instance Ordering_eq_dec : EqDecision Ordering.
Proof. solve_decision. Defined.

(** [Ordering.String]. *)
Definition Ordering_String (o : Ordering) : string :=
  match o with
  | OrderingEqual => "equal"
  | OrderingAhead => "ahead"
  | OrderingBehind => "behind"
  | OrderingDiverged => "diverged"
  end.

Definition orderingFromContainment (aContainsB bContainsA : bool) : Ordering :=
  if aContainsB && bContainsA then OrderingEqual
  else if aContainsB then OrderingAhead
  else if bContainsA then OrderingBehind
  else OrderingDiverged.

(** ** The interface *)

Class GTIDModel := {
  gm_Contains : string -> string -> result bool;
  gm_MissingCount : string -> string -> result Z;
  gm_Union : list string -> result string;
  gm_Equal : string -> string -> result bool;
  gm_Compare : string -> string -> result Ordering;
  gm_IsEmpty : string -> result bool;
  gm_Canonical : string -> result string
}.

(** What the four orderings mean for two sets of transactions. *)
Definition ordering_of {T} (a b : T -> Prop) (o : Ordering) : Prop :=
  match o with
  | OrderingEqual => (forall t, b t -> a t) /\ (forall t, a t -> b t)
  | OrderingAhead => (forall t, b t -> a t) /\ ~ (forall t, a t -> b t)
  | OrderingBehind => ~ (forall t, b t -> a t) /\ (forall t, a t -> b t)
  | OrderingDiverged => ~ (forall t, b t -> a t) /\ ~ (forall t, a t -> b t)
  end.

Lemma orderingFromContainment_spec {T} (a b : T -> Prop) ab ba :
  (ab = true <-> forall t, b t -> a t) -> (ba = true <-> forall t, a t -> b t) ->
  ordering_of a b (orderingFromContainment ab ba).
Proof.
  unfold orderingFromContainment, ordering_of. intros H1 H2.
  destruct ab, ba; cbn; rewrite <- H1, <- H2; done.
Qed.

(** The contract of an engine's model.  [gm_holds raw t]: the position [raw]
    holds the transaction [t]; [gm_valid raw]: the engine can read [raw]. *)
Class GTIDModelLaws (M : GTIDModel) := {
  gm_txn : Type;
  gm_holds : string -> gm_txn -> Prop;
  gm_valid : string -> Prop;
  gm_valid_canonical raw : gm_valid raw <-> is_ok (gm_Canonical raw) = true;
  gm_valid_empty : gm_valid "";
  gm_holds_empty t : ~ gm_holds "" t;
  gm_contains_ok a b : gm_valid a -> gm_valid b ->
    exists r, gm_Contains a b = Ok r /\ (r = true <-> forall t, gm_holds b t -> gm_holds a t);
  gm_contains_err a b : ~ gm_valid a \/ ~ gm_valid b -> exists e, gm_Contains a b = Err e;
  gm_missing_ok have want : gm_valid have -> gm_valid want ->
    exists m, gm_MissingCount have want = Ok m /\ 0 <= m <= MaxInt64 /\
      ((forall t, gm_holds want t -> gm_holds have t) -> m = 0);
  gm_union_ok sets : Forall gm_valid sets ->
    exists u, gm_Union sets = Ok u /\ gm_valid u /\
      forall t, gm_holds u t <-> exists s, s ∈ sets /\ gm_holds s t;
  gm_union_err sets : ~ Forall gm_valid sets -> exists e, gm_Union sets = Err e;
  gm_equal_ok a b : gm_valid a -> gm_valid b ->
    exists r, gm_Equal a b = Ok r /\ (r = true <-> forall t, gm_holds a t <-> gm_holds b t);
  gm_compare_ok a b : gm_valid a -> gm_valid b ->
    exists o, gm_Compare a b = Ok o /\ ordering_of (gm_holds a) (gm_holds b) o;
  gm_isempty_ok a : gm_valid a ->
    exists r, gm_IsEmpty a = Ok r /\ (r = true <-> forall t, ~ gm_holds a t);
  gm_canonical_ok a c : gm_Canonical a = Ok c ->
    gm_Canonical c = Ok c /\ forall t, gm_holds c t <-> gm_holds a t
}.

(** The same contract at a given meaning of positions, as one statement. *)
Record contract (M : GTIDModel) {T} (holds : string -> T -> Prop) (valid : string -> Prop) : Prop := {
  ct_canonical raw : (valid raw <-> exists c, gm_Canonical raw = Ok c) /\
    forall c, gm_Canonical raw = Ok c -> gm_Canonical c = Ok c /\ forall t, holds c t <-> holds raw t;
  ct_empty : valid "" /\ forall t, ~ holds "" t;
  ct_contains a b : (exists r, gm_Contains a b = Ok r) <-> valid a /\ valid b;
  ct_contains_iff a b r : gm_Contains a b = Ok r -> r = true <-> forall t, holds b t -> holds a t;
  ct_missing have want : valid have -> valid want ->
    exists m, gm_MissingCount have want = Ok m /\ 0 <= m <= MaxInt64 /\
      ((forall t, holds want t -> holds have t) -> m = 0);
  ct_union sets : (exists u, gm_Union sets = Ok u) <-> Forall valid sets;
  ct_union_iff sets u : gm_Union sets = Ok u -> valid u /\ forall t, holds u t <-> exists s, s ∈ sets /\ holds s t;
  ct_equal a b : valid a -> valid b ->
    exists r, gm_Equal a b = Ok r /\ (r = true <-> forall t, holds a t <-> holds b t);
  ct_compare a b : valid a -> valid b -> exists o, gm_Compare a b = Ok o /\ ordering_of (holds a) (holds b) o;
  ct_isempty a : valid a -> exists r, gm_IsEmpty a = Ok r /\ (r = true <-> forall t, ~ holds a t)
}.

Section Contract.
Context {M : GTIDModel} {L : GTIDModelLaws M}.

Lemma gm_valid_dec x : gm_valid x \/ ~ gm_valid x.
Proof. rewrite gm_valid_canonical. destruct (is_ok (gm_Canonical x)); [by left|by right]. Qed.

Lemma gm_contains_valid a b r : gm_Contains a b = Ok r -> gm_valid a /\ gm_valid b.
Proof.
  intros H. destruct (gm_valid_dec a) as [|Ha]; [|destruct (gm_contains_err a b (or_introl Ha)) as [? ?]; congruence].
  destruct (gm_valid_dec b) as [|Hb]; [done|]. destruct (gm_contains_err a b (or_intror Hb)) as [? ?]; congruence.
Qed.

Lemma gm_union_valid sets u : gm_Union sets = Ok u -> Forall gm_valid sets.
Proof.
  intros H. assert (Forall gm_valid sets \/ ~ Forall gm_valid sets) as [|Hn]; [|done|].
  - clear H. induction sets as [|s sets [IH|IH]]; [left; constructor| |].
    + destruct (gm_valid_dec s); [by left; constructor|right; by inversion 1].
    + right; by inversion 1.
  - destruct (gm_union_err _ Hn) as [? ?]. congruence.
Qed.

Lemma gm_contract : contract M gm_holds gm_valid.
Proof.
  split.
  - intros raw. split; [|apply gm_canonical_ok]. rewrite gm_valid_canonical.
    destruct (gm_Canonical raw); cbn; split; [eauto|done|done|by intros [? [=]]].
  - split; [apply gm_valid_empty|apply gm_holds_empty].
  - intros a b. split; [intros [r Hr]; by eapply gm_contains_valid|]. intros [Ha Hb].
    destruct (gm_contains_ok a b Ha Hb) as (r & ? & _). eauto.
  - intros a b r H. destruct (gm_contains_valid _ _ _ H) as [Ha Hb].
    destruct (gm_contains_ok a b Ha Hb) as (r' & H' & Hr). by replace r with r' by congruence.
  - apply gm_missing_ok.
  - intros sets. split; [intros [u Hu]; by eapply gm_union_valid|]. intros H.
    destruct (gm_union_ok sets H) as (u & ? & _). eauto.
  - intros sets u H. destruct (gm_union_ok sets (gm_union_valid _ _ H)) as (u' & H' & ? & ?).
    by replace u with u' by congruence.
  - apply gm_equal_ok.
  - apply gm_compare_ok.
  - apply gm_isempty_ok.
Qed.
End Contract.

(** ** The MySQL model *)

Definition mysqlGTID_Contains (superset subset : string) : result bool := GTIDContains superset subset.

Definition mysqlGTID_MissingCount (have want : string) : result Z :=
  let? setHave := ParseGTIDSet have in
  let? setWant := ParseGTIDSet want in
  Ok (GTIDSet_MissingCount setHave setWant).

Definition mysqlGTID_Union (sets : list string) : result string := UnionGTIDStrings sets.

Definition mysqlGTID_Equal (a b : string) : result bool :=
  let? setA := ParseGTIDSet a in
  let? setB := ParseGTIDSet b in
  Ok (GTIDSet_Equal setA setB).

Definition mysqlGTID_Compare (a b : string) : result Ordering :=
  let? setA := ParseGTIDSet a in
  let? setB := ParseGTIDSet b in
  Ok (orderingFromContainment (GTIDSet_Contains setA setB) (GTIDSet_Contains setB setA)).

Definition mysqlGTID_IsEmpty (raw : string) : result bool :=
  let? set := ParseGTIDSet raw in
  Ok (GTIDSet_IsEmpty set).

Definition mysqlGTID_Canonical (raw : string) : result string :=
  let? set := ParseGTIDSet raw in
  Ok (GTIDSet_String set).

#[export] Instance mysqlGTID : GTIDModel := {|
  gm_Contains := mysqlGTID_Contains;
  gm_MissingCount := mysqlGTID_MissingCount;
  gm_Union := mysqlGTID_Union;
  gm_Equal := mysqlGTID_Equal;
  gm_Compare := mysqlGTID_Compare;
  gm_IsEmpty := mysqlGTID_IsEmpty;
  gm_Canonical := mysqlGTID_Canonical
|}.

(** A MySQL transaction is a source and a number. *)
Definition mysql_holds (raw : string) (t : string * Z) : Prop :=
  exists s, ParseGTIDSet raw = Ok s /\ gtid_in s (fst t) (snd t).

Definition mysql_valid (raw : string) : Prop := exists s, ParseGTIDSet raw = Ok s.

Lemma mysql_holds_parsed raw s t :
  ParseGTIDSet raw = Ok s -> mysql_holds raw t <-> gtid_in s (fst t) (snd t).
Proof.
  intros E. unfold mysql_holds. split; [|eauto]. intros (s' & E' & H). congruence.
Qed.

Lemma mysql_subset a b A B :
  ParseGTIDSet a = Ok A -> ParseGTIDSet b = Ok B ->
  GTIDSet_Contains A B = true <-> forall t, mysql_holds b t -> mysql_holds a t.
Proof.
  intros Ha Hb. rewrite GTIDSet_Contains_spec by eauto with gtid. split.
  - intros H [u n]. rewrite (mysql_holds_parsed b B), (mysql_holds_parsed a A) by done. apply H.
  - intros H u n. specialize (H (u, n)).
    by rewrite (mysql_holds_parsed b B), (mysql_holds_parsed a A) in H by done.
Qed.

Lemma mysql_union_err sets : ~ Forall mysql_valid sets -> exists e, UnionGTIDStrings sets = Err e.
Proof.
  intros H. destruct (UnionGTIDStrings sets) as [u|e] eqn:E; [|eauto]. destruct H.
  apply UnionGTIDStrings_spec in E as (parsed & U & Hp & _). apply map_result_Forall2 in Hp.
  clear -Hp. induction Hp as [|raw s sets parsed Hr Hp IH]; constructor; [by exists s|done].
Qed.

Lemma mysql_union_ok sets :
  Forall mysql_valid sets ->
  exists u, UnionGTIDStrings sets = Ok u /\ mysql_valid u /\
    forall t, mysql_holds u t <-> exists s, s ∈ sets /\ mysql_holds s t.
Proof.
  intros Hv. destruct (UnionGTIDStrings sets) as [u|e] eqn:E.
  - exists u. split; [done|]. apply UnionGTIDStrings_spec in E as (parsed & U & Hp & -> & HU & _ & Hin).
    split; [by exists U|]. intros [x n]. rewrite (mysql_holds_parsed _ U) by done. rewrite Hin. cbn.
    apply map_result_Forall2 in Hp. split.
    + intros (s & Hs & Hn). apply list_elem_of_lookup in Hs as [i Hi].
      destruct (Forall2_lookup_r _ _ _ _ _ Hp Hi) as (raw & Hr & Er). exists raw.
      split; [by eapply list_elem_of_lookup_2|]. by exists s.
    + intros (raw & Hr & (s & Es & Hn)). apply list_elem_of_lookup in Hr as [i Hi].
      destruct (Forall2_lookup_l _ _ _ _ _ Hp Hi) as (s' & Hs' & Es').
      exists s'. split; [by eapply list_elem_of_lookup_2|]. by replace s' with s by congruence.
  - exfalso. revert E. unfold UnionGTIDStrings.
    assert (forall acc, exists U, fold_result (fun union raw =>
      let? p := ParseGTIDSet raw in Ok (GTIDSet_Union union p)) acc sets = Ok U) as H.
    { induction Hv as [|raw sets [s Es] Hv IH]; intros acc; cbn; [eauto|]. rewrite Es. cbn. apply IH. }
    destruct (H ∅) as [U ->]. done.
Qed.

(** A readable position, with its parse, and the errors of the others. *)
Lemma mysql_invalid raw : ~ mysql_valid raw -> exists e, ParseGTIDSet raw = Err e.
Proof. intros H. destruct (ParseGTIDSet raw) as [s|e] eqn:E; [|eauto]. destruct H. by exists s. Qed.

#[export] Program Instance mysqlGTID_laws : GTIDModelLaws mysqlGTID := {|
  gm_txn := string * Z;
  gm_holds := mysql_holds;
  gm_valid := mysql_valid;
  gm_union_ok := mysql_union_ok;
  gm_union_err := mysql_union_err
|}.
Next Obligation.
  intros raw. cbn. unfold mysqlGTID_Canonical, mysql_valid.
  destruct (ParseGTIDSet raw) as [s|e]; cbn; split; [done|eauto|by intros [? [=]]|done].
Qed.
Next Obligation. by exists ∅. Qed.
Next Obligation. intros [u n] (s & [= <-] & H). by apply gtid_in_empty in H. Qed.
Next Obligation.
  intros a b [A Ha] [B Hb]. cbn. unfold mysqlGTID_Contains, GTIDContains. rewrite Ha, Hb. cbn.
  eexists. split; [done|]. by apply mysql_subset.
Qed.
Next Obligation.
  intros a b H. cbn. unfold mysqlGTID_Contains, GTIDContains.
  destruct (ParseGTIDSet a) as [A|e] eqn:Ha; cbn; [|eauto].
  destruct H as [[e He]%mysql_invalid|[e He]%mysql_invalid]; [congruence|]. rewrite He. cbn. eauto.
Qed.
Next Obligation.
  intros a b [A Ha] [B Hb]. cbn. unfold mysqlGTID_MissingCount. rewrite Ha, Hb. cbn.
  assert (set_wf A) as WA by eauto with gtid. assert (set_wf B) as WB by eauto with gtid.
  eexists. split; [done|]. split.
  - rewrite GTIDSet_MissingCount_spec by done. rewrite <- missing_total_size.
    pose proof (missing_total_nonneg A (map_to_list B) WA (wf_entries B WB)). unfold MaxInt64; lia.
  - intros H. apply GTIDSet_MissingCount_zero; [done..|]. by eapply mysql_subset.
Qed.
Next Obligation.
  intros a b [A Ha] [B Hb]. cbn. unfold mysqlGTID_Equal. rewrite Ha, Hb. cbn.
  eexists. split; [done|]. unfold GTIDSet_Equal.
  rewrite andb_true_iff, (mysql_subset a b A B), (mysql_subset b a B A) by done. naive_solver.
Qed.
Next Obligation.
  intros a b [A Ha] [B Hb]. cbn. unfold mysqlGTID_Compare. rewrite Ha, Hb. cbn.
  eexists. split; [done|]. apply orderingFromContainment_spec; by apply mysql_subset.
Qed.
Next Obligation.
  intros a [A Ha]. cbn. unfold mysqlGTID_IsEmpty. rewrite Ha. cbn. eexists. split; [done|].
  rewrite GTIDSet_IsEmpty_spec by eauto with gtid. split.
  - intros H [u n]. rewrite (mysql_holds_parsed a A) by done. apply H.
  - intros H u n. specialize (H (u, n)). by rewrite (mysql_holds_parsed a A) in H by done.
Qed.
Next Obligation.
  intros a c. cbn. unfold mysqlGTID_Canonical. intros H. inv_result.
  assert (ParseGTIDSet (GTIDSet_String x) = Ok x) as E by (apply ParseGTIDSet_String; eauto with gtid).
  rewrite E. split; [done|]. intros t. by rewrite (mysql_holds_parsed _ x), (mysql_holds_parsed a x).
Qed.
