(* ===== verification/MariaGtid.v ===== *)
(** * The MariaDB GTID model

    [pkg/engine/gtid_mariadb.go]: a position is a map from a replication domain
    ([uint32]) to the server and the sequence number ([uint64]) reached in it.
    The file proves that parsing keeps the machine bounds, that printing then
    parsing is the identity, and that the model satisfies the engine contract
    [GTIDModelLaws], a domain's history being the sequence numbers up to the one
    reached. *)

From Stdlib Require Import ZArith Lia Bool Ascii String.
From stdpp Require Import base list strings gmap sorting.
From S2P Require Import Prelude GoStrings Gtid GtidText GtidModel.

Local Open Scope Z_scope.
#[local] Arguments String.append : simpl nomatch.

(** ** Positions *)

Record mariaEntry := mkMariaEntry { me_server : Z; me_seq : Z }.

#[export] Instance mariaEntry_eq_dec : EqDecision mariaEntry.
Proof. solve_decision. Defined.

Abbreviation mariaPos := (gmap Z mariaEntry).

(** A later entry of a domain replaces an earlier one it does not trail. *)
Definition pos_keep (pos : mariaPos) (domain : Z) (e : mariaEntry) : mariaPos :=
  match pos !! domain with
  | Some existing => if me_seq existing <=? me_seq e then <[domain := e]> pos else pos
  | None => <[domain := e]> pos
  end.

(** One [domain-server-seq] triple. *)
Definition parse_triple (pos : mariaPos) (triple : string) : result mariaPos :=
  match Split triple "-" with
  | [p0; p1; p2] =>
      match ParseUint p0 32 with
      | None => Err (Errorf "invalid mariadb gtid domain")
      | Some domain =>
          match ParseUint p1 32 with
          | None => Err (Errorf "invalid mariadb gtid server_id")
          | Some server =>
              match ParseUint p2 64 with
              | None => Err (Errorf "invalid mariadb gtid sequence")
              | Some seq => Ok (pos_keep pos domain (mkMariaEntry server seq))
              end
          end
      end
  | _ => Err (Errorf "invalid mariadb gtid: want domain-server-seq")
  end.

Definition parseMariaPos (raw : string) : result mariaPos :=
  let cleaned := clean raw in
  if String.eqb cleaned "" then Ok ∅
  else fold_result parse_triple ∅ (Split cleaned ",").

Definition mariaPos_contains (super sub : mariaPos) : bool :=
  forallb (fun '(domain, e) =>
    match super !! domain with
    | Some mine => negb (me_seq mine <? me_seq e)
    | None => false
    end) (map_to_list sub).

Definition mariaPos_isEmpty (p : mariaPos) : bool := Nat.eqb (size p) 0.

Definition format_triple (d s q : Z) : string :=
  FormatUint d +:+ String "-" (FormatUint s +:+ String "-" (FormatUint q)).

Definition mariaPos_string (p : mariaPos) : string :=
  let domains := isort Z.leb (fst <$> map_to_list p) in
  Join ((fun d => let e := default (mkMariaEntry 0 0) (p !! d) in
                  format_triple d (me_server e) (me_seq e)) <$> domains) ",".

(** ** Operations on strings *)

Definition mariadbGTID_Contains (superset subset : string) : result bool :=
  let? super := parseMariaPos superset in
  let? sub := parseMariaPos subset in
  Ok (mariaPos_contains super sub).

Definition addSaturating (total n : Z) : Z :=
  if MaxInt64 <? n then MaxInt64
  else let d := i64 n in
       if i64 (MaxInt64 - total) <? d then MaxInt64 else i64 (total + d).

Definition mariadbGTID_MissingCount (have want : string) : result Z :=
  let? posHave := parseMariaPos have in
  let? posWant := parseMariaPos want in
  Ok (foldl (fun missing '(domain, wanted) =>
        match posHave !! domain with
        | Some mine =>
            if me_seq mine <? me_seq wanted
            then addSaturating missing (u64 (me_seq wanted - me_seq mine)) else missing
        | None => addSaturating missing (me_seq wanted)
        end) 0 (map_to_list posWant)).

(** [for domain, e := range pos]: each domain is folded into [union] on its own. *)
Definition union_pos (union pos : mariaPos) : mariaPos :=
  foldl (fun union '(domain, e) => pos_keep union domain e) union (map_to_list pos).

Definition mariadbGTID_Union (sets : list string) : result string :=
  let? union := fold_result (fun union raw =>
    let? pos := parseMariaPos raw in Ok (union_pos union pos)) ∅ sets in
  Ok (mariaPos_string union).

Definition mariadbGTID_Equal (a b : string) : result bool :=
  let? posA := parseMariaPos a in
  let? posB := parseMariaPos b in
  Ok (mariaPos_contains posA posB && mariaPos_contains posB posA).

Definition mariadbGTID_Compare (a b : string) : result Ordering :=
  let? posA := parseMariaPos a in
  let? posB := parseMariaPos b in
  Ok (orderingFromContainment (mariaPos_contains posA posB) (mariaPos_contains posB posA)).

Definition mariadbGTID_IsEmpty (raw : string) : result bool :=
  let? pos := parseMariaPos raw in
  Ok (mariaPos_isEmpty pos).

Definition mariadbGTID_Canonical (raw : string) : result string :=
  let? pos := parseMariaPos raw in
  Ok (mariaPos_string pos).

#[export] Instance mariadbGTID : GTIDModel := {|
  gm_Contains := mariadbGTID_Contains;
  gm_MissingCount := mariadbGTID_MissingCount;
  gm_Union := mariadbGTID_Union;
  gm_Equal := mariadbGTID_Equal;
  gm_Compare := mariadbGTID_Compare;
  gm_IsEmpty := mariadbGTID_IsEmpty;
  gm_Canonical := mariadbGTID_Canonical
|}.

(** ** Invariant and meaning *)

Definition entry_ok (d : Z) (e : mariaEntry) : Prop :=
  0 <= d < 2 ^ 32 /\ 0 <= me_server e < 2 ^ 32 /\ 0 <= me_seq e < 2 ^ 64.

(** Every number fits its machine width. *)
Definition pos_wf (p : mariaPos) : Prop := map_Forall entry_ok p.

(** The position has reached sequence [n] of domain [d]. *)
Definition reached (p : mariaPos) (d n : Z) : Prop :=
  exists e, p !! d = Some e /\ 0 <= n <= me_seq e.

Lemma pos_keep_lookup p d e d' :
  pos_keep p d e !! d' =
  if decide (d' = d)
  then Some (match p !! d with
             | Some x => if me_seq x <=? me_seq e then e else x
             | None => e
             end)
  else p !! d'.
Proof.
  unfold pos_keep. destruct (p !! d) as [x|] eqn:E.
  - destruct (_ <=? _).
    + rewrite lookup_insert. repeat case_decide; congruence.
    + case_decide; congruence.
  - rewrite lookup_insert. repeat case_decide; congruence.
Qed.

Lemma pos_keep_wf p d e : pos_wf p -> entry_ok d e -> pos_wf (pos_keep p d e).
Proof.
  intros Hp He d' x. rewrite pos_keep_lookup. case_decide as E; [subst|by apply Hp].
  destruct (p !! d) as [y|] eqn:Ey; [|by intros [= <-]].
  destruct (_ <=? _); intros [= <-]; [done|by apply Hp].
Qed.

Lemma pos_keep_reached p d e d' n :
  pos_wf p -> reached (pos_keep p d e) d' n <-> reached p d' n \/ (d' = d /\ 0 <= n <= me_seq e).
Proof.
  intros Hp. unfold reached. rewrite pos_keep_lookup. case_decide as E.
  - subst d'. destruct (p !! d) as [x|] eqn:Ex.
    + destruct (Z.leb_spec (me_seq x) (me_seq e)); split.
      * intros (? & [= <-] & ?). right. done.
      * intros [(? & [= <-] & ?)|(_ & ?)]; exists e; (split; [done|lia]).
      * intros (? & [= <-] & ?). left. eauto.
      * intros [(? & [= <-] & ?)|(_ & ?)]; exists x; (split; [done|lia]).
    + split; [intros (? & [= <-] & ?); by right|]. intros [(? & [=] & _)|(_ & ?)]. eauto.
  - split; [by left|]. intros [?|[? _]]; [done|congruence].
Qed.

Lemma parse_triple_wf p t p' : pos_wf p -> parse_triple p t = Ok p' -> pos_wf p'.
Proof.
  unfold parse_triple. intros Hp. destruct (Split t "-") as [|p0 [|p1 [|p2 [|? ?]]]]; try done.
  destruct (ParseUint p0 32) as [d|] eqn:E0; [|done].
  destruct (ParseUint p1 32) as [s|] eqn:E1; [|done].
  destruct (ParseUint p2 64) as [q|] eqn:E2; [|done].
  intros [= <-]. apply ParseUint_bound in E0, E1, E2. by apply pos_keep_wf.
Qed.

Lemma parseMariaPos_wf raw p : parseMariaPos raw = Ok p -> pos_wf p.
Proof.
  unfold parseMariaPos. destruct (String.eqb _ ""); [intros [= <-]; apply map_Forall_empty|].
  apply (fold_result_inv _ pos_wf); [apply map_Forall_empty|]. intros; by eapply parse_triple_wf.
Qed.

Lemma mariaPos_contains_spec super sub :
  pos_wf sub -> mariaPos_contains super sub = true <-> forall d n, reached sub d n -> reached super d n.
Proof.
  intros Hs. unfold mariaPos_contains. rewrite forallb_forall. split.
  - intros H d n (e & E & Hn). specialize (H (d, e)).
    rewrite <- list_elem_of_In, elem_of_map_to_list in H. specialize (H E). cbn in H.
    destruct (super !! d) as [m|] eqn:Em; [|done]. boolp. exists m. split; [done|lia].
  - intros H [d e]. rewrite <- list_elem_of_In, elem_of_map_to_list. intros E. cbn.
    pose proof (Hs _ _ E) as (_ & _ & Hq).
    destruct (H d (me_seq e)) as (m & -> & Hm); [exists e; split; [done|lia]|].
    apply negb_true_iff, Z.ltb_ge. lia.
Qed.

Lemma union_pos_spec a b :
  pos_wf a -> pos_wf b ->
  pos_wf (union_pos a b) /\ forall d n, reached (union_pos a b) d n <-> reached a d n \/ reached b d n.
Proof.
  intros Ha Hb.
  enough (forall l, Forall (fun '(d, e) => entry_ok d e) l ->
    let u := foldl (fun union '(domain, e) => pos_keep union domain e) a l in
    pos_wf u /\ forall d n, reached u d n <-> reached a d n \/ exists e, (d, e) ∈ l /\ 0 <= n <= me_seq e)
    as Hgen.
  { destruct (Hgen (map_to_list b)) as [Hw Hr].
    { apply Forall_forall. intros [d e] E%elem_of_map_to_list. by apply Hb. }
    split; [done|]. intros d n. unfold union_pos. rewrite Hr. unfold reached at 3.
    by setoid_rewrite elem_of_map_to_list. }
  intros l Hl. revert a Ha. induction Hl as [|[d e] l He Hl IH]; intros a Ha; cbn.
  - split; [done|]. intros d n. split; [by left|]. intros [?|(? & ?%not_elem_of_nil & _)]; done.
  - destruct (IH (pos_keep a d e)) as [Hw Hr]; [by apply pos_keep_wf|]. split; [done|].
    intros d' n. rewrite Hr, pos_keep_reached by done. setoid_rewrite elem_of_cons. split.
    + intros [[?|[-> ?]]|(x & ? & ?)]; [by left|right; eauto|right; eauto].
    + intros [?|(x & [[= -> ->]|?] & ?)]; [by left; left|by left; right|right; eauto].
Qed.

(** ** Counting *)

Lemma addSaturating_spec total n :
  0 <= total <= MaxInt64 -> 0 <= n -> addSaturating total n = Z.min MaxInt64 (total + n).
Proof.
  intros Ht Hn. unfold addSaturating. destruct (Z.ltb_spec MaxInt64 n); [lia|].
  rewrite (i64_id n), (i64_id (MaxInt64 - total)) by (unfold MinInt64, MaxInt64 in *; lia).
  destruct (Z.ltb_spec (MaxInt64 - total) n); [lia|].
  rewrite i64_id by (unfold MinInt64; lia). lia.
Qed.

(** How many sequence numbers of [want] the position [have] has not reached. *)
Definition domain_gap (have : mariaPos) (d : Z) (wanted : mariaEntry) : Z :=
  Z.max 0 (me_seq wanted - match have !! d with Some mine => me_seq mine | None => 0 end).

Definition missing_seqs (have : mariaPos) (l : list (Z * mariaEntry)) : Z :=
  foldr (fun '(d, e) acc => domain_gap have d e + acc) 0 l.

Lemma missing_seqs_nonneg have l : 0 <= missing_seqs have l.
Proof. unfold missing_seqs. induction l as [|[d e] l IH]; cbn; unfold domain_gap in *; lia. Qed.

Lemma missing_seqs_perm have l l' : l ≡ₚ l' -> missing_seqs have l = missing_seqs have l'.
Proof. unfold missing_seqs. induction 1 as [|[]|[] []|]; cbn; lia. Qed.

Lemma missing_loop_maria have l total :
  pos_wf have -> Forall (fun '(d, e) => entry_ok d e) l -> 0 <= total <= MaxInt64 ->
  foldl (fun missing '(domain, wanted) =>
     match have !! domain with
     | Some mine =>
         if me_seq mine <? me_seq wanted
         then addSaturating missing (u64 (me_seq wanted - me_seq mine)) else missing
     | None => addSaturating missing (me_seq wanted)
     end) total l = Z.min MaxInt64 (total + missing_seqs have l).
Proof.
  intros Hh Hl. revert total. induction Hl as [|[d e] l (Hd & Hs & Hq) Hl IH]; intros total Ht; cbn.
  { lia. }
  pose proof (missing_seqs_nonneg have l). fold (missing_seqs have l). unfold domain_gap.
  destruct (have !! d) as [m|] eqn:E.
  - pose proof (Hh _ _ E) as (_ & _ & Hm). destruct (Z.ltb_spec (me_seq m) (me_seq e)).
    + rewrite u64_id by (unfold MaxUint64; lia). rewrite addSaturating_spec by lia.
      rewrite IH by lia. lia.
    + rewrite IH by done. lia.
  - rewrite addSaturating_spec by lia. rewrite IH by lia. lia.
Qed.

Lemma mariadbGTID_MissingCount_spec have want H W :
  parseMariaPos have = Ok H -> parseMariaPos want = Ok W ->
  mariadbGTID_MissingCount have want = Ok (Z.min MaxInt64 (missing_seqs H (map_to_list W))).
Proof.
  intros EH EW. unfold mariadbGTID_MissingCount. rewrite EH, EW. cbn. f_equal.
  rewrite missing_loop_maria; [f_equal|by eapply parseMariaPos_wf| |unfold MaxInt64; lia].
  apply Forall_forall. intros [d e] E%elem_of_map_to_list. exact (parseMariaPos_wf _ _ EW _ _ E).
Qed.

(** ** Printing then parsing *)

Lemma format_triple_chars d s q :
  all_chars (fun c => is_digit c || Ascii.eqb c "-") (format_triple d s q) = true.
Proof.
  assert (forall n, all_chars (fun c => is_digit c || Ascii.eqb c "-") (FormatUint n) = true) as Hd.
  { intros n. eapply all_chars_impl; [|apply FormatUint_digits]. cbn. by intros c ->. }
  unfold format_triple. rewrite all_chars_app. cbn. rewrite all_chars_app. cbn. by rewrite !Hd.
Qed.

Lemma format_triple_nonempty d s q : format_triple d s q <> "".
Proof.
  unfold format_triple. destruct (FormatUint_cons d) as (c & r & -> & _). done.
Qed.

Lemma Split_triple d s q :
  Split (format_triple d s q) "-" = [FormatUint d; FormatUint s; FormatUint q].
Proof.
  unfold format_triple. rewrite !Split_app by (by apply FormatUint_no_char).
  by rewrite Split_no_sep by (by apply FormatUint_no_char).
Qed.

Lemma parse_format_triple p d e :
  entry_ok d e ->
  parse_triple p (format_triple d (me_server e) (me_seq e)) = Ok (pos_keep p d e).
Proof.
  intros (Hd & Hs & Hq). unfold parse_triple. rewrite Split_triple.
  rewrite !ParseUint_FormatUint by done. by destruct e.
Qed.

Lemma triple_dash_char c :
  is_digit c || Ascii.eqb c "-" = true -> negb (Ascii.eqb c ",") && negb (is_gtid_space c) = true.
Proof.
  rewrite orb_true_iff. intros [Hd|Hd].
  - unfold is_gtid_space. by rewrite !digit_not.
  - apply Ascii.eqb_eq in Hd. by subst.
Qed.

Lemma parse_domains (p acc : mariaPos) l :
  pos_wf p -> NoDup l -> (forall d, d ∈ l -> is_Some (p !! d) /\ acc !! d = None) ->
  fold_result parse_triple acc ((fun d => let e := default (mkMariaEntry 0 0) (p !! d) in
     format_triple d (me_server e) (me_seq e)) <$> l) =
  Ok (foldl (fun a d => <[d := default (mkMariaEntry 0 0) (p !! d)]> a) acc l).
Proof.
  intros Hp Hnd. revert acc. induction Hnd as [|d l Hd Hnd IH]; intros acc Hl; [done|].
  cbn [fmap list_fmap fold_result foldl]. destruct (Hl d) as [[e E] Hacc]; [by left|].
  rewrite E. cbn [default]. rewrite parse_format_triple by (by apply Hp). cbn [rbind].
  unfold pos_keep. rewrite Hacc. apply IH. intros d' Hd'. destruct (Hl d') as [H1 H2]; [by right|].
  split; [done|]. rewrite lookup_insert_ne; [done|]. intros ->. done.
Qed.

Lemma add_domains_lookup (p acc : mariaPos) l d :
  foldl (fun a d => <[d := default (mkMariaEntry 0 0) (p !! d)]> a) acc l !! d =
  if decide (d ∈ l) then Some (default (mkMariaEntry 0 0) (p !! d)) else acc !! d.
Proof.
  revert acc. induction l as [|v l IH]; intros acc; cbn.
  - rewrite decide_False by apply not_elem_of_nil. done.
  - rewrite IH, lookup_insert. repeat case_decide; subst; try done; set_solver.
Qed.

(** Joining printable pieces and splitting them again. *)
Lemma clean_Join l :
  Forall (fun s => all_chars (fun c => is_digit c || Ascii.eqb c "-") s = true) l ->
  clean (Join l ",") = Join l ",".
Proof.
  intros Hl. apply string_filter_id. unfold Join. induction Hl as [|s l Hs Hl IH]; [done|].
  cbn [String.concat].
  assert (all_chars (fun c => negb (is_gtid_space c)) s = true) as Hc.
  { eapply all_chars_impl; [|exact Hs]. cbn. intros c H%triple_dash_char. boolp. by apply negb_true_iff. }
  destruct l; [done|]. rewrite !all_chars_app. by rewrite Hc, IH.
Qed.

Lemma Split_Join_triples l :
  l <> [] -> Forall (fun s => all_chars (fun c => is_digit c || Ascii.eqb c "-") s = true) l ->
  Split (Join l ",") "," = l.
Proof.
  intros Hne Hl. apply Split_Join; [done|]. eapply List.Forall_impl; [|exact Hl]. cbn. intros s Hs.
  eapply all_chars_impl; [|exact Hs]. cbn. intros c H%triple_dash_char. boolp. by apply negb_true_iff.
Qed.

Lemma Join_nonempty l : Forall (fun s => s <> "") l -> l <> [] -> Join l "," <> "".
Proof.
  unfold Join. intros Hl Hne. inversion Hl as [|s l' Hs _]; subst; [done|].
  destruct s; [done|]. cbn. by destruct l'.
Qed.

Lemma parseMariaPos_string p : pos_wf p -> parseMariaPos (mariaPos_string p) = Ok p.
Proof.
  intros Hp. unfold mariaPos_string. cbn zeta.
  pose proof (isort_perm Z.leb (fst <$> map_to_list p)) as Hperm. set (keys := isort _ _) in *.
  assert (forall d, d ∈ keys <-> is_Some (p !! d)) as Hkeys.
  { intros d. rewrite Hperm, list_elem_of_fmap. split.
    - intros ([v e] & -> & E%elem_of_map_to_list). by exists e.
    - intros [e E]. exists (d, e). by rewrite elem_of_map_to_list. }
  unfold parseMariaPos. set (pieces := _ <$> keys).
  assert (Forall (fun s => all_chars (fun c => is_digit c || Ascii.eqb c "-") s = true) pieces) as Hc
    by (apply Forall_fmap, Forall_true; intros d; apply format_triple_chars).
  assert (Forall (fun s => s <> "") pieces) as Hne
    by (apply Forall_fmap, Forall_true; intros d; apply format_triple_nonempty).
  rewrite clean_Join by done. destruct (decide (keys = [])) as [E|E].
  - subst pieces. rewrite E. cbn. f_equal. symmetry. apply map_eq. intros d. rewrite lookup_empty.
    destruct (p !! d) as [e|] eqn:Ed; [|done]. exfalso.
    assert (d ∈ keys) as Hd by (rewrite Hkeys, Ed; eauto). rewrite E in Hd. by apply not_elem_of_nil in Hd.
  - assert (pieces <> []) as Hpne by (subst pieces; by destruct keys).
    destruct (String.eqb_spec (Join pieces ",") "") as [E'|_].
    { by apply Join_nonempty in E'. }
    rewrite Split_Join_triples by done. subst pieces. rewrite parse_domains; [|done| |].
    + f_equal. apply map_eq. intros d. rewrite add_domains_lookup, lookup_empty.
      case_decide as Hd; [apply Hkeys in Hd as [e Ee]; by rewrite Ee|].
      destruct (p !! d) as [e|] eqn:Ed; [|done]. destruct Hd. rewrite Hkeys, Ed. eauto.
    + rewrite Hperm. apply NoDup_fst_map_to_list.
    + intros d Hd%Hkeys. done.
Qed.

(** ** The engine contract *)

(** A domain and a sequence number it has reached. *)
Definition maria_holds (raw : string) (t : Z * Z) : Prop :=
  exists p, parseMariaPos raw = Ok p /\ reached p (fst t) (snd t).

Definition maria_valid (raw : string) : Prop := exists p, parseMariaPos raw = Ok p.

Lemma maria_holds_parsed raw p t :
  parseMariaPos raw = Ok p -> maria_holds raw t <-> reached p (fst t) (snd t).
Proof. intros E. unfold maria_holds. split; [|eauto]. intros (s' & E' & H). congruence. Qed.

Lemma maria_subset a b A B :
  parseMariaPos a = Ok A -> parseMariaPos b = Ok B ->
  mariaPos_contains A B = true <-> forall t, maria_holds b t -> maria_holds a t.
Proof.
  intros Ha Hb. rewrite mariaPos_contains_spec by (by eapply parseMariaPos_wf). split.
  - intros H [u n]. rewrite (maria_holds_parsed b B), (maria_holds_parsed a A) by done. apply H.
  - intros H u n. specialize (H (u, n)).
    by rewrite (maria_holds_parsed b B), (maria_holds_parsed a A) in H by done.
Qed.

Lemma maria_union_fold sets acc :
  pos_wf acc -> Forall maria_valid sets ->
  exists U, fold_result (fun union raw =>
      let? pos := parseMariaPos raw in Ok (union_pos union pos)) acc sets = Ok U /\ pos_wf U /\
    forall d n, reached U d n <-> reached acc d n \/ exists s, s ∈ sets /\ maria_holds s (d, n).
Proof.
  intros Ha Hv. revert acc Ha. induction Hv as [|raw sets [p Ep] Hv IH]; intros acc Ha; cbn.
  - exists acc. split; [done|]. split; [done|]. intros d n. set_solver.
  - rewrite Ep. cbn. destruct (union_pos_spec acc p Ha (parseMariaPos_wf _ _ Ep)) as [Hw Hr].
    destruct (IH _ Hw) as (U & HU & HwU & HrU). exists U. split; [done|]. split; [done|].
    intros d n. rewrite HrU, Hr. setoid_rewrite elem_of_cons.
    rewrite <- (maria_holds_parsed raw p (d, n)) by done. split.
    + intros [[?|?]|(s & ? & ?)]; [by left|right; eauto|right; eauto].
    + intros [?|(s & [->|?] & ?)]; [by left; left|by left; right|right; eauto].
Qed.

Lemma maria_union_ok sets :
  Forall maria_valid sets ->
  exists u, mariadbGTID_Union sets = Ok u /\ maria_valid u /\
    forall t, maria_holds u t <-> exists s, s ∈ sets /\ maria_holds s t.
Proof.
  intros Hv. unfold mariadbGTID_Union.
  destruct (maria_union_fold sets ∅ ltac:(apply map_Forall_empty) Hv) as (U & -> & Hw & Hr). cbn.
  pose proof (parseMariaPos_string U Hw) as HU. eexists. split; [done|]. split; [by exists U|].
  intros [d n]. rewrite (maria_holds_parsed _ U) by done. cbn. rewrite Hr. split; [|by right].
  intros [(? & [=] & _)|?]; done.
Qed.

Lemma maria_union_err sets : ~ Forall maria_valid sets -> exists e, mariadbGTID_Union sets = Err e.
Proof.
  intros H. unfold mariadbGTID_Union.
  destruct (fold_result _ ∅ sets) as [U|e] eqn:E; cbn; [|eauto]. destruct H. revert E.
  generalize (∅ : mariaPos). induction sets as [|raw sets IH]; intros acc E; [constructor|].
  cbn in E. inv_result. constructor; [by eexists|]. by eapply IH.
Qed.

Lemma maria_invalid raw : ~ maria_valid raw -> exists e, parseMariaPos raw = Err e.
Proof. intros H. destruct (parseMariaPos raw) as [s|e] eqn:E; [|eauto]. destruct H. by exists s. Qed.

Lemma domain_gap_zero H W d e :
  pos_wf H -> W !! d = Some e -> (forall d n, reached W d n -> reached H d n) -> 0 <= me_seq e ->
  domain_gap H d e = 0.
Proof.
  intros Hh E Hsub He. unfold domain_gap.
  destruct (Hsub d (me_seq e)) as (m & -> & ?); [exists e; split; [done|lia]|lia].
Qed.

#[export] Program Instance mariadbGTID_laws : GTIDModelLaws mariadbGTID := {|
  gm_txn := Z * Z;
  gm_holds := maria_holds;
  gm_valid := maria_valid;
  gm_union_ok := maria_union_ok;
  gm_union_err := maria_union_err
|}.
Next Obligation.
  intros raw. cbn. unfold mariadbGTID_Canonical, maria_valid.
  destruct (parseMariaPos raw) as [s|e]; cbn; split; [done|eauto|by intros [? [=]]|done].
Qed.
Next Obligation. by exists ∅. Qed.
Next Obligation. intros [d n] (s & [= <-] & (e & [=] & _)). Qed.
Next Obligation.
  intros a b [A Ha] [B Hb]. cbn. unfold mariadbGTID_Contains. rewrite Ha, Hb. cbn.
  eexists. split; [done|]. by apply maria_subset.
Qed.
Next Obligation.
  intros a b H. cbn. unfold mariadbGTID_Contains.
  destruct (parseMariaPos a) as [A|e] eqn:Ha; cbn; [|eauto].
  destruct H as [[e He]%maria_invalid|[e He]%maria_invalid]; [congruence|]. rewrite He. cbn. eauto.
Qed.
Next Obligation.
  intros a b [A Ha] [B Hb]. cbn. rewrite (mariadbGTID_MissingCount_spec a b A B) by done.
  eexists. split; [done|]. pose proof (missing_seqs_nonneg A (map_to_list B)).
  split; [unfold MaxInt64; lia|]. intros Hsub. pose proof (proj2 (maria_subset a b A B Ha Hb) Hsub) as Hc.
  assert (missing_seqs A (map_to_list B) = 0) as ->; [|unfold MaxInt64; lia].
  pose proof (parseMariaPos_wf _ _ Hb) as WB. rewrite mariaPos_contains_spec in Hc by done.
  assert (forall l, (forall d e, (d, e) ∈ l -> B !! d = Some e) -> missing_seqs A l = 0) as Hz.
  { induction l as [|[d e] l IH]; intros Hl; cbn; [done|]. fold (missing_seqs A l).
    rewrite IH by (intros ? ? ?; apply Hl; by right).
    assert (B !! d = Some e) as E by (apply Hl; by left).
    rewrite (domain_gap_zero A B) by first [by eapply parseMariaPos_wf | done | apply WB in E as (_ & _ & ?); lia].
    done. }
  apply Hz. intros d e. by rewrite elem_of_map_to_list.
Qed.
Next Obligation.
  intros a b [A Ha] [B Hb]. cbn. unfold mariadbGTID_Equal. rewrite Ha, Hb. cbn.
  eexists. split; [done|].
  rewrite andb_true_iff, (maria_subset a b A B), (maria_subset b a B A) by done. naive_solver.
Qed.
Next Obligation.
  intros a b [A Ha] [B Hb]. cbn. unfold mariadbGTID_Compare. rewrite Ha, Hb. cbn.
  eexists. split; [done|]. apply orderingFromContainment_spec; by apply maria_subset.
Qed.
Next Obligation.
  intros a [A Ha]. cbn. unfold mariadbGTID_IsEmpty. rewrite Ha. cbn. eexists. split; [done|].
  unfold mariaPos_isEmpty. rewrite Nat.eqb_eq. rewrite map_size_empty_iff. split.
  - intros -> [d n]. rewrite (maria_holds_parsed a ∅) by done. by intros (? & [=] & _).
  - intros H. apply map_eq. intros d. rewrite lookup_empty. destruct (A !! d) as [e|] eqn:E; [|done].
    destruct (H (d, 0)). rewrite (maria_holds_parsed a A) by done. exists e. split; [done|].
    cbn. apply parseMariaPos_wf in Ha. apply Ha in E as (_ & _ & ?). lia.
Qed.
Next Obligation.
  intros a c. cbn. unfold mariadbGTID_Canonical. intros H. inv_result.
  assert (parseMariaPos (mariaPos_string x) = Ok x) as E
    by (apply parseMariaPos_string; by eapply parseMariaPos_wf).
  rewrite E. split; [done|]. intros t. by rewrite (maria_holds_parsed _ x), (maria_holds_parsed a x).
Qed.

(** ** Properties *)

(** A MariaDB position prints to a text that parses back to it, so the
    canonical form is a fixed point that keeps every domain's server and sequence. *)
Theorem maria_print_parse_roundtrip raw p :
  parseMariaPos raw = Ok p ->
  pos_wf p /\ parseMariaPos (mariaPos_string p) = Ok p /\
  exists c, mariadbGTID_Canonical raw = Ok c /\ parseMariaPos c = Ok p /\ mariadbGTID_Canonical c = Ok c.
Proof.
  intros H. apply parseMariaPos_wf in H as Hw. pose proof (parseMariaPos_string p Hw) as E. split_and!; [done..|].
  exists (mariaPos_string p). unfold mariadbGTID_Canonical. by rewrite H, !E.
Qed.

Definition sample_pos : mariaPos := Eval vm_compute in match parseMariaPos "1-2-30, 0-1-5" with Ok p => p | Err _ => ∅ end.

Lemma maria_print_parse_roundtrip_witness :
  mariaPos_string sample_pos = "0-1-5,1-2-30" /\ parseMariaPos (mariaPos_string sample_pos) = Ok sample_pos.
Proof.
  split; [vm_compute; reflexivity|].
  apply (maria_print_parse_roundtrip "1-2-30, 0-1-5" sample_pos). vm_compute. reflexivity.
Defined.

(** The MariaDB gap is the sum over the wanted domains of the sequences past
    the one reached, capped at the largest int64 with no wrap-around. *)
Theorem maria_missing_count_is_exact have want H W :
  parseMariaPos have = Ok H -> parseMariaPos want = Ok W ->
  mariadbGTID_MissingCount have want = Ok (Z.min MaxInt64 (missing_seqs H (map_to_list W))) /\
  0 <= missing_seqs H (map_to_list W).
Proof. intros HH HW. split; [by apply mariadbGTID_MissingCount_spec|apply missing_seqs_nonneg]. Qed.

Lemma maria_missing_count_is_exact_witness :
  mariadbGTID_MissingCount "0-1-5" "1-2-30, 0-1-7" = Ok 32 /\ 0 <= missing_seqs sample_pos (map_to_list sample_pos).
Proof.
  split; [vm_compute; reflexivity|].
  apply (maria_missing_count_is_exact "1-2-30, 0-1-5" "1-2-30, 0-1-5" sample_pos sample_pos); vm_compute; reflexivity.
Defined.

(** Equal positions need not have equal canonical forms: equality ignores the
    server that wrote the last transaction, the canonical form prints it. *)
Lemma maria_equal_not_canonical :
  mariadbGTID_Equal "0-1-5" "0-2-5" = Ok true /\
  mariadbGTID_Canonical "0-1-5" = Ok "0-1-5" /\ mariadbGTID_Canonical "0-2-5" = Ok "0-2-5".
Proof. vm_compute. repeat split. Qed.
