(* ===== verification/MariaTimeline.v ===== *)
(** * The MariaDB timeline

    [pkg/engine/mariadb_timeline.go]: the history of primaries, which says who
    authored each stretch of sequence numbers of a domain.  The timeline denotes
    a partial function [author] from a domain and a sequence number to the
    server that wrote it; [Verdict] is membership in its graph.  The theorems
    show that [DeadAfter] never disowns a transaction its author legitimately
    wrote, and that pruning keeps every verdict something still needs. *)

From Stdlib Require Import ZArith Lia Bool Ascii String.
From stdpp Require Import base list strings gmap sorting.
From S2P Require Import Prelude GoStrings Gtid GtidText GtidModel MariaGtid.

Local Open Scope Z_scope.

Definition MariaDBTimelineCeiling : Z := 256.

(** ** Transactions *)

Record MariaDBGTID := mkMariaDBGTID { g_Domain : Z; g_Server : Z; g_Seq : Z }.

#[export] Instance MariaDBGTID_eq_dec : EqDecision MariaDBGTID.
Proof. solve_decision. Defined.

Definition MariaDBGTID_String (g : MariaDBGTID) : string :=
  FormatUint (g_Domain g) +:+ "-" +:+ FormatUint (g_Server g) +:+ "-" +:+ FormatUint (g_Seq g).

Definition ParseMariaDBGTID (s : string) : result MariaDBGTID :=
  match Split (TrimSpace s) "-" with
  | [p0; p1; p2] =>
      match ParseUint p0 32 with
      | None => Err (Errorf "invalid mariadb gtid domain")
      | Some domain =>
          match ParseUint p1 32 with
          | None => Err (Errorf "invalid mariadb gtid server_id")
          | Some server =>
              match ParseUint p2 64 with
              | None => Err (Errorf "invalid mariadb gtid sequence")
              | Some seq => Ok (mkMariaDBGTID domain server seq)
              end
          end
      end
  | _ => Err (Errorf "invalid mariadb gtid: want domain-server-seq")
  end.

(** One GTID per domain, ordered by domain. *)
Definition ParseMariaDBPosition (pos : string) : result (list MariaDBGTID) :=
  let? parsed := parseMariaPos pos in
  Ok (isort (fun a b => g_Domain a <=? g_Domain b)
       ((fun '(domain, e) => mkMariaDBGTID domain (me_server e) (me_seq e)) <$> map_to_list parsed)).

(** ** The timeline *)

Record MariaDBEpoch := mkMariaDBEpoch { ep_ServerID : Z; ep_Handoff : string }.

#[export] Instance MariaDBEpoch_eq_dec : EqDecision MariaDBEpoch.
Proof. solve_decision. Defined.

Abbreviation MariaDBTimeline := (list MariaDBEpoch).

Record domainView := mkDomainView {
  dv_starts : list Z;
  dv_handoffServer : list Z;
  dv_valid : bool
}.

(** The start and the handoff author of one epoch in domain [d]. *)
Definition epoch_start (pos : mariaPos) (d : Z) : Z * Z :=
  match pos !! d with
  | Some e => (me_seq e, me_server e)
  | None => (0, 0)
  end.

(** The loop of [domain]; [prev] is the preceding start, [None] is the early
    [return domainView{}]. *)
Fixpoint domain_loop (t : MariaDBTimeline) (d : Z) (prev : option Z) : option (list (Z * Z)) :=
  match t with
  | [] => Some []
  | epoch :: t' =>
      match parseMariaPos (ep_Handoff epoch) with
      | Err _ => None
      | Ok pos =>
          let '(start, server) := epoch_start pos d in
          if (match prev with Some p => start <? p | None => false end) then None
          else match domain_loop t' d (Some start) with
               | Some l => Some ((start, server) :: l)
               | None => None
               end
      end
  end.

Definition Timeline_domain (t : MariaDBTimeline) (d : Z) : domainView :=
  match domain_loop t d None with
  | Some l => mkDomainView (fst <$> l) (snd <$> l) true
  | None => mkDomainView [] [] false
  end.

(** The index of the epoch whose range holds [seq]; [None] is the source's -1. *)
Fixpoint containing_loop (starts : list Z) (seq : Z) (i : nat) (idx : option nat) : option nat :=
  match starts with
  | [] => idx
  | start :: starts' => containing_loop starts' seq (S i) (if start <? seq then Some i else idx)
  end.

Definition domainView_containing (v : domainView) (seq : Z) : option nat :=
  containing_loop (dv_starts v) seq 0 None.

Definition nthZ (l : list Z) (i : nat) : Z := default 0 (l !! i).
Definition server_at (t : MariaDBTimeline) (i : nat) : Z := default 0 (ep_ServerID <$> t !! i).

(** [(onTimeline, known)]. *)
Definition Timeline_Verdict (t : MariaDBTimeline) (g : MariaDBGTID) : bool * bool :=
  if Nat.eqb (length t) 0 || (g_Seq g =? 0) then (false, false)
  else
    let v := Timeline_domain t (g_Domain g) in
    if negb (dv_valid v) then (false, false)
    else match domainView_containing v (g_Seq g) with
         | None => (false, false)
         | Some i =>
             let next := S i in
             if Nat.ltb next (length t) && negb (nthZ (dv_handoffServer v) next =? server_at t i)
             then if g_Seq g =? nthZ (dv_starts v) next
                  then (g_Server g =? nthZ (dv_handoffServer v) next, true)
                  else (false, false)
             else (g_Server g =? server_at t i, true)
         end.

Fixpoint judge_loop (t : MariaDBTimeline) (gtids : list MariaDBGTID) (allKnown : bool) : bool * bool :=
  match gtids with
  | [] => if allKnown then (true, true) else (false, false)
  | g :: gtids' =>
      let '(on, k) := Timeline_Verdict t g in
      if k && negb on then (false, true)
      else judge_loop t gtids' (if k then allKnown else false)
  end.

Definition Timeline_Judge (t : MariaDBTimeline) (pos : string) : result (bool * bool) :=
  let? gtids := ParseMariaDBPosition pos in
  Ok (judge_loop t gtids true).

(** [for k := i - 1; k >= 0; k--], from [k = n - 1]. *)
Fixpoint dead_loop (t : MariaDBTimeline) (v : domainView) (server : Z) (n : nat) : Z :=
  match n with
  | O => nthZ (dv_starts v) 0
  | S k =>
      if (server_at t k =? server) || (nthZ (dv_handoffServer v) (S k) =? server)
      then nthZ (dv_starts v) (S k)
      else dead_loop t v server k
  end.

(** [None] is [ok = false]. *)
Definition Timeline_DeadAfter (t : MariaDBTimeline) (g : MariaDBGTID) : option Z :=
  let '(on, known) := Timeline_Verdict t g in
  if on || negb known then None
  else
    let v := Timeline_domain t (g_Domain g) in
    match domainView_containing v (g_Seq g) with
    | Some i => Some (dead_loop t v (g_Server g) i)
    | None => Some (nthZ (dv_starts v) 0)
    end.

(** ** Pruning *)

Record PruneResult := mkPruneResult {
  pr_Timeline : MariaDBTimeline;
  pr_Dropped : nat;
  pr_Truncated : bool;
  pr_PinnedBy : list string
}.

(** Whether reference [raw] would stop being judged. *)
Definition pinned (next : MariaDBEpoch) (raw : string) : bool :=
  match parseMariaPos raw, parseMariaPos (ep_Handoff next) with
  | Ok pos, Ok floor =>
      existsb (fun '(domain, e) =>
        match floor !! domain with
        | Some f => me_seq e <=? me_seq f
        | None => false
        end) (map_to_list pos)
  | _, _ => true
  end.

Definition pinners (next : MariaDBEpoch) (refs : gmap string string) : list string :=
  isort String.leb (fst <$> List.filter (fun '(_, raw) => pinned next raw) (map_to_list refs)).

(** The first loop: drop the oldest epoch while nothing pins the next one. *)
Fixpoint prune_unpinned (t : MariaDBTimeline) (refs : gmap string string) (dropped : nat)
  : MariaDBTimeline * nat :=
  match t with
  | _ :: (next :: _) as t' =>
      if Nat.eqb (length (pinners next refs)) 0 then prune_unpinned t' refs (S dropped)
      else (t, dropped)
  | _ => (t, dropped)
  end.

(** The second loop: past the ceiling the oldest epoch goes regardless. *)
Fixpoint prune_ceiling (t : MariaDBTimeline) (refs : gmap string string) (ceiling : Z)
    (dropped : nat) (truncated : bool) (pinnedBy : list string) : PruneResult :=
  match t with
  | _ :: (next :: _) as t' =>
      if (0 <? ceiling) && (ceiling <? Z.of_nat (length t)) then
        let pinnedBy := foldl (fun acc name =>
          if bool_decide (name ∈ acc) then acc else acc ++ [name]) pinnedBy (pinners next refs) in
        prune_ceiling t' refs ceiling (S dropped) true pinnedBy
      else mkPruneResult t dropped truncated pinnedBy
  | _ => mkPruneResult t dropped truncated pinnedBy
  end.

Definition PruneMariaDBTimeline (t : MariaDBTimeline) (refs : gmap string string) (ceiling : Z)
  : PruneResult :=
  let '(t', dropped) := prune_unpinned t refs 0 in
  let res := prune_ceiling t' refs ceiling dropped false [] in
  mkPruneResult (pr_Timeline res) (pr_Dropped res) (pr_Truncated res)
    (isort String.leb (pr_PinnedBy res)).

(** ** The author of a sequence number *)

(** Epoch [i] wrote the stretch [(start_i, start_(i+1)]] of domain [d]; when its
    successor inherited from somebody else, only the handoff transaction has a
    known author. *)
Definition authored (t : MariaDBTimeline) (d n a : Z) : Prop :=
  exists l i ep st srv,
    domain_loop t d None = Some l /\ t !! i = Some ep /\ l !! i = Some (st, srv) /\ st < n /\
    match l !! S i with
    | None => a = ep_ServerID ep
    | Some (st', srv') =>
        n <= st' /\ ((srv' = ep_ServerID ep /\ a = ep_ServerID ep) \/
                     (srv' <> ep_ServerID ep /\ n = st' /\ a = srv'))
    end.

Lemma domain_loop_length t d prev l : domain_loop t d prev = Some l -> length l = length t.
Proof.
  revert prev l. induction t as [|ep t IH]; intros prev l; cbn; [by intros [= <-]|].
  destruct (parseMariaPos _) as [pos|]; [|done]. destruct (epoch_start pos d) as [st srv].
  destruct (match prev with Some _ => _ | None => _ end); [done|].
  destruct (domain_loop t d (Some st)) as [l'|] eqn:E; [|done]. intros [= <-]. cbn. f_equal. eauto.
Qed.

Lemma domain_loop_cons ep t d prev x l :
  domain_loop (ep :: t) d prev = Some (x :: l) ->
  domain_loop t d (Some (fst x)) = Some l /\ (forall p, prev = Some p -> p <= fst x) /\
  exists pos, parseMariaPos (ep_Handoff ep) = Ok pos /\ x = epoch_start pos d.
Proof.
  cbn. destruct (parseMariaPos _) as [pos|]; [|done]. destruct (epoch_start pos d) as [st srv] eqn:Es.
  destruct (match prev with Some _ => _ | None => _ end) eqn:Ep; [done|].
  destruct (domain_loop t d (Some st)) as [l'|] eqn:E; [|done]. intros [= <- <-]. cbn.
  split; [done|]. split; [|by exists pos]. intros p ->. boolp. lia.
Qed.

Lemma domain_loop_weaken t d prev l : domain_loop t d prev = Some l -> domain_loop t d None = Some l.
Proof.
  destruct t as [|ep t]; cbn; [done|]. destruct (parseMariaPos _) as [pos|]; [|done].
  destruct (epoch_start pos d) as [st srv].
  by destruct (match prev with Some _ => _ | None => _ end).
Qed.

Lemma domain_loop_ge t d p l i x :
  domain_loop t d (Some p) = Some l -> l !! i = Some x -> p <= fst x.
Proof.
  revert p l i. induction t as [|ep t IH]; intros p l i H Hi.
  - cbn in H. injection H as <-. done.
  - destruct l as [|y l]; [by apply domain_loop_length in H|].
    apply domain_loop_cons in H as (Ht & Hp & _). specialize (Hp p eq_refl).
    destruct i as [|i]; cbn in Hi; [by injection Hi as <-|].
    specialize (IH _ _ _ Ht Hi). lia.
Qed.

(** Starts never decrease. *)
Lemma domain_loop_mono t d prev l i j x y :
  domain_loop t d prev = Some l -> (i < j)%nat -> l !! i = Some x -> l !! j = Some y -> fst x <= fst y.
Proof.
  revert prev l i j. induction t as [|ep t IH]; intros prev l i j H Hij Hi Hj.
  - cbn in H. injection H as <-. done.
  - destruct l as [|z l]; [by apply domain_loop_length in H|].
    apply domain_loop_cons in H as (Ht & _ & _).
    destruct j as [|j]; [lia|]. cbn in Hj. destruct i as [|i]; cbn in Hi.
    + injection Hi as <-. by eapply domain_loop_ge.
    + eapply (IH _ _ i j); eauto. lia.
Qed.

Lemma domain_loop_start_nonneg t d prev l i x :
  domain_loop t d prev = Some l -> l !! i = Some x -> 0 <= fst x.
Proof.
  revert prev l i. induction t as [|ep t IH]; intros prev l i H Hi.
  - cbn in H. injection H as <-. done.
  - destruct l as [|z l]; [by apply domain_loop_length in H|].
    apply domain_loop_cons in H as (Ht & _ & pos & Hp & ->).
    destruct i as [|i]; cbn in Hi; [|eauto]. injection Hi as <-. unfold epoch_start.
    destruct (pos !! d) as [e|] eqn:E; cbn; [|lia].
    apply parseMariaPos_wf in Hp. apply Hp in E as (_ & _ & ?). lia.
Qed.

Lemma containing_loop_spec starts seq i0 idx :
  match containing_loop starts seq i0 idx with
  | Some k =>
      (idx = Some k /\ forall j s, starts !! j = Some s -> seq <= s) \/
      (exists j s, k = (i0 + j)%nat /\ starts !! j = Some s /\ s < seq /\
         forall j' s', (j < j')%nat -> starts !! j' = Some s' -> seq <= s')
  | None => idx = None /\ forall j s, starts !! j = Some s -> seq <= s
  end.
Proof.
  revert i0 idx. induction starts as [|s starts IH]; intros i0 idx; cbn.
  - destruct idx; [left|]; split; (done || by intros ? ? [=]).
  - specialize (IH (S i0) (if s <? seq then Some i0 else idx)).
    destruct (containing_loop _ _ _ _) as [k|].
    + destruct IH as [[Hidx Hall]|(j & s' & -> & Hj & Hlt & Hall)].
      * destruct (Z.ltb_spec s seq) as [Hs|Hs].
        -- injection Hidx as <-. right. exists 0%nat, s. split; [lia|]. split; [done|]. split; [done|].
           intros [|j'] s' Hj' Hs'; [lia|]. by eapply Hall.
        -- left. split; [done|]. intros [|j] s'; cbn; [by intros [= <-]|apply Hall].
      * right. exists (S j), s'. split; [lia|]. split; [done|]. split; [done|].
        intros [|j'] s'' Hj' Hs'; [lia|]. eapply (Hall j'); [lia|done].
    + destruct IH as [Hidx Hall]. destruct (Z.ltb_spec s seq); [done|]. split; [done|].
      intros [|j] s'; cbn; [by intros [= <-]|apply Hall].
Qed.

(** The epoch found is the last one that started before [seq]. *)
Lemma containing_view (l : list (Z * Z)) n i :
  containing_loop (fst <$> l) n 0 None = Some i ->
  exists x, l !! i = Some x /\ fst x < n /\ forall j y, (i < j)%nat -> l !! j = Some y -> n <= fst y.
Proof.
  intros H. pose proof (containing_loop_spec (fst <$> l) n 0 None) as Hs. rewrite H in Hs.
  destruct Hs as [[[=] _]|(j & s & -> & Hj & Hlt & Hall)]. cbn.
  rewrite list_lookup_fmap in Hj. destruct (l !! j) as [x|] eqn:E; [|done]. injection Hj as <-.
  exists x. split; [done|]. split; [done|]. intros j' y Hj' Hy. eapply (Hall j'); [done|].
  rewrite list_lookup_fmap, Hy. done.
Qed.

Lemma containing_unique (l : list (Z * Z)) n i x :
  l !! i = Some x -> fst x < n -> (forall j y, (i < j)%nat -> l !! j = Some y -> n <= fst y) ->
  containing_loop (fst <$> l) n 0 None = Some i.
Proof.
  intros Hi Hx Hall. pose proof (containing_loop_spec (fst <$> l) n 0 None) as Hs.
  destruct (containing_loop _ _ _ _) as [k|].
  - destruct Hs as [[[=] _]|(j & s & -> & Hj & Hlt & Hall')]. cbn. f_equal.
    rewrite list_lookup_fmap in Hj. destruct (l !! j) as [y|] eqn:E; [|done]. injection Hj as <-.
    destruct (Nat.lt_trichotomy j i) as [Hl|[->|Hl]]; [|done|].
    + assert (n <= fst x); [|lia]. eapply (Hall' i); [done|]. by rewrite list_lookup_fmap, Hi.
    + assert (n <= fst y); [|lia]. by eapply Hall.
  - destruct Hs as [_ Hs]. assert (n <= fst x); [|lia]. eapply (Hs i). by rewrite list_lookup_fmap, Hi.
Qed.

Lemma nthZ_fmap (f : Z * Z -> Z) l i x : l !! i = Some x -> nthZ (f <$> l) i = f x.
Proof. intros H. unfold nthZ. by rewrite list_lookup_fmap, H. Qed.

Lemma Verdict_authored t g on :
  Timeline_Verdict t g = (on, true) ->
  exists a, authored t (g_Domain g) (g_Seq g) a /\ on = (g_Server g =? a).
Proof.
  unfold Timeline_Verdict, authored, Timeline_domain, domainView_containing.
  destruct (Nat.eqb_spec (length t) 0) as [|Hne]; [done|]. cbn [orb]. cbn zeta.
  destruct (Z.eqb_spec (g_Seq g) 0) as [|Hseq]; [done|].
  destruct (domain_loop t (g_Domain g) None) as [l|] eqn:El; [|done].
  cbn [dv_valid dv_starts dv_handoffServer negb].
  pose proof (domain_loop_length _ _ _ _ El) as Hlen.
  destruct (containing_loop _ _ _ _) as [i|] eqn:Ec; [|done].
  destruct (containing_view _ _ _ Ec) as ([st srv] & Hi & Hlt & Hall). cbn in Hlt.
  destruct (lookup_lt_is_Some_2 t i) as [ep Hep].
  { rewrite <- Hlen. by eapply lookup_lt_Some. }
  unfold server_at. rewrite Hep. cbn [fmap option_fmap option_map default]. unfold id.
  intros H. destruct (l !! S i) as [[st' srv']|] eqn:Hn.
  - assert (S i < length t)%nat as Hl by (rewrite <- Hlen; by eapply lookup_lt_Some).
    apply Nat.ltb_lt in Hl. rewrite Hl, (nthZ_fmap snd _ _ _ Hn), (nthZ_fmap fst _ _ _ Hn) in H.
    pose proof (Hall (S i) _ ltac:(lia) Hn) as Hle. cbn in H, Hle.
    destruct (Z.eqb_spec srv' (ep_ServerID ep)) as [Es|Es]; cbn in H.
    + injection H as <-. exists (ep_ServerID ep). split; [|done].
      exists l, i, ep, st, srv. rewrite Hn. naive_solver.
    + destruct (Z.eqb_spec (g_Seq g) st') as [Eq|]; [|done]. injection H as <-.
      exists srv'. split; [|done]. exists l, i, ep, st, srv. rewrite Hn. naive_solver.
  - assert (Nat.ltb (S i) (length t) = false) as Hl
      by (apply Nat.ltb_ge; rewrite <- Hlen; by apply lookup_ge_None).
    rewrite Hl in H. cbn in H. injection H as <-. exists (ep_ServerID ep). split; [|done].
    exists l, i, ep, st, srv. rewrite Hn. naive_solver.
Qed.

(** The epoch of an authored sequence number is the one [containing] finds. *)
Lemma authored_containing t d n a :
  authored t d n a ->
  exists l i ep st srv,
    domain_loop t d None = Some l /\ t !! i = Some ep /\ l !! i = Some (st, srv) /\ 0 <= st < n /\
    containing_loop (fst <$> l) n 0 None = Some i /\
    match l !! S i with
    | None => a = ep_ServerID ep
    | Some (st', srv') =>
        n <= st' /\ ((srv' = ep_ServerID ep /\ a = ep_ServerID ep) \/
                     (srv' <> ep_ServerID ep /\ n = st' /\ a = srv'))
    end.
Proof.
  intros (l & i & ep & st & srv & El & Hep & Hi & Hlt & Hn). exists l, i, ep, st, srv.
  pose proof (domain_loop_start_nonneg _ _ _ _ _ _ El Hi) as Hst. cbn in Hst.
  do 4 (split; [done|]). split; [|done].
  apply (containing_unique l n i (st, srv)); [done..|].
  intros j y Hj Hy. destruct (l !! S i) as [[st' srv']|] eqn:Hsi.
  - destruct Hn as [Hle _]. destruct (decide (j = S i)) as [->|]; [by simplify_eq|].
    assert (fst (st', srv') <= fst y); [|cbn in *; lia].
    eapply (domain_loop_mono _ _ _ _ (S i) j); eauto. lia.
  - apply lookup_ge_None in Hsi. apply lookup_lt_Some in Hy. lia.
Qed.

Lemma authored_Verdict t g a :
  authored t (g_Domain g) (g_Seq g) a -> Timeline_Verdict t g = (g_Server g =? a, true).
Proof.
  intros (l & i & ep & st & srv & El & Hep & Hi & Hlt & Hc & Hn)%authored_containing.
  pose proof (domain_loop_length _ _ _ _ El) as Hlen.
  assert (i < length t)%nat as Hil by (by eapply lookup_lt_Some).
  unfold Timeline_Verdict, Timeline_domain, domainView_containing. rewrite El.
  destruct (Nat.eqb_spec (length t) 0) as [|_]; [lia|]. cbn [orb]. cbn zeta.
  destruct (Z.eqb_spec (g_Seq g) 0) as [|_]; [lia|].
  cbn [dv_valid dv_starts dv_handoffServer negb]. rewrite Hc.
  unfold server_at. rewrite Hep. cbn [fmap option_fmap option_map default]. unfold id.
  destruct (l !! S i) as [[st' srv']|] eqn:Hsi.
  - assert (S i < length t)%nat as Hl by (rewrite <- Hlen; by eapply lookup_lt_Some).
    apply Nat.ltb_lt in Hl. rewrite Hl, (nthZ_fmap snd _ _ _ Hsi), (nthZ_fmap fst _ _ _ Hsi). cbn.
    destruct Hn as [Hle [[Es ->]|(Es & Eq & ->)]].
    + rewrite Es, Z.eqb_refl. done.
    + destruct (Z.eqb_spec srv' (ep_ServerID ep)); [done|]. cbn. by rewrite Eq, Z.eqb_refl.
  - assert (Nat.ltb (S i) (length t) = false) as ->
      by (apply Nat.ltb_ge; rewrite <- Hlen; by apply lookup_ge_None).
    cbn. by rewrite Hn.
Qed.

(** A sequence number has at most one author. *)
Lemma authored_functional t d n a b : authored t d n a -> authored t d n b -> a = b.
Proof.
  intros Ha%(authored_Verdict t (mkMariaDBGTID d a n)) Hb%(authored_Verdict t (mkMariaDBGTID d a n)).
  cbn in *. rewrite Ha in Hb. injection Hb as H. rewrite Z.eqb_refl in H. symmetry in H. by boolp.
Qed.

(** ** [DeadAfter] *)

Lemma dead_loop_spec t l server m :
  (m < length l)%nat ->
  let v := mkDomainView (fst <$> l) (snd <$> l) true in
  exists k x, (k <= m)%nat /\ l !! k = Some x /\ dead_loop t v server m = fst x /\
    forall j y, (k <= j < m)%nat -> l !! S j = Some y -> server_at t j <> server /\ snd y <> server.
Proof.
  intros Hm v. induction m as [|m IH]; cbn [dead_loop].
  - destruct (lookup_lt_is_Some_2 l 0 Hm) as [x Hx]. exists 0%nat, x.
    split; [lia|]. split; [done|]. split; [|lia]. subst v. cbn. by apply (nthZ_fmap fst).
  - destruct (lookup_lt_is_Some_2 l (S m) Hm) as [x Hx].
    subst v. cbn [dv_starts dv_handoffServer].
    rewrite (nthZ_fmap snd _ _ _ Hx), (nthZ_fmap fst _ _ _ Hx).
    destruct (_ || _) eqn:E.
    + exists (S m), x. split; [lia|]. split; [done|]. split; [done|]. lia.
    + boolp. destruct IH as (k & z & Hk & Hz & Hd & Hall); [lia|].
      exists k, z. split; [lia|]. split; [done|]. split; [done|].
      intros j y Hj Hy. destruct (decide (j = m)) as [->|]; [by simplify_eq|].
      apply Hall; [lia|done].
Qed.

(** Nothing the author wrote on the surviving timeline is disowned. *)
Lemma DeadAfter_sound t g after :
  Timeline_DeadAfter t g = Some after ->
  after < g_Seq g /\
  forall n, after < n <= g_Seq g -> ~ authored t (g_Domain g) n (g_Server g).
Proof.
  unfold Timeline_DeadAfter. destruct (Timeline_Verdict t g) as [on known] eqn:Hv.
  destruct on, known; cbn; try done.
  apply Verdict_authored in Hv as (a & Ha & Hne). symmetry in Hne. boolp.
  apply authored_containing in Ha as (l & i & ep & st & srv & El & Hep & Hi & Hlt & Hc & Hn).
  unfold domainView_containing, Timeline_domain. rewrite El. cbn [dv_starts]. rewrite Hc.
  intros [= <-].
  destruct (dead_loop_spec t l (g_Server g) i) as (k & x & Hk & Hx & -> & Hdead);
    [by eapply lookup_lt_Some|].
  assert (fst x <= st) as Hxst.
  { destruct (decide (k = i)) as [->|]; [by simplify_eq|].
    change st with (fst (st, srv)). eapply (domain_loop_mono _ _ _ _ k i); eauto. lia. }
  split; [lia|]. intros n Hnr Hauth.
  destruct (containing_view _ _ _ Hc) as (_ & _ & _ & Hlast).
  apply authored_containing in Hauth as (l' & i' & ep' & st' & srv' & El' & Hep' & Hi' & Hlt' & _ & Hn').
  rewrite El in El'. injection El' as <-.
  assert (i' <= i)%nat as Hile.
  { destruct (Nat.le_gt_cases i' i) as [|Hgt]; [done|]. pose proof (Hlast _ _ Hgt Hi'). cbn in *. lia. }
  assert (k <= i')%nat as Hki.
  { destruct (Nat.le_gt_cases k i') as [|Hgt]; [done|].
    destruct (lookup_lt_is_Some_2 l (S i')) as [[s2 r2] Hy]; [apply lookup_lt_Some in Hi; lia|].
    rewrite Hy in Hn'. destruct Hn' as [Hle _]. destruct (decide (S i' = k)) as [<-|]; [simplify_eq; cbn in *; lia|].
    assert (fst (s2, r2) <= fst x); [|cbn in *; lia].
    eapply (domain_loop_mono _ _ _ _ (S i') k); eauto. lia. }
  destruct (decide (i' = i)) as [->|Hii].
  - simplify_eq. destruct (l !! S i) as [[s2 r2]|]; [|congruence].
    destruct Hn as [_ [[? ?]|(? & ? & ?)]], Hn' as [_ [[? ?]|(? & ? & ?)]]; congruence.
  - destruct (lookup_lt_is_Some_2 l (S i')) as [[s2 r2] Hy]; [apply lookup_lt_Some in Hi; lia|].
    destruct (Hdead i' (s2, r2)) as [H1 H2]; [lia|done|]. unfold server_at in H1. rewrite Hep' in H1.
    rewrite Hy in Hn'. cbn in *. destruct Hn' as [_ [[_ ?]|(_ & _ & ?)]]; congruence.
Qed.

(** ** Judging a position *)

Lemma judge_loop_spec t gtids ak :
  judge_loop t gtids ak =
  if existsb (fun g => let '(on, k) := Timeline_Verdict t g in k && negb on) gtids then (false, true)
  else if ak && forallb (fun g => snd (Timeline_Verdict t g)) gtids then (true, true)
  else (false, false).
Proof.
  revert ak. induction gtids as [|g gtids IH]; intros ak; cbn.
  - rewrite andb_true_r. done.
  - destruct (Timeline_Verdict t g) as [on k]. rewrite IH. cbn.
    destruct (k && negb on); cbn; [done|]. destruct (existsb _ gtids); [done|].
    destruct k, ak; cbn; done.
Qed.

Lemma ParseMariaDBPosition_elem pos p gtids g :
  parseMariaPos pos = Ok p -> ParseMariaDBPosition pos = Ok gtids ->
  g ∈ gtids <-> exists e, p !! g_Domain g = Some e /\ g_Server g = me_server e /\ g_Seq g = me_seq e.
Proof.
  unfold ParseMariaDBPosition. intros -> [= <-]. rewrite isort_perm, list_elem_of_fmap. split.
  - intros ([d e] & -> & H%elem_of_map_to_list). by exists e.
  - intros (e & H & E1 & E2). exists (g_Domain g, e). destruct g. cbn in *. subst.
    split; [done|]. by apply elem_of_map_to_list.
Qed.

(** ** Pruning *)

(** Dropping the oldest epoch changes no author past the next handoff. *)
Lemma authored_tail ep next t d n l pos :
  domain_loop (ep :: next :: t) d None = Some l ->
  parseMariaPos (ep_Handoff next) = Ok pos -> fst (epoch_start pos d) < n ->
  forall a, authored (ep :: next :: t) d n a <-> authored (next :: t) d n a.
Proof.
  intros El Hpos Hn a. destruct l as [|x l]; [by apply domain_loop_length in El|].
  pose proof El as El'. apply domain_loop_cons in El' as (Et & _ & _).
  destruct l as [|y l]; [by apply domain_loop_length in Et|].
  pose proof Et as Et'. apply domain_loop_cons in Et' as (_ & _ & pos' & Hpos' & ->).
  assert (pos' = pos) as -> by congruence. clear Hpos'.
  apply domain_loop_weaken in Et. split.
  - intros (l' & [|i] & e & st & srv & E' & Hep & Hi & Hlt & Hm); rewrite El in E'; injection E' as <-.
    + cbn in Hm. destruct (epoch_start pos d); cbn in *. lia.
    + exists (epoch_start pos d :: l), i, e, st, srv. done.
  - intros (l' & i & e & st & srv & E' & Hep & Hi & Hlt & Hm). rewrite Et in E'. injection E' as <-.
    exists (x :: epoch_start pos d :: l), (S i), e, st, srv. done.
Qed.

Lemma pinners_nil next refs :
  length (pinners next refs) = 0%nat ->
  forall name raw, refs !! name = Some raw -> pinned next raw = false.
Proof.
  unfold pinners. rewrite isort_perm, length_fmap. intros H%nil_length_inv name raw Hr.
  destruct (pinned next raw) eqn:E; [|done].
  assert (In (name, raw) (List.filter (fun '(_, raw) => pinned next raw) (map_to_list refs))) as Hin.
  { apply filter_In. split; [|done]. apply list_elem_of_In. by apply elem_of_map_to_list. }
  by rewrite H in Hin.
Qed.

(** An unpinned reference sits past the next handoff in all its domains. *)
Lemma unpinned_past next raw p d e n :
  pinned next raw = false -> parseMariaPos raw = Ok p -> p !! d = Some e -> 0 < n -> me_seq e <= n ->
  exists floor, parseMariaPos (ep_Handoff next) = Ok floor /\ fst (epoch_start floor d) < n.
Proof.
  unfold pinned. intros H Hp Hd Hpos Hn. rewrite Hp in H.
  destruct (parseMariaPos (ep_Handoff next)) as [floor|]; [|done]. exists floor. split; [done|].
  unfold epoch_start. destruct (floor !! d) as [f|] eqn:Hf; cbn; [|lia].
  destruct (Z.leb_spec (me_seq e) (me_seq f)) as [Hle|]; [|lia].
  assert (existsb (fun '(domain, e) => match floor !! domain with
    | Some f => me_seq e <=? me_seq f | None => false end) (map_to_list p) = true); [|congruence].
  apply existsb_exists. exists (d, e). rewrite <- list_elem_of_In, elem_of_map_to_list, Hf.
  split; [done|]. by apply Z.leb_le.
Qed.

Lemma authored_seq_pos t d n a : authored t d n a -> 0 < n.
Proof. intros (l & i & ep & st & srv & _ & _ & _ & H & _)%authored_containing. lia. Qed.

(** Pruning keeps the author of everything at or past a reference. *)
Lemma prune_unpinned_authored t refs k t' k' name raw p d e n a :
  prune_unpinned t refs k = (t', k') ->
  refs !! name = Some raw -> parseMariaPos raw = Ok p -> p !! d = Some e -> me_seq e <= n ->
  authored t d n a -> authored t' d n a.
Proof.
  revert k. induction t as [|ep t IH]; intros k; cbn; [by intros [= <- _]|].
  destruct t as [|next t]; [by intros [= <- _]|].
  destruct (Nat.eqb_spec (length (pinners next refs)) 0) as [Hp|]; [|by intros [= <- _]].
  intros H Hname Hraw Hd Hn Ha. eapply IH; eauto.
  pose proof (authored_seq_pos _ _ _ _ Ha) as Hpos.
  destruct (unpinned_past next raw p d e n) as (floor & Hf & Hlt);
    [by eapply pinners_nil|done..|].
  pose proof Ha as (l & ? & ? & ? & ? & El & _).
  by apply (authored_tail _ _ _ _ _ _ _ El Hf Hlt).
Qed.

Lemma prune_unpinned_drop t refs k t' k' :
  prune_unpinned t refs k = (t', k') -> (k <= k')%nat /\ t' = drop (k' - k) t /\ (t <> [] -> t' <> []).
Proof.
  revert k. induction t as [|ep t IH]; intros k; cbn.
  - intros [= <- <-]. by rewrite Nat.sub_diag.
  - destruct t as [|next t]; [intros [= <- <-]; by rewrite Nat.sub_diag|].
    destruct (Nat.eqb _ 0); [|intros [= <- <-]; by rewrite Nat.sub_diag].
    intros (Hle & -> & Hne)%IH. split; [lia|]. split; [|naive_solver].
    replace (k' - k)%nat with (S (k' - S k)) by lia. done.
Qed.

Lemma prune_ceiling_spec t refs c k tr pb :
  let r := prune_ceiling t refs c k tr pb in
  (k <= pr_Dropped r)%nat /\ pr_Timeline r = drop (pr_Dropped r - k) t /\
  (pr_Truncated r = false -> tr = false /\ pr_Timeline r = t) /\
  (tr = false -> pr_Truncated r = true -> (k < pr_Dropped r)%nat) /\
  (0 < c -> Z.of_nat (length (pr_Timeline r)) <= c) /\
  (t <> [] -> pr_Timeline r <> []).
Proof.
  revert k tr pb. induction t as [|ep t IH]; intros k tr pb; cbn.
  - rewrite Nat.sub_diag. split_and!; try done; try lia; by intros ->.
  - destruct t as [|next t].
    + cbn. rewrite Nat.sub_diag. split_and!; try done; try lia; by intros ->.
    + destruct (_ && _) eqn:E.
      * set (pb' := foldl _ _ _). destruct (IH (S k) true pb') as (H1 & H2 & H3 & H4 & H5 & H6).
        set (r := prune_ceiling (next :: t) refs c (S k) true pb') in *.
        split; [lia|]. split.
        { replace (pr_Dropped r - k)%nat with (S (pr_Dropped r - S k)) by lia. done. }
        split; [intros Ht; by apply H3 in Ht as [[=] _]|]. split; [lia|].
        split; [intros Hc; specialize (H5 Hc); cbn in *; lia|]. intros _. by apply H6.
      * cbn [pr_Dropped pr_Timeline pr_Truncated]. rewrite Nat.sub_diag.
        split; [done|]. split; [done|]. split; [done|]. split; [by intros ->|].
        split; [|done]. intros Hc. apply andb_false_iff in E. destruct E as [E|E]; boolp; cbn in *; lia.
Qed.

Lemma Prune_authored t refs ceiling name raw p d e n a :
  pr_Truncated (PruneMariaDBTimeline t refs ceiling) = false ->
  refs !! name = Some raw -> parseMariaPos raw = Ok p -> p !! d = Some e -> me_seq e <= n ->
  authored t d n a -> authored (pr_Timeline (PruneMariaDBTimeline t refs ceiling)) d n a.
Proof.
  unfold PruneMariaDBTimeline. destruct (prune_unpinned t refs 0) as [t' k] eqn:E. cbn.
  intros Htr. destruct (prune_ceiling_spec t' refs ceiling k false []) as (_ & _ & Hc & _).
  apply Hc in Htr as [_ ->]. by eapply prune_unpinned_authored.
Qed.

Lemma Prune_drop t refs ceiling :
  let res := PruneMariaDBTimeline t refs ceiling in
  pr_Timeline res = drop (pr_Dropped res) t /\
  (0 < ceiling -> Z.of_nat (length (pr_Timeline res)) <= ceiling) /\
  (t <> [] -> pr_Timeline res <> []).
Proof.
  unfold PruneMariaDBTimeline. destruct (prune_unpinned t refs 0) as [t' k] eqn:E. cbn.
  apply prune_unpinned_drop in E as (_ & -> & Hne). rewrite Nat.sub_0_r in *.
  destruct (prune_ceiling_spec (drop k t) refs ceiling k false []) as (H1 & H2 & _ & _ & H3 & H4).
  split; [|split; [done|auto]].
  rewrite H2, drop_drop. f_equal. lia.
Qed.

(** Only a timeline longer than the ceiling is truncated. *)
Lemma Prune_truncated t refs ceiling :
  pr_Truncated (PruneMariaDBTimeline t refs ceiling) = true -> ceiling < Z.of_nat (length t).
Proof.
  unfold PruneMariaDBTimeline. destruct (prune_unpinned t refs 0) as [t' k] eqn:E. cbn.
  apply prune_unpinned_drop in E as (_ & -> & _). rewrite Nat.sub_0_r.
  intros H. assert (ceiling < Z.of_nat (length (drop k t))); [|rewrite length_drop in *; lia].
  revert H. destruct (drop k t) as [|ep [|next t']]; cbn; [done..|].
  destruct (_ && _) eqn:E; [|done]. boolp. done.
Qed.

(** ** Properties *)

(** The timeline's verdicts are the authorship it records: a GTID is judged
    exactly when its sequence number has a recorded author, that author is
    unique, and the GTID is on the timeline exactly when the author is its server. *)
Theorem verdict_is_authorship t g :
  (snd (Timeline_Verdict t g) = true <-> exists a, authored t (g_Domain g) (g_Seq g) a) /\
  (forall a b, authored t (g_Domain g) (g_Seq g) a -> authored t (g_Domain g) (g_Seq g) b -> a = b) /\
  (forall a, authored t (g_Domain g) (g_Seq g) a -> Timeline_Verdict t g = (g_Server g =? a, true)).
Proof.
  split_and!; [|apply authored_functional|apply authored_Verdict]. split.
  - destruct (Timeline_Verdict t g) as [on known] eqn:E. cbn. intros ->. apply Verdict_authored in E as (a & H & _). eauto.
  - intros [a H]. by rewrite (authored_Verdict t g a H).
Qed.

(** A dead-branch verdict is sound: when the timeline says that a GTID's
    history is dead after some number, that number is below the GTID's and no
    transaction past it, up to the GTID, is recorded as its server's. *)
Theorem dead_after_is_sound t g after :
  Timeline_DeadAfter t g = Some after ->
  after < g_Seq g /\ forall n, after < n <= g_Seq g -> ~ authored t (g_Domain g) n (g_Server g).
Proof. apply DeadAfter_sound. Qed.

(** Server 1 led until 100, then server 2 until 250, then server 3. *)
Definition sample_timeline : MariaDBTimeline :=
  [mkMariaDBEpoch 1 ""; mkMariaDBEpoch 2 "0-1-100"; mkMariaDBEpoch 3 "0-2-250"].

Lemma dead_after_is_sound_witness :
  Timeline_DeadAfter sample_timeline (mkMariaDBGTID 0 1 120) = Some 100 /\
  ~ authored sample_timeline 0 120 1.
Proof.
  split; [vm_compute; reflexivity|].
  apply (proj2 (dead_after_is_sound sample_timeline (mkMariaDBGTID 0 1 120) 100 ltac:(vm_compute; reflexivity))).
  cbn. lia.
Defined.

(** Pruning drops a prefix of the timeline, never all of it, keeps it within
    the ceiling, truncates only a timeline over the ceiling, and while it does not
    truncate it loses no authorship at or past any referenced position. *)
Theorem prune_keeps_referenced_authorship t refs ceiling :
  let r := PruneMariaDBTimeline t refs ceiling in
  pr_Timeline r = drop (pr_Dropped r) t /\ (t <> [] -> pr_Timeline r <> []) /\
  (0 < ceiling -> Z.of_nat (length (pr_Timeline r)) <= ceiling) /\
  (pr_Truncated r = true -> ceiling < Z.of_nat (length t)) /\
  (pr_Truncated r = false -> forall name raw p d e n a,
     refs !! name = Some raw -> parseMariaPos raw = Ok p -> p !! d = Some e -> me_seq e <= n ->
     authored t d n a -> authored (pr_Timeline r) d n a).
Proof.
  intros r. destruct (Prune_drop t refs ceiling) as (H1 & H2 & H3). split_and!; [done..|apply Prune_truncated|].
  intros Ht name raw p d e n a. intros. by eapply Prune_authored.
Qed.
