(* ===== verification/Archive.v ===== *)
(** * The archive's objects

    [pkg/management/mysql/objectstore/binlog.go] (and the key prefixes of
    [objectstore.go]): the object keys of archived binary logs, the archive index
    with its segments and fork records, and the record of disowned ranges.  The
    theorems show that keys of different files never collide and that folding a
    range into the disowned record adds exactly the transactions of the range. *)

From Stdlib Require Import ZArith Lia Bool Ascii String.
From stdpp Require Import base list strings gmap sorting.
From S2P Require Import Prelude GoStrings Gtid GtidText GtidModel MariaGtid MariaTimeline.

Local Open Scope Z_scope.
#[local] Arguments String.append : simpl nomatch.

(** ** Object keys *)

(** The fields of the [S3ObjectStore] API type the keys are built from. *)
Record S3ObjectStore := mkS3ObjectStore { os_Bucket : string; os_Path : string }.

Record BinlogKeys := mkBinlogKeys { bk_BinlogKey : string; bk_ManifestKey : string }.

Definition BinlogPrefixComponent : string := "binlogs".
Definition ArchiveStatusName : string := "_archive_status.json".
Definition ArchiveIndexName : string := "_index.json".
Definition BinlogManifestSuffix : string := ".json".

(** [strings.FieldsFunc(path, '/')] drops the empty pieces. *)
Definition cleanPath (path : string) : string :=
  Join (List.filter (fun p => negb (String.eqb p "")) (Split path "/")) "/".

Definition ClusterPrefix (store : S3ObjectStore) (clusterName : string) : string :=
  let prefix := cleanPath (os_Path store) in
  if negb (String.eqb prefix "") then prefix +:+ "/" +:+ clusterName +:+ "/" else clusterName +:+ "/".

Definition BinlogPrefix (store : S3ObjectStore) (clusterName : string) : string :=
  ClusterPrefix store clusterName +:+ BinlogPrefixComponent +:+ "/".

Definition ServerPrefix (store : S3ObjectStore) (clusterName serverUUID : string) : string :=
  BinlogPrefix store clusterName +:+ serverUUID +:+ "/".

Definition BuildBinlogKeys (store : S3ObjectStore) (clusterName serverUUID binlogName : string)
  : result BinlogKeys :=
  if String.eqb (os_Bucket store) "" then Err (Errorf "object store bucket is required")
  else if String.eqb clusterName "" || String.eqb serverUUID "" || String.eqb binlogName "" then
    Err (Errorf "cluster name, server uuid and binlog name are required")
  else if negb (no_char "/" serverUUID) || negb (no_char "/" binlogName) then
    Err (Errorf "server uuid and binlog name must not contain a path separator")
  else
    let base := ServerPrefix store clusterName serverUUID +:+ binlogName in
    Ok (mkBinlogKeys base (base +:+ BinlogManifestSuffix)).

Definition ArchiveStatusKey (store : S3ObjectStore) (clusterName serverUUID : string) : string :=
  ServerPrefix store clusterName serverUUID +:+ ArchiveStatusName.

Definition ArchiveIndexKey (store : S3ObjectStore) (clusterName : string) : string :=
  BinlogPrefix store clusterName +:+ ArchiveIndexName.

(** ** The index *)

(** [AfterSeq] maps a domain to the sequence the surviving timeline inherited. *)
Record ArchiveFork := mkArchiveFork {
  fk_GTIDSet : string;
  fk_AfterSeq : gmap Z Z;
  fk_AuthorityGTIDSet : string;
  fk_DetectedAt : Time;
  fk_DetectedBy : string
}.

Record ArchiveSegment := mkArchiveSegment {
  sg_ServerUUID : string;
  sg_InstanceName : string;
  sg_Binlogs : list string;
  sg_GTIDSet : string;
  sg_StartGTIDSet : string;
  sg_Fork : option ArchiveFork;
  sg_StartedAt : Time;
  sg_EndedAt : Time
}.

Record ArchiveDisownedRange := mkArchiveDisownedRange {
  dr_Domain : Z;
  dr_Server : Z;
  dr_After : Z;
  dr_Through : Z
}.

Record ArchiveDisowned := mkArchiveDisowned {
  ds_GTIDSet : string;
  ds_Ranges : list ArchiveDisownedRange
}.

Record ArchiveEpoch := mkArchiveEpoch {
  ae_Instance : string;
  ae_ServerID : Z;
  ae_Handoff : string
}.

#[export] Instance ArchiveEpoch_eq_dec : EqDecision ArchiveEpoch.
Proof. solve_decision. Defined.

Record ArchiveForkCheck := mkArchiveForkCheck { fc_CheckedAt : Time; fc_CheckedBy : string }.

Record ArchiveIndex := mkArchiveIndex {
  ix_ClusterName : string;
  ix_ClusterUID : string;
  ix_Segments : list ArchiveSegment;
  ix_CoveredGTIDSet : string;
  ix_UpdatedAt : Time;
  ix_ForkCheck : option ArchiveForkCheck;
  ix_Generation : Z;
  ix_Disowned : option ArchiveDisowned;
  ix_ArchivedThrough : Time;
  ix_MariaDBTimeline : list ArchiveEpoch
}.

(** [&ArchiveIndex{}]. *)
Definition ArchiveIndex_zero : ArchiveIndex := mkArchiveIndex "" "" [] "" 0 None 0 None 0 [].

(** Field updates. *)
Definition set_Fork (s : ArchiveSegment) (f : option ArchiveFork) : ArchiveSegment :=
  mkArchiveSegment (sg_ServerUUID s) (sg_InstanceName s) (sg_Binlogs s) (sg_GTIDSet s)
    (sg_StartGTIDSet s) f (sg_StartedAt s) (sg_EndedAt s).
Definition set_GTIDSet (s : ArchiveSegment) (g : string) : ArchiveSegment :=
  mkArchiveSegment (sg_ServerUUID s) (sg_InstanceName s) (sg_Binlogs s) g
    (sg_StartGTIDSet s) (sg_Fork s) (sg_StartedAt s) (sg_EndedAt s).
Definition set_Segments (i : ArchiveIndex) (l : list ArchiveSegment) : ArchiveIndex :=
  mkArchiveIndex (ix_ClusterName i) (ix_ClusterUID i) l (ix_CoveredGTIDSet i) (ix_UpdatedAt i)
    (ix_ForkCheck i) (ix_Generation i) (ix_Disowned i) (ix_ArchivedThrough i) (ix_MariaDBTimeline i).

(** The position of a server's segment in the index; the pointer the source
    returns aliases that element. *)
Fixpoint find_segment (segs : list ArchiveSegment) (serverUUID : string) (i : nat) : option nat :=
  match segs with
  | [] => None
  | s :: segs' => if String.eqb (sg_ServerUUID s) serverUUID then Some i
                  else find_segment segs' serverUUID (S i)
  end.

Definition ArchiveIndex_Segment (idx : ArchiveIndex) (serverUUID : string) : option nat :=
  find_segment (ix_Segments idx) serverUUID 0.

(** ** Disowned ranges *)

Definition Range_Holds (r : ArchiveDisownedRange) (domain server seq : Z) : bool :=
  (dr_Domain r =? domain) && (dr_Server r =? server) && (dr_After r <? seq) && (seq <=? dr_Through r).

(** The loop over the ranges: the first one that meets [r] absorbs it. *)
Fixpoint add_range (ranges : list ArchiveDisownedRange) (r : ArchiveDisownedRange)
  : list ArchiveDisownedRange * bool :=
  match ranges with
  | [] => ([r], true)
  | cur :: ranges' =>
      if negb (dr_Domain cur =? dr_Domain r) || negb (dr_Server cur =? dr_Server r)
         || (dr_Through cur <? dr_After r) || (dr_Through r <? dr_After cur) then
        let '(l, grew) := add_range ranges' r in (cur :: l, grew)
      else
        let lower := dr_After r <? dr_After cur in
        let upper := dr_Through cur <? dr_Through r in
        (mkArchiveDisownedRange (dr_Domain cur) (dr_Server cur)
           (if lower then dr_After r else dr_After cur)
           (if upper then dr_Through r else dr_Through cur) :: ranges', lower || upper)
  end.

Definition Disowned_AddRange (d : ArchiveDisowned) (r : ArchiveDisownedRange) : ArchiveDisowned * bool :=
  if dr_Through r <=? dr_After r then (d, false)
  else let '(l, grew) := add_range (ds_Ranges d) r in
       (mkArchiveDisowned (ds_GTIDSet d) l, grew).

(** ** Reading a position leniently ([replay.go]) *)

Fixpoint seq_for_domain (triples : list string) (domain : Z) : Z :=
  match triples with
  | [] => 0
  | triple :: triples' =>
      match Split triple "-" with
      | [p0; _; p2] =>
          match ParseUint p0 32 with
          | Some d =>
              if d =? domain
              then match ParseUint p2 64 with
                   | Some seq => seq
                   | None => seq_for_domain triples' domain
                   end
              else seq_for_domain triples' domain
          | None => seq_for_domain triples' domain
          end
      | _ => seq_for_domain triples' domain
      end
  end.

Definition MariaSeqForDomain (pos : string) (domain : Z) : Z :=
  let cleaned := clean pos in
  if String.eqb cleaned "" then 0 else seq_for_domain (Split cleaned ",") domain.

(** [(domain, seq, ok)]; [Ok None] is [ok = false] without an error. *)
Definition SingleDomainMariaGTID (pos : string) : result (option (Z * Z)) :=
  let cleaned := clean pos in
  if String.eqb cleaned "" then Ok None
  else match Split cleaned "," with
       | [triple] =>
           match Split triple "-" with
           | [p0; _; p2] =>
               match ParseUint p0 32 with
               | None => Err (Errorf "invalid MariaDB GTID domain")
               | Some d =>
                   match ParseUint p2 64 with
                   | None => Err (Errorf "invalid MariaDB GTID sequence")
                   | Some s => Ok (Some (d, s))
                   end
               end
           | _ => Err (Errorf "invalid MariaDB GTID: want domain-server-seq")
           end
       | _ => Err (Errorf "multi-domain MariaDB GTID is not supported for positional recovery")
       end.

(** ** Keys never collide *)

Lemma append_cancel_l (a b c : string) : a +:+ b = a +:+ c -> b = c.
Proof. induction a as [|x a IH]; cbn; [done|]. intros [= H]. auto. Qed.

Lemma path_cut (a b c d : string) :
  no_char "/" a = true -> no_char "/" c = true ->
  a +:+ "/" +:+ b = c +:+ "/" +:+ d -> a = c /\ b = d.
Proof.
  intros Ha Hc E. pose proof (Cut_app a "/" b Ha) as H1. pose proof (Cut_app c "/" d Hc) as H2.
  cbn in E. rewrite E in H1. rewrite H1 in H2. by injection H2.
Qed.

Lemma BuildBinlogKeys_ok store cl srv name k :
  BuildBinlogKeys store cl srv name = Ok k ->
  no_char "/" srv = true /\ no_char "/" name = true /\
  bk_BinlogKey k = ServerPrefix store cl srv +:+ name /\
  bk_ManifestKey k = bk_BinlogKey k +:+ BinlogManifestSuffix.
Proof.
  unfold BuildBinlogKeys. repeat case_if; try done. intros [= <-]. boolp. done.
Qed.

Lemma ServerPrefix_inj store cl s1 s2 n1 n2 :
  no_char "/" s1 = true -> no_char "/" s2 = true ->
  ServerPrefix store cl s1 +:+ n1 = ServerPrefix store cl s2 +:+ n2 -> s1 = s2 /\ n1 = n2.
Proof.
  intros H1 H2. unfold ServerPrefix. rewrite !append_assoc. intros E%append_cancel_l. by apply path_cut.
Qed.

(** ** The disowned record *)

Definition ranges_hold (l : list ArchiveDisownedRange) (d s n : Z) : Prop :=
  exists r, r ∈ l /\ Range_Holds r d s n = true.

Lemma ranges_hold_cons r l d s n :
  ranges_hold (r :: l) d s n <-> Range_Holds r d s n = true \/ ranges_hold l d s n.
Proof.
  unfold ranges_hold. split.
  - intros (x & [->|Hx]%elem_of_cons & H); eauto.
  - intros [H|(x & Hx & H)]; eexists; (split; [|exact H]); [by left|by right].
Qed.

Lemma Range_Holds_spec r d s n :
  Range_Holds r d s n = true <->
  dr_Domain r = d /\ dr_Server r = s /\ dr_After r < n /\ n <= dr_Through r.
Proof. unfold Range_Holds. rewrite !andb_true_iff. lia. Qed.

Lemma add_range_hold l r l' g :
  dr_After r < dr_Through r -> add_range l r = (l', g) ->
  forall d s n, ranges_hold l' d s n <-> ranges_hold l d s n \/ Range_Holds r d s n = true.
Proof.
  intros Hr. revert l' g. induction l as [|cur l IH]; intros l' g; cbn.
  - intros [= <- <-] d s n. rewrite ranges_hold_cons. tauto.
  - case_if.
    + destruct (add_range l r) as [l1 g1]. intros [= <- <-] d s n.
      rewrite !ranges_hold_cons, (IH l1 g1 eq_refl). tauto.
    + boolp. intros [= <- <-] d s n. rewrite !ranges_hold_cons, !Range_Holds_spec. cbn.
      destruct (Z.ltb_spec (dr_After r) (dr_After cur)), (Z.ltb_spec (dr_Through cur) (dr_Through r));
        generalize (ranges_hold l d s n); intuition lia.
Qed.

Lemma add_range_again l r l' g :
  dr_After r < dr_Through r -> add_range l r = (l', g) -> add_range l' r = (l', false).
Proof.
  intros Hr. revert l' g. induction l as [|cur l IH]; intros l' g; cbn.
  - intros [= <- <-]. cbn. rewrite !Z.eqb_refl, !Z.ltb_irrefl. cbn.
    replace (dr_Through r <? dr_After r) with false by lia. by destruct r.
  - case_if.
    + destruct (add_range l r) as [l1 g1]. intros [= <- <-]. cbn. rewrite Heqb, (IH _ g1); done.
    + boolp. intros [= <- <-]. cbn.
      replace (dr_Domain cur =? dr_Domain r) with true by lia.
      replace (dr_Server cur =? dr_Server r) with true by lia. cbn.
      destruct (Z.ltb_spec (dr_After r) (dr_After cur)), (Z.ltb_spec (dr_Through cur) (dr_Through r));
        rewrite ?Z.ltb_irrefl; repeat match goal with |- context [?a <? ?b] =>
          replace (a <? b) with false by lia end; done.
Qed.

Lemma add_range_false l r l' : add_range l r = (l', false) -> l' = l.
Proof.
  revert l'. induction l as [|cur l IH]; intros l'; cbn; [done|]. case_if.
  - destruct (add_range l r) as [l1 g1]. intros [= <- ->]. by rewrite (IH l1 eq_refl).
  - intros [= <- H]. apply orb_false_iff in H as [-> ->]. by destruct cur.
Qed.

(** ** Properties *)

(** Archive keys do not collide: within a store and cluster, two binary logs
    that share a key are the same file of the same server. *)
Theorem binlog_keys_are_injective store cluster srv srv' name name' k k' :
  BuildBinlogKeys store cluster srv name = Ok k -> BuildBinlogKeys store cluster srv' name' = Ok k' ->
  bk_BinlogKey k = bk_BinlogKey k' -> srv = srv' /\ name = name'.
Proof.
  intros (S1 & _ & E1 & _)%BuildBinlogKeys_ok (S2 & _ & E2 & _)%BuildBinlogKeys_ok E.
  rewrite E1, E2 in E. by apply ServerPrefix_inj in E.
Qed.

Definition sample_store : S3ObjectStore := mkS3ObjectStore "bucket" "backups".

Lemma binlog_keys_are_injective_witness :
  exists k, BuildBinlogKeys sample_store "prod" "uuid-1" "binlog.000007" = Ok k /\ "uuid-1" = "uuid-1".
Proof.
  eexists. split; [vm_compute; reflexivity|].
  eapply (binlog_keys_are_injective sample_store "prod" "uuid-1" "uuid-1" "binlog.000007" "binlog.000007");
    [vm_compute; reflexivity|vm_compute; reflexivity|reflexivity].
Defined.

(** Recording a disowned range adds exactly its transactions, recording it
    again changes nothing, and a record reported unchanged is. *)
Theorem add_range_is_exact o r o' grew :
  Disowned_AddRange o r = (o', grew) -> dr_After r < dr_Through r ->
  (forall d s n, ranges_hold (ds_Ranges o') d s n <-> ranges_hold (ds_Ranges o) d s n \/ Range_Holds r d s n = true) /\
  ds_GTIDSet o' = ds_GTIDSet o /\ Disowned_AddRange o' r = (o', false) /\ (grew = false -> o' = o).
Proof.
  unfold Disowned_AddRange. intros H Hr. destruct o as [set ranges]. cbn in *.
  destruct (Z.leb_spec (dr_Through r) (dr_After r)) as [?|_]; [lia|].
  destruct (add_range ranges r) as [l g] eqn:E. injection H as <- <-. cbn. split_and!.
  - by eapply add_range_hold.
  - done.
  - destruct (Z.leb_spec (dr_Through r) (dr_After r)) as [?|_]; [lia|]. by rewrite (add_range_again _ _ _ _ Hr E).
  - intros ->. by rewrite (add_range_false _ _ _ E).
Qed.

Lemma add_range_is_exact_witness :
  let r := mkArchiveDisownedRange 0 1 100 120 in
  let o := mkArchiveDisowned "" [mkArchiveDisownedRange 0 1 110 130] in
  fst (Disowned_AddRange o r) = mkArchiveDisowned "" [mkArchiveDisownedRange 0 1 100 130] /\
  Disowned_AddRange (fst (Disowned_AddRange o r)) r = (fst (Disowned_AddRange o r), false).
Proof.
  intros r o. split; [vm_compute; reflexivity|].
  eapply (add_range_is_exact o r (fst (Disowned_AddRange o r)) (snd (Disowned_AddRange o r))).
  - apply surjective_pairing.
  - vm_compute. reflexivity.
Defined.
