(* ===== verification/Forks.v ===== *)
(** * Fork records

    [pkg/management/mysql/binlog/forks.go]: which transactions of an archived
    segment the surviving timeline does not hold, how the records of them grow,
    shrink and are folded into the index, and what status reports of them.

    A judge is a snapshot of the authority.  The MySQL judge holds the primary's
    [gtid_executed]; the MariaDB judge holds the primary timeline. *)

From Stdlib Require Import ZArith Lia Bool Ascii String.
From stdpp Require Import base list strings gmap sorting.
From S2P Require Import Prelude GoStrings Gtid GtidText GtidModel MariaGtid MariaTimeline Archive.

Local Open Scope Z_scope.
#[local] Arguments String.append : simpl nomatch.

(** [scan.go]: on a parse failure the input is returned unchanged. *)
Definition canonicalGTIDSet (raw : string) : string :=
  match ParseGTIDSet raw with
  | Ok set => GTIDSet_String set
  | Err _ => raw
  end.

(** ** Judges *)

Record mysqlForkJudge := mkMysqlForkJudge { mj_raw : string; mj_executed : GTIDSet }.

Record mariadbForkJudge := mkMariadbForkJudge {
  rj_timeline : MariaDBTimeline;
  rj_position : string;
  rj_epochs : list ArchiveEpoch
}.

(** The dynamic type behind the [ForkJudge] interface. *)
Inductive ForkJudge :=
| MySQLJudge (j : mysqlForkJudge)
| MariaDBJudge (j : mariadbForkJudge).

Definition NewMySQLForkJudge (executed : string) : result ForkJudge :=
  let? set := wrapf "parsing gtid_executed" (ParseGTIDSet executed) in
  Ok (MySQLJudge (mkMysqlForkJudge executed set)).

(** A fork record that carries only what was judged. *)
Definition fork_delta (gtidSet : string) (afterSeq : gmap Z Z) : ArchiveFork :=
  mkArchiveFork gtidSet afterSeq "" 0 "".

Definition mysqlForkJudge_Judge (j : mysqlForkJudge) (seg : ArchiveSegment) : result (option ArchiveFork) :=
  let? set := wrapf "parsing gtid set of segment" (ParseGTIDSet (sg_GTIDSet seg)) in
  let disowned := GTIDSet_Difference set (mj_executed j) in
  if GTIDSet_IsEmpty disowned then Ok None
  else Ok (Some (fork_delta (GTIDSet_String disowned) ∅)).

Definition mysqlForkJudge_Unheld (j : mysqlForkJudge) (gtidSet : string) : result string :=
  let? set := wrapf "parsing disowned set" (ParseGTIDSet gtidSet) in
  Ok (GTIDSet_String (GTIDSet_Difference set (mj_executed j))).

Definition EngineTimeline (epochs : list ArchiveEpoch) : MariaDBTimeline :=
  (fun e => mkMariaDBEpoch (ae_ServerID e) (ae_Handoff e)) <$> epochs.

Definition NewMariaDBArchiveJudge (epochs : list ArchiveEpoch) (position : string) : ForkJudge :=
  MariaDBJudge (mkMariadbForkJudge (EngineTimeline epochs) position epochs).

Definition NewMariaDBForkJudge (timeline : MariaDBTimeline) (position : string) : ForkJudge :=
  MariaDBJudge (mkMariadbForkJudge timeline position []).

Definition dead_after_map (t : MariaDBTimeline) (gtids : list MariaDBGTID) : gmap Z Z :=
  foldl (fun after g =>
    match Timeline_DeadAfter t g with
    | Some seq => <[g_Domain g := seq]> after
    | None => after
    end) ∅ gtids.

Definition mariadbForkJudge_Judge (j : mariadbForkJudge) (seg : ArchiveSegment)
  : result (option ArchiveFork) :=
  let? gtids := wrapf "parsing position of segment" (ParseMariaDBPosition (sg_GTIDSet seg)) in
  let after := dead_after_map (rj_timeline j) gtids in
  if Nat.eqb (size after) 0 then Ok None else Ok (Some (fork_delta "" after)).

Definition ForkJudge_Judge (j : ForkJudge) (seg : ArchiveSegment) : result (option ArchiveFork) :=
  match j with
  | MySQLJudge j => mysqlForkJudge_Judge j seg
  | MariaDBJudge j => mariadbForkJudge_Judge j seg
  end.

Definition ForkJudge_Authority (j : ForkJudge) : string :=
  match j with
  | MySQLJudge j => mj_raw j
  | MariaDBJudge j => rj_position j
  end.

(** [retractor, _ := judge.(forkRetractor)]: only the MySQL judge is one; a
    retractor is its [Unheld]. *)
Definition judge_retractor (j : ForkJudge) : option (string -> result string) :=
  match j with
  | MySQLJudge j => Some (mysqlForkJudge_Unheld j)
  | MariaDBJudge _ => None
  end.

(** [carrier, ok := judge.(archiveTimeline)]: only the MariaDB judge is one. *)
Definition ForkJudge_ArchiveTimeline (j : ForkJudge) : option (list ArchiveEpoch) :=
  match j with
  | MySQLJudge _ => None
  | MariaDBJudge j => Some (rj_epochs j)
  end.

(** ** Records shrink *)

(** The record to keep and whether it shrank. *)
Definition retractFork (fork : option ArchiveFork) (unheldOf : string -> result string)
    (authority : string) : result (option ArchiveFork * bool) :=
  match fork with
  | None => Ok (fork, false)
  | Some f =>
      if String.eqb (fk_GTIDSet f) "" then Ok (fork, false)
      else
        let? unheld := unheldOf (fk_GTIDSet f) in
        if String.eqb unheld (canonicalGTIDSet (fk_GTIDSet f)) then Ok (fork, false)
        else if String.eqb unheld "" && Nat.eqb (size (fk_AfterSeq f)) 0 then Ok (None, true)
        else Ok (Some (mkArchiveFork unheld (fk_AfterSeq f) authority (fk_DetectedAt f) (fk_DetectedBy f)), true)
  end.

(** ** Records fold into the index *)

(** The ranges one fork record contributes: for each cut domain, the stretch of
    the segment's position past the cut. *)
Definition fork_ranges (fork : ArchiveFork) (gtids : list MariaDBGTID) : list ArchiveDisownedRange :=
  '(domain, after) ← map_to_list (fk_AfterSeq fork);
  (fun g => mkArchiveDisownedRange domain (g_Server g) after (g_Seq g)) <$>
  List.filter (fun g => g_Domain g =? domain) gtids.

Definition add_ranges (out : ArchiveDisowned) (changed : bool) (rs : list ArchiveDisownedRange)
  : ArchiveDisowned * bool :=
  foldl (fun '(out, changed) r =>
    let '(out', grew) := Disowned_AddRange out r in (out', if grew then true else changed))
    (out, changed) rs.

(** One iteration of the loop over [forks]: the record, the sets to union and
    the changed flag. *)
Definition fold_fork (st : ArchiveDisowned * list string * bool) (x : ArchiveSegment * option ArchiveFork)
  : result (ArchiveDisowned * list string * bool) :=
  let '(out, sets, changed) := st in
  match snd x with
  | None => Ok st
  | Some fork =>
      let sets := if negb (String.eqb (fk_GTIDSet fork) "") then sets ++ [fk_GTIDSet fork] else sets in
      if Nat.eqb (size (fk_AfterSeq fork)) 0 then Ok (out, sets, changed)
      else
        let? gtids := wrapf "parsing position of segment" (ParseMariaDBPosition (sg_GTIDSet (fst x))) in
        let '(out, changed) := add_ranges out changed (fork_ranges fork gtids) in
        Ok (out, sets, changed)
  end.

Definition foldDisowned (existing : option ArchiveDisowned) (segs : list ArchiveSegment)
    (forks : list (option ArchiveFork)) (retractor : option (string -> result string))
  : result (option ArchiveDisowned * bool) :=
  let out := match existing with Some d => d | None => mkArchiveDisowned "" [] end in
  let before := match existing with Some d => canonicalGTIDSet (ds_GTIDSet d) | None => "" end in
  let? ' (out, sets, changed) := fold_result fold_fork (out, [ds_GTIDSet out], false) (zip segs forks) in
  let? union := wrapf "merging disowned sets" (UnionGTIDStrings sets) in
  let? union :=
    match retractor with
    | Some unheldOf => if negb (String.eqb union "") then unheldOf union else Ok union
    | None => Ok union
    end in
  let out := mkArchiveDisowned union (ds_Ranges out) in
  let changed := if negb (String.eqb union before) then true else changed in
  if String.eqb (ds_GTIDSet out) "" && Nat.eqb (length (ds_Ranges out)) 0 then Ok (None, changed)
  else Ok (Some out, changed).

(** ** Records grow *)

(** The per-domain loop of [mergeFork]: the lower cut wins. *)
Definition merge_afterSeq (afterSeq : gmap Z Z) (grew : bool) (delta : gmap Z Z) : gmap Z Z * bool :=
  foldl (fun '(m, grew) '(domain, seq) =>
    match m !! domain with
    | Some cur => if cur <=? seq then (m, grew) else (<[domain := seq]> m, true)
    | None => (<[domain := seq]> m, true)
    end) (afterSeq, grew) (map_to_list delta).

Definition mergeFork (existing delta : option ArchiveFork) (authority : string) (now : Time) (by_ : string)
  : result (option ArchiveFork * bool) :=
  match delta with
  | None => Ok (existing, false)
  | Some d =>
      if String.eqb (fk_GTIDSet d) "" && Nat.eqb (size (fk_AfterSeq d)) 0 then Ok (existing, false)
      else match existing with
           | None =>
               let? _ := if negb (String.eqb (fk_GTIDSet d) "")
                         then wrapf "parsing fork gtid set" (ParseGTIDSet (fk_GTIDSet d))
                         else Ok ∅ in
               Ok (Some (mkArchiveFork (fk_GTIDSet d) (fk_AfterSeq d) authority now by_), true)
           | Some e =>
               let? ' (gtidSet, grew) :=
                 if negb (String.eqb (fk_GTIDSet d) "") then
                   let? union := wrapf "merging fork gtid set"
                                   (UnionGTIDStrings [fk_GTIDSet e; fk_GTIDSet d]) in
                   Ok (if negb (String.eqb union (fk_GTIDSet e)) then (union, true)
                       else (fk_GTIDSet e, false))
                 else Ok (fk_GTIDSet e, false) in
               let '(afterSeq, grew) := merge_afterSeq (fk_AfterSeq e) grew (fk_AfterSeq d) in
               if negb grew then Ok (existing, false)
               else Ok (Some (mkArchiveFork gtidSet afterSeq authority (fk_DetectedAt e) (fk_DetectedBy e)), true)
           end
  end.

(** ** The archive's timeline *)

(** [slices.Index]. *)
Fixpoint slice_index {A} `{EqDecision A} (l : list A) (x : A) : option nat :=
  match l with
  | [] => None
  | y :: l' => if decide (y = x) then Some 0%nat else S <$> slice_index l' x
  end.

(** One GTID of one segment: a domain keeps its lowest sequence. *)
Definition oldest_step (oldest : gmap Z MariaDBGTID) (g : MariaDBGTID) : gmap Z MariaDBGTID :=
  match oldest !! g_Domain g with
  | Some cur => if g_Seq g <? g_Seq cur then <[g_Domain g := g]> oldest else oldest
  | None => <[g_Domain g := g]> oldest
  end.

Definition oldest_positions (segs : list ArchiveSegment) : gmap Z MariaDBGTID :=
  foldl (fun oldest seg =>
    match ParseMariaDBPosition (sg_GTIDSet seg) with
    | Ok gtids => foldl oldest_step oldest gtids
    | Err _ => oldest
    end) ∅ segs.

Definition OldestSegmentPosition (segs : list ArchiveSegment) : string :=
  let oldest := oldest_positions segs in
  let domains := isort Z.leb (fst <$> map_to_list oldest) in
  Join ((fun d => MariaDBGTID_String (default (mkMariaDBGTID 0 0 0) (oldest !! d))) <$> domains) ",".

Definition mergeArchiveTimeline (stored current : list ArchiveEpoch) (segs : list ArchiveSegment)
  : list ArchiveEpoch :=
  match current with
  | [] => stored
  | first :: _ =>
      let merged := match slice_index stored first with
                    | Some k => take k stored
                    | None => stored
                    end ++ current in
      let oldest := OldestSegmentPosition segs in
      let refs : gmap string string := if negb (String.eqb oldest "") then {["archive" := oldest]} else ∅ in
      let pruned := PruneMariaDBTimeline (EngineTimeline merged) refs MariaDBTimelineCeiling in
      drop (pr_Dropped pruned) merged
  end.

(** The body of [ApplyArchiveTimeline]'s loop. *)
Definition apply_timeline_segment (judge : ForkJudge) (seg : ArchiveSegment) : result ArchiveSegment :=
  let? delta := ForkJudge_Judge judge seg in
  let? ' (fork, _) := mergeFork (sg_Fork seg) delta "" 0 "restore" in
  Ok (set_Fork seg fork).

(** [idx] is updated in place; a nil index is left alone. *)
Definition ApplyArchiveTimeline (idx : option ArchiveIndex) : result (option ArchiveIndex) :=
  match idx with
  | None => Ok None
  | Some idx =>
      if Nat.eqb (length (ix_MariaDBTimeline idx)) 0 then Ok (Some idx)
      else
        let judge := NewMariaDBArchiveJudge (ix_MariaDBTimeline idx) "" in
        let? segs := map_result (apply_timeline_segment judge) (ix_Segments idx) in
        Ok (Some (set_Segments idx segs))
  end.

(** ** What status reports *)

(** One [d-s-first..d-s-last] range, or none. *)
Definition render_range (afterSeq : gmap Z Z) (g : MariaDBGTID) : option string :=
  match afterSeq !! g_Domain g with
  | None => None
  | Some after =>
      if g_Seq g <=? after then None
      else
        let first := mkMariaDBGTID (g_Domain g) (g_Server g) (u64 (after + 1)) in
        if g_Seq first =? g_Seq g then Some (MariaDBGTID_String g)
        else Some (MariaDBGTID_String first +:+ ".." +:+ MariaDBGTID_String g)
  end.

Definition RenderFork (seg : ArchiveSegment) : string :=
  match sg_Fork seg with
  | None => ""
  | Some fork =>
      if negb (String.eqb (fk_GTIDSet fork) "") then fk_GTIDSet fork
      else match ParseMariaDBPosition (sg_GTIDSet seg) with
           | Err _ => ""
           | Ok gtids => Join (omap (render_range (fk_AfterSeq fork)) gtids) ","
           end
  end.

Record SegmentFork := mkSegmentFork {
  sf_ServerUUID : string;
  sf_InstanceName : string;
  sf_GTIDs : string;
  sf_DetectedAt : Time
}.

Definition segment_fork (seg : ArchiveSegment) : option SegmentFork :=
  let gtids := RenderFork seg in
  if String.eqb gtids "" then None
  else Some (mkSegmentFork (sg_ServerUUID seg) (sg_InstanceName seg) gtids
               (default 0 (fk_DetectedAt <$> sg_Fork seg))).

Definition SegmentForks (idx : option ArchiveIndex) : list SegmentFork :=
  match idx with
  | None => []
  | Some idx => omap segment_fork (ix_Segments idx)
  end.

Definition forkCheckIdentity (instance identity : string) : string := instance +:+ "/" +:+ identity.

(** ** Gaps of the archive *)

Fixpoint mariadb_segments (segs : list ArchiveSegment) : bool :=
  match segs with
  | [] => false
  | seg :: segs' =>
      if String.eqb (sg_GTIDSet seg) "" then mariadb_segments segs'
      else is_ok (ParseMariaDBPosition (sg_GTIDSet seg))
  end.

Definition mariadbArchive (idx : ArchiveIndex) : bool := mariadb_segments (ix_Segments idx).

(** The stretch of one GTID of a segment, ending at its fork cut. *)
Definition gap_interval (seg : ArchiveSegment) (g : MariaDBGTID) : option (Z * (Z * Z)) :=
  let start0 := MariaSeqForDomain (sg_StartGTIDSet seg) (g_Domain g) in
  let start := if start0 =? 0 then 1 else start0 in
  let end_ := match sg_Fork seg with
              | Some fork => match fk_AfterSeq fork !! g_Domain g with
                             | Some cut => if cut <? g_Seq g then cut else g_Seq g
                             | None => g_Seq g
                             end
              | None => g_Seq g
              end in
  if start <=? end_ then Some (g_Domain g, (start, end_)) else None.

Definition gap_intervals (segs : list ArchiveSegment) : list (Z * (Z * Z)) :=
  seg ← segs;
  match ParseMariaDBPosition (sg_GTIDSet seg) with
  | Ok gtids => omap (gap_interval seg) gtids
  | Err _ => []
  end.

(** [byDomain[domain]], in order of appending. *)
Definition domain_intervals (l : list (Z * (Z * Z))) (domain : Z) : list (Z * Z) :=
  snd <$> List.filter (fun x => fst x =? domain) l.

(** The gaps of one domain's intervals, sorted by start, past [reached]. *)
Fixpoint interval_gaps (reached : Z) (ivs : list (Z * Z)) : list (Z * Z) :=
  match ivs with
  | [] => []
  | iv :: ivs' =>
      (if u64 (reached + 1) <? fst iv then [(u64 (reached + 1), u64 (fst iv - 1))] else []) ++
      interval_gaps (Z.max reached (snd iv)) ivs'
  end.

Definition domain_gaps (ivs : list (Z * Z)) : list (Z * Z) :=
  match isort (fun a b => fst a <=? fst b) ivs with
  | [] => []
  | iv :: ivs' => interval_gaps (snd iv) ivs'
  end.

Definition ArchiveGaps (idx : option ArchiveIndex) : list string :=
  match idx with
  | None => []
  | Some idx =>
      if Nat.eqb (length (ix_Segments idx)) 0 then []
      else
        let mariadb :=
          let l := gap_intervals (ix_Segments idx) in
          let domains := isort Z.leb (remove_dups (fst <$> l)) in
          domain ← domains;
          (fun gap => FormatUint domain +:+ "-" +:+ FormatUint (fst gap) +:+ ".." +:+ FormatUint (snd gap))
            <$> domain_gaps (domain_intervals l domain) in
        match ParseGTIDSet (ix_CoveredGTIDSet idx) with
        | Ok covered =>
            if negb (mariadbArchive idx) then
              let holes := GTIDSet_Holes covered in
              if negb (GTIDSet_IsEmpty holes) then [GTIDSet_String holes] else []
            else mariadb
        | Err _ => mariadb
        end
  end.

(** ** What a record says *)

(** The MySQL transactions of an optional record, and its MariaDB cuts. *)
Definition fork_holds (f : option ArchiveFork) (t : string * Z) : Prop :=
  match f with Some f => mysql_holds (fk_GTIDSet f) t | None => False end.

Definition fork_cuts (f : option ArchiveFork) (d n : Z) : Prop :=
  match f with Some f => exists c, fk_AfterSeq f !! d = Some c /\ c < n | None => False end.

Lemma mysql_holds_empty t : ~ mysql_holds "" t.
Proof. intros (s & [= <-] & H). by apply gtid_in_empty in H. Qed.

Lemma mysql_holds_union2 a b u t :
  UnionGTIDStrings [a; b] = Ok u -> mysql_holds u t <-> mysql_holds a t \/ mysql_holds b t.
Proof.
  intros (parsed & U & Hp & -> & HU & _ & Hin)%UnionGTIDStrings_spec.
  apply map_result_Forall2 in Hp. inversion Hp as [|? A ? ? HA Hp1]; subst.
  inversion Hp1 as [|? B ? ? HB Hp2]; subst. inversion Hp2; subst.
  rewrite (mysql_holds_parsed _ _ t HU), (mysql_holds_parsed _ _ t HA), (mysql_holds_parsed _ _ t HB), Hin.
  split.
  - intros (s & [->|[->|[]%not_elem_of_nil]%elem_of_cons]%elem_of_cons & H); auto.
  - intros [H|H]; eexists; (split; [|exact H]); set_solver.
Qed.

Lemma mysql_holds_difference raw A E t :
  ParseGTIDSet raw = Ok A -> text_wf E ->
  mysql_holds (GTIDSet_String (GTIDSet_Difference A E)) t <->
  mysql_holds raw t /\ ~ gtid_in E (fst t) (snd t).
Proof.
  intros HA HE. assert (text_wf (GTIDSet_Difference A E)) as Hw by eauto with gtid.
  rewrite (mysql_holds_parsed _ _ t (ParseGTIDSet_String _ Hw)), (mysql_holds_parsed _ _ t HA).
  apply GTIDSet_Difference_in; eauto with gtid.
Qed.

(** ** Judging a MySQL segment *)

Definition judge_wf (j : mysqlForkJudge) : Prop := text_wf (mj_executed j).

Lemma NewMySQLForkJudge_wf raw j : NewMySQLForkJudge raw = Ok (MySQLJudge j) -> judge_wf j /\ mj_raw j = raw.
Proof. unfold NewMySQLForkJudge. intros H. inv_result. split; [|done]. by eapply ParseGTIDSet_wf. Qed.

Lemma mysqlForkJudge_Judge_holds j seg r :
  judge_wf j -> mysqlForkJudge_Judge j seg = Ok r ->
  (forall t, fork_holds r t <-> mysql_holds (sg_GTIDSet seg) t /\ ~ gtid_in (mj_executed j) (fst t) (snd t)) /\
  (forall d n, ~ fork_cuts r d n) /\
  (r = None <-> forall t, mysql_holds (sg_GTIDSet seg) t -> gtid_in (mj_executed j) (fst t) (snd t)).
Proof.
  unfold judge_wf, mysqlForkJudge_Judge. intros Hj H. inv_result.
  rename x into A. rename H0 into HA.
  pose proof (fun t => mysql_holds_difference _ _ _ t HA Hj) as Hd.
  assert (text_wf (GTIDSet_Difference A (mj_executed j))) as Hw by eauto with gtid.
  pose proof (GTIDSet_IsEmpty_wf _ (text_wf_set _ Hw)) as Hemp.
  assert (GTIDSet_IsEmpty (GTIDSet_Difference A (mj_executed j)) = true <->
          forall t, mysql_holds (sg_GTIDSet seg) t -> gtid_in (mj_executed j) (fst t) (snd t)) as Hiff.
  { rewrite GTIDSet_IsEmpty_spec by eauto with gtid. split.
    - intros Hn t Ht. destruct (gtid_in_dec (mj_executed j) (fst t) (snd t)); [done|].
      destruct (Hn (fst t) (snd t)). apply GTIDSet_Difference_in; eauto with gtid.
      split; [|done]. by apply (mysql_holds_parsed _ _ t HA).
    - intros Hall u n Hin. apply GTIDSet_Difference_in in Hin as [Hin Hno]; eauto with gtid.
      apply Hno, (Hall (u, n)). by apply (mysql_holds_parsed _ _ (u, n) HA). }
  destruct (GTIDSet_IsEmpty _); inv_result; cbn.
  - split; [|split; [tauto|]].
    + intros t. split; [done|]. intros [Ht Hn]. apply Hn. by apply Hiff.
    + split; [|done]. intros _. by apply Hiff.
  - split; [done|]. split; [by intros d n (c & Hc & _)|].
    split; [done|]. intros Hall. by apply Hiff in Hall.
Qed.

(** ** Growing a record *)

Lemma merge_afterSeq_spec l (m : gmap Z Z) g m' g' :
  NoDup l.*1 ->
  foldl (fun '(m, grew) '(domain, seq) =>
    match m !! domain with
    | Some cur => if cur <=? seq then (m, grew) else (<[domain := seq]> m, true)
    | None => (<[domain := seq]> m, true)
    end) (m, g) l = (m', g') ->
  (forall d n, (exists c, m' !! d = Some c /\ c < n) <->
     (exists c, m !! d = Some c /\ c < n) \/ (exists c, (d, c) ∈ l /\ c < n)) /\
  (g' = false -> m' = m /\ g = false) /\ (g = true -> g' = true).
Proof.
  revert m g. induction l as [|[d0 s0] l IH]; intros m g Hnd; cbn.
  - intros [= <- <-]. split; [|done]. intros d n. split; [by left|].
    intros [H|(c & H%not_elem_of_nil & _)]; done.
  - apply NoDup_cons in Hnd as [Hd0 Hnd]. intros H.
    assert (exists m1 g1, foldl (fun '(m, grew) '(domain, seq) =>
        match m !! domain with
        | Some cur => if cur <=? seq then (m, grew) else (<[domain := seq]> m, true)
        | None => (<[domain := seq]> m, true)
        end) (m1, g1) l = (m', g') /\
      (forall d n, (exists c, m1 !! d = Some c /\ c < n) <->
         (exists c, m !! d = Some c /\ c < n) \/ (d = d0 /\ s0 < n)) /\
      (g1 = false -> m1 = m /\ g = false) /\ (g = true -> g1 = true)) as (m1 & g1 & Hf & H1 & H2 & H3).
    { destruct (m !! d0) as [cur|] eqn:E; [destruct (Z.leb_spec cur s0)|];
        eexists _, _; (split; [exact H|]); (split; [|done]); intros d n;
        rewrite ?lookup_insert; try case_decide; subst; rewrite ?E; naive_solver lia. }
    destruct (IH _ _ Hnd Hf) as (I1 & I2 & I3). split; [|split; [naive_solver|naive_solver]].
    intros d n. rewrite I1, H1. split.
    + intros [[H4|[-> H4]]|(c & Hc & H4)]; [by left|right; exists s0; split; [by left|done]|].
      right. exists c. split; [by right|done].
    + intros [H4|(c & [[= -> ->]|Hc]%elem_of_cons & H4)]; [by left; left|by left; right|].
      right. by exists c.
Qed.

Lemma merge_afterSeq_cuts m g delta m' g' :
  merge_afterSeq m g delta = (m', g') ->
  (forall d n, (exists c, m' !! d = Some c /\ c < n) <->
     (exists c, m !! d = Some c /\ c < n) \/ (exists c, delta !! d = Some c /\ c < n)) /\
  (g' = false -> m' = m /\ g = false) /\ (g = true -> g' = true).
Proof.
  unfold merge_afterSeq. intros H. apply merge_afterSeq_spec in H; [|apply NoDup_fst_map_to_list].
  destruct H as (H1 & H2). split; [|done]. intros d n. rewrite H1.
  setoid_rewrite elem_of_map_to_list. done.
Qed.

Lemma mergeFork_spec existing delta authority now by_ r grew :
  mergeFork existing delta authority now by_ = Ok (r, grew) ->
  (forall t, fork_holds r t <-> fork_holds existing t \/ fork_holds delta t) /\
  (forall d n, fork_cuts r d n <-> fork_cuts existing d n \/ fork_cuts delta d n) /\
  (grew = false -> r = existing) /\
  (forall e f, existing = Some e -> r = Some f ->
     fk_DetectedAt f = fk_DetectedAt e /\ fk_DetectedBy f = fk_DetectedBy e).
Proof.
  unfold mergeFork. destruct delta as [d|]; cbn [fork_holds fork_cuts].
  2: { intros [= <- <-]. split_and!; try tauto. naive_solver. }
  destruct (_ && _) eqn:E0.
  { boolp. apply Nat.eqb_eq, map_size_empty_iff in H0. rewrite H, H0. intros [= <- <-].
    split_and!; [| |done|naive_solver].
    - intros t. pose proof (mysql_holds_empty t). tauto.
    - intros d' n. split; [tauto|]. intros [?|(c & Hc & _)]; [done|]. by rewrite lookup_empty in Hc. }
  destruct existing as [e|]; intros H; inv_result.
  2: { cbn. split_and!; try tauto; naive_solver. }
  destruct x as [gs g1]. rename H0 into Hg.
  destruct (merge_afterSeq (fk_AfterSeq e) g1 (fk_AfterSeq d)) as [m g2] eqn:Em.
  apply merge_afterSeq_cuts in Em as (Hcuts & Hsame & Hkeep).
  assert ((forall t, mysql_holds gs t <-> mysql_holds (fk_GTIDSet e) t \/ mysql_holds (fk_GTIDSet d) t) /\
          (g1 = false -> gs = fk_GTIDSet e)) as [Hset Hgs].
  { destruct (String.eqb_spec (fk_GTIDSet d) "") as [Ed|Ed]; cbn in Hg.
    - injection Hg as <- <-. split; [|done]. intros t. rewrite Ed. pose proof (mysql_holds_empty t). tauto.
    - inv_result. pose proof (fun t => mysql_holds_union2 _ _ _ t H0) as Hu.
      destruct (String.eqb_spec x (fk_GTIDSet e)); cbn in Hg; injection Hg as <- <-; split; try done; by subst. }
  destruct g2; cbn in H; inv_result; cbn.
  - split_and!; try done. intros e0 f [= <-] [= <-]. done.
  - destruct (Hsame eq_refl) as [-> ->]. rewrite (Hgs eq_refl) in Hset.
    split_and!; try done; naive_solver.
Qed.

(** ** Shrinking a record *)

(** A set that is not its own difference with [E] shares a transaction with it. *)
Lemma difference_lost A E :
  set_wf A -> set_wf E -> GTIDSet_Difference A E <> A -> exists u n, gtid_in A u n /\ gtid_in E u n.
Proof.
  intros HA HE Hne. destruct (gtid_witness (GTIDSet_Intersect A E)) as (u & n & H).
  - by apply GTIDSet_Intersect_wf.
  - intros Hi. apply Hne, set_wf_canonical; [by apply GTIDSet_Difference_wf|done|].
    intros u n. rewrite GTIDSet_Difference_in by done. split; [tauto|]. intros Hn. split; [done|].
    intros Hn'. apply (gtid_in_empty u n). rewrite <- Hi. by apply GTIDSet_Intersect_in.
  - exists u, n. by apply GTIDSet_Intersect_in in H.
Qed.

Lemma retractFork_spec f j authority r shrank :
  judge_wf j -> retractFork f (mysqlForkJudge_Unheld j) authority = Ok (r, shrank) ->
  (forall t, fork_holds r t <-> fork_holds f t /\ ~ gtid_in (mj_executed j) (fst t) (snd t)) /\
  (forall d n, fork_cuts r d n <-> fork_cuts f d n) /\
  (shrank = false -> r = f) /\
  (shrank = true -> exists t, fork_holds f t /\ gtid_in (mj_executed j) (fst t) (snd t)).
Proof.
  intros Hj. unfold retractFork. destruct f as [f|]; cbn [fork_holds fork_cuts].
  2: { intros [= <- <-]. split_and!; try done. tauto. }
  destruct (String.eqb_spec (fk_GTIDSet f) "") as [E|E].
  { intros [= <- <-]. cbn. rewrite E. split_and!; try done. intros t.
    pose proof (mysql_holds_empty t). tauto. }
  intros H. inv_result. unfold mysqlForkJudge_Unheld in H0. inv_result. rename x0 into A.
  match goal with H : ParseGTIDSet _ = Ok A |- _ => rename H into HA end.
  pose proof (fun t => mysql_holds_difference _ _ _ t HA Hj) as Hd.
  assert (text_wf A) as HwA by eauto with gtid.
  assert (text_wf (GTIDSet_Difference A (mj_executed j))) as Hw by eauto with gtid.
  assert (canonicalGTIDSet (fk_GTIDSet f) = GTIDSet_String A) as Hcan by (unfold canonicalGTIDSet; by rewrite HA).
  rewrite Hcan in H.
  pose proof (difference_lost A (mj_executed j)) as Hlost.
  destruct (String.eqb_spec (GTIDSet_String (GTIDSet_Difference A (mj_executed j))) (GTIDSet_String A)) as [Es|Es].
  { injection H as <- <-. cbn. split_and!; try done.
    intros t. apply GTIDSet_String_inj in Es; [|done..]. rewrite <- Hd, Es.
    rewrite (mysql_holds_parsed _ _ t HA). by rewrite (mysql_holds_parsed _ _ t (ParseGTIDSet_String _ HwA)). }
  assert (exists t, mysql_holds (fk_GTIDSet f) t /\ gtid_in (mj_executed j) (fst t) (snd t)) as Hex.
  { destruct Hlost as (u & n & H1 & H2); [eauto with gtid..|by intros E'; rewrite E' in Es|].
    exists (u, n). split; [|done]. by apply (mysql_holds_parsed _ _ (u, n) HA). }
  destruct (_ && _) eqn:Eb; injection H as <- <-; cbn.
  - boolp. apply Nat.eqb_eq, map_size_empty_iff in H0. rewrite H in Hd. split_and!; try done.
    + intros t. rewrite <- Hd. pose proof (mysql_holds_empty t). tauto.
    + intros d n. rewrite H0. split; [done|]. intros (c & Hc & _). by rewrite lookup_empty in Hc.
  - split_and!; done.
Qed.

(** ** Folding records into the index *)

Definition disowned_set (d : option ArchiveDisowned) : string := default "" (ds_GTIDSet <$> d).
Definition disowned_ranges (d : option ArchiveDisowned) : list ArchiveDisownedRange :=
  default [] (ds_Ranges <$> d).

(** [d-s-n] is past the cut a record puts on its segment. *)
Definition segment_dead (x : ArchiveSegment * option ArchiveFork) (d s n : Z) : Prop :=
  exists f gtids g after, snd x = Some f /\ ParseMariaDBPosition (sg_GTIDSet (fst x)) = Ok gtids /\
    g ∈ gtids /\ g_Domain g = d /\ g_Server g = s /\ fk_AfterSeq f !! d = Some after /\ after < n <= g_Seq g.

Lemma fork_ranges_elem f gtids r :
  r ∈ fork_ranges f gtids <->
  exists g after, g ∈ gtids /\ fk_AfterSeq f !! g_Domain g = Some after /\
    r = mkArchiveDisownedRange (g_Domain g) (g_Server g) after (g_Seq g).
Proof.
  unfold fork_ranges. rewrite list_elem_of_bind. split.
  - intros ([d after] & (g & -> & Hg)%list_elem_of_fmap & Hd%elem_of_map_to_list).
    apply list_elem_of_In, filter_In in Hg as [Hg Ed]. boolp. subst d. exists g, after.
    split; [by apply list_elem_of_In|done].
  - intros (g & after & Hg & Hd & ->). exists (g_Domain g, after). split; [|by apply elem_of_map_to_list].
    apply list_elem_of_fmap. exists g. split; [done|]. apply list_elem_of_In, filter_In.
    split; [by apply list_elem_of_In|lia].
Qed.

Lemma AddRange_hold o r o' g :
  Disowned_AddRange o r = (o', g) ->
  ds_GTIDSet o' = ds_GTIDSet o /\
  forall d s n, ranges_hold (ds_Ranges o') d s n <->
    ranges_hold (ds_Ranges o) d s n \/ Range_Holds r d s n = true.
Proof.
  unfold Disowned_AddRange. destruct (Z.leb_spec (dr_Through r) (dr_After r)) as [Hle|Hlt].
  - intros [= <- <-]. split; [done|]. intros d s n. rewrite Range_Holds_spec. split; [by left|].
    intros [?|?]; [done|lia].
  - destruct (add_range _ r) as [l g'] eqn:E. intros [= <- <-]. split; [done|]. cbn.
    by eapply add_range_hold.
Qed.

Lemma add_ranges_hold rs o c o' c' :
  add_ranges o c rs = (o', c') ->
  ds_GTIDSet o' = ds_GTIDSet o /\
  forall d s n, ranges_hold (ds_Ranges o') d s n <->
    ranges_hold (ds_Ranges o) d s n \/ ranges_hold rs d s n.
Proof.
  unfold add_ranges. revert o c. induction rs as [|r rs IH]; intros o c; cbn.
  - intros [= <- <-]. split; [done|]. intros d s n. split; [by left|].
    intros [?|(x & []%not_elem_of_nil & _)]; done.
  - destruct (Disowned_AddRange o r) as [o1 g1] eqn:E. intros [H1 H2]%IH.
    apply AddRange_hold in E as [E1 E2]. split; [congruence|]. intros d s n.
    rewrite H2, E2, ranges_hold_cons. tauto.
Qed.

Lemma fold_forks_spec l o sets c o' sets' c' :
  fold_result fold_fork (o, sets, c) l = Ok (o', sets', c') ->
  ds_GTIDSet o' = ds_GTIDSet o /\
  (forall d s n, ranges_hold (ds_Ranges o') d s n <->
     ranges_hold (ds_Ranges o) d s n \/ exists x, x ∈ l /\ segment_dead x d s n) /\
  (forall t, (exists s, s ∈ sets' /\ mysql_holds s t) <->
     (exists s, s ∈ sets /\ mysql_holds s t) \/ exists x, x ∈ l /\ fork_holds (snd x) t).
Proof.
  revert o sets c. induction l as [|[seg [f|]] l IH]; intros o sets c; cbn; intros H.
  - injection H as <- <- <-. split_and!; [done|..]; intros; (split; [by left|]);
      intros [?|(x & []%not_elem_of_nil & _)]; done.
  - apply rbind_Ok in H as ([[o1 sets1] c1] & H0 & H).
    set (sets2 := if negb _ then _ else _) in H0.
    assert (forall t, (exists s, s ∈ sets2 /\ mysql_holds s t) <->
      (exists s, s ∈ sets /\ mysql_holds s t) \/ mysql_holds (fk_GTIDSet f) t) as Hs2.
    { intros t. subst sets2. destruct (String.eqb_spec (fk_GTIDSet f) "") as [E|E]; cbn.
      - rewrite E. pose proof (mysql_holds_empty t). tauto.
      - setoid_rewrite elem_of_app. setoid_rewrite list_elem_of_singleton. split.
        + intros (s & [Hs| ->] & ?); eauto.
        + intros [(s & ? & ?)|?]; [exists s|eexists]; eauto. }
    assert (ds_GTIDSet o1 = ds_GTIDSet o /\ sets1 = sets2 /\
      forall d s n, ranges_hold (ds_Ranges o1) d s n <->
        ranges_hold (ds_Ranges o) d s n \/ segment_dead (seg, Some f) d s n) as (E1 & -> & E2).
    { destruct (Nat.eqb_spec (size (fk_AfterSeq f)) 0) as [Ez|Ez].
      - injection H0 as <- <- <-. split_and!; try done. intros d s n. split; [by left|].
        intros [?|(f' & gtids & g & after & [= <-] & _ & _ & _ & _ & Hl & _)]; [done|].
        apply map_size_empty_iff in Ez. by rewrite Ez, lookup_empty in Hl.
      - apply rbind_Ok in H0 as (x & Hx%wrapf_Ok & H0).
        destruct (add_ranges _ _ _) as [o2 c2] eqn:E. injection H0 as <- <- <-.
        apply add_ranges_hold in E as [E1 E2]. split_and!; [done..|]. intros d s n. rewrite E2.
        apply or_iff_compat_l. unfold ranges_hold, segment_dead. setoid_rewrite fork_ranges_elem. split.
        + intros (r & (g & after & Hg & Hl & ->) & Hr). apply Range_Holds_spec in Hr as (<- & <- & ? & ?).
          exists f, x, g, after. done.
        + intros (f' & gtids & g & after & [= <-] & Hp & Hg & <- & <- & Hl & Hn). cbn in Hp, Hx.
          rewrite Hx in Hp. injection Hp as ->.
          exists (mkArchiveDisownedRange (g_Domain g) (g_Server g) after (g_Seq g)).
          split; [by exists g, after|]. by apply Range_Holds_spec. }
    apply IH in H as (I1 & I2 & I3). split_and!; [congruence|..].
    + intros d s n. rewrite I2, E2. setoid_rewrite elem_of_cons. split; [|naive_solver].
      intros [[?|?]|(x & ? & ?)]; eauto.
    + intros t. rewrite I3, Hs2. setoid_rewrite elem_of_cons. split.
      * intros [[?|?]|(x & ? & ?)]; eauto.
      * intros [?|(x & [->|?] & ?)]; eauto.
  - apply IH in H as (I1 & I2 & I3). split_and!; [done|..].
    + intros d s n. rewrite I2. setoid_rewrite elem_of_cons. split; [naive_solver|].
      intros [?|(x & [->|?] & Hx)]; eauto. by destruct Hx as (? & ? & ? & ? & [=] & _).
    + intros t. rewrite I3. setoid_rewrite elem_of_cons. split; [naive_solver|].
      intros [?|(x & [->|?] & Hx)]; eauto. done.
Qed.

Lemma mysql_holds_union sets u t :
  UnionGTIDStrings sets = Ok u -> mysql_holds u t <-> exists s, s ∈ sets /\ mysql_holds s t.
Proof.
  intros (parsed & U & Hp & -> & HU & _ & Hin)%UnionGTIDStrings_spec.
  rewrite (mysql_holds_parsed _ _ t HU), Hin. apply map_result_Forall2 in Hp. clear -Hp.
  induction Hp as [|raw A sets parsed HA Hp IH]; setoid_rewrite elem_of_nil || setoid_rewrite elem_of_cons.
  - naive_solver.
  - pose proof (mysql_holds_parsed _ _ t HA). split.
    + intros (s & [->|Hs] & H'); [exists raw; tauto|].
      destruct IH as [(x & ? & ?) _]; eauto.
    + intros (s & [->|Hs] & H'); [exists A; tauto|].
      destruct IH as [_ (x & ? & ?)]; eauto.
Qed.

Lemma foldDisowned_spec existing segs forks j r changed :
  judge_wf j ->
  foldDisowned existing segs forks (Some (mysqlForkJudge_Unheld j)) = Ok (r, changed) ->
  (forall t, mysql_holds (disowned_set r) t <->
     (mysql_holds (disowned_set existing) t \/
      exists x, x ∈ zip segs forks /\ fork_holds (snd x) t) /\
     ~ gtid_in (mj_executed j) (fst t) (snd t)) /\
  (forall d s n, ranges_hold (disowned_ranges r) d s n <->
     ranges_hold (disowned_ranges existing) d s n \/ exists x, x ∈ zip segs forks /\ segment_dead x d s n).
Proof.
  intros Hj. unfold foldDisowned. set (out := match existing with Some d => d | None => _ end).
  set (before := match existing with Some d => _ | None => _ end). intros H.
  apply rbind_Ok in H as ([[o sets] c] & Hf & H). apply rbind_Ok in H as (u & Hu%wrapf_Ok & H).
  apply rbind_Ok in H as (v & Hv & H).
  apply fold_forks_spec in Hf as (_ & Hranges & Hsets).
  assert (ds_GTIDSet out = disowned_set existing /\ ds_Ranges out = disowned_ranges existing) as [E1 E2]
    by (by destruct existing).
  assert (forall t, mysql_holds v t <-> mysql_holds u t /\ ~ gtid_in (mj_executed j) (fst t) (snd t)) as Hv'.
  { intros t. destruct (String.eqb_spec u "") as [->|]; cbn in Hv.
    - injection Hv as <-. pose proof (mysql_holds_empty t). tauto.
    - unfold mysqlForkJudge_Unheld in Hv. inv_result. by eapply mysql_holds_difference. }
  assert (disowned_set r = v /\ forall d s n,
    ranges_hold (disowned_ranges r) d s n <-> ranges_hold (ds_Ranges o) d s n) as [-> Hr].
  { destruct (_ && _) eqn:E; injection H as <- _; [|done]. cbn [ds_GTIDSet ds_Ranges] in E. boolp.
    split; [done|]. apply Nat.eqb_eq, nil_length_inv in H0. rewrite H0. done. }
  split.
  - intros t. rewrite Hv', (mysql_holds_union _ _ t Hu), Hsets, <- E1.
    setoid_rewrite list_elem_of_singleton. naive_solver.
  - intros d s n. by rewrite Hr, Hranges, E2.
Qed.

(** ** Judging a MariaDB segment *)

Lemma dead_after_map_lookup t gtids (m : gmap Z Z) d c :
  NoDup (g_Domain <$> gtids) ->
  foldl (fun after g =>
    match Timeline_DeadAfter t g with
    | Some seq => <[g_Domain g := seq]> after
    | None => after
    end) m gtids !! d = Some c <->
  (exists g, g ∈ gtids /\ g_Domain g = d /\ Timeline_DeadAfter t g = Some c) \/
  (m !! d = Some c /\ forall g, g ∈ gtids -> g_Domain g = d -> Timeline_DeadAfter t g = None).
Proof.
  revert m. induction gtids as [|g gtids IH]; intros m; cbn; [set_solver|].
  intros [Hg Hnd]%NoDup_cons. rewrite IH by done. setoid_rewrite elem_of_cons.
  assert (forall g', g' ∈ gtids -> g_Domain g' <> g_Domain g) as Hne.
  { intros g' Hg' E. apply Hg. rewrite <- E. by apply list_elem_of_fmap_2. }
  destruct (Timeline_DeadAfter t g) as [s|] eqn:E.
  - rewrite lookup_insert. case_decide as Ed; naive_solver.
  - naive_solver.
Qed.

Lemma ParseMariaDBPosition_NoDup pos gtids :
  ParseMariaDBPosition pos = Ok gtids -> NoDup (g_Domain <$> gtids).
Proof.
  unfold ParseMariaDBPosition. intros H. inv_result. rewrite isort_perm, <- list_fmap_compose.
  assert (forall l : list (Z * mariaEntry),
    (g_Domain ∘ (fun '(domain, e) => mkMariaDBGTID domain (me_server e) (me_seq e))) <$> l = l.*1) as ->.
  { intros l. apply list_fmap_ext. by intros i [d e]. }
  apply NoDup_fst_map_to_list.
Qed.

(** Each cut of a judgement disowns only what the segment's author did not write
    on the surviving timeline. *)
Lemma mariadbForkJudge_Judge_cuts j seg r :
  mariadbForkJudge_Judge j seg = Ok r ->
  exists gtids, ParseMariaDBPosition (sg_GTIDSet seg) = Ok gtids /\ (forall t, ~ fork_holds r t) /\
    (r = None <-> forall g, g ∈ gtids -> Timeline_DeadAfter (rj_timeline j) g = None) /\
    forall f d c, r = Some f -> fk_AfterSeq f !! d = Some c ->
      exists g, g ∈ gtids /\ g_Domain g = d /\ Timeline_DeadAfter (rj_timeline j) g = Some c.
Proof.
  unfold mariadbForkJudge_Judge. intros H. inv_result. rename x into gtids. exists gtids. split; [done|].
  pose proof (ParseMariaDBPosition_NoDup _ _ H0) as Hnd.
  pose proof (fun d c => dead_after_map_lookup (rj_timeline j) gtids ∅ d c Hnd) as Hl.
  fold (dead_after_map (rj_timeline j) gtids) in Hl.
  destruct (Nat.eqb_spec (size (dead_after_map (rj_timeline j) gtids)) 0) as [Ez|Ez]; inv_result.
  - apply map_size_empty_iff in Ez. split; [by intros t []|]. split; [|done]. split; [|done]. intros _ g Hg.
    destruct (Timeline_DeadAfter (rj_timeline j) g) as [c|] eqn:E; [|done].
    assert (dead_after_map (rj_timeline j) gtids !! g_Domain g = Some c) as Hx by (apply Hl; eauto).
    by rewrite Ez, lookup_empty in Hx.
  - split; [intros t; apply mysql_holds_empty|]. split.
    + split; [done|]. intros Hall. destruct Ez. apply map_size_empty_iff, map_empty. intros d.
      destruct (_ !! d) as [c|] eqn:E; [|done].
      apply Hl in E as [(g & Hg & _ & E)|[E _]]; [by rewrite Hall in E|by rewrite lookup_empty in E].
    + intros f d c [= <-] Hc. cbn in Hc. apply Hl in Hc as [(g & ?)|[E _]]; [by exists g|by rewrite lookup_empty in E].
Qed.

(** ** The timeline the archive keeps *)

(** [o] holds for every domain the lowest of the transactions [P]. *)
Definition lowest_of (o : gmap Z MariaDBGTID) (P : MariaDBGTID -> Prop) : Prop :=
  (forall d g, o !! d = Some g -> g_Domain g = d /\ P g) /\
  (forall g, P g -> exists g', o !! g_Domain g = Some g' /\ g_Seq g' <= g_Seq g).

Lemma oldest_step_lowest o P g :
  lowest_of o P -> lowest_of (oldest_step o g) (fun g' => P g' \/ g' = g).
Proof.
  intros [H1 H2]. unfold oldest_step. split.
  - intros d g'. destruct (o !! g_Domain g) as [cur|] eqn:E; [destruct (_ <? _)|];
      rewrite ?lookup_insert; try case_decide; naive_solver.
  - intros g' [H%H2| ->].
    + destruct H as (x & Hx & Hle).
      destruct (o !! g_Domain g) as [cur|] eqn:E; [destruct (Z.ltb_spec (g_Seq g) (g_Seq cur))|];
        rewrite ?lookup_insert; try case_decide as Ed; eauto; rewrite <- Ed in Hx; simplify_eq.
      exists g. split; [done|lia].
    + destruct (o !! g_Domain g) as [cur|] eqn:E; [destruct (Z.ltb_spec (g_Seq g) (g_Seq cur))|];
        rewrite ?lookup_insert_eq; eauto with lia.
Qed.

Lemma lowest_of_ext o P Q : (forall g, P g <-> Q g) -> lowest_of o P -> lowest_of o Q.
Proof. intros E [H1 H2]. split; [intros d g H; apply H1 in H as [? ?%E]; done|intros g H%E; auto]. Qed.

Lemma oldest_fold_lowest gtids o P :
  lowest_of o P -> lowest_of (foldl oldest_step o gtids) (fun g => P g \/ g ∈ gtids).
Proof.
  revert o P. induction gtids as [|g gtids IH]; intros o P H; cbn.
  - eapply lowest_of_ext; [|exact H]. set_solver.
  - eapply lowest_of_ext; [|apply IH, oldest_step_lowest, H]. intros x. cbn. rewrite elem_of_cons. tauto.
Qed.

Definition reached_by (segs : list ArchiveSegment) (g : MariaDBGTID) : Prop :=
  exists seg gtids, seg ∈ segs /\ ParseMariaDBPosition (sg_GTIDSet seg) = Ok gtids /\ g ∈ gtids.

Lemma oldest_positions_lowest segs : lowest_of (oldest_positions segs) (reached_by segs).
Proof.
  unfold oldest_positions.
  assert (forall o P, lowest_of o P -> lowest_of (foldl (fun oldest seg =>
    match ParseMariaDBPosition (sg_GTIDSet seg) with
    | Ok gtids => foldl oldest_step oldest gtids
    | Err _ => oldest
    end) o segs) (fun g => P g \/ reached_by segs g)) as Hgen.
  { unfold reached_by. induction segs as [|seg segs IH]; intros o P H; cbn.
    - eapply lowest_of_ext; [|exact H]. set_solver.
    - destruct (ParseMariaDBPosition (sg_GTIDSet seg)) as [gtids|e] eqn:E.
      + eapply lowest_of_ext; [|apply IH, oldest_fold_lowest, H]. intros x. cbn.
        setoid_rewrite elem_of_cons. split; [naive_solver|].
        intros [?|(s & l & [->|Hs] & Hl & Hx)]; [by left; left| |right; eauto].
        left; right. congruence.
      + eapply lowest_of_ext; [|apply IH, H]. intros x. cbn. setoid_rewrite elem_of_cons.
        split; [naive_solver|]. intros [?|(s & l & [->|Hs] & Hl & Hx)]; [by left|congruence|].
        right. eauto. }
  eapply lowest_of_ext; [|apply (Hgen ∅ (fun _ => False))]; [naive_solver|].
  split; [|done]. intros d g H. by rewrite lookup_empty in H.
Qed.

(** The position that pins pruning reads back as the lowest one of each domain. *)
Definition oldest_entries (segs : list ArchiveSegment) : mariaPos :=
  (fun g => mkMariaEntry (g_Server g) (g_Seq g)) <$> oldest_positions segs.

Lemma reached_by_ok segs g : reached_by segs g -> entry_ok (g_Domain g) (mkMariaEntry (g_Server g) (g_Seq g)).
Proof.
  intros (seg & gtids & _ & H & Hg). pose proof H as Hp. unfold ParseMariaDBPosition in Hp. inv_result.
  eapply ParseMariaDBPosition_elem in Hg as (e & He & -> & ->); [|done..].
  eapply parseMariaPos_wf in He; [|done]. by destruct e.
Qed.

Lemma OldestSegmentPosition_string segs :
  OldestSegmentPosition segs = mariaPos_string (oldest_entries segs).
Proof.
  unfold OldestSegmentPosition, mariaPos_string, oldest_entries.
  assert (isort Z.leb (fst <$> map_to_list (oldest_positions segs)) =
    isort Z.leb (fst <$> map_to_list ((fun g => mkMariaEntry (g_Server g) (g_Seq g)) <$> oldest_positions segs))) as E.
  { apply isort_Zleb_perm. rewrite map_to_list_fmap, <- list_fmap_compose.
    apply reflexive_eq, list_fmap_ext. by intros i [d g]. }
  rewrite <- E. f_equal. apply list_fmap_ext. intros i d Hi. rewrite lookup_fmap.
  assert (d ∈ isort Z.leb (fst <$> map_to_list (oldest_positions segs))) as Hd by (by eapply list_elem_of_lookup_2).
  rewrite isort_perm in Hd. apply list_elem_of_fmap in Hd as ([d' g] & -> & Hg%elem_of_map_to_list).
  cbn. rewrite Hg. cbn. destruct (oldest_positions_lowest segs) as [H1 _].
  apply H1 in Hg as [<- _]. done.
Qed.

Lemma OldestSegmentPosition_parse segs :
  parseMariaPos (OldestSegmentPosition segs) = Ok (oldest_entries segs).
Proof.
  rewrite OldestSegmentPosition_string. apply parseMariaPos_string. intros d e He.
  unfold oldest_entries in He. rewrite lookup_fmap in He.
  destruct (oldest_positions segs !! d) as [g|] eqn:E; [|done]. injection He as <-.
  apply oldest_positions_lowest in E as [<- Hg]. by apply reached_by_ok in Hg.
Qed.

(** The merged timeline before pruning. *)
Definition merged_timeline (stored current : list ArchiveEpoch) : list ArchiveEpoch :=
  match current with
  | [] => stored
  | first :: _ => match slice_index stored first with
                  | Some k => take k stored
                  | None => stored
                  end ++ current
  end.

Lemma mergeArchiveTimeline_unfold stored current segs :
  current <> [] ->
  let merged := merged_timeline stored current in
  exists refs : gmap string string,
    let pruned := PruneMariaDBTimeline (EngineTimeline merged) refs MariaDBTimelineCeiling in
    EngineTimeline (mergeArchiveTimeline stored current segs) = pr_Timeline pruned /\
    mergeArchiveTimeline stored current segs = drop (pr_Dropped pruned) merged /\
    (OldestSegmentPosition segs <> "" -> refs !! "archive" = Some (OldestSegmentPosition segs)) /\
    (pr_Truncated pruned = true -> (256 < length merged)%nat).
Proof.
  intros Hne merged. unfold mergeArchiveTimeline. destruct current as [|first current]; [done|].
  fold (merged_timeline stored (first :: current)). fold merged.
  set (refs := if negb _ then _ else _). exists refs. cbn zeta.
  destruct (Prune_drop (EngineTimeline merged) refs MariaDBTimelineCeiling) as (Hd & _ & _).
  split_and!; [|done| |].
  - rewrite Hd. unfold EngineTimeline. by rewrite fmap_drop.
  - intros Ho. subst refs. destruct (String.eqb_spec (OldestSegmentPosition segs) ""); [done|]. cbn.
    by rewrite lookup_singleton_eq.
  - intros Ht. pose proof (Prune_truncated (EngineTimeline merged) refs MariaDBTimelineCeiling Ht) as H.
    unfold EngineTimeline in H. rewrite length_fmap in H. unfold MariaDBTimelineCeiling in H. lia.
Qed.

(** Every author the merged timeline names for a position some segment reached
    is still named after pruning, as long as the ceiling did not truncate it. *)
Lemma mergeArchiveTimeline_authored stored current segs g a :
  current <> [] -> (length (merged_timeline stored current) <= 256)%nat -> reached_by segs g ->
  authored (EngineTimeline (merged_timeline stored current)) (g_Domain g) (g_Seq g) a ->
  authored (EngineTimeline (mergeArchiveTimeline stored current segs)) (g_Domain g) (g_Seq g) a.
Proof.
  intros Hne Hlen Hg Ha. destruct (mergeArchiveTimeline_unfold stored current segs Hne) as (refs & -> & _ & Ho & Ht).
  destruct (oldest_positions_lowest segs) as [_ Hlow]. destruct (Hlow g Hg) as (g' & Hg' & Hle).
  assert (oldest_entries segs !! g_Domain g = Some (mkMariaEntry (g_Server g') (g_Seq g'))) as He.
  { unfold oldest_entries. by rewrite lookup_fmap, Hg'. }
  eapply (Prune_authored _ _ _ "archive"); [|apply Ho|apply OldestSegmentPosition_parse|exact He|done|done].
  - destruct (pr_Truncated _); [|done]. specialize (Ht eq_refl). lia.
  - intros E. pose proof (OldestSegmentPosition_parse segs) as Hp. rewrite E in Hp. injection Hp as Hp.
    by rewrite <- Hp, lookup_empty in He.
Qed.

(** ** Gaps *)

Definition between (ivs : list (Z * Z)) (n : Z) : Prop :=
  exists iv, iv ∈ ivs /\ fst iv <= n <= snd iv.

Lemma interval_gaps_spec reached ivs n :
  0 <= reached < MaxUint64 -> Forall (fun iv => 1 <= fst iv <= snd iv /\ snd iv < MaxUint64) ivs ->
  StronglySorted (fun a b => (fst a <=? fst b) = true) ivs ->
  between (interval_gaps reached ivs) n <->
  reached < n /\ ~ between ivs n /\ exists iv, iv ∈ ivs /\ n < fst iv.
Proof.
  revert reached. induction ivs as [|iv ivs IH]; intros reached Hr Hv Hs; cbn.
  - unfold between. set_solver.
  - apply Forall_cons in Hv as [Hiv Hv]. apply StronglySorted_inv in Hs as [Hs Hall].
    rewrite (u64_id (reached + 1)), (u64_id (fst iv - 1)) by (unfold MaxUint64 in *; lia).
    assert (forall P Q, between (P ++ Q) n <-> between P n \/ between Q n) as Happ
      by (intros; unfold between; setoid_rewrite elem_of_app; naive_solver).
    assert (forall x Q, between (x :: Q) n <-> fst x <= n <= snd x \/ between Q n) as Hcons
      by (intros; unfold between; setoid_rewrite elem_of_cons; naive_solver).
    assert (forall x, x ∈ ivs -> fst iv <= fst x) as Hlow.
    { intros x Hx. rewrite Forall_forall in Hall. apply Hall in Hx. lia. }
    rewrite Happ, Hcons, IH by (done || lia). setoid_rewrite elem_of_cons.
    assert (between ivs n -> fst iv <= n) as Hbl by (intros (x & Hx & ?); specialize (Hlow x Hx); lia).
    destruct (Z.ltb_spec (reached + 1) (fst iv)) as [Hg|Hg]; rewrite ?Hcons; cbn.
    + assert (~ between [] n) by (intros (x & []%not_elem_of_nil & _)).
      split.
      * intros [[?|?]|(? & ? & x & Hx & ?)]; [|done|].
        -- split; [lia|]. split; [intros [?|?%Hbl]; lia|]. exists iv. split; [by left|lia].
        -- specialize (Hlow x Hx). split; [lia|]. split; [intros [?|?]; [lia|done]|]. exists x. split; [by right|lia].
      * intros (? & Hn & x & [->|Hx] & ?); [left; left; lia|].
        destruct (Z.lt_ge_cases n (fst iv)); [left; left; lia|]. right.
        split; [|split; [tauto|eauto]]. destruct (Z.le_gt_cases n (snd iv)); [|lia]. exfalso. apply Hn. left. lia.
    + assert (~ between [] n) by (intros (x & []%not_elem_of_nil & _)). split.
      * intros [?|(? & ? & x & Hx & ?)]; [done|]. split; [lia|]. split; [intros [?|?]; [lia|done]|].
        exists x. split; [by right|lia].
      * intros (? & Hn & x & [->|Hx] & ?); [lia|]. right.
        split; [|split; [tauto|eauto]]. destruct (Z.le_gt_cases n (snd iv)); [|lia]. exfalso. apply Hn. left.
        split; [|done]. lia.
Qed.

Lemma domain_gaps_spec ivs n :
  Forall (fun iv => 1 <= fst iv <= snd iv /\ snd iv < MaxUint64) ivs ->
  between (domain_gaps ivs) n <->
  ~ between ivs n /\ (exists iv, iv ∈ ivs /\ fst iv <= n) /\ (exists iv, iv ∈ ivs /\ n < fst iv).
Proof.
  intros Hv. unfold domain_gaps.
  pose proof (isort_perm (fun a b : Z * Z => fst a <=? fst b) ivs) as Hp.
  assert (StronglySorted (fun a b => (fst a <=? fst b) = true) (isort (fun a b : Z * Z => fst a <=? fst b) ivs)) as Hs
    by (apply isort_sorted; intros; lia).
  assert (forall x, x ∈ isort (fun a b : Z * Z => fst a <=? fst b) ivs <-> x ∈ ivs) as Hin
    by (intros x; by rewrite Hp).
  unfold between at 2. setoid_rewrite <- Hin. rewrite <- Hp in Hv. clear Hp Hin.
  destruct (isort _ ivs) as [|iv l]; [unfold between; set_solver|].
  apply Forall_cons in Hv as [Hiv Hv]. apply StronglySorted_inv in Hs as [Hs Hall].
  rewrite Forall_forall in Hall.
  rewrite interval_gaps_spec by (done || lia). unfold between. setoid_rewrite elem_of_cons. split.
  - intros (? & Hn & x & Hx & ?). split; [|split; [exists iv; split; [by left|lia]|eauto]].
    intros (y & [->|Hy] & ?); [lia|]. apply Hn. eauto.
  - intros (Hn & (x & Hx & ?) & (y & Hy & ?)).
    assert (fst iv <= n) as Hlow.
    { destruct Hx as [->|Hx]; [done|]. specialize (Hall _ Hx). lia. }
    split; [destruct (Z.le_gt_cases n (snd iv)); [|lia]; exfalso; apply Hn; exists iv; auto|].
    split; [intros (z & Hz & ?); apply Hn; eauto|]. destruct Hy as [->|Hy]; [lia|eauto].
Qed.

(** ** Properties *)

(** Against a primary's executed set, a MySQL segment's fork is exactly the
    transactions the segment archived and the primary does not hold; no fork
    means there are none. *)
Theorem mysql_fork_judge_is_exact executed j seg r :
  NewMySQLForkJudge executed = Ok j -> ForkJudge_Judge j seg = Ok r ->
  (forall t, fork_holds r t <-> mysql_holds (sg_GTIDSet seg) t /\ ~ mysql_holds executed t) /\
  (r = None <-> forall t, mysql_holds (sg_GTIDSet seg) t -> mysql_holds executed t).
Proof.
  intros Hn Hj. unfold NewMySQLForkJudge in Hn. inv_result.
  assert (judge_wf (mkMysqlForkJudge executed x)) as Hw.
  { apply (NewMySQLForkJudge_wf executed). unfold NewMySQLForkJudge. by rewrite H. }
  destruct (mysqlForkJudge_Judge_holds _ _ _ Hw Hj) as (H1 & _ & H3). cbn [mj_executed] in H1, H3. split.
  - intros t. by rewrite (mysql_holds_parsed executed x).
  - rewrite H3. split; intros Hall t Ht; specialize (Hall t Ht); by rewrite (mysql_holds_parsed executed x) in *.
Qed.

(** A segment of server [u] that archived [set]. *)
Definition sample_segment (u set : string) : ArchiveSegment := mkArchiveSegment u "c-1" ["binlog.000001"] set "" None 0 0.

Lemma mysql_fork_judge_is_exact_witness :
  exists j r, NewMySQLForkJudge "a:1-90" = Ok j /\ ForkJudge_Judge j (sample_segment "a" "a:1-100") = Ok r /\
    r = Some (fork_delta "a:91-100" ∅) /\ fork_holds r ("a", 95).
Proof.
  eexists _, _. split; [vm_compute; reflexivity|]. split; [vm_compute; reflexivity|]. split; [vm_compute; reflexivity|].
  eapply (mysql_fork_judge_is_exact "a:1-90" _ (sample_segment "a" "a:1-100"));
    [vm_compute; reflexivity|vm_compute; reflexivity|]. split.
  - eexists. split; [vm_compute; reflexivity|]. exists (mkGTIDInterval 1 100). split; [vm_compute; left|cbn; lia].
  - intros (s & Hs & iv & Hiv & Hn). vm_compute in Hs. injection Hs as <-.
    change (iv ∈ [mkGTIDInterval 1 90]) in Hiv. apply list_elem_of_singleton in Hiv as ->. cbn in Hn. lia.
Defined.

(** Merging a newly judged fork into a segment's record adds exactly its
    transactions and cuts; a record reported as not grown is the old one, and the
    first detection's time and author are kept. *)
Theorem merge_fork_is_exact existing delta authority now by_ r grew :
  mergeFork existing delta authority now by_ = Ok (r, grew) ->
  (forall t, fork_holds r t <-> fork_holds existing t \/ fork_holds delta t) /\
  (forall d n, fork_cuts r d n <-> fork_cuts existing d n \/ fork_cuts delta d n) /\
  (grew = false -> r = existing) /\
  (forall e f, existing = Some e -> r = Some f ->
     fk_DetectedAt f = fk_DetectedAt e /\ fk_DetectedBy f = fk_DetectedBy e).
Proof. apply mergeFork_spec. Qed.

Lemma merge_fork_is_exact_witness :
  let old := Some (mkArchiveFork "a:91-95" ∅ "a:1-90" 5 "c-2") in
  let new := Some (fork_delta "a:94-100" ∅) in
  exists r, mergeFork old new "a:1-90" 9 "c-3" = Ok (r, true) /\ (forall t, fork_holds r t <-> fork_holds old t \/ fork_holds new t).
Proof.
  intros old new. eexists. split; [vm_compute; reflexivity|].
  eapply (merge_fork_is_exact old new "a:1-90" 9 "c-3" _ true). vm_compute. reflexivity.
Defined.

(** Retracting against a primary removes exactly the recorded transactions
    that primary holds: the record keeps the others, its cuts are untouched, and
    it is reported as shrunk only when a held transaction was recorded. *)
Theorem retract_fork_is_exact executed j f authority r shrank :
  NewMySQLForkJudge executed = Ok (MySQLJudge j) -> retractFork f (mysqlForkJudge_Unheld j) authority = Ok (r, shrank) ->
  (forall t, fork_holds r t <-> fork_holds f t /\ ~ mysql_holds executed t) /\
  (forall d n, fork_cuts r d n <-> fork_cuts f d n) /\
  (shrank = false -> r = f) /\ (shrank = true -> exists t, fork_holds f t /\ mysql_holds executed t).
Proof.
  intros Hn Hr. destruct (NewMySQLForkJudge_wf _ _ Hn) as [Hw _]. unfold NewMySQLForkJudge in Hn. inv_result.
  destruct (retractFork_spec _ _ _ _ _ Hw Hr) as (H1 & H2 & H3 & H4). cbn [mj_executed] in H1, H4. split_and!; [|done..|].
  - intros t. by rewrite (mysql_holds_parsed executed x).
  - intros Hs. destruct (H4 Hs) as (t & ? & ?). exists t. by rewrite (mysql_holds_parsed executed x).
Qed.

Lemma retract_fork_is_exact_witness :
  exists r, retractFork (Some (fork_delta "a:91-100" ∅)) (mysqlForkJudge_Unheld (mkMysqlForkJudge "a:1-95" {["a" := [mkGTIDInterval 1 95]]})) "a:1-95"
      = Ok (r, true) /\ (forall d n, fork_cuts r d n <-> fork_cuts (Some (fork_delta "a:91-100" ∅)) d n).
Proof.
  eexists. split; [vm_compute; reflexivity|].
  eapply (retract_fork_is_exact "a:1-95" (mkMysqlForkJudge "a:1-95" {["a" := [mkGTIDInterval 1 95]]})
    (Some (fork_delta "a:91-100" ∅)) "a:1-95" _ true); vm_compute; reflexivity.
Defined.

(** The index's disowned record accumulates exactly: after a fork check by a
    MySQL primary it holds what it held or a segment's fork holds, less what that
    primary holds, and every dead range of the forks. *)
Theorem fold_disowned_is_exact executed j existing segs forks r changed :
  NewMySQLForkJudge executed = Ok (MySQLJudge j) ->
  foldDisowned existing segs forks (Some (mysqlForkJudge_Unheld j)) = Ok (r, changed) ->
  (forall t, mysql_holds (disowned_set r) t <->
     (mysql_holds (disowned_set existing) t \/ exists x, x ∈ zip segs forks /\ fork_holds (snd x) t) /\
     ~ mysql_holds executed t) /\
  (forall d s n, ranges_hold (disowned_ranges r) d s n <->
     ranges_hold (disowned_ranges existing) d s n \/ exists x, x ∈ zip segs forks /\ segment_dead x d s n).
Proof.
  intros Hn Hr. destruct (NewMySQLForkJudge_wf _ _ Hn) as [Hw _]. unfold NewMySQLForkJudge in Hn. inv_result.
  destruct (foldDisowned_spec _ _ _ _ _ _ Hw Hr) as (H1 & H2). cbn [mj_executed] in H1. split; [|done].
  intros t. by rewrite (mysql_holds_parsed executed x).
Qed.

Lemma fold_disowned_is_exact_witness :
  let j := mkMysqlForkJudge "a:1-95" {["a" := [mkGTIDInterval 1 95]]} in
  exists r, foldDisowned (Some (mkArchiveDisowned "b:7" [])) [sample_segment "a" "a:1-100"] [Some (fork_delta "a:96-100" ∅)]
      (Some (mysqlForkJudge_Unheld j)) = Ok (r, true) /\ disowned_set r = "a:96-100,b:7" /\
    forall d s n, ranges_hold (disowned_ranges r) d s n <-> ranges_hold [] d s n \/
      exists x, x ∈ zip [sample_segment "a" "a:1-100"] [Some (fork_delta "a:96-100" ∅)] /\ segment_dead x d s n.
Proof.
  intros j. eexists. split; [vm_compute; reflexivity|]. split; [vm_compute; reflexivity|].
  eapply (fold_disowned_is_exact "a:1-95" j (Some (mkArchiveDisowned "b:7" [])) [sample_segment "a" "a:1-100"]
    [Some (fork_delta "a:96-100" ∅)] _ true); vm_compute; reflexivity.
Defined.

(** A MariaDB segment is judged forked only where the timeline proves it: no
    transaction of the segment's server past a recorded cut, up to the segment's
    position, is credited to that server; and a segment with no fork has no GTID
    the timeline calls dead. *)
Theorem maria_fork_judge_is_sound timeline position seg r :
  ForkJudge_Judge (NewMariaDBForkJudge timeline position) seg = Ok r ->
  exists gtids, ParseMariaDBPosition (sg_GTIDSet seg) = Ok gtids /\
    (r = None <-> forall g, g ∈ gtids -> Timeline_DeadAfter timeline g = None) /\
    forall f d c, r = Some f -> fk_AfterSeq f !! d = Some c ->
      exists g, g ∈ gtids /\ g_Domain g = d /\ c < g_Seq g /\
        forall n, c < n <= g_Seq g -> ~ authored timeline d n (g_Server g).
Proof.
  intros H. destruct (mariadbForkJudge_Judge_cuts _ _ _ H) as (gtids & Hp & _ & Hnone & Hcut).
  exists gtids. split_and!; [done..|]. intros f d c Hf Hc. destruct (Hcut f d c Hf Hc) as (g & Hg & <- & Hd).
  exists g. apply DeadAfter_sound in Hd as [? ?]. done.
Qed.

Lemma maria_fork_judge_is_sound_witness :
  exists r, ForkJudge_Judge (NewMariaDBForkJudge sample_timeline "0-3-300") (sample_segment "s1" "0-1-120") = Ok r /\
    r = Some (fork_delta "" (<[0 := 100]> ∅)) /\
    exists gtids, ParseMariaDBPosition "0-1-120" = Ok gtids.
Proof.
  eexists. split; [vm_compute; reflexivity|]. split; [vm_compute; reflexivity|].
  destruct (maria_fork_judge_is_sound sample_timeline "0-3-300" (sample_segment "s1" "0-1-120") _ ltac:(vm_compute; reflexivity))
    as (gtids & H & _). exists gtids. exact H.
Defined.

(** Merging the archive's timeline with the current one loses no authorship
    of any position the archived segments reach, as long as the merged timeline
    is within the ceiling. *)
Theorem merged_timeline_keeps_authorship stored current segs g a :
  current <> [] -> (length (merged_timeline stored current) <= 256)%nat -> reached_by segs g ->
  authored (EngineTimeline (merged_timeline stored current)) (g_Domain g) (g_Seq g) a ->
  authored (EngineTimeline (mergeArchiveTimeline stored current segs)) (g_Domain g) (g_Seq g) a.
Proof. apply mergeArchiveTimeline_authored. Qed.

Definition sample_epochs : list ArchiveEpoch :=
  [mkArchiveEpoch "c-1" 1 ""; mkArchiveEpoch "c-2" 2 "0-1-100"; mkArchiveEpoch "c-3" 3 "0-2-250"].

Lemma merged_timeline_keeps_authorship_witness :
  mergeArchiveTimeline (take 2 sample_epochs) (drop 1 sample_epochs) [sample_segment "s2" "0-2-200"] = drop 1 sample_epochs /\
  authored (EngineTimeline (mergeArchiveTimeline (take 2 sample_epochs) (drop 1 sample_epochs) [sample_segment "s2" "0-2-200"])) 0 200 2.
Proof.
  split; [vm_compute; reflexivity|].
  apply (merged_timeline_keeps_authorship (take 2 sample_epochs) (drop 1 sample_epochs) [sample_segment "s2" "0-2-200"]
    (mkMariaDBGTID 0 2 200) 2).
  - discriminate.
  - vm_compute. lia.
  - exists (sample_segment "s2" "0-2-200"), [mkMariaDBGTID 0 2 200]. split; [left|]. split; [vm_compute; reflexivity|left].
  - exists [(0, 0); (100, 1); (250, 2)], 1%nat, (mkMariaDBEpoch 2 "0-1-100"), 100, 1.
    split; [vm_compute; reflexivity|]. split; [reflexivity|]. split; [reflexivity|]. split; [cbn; lia|].
    cbn. split; [lia|]. left. split; reflexivity.
Defined.

(** The gaps reported for a domain are exactly the sequence numbers no
    interval holds, between the lowest start and some later start. *)
Theorem domain_gaps_are_exact ivs n :
  Forall (fun iv => 1 <= fst iv <= snd iv /\ snd iv < MaxUint64) ivs ->
  between (domain_gaps ivs) n <->
  ~ between ivs n /\ (exists iv, iv ∈ ivs /\ fst iv <= n) /\ (exists iv, iv ∈ ivs /\ n < fst iv).
Proof. apply domain_gaps_spec. Qed.

Lemma domain_gaps_are_exact_witness :
  domain_gaps [(20, 30); (1, 10)] = [(11, 19)] /\ ~ between [(20, 30); (1, 10)] 15.
Proof.
  split; [vm_compute; reflexivity|].
  apply (domain_gaps_are_exact [(20, 30); (1, 10)] 15).
  - repeat constructor; cbn; unfold MaxUint64; lia.
  - exists (11, 19). split; [vm_compute; left|cbn; lia].
Defined.
