(* ===== verification/GtidOps.v ===== *)
(** * The planner's view of GTID sets

    The [gtidOps] interface of [pkg/management/mysql/binlog/replay.go] with its
    two implementations, [mysqlGTIDSet] (interval sets) and [mariadbGTIDSet] (a
    raw position string over the engine's GTID model).  [gtidOpsLaws] is what the
    planner and the archiver rely on; both implementations satisfy it. *)

From Stdlib Require Import ZArith Lia Bool Ascii String DecimalString.
From stdpp Require Import base list strings gmap sorting.
From S2P Require Import Prelude GoStrings Gtid GtidText GtidModel MariaGtid.

Local Open Scope Z_scope.
#[local] Arguments String.append : simpl nomatch.

(** ** The interface *)

(** [T] is the value behind the pointer; [go_Parse raw] is [newSet()] followed by
    [Parse(raw)], the only way the code calls it, and the mutating [Union]
    returns the updated receiver. *)
Class gtidOps (T : Type) := {
  go_new : T;
  go_Parse : string -> result T;
  go_Contains : T -> T -> bool;
  go_Union : T -> T -> T;
  go_IsEmpty : T -> bool;
  go_String : T -> string;
  go_Clone : T -> T
}.

(** ** [mysqlGTIDSet] *)

Definition mysqlGTIDSet_Parse (raw : string) : result GTIDSet :=
  if String.eqb raw "" then Ok ∅ else ParseGTIDSet raw.

Definition mysqlGTIDSet_Contains (m o : GTIDSet) : bool :=
  if GTIDSet_IsEmpty o then true else GTIDSet_Contains m o.

Definition mysqlGTIDSet_Union (m o : GTIDSet) : GTIDSet := GTIDSet_Union (GTIDSet_Clone m) o.

#[export] Instance mysqlGTIDSet : gtidOps GTIDSet := {|
  go_new := ∅;
  go_Parse := mysqlGTIDSet_Parse;
  go_Contains := mysqlGTIDSet_Contains;
  go_Union := mysqlGTIDSet_Union;
  go_IsEmpty := GTIDSet_IsEmpty;
  go_String := GTIDSet_String;
  go_Clone := GTIDSet_Clone
|}.

(** ** [mariadbGTIDSet] *)

(** The [raw] field; the [model] field is the engine's GTID model. *)
Record mariadbGTIDSet := mkMariadbGTIDSet { mg_raw : string }.

Section Mariadb.
Context {M : GTIDModel}.

Definition mariadbGTIDSet_Parse (raw : string) : result mariadbGTIDSet :=
  let? _ := if negb (String.eqb raw "") then gm_Canonical raw else Ok "" in
  Ok (mkMariadbGTIDSet raw).

(** [ok, _ = m.model.Contains(...)]: an error reads as [false]. *)
Definition mariadbGTIDSet_Contains (m o : mariadbGTIDSet) : bool :=
  if String.eqb (mg_raw o) "" then true
  else if String.eqb (mg_raw m) "" then false
  else match gm_Contains (mg_raw m) (mg_raw o) with Ok b => b | Err _ => false end.

Definition unionStrings (a b : string) : string :=
  if String.eqb a "" then b else if String.eqb b "" then a else TrimSpace (a +:+ "," +:+ b).

Definition mariadbGTIDSet_Union (m o : mariadbGTIDSet) : mariadbGTIDSet :=
  if String.eqb (mg_raw m) "" then mkMariadbGTIDSet (mg_raw o)
  else if String.eqb (mg_raw o) "" then m
  else mkMariadbGTIDSet (unionStrings (mg_raw m) (mg_raw o)).

Definition mariadbGTIDSet_IsEmpty (m : mariadbGTIDSet) : bool :=
  match gm_IsEmpty (mg_raw m) with Ok b => b | Err _ => false end.

Definition mariadbGTIDSet_String (m : mariadbGTIDSet) : string :=
  if String.eqb (mg_raw m) "" then ""
  else match gm_Canonical (mg_raw m) with Ok c => c | Err _ => mg_raw m end.

Definition mariadbGTIDSet_Clone (m : mariadbGTIDSet) : mariadbGTIDSet := mkMariadbGTIDSet (mg_raw m).

Definition mariadbOps : gtidOps mariadbGTIDSet := {|
  go_new := mkMariadbGTIDSet "";
  go_Parse := mariadbGTIDSet_Parse;
  go_Contains := mariadbGTIDSet_Contains;
  go_Union := mariadbGTIDSet_Union;
  go_IsEmpty := mariadbGTIDSet_IsEmpty;
  go_String := mariadbGTIDSet_String;
  go_Clone := mariadbGTIDSet_Clone
|}.
End Mariadb.

(** The planner's MariaDB sets run on the engine's MariaDB model. *)
#[export] Instance mariadbGTIDSet_ops : gtidOps mariadbGTIDSet := @mariadbOps mariadbGTID.

(** ** The contract *)

(** [go_wf]: the sets the operations build; [go_raw]: the strings the contract
    covers. *)
Class gtidOpsLaws (T : Type) `{gtidOps T} := {
  go_txn : Type;
  go_holds : T -> go_txn -> Prop;
  go_wf : T -> Prop;
  go_raw : string -> Prop;
  go_wf_new : go_wf go_new;
  go_holds_new t : ~ go_holds go_new t;
  go_parse_wf raw s : go_raw raw -> go_Parse raw = Ok s -> go_wf s;
  go_parse_empty s : go_Parse "" = Ok s -> forall t, ~ go_holds s t;
  go_contains_iff a b : go_wf a -> go_wf b ->
    go_Contains a b = true <-> forall t, go_holds b t -> go_holds a t;
  go_union_spec a b : go_wf a -> go_wf b ->
    go_wf (go_Union a b) /\ forall t, go_holds (go_Union a b) t <-> go_holds a t \/ go_holds b t;
  go_isempty_iff a : go_wf a -> go_IsEmpty a = true <-> forall t, ~ go_holds a t;
  go_clone_id a : go_Clone a = a;
  go_string_parse a : go_wf a -> go_raw (go_String a) /\
    exists b, go_Parse (go_String a) = Ok b /\ forall t, go_holds b t <-> go_holds a t;
  go_raw_empty : go_raw ""
}.

(** ** [mysqlGTIDSet] satisfies it *)

Lemma mysqlGTIDSet_Parse_eq raw : mysqlGTIDSet_Parse raw = ParseGTIDSet raw.
Proof. unfold mysqlGTIDSet_Parse. by destruct (String.eqb_spec raw "") as [->|]. Qed.

#[export] Program Instance mysqlGTIDSet_laws : gtidOpsLaws GTIDSet := {|
  go_txn := string * Z;
  go_holds s t := gtid_in s (fst t) (snd t);
  go_wf := text_wf;
  go_raw _ := True
|}.
Next Obligation. apply text_wf_empty. Qed.
Next Obligation. intros t. apply gtid_in_empty. Qed.
Next Obligation. intros raw s _ H. cbn in H. rewrite mysqlGTIDSet_Parse_eq in H. by eapply ParseGTIDSet_wf. Qed.
Next Obligation. intros s [= <-] t. apply gtid_in_empty. Qed.
Next Obligation.
  intros a b Ha Hb. cbn. unfold mysqlGTIDSet_Contains.
  destruct (GTIDSet_IsEmpty b) eqn:E.
  - rewrite GTIDSet_IsEmpty_spec in E by eauto with gtid. split; [|done]. intros _ t Ht. by apply E in Ht.
  - rewrite GTIDSet_Contains_spec by eauto with gtid. split; [intros H [u n]; apply H|].
    intros H u n. apply (H (u, n)).
Qed.
Next Obligation.
  intros a b Ha Hb. cbn. unfold mysqlGTIDSet_Union. rewrite GTIDSet_Clone_id.
  split; [by apply GTIDSet_Union_text|]. intros [u n].
  destruct (GTIDSet_Union_spec a b) as [_ H]; [eauto with gtid..|]. apply H.
Qed.
Next Obligation.
  intros a Ha. cbn. rewrite GTIDSet_IsEmpty_spec by eauto with gtid. split; [intros H t; apply H|].
  intros H u n. apply (H (u, n)).
Qed.
Next Obligation. intros a. cbn. apply GTIDSet_Clone_id. Qed.
Next Obligation.
  intros a Ha. split; [done|]. exists a. cbn. rewrite mysqlGTIDSet_Parse_eq.
  split; [by apply ParseGTIDSet_String|done].
Qed.
Next Obligation. done. Qed.

(** ** [mariadbGTIDSet] satisfies it *)

(** A raw position of the planner: empty, or readable with at least one triple.
    A position of blanks only is excluded: [unionStrings] would glue it to the
    other one as an empty triple. *)
Definition maria_raw (raw : string) : Prop := clean raw = "" -> raw = "".
Definition mariadbGTIDSet_wf (m : mariadbGTIDSet) : Prop := maria_raw (mg_raw m) /\ maria_valid (mg_raw m).

(** Characters of a readable position. *)
Definition pos_char (c : ascii) : bool := negb (Ascii.eqb c "011") && negb (Ascii.eqb c "012").

Lemma digit_pos_char c : is_digit c = true -> pos_char c = true.
Proof. intros H. unfold pos_char. by rewrite !digit_not. Qed.

Lemma ParseUint_digits s bits n : ParseUint s bits = Some n -> all_chars is_digit s = true.
Proof.
  unfold ParseUint, parse_digits. destruct (NilEmpty.uint_of_string s) as [d|] eqn:E; [|done].
  intros _. apply NilEmpty.sus in E as <-. apply string_of_uint_digits.
Qed.

Lemma all_chars_Split (p : ascii -> bool) s sep :
  p sep = true -> Forall (fun x => all_chars p x = true) (Split s sep) -> all_chars p s = true.
Proof.
  intros Hsep. induction s as [|c s IH]; cbn; [done|]. destruct (Ascii.eqb_spec c sep) as [->|].
  - intros [_ H]%Forall_cons. by rewrite Hsep, IH.
  - destruct (Split s sep) as [|h t]; intros [Hh Ht]%Forall_cons; cbn in Hh; apply andb_true_iff in Hh as [-> Hh].
    + by apply IH.
    + apply IH. by constructor.
Qed.

Lemma parse_triple_any p t p' :
  parse_triple p t = Ok p' ->
  all_chars pos_char t = true /\
  exists d e, entry_ok d e /\ forall q, parse_triple q t = Ok (pos_keep q d e).
Proof.
  unfold parse_triple. destruct (Split t "-") as [|p0 [|p1 [|p2 [|? ?]]]] eqn:Es; try done.
  destruct (ParseUint p0 32) as [d|] eqn:E0; [|done].
  destruct (ParseUint p1 32) as [s|] eqn:E1; [|done].
  destruct (ParseUint p2 64) as [q|] eqn:E2; [|done].
  intros _. split.
  - apply (all_chars_Split _ _ "-"); [done|]. rewrite Es.
    apply ParseUint_digits in E0, E1, E2. repeat constructor; eapply all_chars_impl;
      (apply digit_pos_char || done).
  - apply ParseUint_bound in E0, E1, E2. exists d, (mkMariaEntry s q). done.
Qed.

(** Parsing further triples adds the same transactions to any position. *)
Lemma parse_triples_add pieces q p :
  fold_result parse_triple q pieces = Ok p ->
  Forall (fun x => all_chars pos_char x = true) pieces /\
  exists X : Z -> Z -> Prop, forall acc, pos_wf acc ->
    exists r, fold_result parse_triple acc pieces = Ok r /\ pos_wf r /\
      forall d n, reached r d n <-> reached acc d n \/ X d n.
Proof.
  revert q. induction pieces as [|t pieces IH]; intros q; cbn.
  - intros _. split; [constructor|]. exists (fun _ _ => False). intros acc Ha. exists acc. naive_solver.
  - intros H. inv_result. apply parse_triple_any in H0 as (Ht & d & e & He & Hany).
    apply IH in H as (Hf & X & HX). split; [by constructor|].
    exists (fun d' n => (d' = d /\ 0 <= n <= me_seq e) \/ X d' n). intros acc Ha. rewrite Hany. cbn.
    destruct (HX (pos_keep acc d e)) as (r & Hr & Hw & Hreach); [by apply pos_keep_wf|].
    exists r. split_and!; [done..|]. intros d' n. rewrite Hreach, pos_keep_reached by done. tauto.
Qed.

Lemma clean_pos_char raw : all_chars pos_char (clean raw) = true -> all_chars pos_char raw = true.
Proof.
  unfold clean. induction raw as [|c s IH]; cbn; [done|]. destruct (is_gtid_space c) eqn:E; cbn.
  - intros H. rewrite IH by done. unfold is_gtid_space in E. rewrite !orb_true_iff, !Ascii.eqb_eq in E.
    by destruct E as [[[->| ->]| ->]| ->].
  - intros [-> H]%andb_true_iff. auto.
Qed.

Lemma clean_app a b : clean (a +:+ b) = clean a +:+ clean b.
Proof. unfold clean. induction a as [|c s IH]; cbn; [done|]. destruct (negb _); cbn; by rewrite IH. Qed.

Lemma pos_char_space c : pos_char c = true -> is_space c = is_gtid_space c.
Proof.
  unfold pos_char, is_space. rewrite andb_true_iff, !negb_true_iff. intros [-> ->]. by rewrite !orb_false_r.
Qed.

Lemma clean_trim_left s : all_chars pos_char s = true -> clean (trim_left s) = clean s /\ all_chars pos_char (trim_left s) = true.
Proof.
  induction s as [|c s IH]; cbn; [done|]. intros [Hc Hs]%andb_true_iff.
  rewrite (pos_char_space c Hc). unfold clean in *. cbn. destruct (is_gtid_space c) eqn:E; cbn.
  - by apply IH.
  - rewrite E. cbn. by rewrite Hc, Hs.
Qed.

Lemma clean_trim_right s : all_chars pos_char s = true -> clean (trim_right s) = clean s.
Proof.
  induction s as [|c s IH]; cbn; [done|]. intros [Hc Hs]%andb_true_iff. specialize (IH Hs).
  unfold clean in *. destruct (trim_right s) as [|c' t]; cbn in *.
  - rewrite (pos_char_space c Hc). rewrite <- IH. destruct (is_gtid_space c) eqn:E; cbn; by rewrite ?E.
  - by rewrite IH.
Qed.

Lemma parseMariaPos_chars raw p : parseMariaPos raw = Ok p -> all_chars pos_char raw = true.
Proof.
  unfold parseMariaPos. intros H. apply clean_pos_char.
  destruct (String.eqb_spec (clean raw) "") as [->|]; [done|].
  apply parse_triples_add in H as [H _]. by apply (all_chars_Split _ _ ",").
Qed.

Lemma Split_nonnil s sep : Split s sep <> [].
Proof. destruct s as [|c s]; cbn; [done|]. destruct (Ascii.eqb c sep); [done|]. by destruct (Split s sep). Qed.

Lemma Split_app_comma a b : Split (a +:+ String "," b) "," = Split a "," ++ Split b ",".
Proof.
  induction a as [|c a IH]; cbn; [done|]. destruct (Ascii.eqb c ","); [by rewrite IH|].
  rewrite IH. pose proof (Split_nonnil a ","). by destruct (Split a ",").
Qed.

Lemma unionStrings_parse a b A B :
  clean a <> "" -> clean b <> "" -> parseMariaPos a = Ok A -> parseMariaPos b = Ok B ->
  clean (unionStrings a b) <> "" /\
  exists U, parseMariaPos (unionStrings a b) = Ok U /\
    forall d n, reached U d n <-> reached A d n \/ reached B d n.
Proof.
  intros Ha Hb HA HB. pose proof (parseMariaPos_wf _ _ HA) as HwA.
  assert (clean (unionStrings a b) = clean a +:+ String "," (clean b)) as Hc.
  { unfold unionStrings. destruct (String.eqb_spec a "") as [->|]; [done|].
    destruct (String.eqb_spec b "") as [->|]; [done|]. unfold TrimSpace.
    assert (all_chars pos_char (a +:+ "," +:+ b) = true) as Hall.
    { rewrite !all_chars_app. rewrite (parseMariaPos_chars _ _ HA), (parseMariaPos_chars _ _ HB). done. }
    destruct (clean_trim_left _ Hall) as [E1 E2]. rewrite clean_trim_right by done. rewrite E1.
    by rewrite clean_app. }
  assert (clean (unionStrings a b) <> "") as Hne by (rewrite Hc; by destruct (clean a)).
  split; [done|]. unfold parseMariaPos in *. rewrite Hc in *.
  destruct (String.eqb_spec (clean a) ""); [done|]. destruct (String.eqb_spec (clean b) ""); [done|].
  destruct (String.eqb_spec (clean a +:+ String "," (clean b)) ""); [done|].
  rewrite Split_app_comma, fold_result_app, HA. cbn.
  pose proof HB as HB'. apply parse_triples_add in HB' as (_ & X & HX).
  destruct (HX A HwA) as (U & HU & _ & HrU). destruct (HX ∅) as (B' & HB' & _ & HrB); [apply map_Forall_empty|].
  rewrite HB in HB'. injection HB' as <-. exists U. split; [done|]. intros d m. rewrite HrU, HrB.
  assert (~ reached ∅ d m) by (intros (? & [=] & _)). tauto.
Qed.

(** A readable non-blank position holds something. *)
Lemma maria_nonempty_holds raw p :
  clean raw <> "" -> parseMariaPos raw = Ok p -> exists t, maria_holds raw t.
Proof.
  intros Hne H. pose proof H as H0. unfold parseMariaPos in H0.
  destruct (String.eqb_spec (clean raw) ""); [done|].
  destruct (Split (clean raw) ",") as [|t pieces] eqn:Es; [by apply Split_nonnil in Es|].
  cbn in H0. apply rbind_Ok in H0 as (q & Hq & H0).
  pose proof Hq as Hq'. apply parse_triple_any in Hq' as (_ & d & e & He & Hany).
  rewrite Hany in Hq. injection Hq as <-.
  assert (pos_wf (pos_keep ∅ d e)) as Hw by (apply pos_keep_wf; [apply map_Forall_empty|done]).
  pose proof H0 as H1. apply parse_triples_add in H1 as (_ & X & HX).
  destruct (HX _ Hw) as (r & Hr & _ & Hreach). rewrite H0 in Hr. injection Hr as <-.
  exists (d, 0). apply (maria_holds_parsed _ _ _ H). cbn. apply Hreach. left.
  apply pos_keep_reached; [apply map_Forall_empty|]. right. destruct He as (_ & _ & ?). lia.
Qed.

Lemma maria_holds_blank t : ~ maria_holds "" t.
Proof. intros (p & [= <-] & e & H & _). by rewrite lookup_empty in H. Qed.

Lemma maria_canonical_ok raw c :
  mariadbGTID_Canonical raw = Ok c ->
  exists p, parseMariaPos raw = Ok p /\ c = mariaPos_string p /\ parseMariaPos c = Ok p.
Proof.
  unfold mariadbGTID_Canonical. intros H. inv_result. exists x. split_and!; [done..|].
  apply parseMariaPos_string. by eapply parseMariaPos_wf.
Qed.

(** A printed position is empty or non-blank. *)
Lemma mariaPos_string_raw p : pos_wf p -> maria_raw (mariaPos_string p).
Proof.
  intros Hp Hc. destruct (decide (p = ∅)) as [->|Hne]; [done|]. exfalso.
  pose proof (parseMariaPos_string p Hp) as H. unfold parseMariaPos in H. rewrite Hc in H. cbn in H.
  injection H as H. done.
Qed.

Lemma mariadbGTIDSet_contains_iff a b :
  mariadbGTIDSet_wf a -> mariadbGTIDSet_wf b ->
  mariadbGTIDSet_Contains a b = true <-> forall t, maria_holds (mg_raw b) t -> maria_holds (mg_raw a) t.
Proof.
  intros [Ha [A HA]] [Hb [B HB]]. unfold mariadbGTIDSet_Contains.
  destruct (String.eqb_spec (mg_raw b) "") as [->|Hbe].
  { split; [|done]. intros _ t Ht. by apply maria_holds_blank in Ht. }
  destruct (String.eqb_spec (mg_raw a) "") as [->|Hae].
  - split; [done|]. intros H. destruct (maria_nonempty_holds (mg_raw b) B) as [t Ht]; [naive_solver|done|].
    apply H in Ht. by apply maria_holds_blank in Ht.
  - cbn. unfold mariadbGTID_Contains. rewrite HA, HB. cbn. by apply maria_subset.
Qed.

Lemma mariadbGTIDSet_union_spec a b :
  mariadbGTIDSet_wf a -> mariadbGTIDSet_wf b ->
  mariadbGTIDSet_wf (mariadbGTIDSet_Union a b) /\
  forall t, maria_holds (mg_raw (mariadbGTIDSet_Union a b)) t <->
    maria_holds (mg_raw a) t \/ maria_holds (mg_raw b) t.
Proof.
  intros [Ha [A HA]] [Hb [B HB]]. unfold mariadbGTIDSet_Union, mariadbGTIDSet_wf.
  destruct (String.eqb_spec (mg_raw a) "") as [Ea|Ea]; cbn [mg_raw].
  { split; [split; [done|by exists B]|]. intros t. rewrite Ea. pose proof (maria_holds_blank t). tauto. }
  destruct (String.eqb_spec (mg_raw b) "") as [Eb|Eb]; cbn [mg_raw].
  { split; [split; [done|by exists A]|]. intros t. rewrite Eb. pose proof (maria_holds_blank t). tauto. }
  destruct (unionStrings_parse (mg_raw a) (mg_raw b) A B) as (Hc & U & HU & Hr); [naive_solver..|].
  split; [split; [by intros ?|by exists U]|]. intros t.
  rewrite (maria_holds_parsed _ _ t HU), (maria_holds_parsed _ _ t HA), (maria_holds_parsed _ _ t HB). apply Hr.
Qed.

#[export] Program Instance mariadbGTIDSet_laws : gtidOpsLaws mariadbGTIDSet := {|
  go_txn := Z * Z;
  go_holds m := maria_holds (mg_raw m);
  go_wf := mariadbGTIDSet_wf;
  go_raw := maria_raw
|}.
Next Obligation. split; [done|by eexists]. Qed.
Next Obligation. intros t. apply maria_holds_blank. Qed.
Next Obligation.
  intros raw s Hraw H. cbn in H. unfold mariadbGTIDSet_Parse in H. inv_result. split; [done|]. cbn.
  destruct (String.eqb_spec raw "") as [->|]; cbn in *; [by eexists|].
  apply maria_canonical_ok in H0 as (p & Hp & _). by exists p.
Qed.
Next Obligation. intros s [= <-] t. apply maria_holds_blank. Qed.
Next Obligation. intros a b Ha Hb. by apply mariadbGTIDSet_contains_iff. Qed.
Next Obligation. intros a b Ha Hb. by apply mariadbGTIDSet_union_spec. Qed.
Next Obligation.
  intros a [Ha [A HA]]. cbn. unfold mariadbGTIDSet_IsEmpty. cbn.
  destruct (gm_isempty_ok (GTIDModelLaws := mariadbGTID_laws) (mg_raw a)) as (r & Hr & Hiff); [by exists A|].
  cbn in Hr. rewrite Hr. exact Hiff.
Qed.
Next Obligation. intros [raw]. done. Qed.
Next Obligation.
  intros a [Ha [A HA]]. cbn. unfold mariadbGTIDSet_String. cbn.
  destruct (String.eqb_spec (mg_raw a) "") as [E|E].
  { split; [done|]. eexists. split; [done|]. cbn. by rewrite E. }
  unfold mariadbGTID_Canonical. rewrite HA. cbn. pose proof (parseMariaPos_wf _ _ HA) as Hw.
  split; [by apply mariaPos_string_raw|]. unfold mariadbGTIDSet_Parse. cbn.
  unfold mariadbGTID_Canonical. rewrite parseMariaPos_string by done. exists (mkMariadbGTIDSet (mariaPos_string A)).
  split; [by destruct (String.eqb _ _)|]. intros t. cbn.
  rewrite (maria_holds_parsed _ _ t (parseMariaPos_string A Hw)). by rewrite (maria_holds_parsed _ _ t HA).
Qed.
Next Obligation. done. Qed.
