(* ===== verification/ObjectStore.v ===== *)
(** * The object store and the conditional index write

    The archive lives in an object store that several writers share: the
    primary's archiver, a draining former primary and retention.  This file
    models the store's operations as the archiver uses them
    ([pkg/management/mysql/objectstore/index_cas.go], and the [Store] interface of
    [pkg/management/mysql/binlog/archiver.go]) and [UpdateArchiveIndex], the
    compare-and-swap loop every index write goes through.

    An [IO] computation runs against an environment of answers and a world that
    holds the store.  Before each request the other writers may change the store
    in any way, and each request may fail, a write also after it landed.  The
    theorems show that on an endpoint that honours conditional writes an index
    write never loses another writer's update, and that the loop succeeds at the
    first attempt when nobody interferes. *)

From Stdlib Require Import ZArith Lia Bool Ascii String.
From stdpp Require Import base list strings gmap countable.
From S2P Require Import Prelude GoStrings Gtid GtidText GtidModel MariaGtid MariaTimeline Archive.

Local Open Scope Z_scope.

(** ** Stored records *)

Record BinlogMetadata := mkBinlogMetadata {
  bm_ClusterName : string;
  bm_ServerUUID : string;
  bm_InstanceName : string;
  bm_BinlogName : string;
  bm_Sequence : Z;
  bm_FirstGTID : string;
  bm_LastGTID : string;
  bm_GTIDSet : string;
  bm_FirstEventTime : Time;
  bm_LastEventTime : Time;
  bm_SizeBytes : Z;
  bm_SHA256 : string;
  bm_ArchivedAt : Time
}.

(** [objectstore.BinlogMetadata{}]. *)
Definition BinlogMetadata_zero : BinlogMetadata := mkBinlogMetadata "" "" "" "" 0 "" "" "" 0 0 0 "" 0.

Record ArchiveStatus := mkArchiveStatus {
  as_ClusterName : string;
  as_ServerUUID : string;
  as_InstanceName : string;
  as_LastArchivedBinlog : string;
  as_LastArchivedGTID : string;
  as_FirstGTID : string;
  as_CoveredGTIDSet : string;
  as_UpdatedAt : Time
}.

(** An object: the raw bytes of a binary log, or the JSON of one of the records. *)
Inductive object :=
| OBody (bytes : string)
| OManifest (m : BinlogMetadata)
| OStatus (s : ArchiveStatus)
| OIndex (i : ArchiveIndex).

Abbreviation Store := (gmap string object).

(** [json.Marshal] and [json.Unmarshal] of a record type. *)
Class JSON (A : Type) := {
  Marshal : A -> object;
  Unmarshal : object -> option A;
  unmarshal_marshal a : Unmarshal (Marshal a) = Some a
}.

#[export] Instance JSON_BinlogMetadata : JSON BinlogMetadata := {|
  Marshal := OManifest;
  Unmarshal o := match o with OManifest m => Some m | _ => None end;
  unmarshal_marshal _ := eq_refl
|}.
#[export] Instance JSON_ArchiveStatus : JSON ArchiveStatus := {|
  Marshal := OStatus;
  Unmarshal o := match o with OStatus s => Some s | _ => None end;
  unmarshal_marshal _ := eq_refl
|}.
#[export] Instance JSON_ArchiveIndex : JSON ArchiveIndex := {|
  Marshal := OIndex;
  Unmarshal o := match o with OIndex i => Some i | _ => None end;
  unmarshal_marshal _ := eq_refl
|}.

(** The store's version tokens: an entity tag is never empty, and it identifies
    an object's content. *)
Class Versioning := {
  ETag : object -> string;
  ETag_nonempty o : ETag o <> "";
  ETag_inj :: Inj (=) (=) ETag
}.

(** ** The world *)

(** How a request ends: answered, refused before it took effect, or refused
    after it did (the answer was lost). *)
Inductive outcome := Answered | Refused (e : error) | LostAnswer (e : error).

(** [os.FileInfo]: device and inode, size, modification time. *)
Record FileInfo := mkFileInfo { fi_File : Z; fi_Size : Z; fi_ModTime : Time }.

Record ScanResult := mkScanResult {
  sr_PreviousGTIDs : string;
  sr_GTIDSet : string;
  sr_FirstGTID : string;
  sr_LastGTID : string;
  sr_FirstEventTime : Time;
  sr_LastEventTime : Time
}.

(** The answers to a computation's calls, by call number: the other writers, the
    endpoint (and whether it implements conditional writes), the clock, the
    context, the local files and the scanner. *)
Record Env := mkEnv {
  e_others : nat -> Store -> Store;
  e_outcome : nat -> outcome;
  e_conditional : bool;
  e_now : nat -> Time;
  e_done : nat -> option error;
  e_stat : nat -> string -> result FileInfo;
  e_read : nat -> string -> result string;
  e_scan : nat -> string -> result ScanResult
}.

(** A write that took effect: what the key held then, and what it holds since. *)
Record write := Wrote { wr_key : string; wr_old : option object; wr_new : object }.

(** [w_unconditional] is the client's memo that the endpoint refuses conditional
    writes. *)
Record World := mkWorld {
  w_store : Store;
  w_calls : nat;
  w_log : list write;
  w_unconditional : bool
}.

Definition IO (A : Type) : Type := Env -> World -> World * A.

Definition ret {A} (a : A) : IO A := fun _ w => (w, a).
Definition bind {A B} (m : IO A) (k : A -> IO B) : IO B := fun env w => let '(w', a) := m env w in k a env w'.

Declare Scope io_scope.
Delimit Scope io_scope with io.
Notation "'do!' x := m 'in' k" := (bind m (fun x => k)) (at level 200, x pattern, right associativity) : io_scope.
(** Continue with the value of a fallible step; [f] makes the answer of an error. *)
Notation "'try!' x := m 'else' f 'in' k" :=
  (bind m (fun r => match r with Err e => ret (f e) | Ok x => k end))
  (at level 200, x pattern, right associativity) : io_scope.
Open Scope io_scope.

(** Take the next answer; the store is not asked. *)
Definition ask {A} (f : Env -> nat -> A) : IO A :=
  fun env w => (mkWorld (w_store w) (S (w_calls w)) (w_log w) (w_unconditional w), f env (w_calls w)).

Definition now : IO Time := ask e_now.

(** Send a request: the other writers come first. *)
Definition request : IO outcome :=
  fun env w =>
    (mkWorld (e_others env (w_calls w) (w_store w)) (S (w_calls w)) (w_log w) (w_unconditional w),
     e_outcome env (w_calls w)).

Definition lookup_key (key : string) : IO (option object) := fun _ w => (w, w_store w !! key).

(** The endpoint stores an object. *)
Definition land_put (key : string) (o : object) : IO unit :=
  fun _ w => (mkWorld (<[key := o]> (w_store w)) (w_calls w)
                (w_log w ++ [Wrote key (w_store w !! key) o]) (w_unconditional w), tt).

Definition unconditional : IO bool := fun _ w => (w, w_unconditional w).
Definition conditional_writes : IO bool := fun env w => (w, e_conditional env).
Definition set_unconditional : IO unit :=
  fun _ w => (mkWorld (w_store w) (w_calls w) (w_log w) true, tt).

(** ** Plain operations *)

Definition Exists (key : string) : IO (result bool) :=
  do! o := request in
  match o with
  | Answered => do! found := lookup_key key in ret (Ok (if found then true else false))
  | Refused e | LostAnswer e => ret (Err e)
  end.

Definition GetJSON {A} `{JSON A} (key : string) : IO (result A) :=
  do! o := request in
  match o with
  | Answered =>
      do! found := lookup_key key in
      ret (match found with
           | Some obj => match Unmarshal obj with Some a => Ok a | None => Err (Errorf "decoding object") end
           | None => Err (Errorf "object not found")
           end)
  | Refused e | LostAnswer e => ret (Err e)
  end.

(** [Upload] and [PutJSON]: an unconditional write. *)
Definition put_object (key : string) (o : object) : IO (result unit) :=
  do! out := request in
  match out with
  | Answered => do! _ := land_put key o in ret (Ok tt)
  | Refused e => ret (Err e)
  | LostAnswer e => do! _ := land_put key o in ret (Err e)
  end.

Definition Upload (key bytes : string) : IO (result unit) := put_object key (OBody bytes).
Definition PutJSON {A} `{JSON A} (key : string) (v : A) : IO (result unit) := put_object key (Marshal v).

(** ** Versioned operations ([index_cas.go]) *)

Section Versioned.
Context `{Versioning}.

(** The value comes back zero, with an empty token, when there is no object. *)
Definition GetJSONVersion {A} `{JSON A} (zero : A) (key : string) : IO (result (A * string * bool)) :=
  do! o := request in
  match o with
  | Answered =>
      do! found := lookup_key key in
      ret (match found with
           | None => Ok (zero, "", false)
           | Some obj =>
               match Unmarshal obj with
               | Some v => Ok (v, ETag obj, true)
               | None => Err (Errorf "decoding object")
               end
           end)
  | Refused e | LostAnswer e => ret (Err e)
  end.

(** What the endpoint answers to a PUT. *)
Inductive put_answer := Stored | PreconditionFailed | NotImplemented | PutError (e : error).

(** If-Match on the token, or If-None-Match when it is empty. *)
Definition precondition (etag : string) (found : option object) : bool :=
  match found with
  | None => String.eqb etag ""
  | Some obj => negb (String.eqb etag "") && String.eqb (ETag obj) etag
  end.

Definition put (conditional : bool) (etag key : string) (o : object) : IO put_answer :=
  do! out := request in
  do! found := lookup_key key in
  do! supported := conditional_writes in
  let refusal :=
    if conditional && negb supported then Some NotImplemented
    else if conditional && negb (precondition etag found) then Some PreconditionFailed
    else None in
  match out, refusal with
  | Refused e, _ => ret (PutError e)
  | LostAnswer e, Some _ => ret (PutError e)
  | LostAnswer e, None => do! _ := land_put key o in ret (PutError e)
  | Answered, Some r => ret r
  | Answered, None => do! _ := land_put key o in ret Stored
  end.

Definition PutJSONIf {A} `{JSON A} (key : string) (v : A) (etag : string) : IO (result unit) :=
  do! memo := unconditional in
  let conditional := negb memo in
  do! answer := put conditional etag key (Marshal v) in
  do! answer :=
    (if conditional && match answer with NotImplemented => true | _ => false end then
       do! _ := set_unconditional in put false etag key (Marshal v)
     else ret answer) in
  ret (match answer with
       | Stored => Ok tt
       | PreconditionFailed => Err ErrPreconditionFailed
       | NotImplemented => Err (Errorf "uploading object")
       | PutError e => wrapf "uploading object" (Err e)
       end).

(** ** The index update loop *)

Definition indexUpdateAttempts : nat := 8.

(** [mutate] is a closure over variables of its caller, threaded here as [R]; it
    returns the index to store and whether there is anything to write. *)
Fixpoint update_loop {R} (attempts : nat) (key : string)
    (mutate : R -> ArchiveIndex -> bool -> IO (R * result (ArchiveIndex * bool))) (r : R)
  : IO (R * result unit) :=
  match attempts with
  | O => ret (r, Err ErrIndexContention)
  | S attempts =>
      try! (idx, etag, exists_) := GetJSONVersion ArchiveIndex_zero key
        else (fun e => (r, wrapf "reading archive index" (Err e))) in
      do! (r, m) := mutate r idx exists_ in
      match m with
      | Err e => ret (r, Err e)
      | Ok (_, false) => ret (r, Ok tt)
      | Ok (idx, true) =>
          do! err := PutJSONIf key idx etag in
          match err with
          | Err ErrPreconditionFailed => update_loop attempts key mutate r
          | Err e => ret (r, wrapf "writing archive index" (Err e))
          | Ok _ => ret (r, Ok tt)
          end
      end
  end.

Definition UpdateArchiveIndex {R} (key : string)
    (mutate : R -> ArchiveIndex -> bool -> IO (R * result (ArchiveIndex * bool))) (r : R)
  : IO (R * result unit) := update_loop indexUpdateAttempts key mutate r.

End Versioned.

(** ** Running *)

(** A computation that neither writes nor learns about the endpoint. *)
Definition quiet {A} (m : IO A) : Prop :=
  forall env w, w_log (fst (m env w)) = w_log w /\ w_unconditional (fst (m env w)) = w_unconditional w /\
    w_store (fst (m env w)) = w_store w.

Lemma quiet_ret {A} (a : A) : quiet (ret a).
Proof. done. Qed.

Lemma quiet_ask {A} (f : Env -> nat -> A) : quiet (ask f).
Proof. done. Qed.

Lemma quiet_bind {A B} (m : IO A) (k : A -> IO B) : quiet m -> (forall a, quiet (k a)) -> quiet (bind m k).
Proof.
  intros Hm Hk env w. unfold bind. specialize (Hm env w). destruct (m env w) as [w1 a]. cbn in Hm.
  specialize (Hk a env w1). destruct Hm as (<- & <- & <-). exact Hk.
Qed.

Lemma bind_inv {A B} (m : IO A) (k : A -> IO B) env w w' b :
  bind m k env w = (w', b) -> exists w1 a, m env w = (w1, a) /\ k a env w1 = (w', b).
Proof. unfold bind. destruct (m env w) as [w1 a]. eauto. Qed.

(** Opens the steps of a run. *)
Ltac inv_io :=
  repeat match goal with
  | H : bind ?m _ _ _ = (_, _) |- _ => apply bind_inv in H as (? & ? & ? & H)
  | H : ret _ _ _ = (_, _) |- _ => first [injection H as ? ?; subst | injection H as ?; subst]
  | H : ask _ _ _ = (_, _) |- _ => injection H as ? ?; subst
  | H : request _ _ = (_, _) |- _ => injection H as ? ?; subst
  | H : lookup_key _ _ _ = (_, _) |- _ => injection H as ? ?; subst
  | H : land_put _ _ _ _ = (_, _) |- _ => injection H as ? ?; subst
  | H : set_unconditional _ _ = (_, _) |- _ => injection H as ? ?; subst
  | H : unconditional _ _ = (_, _) |- _ => injection H as ? ?; subst
  | H : conditional_writes _ _ = (_, _) |- _ => injection H as ? ?; subst
  end.

Section Atomic.
Context `{Versioning} {R : Type} (key : string).
Context (mutate : R -> ArchiveIndex -> bool -> IO (R * result (ArchiveIndex * bool))).
Context (mutate_quiet : forall r i b, quiet (mutate r i b)).
(** What the caller's variables satisfy throughout. *)
Context (I : R -> Prop) (mutate_keeps : forall r i b env w, I r -> I (fst (snd (mutate r i b env w)))).

(** [mutate] ran on what an absent or present index [old] decodes to. *)
Definition mutates (env : Env) (old : option ArchiveIndex) (r' : R) (new : ArchiveIndex) (write : bool) : Prop :=
  exists r w w', I r /\ mutate r (default ArchiveIndex_zero old) (bool_decide (is_Some old)) env w = (w', (r', Ok (new, write))).

(** A write that replaces the index by a mutation of the very index it replaces. *)
Definition atomic_write (env : Env) (wr : write) : Prop :=
  wr_key wr = key /\ exists old r new, wr_old wr = OIndex <$> old /\ mutates env old r new true /\ wr_new wr = OIndex new.

Lemma GetJSONVersion_run env w w' i etag ex :
  GetJSONVersion ArchiveIndex_zero key env w = (w', Ok (i, etag, ex)) ->
  w_log w' = w_log w /\ w_unconditional w' = w_unconditional w /\
  w_store w' = e_others env (w_calls w) (w_store w) /\
  exists old, w_store w' !! key = OIndex <$> old /\ i = default ArchiveIndex_zero old /\
    ex = bool_decide (is_Some old) /\ etag = match old with Some o => ETag (OIndex o) | None => "" end.
Proof.
  unfold GetJSONVersion. intros Hg. inv_io. destruct (e_outcome env (w_calls w)); inv_io; [|done..].
  cbn in *. split_and!; [done..|]. destruct (e_others env (w_calls w) (w_store w) !! key) as [o|].
  - destruct o; try done. simplify_eq/=. by exists (Some i).
  - simplify_eq/=. by exists None.
Qed.

Lemma PutJSONIf_run env w w' (v : ArchiveIndex) etag res :
  e_conditional env = true -> w_unconditional w = false ->
  PutJSONIf key v etag env w = (w', res) ->
  let st := e_others env (w_calls w) (w_store w) in
  w_unconditional w' = false /\
  ((res <> Ok tt /\ w_log w' = w_log w /\ w_store w' = st) \/
   (precondition etag (st !! key) = true /\ w_log w' = w_log w ++ [Wrote key (st !! key) (OIndex v)] /\
    w_store w' = <[key := OIndex v]> st)).
Proof.
  intros Hc Hu Hp. unfold PutJSONIf, put in Hp. inv_io. cbn in *. rewrite Hc, Hu in *. cbn in *.
  match goal with H : context [precondition etag ?f] |- _ => destruct (precondition etag f) eqn:Ep end;
    cbn in *; destruct (e_outcome env _); cbn in *; inv_io; cbn in *; inv_io; cbn;
    (split; [done|]);
    first [ right; done | left; split; [|done]; try done; by destruct e ].
Qed.

Lemma precondition_current etag old found :
  etag = match old with Some o => ETag (OIndex o) | None => "" end ->
  precondition etag found = true -> found = OIndex <$> old.
Proof.
  intros ->. destruct old as [o|], found as [f|]; cbn; intros Hp; boolp; try done.
  - match goal with E : ETag _ = ETag _ |- _ => by apply ETag_inj in E as -> end.
  - by destruct (ETag_nonempty (OIndex o)).
Qed.

Lemma update_loop_atomic n r env w w' r' res :
  e_conditional env = true -> w_unconditional w = false -> I r ->
  update_loop n key mutate r env w = (w', (r', res)) ->
  exists new, w_log w' = w_log w ++ new /\ Forall (atomic_write env) new /\
    (res = Ok tt -> exists old i write, mutates env old r' i write /\
       (write = false -> w_store w' !! key = OIndex <$> old) /\
       (write = true -> w_store w' !! key = Some (OIndex i) /\ exists front, new = front ++ [Wrote key (OIndex <$> old) (OIndex i)])).
Proof using mutate_quiet mutate_keeps.
  intros Hc. revert r w. induction n as [|n IH]; intros r w Hu HI; cbn [update_loop]; intros Hl.
  { inv_io. exists []. rewrite app_nil_r. repeat split; [constructor|done]. }
  apply bind_inv in Hl as (w1 & g & Hg & Hl). destruct g as [[[i etag] ex]|e].
  2: { inv_io. exists []. unfold GetJSONVersion in Hg. inv_io. rewrite app_nil_r.
       destruct (e_outcome env _); inv_io; (split; [done|]); split; try constructor; by destruct e. }
  apply GetJSONVersion_run in Hg as (Hlog & Hu1 & _ & old & Hold1 & -> & -> & Het).
  apply bind_inv in Hl as (w2 & (r2 & m) & Hm & Hl).
  pose proof (mutate_quiet r (default ArchiveIndex_zero old) (bool_decide (is_Some old)) env w1) as (Hq1 & Hq2 & Hq3).
  pose proof (mutate_keeps r (default ArchiveIndex_zero old) (bool_decide (is_Some old)) env w1 HI) as HI2.
  rewrite Hm in Hq1, Hq2, Hq3, HI2. cbn in Hq1, Hq2, Hq3, HI2. destruct m as [[i2 [|]]|e].
  2: { inv_io. exists []. rewrite app_nil_r, Hq1. split_and!; [done|constructor|]. intros _. exists old, i2, false.
       split; [by exists r, w1, w'|]. split; [by rewrite Hq3|done]. }
  2: { inv_io. exists []. by rewrite app_nil_r, Hq1. }
  assert (mutates env old r2 i2 true) as Hmut by (by exists r, w1, w2).
  apply bind_inv in Hl as (w3 & err & Hp & Hl).
  apply PutJSONIf_run in Hp as (Hu3 & Hp); [|done|congruence].
  assert (exists new, w_log w3 = w_log w ++ new /\ Forall (atomic_write env) new /\
    (err = Ok tt -> w_store w3 !! key = Some (OIndex i2) /\ exists front, new = front ++ [Wrote key (OIndex <$> old) (OIndex i2)]))
    as (new & Hn & Hf & Hok).
  { destruct Hp as [(Hne & Hp & _)|(Hpre & Hp & Hst)].
    - exists []. rewrite app_nil_r, Hp, Hq1, Hlog. split_and!; [done|constructor|done].
    - apply (precondition_current _ old) in Hpre as Hold; [|done]. rewrite Hold in Hp.
      exists [Wrote key (OIndex <$> old) (OIndex i2)]. rewrite Hp, Hq1, Hlog. split_and!; [done| |].
      + constructor; [|constructor]. split; [done|]. by exists old, r2, i2.
      + intros _. rewrite Hst, lookup_insert_eq. split; [done|]. by exists []. }
  assert (forall e, err = Err e -> e <> ErrPreconditionFailed -> ret (r2, wrapf "writing archive index" (@Err unit e)) env w3 = (w', (r', res)) ->
    exists new, w_log w' = w_log w ++ new /\ Forall (atomic_write env) new /\
    (res = Ok tt -> exists old i write, mutates env old r' i write /\
       (write = false -> w_store w' !! key = OIndex <$> old) /\
       (write = true -> w_store w' !! key = Some (OIndex i) /\ exists front, new = front ++ [Wrote key (OIndex <$> old) (OIndex i)]))) as Herr.
  { intros e -> _ [= <- <- <-]. exists new. split_and!; [done..|]. by destruct e. }
  destruct err as [[]|e].
  - inv_io. exists new. split_and!; [done..|]. intros _. exists old, i2, true. split; [done|]. split; [done|]. intros _. by apply Hok.
  - destruct (decide (e = ErrPreconditionFailed)) as [->|Hne]; [|apply (Herr e); [done|done|by destruct e]].
    apply IH in Hl as (new' & Hn' & Hf' & Hok'); [|done..]. exists (new ++ new').
    rewrite Hn', Hn, app_assoc. split_and!; [done|by apply Forall_app|].
    intros Hr. destruct (Hok' Hr) as (o & j & b & Hj & Hs & Hb). exists o, j, b. split; [done|]. split; [done|]. intros Hbt.
    destruct (Hb Hbt) as (? & front & ->). split; [done|]. exists (new ++ front). by rewrite app_assoc.
Qed.

(** Nobody else touches the key, and every request is answered. *)
Definition calm (env : Env) : Prop :=
  e_conditional env = true /\ forall n, e_outcome env n = Answered /\ forall st, e_others env n st !! key = st !! key.

Lemma put_calm env w (o : object) etag :
  calm env -> w_unconditional w = false -> precondition etag (w_store w !! key) = true ->
  exists w', put true etag key o env w = (w', Stored) /\ w_store w' !! key = Some o /\ w_unconditional w' = false.
Proof.
  intros [Hc He] Hu Hp. destruct (He (w_calls w)) as [Ho Hst]. unfold put, bind, request, lookup_key, conditional_writes.
  cbn. rewrite Ho, Hc, Hst, Hp. cbn. eexists. split; [done|]. cbn. by rewrite lookup_insert_eq.
Qed.

Lemma update_loop_calm n r env w r1 i write w1 old :
  calm env -> w_unconditional w = false -> w_store w !! key = OIndex <$> old ->
  mutate r (default ArchiveIndex_zero old) (bool_decide (is_Some old)) env
    (fst (GetJSONVersion ArchiveIndex_zero key env w)) = (w1, (r1, Ok (i, write))) ->
  exists w', update_loop (S n) key mutate r env w = (w', (r1, Ok tt)) /\
    w_store w' !! key = if write then Some (OIndex i) else OIndex <$> old.
Proof using mutate_quiet.
  intros Hcalm Hu Hst Hm. pose proof Hcalm as [_ He]. destruct (He (w_calls w)) as [Ho Hsame].
  assert (exists wg, GetJSONVersion ArchiveIndex_zero key env w = (wg, Ok (default ArchiveIndex_zero old,
    match old with Some o => ETag (OIndex o) | None => "" end, bool_decide (is_Some old))) /\
    w_unconditional wg = false /\ w_store wg !! key = OIndex <$> old) as (wg & Hg & Hgu & Hgs).
  { unfold GetJSONVersion, bind, request, lookup_key. cbn. rewrite Ho. cbn. rewrite Hsame, Hst. eexists.
    split; [by destruct old|]. cbn. by rewrite Hsame. }
  rewrite Hg in Hm. cbn [fst] in Hm. cbn [update_loop]. unfold bind at 1. rewrite Hg. unfold bind at 1. rewrite Hm.
  destruct (mutate_quiet r (default ArchiveIndex_zero old) (bool_decide (is_Some old)) env wg) as (_ & Hq2 & Hq3).
  rewrite Hm in Hq2, Hq3. cbn in Hq2, Hq3. destruct write.
  2: { exists w1. split; [done|]. by rewrite Hq3. }
  edestruct (put_calm env w1 (OIndex i)) as (w2 & Hp & Hp2 & Hp3); [done|by rewrite Hq2| |].
  { rewrite Hq3, Hgs. instantiate (1 := match old with Some o => ETag (OIndex o) | None => "" end).
    destruct old as [o|]; cbn; [|done]. pose proof (ETag_nonempty (OIndex o)).
    destruct (String.eqb_spec (ETag (OIndex o)) ""); [done|]. by rewrite String.eqb_refl. }
  exists w2. unfold bind at 1, PutJSONIf. unfold bind at 1, unconditional. cbn [fst snd]. rewrite Hq2, Hgu.
  cbn [negb]. unfold bind at 1. cbn [Marshal JSON_ArchiveIndex]. rewrite Hp. cbn. done.
Qed.
End Atomic.

(** ** Tags by content

    A versioning that satisfies the contract: the tag spells out a code of the
    object. *)

Module ContentTags.

(** A record by the list of its fields' codes. *)
Definition packed {A} `{EqDecision A} (f : A -> list positive) (g : list positive -> option A) (H : forall x, g (f x) = Some x)
  : Countable A := inj_countable f g H.

#[local] Instance fork_dec : EqDecision ArchiveFork.
Proof. solve_decision. Defined.
#[local] Instance fork_countable : Countable ArchiveFork.
Proof.
  refine (inj_countable'
    (fun f => (fk_GTIDSet f, fk_AfterSeq f, fk_AuthorityGTIDSet f, fk_DetectedAt f, fk_DetectedBy f))
    (fun '(a, b, c, d, e) => mkArchiveFork a b c d e) _). by intros [].
Defined.
#[local] Instance segment_dec : EqDecision ArchiveSegment.
Proof. solve_decision. Defined.
#[local] Instance segment_countable : Countable ArchiveSegment.
Proof.
    refine (packed (fun s => [encode (sg_ServerUUID s); encode (sg_InstanceName s); encode (sg_Binlogs s); encode (sg_GTIDSet
       s); encode (sg_StartGTIDSet s); encode (sg_Fork s); encode (sg_StartedAt s); encode (sg_EndedAt s)])
        (fun l => match l with [x0; x1; x2; x3; x4; x5; x6; x7] => y0 ← decode x0; y1 ← decode x1; y2 ← decode x2; y3 ←
         decode x3; y4 ← decode x4; y5 ← decode x5; y6 ← decode x6; y7 ← decode x7; Some (mkArchiveSegment y0 y1 y2 y3 y4 y5
         y6 y7) | _ => None end) _).
  intros []. cbn. by rewrite !decode_encode.
Defined.
#[local] Instance range_dec : EqDecision ArchiveDisownedRange.
Proof. solve_decision. Defined.
#[local] Instance range_countable : Countable ArchiveDisownedRange.
Proof.
  refine (inj_countable' (fun r => (dr_Domain r, dr_Server r, dr_After r, dr_Through r))
    (fun '(a, b, c, d) => mkArchiveDisownedRange a b c d) _). by intros [].
Defined.
#[local] Instance disowned_dec : EqDecision ArchiveDisowned.
Proof. solve_decision. Defined.
#[local] Instance disowned_countable : Countable ArchiveDisowned.
Proof.
  refine (inj_countable' (fun d => (ds_GTIDSet d, ds_Ranges d)) (fun '(a, b) => mkArchiveDisowned a b) _). by intros [].
Defined.
#[local] Instance epoch_countable : Countable ArchiveEpoch.
Proof.
  refine (inj_countable' (fun e => (ae_Instance e, ae_ServerID e, ae_Handoff e))
    (fun '(a, b, c) => mkArchiveEpoch a b c) _). by intros [].
Defined.
#[local] Instance check_dec : EqDecision ArchiveForkCheck.
Proof. solve_decision. Defined.
#[local] Instance check_countable : Countable ArchiveForkCheck.
Proof.
  refine (inj_countable' (fun c => (fc_CheckedAt c, fc_CheckedBy c)) (fun '(a, b) => mkArchiveForkCheck a b) _). by intros [].
Defined.
#[local] Instance index_dec : EqDecision ArchiveIndex.
Proof. solve_decision. Defined.
#[local] Instance index_countable : Countable ArchiveIndex.
Proof.
    refine (packed (fun i => [encode (ix_ClusterName i); encode (ix_ClusterUID i); encode (ix_Segments i); encode
       (ix_CoveredGTIDSet i); encode (ix_UpdatedAt i); encode (ix_ForkCheck i); encode (ix_Generation i); encode (ix_Disowned
       i); encode (ix_ArchivedThrough i); encode (ix_MariaDBTimeline i)])
        (fun l => match l with [x0; x1; x2; x3; x4; x5; x6; x7; x8; x9] => y0 ← decode x0; y1 ← decode x1; y2 ← decode x2; y3
         ← decode x3; y4 ← decode x4; y5 ← decode x5; y6 ← decode x6; y7 ← decode x7; y8 ← decode x8; y9 ← decode x9; Some
         (mkArchiveIndex y0 y1 y2 y3 y4 y5 y6 y7 y8 y9) | _ => None end) _).
  intros []. cbn. by rewrite !decode_encode.
Defined.
#[local] Instance metadata_dec : EqDecision BinlogMetadata.
Proof. solve_decision. Defined.
#[local] Instance metadata_countable : Countable BinlogMetadata.
Proof.
  refine (inj_countable'
    (fun m => (bm_ClusterName m, bm_ServerUUID m, bm_InstanceName m, bm_BinlogName m, bm_Sequence m, bm_FirstGTID m,
               bm_LastGTID m, bm_GTIDSet m, bm_FirstEventTime m, bm_LastEventTime m, bm_SizeBytes m, bm_SHA256 m,
               bm_ArchivedAt m))
    (fun '(a, b, c, d, e, f, g, h, i, j, k, l, m) => mkBinlogMetadata a b c d e f g h i j k l m) _). by intros [].
Defined.
#[local] Instance status_dec : EqDecision ArchiveStatus.
Proof. solve_decision. Defined.
#[local] Instance status_countable : Countable ArchiveStatus.
Proof.
  refine (inj_countable'
    (fun s => (as_ClusterName s, as_ServerUUID s, as_InstanceName s, as_LastArchivedBinlog s, as_LastArchivedGTID s,
               as_FirstGTID s, as_CoveredGTIDSet s, as_UpdatedAt s))
    (fun '(a, b, c, d, e, f, g, h) => mkArchiveStatus a b c d e f g h) _). by intros [].
Defined.
#[local] Instance object_dec : EqDecision object.
Proof. solve_decision. Defined.
#[local] Instance object_countable : Countable object.
Proof.
  refine (inj_countable'
    (fun o => match o with OBody b => inl (inl b) | OManifest m => inl (inr m)
                         | OStatus s => inr (inl s) | OIndex i => inr (inr i) end)
    (fun x => match x with inl (inl b) => OBody b | inl (inr m) => OManifest m
                         | inr (inl s) => OStatus s | inr (inr i) => OIndex i end) _). by intros [].
Defined.

Fixpoint bits (p : positive) : string :=
  match p with
  | xH => "."
  | xO p => String "0" (bits p)
  | xI p => String "1" (bits p)
  end.

Lemma bits_inj p q : bits p = bits q -> p = q.
Proof. revert q. induction p; intros []; cbn; intros [=]; f_equal; auto. Qed.

Program Definition tags : Versioning := {| ETag o := bits (encode o) |}.
Next Obligation. intros o. cbn. by destruct (encode o). Qed.
Next Obligation. intros a b Hb. cbn in Hb. by apply bits_inj, (inj encode) in Hb. Qed.

End ContentTags.

(** ** Properties *)

(** C7: On an endpoint that honours conditional writes, and with a client that has
    not fallen back to unconditional ones, an index update never loses another
    writer's change: however the other writers interleave and whichever requests
    fail, each index the loop stores is a mutation of the very index it replaces
    (run with variables that satisfy any invariant [I] of the mutation); and when
    the loop succeeds, its last mutation either is what the store holds or had
    nothing to write over what it holds.  The condition is needed:
    [unconditional_update_loses_a_write]. *)
Theorem index_update_is_atomic `{Versioning} {R} key
    (mutate : R -> ArchiveIndex -> bool -> IO (R * result (ArchiveIndex * bool))) (I : R -> Prop) r env w w' r' res :
  (forall r i b, quiet (mutate r i b)) -> (forall r i b env w, I r -> I (fst (snd (mutate r i b env w)))) ->
  e_conditional env = true -> w_unconditional w = false -> I r ->
  UpdateArchiveIndex key mutate r env w = (w', (r', res)) ->
  exists new, w_log w' = w_log w ++ new /\ Forall (atomic_write key mutate I env) new /\
    (res = Ok tt -> exists old i write, mutates mutate I env old r' i write /\
       (write = false -> w_store w' !! key = OIndex <$> old) /\
       (write = true -> w_store w' !! key = Some (OIndex i) /\
          exists front, new = front ++ [Wrote key (OIndex <$> old) (OIndex i)])).
Proof. intros Hq HI Hc Hu Hr Hrun. by eapply update_loop_atomic. Qed.

(** An index update that nobody races, with every request answered, takes
    effect at the first attempt: the store then holds the mutation of what it
    held, or what it held when the mutation had nothing to write. *)
Theorem index_update_succeeds_unraced `{Versioning} {R} key
    (mutate : R -> ArchiveIndex -> bool -> IO (R * result (ArchiveIndex * bool))) r env w old r1 i write w1 :
  (forall r i b, quiet (mutate r i b)) -> calm key env -> w_unconditional w = false ->
  w_store w !! key = OIndex <$> old ->
  mutate r (default ArchiveIndex_zero old) (bool_decide (is_Some old)) env
    (fst (GetJSONVersion ArchiveIndex_zero key env w)) = (w1, (r1, Ok (i, write))) ->
  exists w', UpdateArchiveIndex key mutate r env w = (w', (r1, Ok tt)) /\
    w_store w' !! key = if write then Some (OIndex i) else OIndex <$> old.
Proof. intros Hq Hc Hu Hst Hm. by eapply update_loop_calm. Qed.

(** A writer that stamps its generation, raced once by another that adds a name. *)
Module Race.

Definition with_generation (i : ArchiveIndex) (g : Z) : ArchiveIndex :=
  mkArchiveIndex (ix_ClusterName i) (ix_ClusterUID i) (ix_Segments i) (ix_CoveredGTIDSet i) (ix_UpdatedAt i)
    (ix_ForkCheck i) g (ix_Disowned i) (ix_ArchivedThrough i) (ix_MariaDBTimeline i).

Definition stamp (_ : unit) (i : ArchiveIndex) (_ : bool) : IO (unit * result (ArchiveIndex * bool)) :=
  ret (tt, Ok (with_generation i 7, true)).

Definition other : ArchiveIndex := mkArchiveIndex "c" "" [] "" 0 None 3 None 0 [].

(** The other writer gets in between the first read and the first write. *)
Definition raced : Env :=
  mkEnv (fun n st => if Nat.eqb n 1 then <["k" := OIndex other]> st else st) (fun _ => Answered) true
    (fun _ => 0) (fun _ => None) (fun _ _ => Err (Errorf "stat")) (fun _ _ => Err (Errorf "read"))
    (fun _ _ => Err (Errorf "scan")).
Definition raced_without_conditions : Env :=
  mkEnv (fun n st => if Nat.eqb n 1 then <["k" := OIndex other]> st else st) (fun _ => Answered) false
    (fun _ => 0) (fun _ => None) (fun _ _ => Err (Errorf "stat")) (fun _ _ => Err (Errorf "read"))
    (fun _ _ => Err (Errorf "scan")).
Definition alone : Env :=
  mkEnv (fun _ st => st) (fun _ => Answered) true
    (fun _ => 0) (fun _ => None) (fun _ _ => Err (Errorf "stat")) (fun _ _ => Err (Errorf "read"))
    (fun _ _ => Err (Errorf "scan")).
Definition start : World := mkWorld ∅ 0 [] false.
Definition result_of (env : Env) := UpdateArchiveIndex (H := ContentTags.tags) "k" stamp tt env start.

Lemma stamp_quiet r i b : quiet (stamp r i b).
Proof. done. Qed.

End Race.

(** The same race on an endpoint that answers 501 to a conditional write: the
    client writes again without the condition, over the other writer's index, and
    stays unconditional. *)
Lemma unconditional_update_loses_a_write :
  w_log (fst (Race.result_of Race.raced_without_conditions)) =
    [Wrote "k" (Some (OIndex Race.other)) (OIndex (Race.with_generation ArchiveIndex_zero 7))] /\
  w_unconditional (fst (Race.result_of Race.raced_without_conditions)) = true.
Proof. vm_compute. by split. Qed.

Lemma index_update_is_atomic_witness :
  w_log (fst (Race.result_of Race.raced)) = [Wrote "k" (Some (OIndex Race.other)) (OIndex (Race.with_generation Race.other 7))] /\
  exists new, w_log (fst (Race.result_of Race.raced)) = [] ++ new /\ Forall (atomic_write "k" Race.stamp (fun _ => True) Race.raced) new.
Proof.
  split; [vm_compute; reflexivity|].
  destruct (Race.result_of Race.raced) as [w' [r' res]] eqn:E.
  destruct (@index_update_is_atomic ContentTags.tags unit "k" Race.stamp (fun _ => True) tt Race.raced Race.start w' r' res)
    as (new & H1 & H2 & _); [apply Race.stamp_quiet|done|reflexivity|reflexivity|done|exact E|]. exists new. split; [exact H1|exact H2].
Defined.

Lemma index_update_succeeds_unraced_witness :
  exists w', Race.result_of Race.alone = (w', (tt, Ok tt)) /\
    w_store w' !! "k" = Some (OIndex (Race.with_generation ArchiveIndex_zero 7)).
Proof.
  exact (@index_update_succeeds_unraced ContentTags.tags unit "k" Race.stamp tt Race.alone Race.start None tt
    (Race.with_generation ArchiveIndex_zero 7) true _ Race.stamp_quiet
    (conj eq_refl (fun _ => conj eq_refl (fun _ => eq_refl))) eq_refl eq_refl eq_refl).
Defined.
