(* ===== verification/BinlogFiles.v ===== *)
(** * Binary-log files

    [pkg/management/mysql/binlog/binlog.go]: the server's list of binary logs,
    which of them is being written, which may be shipped, and the arguments of a
    replay.  The log being written is never among the ones to ship
    ([MarkActive_spec]). *)

From Stdlib Require Import ZArith Lia Bool Ascii String.
From stdpp Require Import base list strings gmap sorting.
From S2P Require Import Prelude GoStrings.

Local Open Scope Z_scope.

(** ** Names *)

Fixpoint trim_slashes (s : string) : string :=
  match s with
  | EmptyString => EmptyString
  | String c s' =>
      match trim_slashes s' with
      | EmptyString => if Ascii.eqb c "/" then EmptyString else String c EmptyString
      | t => String c t
      end
  end.

Definition last_piece (l : list string) : string := List.last l "".

(** [path.Base]. *)
Definition path_Base (p : string) : string :=
  if String.eqb p "" then "."
  else
    let trimmed := trim_slashes p in
    if String.eqb trimmed "" then "/" else last_piece (Split trimmed "/").

(** The sequence number after the last dot. *)
Definition ParseSequence (name : string) : result Z :=
  let pieces := Split (path_Base name) "." in
  let suffix := last_piece pieces in
  if Nat.leb (length pieces) 1 || String.eqb suffix "" then Err (Errorf "binlog: no sequence suffix")
  else match ParseInt suffix with
       | Some seq => Ok seq
       | None => Err (Errorf "binlog: non-numeric sequence")
       end.

(** ** Lists of logs *)

Record BinaryLog := mkBinaryLog { bl_Name : string; bl_SizeBytes : Z; bl_Active : bool }.

Definition activate (l : BinaryLog) : BinaryLog := mkBinaryLog (bl_Name l) (bl_SizeBytes l) true.

(** The loop of [MarkActive]: the index and the sequence of the highest log so far. *)
Fixpoint highest_log (logs : list BinaryLog) (i : nat) (activeIdx : option nat) (activeSeq : Z) : option nat :=
  match logs with
  | [] => activeIdx
  | l :: logs' =>
      match ParseSequence (bl_Name l) with
      | Err _ => highest_log logs' (S i) activeIdx activeSeq
      | Ok seq =>
          if activeSeq <? seq then highest_log logs' (S i) (Some i) seq
          else highest_log logs' (S i) activeIdx activeSeq
      end
  end.

Definition MarkActive (logs : list BinaryLog) : list BinaryLog :=
  match highest_log logs 0 None (-1) with
  | Some i => alter activate i logs
  | None => logs
  end.

Definition Archivable (logs : list BinaryLog) : list BinaryLog :=
  List.filter (fun l => negb (bl_Active l)) logs.

(** The log being written, or a zero value ([loop.go]). *)
Definition activeLog (logs : list BinaryLog) : BinaryLog :=
  match List.find bl_Active logs with Some l => l | None => mkBinaryLog "" 0 false end.

(** The log just before the named one. *)
Fixpoint file_before (logs : list BinaryLog) (prev name : string) : string :=
  match logs with
  | [] => ""
  | l :: logs' => if String.eqb (bl_Name l) name then prev else file_before logs' (bl_Name l) name
  end.
Definition fileBefore (logs : list BinaryLog) (name : string) : string := file_before logs "" name.

(** Rotated logs past the frontier. *)
Fixpoint pending_loop (logs : list BinaryLog) (frontier : string) (seenFrontier : bool) (pending : Z) : Z :=
  match logs with
  | [] => pending
  | l :: logs' =>
      if negb seenFrontier then
        pending_loop logs' frontier (if String.eqb (bl_Name l) frontier then true else seenFrontier) pending
      else pending_loop logs' frontier seenFrontier
             (if negb (String.eqb (bl_Name l) frontier) then pending + 1 else pending)
  end.
Definition pendingAfter (logs : list BinaryLog) (frontier : string) : Z :=
  pending_loop (Archivable logs) frontier (String.eqb frontier "") 0.

(** ** Arguments *)

Record ReplayOptions := mkReplayOptions {
  ro_Files : list string;
  ro_StopDatetime : string;
  ro_StopPosition : Z;
  ro_StartPosition : Z;
  ro_IncludeGTIDs : string;
  ro_ExcludeGTIDs : string;
  ro_MariaDB : bool;
  ro_ExtraArgs : list string
}.

Definition ReadArgs (file : string) (extraArgs : list string) : result (list string) :=
  if String.eqb file "" then Err (Errorf "binlog: file is required")
  else Ok (["--base64-output=DECODE-ROWS"; file] ++ extraArgs).

Definition flag (name value : string) : list string :=
  if String.eqb value "" then [] else [name +:+ value].

Definition ReplayArgs (o : ReplayOptions) : result (list string) :=
  if Nat.eqb (length (ro_Files o)) 0 then Err (Errorf "binlog: at least one file is required")
  else if (0 <? ro_StopPosition o) && negb (Nat.eqb (length (ro_Files o)) 1) then
    Err (Errorf "binlog: stop position requires exactly one file")
  else
    Ok (["--disable-log-bin"] ++ flag "--stop-datetime=" (ro_StopDatetime o) ++
        (if 0 <? ro_StopPosition o then ["--stop-position=" +:+ FormatInt (ro_StopPosition o)] else []) ++
        (if 0 <? ro_StartPosition o then ["--start-position=" +:+ FormatInt (ro_StartPosition o)] else []) ++
        (if negb (ro_MariaDB o)
         then flag "--include-gtids=" (ro_IncludeGTIDs o) ++ flag "--exclude-gtids=" (ro_ExcludeGTIDs o) else []) ++
        ro_ExtraArgs o ++ ro_Files o).

Definition FlushLogsStatement : string := "FLUSH BINARY LOGS".

Definition PurgeLogsStatement (upTo : string) : result string :=
  if String.eqb upTo "" then Err (Errorf "binlog: purge target file is required")
  else if negb (no_char "'" upTo) || negb (no_char "\" upTo) then Err (Errorf "binlog: invalid purge target")
  else Ok ("PURGE BINARY LOGS TO '" +:+ upTo +:+ "'").

(** ** Lemmas *)

Lemma Archivable_elem logs l : l ∈ Archivable logs <-> l ∈ logs /\ bl_Active l = false.
Proof. unfold Archivable. by rewrite !list_elem_of_In, filter_In, negb_true_iff. Qed.

(** [s] bounds the sequence numbers of the logs. *)
Definition bounded_by (s : Z) (logs : list BinaryLog) : Prop :=
  forall l seq, l ∈ logs -> ParseSequence (bl_Name l) = Ok seq -> seq <= s.

Lemma bounded_cons s l logs :
  (forall seq, ParseSequence (bl_Name l) = Ok seq -> seq <= s) -> bounded_by s logs -> bounded_by s (l :: logs).
Proof. intros Hl Hs l' seq [->|H]%elem_of_cons Hseq; [by apply Hl|by eapply Hs]. Qed.

(** The marked log has the highest sequence number. *)
Lemma highest_log_spec logs i a s :
  match highest_log logs i a s with
  | None => a = None /\ bounded_by s logs
  | Some j =>
      (a = Some j /\ bounded_by s logs) \/
      (exists k l seq, (j = i + k)%nat /\ logs !! k = Some l /\ ParseSequence (bl_Name l) = Ok seq /\ s < seq /\
         bounded_by seq logs)
  end.
Proof.
  revert i a s. induction logs as [|l logs IH]; intros i a s; cbn [highest_log].
  { destruct a; [left|]; (split; [done|]); intros ? ? []%not_elem_of_nil. }
  assert (forall s', (forall seq, ParseSequence (bl_Name l) = Ok seq -> seq <= s') -> s <= s' ->
    (forall a', a' = a \/ ParseSequence (bl_Name l) = Ok s' /\ s < s' /\ a' = Some i ->
    match highest_log logs (S i) a' s' with
    | None => a = None /\ bounded_by s' (l :: logs)
    | Some j => (a' = Some j /\ bounded_by s' (l :: logs)) \/
      (exists k l' seq, (j = i + k)%nat /\ (l :: logs) !! k = Some l' /\ ParseSequence (bl_Name l') = Ok seq /\ s' < seq /\
         bounded_by seq (l :: logs))
    end)) as Hstep.
  { intros s' Hl Hs a' Ha. specialize (IH (S i) a' s'). destruct (highest_log logs (S i) a' s') as [j|].
    - destruct IH as [[-> Hle]|(k & l' & seq & -> & Hk & Hseq & Hlt & Hle)]; [left; split; [done|by apply bounded_cons]|].
      right. exists (S k), l', seq. split_and!; [lia|done..|]. apply bounded_cons; [|done]. intros q Hq. specialize (Hl q Hq). lia.
    - destruct IH as [-> Hle]. destruct Ha as [<-|(_ & _ & [=])]. split; [done|by apply bounded_cons]. }
  destruct (ParseSequence (bl_Name l)) as [seq|e] eqn:El; [destruct (Z.ltb_spec s seq) as [Hlt|Hge]|].
  - specialize (Hstep seq ltac:(intros q [= <-]; lia) ltac:(lia) (Some i) ltac:(by right)).
    destruct (highest_log logs (S i) (Some i) seq) as [j|] eqn:E.
    + right. destruct Hstep as [[[= <-] Hle]|(k & l' & q & -> & Hk & Hq & Hlt' & Hle)].
      * exists 0%nat, l, seq. split_and!; [lia|done..].
      * exists k, l', q. split_and!; [done..|lia|done].
    + specialize (IH (S i) (Some i) seq). rewrite E in IH. by destruct IH.
  - apply Hstep; [intros q [= <-]; lia|lia|by left].
  - apply Hstep; [done|lia|by left].
Qed.

Lemma Archivable_rotated logs : Forall (fun l => bl_Active l = false) logs -> Archivable logs = logs.
Proof. unfold Archivable. induction 1 as [|l logs Hl _ IH]; cbn; [done|]. by rewrite Hl, IH. Qed.

(** Of a fresh listing, the log with the highest sequence number is the one that
    is being written, and all the others may be shipped, in order. *)
Lemma MarkActive_spec logs l0 seq0 :
  Forall (fun l => bl_Active l = false) logs -> l0 ∈ logs -> ParseSequence (bl_Name l0) = Ok seq0 -> 0 <= seq0 ->
  exists k l seq, logs !! k = Some l /\ ParseSequence (bl_Name l) = Ok seq /\ bounded_by seq logs /\
    MarkActive logs = alter activate k logs /\ Archivable (MarkActive logs) = take k logs ++ drop (S k) logs.
Proof.
  intros Hrot H0 Hs0 Hpos. unfold MarkActive. pose proof (highest_log_spec logs 0 None (-1)) as Hh.
  destruct (highest_log logs 0 None (-1)) as [j|].
  2: { destruct Hh as [_ Hb]. specialize (Hb _ _ H0 Hs0). lia. }
  destruct Hh as [[[=] _]|(k & l & seq & -> & Hk & Hseq & Hlt & Hb)]. exists k, l, seq. cbn. split_and!; [done..|].
  clear - Hrot Hk. revert k Hk. induction Hrot as [|l' logs Hl Hlogs IH]; intros [|k] Hk; cbn in *; try done.
  - unfold Archivable. cbn. by apply Archivable_rotated.
  - unfold Archivable in *. cbn. rewrite Hl. cbn. f_equal. by apply IH.
Qed.
