(* ===== verification/Archiver.v ===== *)
(** * The archiver

    [pkg/management/mysql/binlog/archiver.go]: shipping rotated binary logs to the
    object store, folding each shipped file into the archive index and checking
    the index's segments for forks in the same write.

    The archiver's memos ([verified], [deferredScans], [indexed]) are a record
    threaded through the operations.  Everything outside the process is an answer
    of the environment of [ObjectStore]: the store and its other writers, the
    clock, the local files, the scanner, and the authority of the fork check. *)

From Stdlib Require Import ZArith Lia Bool Ascii String.
From stdpp Require Import base list strings gmap.
From S2P Require Import Prelude GoStrings Gtid GtidText GtidModel MariaGtid MariaTimeline.
From S2P Require Import Archive Forks GtidOps ObjectStore BinlogFiles.

Local Open Scope Z_scope.

(** ** State *)

Record archivedStamp := mkArchivedStamp { at_info : FileInfo; at_meta : BinlogMetadata }.
Record scannedStamp := mkScannedStamp { sc_info : FileInfo; sc_scan : ScanResult }.

(** [os.SameFile], and the same size and modification time. *)
Definition matches (info fi : FileInfo) : bool :=
  (fi_File info =? fi_File fi) && (fi_Size info =? fi_Size fi) && (fi_ModTime info =? fi_ModTime fi).

(** The fork check's authority, or no judge when there is none right now. *)
Definition ForkSource : Type := nat -> result (option ForkJudge).
Definition AuthoritySource : Type := nat -> Z * bool.

(** The fixed part of the archiver: the functions it is given answer by call
    number. *)
Record Archiver := mkArchiver {
  ar_objectStore : S3ObjectStore;
  ar_clusterName : string;
  ar_clusterUID : option (nat -> string);
  ar_instanceName : string;
  ar_serverUUID : string;
  ar_forks : option ForkSource;
  ar_authority : option AuthoritySource
}.

(** The memos. *)
Record Memo := mkMemo {
  mm_verified : gmap string archivedStamp;
  mm_deferredScans : gmap string scannedStamp;
  mm_indexed : gset string;
  mm_indexSeeded : bool
}.

Record ForkReport := mkForkReport {
  fr_Checked : bool;
  fr_CheckedAt : Time;
  fr_Generation : Z;
  fr_Superseded : bool;
  fr_Retracted : list string;
  fr_Disowned : string;
  fr_Gaps : list string;
  fr_Covered : string;
  fr_ArchivedThrough : Time;
  fr_Timeline : list ArchiveEpoch;
  fr_Read : bool;
  fr_Forks : list SegmentFork;
  fr_OldestSegmentPosition : string;
  fr_Err : option error
}.

(** [ForkReport{}]. *)
Definition ForkReport_zero : ForkReport := mkForkReport false 0 0 false [] "" [] "" 0 [] false [] "" None.

Record forkPass := mkForkPass {
  fp_source : option ForkSource;
  fp_primary : bool;
  fp_generation : Z;
  fp_report : option ForkReport;
  fp_preloaded : option ForkJudge
}.

Record ArchivedFile := mkArchivedFile { af_Name : string; af_GTIDSet : string }.

Record ArchiveResult := mkArchiveResult {
  ars_Archived : list string;
  ars_LastArchivedBinlog : string;
  ars_LastArchivedGTID : string;
  ars_CoveredGTIDSet : string;
  ars_LastArchivedTime : Time;
  ars_Files : list ArchivedFile;
  ars_ForkCheck : option ForkReport;
  ars_Deferred : string
}.

(** [ArchiveResult{}]. *)
Definition ArchiveResult_zero : ArchiveResult := mkArchiveResult [] "" "" "" 0 [] None "".

(** [FileFilter]; it reads the Cluster, so it answers by call number. *)
Definition FileFilter : Type := nat -> string -> ScanResult -> result bool.

(** Field updates of the index. *)
Definition set_Generation (i : ArchiveIndex) (g : Z) : ArchiveIndex :=
  mkArchiveIndex (ix_ClusterName i) (ix_ClusterUID i) (ix_Segments i) (ix_CoveredGTIDSet i) (ix_UpdatedAt i)
    (ix_ForkCheck i) g (ix_Disowned i) (ix_ArchivedThrough i) (ix_MariaDBTimeline i).
Definition set_ForkCheck (i : ArchiveIndex) (c : ArchiveForkCheck) : ArchiveIndex :=
  mkArchiveIndex (ix_ClusterName i) (ix_ClusterUID i) (ix_Segments i) (ix_CoveredGTIDSet i) (ix_UpdatedAt i)
    (Some c) (ix_Generation i) (ix_Disowned i) (ix_ArchivedThrough i) (ix_MariaDBTimeline i).
Definition set_UpdatedAt (i : ArchiveIndex) (t : Time) : ArchiveIndex :=
  mkArchiveIndex (ix_ClusterName i) (ix_ClusterUID i) (ix_Segments i) (ix_CoveredGTIDSet i) t
    (ix_ForkCheck i) (ix_Generation i) (ix_Disowned i) (ix_ArchivedThrough i) (ix_MariaDBTimeline i).
Definition set_ArchivedThrough (i : ArchiveIndex) (t : Time) : ArchiveIndex :=
  mkArchiveIndex (ix_ClusterName i) (ix_ClusterUID i) (ix_Segments i) (ix_CoveredGTIDSet i) (ix_UpdatedAt i)
    (ix_ForkCheck i) (ix_Generation i) (ix_Disowned i) t (ix_MariaDBTimeline i).

(** ** The fork check *)

Definition forkIdentity (a : Archiver) : string := forkCheckIdentity (ar_instanceName a) (ar_serverUUID a).

(** [forkPass.load]. *)
Definition load (p : forkPass) : IO (forkPass * result (option ForkJudge)) :=
  match fp_preloaded p with
  | Some judge => ret (mkForkPass (fp_source p) (fp_primary p) (fp_generation p) (fp_report p) None, Ok (Some judge))
  | None =>
      match fp_source p with
      | None => ret (p, Ok None)
      | Some source => do! r := ask (fun _ n => source n) in ret (p, r)
      end
  end.

(** The report's view of the index. *)
Definition finish (r : ForkReport) (index : ArchiveIndex) : ForkReport :=
  mkForkReport (fr_Checked r) (fr_CheckedAt r) (fr_Generation r) (fr_Superseded r) (fr_Retracted r)
    (match ix_Disowned index with Some d => ds_GTIDSet d | None => fr_Disowned r end)
    (ArchiveGaps (Some index))
    (if negb (mariadbArchive index) then ix_CoveredGTIDSet index else fr_Covered r)
    (fr_ArchivedThrough r) (ix_MariaDBTimeline index) true (SegmentForks (Some index))
    (OldestSegmentPosition (ix_Segments index)) (fr_Err r).

Definition report_error (r : ForkReport) (e : error) : ForkReport :=
  mkForkReport (fr_Checked r) (fr_CheckedAt r) (fr_Generation r) (fr_Superseded r) (fr_Retracted r) (fr_Disowned r)
    (fr_Gaps r) (fr_Covered r) (fr_ArchivedThrough r) (fr_Timeline r) (fr_Read r) (fr_Forks r)
    (fr_OldestSegmentPosition r) (Some e).

(** One segment: its record after judging (a foreign segment) and retracting,
    whether it changed, and whether it shrank. *)
Definition check_segment (a : Archiver) (judge : ForkJudge) (at_ : Time) (seg : ArchiveSegment)
  : result (option ArchiveFork * bool * bool) :=
  let? ' (fork, grew) :=
    if negb (String.eqb (sg_ServerUUID seg) (ar_serverUUID a)) then
      let? delta := ForkJudge_Judge judge seg in
      mergeFork (sg_Fork seg) delta (ForkJudge_Authority judge) at_ (forkIdentity a)
    else Ok (sg_Fork seg, false) in
  match judge_retractor judge, fork with
  | Some unheldOf, Some _ =>
      let? ' (kept, retracted) := retractFork fork unheldOf (ForkJudge_Authority judge) in
      Ok (if retracted : bool then (kept, true, true) else (fork, grew, false))
  | _, _ => Ok (fork, grew, false)
  end.

(** The loop: the records so far, whether any changed, the segments whose record
    shrank, and the error that stopped it. *)
Fixpoint check_segments (a : Archiver) (judge : ForkJudge) (at_ : Time) (segs : list ArchiveSegment)
    (merged : list (option ArchiveFork)) (changed : bool) (retracted : list string)
  : list (option ArchiveFork) * bool * list string * option error :=
  match segs with
  | [] => (merged, changed, retracted, None)
  | seg :: segs' =>
      match check_segment a judge at_ seg with
      | Err e => (merged, changed, retracted, Some e)
      | Ok (fork, moved, shrank) =>
          check_segments a judge at_ segs' (merged ++ [fork]) (changed || moved)
            (if shrank then retracted ++ [sg_ServerUUID seg] else retracted)
      end
  end.

Definition with_retracted (r : ForkReport) (l : list string) : ForkReport :=
  mkForkReport (fr_Checked r) (fr_CheckedAt r) (fr_Generation r) (fr_Superseded r) l (fr_Disowned r)
    (fr_Gaps r) (fr_Covered r) (fr_ArchivedThrough r) (fr_Timeline r) (fr_Read r) (fr_Forks r)
    (fr_OldestSegmentPosition r) (fr_Err r).

(** Judging the whole index with a judge at hand. *)
Definition judge_index (a : Archiver) (judge : ForkJudge) (at_ generation : Z) (index : ArchiveIndex)
  : bool * ForkReport * ArchiveIndex :=
  let '(merged, changed, retracted, err) := check_segments a judge at_ (ix_Segments index) [] false [] in
  let report := with_retracted ForkReport_zero retracted in
  match err with
  | Some e => (false, finish (report_error report e) index, index)
  | None =>
      match foldDisowned (ix_Disowned index) (ix_Segments index) merged (judge_retractor judge) with
      | Err e => (false, finish (report_error report e) index, index)
      | Ok (disowned, disownedChanged) =>
          let '(timeline, changed) :=
            match ForkJudge_ArchiveTimeline judge with
            | Some epochs =>
                let timeline := mergeArchiveTimeline (ix_MariaDBTimeline index) epochs (ix_Segments index) in
                if negb (bool_decide (timeline = ix_MariaDBTimeline index)) then (timeline, true)
                else (ix_MariaDBTimeline index, changed)
            | None => (ix_MariaDBTimeline index, changed)
            end in
          let index := mkArchiveIndex (ix_ClusterName index) (ix_ClusterUID index)
                         (zip_with set_Fork (ix_Segments index) merged) (ix_CoveredGTIDSet index) (ix_UpdatedAt index)
                         (ix_ForkCheck index) (ix_Generation index) disowned (ix_ArchivedThrough index) timeline in
          let report := mkForkReport true at_ generation false retracted "" [] "" 0 [] false [] "" None in
          (changed || disownedChanged, finish report index, index)
      end
  end.

(** The pass, whether a record changed, the report and the index. *)
Definition checkForks (a : Archiver) (index : ArchiveIndex) (pass : forkPass)
  : IO (forkPass * (bool * ForkReport * ArchiveIndex)) :=
  match fp_source pass with
  | None => ret (pass, (false, finish ForkReport_zero index, index))
  | Some _ =>
      if fp_generation pass <? ix_Generation index then
        ret (pass, (false, finish (mkForkReport false 0 0 true [] "" [] "" 0 [] false [] "" None) index, index))
      else
        do! (pass, r) := load pass in
        match wrapf "binlog: reading fork check authority" r with
        | Err e => ret (pass, (false, finish (report_error ForkReport_zero e) index, index))
        | Ok None => ret (pass, (false, finish ForkReport_zero index, index))
        | Ok (Some judge) =>
            do! at_ := now in
            ret (pass, judge_index a judge at_ (fp_generation pass) index)
        end
  end.

(** ** Folding a file into the index *)

Section Ops.
Context {T : Type} `{gtidOps T}.

Definition file_segment (a : Archiver) (seg : ArchiveSegment) (first fileName gtidSet : string) (ended : Time)
  : ArchiveSegment :=
  mkArchiveSegment (sg_ServerUUID seg) (sg_InstanceName seg)
    (if negb (String.eqb fileName "") && negb (bool_decide (fileName ∈ sg_Binlogs seg))
     then sg_Binlogs seg ++ [fileName] else sg_Binlogs seg)
    gtidSet (if String.eqb (sg_StartGTIDSet seg) "" then first else sg_StartGTIDSet seg)
    (sg_Fork seg) (sg_StartedAt seg) ended.

(** The union of the segments' sets. *)
Definition covered_step (cumulative : T) (seg : ArchiveSegment) : result T :=
  let? parsed := wrapf "binlog: parsing segment gtid set" (go_Parse (sg_GTIDSet seg)) in
  Ok (go_Union cumulative parsed).

Definition foldFile (a : Archiver) (index : ArchiveIndex) (status : ArchiveStatus) (fileName fileGTIDSet : string)
  : IO (result ArchiveIndex) :=
  do! uid := match ar_clusterUID a with Some f => ask (fun _ n => f n) | None => ret "" end in
  let clusterUID := if negb (String.eqb uid "") then uid else ix_ClusterUID index in
  do! (segments, at_) :=
    match ArchiveIndex_Segment index (ar_serverUUID a) with
    | Some i => ret (ix_Segments index, i)
    | None =>
        do! started := now in
        ret (ix_Segments index ++ [mkArchiveSegment (ar_serverUUID a) (ar_instanceName a) [] "" "" None started 0],
             length (ix_Segments index))
    end in
  match segments !! at_ with
  | None => ret (Err (Errorf "index out of range"))
  | Some seg =>
      do! ended := now in
      let folded :=
        let? segSet := wrapf "binlog: parsing segment gtid set" (go_Parse (sg_GTIDSet seg)) in
        let? fileSet := wrapf "binlog: parsing file gtid set" (go_Parse fileGTIDSet) in
        let seg := file_segment a seg (as_FirstGTID status) fileName (go_String (go_Union segSet fileSet)) ended in
        let segments := <[at_ := seg]> segments in
        let? cumulative := fold_result covered_step go_new segments in
        Ok (segments, go_String cumulative) in
      match folded with
      | Err e => ret (Err e)
      | Ok (segments, covered) =>
          do! updated := now in
          ret (Ok (mkArchiveIndex (ar_clusterName a) clusterUID segments covered updated
                     (ix_ForkCheck index) (ix_Generation index) (ix_Disowned index) (ix_ArchivedThrough index)
                     (ix_MariaDBTimeline index)))
      end
  end.

Definition with_report (pass : forkPass) (r : ForkReport) : forkPass :=
  mkForkPass (fp_source pass) (fp_primary pass) (fp_generation pass) (Some r) (fp_preloaded pass).

(** The mutation of [updateIndex]; the pass is the variable it closes over. *)
Definition fold_mutation (a : Archiver) (status : ArchiveStatus) (fileName fileGTIDSet : string)
    (pass : forkPass) (index : ArchiveIndex) (_ : bool) : IO (forkPass * result (ArchiveIndex * bool)) :=
  do! folded := foldFile a index status fileName fileGTIDSet in
  match folded with
  | Err e => ret (pass, Err e)
  | Ok index =>
      let index := if fp_primary pass && (ix_Generation index <? fp_generation pass)
                   then set_Generation index (fp_generation pass) else index in
      do! (pass, (_, report, index)) := checkForks a index pass in
      let index := if fr_Checked report
                   then set_ForkCheck index (mkArchiveForkCheck (fr_CheckedAt report) (forkIdentity a)) else index in
      ret (with_report pass report, Ok (index, true))
  end.

(** ** Shipping files *)

Context `{Versioning} (SumHex : string -> string).

Definition indexKey (a : Archiver) : string := ArchiveIndexKey (ar_objectStore a) (ar_clusterName a).
Definition statusKey (a : Archiver) : string :=
  ArchiveStatusKey (ar_objectStore a) (ar_clusterName a) (ar_serverUUID a).

Definition updateIndex (a : Archiver) (status : ArchiveStatus) (fileName fileGTIDSet : string) (pass : forkPass)
  : IO (forkPass * result unit) :=
  do! (pass, err) := UpdateArchiveIndex (indexKey a) (fold_mutation a status fileName fileGTIDSet) pass in
  ret (pass, wrapf "binlog: updating archive index" err).

(** Seeds the memo of indexed files from the index. *)
Definition seedIndexed (a : Archiver) (memo : Memo) : IO (Memo * result unit) :=
  if mm_indexSeeded memo then ret (memo, Ok tt)
  else
    try! (index, _, exists_) := GetJSONVersion ArchiveIndex_zero (indexKey a)
      else (fun e => (memo, wrapf "binlog: reading archive index" (Err e))) in
    let names := match ArchiveIndex_Segment index (ar_serverUUID a) with
                 | Some i => if exists_ : bool
                             then match ix_Segments index !! i with Some seg => sg_Binlogs seg | None => [] end
                             else []
                 | None => []
                 end in
    ret (mkMemo (mm_verified memo) (mm_deferredScans memo) (list_to_set names) true, Ok tt).

Definition hashFile (path : string) : IO (result (string * Z)) :=
  try! bytes := ask (fun env n => e_read env n path) else (fun e => Err e) in
  ret (Ok (SumHex bytes, Z.of_nat (String.length bytes))).

Definition with_verified (memo : Memo) (name : string) (s : archivedStamp) : Memo :=
  mkMemo (<[name := s]> (mm_verified memo)) (mm_deferredScans memo) (mm_indexed memo) (mm_indexSeeded memo).
Definition with_deferredScans (memo : Memo) (m : gmap string scannedStamp) : Memo :=
  mkMemo (mm_verified memo) m (mm_indexed memo) (mm_indexSeeded memo).

(** Upload an unarchived file that passed the filter: bytes, then manifest. *)
Definition ship (a : Archiver) (keys : BinlogKeys) (name : string) (st : FileInfo) (scan : ScanResult) (memo : Memo)
  : IO (Memo * result (BinlogMetadata * bool)) :=
  let fail e := (memo, Err e) in
  try! (sum, size) := hashFile name else fail in
  let seq := match ParseSequence name with Ok s => s | Err _ => 0 end in
  do! at_ := now in
  let meta := mkBinlogMetadata (ar_clusterName a) (ar_serverUUID a) (ar_instanceName a) name seq
                (sr_FirstGTID scan) (sr_LastGTID scan) (sr_GTIDSet scan) (sr_FirstEventTime scan)
                (sr_LastEventTime scan) size sum at_ in
  try! bytes := ask (fun env n => e_read env n name) else fail in
  try! _ := Upload (bk_BinlogKey keys) bytes else (fun e => (memo, wrapf "binlog: uploading" (Err e))) in
  try! _ := PutJSON (bk_ManifestKey keys) meta else (fun e => (memo, wrapf "binlog: writing manifest" (Err e))) in
  ret (with_verified memo name (mkArchivedStamp st meta), Ok (meta, true)).

(** The manifest of a file already in the archive must match its bytes. *)
Definition verify (keys : BinlogKeys) (name : string) (st : FileInfo) (memo : Memo)
  : IO (Memo * result (BinlogMetadata * bool)) :=
  let fail e := (memo, Err e) in
  try! prior := GetJSON (A := BinlogMetadata) (bk_ManifestKey keys)
    else (fun e => (memo, wrapf "binlog: reading existing manifest" (Err e))) in
  try! (sum, _) := hashFile name else fail in
  if negb (String.eqb (bm_SHA256 prior) "") && negb (String.eqb (bm_SHA256 prior) sum) then
    ret (memo, Err ErrCollision)
  else ret (with_verified memo name (mkArchivedStamp st prior), Ok (prior, false)).

(** A file this process has not verified yet. *)
Definition archive_unverified (a : Archiver) (keys : BinlogKeys) (name : string) (allow : option FileFilter)
    (st : FileInfo) (memo : Memo) : IO (Memo * result (BinlogMetadata * bool)) :=
  try! existsManifest := Exists (bk_ManifestKey keys) else (fun e => (memo, Err e)) in
  if existsManifest : bool then verify keys name st memo
  else
    try! scanRes :=
      (match mm_deferredScans memo !! name with
       | Some cached =>
           if matches (sc_info cached) st then ret (Ok (sc_scan cached)) else ask (fun env n => e_scan env n name)
       | None => ask (fun env n => e_scan env n name)
       end)
      else (fun e => (memo, wrapf "binlog: scanning" (Err e))) in
    try! ok := (match allow with
                | Some f => ask (fun _ n => f n name scanRes)
                | None => ret (Ok true)
                end)
      else (fun e => (memo, wrapf "binlog: evaluating" (Err e))) in
    if ok : bool then
      ship a keys name st scanRes (with_deferredScans memo (delete name (mm_deferredScans memo)))
    else
      ret (with_deferredScans memo (<[name := mkScannedStamp st scanRes]> (mm_deferredScans memo)), Err errDeferred).

Definition archiveFileAllowed (a : Archiver) (l : BinaryLog) (allow : option FileFilter) (memo : Memo)
  : IO (Memo * result (BinlogMetadata * bool)) :=
  let name := bl_Name l in
  match BuildBinlogKeys (ar_objectStore a) (ar_clusterName a) (ar_serverUUID a) name with
  | Err e => ret (memo, Err e)
  | Ok keys =>
      try! st := ask (fun env n => e_stat env n name) else (fun e => (memo, wrapf "binlog: stat" (Err e))) in
      match mm_verified memo !! name with
      | Some stamp =>
          if matches (at_info stamp) st then ret (memo, Ok (at_meta stamp, false))
          else archive_unverified a keys name allow st memo
      | None => archive_unverified a keys name allow st memo
      end
  end.

(** Metadata, freshly archived, deferred. *)
Definition archiveFile (a : Archiver) (l : BinaryLog) (allow : option FileFilter) (memo : Memo)
  : IO (Memo * result (BinlogMetadata * bool * bool)) :=
  do! (memo, r) := archiveFileAllowed a l allow memo in
  ret (memo, match r with
             | Err errDeferred => Ok (BinlogMetadata_zero, false, true)
             | Err e => Err e
             | Ok (meta, archived) => Ok (meta, archived, false)
             end).

Definition loadStatus (a : Archiver) : IO (result ArchiveStatus) :=
  try! found := Exists (statusKey a) else (fun e => Err e) in
  let fresh := mkArchiveStatus (ar_clusterName a) (ar_serverUUID a) (ar_instanceName a) "" "" "" "" 0 in
  if found : bool then
    try! s := GetJSON (A := ArchiveStatus) (statusKey a)
      else (fun e => wrapf "binlog: reading archive status" (Err e)) in
    (* [InstanceName] is omitted when empty, and the decoder then keeps the preset one. *)
    ret (Ok (mkArchiveStatus (as_ClusterName s) (as_ServerUUID s)
               (if String.eqb (as_InstanceName s) "" then ar_instanceName a else as_InstanceName s)
               (as_LastArchivedBinlog s) (as_LastArchivedGTID s) (as_FirstGTID s) (as_CoveredGTIDSet s)
               (as_UpdatedAt s)))
  else ret (Ok fresh).

Definition HasSegment (a : Archiver) : IO (result bool) :=
  try! status := loadStatus a else (fun e => Err e) in
  ret (Ok (negb (String.eqb (as_LastArchivedBinlog status) ""))).

(** ** A pass *)

(** What the loop carries from file to file. *)
Record PassState := mkPassState {
  pa_memo : Memo;
  pa_pass : forkPass;
  pa_status : ArchiveStatus;
  pa_covered : T;
  pa_result : ArchiveResult
}.

Definition with_memo (s : PassState) (m : Memo) : PassState :=
  mkPassState m (pa_pass s) (pa_status s) (pa_covered s) (pa_result s).

(** The result once the file is known to be archived. *)
Definition note_file (r : ArchiveResult) (name : string) (meta : BinlogMetadata) (archived : bool) : ArchiveResult :=
  mkArchiveResult (if archived then ars_Archived r ++ [name] else ars_Archived r) (ars_LastArchivedBinlog r)
    (ars_LastArchivedGTID r) (ars_CoveredGTIDSet r) (ars_LastArchivedTime r)
    (ars_Files r ++ [mkArchivedFile name (bm_GTIDSet meta)]) (ars_ForkCheck r) (ars_Deferred r).

(** ... and once its coverage is folded into the frontier. *)
Definition note_frontier (r : ArchiveResult) (name : string) (meta : BinlogMetadata) (covered : string) : ArchiveResult :=
  mkArchiveResult (ars_Archived r) name
    (if negb (String.eqb (bm_LastGTID meta) "") then bm_LastGTID meta else ars_LastArchivedGTID r)
    covered (bm_ArchivedAt meta) (ars_Files r) (ars_ForkCheck r) (ars_Deferred r).

Definition note_deferred (r : ArchiveResult) (name : string) : ArchiveResult :=
  mkArchiveResult (ars_Archived r) (ars_LastArchivedBinlog r) (ars_LastArchivedGTID r) (ars_CoveredGTIDSet r)
    (ars_LastArchivedTime r) (ars_Files r) (ars_ForkCheck r) name.

Definition note_status (s : ArchiveStatus) (r : ArchiveResult) (meta : BinlogMetadata) : ArchiveStatus :=
  mkArchiveStatus (as_ClusterName s) (as_ServerUUID s) (as_InstanceName s) (ars_LastArchivedBinlog r)
    (ars_LastArchivedGTID r)
    (if String.eqb (as_FirstGTID s) "" && negb (String.eqb (bm_FirstGTID meta) "") then bm_FirstGTID meta
     else as_FirstGTID s)
    (ars_CoveredGTIDSet r) (as_UpdatedAt s).

Definition stamp_status (s : ArchiveStatus) (t : Time) : ArchiveStatus :=
  mkArchiveStatus (as_ClusterName s) (as_ServerUUID s) (as_InstanceName s) (as_LastArchivedBinlog s)
    (as_LastArchivedGTID s) (as_FirstGTID s) (as_CoveredGTIDSet s) t.

(** How one file ends: on to the next one, or out of the pass. *)
Inductive step_end := Next | Stop (err : option error).

(** Commit a file whose coverage advanced: the status, then the index. *)
Definition commit_file (a : Archiver) (name : string) (meta : BinlogMetadata) (s : PassState)
  : IO (PassState * step_end) :=
  do! at_ := now in
  let status := stamp_status (pa_status s) at_ in
  let s := mkPassState (pa_memo s) (pa_pass s) status (pa_covered s) (pa_result s) in
  try! _ := PutJSON (statusKey a) status
    else (fun e => (s, Stop (match wrapf "binlog: writing archive status" (@Err unit e) with Err e => Some e | Ok _ => None end))) in
  do! (pass, err) := updateIndex a status name (bm_GTIDSet meta) (pa_pass s) in
  let m := pa_memo s in
  match err with
  | Err e =>
      ret (mkPassState (mkMemo (mm_verified m) (mm_deferredScans m) (mm_indexed m) false) pass status (pa_covered s)
             (pa_result s), Stop (Some e))
  | Ok _ =>
      ret (mkPassState (mkMemo (mm_verified m) (mm_deferredScans m) ({[name]} ∪ mm_indexed m) (mm_indexSeeded m)) pass
             status (pa_covered s) (pa_result s), Next)
  end.

(** A file in the archive: fold its coverage into the frontier, and commit when
    that moved something. *)
Definition fold_coverage (a : Archiver) (name : string) (meta : BinlogMetadata) (archived : bool) (s : PassState)
  : IO (PassState * step_end) :=
  match wrapf "binlog: parsing file gtid set" (go_Parse (bm_GTIDSet meta)) with
  | Err e => ret (s, Stop (Some e))
  | Ok fileSet =>
      let priorCovered := go_String (pa_covered s) in
      let covered := go_Union (pa_covered s) fileSet in
      let advanced := archived || negb (String.eqb (go_String covered) priorCovered)
                      || (String.eqb (as_FirstGTID (pa_status s)) "" && negb (String.eqb (bm_FirstGTID meta) ""))
                      || negb (bool_decide (name ∈ mm_indexed (pa_memo s))) in
      let result := note_frontier (pa_result s) name meta (go_String covered) in
      let s := mkPassState (pa_memo s) (pa_pass s) (note_status (pa_status s) result meta) covered result in
      if advanced then commit_file a name meta s else ret (s, Next)
  end.

Definition archive_step (a : Archiver) (allow : option FileFilter) (l : BinaryLog) (s : PassState)
  : IO (PassState * step_end) :=
  do! cancelled := ask e_done in
  match cancelled with
  | Some e => ret (s, Stop (Some e))
  | None =>
      do! (memo, r) := archiveFile a l allow (pa_memo s) in
      let s := with_memo s memo in
      match r with
      | Err e => ret (s, Stop (Some e))
      | Ok (meta, archived, deferred) =>
          if deferred : bool then
            ret (mkPassState memo (pa_pass s) (pa_status s) (pa_covered s) (note_deferred (pa_result s) (bl_Name l)), Stop None)
          else
            let s := mkPassState memo (pa_pass s) (pa_status s) (pa_covered s)
                       (note_file (pa_result s) (bl_Name l) meta archived) in
            do! (memo, seeded) :=
              (if negb archived && negb (bool_decide (bl_Name l ∈ mm_indexed memo)) then seedIndexed a memo
               else ret (memo, Ok tt)) in
            let s := with_memo s memo in
            match seeded with
            | Err e => ret (s, Stop (Some e))
            | Ok _ => fold_coverage a (bl_Name l) meta archived s
            end
      end
  end.

Fixpoint archive_loop (a : Archiver) (allow : option FileFilter) (logs : list BinaryLog) (s : PassState)
  : IO (PassState * option error) :=
  match logs with
  | [] => ret (s, None)
  | l :: logs' =>
      do! (s, e) := archive_step a allow l s in
      match e with
      | Stop err => ret (s, err)
      | Next => archive_loop a allow logs' s
      end
  end.

Definition with_check (r : ArchiveResult) (c : option ForkReport) : ArchiveResult :=
  mkArchiveResult (ars_Archived r) (ars_LastArchivedBinlog r) (ars_LastArchivedGTID r) (ars_CoveredGTIDSet r)
    (ars_LastArchivedTime r) (ars_Files r) c (ars_Deferred r).

(** [archivePending]: the memos, the result and the error. *)
Definition archivePending (a : Archiver) (logs : list BinaryLog) (allow : option FileFilter) (pass : forkPass) (memo : Memo)
  : IO (Memo * (ArchiveResult * option error)) :=
  do! loaded := loadStatus a in
  match loaded with
  | Err e => ret (memo, (ArchiveResult_zero, Some e))
  | Ok status =>
      match wrapf "binlog: parsing covered gtid set" (go_Parse (as_CoveredGTIDSet status)) with
      | Err e => ret (memo, (ArchiveResult_zero, Some e))
      | Ok covered =>
          let result := mkArchiveResult [] (as_LastArchivedBinlog status) (as_LastArchivedGTID status)
                          (as_CoveredGTIDSet status) 0 [] None "" in
          do! (s, err) := archive_loop a allow (Archivable logs) (mkPassState memo pass status covered result) in
          ret (pa_memo s, (with_check (pa_result s) (fp_report (pa_pass s)), err))
      end
  end.

Definition Authority (a : Archiver) : IO (Z * bool) :=
  match ar_authority a with None => ret (0, true) | Some f => ask (fun _ n => f n) end.

Definition ArchivePending (a : Archiver) (logs : list BinaryLog) (memo : Memo)
  : IO (Memo * (ArchiveResult * option error)) :=
  do! (generation, ok) := Authority a in
  if ok : bool then archivePending a logs None (mkForkPass (ar_forks a) true generation None None) memo
  else ret (memo, (ArchiveResult_zero, Some ErrNotCurrentPrimary)).

Definition DrainPending (a : Archiver) (logs : list BinaryLog) (allow : FileFilter) (memo : Memo)
  : IO (Memo * (ArchiveResult * option error)) :=
  archivePending a logs (Some allow) (mkForkPass None false 0 None None) memo.

(** ** The check outside a pass *)

(** The mutation of [CheckArchive]; it closes over the pass and the report. *)
Definition check_mutation (a : Archiver) (generation : Z) (through : Time) (st : forkPass * ForkReport)
    (index : ArchiveIndex) (exists_ : bool) : IO ((forkPass * ForkReport) * result (ArchiveIndex * bool)) :=
  let '(pass, _) := st in
  if negb exists_ then ret ((pass, ForkReport_zero), Ok (index, false))
  else
    do! (pass, (changed, report, index)) := checkForks a index pass in
    match fr_Err report with
    | Some e => ret ((pass, report), Err e)
    | None =>
        if fr_Superseded report then ret ((pass, report), Ok (index, false))
        else
          let stamp := negb (IsZero through) && (ix_ArchivedThrough index <? through) in
          let checkDue := fr_Checked report &&
            (changed || match ix_ForkCheck index with None => true | Some _ => false end
             || (ix_Generation index <? generation)) in
          if negb checkDue && negb stamp then ret ((pass, report), Ok (index, false))
          else
            let index := if stamp then set_ArchivedThrough index through else index in
            let report := if stamp then
                            mkForkReport (fr_Checked report) (fr_CheckedAt report) (fr_Generation report)
                              (fr_Superseded report) (fr_Retracted report) (fr_Disowned report) (fr_Gaps report)
                              (fr_Covered report) through (fr_Timeline report) (fr_Read report) (fr_Forks report)
                              (fr_OldestSegmentPosition report) (fr_Err report)
                          else report in
            if negb (fr_Checked report) then
              do! at_ := now in
              ret ((pass, report), Ok (set_UpdatedAt (set_Generation index (Z.max (ix_Generation index) generation)) at_, true))
            else
              let index := set_ForkCheck (set_Generation index generation)
                             (mkArchiveForkCheck (fr_CheckedAt report) (forkIdentity a)) in
              do! at_ := now in
              ret ((pass, report), Ok (set_UpdatedAt index at_, true))
    end.

Definition CheckArchive (a : Archiver) (through : Time) : IO (ForkReport * option error) :=
  match ar_forks a with
  | None => ret (ForkReport_zero, None)
  | Some _ =>
      do! (generation, ok) := Authority a in
      if negb ok then ret (ForkReport_zero, Some ErrNotCurrentPrimary)
      else
        do! (pass, r) := load (mkForkPass (ar_forks a) true generation None None) in
        match wrapf "binlog: reading fork check authority" r with
        | Err e => ret (report_error ForkReport_zero e, Some e)
        | Ok judge =>
            if match judge with None => true | Some _ => false end && IsZero through then ret (ForkReport_zero, None)
            else
              let pass := mkForkPass (fp_source pass) (fp_primary pass) (fp_generation pass) (fp_report pass) judge in
              do! (st, err) := UpdateArchiveIndex (indexKey a) (check_mutation a generation through)
                                 (pass, ForkReport_zero) in
              match err with
              | Err e =>
                  ret (match fr_Err (snd st) with None => report_error (snd st) e | Some _ => snd st end, Some e)
              | Ok _ => ret (snd st, None)
              end
        end
  end.

Definition CheckForks (a : Archiver) : IO (ForkReport * option error) := CheckArchive a 0.

End Ops.
