(* ===== verification/ArchiverIndex.v ===== *)
(** * The history of the archive index

    Proofs about the index writes of [Archiver]: what folding a file and checking
    for forks do to an index, and what holds of every index that any number of
    archivers can produce.  A write replaces the index by a mutation of it
    ([index_update_is_atomic] in [ObjectStore]), so a history is a sequence of
    mutations; the invariants are proved by induction over it. *)

From Stdlib Require Import ZArith Lia Bool Ascii String.
From stdpp Require Import base list strings gmap.
From S2P Require Import Prelude GoStrings Gtid GtidText GtidModel MariaGtid MariaTimeline.
From S2P Require Import Archive Forks GtidOps ObjectStore BinlogFiles Archiver.

Local Open Scope Z_scope.

(** ** Quiet computations *)

Lemma load_quiet p : quiet (load p).
Proof.
  unfold load. destruct (fp_preloaded p); [apply quiet_ret|]. destruct (fp_source p); [|apply quiet_ret].
  apply quiet_bind; [apply quiet_ask|intros; apply quiet_ret].
Qed.

Lemma checkForks_quiet a i p : quiet (checkForks a i p).
Proof.
  unfold checkForks. destruct (fp_source p); [|apply quiet_ret]. destruct (_ <? _); [apply quiet_ret|].
  apply quiet_bind; [apply load_quiet|]. intros [p' r]. destruct (wrapf _ r) as [[j|]|]; try apply quiet_ret.
  apply quiet_bind; [apply quiet_ask|intros; apply quiet_ret].
Qed.

Lemma foldFile_quiet {T} `{gtidOps T} a i s f g : quiet (foldFile a i s f g).
Proof.
  unfold foldFile. apply quiet_bind; [destruct (ar_clusterUID a); (apply quiet_ask || apply quiet_ret)|]. intros uid.
  apply quiet_bind.
  { destruct (ArchiveIndex_Segment i (ar_serverUUID a)); [apply quiet_ret|].
    apply quiet_bind; [apply quiet_ask|intros; apply quiet_ret]. }
  intros [segs k]. destruct (segs !! k); [|apply quiet_ret]. apply quiet_bind; [apply quiet_ask|]. intros e.
  match goal with |- quiet (match ?x with Ok _ => _ | Err _ => _ end) => destruct x as [[? ?]|] end; [|apply quiet_ret].
  apply quiet_bind; [apply quiet_ask|intros; apply quiet_ret].
Qed.

Lemma fold_mutation_quiet {T} `{gtidOps T} a s f g p i b : quiet (fold_mutation a s f g p i b).
Proof.
  unfold fold_mutation. apply quiet_bind; [apply foldFile_quiet|]. intros [i'|]; [|apply quiet_ret].
  apply quiet_bind; [apply checkForks_quiet|]. intros (p' & ((c & r) & i'')). apply quiet_ret.
Qed.

Lemma check_mutation_quiet a g t st i b : quiet (check_mutation a g t st i b).
Proof.
  unfold check_mutation. destruct st as [p r0], b; [|apply quiet_ret].
  apply quiet_bind; [apply checkForks_quiet|]. intros (p' & ((c & r) & i')).
  destruct (fr_Err r); [apply quiet_ret|]. destruct (fr_Superseded r); [apply quiet_ret|].
  match goal with |- quiet (if ?b then _ else _) => destruct b end; [apply quiet_ret|].
  match goal with |- quiet (if ?b then _ else _) => destruct b end;
    (apply quiet_bind; [apply quiet_ask|intros; apply quiet_ret]).
Qed.

(** ** Coverage *)

(** A server's segment in the list, or the fresh one appended for it. *)
Record located (u : string) (segs before after : list ArchiveSegment) (old : ArchiveSegment) : Prop := {
  lc_uuid : sg_ServerUUID old = u;
  lc_first : u ∉ (sg_ServerUUID <$> before);
  lc_segs : segs = before ++ old :: after \/
            (segs = before /\ after = [] /\ sg_Binlogs old = [] /\ sg_GTIDSet old = "" /\ sg_Fork old = None)
}.

Lemma find_segment_located segs u i :
  match find_segment segs u i with
  | Some j => exists before after old, j = (i + length before)%nat /\ segs = before ++ old :: after /\ located u segs before after old
  | None => u ∉ (sg_ServerUUID <$> segs)
  end.
Proof.
  revert i. induction segs as [|s segs IH]; intros i; cbn; [set_solver|].
  destruct (String.eqb_spec (sg_ServerUUID s) u) as [<-|Hne].
  { exists [], segs, s. split_and!; [cbn; lia|done|]. split; [done|set_solver|by left]. }
  specialize (IH (S i)). destruct (find_segment segs u (S i)) as [j|]; [|set_solver].
  destruct IH as (before & after & old & -> & -> & [Hu Hf _]). exists (s :: before), after, old.
  split_and!; [cbn; lia|done|]. split; [done|set_solver|by left].
Qed.

(** What a successful fold computes. *)
Lemma foldFile_shape {T} `{gtidOps T} a index status f g env w w' index' :
  foldFile a index status f g env w = (w', Ok index') ->
  exists before after old segSet fileSet cum ended,
    located (ar_serverUUID a) (ix_Segments index) before after old /\
    go_Parse (sg_GTIDSet old) = Ok segSet /\ go_Parse g = Ok fileSet /\
    ix_Segments index' =
      before ++ file_segment a old (as_FirstGTID status) f (go_String (go_Union segSet fileSet)) ended :: after /\
    fold_result covered_step go_new (ix_Segments index') = Ok cum /\ ix_CoveredGTIDSet index' = go_String cum /\
    (ix_ForkCheck index', ix_Generation index', ix_Disowned index', ix_ArchivedThrough index', ix_MariaDBTimeline index') =
    (ix_ForkCheck index, ix_Generation index, ix_Disowned index, ix_ArchivedThrough index, ix_MariaDBTimeline index).
Proof.
  intros Hrun. unfold foldFile in Hrun. apply bind_inv in Hrun as (w1 & uid & _ & Hrun).
  apply bind_inv in Hrun as (w2 & (segs & k) & Hsegs & Hrun).
  assert (exists before after old, segs = before ++ old :: after /\ length before = k /\
    located (ar_serverUUID a) (ix_Segments index) before after old) as (before & after & old & -> & <- & Hloc).
  { unfold ArchiveIndex_Segment in Hsegs. pose proof (find_segment_located (ix_Segments index) (ar_serverUUID a) 0) as Hf.
    destruct (find_segment _ _ 0) as [i|].
    - inv_io. destruct Hf as (before & after & old & -> & E & Hloc). by exists before, after, old.
    - inv_io. eexists (ix_Segments index), [], _. split_and!; [done..|]. split; [done..|by right]. }
  rewrite list_lookup_middle in Hrun by done. apply bind_inv in Hrun as (w3 & ended & _ & Hrun).
  match type of Hrun with match ?x with Ok _ => _ | Err _ => _ end _ _ = _ => destruct x as [[segs' covered]|] eqn:Ef end; [|by inv_io].
  apply bind_inv in Hrun as (w4 & updated & _ & Hrun). injection Hrun as _ <-. inv_result.
  exists before, after, old, x, x0, x1, ended. cbn. rewrite insert_app_r_alt, Nat.sub_diag in * by done. done.
Qed.

Lemma file_segment_files a seg first f g e x :
  x ∈ sg_Binlogs (file_segment a seg first f g e) <-> x ∈ sg_Binlogs seg \/ (x = f /\ f <> "").
Proof.
  cbn. destruct (String.eqb_spec f "") as [->|Hf]; cbn; [naive_solver|]. case_bool_decide; cbn; [naive_solver|].
  rewrite elem_of_app, list_elem_of_singleton. naive_solver.
Qed.

Section Coverage.
Context {T : Type} `{L : gtidOpsLaws T}.

(** A transaction of the set a text names. *)
Definition names (raw : string) (t : go_txn) : Prop := exists s, go_Parse raw = Ok s /\ go_holds s t.

Lemma names_parsed raw s t : go_Parse raw = Ok s -> names raw t <-> go_holds s t.
Proof. intros Hp. split; [|by exists s]. intros (s' & Hs & Ht). congruence. Qed.

Lemma names_string (s : T) t : go_wf s -> names (go_String s) t <-> go_holds s t.
Proof. intros Hw. destruct (go_string_parse s Hw) as (_ & b & Hb & Hiff). by rewrite (names_parsed _ _ _ Hb), Hiff. Qed.

(** The segments' positions are readable texts. *)
Definition segs_raw (segs : list ArchiveSegment) : Prop := Forall (fun s => go_raw (sg_GTIDSet s)) segs.

Lemma covered_fold segs acc c :
  go_wf acc -> segs_raw segs -> fold_result covered_step acc segs = Ok c ->
  go_wf c /\ forall t, go_holds c t <-> go_holds acc t \/ exists s, s ∈ segs /\ names (sg_GTIDSet s) t.
Proof.
  intros Hacc Hraw. revert acc Hacc. induction Hraw as [|s segs Hs _ IH]; intros acc Hacc; cbn; intros Hc.
  - inv_result. split; [done|]. intros t. split; [auto|]. intros [?|(s & []%not_elem_of_nil & _)]; done.
  - inv_result. unfold covered_step in H0. inv_result. destruct (go_union_spec acc x0) as [Hw Hu]; [done|by eapply go_parse_wf|].
    apply IH in Hc as [Hcw Hc]; [|done]. split; [done|]. intros t. rewrite Hc, Hu.
    rewrite <- (names_parsed _ _ t H1). split.
    + intros [[?|?]|(s' & ? & ?)]; [auto|right; exists s|right; exists s']; (split; [set_solver|done]).
    + intros [?|(s' & [->|?]%elem_of_cons & ?)]; eauto.
Qed.

(** What folding a file does to an index: its own segment, found or new, gains
    the file and its transactions; the covered set is the union. *)
Record folded (a : Archiver) (index : ArchiveIndex) (fileName fileGTIDSet : string) (index' : ArchiveIndex)
    (before after : list ArchiveSegment) (old seg : ArchiveSegment) : Prop := {
  fd_old : located (ar_serverUUID a) (ix_Segments index) before after old;
  fd_new : ix_Segments index' = before ++ seg :: after;
  fd_uuid : sg_ServerUUID seg = ar_serverUUID a;
  fd_files f : f ∈ sg_Binlogs seg <-> f ∈ sg_Binlogs old \/ (f = fileName /\ fileName <> "");
  fd_set t : names (sg_GTIDSet seg) t <-> names (sg_GTIDSet old) t \/ names fileGTIDSet t;
  fd_raw : segs_raw (ix_Segments index');
  fd_covered t : names (ix_CoveredGTIDSet index') t <-> exists s, s ∈ ix_Segments index' /\ names (sg_GTIDSet s) t;
  fd_rest : (ix_ForkCheck index', ix_Generation index', ix_Disowned index', ix_ArchivedThrough index', ix_MariaDBTimeline index') =
            (ix_ForkCheck index, ix_Generation index, ix_Disowned index, ix_ArchivedThrough index, ix_MariaDBTimeline index)
}.

Lemma located_raw u segs before after old :
  segs_raw segs -> located u segs before after old -> segs_raw before /\ go_raw (sg_GTIDSet old) /\ segs_raw after.
Proof.
  intros Hraw [_ _ [->|(-> & -> & _ & -> & _)]].
  - by apply Forall_app in Hraw as [? [? ?]%Forall_cons].
  - split_and!; [done|apply go_raw_empty|constructor].
Qed.

Lemma foldFile_folded a index status f g env w w' index' :
  segs_raw (ix_Segments index) -> go_raw g -> foldFile a index status f g env w = (w', Ok index') ->
  exists before after old seg, folded a index f g index' before after old seg.
Proof.
  intros Hraw Hg Hrun. destruct (foldFile_shape _ _ _ _ _ _ _ _ _ Hrun)
    as (before & after & old & segSet & fileSet & cum & ended & Hloc & Hs & Hfs & Hsegs & Hc & Hcov & Hrest).
  destruct (located_raw _ _ _ _ _ Hraw Hloc) as (Hb & Hor & Ha).
  destruct (go_union_spec segSet fileSet) as [Hw Hun]; [exact (go_parse_wf _ _ Hor Hs)|exact (go_parse_wf _ _ Hg Hfs)|].
  set (seg := file_segment a old (as_FirstGTID status) f (go_String (go_Union segSet fileSet)) ended) in *.
  assert (segs_raw (ix_Segments index')) as Hr'.
  { rewrite Hsegs. apply Forall_app. split; [done|]. constructor; [|done]. cbn. by apply go_string_parse. }
  apply covered_fold in Hc as [Hcw Hc]; [|apply go_wf_new|done].
  exists before, after, old, seg. split; try done.
  - apply (lc_uuid _ _ _ _ _ Hloc).
  - apply file_segment_files.
  - intros t. change (sg_GTIDSet seg) with (go_String (go_Union segSet fileSet)). rewrite names_string by done.
    by rewrite Hun, (names_parsed _ _ t Hs), (names_parsed _ _ t Hfs).
  - intros t. rewrite Hcov, names_string by done. rewrite Hc. pose proof (go_holds_new t). naive_solver.
Qed.
End Coverage.

(** ** What the fork check changes *)

Lemma finish_checked r i :
  fr_Checked (finish r i) = fr_Checked r /\ fr_Superseded (finish r i) = fr_Superseded r /\ fr_Err (finish r i) = fr_Err r /\
  fr_CheckedAt (finish r i) = fr_CheckedAt r.
Proof. done. Qed.

Lemma check_segments_run a judge at_ segs merged changed retracted merged' changed' retracted' :
  check_segments a judge at_ segs merged changed retracted = (merged', changed', retracted', None) ->
  exists forks, merged' = merged ++ forks /\
    Forall2 (fun seg fork => exists moved shrank, check_segment a judge at_ seg = Ok (fork, moved, shrank)) segs forks.
Proof.
  revert merged changed retracted. induction segs as [|seg segs IH]; intros merged changed retracted; cbn.
  - intros [= <- <- <-]. exists []. by rewrite app_nil_r.
  - destruct (check_segment a judge at_ seg) as [[[fork moved] shrank]|e] eqn:E; [|done].
    intros (forks & -> & Hf)%IH. exists (fork :: forks). rewrite <- app_assoc. split; [done|]. constructor; eauto.
Qed.

(** The check judged every segment. *)
Record judged (a : Archiver) (judge : ForkJudge) (at_ : Time) (index index' : ArchiveIndex) : Prop := {
  jd_forks : Forall2 (fun seg seg' => seg' = set_Fork seg (sg_Fork seg') /\
               exists moved shrank, check_segment a judge at_ seg = Ok (sg_Fork seg', moved, shrank))
               (ix_Segments index) (ix_Segments index');
  jd_disowned : exists changed,
    foldDisowned (ix_Disowned index) (ix_Segments index) (sg_Fork <$> ix_Segments index') (judge_retractor judge) =
    Ok (ix_Disowned index', changed);
  jd_timeline : ix_MariaDBTimeline index' =
    match ForkJudge_ArchiveTimeline judge with
    | Some epochs => mergeArchiveTimeline (ix_MariaDBTimeline index) epochs (ix_Segments index)
    | None => ix_MariaDBTimeline index
    end;
  jd_rest : (ix_CoveredGTIDSet index', ix_ForkCheck index', ix_Generation index', ix_ArchivedThrough index') =
            (ix_CoveredGTIDSet index, ix_ForkCheck index, ix_Generation index, ix_ArchivedThrough index)
}.

Lemma set_Fork_forks segs forks :
  length segs = length forks -> sg_Fork <$> zip_with set_Fork segs forks = forks.
Proof. revert forks. induction segs as [|s segs IH]; intros [|f forks]; cbn; intros; f_equal; auto; lia. Qed.

Lemma judge_index_run a judge at_ g index changed report index' :
  judge_index a judge at_ g index = (changed, report, index') ->
  (fr_Checked report = false /\ index' = index /\ changed = false /\ fr_Err report <> None /\ fr_Superseded report = false) \/
  (fr_Checked report = true /\ fr_CheckedAt report = at_ /\ fr_Err report = None /\ fr_Superseded report = false /\
   judged a judge at_ index index').
Proof.
  unfold judge_index. destruct (check_segments _ _ _ _ _ _ _) as [[[merged c] retracted] [e|]] eqn:Ec.
  { intros [= <- <- <-]. left. by split_and!. }
  destruct (foldDisowned _ _ _ _) as [[disowned dc]|e] eqn:Ed; [|intros [= <- <- <-]; left; by split_and!].
  apply check_segments_run in Ec as (forks & -> & Hf). cbn [app] in *. pose proof (Forall2_length _ _ _ Hf) as Hlen.
  set (tl := match ForkJudge_ArchiveTimeline judge with Some _ => _ | None => _ end).
  intros Hrun. right. assert (exists tc, tl = (match ForkJudge_ArchiveTimeline judge with
    | Some epochs => mergeArchiveTimeline (ix_MariaDBTimeline index) epochs (ix_Segments index)
    | None => ix_MariaDBTimeline index end, tc)) as [tc Htl].
  { unfold tl. destruct (ForkJudge_ArchiveTimeline judge); [|by eexists]. case_bool_decide as Et; cbn; [|by eexists].
    rewrite Et. by eexists. }
  rewrite Htl in Hrun. injection Hrun as <- <- <-. split_and!; [done..|]. split; cbn; try done.
  - clear - Hf. induction Hf as [|seg fork segs forks (m & s & Hx) _ IH]; cbn; constructor; [|done]. split; [done|]. eauto.
  - rewrite set_Fork_forks by done. eauto.
Qed.

(** The pass's authority is this judge. *)
Definition loads (pass : forkPass) (judge : ForkJudge) : Prop :=
  fp_preloaded pass = Some judge \/ exists source n, fp_source pass = Some source /\ source n = Ok (Some judge).

Lemma checkForks_run a index pass env w w' pass' changed report index' :
  checkForks a index pass env w = (w', (pass', (changed, report, index'))) ->
  (fp_primary pass', fp_generation pass', fp_source pass') = (fp_primary pass, fp_generation pass, fp_source pass) /\
  (fr_Superseded report = true <-> fp_source pass <> None /\ fp_generation pass < ix_Generation index) /\
  ((fr_Checked report = false /\ index' = index /\ changed = false) \/
   (fr_Checked report = true /\ fr_Err report = None /\ fr_Superseded report = false /\
    ix_Generation index <= fp_generation pass /\
    exists judge, loads pass judge /\ judged a judge (fr_CheckedAt report) index index')).
Proof.
  unfold checkForks. destruct (fp_source pass) as [src|] eqn:Es.
  2: { intros [= <- <- <- <- <-]. rewrite Es. split_and!; [done|naive_solver|auto]. }
  destruct (Z.ltb_spec (fp_generation pass) (ix_Generation index)) as [Hlt|Hge].
  { intros [= <- <- <- <- <-]. rewrite Es. split_and!; [done| |auto]. split; [|done]. intros _. done. }
  intros Hrun. apply bind_inv in Hrun as (w1 & (p1 & r) & Hload & Hrun).
  assert ((fp_primary p1, fp_generation p1, fp_source p1) = (fp_primary pass, fp_generation pass, Some src) /\
    (forall judge, r = Ok (Some judge) -> loads pass judge)) as [Hp1 Hloads].
  { unfold load in Hload. destruct (fp_preloaded pass) eqn:Ep.
    - inv_io. cbn. rewrite Es. split; [done|]. intros judge [= <-]. by left.
    - rewrite Es in Hload. inv_io. rewrite Es. split; [done|]. intros judge Hj. right. by exists src, (w_calls w). }
  assert (forall r0, fr_Superseded r0 = false -> fr_Superseded r0 = true <-> Some src <> None /\ fp_generation pass < ix_Generation index) as Hsup.
  { intros r0 ->. split; [done|]. intros [_ ?]. lia. }
  destruct (wrapf _ r) as [[judge|]|e] eqn:Ew; [apply wrapf_Ok in Ew| |].
  - apply bind_inv in Hrun as (w2 & at_ & _ & Hrun). injection Hrun as <- <- Hj.
    apply judge_index_run in Hj as [(H1 & H2 & H3 & _ & H5)|(H1 & H2 & H3 & H4 & H5)]; (split; [done|]);
      (split; [by apply Hsup|]).
    + left. done.
    + right. rewrite H2. split_and!; [done..|]. exists judge. split; [by apply Hloads|done].
  - injection Hrun as <- <- <- <- <-. split; [done|]. split; [by apply Hsup|]. by left.
  - injection Hrun as <- <- <- <- <-. split; [done|]. split; [by apply Hsup|]. by left.
Qed.

(** The coverage part of an index. *)
Definition coverage_of (i : ArchiveIndex) : list (string * list string * string) * string :=
  ((fun s => (sg_ServerUUID s, sg_Binlogs s, sg_GTIDSet s)) <$> ix_Segments i, ix_CoveredGTIDSet i).

Lemma judged_coverage a judge at_ index index' : judged a judge at_ index index' -> coverage_of index' = coverage_of index.
Proof.
  intros [Hf _ _ Hr]. unfold coverage_of. injection Hr as -> _ _ _. f_equal. symmetry.
  induction Hf as [|s s' l l' [-> _] _ IH]; cbn; [done|]. by rewrite IH.
Qed.

(** ** Index writes *)

(** The records only a primary of the newest generation may change. *)
Definition verdicts (i : ArchiveIndex) :=
  (sg_Fork <$> ix_Segments i, ix_Disowned i, ix_MariaDBTimeline i, ix_ForkCheck i, ix_Generation i).

(** What a pass keeps while it runs. *)
Definition pass_is (source : option ForkSource) (primary : bool) (generation : Z) (p : forkPass) : Prop :=
  fp_source p = source /\ fp_primary p = primary /\ fp_generation p = generation.

Lemma checkForks_pass a i p env w s b g :
  pass_is s b g p -> pass_is s b g (fst (snd (checkForks a i p env w))).
Proof.
  destruct (checkForks a i p env w) as (w' & p' & ((c & r) & i')) eqn:E. apply checkForks_run in E as (Hp & _).
  injection Hp as H1 H2 H3. unfold pass_is. cbn. rewrite H1, H2, H3. done.
Qed.

Lemma fold_mutation_pass {T} `{gtidOps T} a st f gs s b g p i ex env w :
  pass_is s b g p -> pass_is s b g (fst (snd (fold_mutation a st f gs p i ex env w))).
Proof.
  intros Hp. unfold fold_mutation, bind. destruct (foldFile _ _ _ _ _ _ _) as [w1 [i1|e]]; [|done].
  match goal with |- context [checkForks a ?j p env w1] =>
    pose proof (checkForks_pass a j p env w1 s b g Hp) as Hc; destruct (checkForks a j p env w1) as (w2 & p2 & ((c & r) & i2)) end.
  exact Hc.
Qed.

Lemma check_mutation_pass a gen th s b g st i ex env w :
  pass_is s b g (fst st) -> pass_is s b g (fst (fst (snd (check_mutation a gen th st i ex env w)))).
Proof.
  destruct st as [p r0]. cbn [fst]. intros Hp. unfold check_mutation. destruct ex; [|done]. cbn [negb]. unfold bind at 1.
  pose proof (checkForks_pass a i p env w s b g Hp) as Hc. destruct (checkForks a i p env w) as (w2 & p2 & ((c & r) & i2)).
  cbn [fst snd] in Hc. destruct (fr_Err r); [done|]. destruct (fr_Superseded r); [done|].
  repeat (match goal with |- context [if ?b then _ else _] => destruct b end; try done).
Qed.

Lemma fold_mutation_run {T} `{gtidOps T} a st f gs p i ex env w w' p' new write :
  fold_mutation a st f gs p i ex env w = (w', (p', Ok (new, write))) ->
  write = true /\ exists i1 w1, foldFile a i st f gs env w = (w1, Ok i1) /\ coverage_of new = coverage_of i1 /\
    ix_Generation i1 <= ix_Generation new /\ ix_ArchivedThrough new = ix_ArchivedThrough i1 /\
    (fp_generation p < ix_Generation i1 -> verdicts new = verdicts i1).
Proof.
  unfold fold_mutation. intros Hrun. apply bind_inv in Hrun as (w1 & [i1|e] & Hf & Hrun); [|inv_io; done].
  set (i2 := if fp_primary p && (ix_Generation i1 <? fp_generation p) then set_Generation i1 (fp_generation p) else i1) in *.
  assert (coverage_of i2 = coverage_of i1 /\ ix_Generation i1 <= ix_Generation i2 /\
    ix_ArchivedThrough i2 = ix_ArchivedThrough i1 /\
    (fp_generation p < ix_Generation i1 -> i2 = i1)) as (Hc2 & Hg2 & Ht2 & Hs2).
  { unfold i2. destruct (fp_primary p); cbn; [|done]. destruct (Z.ltb_spec (ix_Generation i1) (fp_generation p)); cbn; [|done].
    split_and!; [done|lia|done|lia]. }
  apply bind_inv in Hrun as (w2 & (p2 & ((c & r) & i3)) & Hcf & Hrun). injection Hrun as <- <- <- <-. split; [done|].
  exists i1, w1. split; [done|]. apply checkForks_run in Hcf as (_ & _ & [(Hr & -> & _)|(Hr & _ & _ & Hge & judge & _ & Hj)]); rewrite Hr.
  - rewrite Hc2, Ht2. split_and!; [done|lia|done|]. intros Hlt. by rewrite Hs2.
  - pose proof (judged_coverage _ _ _ _ _ Hj) as Hcj. destruct Hj as [_ _ _ Hrest]. injection Hrest as _ _ Hg Ht.
    unfold set_ForkCheck. cbn. rewrite Hg, Ht, <- Hc2, <- Hcj. split_and!; [done|lia|done|]. intros Hlt. specialize (Hs2 Hlt).
    rewrite Hs2 in Hge. lia.
Qed.

Lemma check_mutation_run a gen th st i ex env w w' st' new :
  fp_generation (fst st) = gen -> fp_source (fst st) <> None ->
  check_mutation a gen th st i ex env w = (w', (st', Ok (new, true))) ->
  ex = true /\ coverage_of new = coverage_of i /\ ix_Generation i <= gen /\ ix_Generation new = gen /\
  ix_ArchivedThrough i <= ix_ArchivedThrough new.
Proof.
  destruct st as [p r0]. cbn [fst]. intros Hgen Hsrc. unfold check_mutation. destruct ex; [|by intros [= <- <- <-]].
  cbn [negb]. intros Hrun. split; [done|]. apply bind_inv in Hrun as (w1 & (p1 & ((c & r) & i1)) & Hcf & Hrun).
  apply checkForks_run in Hcf as (_ & Hsup & Hcf). destruct (fr_Err r); [inv_io; done|].
  destruct (fr_Superseded r) eqn:Es; [inv_io; done|].
  assert (ix_Generation i <= gen) as Hle.
  { destruct (Z.le_gt_cases (ix_Generation i) gen) as [|Hgt]; [done|]. assert (false = true) by (apply Hsup; split; [done|lia]). done. }
  match type of Hrun with (if ?b then _ else _) _ _ = _ => destruct b eqn:Ed; [inv_io; done|] end.
  assert (coverage_of i1 = coverage_of i /\ ix_Generation i1 = ix_Generation i /\ ix_ArchivedThrough i1 = ix_ArchivedThrough i)
    as (Hc1 & Hg1 & Ht1).
  { destruct Hcf as [(_ & -> & _)|(_ & _ & _ & _ & judge & _ & Hj)]; [done|]. split; [by eapply judged_coverage|].
    destruct Hj as [_ _ _ Hrest]. by injection Hrest. }
  set (stamp := negb (IsZero th) && (ix_ArchivedThrough i1 <? th)) in *.
  assert (forall j, j = (if stamp then set_ArchivedThrough i1 th else i1) ->
    coverage_of j = coverage_of i /\ ix_Generation j = ix_Generation i /\ ix_ArchivedThrough i <= ix_ArchivedThrough j) as Hj.
  { intros j ->. unfold stamp. destruct (negb (IsZero th)); cbn; [|split_and!; [done..|lia]].
    destruct (Z.ltb_spec (ix_ArchivedThrough i1) th); cbn; split_and!; (done || lia). }
  specialize (Hj _ eq_refl) as (Hcj & Hgj & Htj).
  match type of Hrun with (if ?b then _ else _) _ _ = _ => destruct b end;
    apply bind_inv in Hrun as (w2 & at_ & _ & Hrun); injection Hrun as _ _ <-; cbn; split_and!; try done; lia.
Qed.

(** ** The history of the index

    Any number of archivers write the index, each write replacing the index by a
    mutation of it ([index_update_is_atomic]).  [files u f] is the GTID set that
    the manifest of file [f] of server [u] records. *)

Section History.
Context {T : Type} `{L : gtidOpsLaws T}.
Context (files : string -> string -> string) (files_raw : forall u f, go_raw (files u f)).

Inductive index_step : option ArchiveIndex -> ArchiveIndex -> Prop :=
| step_fold a status name p env w w' p' old new :
    name <> "" ->
    fold_mutation (T := T) a status name (files (ar_serverUUID a) name) p (default ArchiveIndex_zero old)
      (bool_decide (is_Some old)) env w = (w', (p', Ok (new, true))) ->
    index_step old new
| step_check a gen th st env w w' st' old new :
    fp_generation (fst st) = gen -> fp_source (fst st) <> None ->
    check_mutation a gen th st old true env w = (w', (st', Ok (new, true))) ->
    index_step (Some old) new.

Inductive index_reach : option ArchiveIndex -> Prop :=
| reach_none : index_reach None
| reach_step old new : index_reach old -> index_step old new -> index_reach (Some new).

(** One segment per server, each covering exactly what its listed files hold, and
    a covered set that is exactly the segments' union. *)
Definition consistent_coverage (c : list (string * list string * string) * string) : Prop :=
  NoDup ((fun x => fst (fst x)) <$> fst c) /\ Forall (fun x => go_raw (snd x)) (fst c) /\
  (forall u fs g t, (u, fs, g) ∈ fst c -> names g t <-> exists f, f ∈ fs /\ names (files u f) t) /\
  (forall t, names (snd c) t <-> exists u fs g, (u, fs, g) ∈ fst c /\ names g t).
Definition consistent (i : ArchiveIndex) : Prop := consistent_coverage (coverage_of i).

(** Every segment keeps its files and its transactions. *)
Definition grows (i i' : ArchiveIndex) : Prop :=
  forall u fs g, (u, fs, g) ∈ fst (coverage_of i) ->
    exists fs' g', (u, fs', g') ∈ fst (coverage_of i') /\ fs ⊆ fs' /\ forall t, names g t -> names g' t.

Lemma names_empty t : ~ names "" t.
Proof. intros (s & Hs & Ht). by apply (go_parse_empty s Hs) in Ht. Qed.

Lemma consistent_zero : consistent ArchiveIndex_zero.
Proof.
  split_and!; cbn; [constructor|constructor|set_solver|]. intros t. split; [by intros ?%names_empty|].
  intros (u & fs & g & []%not_elem_of_nil & _).
Qed.

Lemma coverage_elem i u fs g :
  (u, fs, g) ∈ fst (coverage_of i) <->
  exists s, s ∈ ix_Segments i /\ sg_ServerUUID s = u /\ sg_Binlogs s = fs /\ sg_GTIDSet s = g.
Proof. cbn. rewrite list_elem_of_fmap. naive_solver. Qed.

Lemma consistent_uuid i : NoDup ((fun x => fst (fst x)) <$> fst (coverage_of i)) <-> NoDup (sg_ServerUUID <$> ix_Segments i).
Proof. cbn. by rewrite <- list_fmap_compose. Qed.

Lemma grows_refl i i' : coverage_of i' = coverage_of i -> grows i i'.
Proof. intros Hc u fs g Hx. exists fs, g. rewrite Hc. done. Qed.

Lemma grows_trans i j k : grows i j -> grows j k -> grows i k.
Proof.
  intros H1 H2 u fs g Hx. destruct (H1 _ _ _ Hx) as (fs1 & g1 & Hx1 & ? & ?).
  destruct (H2 _ _ _ Hx1) as (fs2 & g2 & Hx2 & ? & ?). exists fs2, g2. split_and!; [done|set_solver|auto].
Qed.

(** The segments after a fold: the others as they were, and the grown one. *)
Lemma folded_segment a i f g i' before after old seg s :
  folded (T := T) a i f g i' before after old seg ->
  s ∈ ix_Segments i' <-> s = seg \/ (s ∈ before \/ s ∈ after).
Proof. intros [_ -> _ _ _ _ _ _]. set_solver. Qed.

Lemma located_elem u segs before after old s :
  located u segs before after old -> s ∈ segs -> s = old \/ s ∈ before \/ s ∈ after.
Proof. intros [_ _ [->|(-> & -> & _)]]; set_solver. Qed.

Lemma located_other u segs before after old s :
  located u segs before after old -> s ∈ before \/ s ∈ after -> s ∈ segs.
Proof. intros [_ _ [->|(-> & -> & _)]]; set_solver. Qed.

Lemma folded_grows a i f g i' before after old seg :
  folded (T := T) a i f g i' before after old seg -> grows i i'.
Proof.
  intros Hf u fs gs. rewrite coverage_elem. intros (s & Hs & <- & <- & <-). pose proof (fd_old _ _ _ _ _ _ _ _ _ Hf) as Hloc.
  destruct (located_elem _ _ _ _ _ _ Hloc Hs) as [->|Hin].
  - exists (sg_Binlogs seg), (sg_GTIDSet seg). rewrite coverage_elem. split_and!.
    + exists seg. rewrite (lc_uuid _ _ _ _ _ Hloc). split_and!; [|apply (fd_uuid _ _ _ _ _ _ _ _ _ Hf)|done..].
      rewrite (folded_segment _ _ _ _ _ _ _ _ _ _ Hf). auto.
    + intros x Hx. rewrite (fd_files _ _ _ _ _ _ _ _ _ Hf). auto.
    + intros t Ht. rewrite (fd_set _ _ _ _ _ _ _ _ _ Hf). auto.
  - exists (sg_Binlogs s), (sg_GTIDSet s). rewrite coverage_elem. split_and!; [|done..].
    exists s. rewrite (folded_segment _ _ _ _ _ _ _ _ _ _ Hf). auto.
Qed.

Lemma folded_uuids a i f g i' before after old seg :
  folded (T := T) a i f g i' before after old seg ->
  NoDup (sg_ServerUUID <$> ix_Segments i) -> NoDup (sg_ServerUUID <$> ix_Segments i').
Proof.
  intros Hf. pose proof (fd_old _ _ _ _ _ _ _ _ _ Hf) as [Hu Hfirst Hsegs].
  rewrite (fd_new _ _ _ _ _ _ _ _ _ Hf). destruct Hsegs as [->|(-> & -> & _)]; rewrite !fmap_app; cbn;
    rewrite (fd_uuid _ _ _ _ _ _ _ _ _ Hf), ?Hu; [done|].
  intros Hnd. apply NoDup_app. split_and!; [done|set_solver|repeat constructor; set_solver].
Qed.

Lemma folded_consistent a i f i' before after old seg :
  f <> "" -> folded (T := T) a i f (files (ar_serverUUID a) f) i' before after old seg -> consistent i -> consistent i'.
Proof.
  intros Hne Hf (Hnd & Hraw & Hseg & _). pose proof (fd_old _ _ _ _ _ _ _ _ _ Hf) as Hloc.
  assert (forall t, names (sg_GTIDSet old) t <-> exists f, f ∈ sg_Binlogs old /\ names (files (ar_serverUUID a) f) t) as Hold.
  { destruct Hloc as [Hu _ [E|(_ & _ & -> & -> & _)]].
    - intros t. apply (Hseg (ar_serverUUID a) (sg_Binlogs old) (sg_GTIDSet old)). rewrite coverage_elem. exists old.
      rewrite E. split_and!; [set_solver|done..].
    - intros t. split; [by intros ?%names_empty|set_solver]. }
  split_and!.
  - apply consistent_uuid. eapply folded_uuids; [exact Hf|]. by apply consistent_uuid.
  - cbn. rewrite Forall_fmap. apply (fd_raw _ _ _ _ _ _ _ _ _ Hf).
  - intros u fs g t. rewrite coverage_elem. intros (s & Hs & <- & <- & <-).
    apply (folded_segment _ _ _ _ _ _ _ _ _ _ Hf) in Hs as [->|Hs].
    + rewrite (fd_set _ _ _ _ _ _ _ _ _ Hf), Hold, (fd_uuid _ _ _ _ _ _ _ _ _ Hf).
      setoid_rewrite (fd_files _ _ _ _ _ _ _ _ _ Hf). naive_solver.
    + apply Hseg. rewrite coverage_elem. exists s. split_and!; [|done..]. by eapply located_other.
  - intros t. rewrite (fd_covered _ _ _ _ _ _ _ _ _ Hf). setoid_rewrite coverage_elem. naive_solver.
Qed.

Lemma foldFile_consistent a i status f env w w' i' :
  f <> "" -> consistent i -> foldFile (T := T) a i status f (files (ar_serverUUID a) f) env w = (w', Ok i') ->
  consistent i' /\ grows i i' /\
  ix_Generation i' = ix_Generation i /\ ix_ArchivedThrough i' = ix_ArchivedThrough i.
Proof using files_raw.
  intros Hne Hc Hrun. assert (segs_raw (T := T) (ix_Segments i)) as Hraw.
  { destruct Hc as (_ & Hr & _). cbn in Hr. by rewrite Forall_fmap in Hr. }
  destruct (foldFile_folded _ _ _ _ _ _ _ _ _ Hraw (files_raw _ _) Hrun) as (before & after & old & seg & Hf).
  pose proof (fd_rest _ _ _ _ _ _ _ _ _ Hf) as Hrest. injection Hrest as _ Hg _ Ht _.
  split_and!; [by eapply folded_consistent|by eapply folded_grows|done..].
Qed.

Lemma index_step_spec old new :
  index_step old new -> consistent (default ArchiveIndex_zero old) ->
  consistent new /\ grows (default ArchiveIndex_zero old) new /\
  ix_Generation (default ArchiveIndex_zero old) <= ix_Generation new /\
  ix_ArchivedThrough (default ArchiveIndex_zero old) <= ix_ArchivedThrough new.
Proof using files_raw.
  intros [a status name p env w w' p' old' new' Hne Hrun|a gen th st env w w' st' old' new' Hg Hs Hrun] Hc.
  - apply fold_mutation_run in Hrun as (_ & i1 & w1 & Hf & Hcov & Hgen & Hth & _).
    destruct (foldFile_consistent _ _ _ _ _ _ _ _ Hne Hc Hf) as (Hc1 & Hgr & <- & Ht). split_and!; [| |done|by rewrite Hth, Ht].
    + unfold consistent. by rewrite Hcov.
    + eapply grows_trans; [exact Hgr|by apply grows_refl].
  - apply check_mutation_run in Hrun as (_ & Hcov & Hle & Hgen & Hth); [|done..]. cbn [default id]. unfold id.
    split_and!; [unfold consistent; by rewrite Hcov|by apply grows_refl|lia|done].
Qed.

Lemma index_reach_consistent o : index_reach o -> consistent (default ArchiveIndex_zero o).
Proof using files_raw.
  induction 1 as [|old new _ IH Hstep]; [apply consistent_zero|]. by apply (index_step_spec _ _ Hstep).
Qed.
End History.

(** ** Judging against a MySQL primary *)

Lemma check_segment_mysql a j at_ seg fork moved shrank :
  judge_wf j -> check_segment a (MySQLJudge j) at_ seg = Ok (fork, moved, shrank) ->
  forall t, fork_holds fork t <->
    (fork_holds (sg_Fork seg) t \/ (sg_ServerUUID seg <> ar_serverUUID a /\ mysql_holds (sg_GTIDSet seg) t)) /\
    ~ gtid_in (mj_executed j) (fst t) (snd t).
Proof.
  intros Hw Hrun. unfold check_segment in Hrun. inv_result. destruct x as [fork0 grew]. rename H into Hm.
  assert (forall t, fork_holds fork0 t <-> fork_holds (sg_Fork seg) t \/
    (sg_ServerUUID seg <> ar_serverUUID a /\ mysql_holds (sg_GTIDSet seg) t /\ ~ gtid_in (mj_executed j) (fst t) (snd t))) as H0.
  { destruct (String.eqb_spec (sg_ServerUUID seg) (ar_serverUUID a)) as [E|E]; cbn [negb] in Hm.
    - injection Hm as <- <-. intros t. split; [auto|]. intros [?|(? & _)]; done.
    - inv_result. rename x into delta, H into Hd. destruct (mysqlForkJudge_Judge_holds _ _ _ Hw Hd) as (Hh & _).
      apply mergeFork_spec in Hm as (Hh2 & _). intros t. rewrite Hh2, Hh. naive_solver. }
  cbn [judge_retractor] in Hrun. destruct fork0 as [f|].
  - inv_result. destruct x as [kept retracted]. destruct (retractFork_spec _ _ _ _ _ Hw H) as (Hk & _ & Hs & _).
    assert (fork = kept) as ->.
    { destruct retracted; injection Hrun as <- <- <-; [done|]. symmetry. by apply Hs. }
    intros t. rewrite Hk, H0. naive_solver.
  - injection Hrun as <- <- <-. intros t. specialize (H0 t). cbn in *. naive_solver.
Qed.

Lemma judged_mysql a j at_ index index' :
  judge_wf j -> judged a (MySQLJudge j) at_ index index' ->
  Forall2 (fun seg seg' => seg' = set_Fork seg (sg_Fork seg') /\ forall t, fork_holds (sg_Fork seg') t <->
      (fork_holds (sg_Fork seg) t \/ (sg_ServerUUID seg <> ar_serverUUID a /\ mysql_holds (sg_GTIDSet seg) t)) /\
      ~ gtid_in (mj_executed j) (fst t) (snd t)) (ix_Segments index) (ix_Segments index') /\
  (forall t, mysql_holds (disowned_set (ix_Disowned index')) t <->
     (mysql_holds (disowned_set (ix_Disowned index)) t \/ exists seg, seg ∈ ix_Segments index' /\ fork_holds (sg_Fork seg) t) /\
     ~ gtid_in (mj_executed j) (fst t) (snd t)) /\
  ix_MariaDBTimeline index' = ix_MariaDBTimeline index.
Proof.
  intros Hw [Hf (c & Hd) Ht _]. split_and!.
  - eapply Forall2_impl; [exact Hf|]. intros seg seg' (Heq & moved & shrank & Hc). split; [done|].
    by eapply check_segment_mysql.
  - intros t. destruct (foldDisowned_spec _ _ _ _ _ _ Hw Hd) as (Hh & _). rewrite Hh.
    assert ((exists x, x ∈ zip (ix_Segments index) (sg_Fork <$> ix_Segments index') /\ fork_holds (snd x) t) <->
            exists seg, seg ∈ ix_Segments index' /\ fork_holds (sg_Fork seg) t) as ->; [|done].
    clear - Hf. induction Hf as [|s s' l l' _ _ IH]; cbn; [set_solver|]. setoid_rewrite elem_of_cons. naive_solver.
  - done.
Qed.

(** ** A stale primary *)

(** Every segment keeps its fork record. *)
Definition keeps_forks (i i' : ArchiveIndex) : Prop :=
  forall s, s ∈ ix_Segments i -> exists s', s' ∈ ix_Segments i' /\ sg_ServerUUID s' = sg_ServerUUID s /\ sg_Fork s' = sg_Fork s.

Lemma foldFile_keeps_forks {T} `{gtidOps T} a i st f gs env w w' i' :
  foldFile a i st f gs env w = (w', Ok i') -> keeps_forks i i'.
Proof.
  intros (before & after & old & ? & ? & ? & ? & Hloc & _ & _ & Hsegs & _)%foldFile_shape s Hs. rewrite Hsegs.
  destruct Hloc as [_ _ [E|(E & _)]]; rewrite E in Hs.
  - apply elem_of_app in Hs as [?|[->|?]%elem_of_cons].
    1,3: exists s; split_and!; [set_solver|done..].
    eexists. split_and!; [apply elem_of_app; right; left|done..].
  - exists s. split_and!; [set_solver|done..].
Qed.

Lemma same_verdicts_keep_forks i i' :
  coverage_of i' = coverage_of i -> verdicts i' = verdicts i -> keeps_forks i i'.
Proof.
  unfold coverage_of, verdicts. intros [= Hc _] [= Hv _ _ _ _] s [k Hk]%list_elem_of_lookup_1.
  assert (is_Some (ix_Segments i' !! k)) as [s' Hk'].
  { apply lookup_lt_is_Some. apply (f_equal length) in Hc. rewrite !length_fmap in Hc. rewrite Hc. by eapply lookup_lt_Some. }
  exists s'. split; [by eapply list_elem_of_lookup_2|].
  apply (f_equal (fun l => l !! k)) in Hc, Hv. rewrite !list_lookup_fmap, Hk, Hk' in *. cbn in *. by simplify_eq.
Qed.

(** ** Properties *)

(** C15: However many archivers write the index, in whatever interleaving, the
    stored index is consistent: one segment per server, each segment covers
    exactly the transactions of the files it lists, and the covered set is exactly
    the union of the segments. *)
Theorem archive_index_is_consistent {T} `{L : gtidOpsLaws T} (files : string -> string -> string) i :
  (forall u f, go_raw (files u f)) -> index_reach (T := T) files (Some i) -> consistent (T := T) files i.
Proof. intros Hraw Hi. exact (index_reach_consistent files Hraw (Some i) Hi). Qed.

(** Index writes only add: along any history, a write keeps every file and
    every transaction that a segment had, and neither the primary generation nor
    the archived-through time goes back. *)
Theorem index_writes_only_add {T} `{L : gtidOpsLaws T} (files : string -> string -> string) old new :
  (forall u f, go_raw (files u f)) -> index_reach (T := T) files old -> index_step (T := T) files old new ->
  grows (T := T) (default ArchiveIndex_zero old) new /\
  ix_Generation (default ArchiveIndex_zero old) <= ix_Generation new /\
  ix_ArchivedThrough (default ArchiveIndex_zero old) <= ix_ArchivedThrough new.
Proof.
  intros Hraw Hr Hs. by destruct (index_step_spec files Hraw _ _ Hs (index_reach_consistent files Hraw _ Hr)) as (_ & ? & ? & ?).
Qed.

(** A demoted primary cannot judge the archive: once the index carries a newer
    generation, its file folds leave every fork record, the disowned record, the
    timeline, the check stamp and the generation alone, and its checks write
    nothing. *)
Theorem stale_primary_cannot_judge {T} `{gtidOps T} a p i :
  fp_source p <> None -> fp_generation p < ix_Generation i ->
  (forall st f gs ex env w w' p' new wr,
     fold_mutation (T := T) a st f gs p i ex env w = (w', (p', Ok (new, wr))) ->
     keeps_forks i new /\ ix_Disowned new = ix_Disowned i /\ ix_MariaDBTimeline new = ix_MariaDBTimeline i /\
     ix_ForkCheck new = ix_ForkCheck i /\ ix_Generation new = ix_Generation i) /\
  (forall r through ex env w w' st' new wr,
     check_mutation a (fp_generation p) through (p, r) i ex env w = (w', (st', Ok (new, wr))) -> wr = false).
Proof.
  intros Hsrc Hlt. split.
  - intros st f gs ex env w w' p' new wr Hrun. apply fold_mutation_run in Hrun as (_ & i1 & w1 & Hf & Hcov & _ & _ & Hv).
    pose proof (foldFile_keeps_forks _ _ _ _ _ _ _ _ _ Hf) as Hk.
    apply foldFile_shape in Hf as (? & ? & ? & ? & ? & ? & ? & _ & _ & _ & _ & _ & _ & Hrest). injection Hrest as Hc Hg Hd _ Ht.
    specialize (Hv ltac:(lia)). pose proof (same_verdicts_keep_forks _ _ Hcov Hv) as Hk2. unfold verdicts in Hv. injection Hv as _ Hd2 Ht2 Hc2 Hg2.
    split_and!; [|congruence..]. intros s Hs. destruct (Hk s Hs) as (s1 & Hs1 & Hu1 & Hf1).
    destruct (Hk2 s1 Hs1) as (s2 & ? & ? & ?). exists s2. split_and!; [done|congruence..].
  - intros r through ex env w w' st' new wr Hrun. destruct wr; [|done].
    apply check_mutation_run in Hrun as (_ & _ & Hle & _); [|done..]. lia.
Qed.

(** C22: A fork check against a MySQL primary is exact and all or nothing: either
    the index is untouched, or every segment's record becomes what it recorded or
    (for another server's segment) archived, less what the primary holds, and the
    disowned set what it or a record holds, less what the primary holds. *)
Theorem fork_check_is_exact a index pass executed j env w w' pass' changed report index' :
  NewMySQLForkJudge executed = Ok (MySQLJudge j) -> (forall judge, loads pass judge -> judge = MySQLJudge j) ->
  checkForks a index pass env w = (w', (pass', (changed, report, index'))) ->
  (fr_Checked report = false -> index' = index) /\
  (fr_Checked report = true ->
     ix_Generation index <= fp_generation pass /\
     Forall2 (fun seg seg' => seg' = set_Fork seg (sg_Fork seg') /\ forall t, fork_holds (sg_Fork seg') t <->
         (fork_holds (sg_Fork seg) t \/ (sg_ServerUUID seg <> ar_serverUUID a /\ mysql_holds (sg_GTIDSet seg) t)) /\
         ~ mysql_holds executed t) (ix_Segments index) (ix_Segments index') /\
     (forall t, mysql_holds (disowned_set (ix_Disowned index')) t <->
        (mysql_holds (disowned_set (ix_Disowned index)) t \/
         exists seg, seg ∈ ix_Segments index' /\ fork_holds (sg_Fork seg) t) /\ ~ mysql_holds executed t) /\
     ix_MariaDBTimeline index' = ix_MariaDBTimeline index).
Proof.
  intros Hj Hall Hrun. apply checkForks_run in Hrun as (_ & _ & [(Hr & -> & _)|(Hr & _ & _ & Hge & judge & Hl & Hjd)]); rewrite Hr;
    (split; [done|]); [done|]. intros _. apply Hall in Hl as ->. destruct (NewMySQLForkJudge_wf _ _ Hj) as [Hw _].
  assert (forall t, gtid_in (mj_executed j) (fst t) (snd t) <-> mysql_holds executed t) as Hex.
  { intros t. unfold NewMySQLForkJudge in Hj. inv_result. by rewrite (mysql_holds_parsed executed x). }
  destruct (judged_mysql _ _ _ _ _ Hw Hjd) as (H1 & H2 & H3). split_and!; [done| |setoid_rewrite <- Hex; exact H2|done].
  eapply Forall2_impl; [exact H1|]. intros seg seg' [Heq Ht]. split; [done|]. intros t. rewrite <- Hex. apply Ht.
Qed.

(** A primary of generation 2 that archives one file and judges another server's
    segment. *)
Module Sample.

Definition judge : mysqlForkJudge := mkMysqlForkJudge "a:1-5,b:1-3" {["a" := [mkGTIDInterval 1 5]; "b" := [mkGTIDInterval 1 3]]}.
Definition archiver : Archiver :=
  mkArchiver (mkS3ObjectStore "bucket" "") "c" None "c-1" "u1" (Some (fun _ => Ok (Some (MySQLJudge judge)))) None.
Definition pass : forkPass := mkForkPass (ar_forks archiver) true 2 None None.
Definition stale : forkPass := mkForkPass (ar_forks archiver) true 1 None None.
Definition env : Env :=
  mkEnv (fun _ st => st) (fun _ => Answered) true (fun n => Z.of_nat n) (fun _ => None)
    (fun _ _ => Ok (mkFileInfo 1 5 9)) (fun _ _ => Ok "bytes") (fun _ _ => Ok (mkScanResult "" "a:1-5" "a:1" "a:5" 1 2)).
Definition start : World := mkWorld ∅ 0 [] false.
Definition status : ArchiveStatus := mkArchiveStatus "c" "u1" "c-1" "" "" "a:1" "" 0.

Definition files (u f : string) : string := if String.eqb f "binlog.000001" then "a:1-5" else "a:6".

Definition run (old : option ArchiveIndex) (f : string) :=
  fold_mutation (T := GTIDSet) archiver status f (files "u1" f) pass (default ArchiveIndex_zero old)
    (bool_decide (is_Some old)) env start.
Definition index_of (r : World * (forkPass * result (ArchiveIndex * bool))) : ArchiveIndex :=
  match snd (snd r) with Ok (i, _) => i | Err _ => ArchiveIndex_zero end.
Definition first : ArchiveIndex := index_of (run None "binlog.000001").
Definition second : ArchiveIndex := index_of (run (Some first) "binlog.000002").

Lemma first_step : index_step (T := GTIDSet) files None first.
Proof. eapply (step_fold files archiver status "binlog.000001" pass env start); [done|vm_compute; reflexivity]. Qed.

Lemma second_step : index_step (T := GTIDSet) files (Some first) second.
Proof. eapply (step_fold files archiver status "binlog.000002" pass env start); [done|vm_compute; reflexivity]. Qed.

(** Another server's segment, part of which the primary does not hold. *)
Definition other : ArchiveSegment := mkArchiveSegment "u0" "c-0" ["binlog.000007"] "b:1-4" "" None 0 0.
Definition shared : ArchiveIndex := mkArchiveIndex "c" "" [other] "b:1-4" 0 None 2 None 0 [].

End Sample.

Lemma archive_index_is_consistent_witness :
  sg_Binlogs <$> ix_Segments Sample.second = [["binlog.000001"; "binlog.000002"]] /\
  ix_CoveredGTIDSet Sample.second = "a:1-6" /\ consistent (T := GTIDSet) Sample.files Sample.second.
Proof.
  split; [vm_compute; reflexivity|]. split; [vm_compute; reflexivity|].
  apply (archive_index_is_consistent Sample.files Sample.second); [done|].
  exact (reach_step _ _ _ (reach_step _ _ _ (reach_none _) Sample.first_step) Sample.second_step).
Defined.

Lemma index_writes_only_add_witness : grows (T := GTIDSet) Sample.first Sample.second.
Proof.
  apply (index_writes_only_add Sample.files (Some Sample.first) Sample.second); [done| |exact Sample.second_step].
  exact (reach_step _ _ _ (reach_none _) Sample.first_step).
Defined.

Lemma stale_primary_cannot_judge_witness :
  exists w' st' new wr,
    check_mutation Sample.archiver 1 0 (Sample.stale, ForkReport_zero) Sample.shared true Sample.env Sample.start =
      (w', (st', Ok (new, wr))) /\ wr = false.
Proof.
  destruct (stale_primary_cannot_judge (T := GTIDSet) Sample.archiver Sample.stale Sample.shared) as [_ Hcheck];
    [discriminate|vm_compute; reflexivity|].
  eexists _, _, _, _. split; [vm_compute; reflexivity|]. eapply (Hcheck ForkReport_zero 0 true Sample.env Sample.start). vm_compute. reflexivity.
Defined.

Lemma fork_check_is_exact_witness :
  exists w' pass' report index',
    checkForks Sample.archiver Sample.shared Sample.pass Sample.env Sample.start = (w', (pass', (true, report, index'))) /\
    fr_Checked report = true /\ disowned_set (ix_Disowned index') = "b:4" /\
    ix_Generation Sample.shared <= fp_generation Sample.pass.
Proof.
  eexists _, _, _, _. split; [vm_compute; reflexivity|]. split; [reflexivity|]. split; [reflexivity|].
  eapply (fork_check_is_exact Sample.archiver Sample.shared Sample.pass "a:1-5,b:1-3" Sample.judge Sample.env Sample.start).
  - vm_compute. reflexivity.
  - intros judge [[=]|(source & n & [= <-] & [= <-])]. reflexivity.
  - vm_compute. reflexivity.
  - reflexivity.
Defined.
