(* ===== verification/ArchiverPass.v ===== *)
(** * A pass of the archiver

    Proofs about shipping files ([Archiver]): the commit order of one file, and
    that a successful pass leaves every rotated file listed in the index, in an
    environment where requests fail and other writers interleave. *)

From Stdlib Require Import ZArith Lia Bool Ascii String.
From stdpp Require Import base list strings gmap.
From S2P Require Import Prelude GoStrings Gtid GtidText GtidModel MariaGtid MariaTimeline.
From S2P Require Import Archive Forks GtidOps ObjectStore BinlogFiles Archiver ArchiverIndex.

Local Open Scope Z_scope.

(** ** What the index lists *)

(** The files of a server's segment. *)
Fixpoint own_files (u : string) (segs : list ArchiveSegment) : list string :=
  match segs with
  | [] => []
  | s :: segs' => if String.eqb (sg_ServerUUID s) u then sg_Binlogs s else own_files u segs'
  end.

Lemma own_files_middle u before seg after :
  u ∉ (sg_ServerUUID <$> before) -> sg_ServerUUID seg = u -> own_files u (before ++ seg :: after) = sg_Binlogs seg.
Proof.
  intros Hb Hs. induction before as [|s before IH]; cbn.
  - by destruct (String.eqb_spec (sg_ServerUUID seg) u).
  - rewrite fmap_cons, not_elem_of_cons in Hb. destruct Hb as [Hne Hb].
    destruct (String.eqb_spec (sg_ServerUUID s) u); [congruence|]. by apply IH.
Qed.

Lemma own_files_none u segs : u ∉ (sg_ServerUUID <$> segs) -> own_files u segs = [].
Proof.
  induction segs as [|s segs IH]; cbn; [done|]. rewrite not_elem_of_cons. intros [Hne Hin].
  destruct (String.eqb_spec (sg_ServerUUID s) u); [congruence|]. by apply IH.
Qed.

Lemma own_files_located u segs before after old : located u segs before after old -> own_files u segs = sg_Binlogs old.
Proof. intros [Hu Hb [->|(-> & _ & -> & _)]]; [by apply own_files_middle|by apply own_files_none]. Qed.

Lemma own_files_coverage u i i' : coverage_of i = coverage_of i' -> own_files u (ix_Segments i) = own_files u (ix_Segments i').
Proof.
  unfold coverage_of. intros [= Hseg _]. revert Hseg. generalize (ix_Segments i'). induction (ix_Segments i) as [|s l IH]; intros [|s' l'] [=]; [done|].
  cbn. match goal with H : sg_ServerUUID s = _ |- _ => rewrite H end. destruct (String.eqb _ u); [done|]. by apply IH.
Qed.

Lemma foldFile_lists {T} `{gtidOps T} a i st f gs env w w' i' :
  foldFile a i st f gs env w = (w', Ok i') -> forall x,
  x ∈ own_files (ar_serverUUID a) (ix_Segments i') <-> x ∈ own_files (ar_serverUUID a) (ix_Segments i) \/ (x = f /\ f <> "").
Proof.
  intros (before & after & old & segSet & fileSet & cum & ended & Hloc & _ & _ & -> & _)%foldFile_shape x.
  rewrite (own_files_located _ _ _ _ _ Hloc). destruct Hloc as [Hu Hb _].
  rewrite own_files_middle by done. apply file_segment_files.
Qed.

Lemma fold_mutation_lists {T} `{gtidOps T} a st f gs p i ex env w w' p' new write :
  fold_mutation a st f gs p i ex env w = (w', (p', Ok (new, write))) -> forall x,
  x ∈ own_files (ar_serverUUID a) (ix_Segments new) <-> x ∈ own_files (ar_serverUUID a) (ix_Segments i) \/ (x = f /\ f <> "").
Proof.
  intros (_ & i1 & w1 & Hf & Hc & _)%fold_mutation_run x. rewrite (own_files_coverage _ _ _ Hc). by eapply foldFile_lists.
Qed.

(** ** Keys do not clash with the index *)

Lemma append_cancel (a b c : string) : a +:+ b = a +:+ c -> b = c.
Proof. induction a as [|x a IH]; cbn; [done|]. intros [=]. auto. Qed.

Lemma under_server_not_index store cluster u rest :
  ServerPrefix store cluster u +:+ rest <> ArchiveIndexKey store cluster.
Proof.
  unfold ServerPrefix, ArchiveIndexKey. rewrite !append_assoc. intros Heq%append_cancel.
  assert (no_char "/" (u +:+ "/" +:+ rest) = true) as Hc by (by rewrite Heq).
  unfold no_char in Hc. rewrite !all_chars_app in Hc. cbn in Hc. by rewrite andb_false_r in Hc.
Qed.

Lemma BuildBinlogKeys_not_index store cluster u name keys :
  BuildBinlogKeys store cluster u name = Ok keys ->
  bk_BinlogKey keys <> ArchiveIndexKey store cluster /\ bk_ManifestKey keys <> ArchiveIndexKey store cluster /\ name <> "".
Proof.
  unfold BuildBinlogKeys. destruct (String.eqb (os_Bucket store) ""); [done|].
  destruct (String.eqb cluster "" || String.eqb u "" || String.eqb name "") eqn:E; [done|]. boolp.
  destruct (_ || _); [done|]. intros [= <-]. cbn. rewrite append_assoc. split_and!; [apply under_server_not_index..|done].
Qed.

(** ** The pass keeps the index complete *)

(** A check moves no coverage. *)
Lemma check_mutation_coverage a gen th st i ex env w w' st' new wr :
  check_mutation a gen th st i ex env w = (w', (st', Ok (new, wr))) -> coverage_of new = coverage_of i.
Proof.
  destruct st as [p r0]. unfold check_mutation. destruct ex; [|by intros [= <- <- <- <-]].
  cbn [negb]. intros Hrun. apply bind_inv in Hrun as (w1 & (p1 & ((c & r) & i1)) & Hcf & Hrun).
  apply checkForks_run in Hcf as (_ & _ & Hcf). destruct (fr_Err r); [inv_io; done|].
  assert (coverage_of i1 = coverage_of i) as <-.
  { destruct Hcf as [(_ & -> & _)|(_ & _ & _ & _ & judge & _ & Hj)]; [done|by eapply judged_coverage]. }
  repeat match type of Hrun with
  | (if ?b then _ else _) _ _ = _ => destruct b
  | bind _ _ _ _ = _ => apply bind_inv in Hrun as (? & ? & _ & Hrun)
  | ret _ _ _ = _ => first [injection Hrun as _ _ <- _ | injection Hrun as _ _ <-]
  end; try done; repeat match goal with |- context [if ?b then _ else _] => destruct b end; done.
Qed.

Section Listing.
Context {T : Type} `{gtidOps T} `{Versioning} (SumHex : string -> string) (a : Archiver).

(** The stored index lists a file in this server's segment. *)
Definition listed (st : Store) (f : string) : Prop :=
  exists i, st !! indexKey a = Some (OIndex i) /\ f ∈ own_files (ar_serverUUID a) (ix_Segments i).

(** The endpoint implements conditional writes, and the other writers leave the
    files of this server's segment listed. *)
Definition rely (env : Env) : Prop :=
  e_conditional env = true /\ forall n st f, listed st f -> listed (e_others env n st) f.

(** A computation that unlists nothing. *)
Definition steady {A} (m : IO A) : Prop :=
  forall env w w' x, rely env -> w_unconditional w = false -> m env w = (w', x) ->
    w_unconditional w' = false /\ forall f, listed (w_store w) f -> listed (w_store w') f.

Lemma steady_quiet {A} (m : IO A) : quiet m -> steady m.
Proof. intros Hq env w w' x _ Hu Hm. destruct (Hq env w) as (_ & H1 & H2). rewrite Hm in *. cbn in *. by rewrite H1, H2. Qed.

Lemma steady_bind {A B} (m : IO A) (k : A -> IO B) : steady m -> (forall x, steady (k x)) -> steady (bind m k).
Proof.
  intros Hm Hk env w w' y Hr Hu Hrun. apply bind_inv in Hrun as (w1 & x & H1 & H2).
  destruct (Hm _ _ _ _ Hr Hu H1) as [Hu1 Hl1]. destruct (Hk x _ _ _ _ Hr Hu1 H2) as [Hu2 Hl2]. auto.
Qed.

Lemma steady_ret {A} (x : A) : steady (ret x).
Proof. apply steady_quiet, quiet_ret. Qed.
Lemma steady_ask {A} (f : Env -> nat -> A) : steady (ask f).
Proof. apply steady_quiet, quiet_ask. Qed.

Lemma steady_now : steady now.
Proof. apply steady_ask. Qed.

Lemma steady_request : steady request.
Proof. intros env w w' x [_ Hr] Hu Hrun. inv_io. cbn. split; [done|]. intros f. apply Hr. Qed.

Lemma steady_lookup k : steady (lookup_key k).
Proof. by apply steady_quiet. Qed.

Lemma steady_land k o : k <> indexKey a -> steady (land_put k o).
Proof.
  intros Hk env w w' x _ Hu Hrun. inv_io. cbn. split; [done|]. intros f (i & Hi & Hf). exists i.
  by rewrite lookup_insert_ne.
Qed.

#[local] Hint Resolve steady_ret steady_ask steady_now steady_request steady_lookup steady_land : steady.

Ltac steady_step :=
  repeat first
    [ progress cbv zeta | solve [eauto with steady]
    | apply steady_bind; [|intros ?]
    | match goal with |- steady (match ?x with _ => _ end) => destruct x end
    | match goal with |- steady (if ?x then _ else _) => destruct x end
    | match goal with |- steady (let '(_, _) := ?x in _) => destruct x end ].

Lemma steady_put k o : k <> indexKey a -> steady (put_object k o).
Proof. intros Hk. unfold put_object. steady_step. Qed.

Lemma steady_Exists k : steady (Exists k).
Proof. unfold Exists. steady_step. Qed.

Lemma steady_GetJSON {A} `{JSON A} k : steady (GetJSON k).
Proof. unfold GetJSON. steady_step. Qed.

Lemma steady_GetJSONVersion {A} `{JSON A} (z : A) k : steady (GetJSONVersion z k).
Proof. unfold GetJSONVersion. steady_step. Qed.

#[local] Hint Resolve steady_put steady_Exists steady_GetJSON steady_GetJSONVersion : steady.

Lemma statusKey_not_index : statusKey a <> indexKey a.
Proof. apply under_server_not_index. Qed.

Lemma steady_hashFile path : steady (hashFile SumHex path).
Proof. unfold hashFile. steady_step. Qed.
#[local] Hint Resolve steady_hashFile : steady.

Lemma steady_ship keys name st scan memo :
  bk_BinlogKey keys <> indexKey a -> bk_ManifestKey keys <> indexKey a -> steady (ship SumHex a keys name st scan memo).
Proof. intros H1 H2. unfold ship, Upload, PutJSON. steady_step. Qed.

Lemma steady_verify keys name st memo : steady (verify SumHex keys name st memo).
Proof. unfold verify. steady_step. Qed.
#[local] Hint Resolve steady_ship steady_verify : steady.

Lemma steady_archiveFile l allow memo : steady (archiveFile SumHex a l allow memo).
Proof.
  unfold archiveFile, archiveFileAllowed.
  destruct (BuildBinlogKeys _ _ _ _) as [keys|] eqn:E; [|steady_step].
  destruct (BuildBinlogKeys_not_index _ _ _ _ _ E) as (H1 & H2 & _).
  assert (forall st, steady (archive_unverified SumHex a keys (bl_Name l) allow st memo)) as Hun.
  { intros st. unfold archive_unverified. steady_step. }
  steady_step.
Qed.

Lemma steady_seedIndexed memo : steady (seedIndexed a memo).
Proof. unfold seedIndexed. steady_step. Qed.

Lemma steady_loadStatus : steady (loadStatus a).
Proof. unfold loadStatus. steady_step. Qed.

(** An index write whose mutation unlists nothing unlists nothing: what it
    replaces is what it mutated. *)
Lemma update_loop_lists {R} (mutate : R -> ArchiveIndex -> bool -> IO (R * result (ArchiveIndex * bool))) n r env w w' r' res :
  (forall r i b, quiet (mutate r i b)) ->
  (forall r i b env w w' r' i', mutate r i b env w = (w', (r', Ok (i', true))) -> forall x,
     x ∈ own_files (ar_serverUUID a) (ix_Segments i) -> x ∈ own_files (ar_serverUUID a) (ix_Segments i')) ->
  rely env -> w_unconditional w = false -> update_loop n (indexKey a) mutate r env w = (w', (r', res)) ->
  w_unconditional w' = false /\ (forall x, listed (w_store w) x -> listed (w_store w') x) /\
  (res = Ok tt -> exists r0 i b w1 w2 i' write, mutate r0 i b env w1 = (w2, (r', Ok (i', write))) /\
     (write = true -> w_store w' !! indexKey a = Some (OIndex i'))).
Proof.
  intros Hquiet Hmut Hrely. revert r w. induction n as [|n IH]; intros r w Hu; cbn [update_loop]; intros Hrun.
  { by inv_io. }
  pose proof Hrely as [Hc Hothers]. apply bind_inv in Hrun as (w1 & g & Hg & Hrun).
  destruct (steady_GetJSONVersion ArchiveIndex_zero (indexKey a) _ _ _ _ Hrely Hu Hg) as [Hu1 Hl1].
  destruct g as [[[i etag] ex]|e].
  2: { injection Hrun as <- <- <-. split_and!; [done..|]. by destruct e. }
  apply GetJSONVersion_run in Hg as (_ & _ & _ & old & _ & -> & -> & Het).
  apply bind_inv in Hrun as (w2 & (r2 & m) & Hm & Hrun).
  destruct (Hquiet r (default ArchiveIndex_zero old) (bool_decide (is_Some old)) env w1) as (_ & Hq2 & Hq3).
  rewrite Hm in Hq2, Hq3. cbn in Hq2, Hq3. destruct m as [[i2 [|]]|e].
  2: { injection Hrun as <- <- <-. rewrite Hq2, Hq3. split_and!; [done..|]. intros _. eexists _, _, _, _, _, _, _. split; [exact Hm|done]. }
  2: { injection Hrun as <- <- <-. rewrite Hq2, Hq3. done. }
  apply bind_inv in Hrun as (w3 & err & Hp & Hrun). apply PutJSONIf_run in Hp as (Hu3 & Hp); [|done|congruence].
  assert ((forall x, listed (w_store w) x -> listed (w_store w3) x) /\
    (err = Ok tt -> w_store w3 !! indexKey a = Some (OIndex i2))) as [Hl3 Hf3].
  { destruct Hp as [(Hne & _ & Hst)|(Hpre & _ & Hst)]; rewrite Hst.
    - split; [|done]. intros x Hx. apply Hothers. rewrite Hq3. auto.
    - apply (precondition_current _ old) in Hpre as Hold; [|done]. rewrite lookup_insert_eq. split; [|done]. intros x Hx.
      exists i2. rewrite lookup_insert_eq. split; [done|]. eapply Hmut; [exact Hm|].
      apply Hl1 in Hx. rewrite <- Hq3 in Hx. apply (Hothers (w_calls w2)) in Hx as (j & Hj & Hx).
      rewrite Hold in Hj. destruct old; cbn in Hj; [|done]. by injection Hj as ->. }
  destruct err as [[]|e].
  { injection Hrun as <- <- <-. split_and!; [done..|]. intros _. eexists _, _, _, _, _, _, _. split; [exact Hm|auto]. }
  destruct (decide (e = ErrPreconditionFailed)) as [->|Hne].
  - destruct (IH _ _ Hu3 Hrun) as (? & Hmono & Hok). split_and!; auto.
  - assert (ret (r2, wrapf "writing archive index" (@Err unit e)) env w3 = (w', (r', res))) as Hret by (by destruct e).
    injection Hret as <- <- <-. split_and!; [done..|]. by destruct e.
Qed.

Lemma updateIndex_lists status f gs p env w w' p' res :
  rely env -> w_unconditional w = false -> updateIndex a status f gs p env w = (w', (p', res)) ->
  w_unconditional w' = false /\ (forall x, listed (w_store w) x -> listed (w_store w') x) /\
  (res = Ok tt -> f <> "" -> listed (w_store w') f).
Proof.
  intros Hr Hu Hrun. unfold updateIndex, UpdateArchiveIndex in Hrun. apply bind_inv in Hrun as (w1 & (p1 & err) & H1 & H2).
  injection H2 as <- <- <-. apply update_loop_lists in H1 as (? & ? & Hok);
    [|intros; apply fold_mutation_quiet|intros; eapply fold_mutation_lists; eauto|done..].
  split_and!; [done..|]. rewrite wrapf_Ok. intros He Hne. destruct (Hok He) as (? & ? & ? & ? & ? & i' & wr & Hm & Hst).
  pose proof (fold_mutation_run _ _ _ _ _ _ _ _ _ _ _ _ _ Hm) as [-> _]. exists i'. split; [auto|].
  eapply fold_mutation_lists; [exact Hm|]. by right.
Qed.

Lemma steady_CheckArchive through : steady (CheckArchive a through).
Proof.
  intros env w w' x Hr Hu Hrun. unfold CheckArchive in Hrun. destruct (ar_forks a) as [src|] eqn:Ef; [|by injection Hrun as <- <-].
  apply bind_inv in Hrun as (w1 & (gen & ok) & H1 & Hrun).
  assert (steady (Authority a)) as HA by (unfold Authority; steady_step). destruct (HA _ _ _ _ Hr Hu H1) as [Hu1 Hl1].
  destruct ok; [|by injection Hrun as <- <-]. cbn [negb] in Hrun. apply bind_inv in Hrun as (w2 & (p2 & r2) & H2 & Hrun).
  destruct (steady_quiet _ (load_quiet _) _ _ _ _ Hr Hu1 H2) as [Hu2 Hl2].
  assert (pass_is (Some src) true gen p2) as Hp2.
  { unfold load in H2. cbn in H2. inv_io. done. }
  destruct (wrapf _ r2) as [judge|e]; [|injection Hrun as <- <-; auto].
  destruct (_ && _); [injection Hrun as <- <-; auto|]. cbv zeta in Hrun.
  apply bind_inv in Hrun as (w3 & (st3 & err) & H3 & Hrun).
  assert (w_unconditional w3 = false /\ forall x, listed (w_store w2) x -> listed (w_store w3) x) as [Hu3 Hl3].
  { unfold UpdateArchiveIndex in H3. eapply update_loop_lists in H3 as (? & ? & _); [done| | |done|done].
    - intros; apply check_mutation_quiet.
    - intros st i b env' u u' st' i' Hm y Hy. rewrite (own_files_coverage _ i' i); [done|].
      by eapply check_mutation_coverage. }
  destruct err; injection Hrun as <- <-; auto.
Qed.

(** The memo of indexed files is right. *)
Definition memo_ok (memo : Memo) (w : World) : Prop := forall f, f ∈ mm_indexed memo -> listed (w_store w) f.

Lemma memo_ok_steady {A} (m : IO A) memo env w w' x :
  steady m -> rely env -> w_unconditional w = false -> m env w = (w', x) -> memo_ok memo w ->
  w_unconditional w' = false /\ memo_ok memo w'.
Proof. intros Hs Hr Hu Hm Hok. destruct (Hs _ _ _ _ Hr Hu Hm) as [? Hl]. split; [done|]. intros f Hf. auto. Qed.

Lemma seedIndexed_ok memo env w w' memo' res :
  rely env -> w_unconditional w = false -> seedIndexed a memo env w = (w', (memo', res)) -> memo_ok memo w ->
  w_unconditional w' = false /\ memo_ok memo' w'.
Proof.
  intros Hr Hu Hrun Hok. destruct (memo_ok_steady _ memo _ _ _ _ (steady_seedIndexed memo) Hr Hu Hrun Hok) as [Hu' Hok'].
  split; [done|]. unfold seedIndexed in Hrun. destruct (mm_indexSeeded memo); [by injection Hrun as <- <- <-|].
  apply bind_inv in Hrun as (w1 & g & Hg & Hrun). destruct g as [[[i etag] ex]|e]; [|by injection Hrun as <- <- <-].
  apply GetJSONVersion_run in Hg as (_ & _ & _ & old & Hst & -> & -> & _). injection Hrun as <- <- <-. unfold memo_ok. cbn.
  intros f. rewrite elem_of_list_to_set. unfold ArchiveIndex_Segment. destruct old as [o|]; cbn in *; [|set_solver].
  pose proof (find_segment_located (ix_Segments o) (ar_serverUUID a) 0) as Hown.
  destruct (find_segment _ _ 0) as [j|]; [|set_solver]. destruct Hown as (before & after & seg & -> & E & Hloc).
  rewrite E, list_lookup_middle by done. intros Hf. exists o. split; [done|]. by rewrite (own_files_located _ _ _ _ _ Hloc).
Qed.

Lemma archiveFile_indexed l allow memo env w w' memo' r :
  archiveFile SumHex a l allow memo env w = (w', (memo', r)) ->
  mm_indexed memo' = mm_indexed memo /\ (is_ok r = true -> bl_Name l <> "").
Proof.
  intros Hrun. unfold archiveFile in Hrun. apply bind_inv in Hrun as (w1 & (m1 & r1) & H1 & H2). injection H2 as _ <- <-.
  unfold archiveFileAllowed in H1. destruct (BuildBinlogKeys _ _ _ _) as [keys|e] eqn:E.
  2: { injection H1 as <- <- <-. split; [done|]. unfold BuildBinlogKeys in E.
       repeat (case_if; [by injection E as <-|]). done. }
  apply BuildBinlogKeys_not_index in E as (_ & _ & Hne). split; [|done].
  assert (forall st env w w' m r, archive_unverified SumHex a keys (bl_Name l) allow st memo env w = (w', (m, r)) ->
    mm_indexed m = mm_indexed memo) as Hun.
  { clear. intros st env w w' m r Hrun. unfold archive_unverified, verify, ship, hashFile in Hrun.
    repeat (match goal with
      | H : bind _ _ _ _ = _ |- _ => apply bind_inv in H as (? & ? & _ & H)
      | H : ret _ _ _ = _ |- _ => by injection H as _ <- _
      | H : (match ?x with _ => _ end) _ _ = _ |- _ => destruct x
      | H : (let '(_, _) := ?x in _) _ _ = _ |- _ => destruct x
      | H : (if ?x then _ else _) _ _ = _ |- _ => destruct x end; cbv zeta in Hrun). }
  apply bind_inv in H1 as (w2 & st & _ & H1). destruct st as [st|e]; [|by injection H1 as _ <- _].
  destruct (mm_verified memo !! bl_Name l) as [stamp|]; [destruct (matches _ _)|]; [by injection H1 as _ <- _|by eapply Hun..].
Qed.

Lemma commit_file_ok name meta s env w w' s' e :
  rely env -> w_unconditional w = false -> memo_ok (pa_memo s) w -> name <> "" ->
  commit_file a name meta s env w = (w', (s', e)) ->
  w_unconditional w' = false /\ (forall x, listed (w_store w) x -> listed (w_store w') x) /\ memo_ok (pa_memo s') w' /\
  pa_result s' = pa_result s /\ e <> Stop None /\ (e = Next -> name ∈ mm_indexed (pa_memo s')).
Proof.
  intros Hr Hu Hok Hne Hrun. unfold commit_file in Hrun. apply bind_inv in Hrun as (w1 & at_ & H1 & Hrun).
  destruct (steady_now _ _ _ _ Hr Hu H1) as [Hu1 Hl1]. cbv zeta in Hrun. cbn [pa_status pa_pass pa_covered pa_result pa_memo] in Hrun.
  apply bind_inv in Hrun as (w2 & r & H2 & Hrun). unfold PutJSON in H2.
  destruct (steady_put _ _ statusKey_not_index _ _ _ _ Hr Hu1 H2) as [Hu2 Hl2].
  assert (memo_ok (pa_memo s) w2) as Hok2 by (intros f Hf; auto).
  destruct r as [[]|er].
  2: { injection Hrun as <- <- <-. split_and!; [done|auto|done..|by destruct er|by destruct er]. }
  apply bind_inv in Hrun as (w3 & (p3 & err) & H3 & Hrun).
  destruct (updateIndex_lists _ _ _ _ _ _ _ _ _ Hr Hu2 H3) as (Hu3 & Hl3 & Hf3).
  destruct err as [[]|er]; injection Hrun as <- <- <-; cbn.
  - split_and!; [done|auto| |done..|set_solver]. intros f [->%elem_of_singleton|Hf]%elem_of_union; auto.
  - split_and!; [done|auto| |done..]. intros f Hf; auto.
Qed.

Lemma fold_coverage_ok name meta archived s env w w' s' e :
  rely env -> w_unconditional w = false -> memo_ok (pa_memo s) w -> name <> "" ->
  fold_coverage a name meta archived s env w = (w', (s', e)) ->
  w_unconditional w' = false /\ (forall x, listed (w_store w) x -> listed (w_store w') x) /\ memo_ok (pa_memo s') w' /\
  ars_Files (pa_result s') = ars_Files (pa_result s) /\ ars_Deferred (pa_result s') = ars_Deferred (pa_result s) /\
  e <> Stop None /\ (e = Next -> name ∈ mm_indexed (pa_memo s') /\ ars_LastArchivedBinlog (pa_result s') = name).
Proof.
  intros Hr Hu Hok Hne Hrun. unfold fold_coverage in Hrun. destruct (wrapf _ _) as [fileSet|er]; [|by injection Hrun as <- <- <-].
  cbv zeta in Hrun. match type of Hrun with (if ?b then _ else _) _ _ = _ => destruct b eqn:Ea end.
  - apply commit_file_ok in Hrun as (? & ? & ? & -> & ? & ?); [|done..]. split_and!; auto.
  - injection Hrun as <- <- <-. cbn. split_and!; try done. intros _. boolp. done.
Qed.

Lemma archive_step_ok allow l s env w w' s' e :
  rely env -> w_unconditional w = false -> memo_ok (pa_memo s) w ->
  archive_step SumHex a allow l s env w = (w', (s', e)) ->
  w_unconditional w' = false /\ (forall x, listed (w_store w) x -> listed (w_store w') x) /\ memo_ok (pa_memo s') w' /\
  match e with
  | Next => listed (w_store w') (bl_Name l) /\ ars_Deferred (pa_result s') = ars_Deferred (pa_result s) /\
            ars_LastArchivedBinlog (pa_result s') = bl_Name l /\
            af_Name <$> ars_Files (pa_result s') = (af_Name <$> ars_Files (pa_result s)) ++ [bl_Name l]
  | Stop None => ars_Deferred (pa_result s') <> "" /\ ars_Files (pa_result s') = ars_Files (pa_result s) /\
                 ars_LastArchivedBinlog (pa_result s') = ars_LastArchivedBinlog (pa_result s)
  | Stop (Some _) => True
  end.
Proof.
  intros Hr Hu Hok Hrun. unfold archive_step in Hrun. apply bind_inv in Hrun as (w1 & c & H1 & Hrun).
  destruct (steady_ask e_done _ _ _ _ Hr Hu H1) as [Hu1 Hl1].
  assert (memo_ok (pa_memo s) w1) as Hok1 by (intros f Hf; auto).
  destruct c as [ec|]; [by injection Hrun as <- <- <-|].
  apply bind_inv in Hrun as (w2 & (m2 & r2) & H2 & Hrun).
  destruct (steady_archiveFile l allow (pa_memo s) _ _ _ _ Hr Hu1 H2) as [Hu2 Hl2].
  apply archiveFile_indexed in H2 as [Hidx Hname].
  assert (memo_ok m2 w2) as Hok2 by (intros f Hf; rewrite Hidx in Hf; auto).
  cbv zeta in Hrun. destruct r2 as [[[meta archived] deferred]|er].
  2: { injection Hrun as <- <- <-. split_and!; [done|auto|done..]. }
  specialize (Hname eq_refl). destruct deferred.
  { injection Hrun as <- <- <-. split_and!; [done|auto|done..]. }
  apply bind_inv in Hrun as (w3 & (m3 & seeded) & H3 & Hrun).
  assert (w_unconditional w3 = false /\ memo_ok m3 w3 /\ forall x, listed (w_store w2) x -> listed (w_store w3) x) as (Hu3 & Hok3 & Hl3).
  { destruct (_ && _); [|by injection H3 as <- <- <-].
    destruct (seedIndexed_ok _ _ _ _ _ _ Hr Hu2 H3 Hok2) as [? ?]. split_and!; [done..|].
    by apply (steady_seedIndexed m2 _ _ _ _ Hr Hu2 H3). }
  destruct seeded as [[]|er].
  2: { injection Hrun as <- <- <-. split_and!; [done|auto|done..]. }
  cbn [with_memo pa_result pa_memo pa_pass pa_status pa_covered] in Hrun.
  apply fold_coverage_ok in Hrun as (Hu4 & Hl4 & Hok4 & Hfiles & Hdef & Hst & Hidx4); [|done..].
  split_and!; [done|auto|done|]. destruct e as [|[|]]; [|done..]. cbn in Hfiles, Hdef. destruct (Hidx4 eq_refl) as [Hin Hlast].
  split_and!; [auto|done..|]. rewrite Hfiles. by rewrite fmap_app.
Qed.

Lemma last_cons_irrel {A} (x : A) l d d' : List.last (x :: l) d = List.last (x :: l) d'.
Proof. revert x. induction l as [|y l IH]; intros x; [done|]. apply (IH y). Qed.

(** A pass without an error went through a front of the logs: those are listed
    and reported in order, and the last one is the frontier. *)
Record went_through (logs : list BinaryLog) (w : World) (r0 r : ArchiveResult) (front rest : list BinaryLog) : Prop := {
  wt_logs : logs = front ++ rest;
  wt_listed : forall l, l ∈ front -> listed (w_store w) (bl_Name l);
  wt_files : af_Name <$> ars_Files r = (af_Name <$> ars_Files r0) ++ (bl_Name <$> front);
  wt_last : ars_LastArchivedBinlog r = List.last (bl_Name <$> front) (ars_LastArchivedBinlog r0);
  wt_rest : ars_Deferred r = "" -> rest = []
}.

Lemma archive_loop_ok allow logs s env w w' s' err :
  rely env -> w_unconditional w = false -> memo_ok (pa_memo s) w -> ars_Deferred (pa_result s) = "" ->
  archive_loop SumHex a allow logs s env w = (w', (s', err)) ->
  w_unconditional w' = false /\ (forall x, listed (w_store w) x -> listed (w_store w') x) /\ memo_ok (pa_memo s') w' /\
  (err = None -> exists front rest, went_through logs w' (pa_result s) (pa_result s') front rest).
Proof.
  intros Hr. revert s w. induction logs as [|l logs IH]; intros s w Hu Hok Hdef Hrun; cbn [archive_loop] in Hrun.
  { injection Hrun as <- <- <-. split_and!; [done..|]. intros _. exists [], []. split; cbn; try done; [by intros ? []%not_elem_of_nil|].
    by rewrite app_nil_r. }
  apply bind_inv in Hrun as (w1 & (s1 & e1) & H1 & Hrun).
  apply archive_step_ok in H1 as (Hu1 & Hl1 & Hok1 & Hend); [|done..]. destruct e1 as [|er].
  - destruct Hend as (Hl & Hd & Hlast & Hfiles). apply IH in Hrun as (Hu2 & Hl2 & Hok2 & Hall); [|done..|congruence].
    split_and!; [done|auto|done|]. intros He. destruct (Hall He) as (front & rest & [-> Hlist Hnames Hla Hrest]).
    exists (l :: front), rest. split; [done| | | |done].
    + intros l' [->|Hl']%elem_of_cons; auto.
    + by rewrite Hnames, Hfiles, <- app_assoc.
    + rewrite Hla, Hlast, fmap_cons. destruct front as [|l' front]; [done|]. cbn [fmap list_fmap].
      by rewrite (last_cons_irrel _ _ _ (ars_LastArchivedBinlog (pa_result s))).
  - injection Hrun as <- <- <-. split_and!; [done|auto|done|]. intros ->. destruct Hend as (Hd & Hfiles & Hlast).
    exists [], (l :: logs). split; cbn; try done; [by intros ? []%not_elem_of_nil|]. by rewrite Hfiles, app_nil_r.
Qed.

Lemma archivePending_ok logs allow pass memo env w w' memo' res err :
  rely env -> w_unconditional w = false -> memo_ok memo w ->
  archivePending SumHex a logs allow pass memo env w = (w', (memo', (res, err))) ->
  w_unconditional w' = false /\ (forall x, listed (w_store w) x -> listed (w_store w') x) /\ memo_ok memo' w' /\
  (err = None -> exists r0 front rest, ars_Files r0 = [] /\ went_through (Archivable logs) w' r0 res front rest).
Proof.
  intros Hr Hu Hok Hrun. unfold archivePending in Hrun. apply bind_inv in Hrun as (w1 & r1 & H1 & Hrun).
  destruct (steady_loadStatus _ _ _ _ Hr Hu H1) as [Hu1 Hl1]. assert (memo_ok memo w1) as Hok1 by (intros f Hf; auto).
  destruct r1 as [status|e]; [|injection Hrun as <- <- <- <-; split_and!; done].
  destruct (wrapf _ _) as [covered|e]; [|injection Hrun as <- <- <- <-; split_and!; done].
  cbv zeta in Hrun. apply bind_inv in Hrun as (w2 & (s2 & err2) & H2 & Hrun). injection Hrun as <- <- <- <-.
  apply archive_loop_ok in H2 as (Hu2 & Hl2 & Hok2 & Hall); [|done..]. split_and!; [done|auto|done|].
  intros He. destruct (Hall He) as (front & rest & [H3 H4 H5 H6 H7]). eexists _, front, rest.
  split; [|split; [exact H3|exact H4|exact H5|exact H6|exact H7]]. done.
Qed.
End Listing.

(** ** One file *)

Section File.
Context `{Versioning} (SumHex : string -> string) (a : Archiver).

(** A computation that writes nothing. *)
Definition silent {A} (m : IO A) : Prop := forall env w w' x, m env w = (w', x) -> w_log w' = w_log w.

Lemma silent_request : silent request.
Proof. intros env w w' x Hrun. by inv_io. Qed.

Lemma put_object_log k o env w w' r :
  put_object k o env w = (w', r) -> w_log w' = w_log w \/ exists old, w_log w' = w_log w ++ [Wrote k old o].
Proof.
  unfold put_object. intros Hrun. apply bind_inv in Hrun as (w1 & out & H1 & Hrun). apply silent_request in H1.
  destruct out; inv_io; rewrite ?H1; cbn; eauto.
Qed.

Lemma put_object_ok k o env w w' :
  put_object k o env w = (w', Ok tt) -> exists old, w_log w' = w_log w ++ [Wrote k old o].
Proof.
  unfold put_object. intros Hrun. apply bind_inv in Hrun as (w1 & out & H1 & Hrun). apply silent_request in H1.
  destruct out; inv_io; try done. cbn. rewrite <- H1. eauto.
Qed.

Lemma hashFile_log path env w w' r :
  hashFile SumHex path env w = (w', r) ->
  w_log w' = w_log w /\ forall s n, r = Ok (s, n) -> exists bytes, e_read env (w_calls w) path = Ok bytes /\ s = SumHex bytes.
Proof.
  unfold hashFile. intros Hrun. apply bind_inv in Hrun as (w1 & b & H1 & Hrun). injection H1 as <- <-.
  destruct (e_read env (w_calls w) path) as [bytes|e]; injection Hrun as <- <-; (split; [done|]); naive_solver.
Qed.

(** The writes of shipping a file: its bytes, then its manifest. *)
Inductive shipped (keys : BinlogKeys) : list write -> option BinlogMetadata -> Prop :=
| shipped_nothing : shipped keys [] None
| shipped_body old bytes : shipped keys [Wrote (bk_BinlogKey keys) old (OBody bytes)] None
| shipped_file old bytes old' meta :
    shipped keys [Wrote (bk_BinlogKey keys) old (OBody bytes); Wrote (bk_ManifestKey keys) old' (OManifest meta)] (Some meta).

Lemma ship_run keys name st scan memo env w w' memo' r :
  ship SumHex a keys name st scan memo env w = (w', (memo', r)) ->
  exists new meta, w_log w' = w_log w ++ new /\ shipped keys new meta /\
    forall m b, r = Ok (m, b) -> b = true /\ meta = Some m /\ bm_BinlogName m = name /\ bm_GTIDSet m = sr_GTIDSet scan.
Proof.
  unfold ship. cbv zeta. intros Hrun. apply bind_inv in Hrun as (w1 & h & H1 & Hrun). apply hashFile_log in H1 as [H1 _].
  destruct h as [[sum size]|e].
  2: { injection Hrun as <- <- <-. exists [], None. rewrite app_nil_r, H1. split_and!; [done|constructor|done]. }
  apply bind_inv in Hrun as (w2 & at_ & H2 & Hrun). injection H2 as <- <-.
  apply bind_inv in Hrun as (w3 & b & H3 & Hrun). injection H3 as <- <-.
  match type of Hrun with match ?x with Ok _ => _ | Err _ => _ end _ _ = _ => destruct x as [bytes|e] end.
  2: { injection Hrun as <- <- <-. exists [], None. cbn. rewrite app_nil_r, H1. split_and!; [done|constructor|done]. }
  apply bind_inv in Hrun as (w4 & r4 & H4 & Hrun). destruct r4 as [[]|e].
  2: { apply put_object_log in H4. cbn in H4. injection Hrun as <- <- <-. rewrite <- H1.
       destruct H4 as [->|[old ->]]; [exists [], None|eexists [_], None]; rewrite ?app_nil_r; (split_and!; [done|constructor|by destruct e]). }
  apply put_object_ok in H4 as (old & Hl). cbn in Hl. rewrite H1 in Hl.
  apply bind_inv in Hrun as (w5 & r5 & H5 & Hrun). destruct r5 as [[]|e].
  - apply put_object_ok in H5 as (old' & Hl'). injection Hrun as <- <- <-. eexists _, _. rewrite Hl', Hl, <- app_assoc.
    split_and!; [done|apply shipped_file|]. by intros m b [= <- <-].
  - apply put_object_log in H5. injection Hrun as <- <- <-. rewrite Hl in H5.
    destruct H5 as [->|[old' ->]]; [|rewrite <- app_assoc]; eexists _, _; (split_and!; [done|constructor|by destruct e]).
Qed.

Lemma verify_run keys name st memo env w w' memo' r :
  verify SumHex keys name st memo env w = (w', (memo', r)) ->
  w_log w' = w_log w /\ forall m b, r = Ok (m, b) ->
    b = false /\ e_others env (w_calls w) (w_store w) !! bk_ManifestKey keys = Some (OManifest m) /\
    exists bytes, e_read env (S (w_calls w)) name = Ok bytes /\ (bm_SHA256 m = "" \/ bm_SHA256 m = SumHex bytes).
Proof.
  unfold verify, GetJSON. cbv zeta. intros Hrun. apply bind_inv in Hrun as (w1 & g & H1 & Hrun). inv_io.
  destruct (e_outcome env (w_calls w)); inv_io; cbn in *.
  2,3: split; [done|by destruct e].
  destruct (e_others env (w_calls w) (w_store w) !! bk_ManifestKey keys) as [[| m | |]|];
    try (injection Hrun as <- <- <-; split; done). cbn in Hrun.
  apply bind_inv in Hrun as (w2 & h & H2 & Hrun). apply hashFile_log in H2 as [H2 Hb]. cbn in H2, Hb.
  destruct h as [[sum size]|e]; [|by injection Hrun as <- <- <-].
  destruct (Hb _ _ eq_refl) as (bytes & Hbytes & ->). destruct (_ && _) eqn:E; [by injection Hrun as <- <- <-|].
  injection Hrun as <- <- <-. split; [done|]. intros m' b' [= <- <-]. split_and!; [done..|]. exists bytes. split; [done|].
  boolp. destruct E; boolp; auto.
Qed.

(** The first store a file's manifest is looked up in, and the next one. *)
Definition asked (env : Env) (w : World) : Store := e_others env (S (w_calls w)) (w_store w).
Definition read_again (env : Env) (w : World) : Store := e_others env (S (S (w_calls w))) (asked env w).

Lemma archive_unverified_run keys name allow st memo env w w' memo' r :
  archive_unverified SumHex a keys name allow st memo env w = (w', (memo', r)) ->
  let st1 := e_others env (w_calls w) (w_store w) in
  exists new meta, w_log w' = w_log w ++ new /\ shipped keys new meta /\
    (new <> [] -> st1 !! bk_ManifestKey keys = None /\
       forall f, allow = Some f -> exists n scan, f n name scan = Ok true) /\
    forall m b, r = Ok (m, b) ->
      (b = true /\ meta = Some m /\ bm_BinlogName m = name) \/
      (b = false /\ new = [] /\ e_others env (S (w_calls w)) st1 !! bk_ManifestKey keys = Some (OManifest m) /\
       exists bytes, e_read env (S (S (w_calls w))) name = Ok bytes /\ (bm_SHA256 m = "" \/ bm_SHA256 m = SumHex bytes)).
Proof.
  intros Hrun st1. unfold archive_unverified in Hrun. apply bind_inv in Hrun as (w1 & ex & H1 & Hrun).
  unfold Exists in H1. inv_io. destruct (e_outcome env (w_calls w)); inv_io.
  2,3: exists [], None; cbn; rewrite app_nil_r; split_and!; [done|constructor|done..].
  cbn in Hrun. fold st1 in Hrun. destruct (st1 !! bk_ManifestKey keys) as [o|] eqn:Eo.
  { apply verify_run in Hrun as [Hlog Hv]. cbn in Hlog, Hv. exists [], None. rewrite app_nil_r. split_and!; [done|constructor|done|].
    intros m b Hm. right. destruct (Hv m b Hm) as (? & ? & ?). done. }
  apply bind_inv in Hrun as (w2 & sc & H2 & Hrun).
  assert (w_log w2 = w_log w) as Hlog2.
  { destruct (mm_deferredScans memo !! name) as [c|]; [destruct (matches _ _)|]; by inv_io. }
  destruct sc as [scan|e].
  2: { injection Hrun as <- <- <-. exists [], None. rewrite app_nil_r. split_and!; [done|constructor|done|by destruct e]. }
  apply bind_inv in Hrun as (w3 & ok & H3 & Hrun).
  assert (w_log w3 = w_log w /\ (ok = Ok true -> forall f, allow = Some f -> exists n scan, f n name scan = Ok true)) as [Hlog3 Hallow].
  { destruct allow as [f|]; inv_io; (split; [done|]); [|done]. intros Hf f' [= <-]. eauto. }
  destruct ok as [[]|e].
  - apply ship_run in Hrun as (new & meta & Hl & Hs & Hok). exists new, meta. rewrite Hl, Hlog3. split_and!; [done..|auto|].
    intros m b Hm. left. destruct (Hok m b Hm) as (? & ? & ? & _). done.
  - injection Hrun as <- <- <-. exists [], None. rewrite app_nil_r. split_and!; [done|constructor|done..].
  - injection Hrun as <- <- <-. exists [], None. rewrite app_nil_r. split_and!; [done|constructor|done|by destruct e].
Qed.

Lemma archiveFileAllowed_run l allow memo env w w' memo' r :
  archiveFileAllowed SumHex a l allow memo env w = (w', (memo', r)) ->
  exists new meta, w_log w' = w_log w ++ new /\
    (new <> [] -> exists keys,
       BuildBinlogKeys (ar_objectStore a) (ar_clusterName a) (ar_serverUUID a) (bl_Name l) = Ok keys /\
       shipped keys new meta /\ asked env w !! bk_ManifestKey keys = None /\
       forall f, allow = Some f -> exists n scan, f n (bl_Name l) scan = Ok true) /\
    forall m b, r = Ok (m, b) ->
      (b = true /\ new <> [] /\ meta = Some m /\ bm_BinlogName m = bl_Name l) \/
      (b = false /\ new = [] /\
       ((exists stamp st, mm_verified memo !! bl_Name l = Some stamp /\ e_stat env (w_calls w) (bl_Name l) = Ok st /\
           matches (at_info stamp) st = true /\ m = at_meta stamp) \/
        (exists keys bytes, BuildBinlogKeys (ar_objectStore a) (ar_clusterName a) (ar_serverUUID a) (bl_Name l) = Ok keys /\
           read_again env w !! bk_ManifestKey keys = Some (OManifest m) /\
           e_read env (3 + w_calls w) (bl_Name l) = Ok bytes /\ (bm_SHA256 m = "" \/ bm_SHA256 m = SumHex bytes)))).
Proof.
  intros Hrun. unfold archiveFileAllowed in Hrun. destruct (BuildBinlogKeys _ _ _ _) as [keys|e] eqn:Ek.
  2: { injection Hrun as <- <- <-. exists [], None. by rewrite app_nil_r. }
  apply bind_inv in Hrun as (w1 & st & H1 & Hrun). injection H1 as <- <-.
  destruct (e_stat env (w_calls w) (bl_Name l)) as [st|e] eqn:Est.
  2: { injection Hrun as <- <- <-. exists [], None. rewrite app_nil_r. split_and!; [done..|by destruct e]. }
  assert (forall w' memo' r, archive_unverified SumHex a keys (bl_Name l) allow st memo env
    (mkWorld (w_store w) (S (w_calls w)) (w_log w) (w_unconditional w)) = (w', (memo', r)) ->
    exists new meta, w_log w' = w_log w ++ new /\
    (new <> [] -> exists keys0, Ok keys = Ok keys0 /\ shipped keys0 new meta /\ asked env w !! bk_ManifestKey keys0 = None /\
       forall f, allow = Some f -> exists n scan, f n (bl_Name l) scan = Ok true) /\
    forall m b, r = Ok (m, b) -> (b = true /\ new <> [] /\ meta = Some m /\ bm_BinlogName m = bl_Name l) \/
      (b = false /\ new = [] /\ exists keys0 bytes, Ok keys = Ok keys0 /\
           read_again env w !! bk_ManifestKey keys0 = Some (OManifest m) /\
           e_read env (3 + w_calls w) (bl_Name l) = Ok bytes /\ (bm_SHA256 m = "" \/ bm_SHA256 m = SumHex bytes))) as Hun.
  { clear Hrun. intros w2 m2 r2 Hrun. apply archive_unverified_run in Hrun as (new & meta & Hl & Hs & Hw & Hok). cbn in *.
    exists new, meta. split_and!; [done| |].
    - intros Hne. destruct (Hw Hne). exists keys. done.
    - intros m b Hm. destruct (Hok m b Hm) as [(-> & -> & ?)|(-> & -> & ? & bytes & ? & ?)].
      + left. split_and!; [done| |done..]. intros ->. inversion Hs.
      + right. split_and!; [done..|]. exists keys, bytes. done. }
  destruct (mm_verified memo !! bl_Name l) as [stamp|] eqn:Ev; [destruct (matches (at_info stamp) st) eqn:Em|].
  - injection Hrun as <- <- <-. exists [], None. cbn. rewrite app_nil_r. split_and!; [done..|].
    intros m b [= <- <-]. right. split_and!; [done..|]. left. by exists stamp, st.
  - destruct (Hun _ _ _ Hrun) as (new & meta & ? & ? & Hok). exists new, meta. split_and!; [done..|].
    intros m b Hm. destruct (Hok m b Hm) as [?|(? & ? & ?)]; auto.
  - destruct (Hun _ _ _ Hrun) as (new & meta & ? & ? & Hok). exists new, meta. split_and!; [done..|].
    intros m b Hm. destruct (Hok m b Hm) as [?|(? & ? & ?)]; auto.
Qed.
End File.

(** ** Properties *)

(** C17: On an endpoint that honours conditional writes, with a memo of files that
    are indeed listed and while no other writer unlists this server's files (as a
    retention pass may; [rely]): a pass that ends without an error or a deferred
    file leaves every rotated file listed in this server's segment of the stored
    index and reports them in order, whatever requests failed on the way and
    whatever else the other writers did; and whatever its outcome, it leaves every
    file that this server's segment listed before listed and the memo right. *)
Theorem archive_pass_indexes_every_file {T} `{gtidOps T} `{Versioning} SumHex a logs allow pass memo env w w' memo' res err :
  rely a env -> w_unconditional w = false -> memo_ok a memo w ->
  archivePending SumHex a logs allow pass memo env w = (w', (memo', (res, err))) ->
  (forall f, listed a (w_store w) f -> listed a (w_store w') f) /\ memo_ok a memo' w' /\
  (err = None -> ars_Deferred res = "" ->
     (forall l, l ∈ Archivable logs -> listed a (w_store w') (bl_Name l)) /\
     af_Name <$> ars_Files res = bl_Name <$> Archivable logs).
Proof.
  intros Hr Hu Hok Hrun. destruct (archivePending_ok SumHex a _ _ _ _ _ _ _ _ _ _ Hr Hu Hok Hrun) as (_ & Hmono & Hmemo & Hall).
  split_and!; [done..|]. intros He Hd. destruct (Hall He) as (r0 & front & rest & H0' & [Hlogs Hlist Hfiles _ Hrest]).
  rewrite (Hrest Hd), app_nil_r in Hlogs. rewrite Hlogs. split; [done|]. by rewrite Hfiles, H0'.
Qed.

(** A file enters the archive once and in commit order: anything written for it
    is its bytes and then its manifest, and only after its manifest was found
    absent and the filter accepted it; a file reported as freshly archived has both,
    and one reported as already archived was written nothing for, being either the
    unchanged file verified before or one whose stored manifest has its checksum. *)
Theorem archive_file_is_write_once SumHex a l allow memo env w w' memo' r :
  archiveFileAllowed SumHex a l allow memo env w = (w', (memo', r)) ->
  exists new meta, w_log w' = w_log w ++ new /\
    (new <> [] -> exists keys,
       BuildBinlogKeys (ar_objectStore a) (ar_clusterName a) (ar_serverUUID a) (bl_Name l) = Ok keys /\
       shipped keys new meta /\ asked env w !! bk_ManifestKey keys = None /\
       forall f, allow = Some f -> exists n scan, f n (bl_Name l) scan = Ok true) /\
    forall m b, r = Ok (m, b) ->
      (b = true /\ new <> [] /\ meta = Some m /\ bm_BinlogName m = bl_Name l) \/
      (b = false /\ new = [] /\
       ((exists stamp st, mm_verified memo !! bl_Name l = Some stamp /\ e_stat env (w_calls w) (bl_Name l) = Ok st /\
           matches (at_info stamp) st = true /\ m = at_meta stamp) \/
        (exists keys bytes, BuildBinlogKeys (ar_objectStore a) (ar_clusterName a) (ar_serverUUID a) (bl_Name l) = Ok keys /\
           read_again env w !! bk_ManifestKey keys = Some (OManifest m) /\
           e_read env (3 + w_calls w) (bl_Name l) = Ok bytes /\ (bm_SHA256 m = "" \/ bm_SHA256 m = SumHex bytes)))).
Proof. apply archiveFileAllowed_run. Qed.

(** A fresh process of the sample archiver with one rotated log and the active one. *)
Module Fresh.
Definition logs : list BinaryLog := [mkBinaryLog "binlog.000001" 5 false; mkBinaryLog "binlog.000002" 4 true].
Definition memo : Memo := mkMemo ∅ ∅ ∅ false.
Definition sum (bytes : string) : string := "sha-" +:+ bytes.
Definition run := archivePending (T := GTIDSet) (H0 := ContentTags.tags) sum Sample.archiver logs None Sample.pass memo Sample.env Sample.start.
Lemma run_eq : run = (fst run, (fst (snd run), (fst (snd (snd run)), snd (snd (snd run))))).
Proof. by destruct run as (? & ? & ? & ?). Qed.
Lemma relies : rely Sample.archiver Sample.env.
Proof. split; [reflexivity|]. intros n st f Hf. exact Hf. Qed.
Lemma memo_right : memo_ok Sample.archiver memo Sample.start.
Proof. intros f Hf. cbn in Hf. by apply not_elem_of_empty in Hf. Qed.
End Fresh.

Lemma archive_pass_indexes_every_file_witness :
  snd (snd (snd Fresh.run)) = None /\ ars_Archived (fst (snd (snd Fresh.run))) = ["binlog.000001"] /\
  listed Sample.archiver (w_store (fst Fresh.run)) "binlog.000001".
Proof.
  assert (snd (snd (snd Fresh.run)) = None) as He by (vm_compute; reflexivity).
  assert (ars_Deferred (fst (snd (snd Fresh.run))) = "") as Hd by (vm_compute; reflexivity).
  split; [exact He|]. split; [vm_compute; reflexivity|].
  destruct (archive_pass_indexes_every_file (T := GTIDSet) (H0 := ContentTags.tags) Fresh.sum Sample.archiver Fresh.logs None
    Sample.pass Fresh.memo Sample.env Sample.start _ _ _ _ Fresh.relies eq_refl Fresh.memo_right Fresh.run_eq) as (_ & _ & Hall).
  destruct (Hall He Hd) as [Hlisted _]. apply (Hlisted (mkBinaryLog "binlog.000001" 5 false)). left.
Defined.

Lemma archive_file_is_write_once_witness :
  exists w' memo' m new meta,
    archiveFileAllowed Fresh.sum Sample.archiver (mkBinaryLog "binlog.000001" 5 false) None Fresh.memo Sample.env Sample.start =
      (w', (memo', Ok (m, true))) /\ bm_SHA256 m = "sha-bytes" /\ w_log w' = [] ++ new /\ meta = Some m.
Proof.
  eexists _, _, _. destruct (archive_file_is_write_once Fresh.sum Sample.archiver (mkBinaryLog "binlog.000001" 5 false) None
    Fresh.memo Sample.env Sample.start _ _ _ ltac:(vm_compute; reflexivity)) as (new & meta & Hl & _ & Hok).
  exists new, meta. split; [vm_compute; reflexivity|]. split; [reflexivity|]. split; [exact Hl|].
  destruct (Hok _ _ eq_refl) as [(_ & _ & Hm & _)|(Hf & _)]; [exact Hm|discriminate].
Defined.
