(* ===== verification/ArchiverContents.v ===== *)
(** * What the archive says of a file

    Proofs about the contents of the archive ([Archiver]).  [P f gs] stands for
    the ground truth of the local files: [gs] is the GTID set of file [f].  When
    the scanner reports the truth, and what is stored or remembered is true, a
    pass stores and reports only the truth, and ships only files its filter
    accepted on their true contents, with the bytes it read of them.  How far the
    scanner does report the truth is [Scan]'s subject. *)

From Stdlib Require Import ZArith Lia Bool Ascii String.
From stdpp Require Import base list strings gmap.
From S2P Require Import Prelude GoStrings Gtid GtidText GtidModel MariaGtid MariaTimeline.
From S2P Require Import Archive Forks GtidOps ObjectStore BinlogFiles Archiver ArchiverIndex ArchiverPass.

Local Open Scope Z_scope.
#[local] Arguments String.append : simpl nomatch.

Lemma append_grows (b c : string) : (String.length c <= String.length (b +:+ c))%nat.
Proof. induction b; cbn; lia. Qed.

Lemma append_cancel_r (a b c : string) : a +:+ c = b +:+ c -> a = b.
Proof.
  revert b. induction a as [|x a IH]; intros [|y b] Heq; cbn in Heq; [done|..].
  - apply (f_equal String.length) in Heq. cbn in Heq. pose proof (append_grows b c). lia.
  - apply (f_equal String.length) in Heq. cbn in Heq. pose proof (append_grows a c). lia.
  - injection Heq as -> Heq. by rewrite (IH b).
Qed.

Lemma BuildBinlogKeys_inj store cluster u f f' keys keys' :
  BuildBinlogKeys store cluster u f = Ok keys -> BuildBinlogKeys store cluster u f' = Ok keys' ->
  bk_ManifestKey keys = bk_ManifestKey keys' -> f = f'.
Proof.
  unfold BuildBinlogKeys. destruct (String.eqb (os_Bucket store) ""); [done|].
  repeat match goal with |- context [if ?b then _ else _] => destruct b; [done|] end.
  intros [= <-] [= <-] Heq. cbn in Heq. by apply append_cancel_r, append_cancel in Heq.
Qed.

Section Truth.
Context {T : Type} `{gtidOps T} `{Versioning} (SumHex : string -> string) (a : Archiver) (allow : option FileFilter).
Context (P : string -> string -> Prop).

Definition keys_of (f : string) : result BinlogKeys :=
  BuildBinlogKeys (ar_objectStore a) (ar_clusterName a) (ar_serverUUID a) f.

(** The manifests stored for this server's files are true. *)
Definition truthful (st : Store) : Prop :=
  forall f keys m, keys_of f = Ok keys -> st !! bk_ManifestKey keys = Some (OManifest m) -> P f (bm_GTIDSet m).

(** The scanner tells the truth, and the other writers store no false manifest. *)
Definition honest (env : Env) : Prop :=
  (forall n f s, e_scan env n f = Ok s -> P f (sr_GTIDSet s)) /\ forall n st, truthful st -> truthful (e_others env n st).

(** What the process remembers is true. *)
Definition memo_true (memo : Memo) : Prop :=
  map_Forall (fun f stamp => P f (bm_GTIDSet (at_meta stamp))) (mm_verified memo) /\
  map_Forall (fun f c => P f (sr_GTIDSet (sc_scan c))) (mm_deferredScans memo).

(** The filter accepted the file on its true contents. *)
Definition accepted (f : string) : Prop :=
  exists scan, P f (sr_GTIDSet scan) /\ forall g, allow = Some g -> exists n, g n f scan = Ok true.

Context (env : Env).

(** The bytes of a file as some read of this pass had them. *)
Definition read_as (f bytes : string) : Prop := exists n, e_read env n f = Ok bytes.

(** The writes of a pass: at the key of a file's body its bytes, at the key of its
    manifest its name, its true GTID set and the checksum and size of its bytes, and
    the status and the index at their own keys.  A body and its manifest come from two
    reads. *)
Definition true_write (k : string) (o : object) : Prop :=
  match o with
  | OBody bytes => exists f keys, keys_of f = Ok keys /\ k = bk_BinlogKey keys /\ accepted f /\ read_as f bytes
  | OManifest m => exists f keys, keys_of f = Ok keys /\ k = bk_ManifestKey keys /\ P f (bm_GTIDSet m) /\
      bm_BinlogName m = f /\ bm_ServerUUID m = ar_serverUUID a /\
      exists bytes, read_as f bytes /\ bm_SHA256 m = SumHex bytes /\ bm_SizeBytes m = Z.of_nat (String.length bytes)
  | OStatus _ => k = statusKey a
  | OIndex _ => k = indexKey a
  end.

(** ** A program logic for the pass *)

(** From a truthful store, [m] makes only true writes, leaves a truthful store
    and returns a value in [Q]. *)
Definition does {A} (m : IO A) (Q : A -> Prop) : Prop :=
  forall w w' x, honest env -> truthful (w_store w) -> m env w = (w', x) ->
    truthful (w_store w') /\ Q x /\
    exists new, w_log w' = w_log w ++ new /\ Forall (fun wr => true_write (wr_key wr) (wr_new wr)) new.

Lemma does_ret {A} (x : A) (Q : A -> Prop) : Q x -> does (ret x) Q.
Proof. intros HQ w w' y _ Ht [= <- <-]. split_and!; [done..|]. exists []. by rewrite app_nil_r. Qed.

Lemma does_bind {A B} (m : IO A) (k : A -> IO B) Q R : does m Q -> (forall x, Q x -> does (k x) R) -> does (bind m k) R.
Proof.
  intros Hm Hk w w' y He Ht Hrun. apply bind_inv in Hrun as (w1 & x & H1 & H2).
  destruct (Hm _ _ _ He Ht H1) as (Ht1 & HQ & new1 & Hl1 & Hn1).
  destruct (Hk x HQ _ _ _ He Ht1 H2) as (Ht2 & HR & new2 & Hl2 & Hn2). split_and!; [done..|].
  exists (new1 ++ new2). rewrite Hl2, Hl1, <- app_assoc. by rewrite Forall_app.
Qed.

Lemma does_mono {A} (m : IO A) (Q R : A -> Prop) : does m Q -> (forall x, Q x -> R x) -> does m R.
Proof. intros Hm HQR w w' x He Ht Hrun. destruct (Hm _ _ _ He Ht Hrun) as (? & ? & ?). eauto. Qed.

Lemma does_quiet {A} (m : IO A) : quiet m -> does m (fun _ => True).
Proof.
  intros Hq w w' x _ Ht Hrun. destruct (Hq env w) as (H1 & _ & H3). rewrite Hrun in H1, H3. cbn in H1, H3.
  rewrite H1, H3. split_and!; [done..|]. exists []. by rewrite app_nil_r.
Qed.

Lemma does_ask {A} (f : Env -> nat -> A) (Q : A -> Prop) :
  (forall n, honest env -> Q (f env n)) -> does (ask f) Q.
Proof. intros HQ w w' x He Ht [= <- <-]. split_and!; [done|auto|]. exists []. by rewrite app_nil_r. Qed.

Lemma does_ask_any {A} (f : Env -> nat -> A) : does (ask f) (fun _ => True).
Proof. by apply does_ask. Qed.

Lemma does_request : does request (fun _ => True).
Proof. intros w w' x [_ He] Ht Hrun. inv_io. split_and!; [by apply He|done|]. exists []. by rewrite app_nil_r. Qed.

Lemma does_land k o : true_write k o -> does (land_put k o) (fun _ => True).
Proof.
  intros Hk w w' x _ Ht Hrun. inv_io. cbn. split_and!; [|done|].
  - intros f keys m Hkeys. destruct (decide (bk_ManifestKey keys = k)) as [<-|Hne]; [|rewrite lookup_insert_ne by done; by apply Ht].
    rewrite lookup_insert_eq. intros [= ->]. destruct Hk as (f' & keys' & Hkeys' & Heq & HP & _).
    by rewrite (BuildBinlogKeys_inj _ _ _ _ _ _ _ Hkeys Hkeys' Heq).
  - eexists [_]. split; [done|]. by constructor.
Qed.

Lemma does_lookup k : does (lookup_key k) (fun o =>
  forall f keys m, keys_of f = Ok keys -> k = bk_ManifestKey keys -> o = Some (OManifest m) -> P f (bm_GTIDSet m)).
Proof.
  intros w w' x _ Ht Hrun. inv_io. split_and!; [done| |exists []; by rewrite app_nil_r].
  intros f keys m Hk -> Ho. by apply (Ht f keys m).
Qed.

#[local] Hint Resolve does_request does_ask_any : does.

Lemma does_put k o : true_write k o -> does (put_object k o) (fun _ => True).
Proof.
  intros Hk. unfold put_object. eapply does_bind; [apply does_request|]. intros [|e|e] _.
  - eapply does_bind; [by apply does_land|]. intros _ _. by apply does_ret.
  - by apply does_ret.
  - eapply does_bind; [by apply does_land|]. intros _ _. by apply does_ret.
Qed.

Lemma does_Exists k : does (Exists k) (fun _ => True).
Proof.
  eapply does_bind; [apply does_request|]. intros [|e|e] _; [|by apply does_ret..].
  eapply does_bind; [apply does_lookup|]. intros o _. by apply does_ret.
Qed.

(** A manifest read back is true. *)
Lemma does_GetManifest f keys :
  keys_of f = Ok keys -> does (GetJSON (A := BinlogMetadata) (bk_ManifestKey keys)) (fun r => forall m, r = Ok m -> P f (bm_GTIDSet m)).
Proof.
  intros Hk. eapply does_bind; [apply does_request|]. intros [|e|e] _; [|by apply does_ret..].
  eapply does_bind; [apply does_lookup|]. intros o Ho. apply does_ret. intros m Hm. apply (Ho f keys m Hk eq_refl).
  destruct o as [[| m' | |]|]; simplify_eq/=; done.
Qed.

Lemma does_GetJSON {A} `{JSON A} k : does (GetJSON k) (fun _ => True).
Proof.
  eapply does_bind; [apply does_request|]. intros [|e|e] _; [|by apply does_ret..].
  eapply does_bind; [apply does_lookup|]. intros o _. by apply does_ret.
Qed.

Lemma does_GetJSONVersion {A} `{JSON A} (z : A) k : does (GetJSONVersion z k) (fun _ => True).
Proof.
  eapply does_bind; [apply does_request|]. intros [|e|e] _; [|by apply does_ret..].
  eapply does_bind; [apply does_lookup|]. intros o _. by apply does_ret.
Qed.

Lemma does_PutJSONIf (v : ArchiveIndex) etag : does (PutJSONIf (indexKey a) v etag) (fun _ => True).
Proof.
  assert (forall c, does (put c etag (indexKey a) (Marshal v)) (fun _ => True)) as Hput.
  { intros c. eapply does_bind; [apply does_request|]. intros out _. eapply does_bind; [apply does_lookup|]. intros o _.
    eapply does_bind; [by apply does_quiet|]. intros s _. cbv zeta.
    destruct out; repeat match goal with |- context [if ?b then _ else _] => destruct b end; try by apply does_ret.
    all: eapply does_bind; [by apply does_land|intros _ _; by apply does_ret]. }
  eapply does_bind; [by apply does_quiet|]. intros memo _. eapply does_bind; [apply Hput|]. intros answer _.
  eapply (does_bind _ _ (fun _ => True)); [|intros; by apply does_ret].
  destruct (_ && _); [|by apply does_ret]. apply (does_bind _ _ (fun _ => True)); [|intros _ _; apply Hput].
  intros w w' x _ Ht Hrun. inv_io. split_and!; [done..|]. exists []. by rewrite app_nil_r.
Qed.

Lemma does_update_loop {R} (mutate : R -> ArchiveIndex -> bool -> IO (R * result (ArchiveIndex * bool))) n r :
  (forall r i b, quiet (mutate r i b)) -> does (update_loop n (indexKey a) mutate r) (fun _ => True).
Proof.
  intros Hq. revert r. induction n as [|n IH]; intros r; cbn [update_loop]; [by apply does_ret|].
  eapply does_bind; [apply does_GetJSONVersion|]. intros [[[i etag] ex]|e] _; [|by apply does_ret].
  eapply does_bind; [apply does_quiet, Hq|]. intros [r2 [[i2 []]|e]] _; [|by apply does_ret..].
  eapply does_bind; [apply does_PutJSONIf|]. intros [[]|e] _; [by apply does_ret|].
  destruct e; first [by apply does_ret|apply IH].
Qed.

(** ** One file *)

Lemma does_read f : does (ask (fun env n => e_read env n f)) (fun r => forall bytes, r = Ok bytes -> read_as f bytes).
Proof. apply does_ask. intros n _ bytes Hb. by exists n. Qed.

Lemma does_hashFile f : does (hashFile SumHex f) (fun r => forall sum size, r = Ok (sum, size) ->
  exists bytes, read_as f bytes /\ sum = SumHex bytes /\ size = Z.of_nat (String.length bytes)).
Proof.
  eapply does_bind; [apply does_read|]. intros [b|e] Hb; apply does_ret; [|done]. intros sum size [= <- <-]. exists b. auto.
Qed.

(** What a file's archiving promises. *)
Definition file_done (f : string) (x : Memo * result (BinlogMetadata * bool)) : Prop :=
  memo_true (fst x) /\ forall m b, snd x = Ok (m, b) -> P f (bm_GTIDSet m).

Lemma memo_true_verified memo f st m :
  memo_true memo -> P f (bm_GTIDSet m) -> memo_true (with_verified memo f (mkArchivedStamp st m)).
Proof. intros [Hv Hs] Hm. split; [|done]. by apply map_Forall_insert_2. Qed.

Lemma does_ship f keys st scan memo :
  keys_of f = Ok keys -> memo_true memo -> P f (sr_GTIDSet scan) -> accepted f ->
  does (ship SumHex a keys f st scan memo) (file_done f).
Proof.
  intros Hk Hm Hs Hacc. assert (forall e, file_done f (memo, Err e)) as Herr by done.
  assert (forall s (e : error), file_done f (memo, wrapf s (Err e))) as Herr' by (intros s e; split; [done|by destruct e]).
  unfold ship. cbv zeta. eapply does_bind; [apply does_hashFile|]. intros [[sum size]|e] Hsum; [|by apply does_ret].
  eapply does_bind; [apply does_ask_any|]. intros at_ _.
  eapply does_bind; [apply does_read|]. intros [bytes|e] Hb; [|by apply does_ret].
  eapply does_bind; [apply does_put; exists f, keys; auto|]. intros [[]|e] _; [|by apply does_ret].
  eapply does_bind; [apply does_put; exists f, keys; auto 10|]. intros [[]|e] _; [|by apply does_ret].
  apply does_ret. split; [by apply memo_true_verified|]. by intros m b [= <- <-].
Qed.

Lemma does_verify f keys st memo :
  keys_of f = Ok keys -> memo_true memo -> does (verify SumHex keys f st memo) (file_done f).
Proof.
  intros Hk Hm. assert (forall e, file_done f (memo, Err e)) as Herr by done.
  unfold verify. cbv zeta. eapply does_bind; [by apply (does_GetManifest f)|].
  intros [m|e] HP; [|apply does_ret; split; [done|by destruct e]]. specialize (HP m eq_refl).
  eapply does_bind; [apply does_hashFile|]. intros [[sum size]|e] _; [|by apply does_ret].
  destruct (_ && _); [by apply does_ret|]. apply does_ret. split; [by apply memo_true_verified|]. by intros m' b [= <- <-].
Qed.

(** A scan, fresh or remembered, is true. *)
Lemma does_scan f memo st :
  memo_true memo ->
  does (match mm_deferredScans memo !! f with
        | Some cached =>
            if matches (sc_info cached) st then ret (Ok (sc_scan cached)) else ask (fun env n => e_scan env n f)
        | None => ask (fun env n => e_scan env n f)
        end) (fun r => forall s, r = Ok s -> P f (sr_GTIDSet s)).
Proof.
  intros [_ Hs]. assert (does (ask (fun env n => e_scan env n f)) (fun r => forall s, r = Ok s -> P f (sr_GTIDSet s))) as Hask.
  { apply does_ask. intros n [He _] s. apply He. }
  destruct (mm_deferredScans memo !! f) as [c|] eqn:E; [|done]. destruct (matches _ _); [|done].
  apply does_ret. intros s [= <-]. by apply (Hs f c).
Qed.

Lemma does_filter f scan :
  does (match allow with Some g => ask (fun _ n => g n f scan) | None => ret (Ok true) end)
    (fun r => r = Ok true -> forall g, allow = Some g -> exists n, g n f scan = Ok true).
Proof.
  destruct allow as [g|]; [|by apply does_ret]. intros w w' x _ Ht [= <- <-].
  split_and!; [done| |exists []; by rewrite app_nil_r]. intros Hg g' [= <-]. eauto.
Qed.

Lemma does_archive_unverified f keys st memo :
  keys_of f = Ok keys -> memo_true memo -> does (archive_unverified SumHex a keys f allow st memo) (file_done f).
Proof.
  intros Hk Hm. assert (forall e, file_done f (memo, Err e)) as Herr by done.
  assert (forall s (e : error), file_done f (memo, wrapf s (Err e))) as Herr' by (intros s e; split; [done|by destruct e]).
  unfold archive_unverified. eapply does_bind; [apply does_Exists|]. intros [[]|e] _; [by apply does_verify| |by apply does_ret].
  eapply does_bind; [by apply does_scan|]. intros [scan|e] Hscan; [|by apply does_ret]. specialize (Hscan scan eq_refl).
  eapply does_bind; [apply does_filter|]. intros [[]|e] Hf; [| |by apply does_ret].
  - apply does_ship; [done| |done|exists scan; auto]. destruct Hm as [Hv Hs]. split; [done|]. by apply map_Forall_delete.
  - apply does_ret. split; [|done]. destruct Hm as [Hv Hs]. split; [done|]. by apply map_Forall_insert_2.
Qed.

Lemma does_archiveFileAllowed l memo :
  memo_true memo -> does (archiveFileAllowed SumHex a l allow memo) (file_done (bl_Name l)).
Proof.
  intros Hm. unfold archiveFileAllowed. cbv zeta. destruct (BuildBinlogKeys _ _ _ _) as [keys|e] eqn:Ek; [|by apply does_ret].
  eapply does_bind; [apply does_ask_any|]. intros [st|e] _; [|apply does_ret; split; [done|by destruct e]].
  destruct (mm_verified memo !! bl_Name l) as [stamp|] eqn:Ev; [|by apply does_archive_unverified].
  destruct (matches _ _); [|by apply does_archive_unverified]. apply does_ret. split; [done|].
  intros m b [= <- <-]. destruct Hm as [Hv _]. by apply (Hv (bl_Name l) stamp).
Qed.

(** ** The pass *)

Definition reported (r : ArchiveResult) : Prop := Forall (fun f => P (af_Name f) (af_GTIDSet f)) (ars_Files r).
Definition pass_true (s : PassState (T := T)) : Prop := memo_true (pa_memo s) /\ reported (pa_result s).

Lemma does_loadStatus : does (loadStatus a) (fun _ => True).
Proof.
  unfold loadStatus. cbv zeta. eapply does_bind; [apply does_Exists|]. intros [[]|e] _; [|by apply does_ret..].
  eapply does_bind; [apply does_GetJSON|]. intros [s|e] _; by apply does_ret.
Qed.

Lemma does_seedIndexed memo : memo_true memo -> does (seedIndexed a memo) (fun x => memo_true (fst x)).
Proof.
  intros Hm. unfold seedIndexed. destruct (mm_indexSeeded memo); [by apply does_ret|].
  eapply does_bind; [apply does_GetJSONVersion|]. intros [[[i etag] ex]|e] _; by apply does_ret.
Qed.

Lemma does_commit_file f m s : pass_true s -> does (commit_file a f m s) (fun x => pass_true (fst x)).
Proof.
  intros [Hm Hr]. unfold commit_file. eapply does_bind; [apply does_ask_any|]. intros at_ _. cbv zeta.
  eapply does_bind; [by apply does_put|]. intros [[]|e] _; [|by apply does_ret].
  eapply does_bind.
  { unfold updateIndex. eapply does_bind; [apply does_update_loop, fold_mutation_quiet|]. intros [p err] _.
    by apply (does_ret _ (fun _ => True)). }
  intros [p [[]|e]] _; by apply does_ret.
Qed.

Lemma does_archive_step l s : pass_true s -> does (archive_step SumHex a allow l s) (fun x => pass_true (fst x)).
Proof.
  intros Hs. unfold archive_step. eapply does_bind; [apply does_ask_any|]. intros [e|] _; [by apply does_ret|].
  eapply (does_bind _ _ (fun x => memo_true (fst x) /\ forall m b d, snd x = Ok (m, b, d) -> d = false -> P (bl_Name l) (bm_GTIDSet m))).
  { unfold archiveFile. eapply does_bind; [apply does_archiveFileAllowed, Hs|]. intros [m1 r1] [Hm1 Hr1]. apply does_ret.
    split; [done|]. cbn. intros m b d Heq ->. destruct r1 as [[m' b']|[]]; simplify_eq; by eapply Hr1. }
  intros [m1 r1] [Hm1 Hr1]. cbv zeta. cbn [fst snd] in *. destruct Hs as [_ Hs].
  destruct r1 as [[[m b] []]|e]; [by apply does_ret| |by apply does_ret]. specialize (Hr1 m b false eq_refl eq_refl).
  eapply does_bind; [|intros [m2 r2] Hm2].
  { instantiate (1 := fun x => memo_true (fst x)). destruct (_ && _); [by apply does_seedIndexed|by apply does_ret]. }
  assert (reported (note_file (pa_result s) (bl_Name l) m b)) as Hrep.
  { unfold reported. cbn. rewrite Forall_app. split; [done|]. by constructor. }
  destruct r2 as [[]|e]; [|by apply does_ret]. unfold fold_coverage. destruct (wrapf _ _) as [fs|e]; [|by apply does_ret].
  cbv zeta. match goal with |- does (if ?c then _ else _) _ => destruct c end; [by apply does_commit_file|by apply does_ret].
Qed.

Lemma does_archive_loop logs s : pass_true s -> does (archive_loop SumHex a allow logs s) (fun x => pass_true (fst x)).
Proof.
  revert s. induction logs as [|l logs IH]; intros s Hs; cbn [archive_loop]; [by apply does_ret|].
  eapply does_bind; [by apply does_archive_step|]. intros [s1 [|e]] Hs1; [by apply IH|by apply does_ret].
Qed.

Lemma does_archivePending logs pass memo :
  memo_true memo ->
  does (archivePending SumHex a logs allow pass memo) (fun x => memo_true (fst x) /\ reported (fst (snd x))).
Proof.
  intros Hm. unfold archivePending. eapply does_bind; [apply does_loadStatus|].
  intros [status|e] _; [|apply does_ret; split; [done|by apply Forall_nil]].
  destruct (wrapf _ _) as [covered|e]; [|apply does_ret; split; [done|by apply Forall_nil]]. cbv zeta.
  eapply does_bind; [apply does_archive_loop; split; [done|by apply Forall_nil]|]. intros [s err] [Hm' Hr']. by apply does_ret.
Qed.

Lemma does_CheckArchive through : does (CheckArchive a through) (fun _ => True).
Proof.
  unfold CheckArchive. destruct (ar_forks a) as [src|]; [|by apply does_ret].
  eapply does_bind; [apply does_quiet; unfold Authority; destruct (ar_authority a); [apply quiet_ask|apply quiet_ret]|].
  intros [gen ok] _. destruct ok; [|by apply does_ret]. cbn [negb].
  eapply does_bind; [apply does_quiet, load_quiet|]. intros [p r] _. destruct (wrapf _ r) as [judge|e]; [|by apply does_ret].
  destruct (_ && _); [by apply does_ret|]. cbv zeta.
  eapply does_bind; [apply does_update_loop, check_mutation_quiet|]. intros [st err] _. destruct err; by apply does_ret.
Qed.

Lemma does_HasSegment : does (HasSegment a) (fun _ => True).
Proof. eapply does_bind; [apply does_loadStatus|]. intros [s|e] _; by apply does_ret. Qed.
End Truth.

(** ** Properties *)

(** C18: For any truth about the local files that the scanner reports and that the
    other writers of the archive respect: a pass (of the primary or a drain) that
    starts from true manifests and memories ends with them, and reports the true GTID
    set of every file it went through, even when it stops with an error.  Everything it
    writes is at the key of a file of this server that its filter accepted on its true
    contents, the bytes it read of it; or at the key of a file's manifest, naming the
    file, its true GTID set and the checksum and size of bytes it read; or the status
    or the index, each at its own key. *)
Theorem archive_describes_its_files {T} `{gtidOps T} `{Versioning} SumHex a allow (P : string -> string -> Prop) logs pass memo
    env w w' memo' res err :
  honest a P env -> truthful a P (w_store w) -> memo_true P memo ->
  archivePending SumHex a logs allow pass memo env w = (w', (memo', (res, err))) ->
  truthful a P (w_store w') /\ memo_true P memo' /\ Forall (fun f => P (af_Name f) (af_GTIDSet f)) (ars_Files res) /\
  exists new, w_log w' = w_log w ++ new /\ Forall (fun wr => true_write SumHex a allow P env (wr_key wr) (wr_new wr)) new.
Proof.
  intros He Ht Hm Hrun. destruct (does_archivePending SumHex a allow P env logs pass memo Hm _ _ _ He Ht Hrun) as (? & [? ?] & ?). done.
Qed.

(** The file of the sample pass holds a:1-5. *)
Lemma archive_describes_its_files_witness :
  ars_Files (fst (snd (snd Fresh.run))) = [mkArchivedFile "binlog.000001" "a:1-5"] /\
  truthful Sample.archiver (fun _ gs => gs = "a:1-5") (w_store (fst Fresh.run)).
Proof.
  split; [vm_compute; reflexivity|].
  apply (archive_describes_its_files (T := GTIDSet) (H0 := ContentTags.tags) Fresh.sum Sample.archiver None
    (fun _ gs => gs = "a:1-5") Fresh.logs Sample.pass Fresh.memo Sample.env Sample.start _ _ _ _) with (4 := Fresh.run_eq).
  - split; [|intros n st Hst; exact Hst]. intros n f s [= <-]. reflexivity.
  - intros f keys m _ Hm. cbn in Hm. by rewrite lookup_empty in Hm.
  - split; intros f x Hx; cbn in Hx; by rewrite lookup_empty in Hx.
Defined.
