(* ===== verification/ArchiveLoop.v ===== *)
(** * The archive loop

    [pkg/management/mysql/binlog/loop.go]: the in-Pod loop that drives the
    archiver.  A tick of the writable primary rotates the active log when it is
    due, ships the rotated logs, checks the archive for forks and purges the logs
    every instance has applied; a tick of any other instance at most drains the
    logs it stranded when it stopped being primary.

    The local server, the replication probe, the other instances' positions and
    the view of the Cluster answer by call number.  The statements the loop
    executes on the server are recorded in order. *)

From Stdlib Require Import ZArith Lia Bool Ascii String.
From stdpp Require Import base list strings gmap sorting.
From S2P Require Import Prelude GoStrings Gtid GtidText GtidModel MariaGtid MariaTimeline.
From S2P Require Import Archive Forks GtidOps ObjectStore BinlogFiles Archiver ArchiverIndex ArchiverPass.

Local Open Scope Z_scope.

(** ** What the loop is given *)

(** The answers of the local server: [@@GLOBAL.super_read_only] and
    [@@GLOBAL.read_only] (an SQL NULL is read as the empty string), the name and
    size columns of SHOW BINARY LOGS, and the end of a statement. *)
Record Reader := mkReader {
  rd_super_read_only : nat -> result string;
  rd_read_only : nat -> result string;
  rd_rows : nat -> result (list (string * string));
  rd_Exec : nat -> result unit
}.

(** [ReplicaFloor.Positions]: the applied positions, the instances whose position
    is unknown, and whether the cluster was observed. *)
Definition ReplicaFloor : Type := nat -> gmap string string * list string * bool.
(** [ReplicationProbe.Streaming]. *)
Definition ReplicationProbe : Type := nat -> result bool.

Record ClusterView := mkClusterView {
  cv_Primary : nat -> string * string * bool;
  cv_Diverged : nat -> string -> bool;
  cv_Timeline : nat -> MariaDBTimeline * bool
}.

(** The fixed part of the loop. *)
Record Loop := mkLoop {
  lp_reader : Reader;
  lp_archiver : Archiver;
  lp_replication : option ReplicationProbe;
  lp_cluster : option ClusterView;
  lp_instance : string;
  lp_mariadb : bool;
  lp_flushInterval : Duration;
  lp_purge : bool;
  lp_floor : option ReplicaFloor
}.

(** ** State *)

Record State := mkState {
  ls_Active : bool;
  ls_LastArchivedBinlog : string;
  ls_LastArchivedGTID : string;
  ls_LastArchivedTime : Time;
  ls_PendingFiles : Z;
  ls_LastError : option error;
  ls_LastErrorTime : Time;
  ls_PurgeHeldBy : list string;
  ls_PurgeHeldSince : Time;
  ls_purgeHeldFile : string;
  ls_Forks : list SegmentFork;
  ls_ForkCheckedAt : Time;
  ls_ForkCheckGeneration : Z;
  ls_OldestSegmentPosition : string;
  ls_Disowned : string;
  ls_Gaps : list string;
  ls_Covered : string;
  ls_Timeline : list ArchiveEpoch;
  ls_DeferredFile : string
}.

Definition State_zero : State := mkState false "" "" 0 0 None 0 [] 0 "" [] 0 0 "" "" [] "" [] "".

(** A statement executed on the server. *)
Inductive statement := FlushedLogs | PurgedTo (file : string).

(** The loop's own variables ([Loop]'s mutable fields and [Run]'s locals), the
    archiver's memos, and the statements executed so far. *)
Record Vars := mkVars {
  lv_state : State;
  lv_memo : Memo;
  lv_forkChecked : bool;
  lv_lastCheck : Time;
  lv_flushedAt : Time;
  lv_flushedActive : string;
  lv_flushedSize : Z;
  lv_stampedThrough : Time;
  lv_lastFlush : Time;
  lv_lastFlushSize : Z;
  lv_sql : list statement
}.

Definition with_state (v : Vars) (s : State) : Vars :=
  mkVars s (lv_memo v) (lv_forkChecked v) (lv_lastCheck v) (lv_flushedAt v) (lv_flushedActive v) (lv_flushedSize v)
    (lv_stampedThrough v) (lv_lastFlush v) (lv_lastFlushSize v) (lv_sql v).
Definition with_memo' (v : Vars) (m : Memo) : Vars :=
  mkVars (lv_state v) m (lv_forkChecked v) (lv_lastCheck v) (lv_flushedAt v) (lv_flushedActive v) (lv_flushedSize v)
    (lv_stampedThrough v) (lv_lastFlush v) (lv_lastFlushSize v) (lv_sql v).
Definition executed (v : Vars) (s : statement) : Vars :=
  mkVars (lv_state v) (lv_memo v) (lv_forkChecked v) (lv_lastCheck v) (lv_flushedAt v) (lv_flushedActive v)
    (lv_flushedSize v) (lv_stampedThrough v) (lv_lastFlush v) (lv_lastFlushSize v) (lv_sql v ++ [s]).
Definition with_lastFlush (v : Vars) (t : Time) (size : Z) : Vars :=
  mkVars (lv_state v) (lv_memo v) (lv_forkChecked v) (lv_lastCheck v) (lv_flushedAt v) (lv_flushedActive v)
    (lv_flushedSize v) (lv_stampedThrough v) t size (lv_sql v).
Definition with_check (v : Vars) (checked : bool) (last stamped : Time) : Vars :=
  mkVars (lv_state v) (lv_memo v) checked last (lv_flushedAt v) (lv_flushedActive v) (lv_flushedSize v)
    stamped (lv_lastFlush v) (lv_lastFlushSize v) (lv_sql v).
Definition with_flushed (v : Vars) (at_ : Time) (active : string) (size : Z) : Vars :=
  mkVars (lv_state v) (lv_memo v) (lv_forkChecked v) (lv_lastCheck v) at_ active size
    (lv_stampedThrough v) (lv_lastFlush v) (lv_lastFlushSize v) (lv_sql v).

(** Records a failure in the state. *)
Definition fail (v : Vars) (e : error) : IO Vars :=
  do! at_ := now in
  let s := lv_state v in
  ret (with_state v (mkState (ls_Active s) (ls_LastArchivedBinlog s) (ls_LastArchivedGTID s) (ls_LastArchivedTime s)
    (ls_PendingFiles s) (Some e) at_ (ls_PurgeHeldBy s) (ls_PurgeHeldSince s) (ls_purgeHeldFile s) (ls_Forks s)
    (ls_ForkCheckedAt s) (ls_ForkCheckGeneration s) (ls_OldestSegmentPosition s) (ls_Disowned s) (ls_Gaps s)
    (ls_Covered s) (ls_Timeline s) (ls_DeferredFile s))).

(** ** The reader *)

Definition parseMySQLBool (s : string) : bool :=
  existsb (String.eqb s) ["1"; "ON"; "on"; "true"; "TRUE"; "Yes"; "YES"].

(** [super_read_only], or [read_only] on a server without it. *)
Definition Writable (r : Reader) : IO (result bool) :=
  do! value := ask (fun _ n => rd_super_read_only r n) in
  match value with
  | Ok v => ret (Ok (negb (parseMySQLBool v)))
  | Err _ =>
      try! v := ask (fun _ n => rd_read_only r n)
        else (fun e => wrapf "binlog: reading read_only flags" (Err e)) in
      ret (Ok (negb (parseMySQLBool v)))
  end.

Definition log_entry (row : string * string) : BinaryLog :=
  mkBinaryLog (fst row) (match ParseInt (snd row) with Some v => v | None => 0 end) false.

(** The named rows, the active log flagged. *)
Definition listing (rows : list (string * string)) : list BinaryLog :=
  MarkActive (List.filter (fun l => negb (String.eqb (bl_Name l) "")) (log_entry <$> rows)).

Definition ListBinaryLogs (r : Reader) : IO (result (list BinaryLog)) :=
  try! rows := ask (fun _ n => rd_rows r n) else (fun e => wrapf "binlog: SHOW BINARY LOGS" (Err e)) in
  ret (Ok (listing rows)).

Definition FlushLogs (r : Reader) (v : Vars) : IO (Vars * result unit) :=
  try! _ := ask (fun _ n => rd_Exec r n) else (fun e => (v, wrapf "binlog: flushing logs" (Err e))) in
  ret (executed v FlushedLogs, Ok tt).

Definition PurgeLogsTo (r : Reader) (v : Vars) (upTo : string) : IO (Vars * result unit) :=
  match PurgeLogsStatement upTo with
  | Err e => ret (v, Err e)
  | Ok _ =>
      try! _ := ask (fun _ n => rd_Exec r n) else (fun e => (v, wrapf "binlog: purging logs" (Err e))) in
      ret (executed v (PurgedTo upTo), Ok tt)
  end.

(** ** The purge gate *)

Record purgeHold := mkPurgeHold { ph_file : string; ph_by : list string }.
Record purgePlan := mkPurgePlan { pp_to : string; pp_held : purgeHold }.

Definition no_hold : purgeHold := mkPurgeHold "" [].
Definition no_purge : purgePlan := mkPurgePlan "" no_hold.

Fixpoint files_before (limit : string) (files : list ArchivedFile) : list ArchivedFile :=
  match files with
  | [] => []
  | f :: files' => if String.eqb (af_Name f) limit then [] else f :: files_before limit files'
  end.

Section Purge.
Context {T : Type} `{gtidOps T}.

Definition parse_position (x : string * string) : result (string * T) :=
  let? s := wrapf "parsing the gtid position" (go_Parse (snd x)) in Ok (fst x, s).

(** The loop over the candidates: the first one that some instance lacks. *)
Fixpoint purge_loop (applied : list (string * T)) (limit : string) (candidates : list ArchivedFile) (first : bool)
  : result purgePlan :=
  match candidates with
  | [] => Ok (mkPurgePlan limit no_hold)
  | f :: candidates' =>
      let? fileSet := wrapf "parsing the gtid set" (go_Parse (af_GTIDSet f)) in
      let by_ := fst <$> List.filter (fun x => negb (go_Contains (snd x) fileSet)) applied in
      match by_ with
      | [] => purge_loop applied limit candidates' false
      | _ => Ok (mkPurgePlan (if first then "" else af_Name f) (mkPurgeHold (af_Name f) by_))
      end
  end.

Definition planPurge (l : Loop) (logs : list BinaryLog) (res : ArchiveResult) : IO (result purgePlan) :=
  let limit := fileBefore logs (ars_LastArchivedBinlog res) in
  match lp_floor l with
  | None => ret (Ok no_purge)
  | Some floor =>
      if String.eqb limit "" then ret (Ok no_purge)
      else
        match files_before limit (ars_Files res) with
        | [] => ret (Ok no_purge)
        | (f :: _) as candidates =>
            do! (positions, unknown, ok) := ask (fun _ n => floor n) in
            if negb ok then ret (Ok no_purge)
            else if Nat.ltb 0 (length unknown) then
              ret (Ok (mkPurgePlan "" (mkPurgeHold (af_Name f) (isort String.leb unknown))))
            else
              ret (let? applied := map_result parse_position (map_to_list positions) in
                   purge_loop (isort (fun a b => String.leb (fst a) (fst b)) applied) limit candidates true)
        end
  end.
End Purge.

(** ** The drain gate *)

(** [onSurvivingTimeline]: a stranded file may enter the archive only when the
    surviving timeline provably holds it. *)
Definition onSurvivingTimeline (l : Loop) (n : nat) (_ : string) (scan : ScanResult) : result bool :=
  match lp_cluster l with
  | None => Ok false
  | Some cluster =>
      let '(primary, position, ok) := cv_Primary cluster n in
      if negb ok || String.eqb primary "" || String.eqb primary (lp_instance l) || String.eqb position "" then Ok false
      else if String.eqb (sr_GTIDSet scan) "" then Ok true
      else if negb (lp_mariadb l) then GTIDContains position (sr_GTIDSet scan)
      else
        let '(timeline, ok) := cv_Timeline cluster n in
        if negb ok then Ok false
        else
          let? file := ParseMariaDBPosition (sr_GTIDSet scan) in
          let? held := ParseMariaDBPosition position in
          let reached : gmap Z Z := list_to_map (reverse ((fun g => (g_Domain g, g_Seq g)) <$> held)) in
          Ok (forallb (fun g => let '(on, known) := Timeline_Verdict timeline g in
                                on && known && (g_Seq g <=? default 0 (reached !! g_Domain g))) file)
  end.

(** ** The fork check of a tick *)

Definition archivedThroughResolution : Duration := 60 * 1000000000.

(** The time before which everything this primary committed is archived; zero
    when it cannot tell. *)
Definition archivedThrough (v : Vars) (logs : list BinaryLog) (res : ArchiveResult) (listedAt : Time) : Time :=
  if String.eqb (lv_flushedActive v) "" || negb (String.eqb (ars_Deferred res) "")
     || (0 <? pendingAfter logs (ars_LastArchivedBinlog res)) then 0
  else
    let active := activeLog logs in
    if String.eqb (bl_Name active) (lv_flushedActive v) && (bl_SizeBytes active =? lv_flushedSize v) then listedAt
    else lv_flushedAt v.

(** The fork fields of the state. *)
Record ForkFields := mkForkFields {
  ff_Forks : list SegmentFork;
  ff_CheckedAt : Time;
  ff_CheckGeneration : Z;
  ff_Oldest : string;
  ff_Disowned : string;
  ff_Gaps : list string;
  ff_Covered : string;
  ff_Timeline : list ArchiveEpoch
}.
Definition fork_fields (s : State) : ForkFields :=
  mkForkFields (ls_Forks s) (ls_ForkCheckedAt s) (ls_ForkCheckGeneration s) (ls_OldestSegmentPosition s)
    (ls_Disowned s) (ls_Gaps s) (ls_Covered s) (ls_Timeline s).

(** What a report changes of the fields. *)
Definition read_report (out : ForkFields) (r : ForkReport) : ForkFields :=
  let out := if fr_Read r
             then mkForkFields (fr_Forks r) (ff_CheckedAt out) (ff_CheckGeneration out) (fr_OldestSegmentPosition r)
                    (fr_Disowned r) (fr_Gaps r) (fr_Covered r) (fr_Timeline r)
             else out in
  if fr_Checked r
  then mkForkFields (ff_Forks out) (fr_CheckedAt r) (fr_Generation r) (ff_Oldest out) (ff_Disowned out)
         (ff_Gaps out) (ff_Covered out) (ff_Timeline out)
  else out.

Section Tick.
Context {T : Type} `{gtidOps T} `{Versioning} (SumHex : string -> string).

(** [Loop.checkForks]: the fork fields the state should carry, and the error. *)
Definition Loop_checkForks (l : Loop) (v : Vars) (report : option ForkReport) (through : Time)
  : IO (Vars * (ForkFields * option error)) :=
  let out := fork_fields (lv_state v) in
  match ar_forks (lp_archiver l) with
  | None => ret (v, (out, None))
  | Some _ =>
      let checked := match report with Some r => fr_Checked r | None => false end in
      let v := match report with
               | Some r => if fr_Checked r then with_check v (lv_forkChecked v) (fr_CheckedAt r) (lv_stampedThrough v) else v
               | None => v
               end in
      let stampDue := negb (IsZero through) && (archivedThroughResolution <=? through - lv_stampedThrough v) in
      do! at_ := now in
      let recheckDue := lp_flushInterval l <=? at_ - lv_lastCheck v in
      do! (v, r) :=
        (if (negb (lv_forkChecked v) || recheckDue || stampDue) && (negb checked || stampDue) then
           let through := if stampDue then through else 0 in
           do! (r, err) := CheckArchive (lp_archiver l) through in
           match err with
           | Some e => ret (v, Err e)
           | None =>
               do! at_ := now in
               let stamped := if negb (IsZero (fr_ArchivedThrough r)) || stampDue then through else lv_stampedThrough v in
               ret (with_check v (lv_forkChecked v) at_ stamped, Ok (Some r))
           end
         else ret (v, Ok report)) in
      match r with
      | Err e => ret (v, (out, Some e))
      | Ok None => ret (v, (out, None))
      | Ok (Some r) =>
          match fr_Err r with
          | Some e => ret (v, (out, Some e))
          | None =>
              let v := if fr_Checked r then with_check v true (lv_lastCheck v) (lv_stampedThrough v) else v in
              ret (v, (read_report out r, None))
          end
      end
  end.

(** ** The drain *)

Definition drain (l : Loop) (v : Vars) : IO Vars :=
  match lp_replication l with
  | None => ret v
  | Some probe =>
      do! mine := HasSegment (lp_archiver l) in
      match mine with
      | Err e => fail v e
      | Ok false => ret v
      | Ok true =>
          do! streaming := ask (fun _ n => probe n) in
          match streaming with
          | Err e => fail v e
          | Ok false => ret v
          | Ok true =>
              do! diverged := (match lp_cluster l with
                               | Some c => ask (fun _ n => cv_Diverged c n (lp_instance l))
                               | None => ret false
                               end) in
              if diverged : bool then ret v
              else
                do! listed := ListBinaryLogs (lp_reader l) in
                match listed with
                | Err e => fail v e
                | Ok logs =>
                    do! (memo, (res, err)) :=
                      DrainPending SumHex (lp_archiver l) logs (onSurvivingTimeline l) (lv_memo v) in
                    let v := with_memo' v memo in
                    match err with
                    | Some e => fail v e
                    | None =>
                        let s := lv_state v in
                        ret (with_state v (mkState (ls_Active s) (ars_LastArchivedBinlog res) (ars_LastArchivedGTID res)
                          (if negb (IsZero (ars_LastArchivedTime res)) then ars_LastArchivedTime res else ls_LastArchivedTime s)
                          (pendingAfter logs (ars_LastArchivedBinlog res)) (ls_LastError s) (ls_LastErrorTime s)
                          (ls_PurgeHeldBy s) (ls_PurgeHeldSince s) (ls_purgeHeldFile s) (ls_Forks s) (ls_ForkCheckedAt s)
                          (ls_ForkCheckGeneration s) (ls_OldestSegmentPosition s) (ls_Disowned s) (ls_Gaps s)
                          (ls_Covered s) (ls_Timeline s) (ars_Deferred res)))
                    end
                end
          end
      end
  end.

(** ** A tick *)

(** Losing writability: this instance no longer speaks for the archive. *)
Definition step_down (v : Vars) : Vars :=
  let s := lv_state v in
  mkVars (mkState false (ls_LastArchivedBinlog s) (ls_LastArchivedGTID s) (ls_LastArchivedTime s) (ls_PendingFiles s)
            (ls_LastError s) (ls_LastErrorTime s) (ls_PurgeHeldBy s) (ls_PurgeHeldSince s) (ls_purgeHeldFile s)
            [] 0 0 "" "" [] "" [] (ls_DeferredFile s))
    (lv_memo v) false (lv_lastCheck v) 0 "" (lv_flushedSize v) 0 0 (lv_lastFlushSize v) (lv_sql v).

(** The rotation: [Err] when the tick ends here, with the failure recorded. *)
Definition rotate (l : Loop) (v : Vars) (logs : list BinaryLog) (listedAt : Time)
  : IO (Vars * result (list BinaryLog * Time)) :=
  if IsZero (lv_lastFlush v) then
    do! at_ := now in ret (with_lastFlush v at_ (-1), Ok (logs, listedAt))
  else
    do! at_ := now in
    if (lp_flushInterval l <=? at_ - lv_lastFlush v) && (lv_lastFlushSize v <? bl_SizeBytes (activeLog logs)) then
      do! flushedAt := now in
      do! (v, flushed) := FlushLogs (lp_reader l) v in
      match flushed with
      | Err e => do! v := fail v e in ret (v, Err e)
      | Ok _ =>
          do! at_ := now in
          let v := with_lastFlush v at_ (lv_lastFlushSize v) in
          do! listedAt := now in
          do! listed := ListBinaryLogs (lp_reader l) in
          match listed with
          | Err e => do! v := fail v e in ret (v, Err e)
          | Ok logs =>
              let size := bl_SizeBytes (activeLog logs) in
              let v := with_lastFlush v (lv_lastFlush v) size in
              ret (with_flushed v flushedAt (bl_Name (activeLog logs)) size, Ok (logs, listedAt))
          end
      end
    else ret (v, Ok (logs, listedAt)).

(** The purge: [Err] when the tick ends here, with the failure recorded. *)
Definition purge_logs (l : Loop) (v : Vars) (logs : list BinaryLog) (res : ArchiveResult) : IO (Vars * result purgeHold) :=
  if negb (lp_purge l) then ret (v, Ok no_hold)
  else
    do! planned := planPurge (T := T) l logs res in
    match planned with
    | Err e => do! v := fail v e in ret (v, Err e)
    | Ok plan =>
        if String.eqb (pp_to plan) "" then ret (v, Ok (pp_held plan))
        else
          do! (v, purged) := PurgeLogsTo (lp_reader l) v (pp_to plan) in
          match purged with
          | Err e => do! v := fail v e in ret (v, Err e)
          | Ok _ => ret (v, Ok (pp_held plan))
          end
    end.

(** The state a completed tick leaves. *)
Definition publish (v : Vars) (logs : list BinaryLog) (res : ArchiveResult) (held : purgeHold) (forks : ForkFields)
    (forkErr : option error) : IO Vars :=
  let s := lv_state v in
  do! heldSince :=
    (if String.eqb (ph_file held) "" then ret 0
     else do! at_ := now in
          ret (if String.eqb (ph_file held) (ls_purgeHeldFile s) && negb (IsZero (ls_PurgeHeldSince s))
               then ls_PurgeHeldSince s else at_)) in
  do! (err, errAt) := (match forkErr with Some e => do! at_ := now in ret (Some e, at_) | None => ret (None, 0) end) in
  ret (with_state v (mkState true (ars_LastArchivedBinlog res) (ars_LastArchivedGTID res) (ars_LastArchivedTime res)
    (pendingAfter logs (ars_LastArchivedBinlog res)) err errAt (ph_by held) heldSince (ph_file held) (ff_Forks forks)
    (ff_CheckedAt forks) (ff_CheckGeneration forks) (ff_Oldest forks) (ff_Disowned forks) (ff_Gaps forks)
    (ff_Covered forks) (ff_Timeline forks) "")).

Definition tick (l : Loop) (v : Vars) : IO Vars :=
  do! writable := Writable (lp_reader l) in
  match writable with
  | Err e => fail v e
  | Ok false => drain l (step_down v)
  | Ok true =>
      do! listedAt := now in
      do! listed := ListBinaryLogs (lp_reader l) in
      match listed with
      | Err e => fail v e
      | Ok logs =>
          do! (v, rotated) := rotate l v logs listedAt in
          match rotated with
          | Err _ => ret v
          | Ok (logs, listedAt) =>
              do! (memo, (res, err)) := ArchivePending SumHex (lp_archiver l) logs (lv_memo v) in
              let v := with_memo' v memo in
              match err with
              | Some ErrNotCurrentPrimary => ret v
              | Some e => fail v e
              | None =>
                  do! (v, (forks, forkErr)) :=
                    Loop_checkForks l v (ars_ForkCheck res) (archivedThrough v logs res listedAt) in
                  do! (v, held) := purge_logs l v logs res in
                  match held with
                  | Err _ => ret v
                  | Ok held => publish v logs res held forks forkErr
                  end
              end
          end
      end
  end.
(** The variables of a fresh process. *)
Definition Vars_zero : Vars := mkVars State_zero (mkMemo ∅ ∅ ∅ false) false 0 0 "" 0 0 0 0 [].

(** [Run]: ticks until the context is cancelled; the first [fuel] of them. *)
Fixpoint run_ticks (fuel : nat) (l : Loop) (v : Vars) : IO Vars :=
  match fuel with
  | O => ret v
  | S fuel =>
      do! v := tick l v in
      do! cancelled := ask e_done in
      match cancelled with
      | Some _ => ret v
      | None => run_ticks fuel l v
      end
  end.
Definition Run (fuel : nat) (l : Loop) : IO Vars := run_ticks fuel l Vars_zero.
End Tick.
