(* ===== verification/LoopSafety.v ===== *)
(** * The archive loop is safe

    Proofs about [ArchiveLoop]: over any number of ticks, whatever requests fail
    and whatever the other writers do, a log is purged from the server only when
    it is in the archive and every instance has applied it; and an instance that
    is not the writable primary executes nothing and ships only files that the
    surviving primary provably holds. *)

From Stdlib Require Import ZArith Lia Bool Ascii String.
From stdpp Require Import base list strings gmap sorting.
From S2P Require Import Prelude GoStrings Gtid GtidText GtidModel MariaGtid MariaTimeline.
From S2P Require Import Archive Forks GtidOps ObjectStore BinlogFiles Archiver ArchiverIndex ArchiverPass ArchiverContents ArchiveLoop.

Local Open Scope Z_scope.

(** ** The server's list of logs *)

(** SHOW BINARY LOGS lists the logs in the order they were written: their
    sequence numbers are readable and ascend. *)
Record in_index_order (rows : list (string * string)) : Prop := {
  io_readable : forall row, row ∈ rows -> exists s, ParseSequence (fst row) = Ok s /\ 0 <= s;
  io_ascending : forall i j x y s t, (i < j)%nat -> rows !! i = Some x -> rows !! j = Some y ->
    ParseSequence (fst x) = Ok s -> ParseSequence (fst y) = Ok t -> s < t
}.

Lemma entries_named rows :
  in_index_order rows ->
  List.filter (fun l => negb (String.eqb (bl_Name l) "")) (log_entry <$> rows) = log_entry <$> rows.
Proof.
  intros [Hr _]. assert (Forall (fun l => bl_Name l <> "") (log_entry <$> rows)) as Hall.
  { apply Forall_fmap, Forall_forall. intros row (s & Hs & _)%Hr. cbn. intros E. by rewrite E in Hs. }
  induction Hall as [|l ls Hl _ IH]; cbn; [done|]. destruct (String.eqb_spec (bl_Name l) ""); [done|]. cbn. by rewrite IH.
Qed.

Lemma index_order_nodup rows : in_index_order rows -> NoDup (fst <$> rows).
Proof.
  intros [Hr Ha]. apply NoDup_alt. intros i j n Hi Hj. rewrite list_lookup_fmap in Hi, Hj.
  destruct (rows !! i) as [x|] eqn:Ei, (rows !! j) as [y|] eqn:Ej; try done. simplify_eq/=.
  destruct (Hr x) as (s & Hs & _); [by eapply list_elem_of_lookup_2|].
  assert (ParseSequence (fst y) = Ok s) as Ht by congruence.
  destruct (Nat.lt_trichotomy i j) as [Hlt|[|Hlt]]; [|done|].
  - pose proof (Ha i j x y s s Hlt Ei Ej Hs Ht). lia.
  - pose proof (Ha j i y x s s Hlt Ej Ei Ht Hs). lia.
Qed.

Lemma activate_names (k : nat) (logs : list BinaryLog) : bl_Name <$> alter activate k logs = bl_Name <$> logs.
Proof. revert k. induction logs as [|l logs IH]; intros [|k]; cbn; f_equal. apply IH. Qed.

Lemma exists_last_or_nil {A} (l : list A) : l = [] \/ exists l' x, l = l' ++ [x].
Proof. destruct l as [|x l]; [by left|right]. destruct (@exists_last _ (x :: l)) as (l' & y & ->); eauto. Qed.

(** Of such a listing the last log is the active one, and the others may be
    shipped. *)
Lemma listing_shape rows :
  in_index_order rows ->
  (exists tail, listing rows = Archivable (listing rows) ++ tail) /\ NoDup (bl_Name <$> listing rows).
Proof.
  intros Hord. pose proof (index_order_nodup rows Hord) as Hnd. unfold listing. rewrite (entries_named rows Hord). split.
  2: { assert (bl_Name <$> MarkActive (log_entry <$> rows) = fst <$> rows) as ->; [|done].
       unfold MarkActive. destruct (highest_log _ _ _ _); rewrite ?activate_names; by rewrite <- list_fmap_compose. }
  clear Hnd. destruct Hord as [Hr Ha]. destruct (exists_last_or_nil rows) as [->|(rows' & row & ->)]; [by exists []|].
  destruct (Hr row) as (s & Hs & H0); [set_solver|].
  destruct (MarkActive_spec (log_entry <$> rows' ++ [row]) (log_entry row) s) as (k & l & q & Hk & Hq & Hb & -> & ->); [| |done..|].
  { by apply Forall_fmap, Forall_true. }
  { apply list_elem_of_fmap. exists row. set_solver. }
  assert (s <= q) as Hle. { apply (Hb (log_entry row)); [|done]. apply list_elem_of_fmap. exists row. set_solver. }
  assert (k = length (log_entry <$> rows')) as ->.
  { rewrite length_fmap. rewrite list_lookup_fmap, fmap_Some in Hk. destruct Hk as (x & Hx & ->). cbn in Hq.
    destruct (Nat.lt_trichotomy k (length rows')) as [Hlt|[->|Hlt]]; [|done|].
    - pose proof (Ha k (length rows') x row q s Hlt Hx ltac:(by rewrite list_lookup_middle) Hq Hs). lia.
    - apply lookup_lt_Some in Hx. rewrite length_app in Hx. cbn in Hx. lia. }
  rewrite fmap_app, take_app_length, drop_ge, app_nil_r by (rewrite length_app; cbn; lia).
  cbn. exists [activate (log_entry row)]. by rewrite alter_app_r_alt, Nat.sub_diag by done.
Qed.

(** ** What a purge removes *)

(** The logs PURGE BINARY LOGS TO a file removes: those listed before it. *)
Fixpoint before (to : string) (logs : list BinaryLog) : list BinaryLog :=
  match logs with
  | [] => []
  | l :: logs' => if String.eqb (bl_Name l) to then [] else l :: before to logs'
  end.

Lemma before_app to front rest :
  to ∉ (bl_Name <$> front) -> before to (front ++ rest) = front ++ before to rest.
Proof.
  induction front as [|l front IH]; cbn; [done|]. rewrite not_elem_of_cons. intros [Hne Hin].
  destruct (String.eqb_spec (bl_Name l) to); [congruence|]. by rewrite IH.
Qed.

Lemma before_middle front l rest :
  bl_Name l ∉ (bl_Name <$> front) -> before (bl_Name l) (front ++ l :: rest) = front.
Proof. intros Hl. rewrite before_app by done. cbn. by rewrite String.eqb_refl, app_nil_r. Qed.

Lemma file_before_middle front l rest prev :
  bl_Name l ∉ (bl_Name <$> front) -> file_before (front ++ l :: rest) prev (bl_Name l) = List.last (bl_Name <$> front) prev.
Proof.
  revert prev. induction front as [|x front IH]; intros prev; [cbn; by rewrite String.eqb_refl|].
  rewrite fmap_cons, not_elem_of_cons. intros [Hne Hin]. rewrite <- app_comm_cons. cbn [file_before].
  destruct (String.eqb_spec (bl_Name x) (bl_Name l)); [congruence|]. rewrite IH by done.
  destruct front as [|y front]; [done|]. exact (last_cons_irrel (bl_Name y) (fmap (M := list) bl_Name front) _ _).
Qed.

Lemma files_before_split limit files :
  exists tail, files = files_before limit files ++ tail /\ limit ∉ (af_Name <$> files_before limit files) /\
    (tail = [] \/ exists f tail', tail = f :: tail' /\ af_Name f = limit).
Proof.
  induction files as [|f files (tail & IH & Hin & Ht)]; cbn; [exists []; set_solver|].
  destruct (String.eqb_spec (af_Name f) limit).
  - exists (f :: files). split_and!; [done|set_solver|right; eauto].
  - exists tail. split_and!; [cbn; by f_equal|set_solver|done].
Qed.

Section Plan.
Context {T : Type} `{gtidOps T}.

(** Every one of the positions holds the file. *)
Definition held_by_all (positions : gmap string string) (gs : string) : Prop :=
  exists fs, go_Parse gs = Ok fs /\
    map_Forall (fun _ raw => exists s, go_Parse raw = Ok s /\ go_Contains s fs = true) positions.

(** The instances whose position lacks the file. *)
Definition lacks (positions : gmap string string) (gs inst : string) : Prop :=
  exists raw s fs, positions !! inst = Some raw /\ go_Parse raw = Ok s /\ go_Parse gs = Ok fs /\ go_Contains s fs = false.

(** The parsed positions, in any order. *)
Definition parsed (positions : gmap string string) (applied : list (string * T)) : Prop :=
  exists l, map_result parse_position (map_to_list positions) = Ok l /\ applied ≡ₚ l.

Lemma parse_position_ok x y : parse_position x = Ok y <-> fst y = fst x /\ go_Parse (snd x) = Ok (snd y).
Proof.
  unfold parse_position. destruct x as [n raw], y as [n' s]; cbn. destruct (go_Parse raw) as [s'|[]] eqn:E; cbn; naive_solver.
Qed.

Lemma parsed_elem positions applied :
  parsed positions applied ->
  (forall inst raw, positions !! inst = Some raw -> exists s, (inst, s) ∈ applied /\ go_Parse raw = Ok s) /\
  (forall inst s, (inst, s) ∈ applied -> exists raw, positions !! inst = Some raw /\ go_Parse raw = Ok s).
Proof.
  intros (l & Hl%map_result_Forall2 & Hp). split.
  - intros inst raw Hin. apply elem_of_map_to_list, list_elem_of_lookup_1 in Hin as [i Hi].
    destruct (Forall2_lookup_l _ _ _ _ _ Hl Hi) as ([n s] & Hs & [Hn Hps]%parse_position_ok). cbn in *. subst n.
    exists s. split; [|done]. rewrite Hp. by eapply list_elem_of_lookup_2.
  - intros inst s. rewrite Hp. intros [i Hi]%list_elem_of_lookup_1.
    destruct (Forall2_lookup_r _ _ _ _ _ Hl Hi) as ([n raw] & Hs & [Hn Hps]%parse_position_ok). cbn in *. subst n.
    exists raw. split; [|done]. apply elem_of_map_to_list. by eapply list_elem_of_lookup_2.
Qed.

(** The candidates every instance holds come first, and the first one that some
    instance lacks holds the rest. *)
Inductive purge_split (positions : gmap string string) (limit : string) (first : bool)
  : list ArchivedFile -> purgePlan -> Prop :=
| purge_all done :
    Forall (fun f => held_by_all positions (af_GTIDSet f)) done ->
    purge_split positions limit first done (mkPurgePlan limit no_hold)
| purge_held done f rest by_ :
    Forall (fun f => held_by_all positions (af_GTIDSet f)) done ->
    by_ <> [] -> (forall inst, inst ∈ by_ <-> lacks positions (af_GTIDSet f) inst) ->
    purge_split positions limit first (done ++ f :: rest)
      (mkPurgePlan (if first && bool_decide (done = []) then "" else af_Name f) (mkPurgeHold (af_Name f) by_)).

Lemma lacking_elem positions applied gs fs inst :
  parsed positions applied -> go_Parse gs = Ok fs ->
  inst ∈ fst <$> List.filter (fun x => negb (go_Contains (snd x) fs)) applied <-> lacks positions gs inst.
Proof.
  intros Hp Hfs. destruct (parsed_elem _ _ Hp) as [H1 H2]. rewrite list_elem_of_fmap. split.
  - intros ([n s] & -> & Hin). rewrite list_elem_of_In, filter_In, <- list_elem_of_In, negb_true_iff in Hin. destruct Hin as [Hin Hc].
    destruct (H2 _ _ Hin) as (raw & ? & ?). by exists raw, s, fs.
  - intros (raw & s & fs' & Hraw & Hs & Hfs' & Hc). destruct (H1 _ _ Hraw) as (s' & Hin & Hs').
    exists (inst, s'). split; [done|]. rewrite list_elem_of_In, filter_In, <- list_elem_of_In, negb_true_iff. split; [done|]. cbn. congruence.
Qed.

Lemma purge_loop_spec positions applied limit candidates first plan :
  parsed positions applied -> purge_loop applied limit candidates first = Ok plan ->
  purge_split positions limit first candidates plan.
Proof.
  intros Hp. revert first. induction candidates as [|f cs IH]; intros first; cbn; [by intros [= <-]; apply purge_all|].
  destruct (go_Parse (af_GTIDSet f)) as [fs|[]] eqn:Efs; cbn; try done.
  pose proof (fun inst => lacking_elem positions applied _ fs inst Hp Efs) as Hby.
  destruct (fst <$> List.filter (fun x => negb (go_Contains (snd x) fs)) applied) as [|b bs] eqn:Eby.
  - intros Hrun%IH. assert (held_by_all positions (af_GTIDSet f)) as Hf.
    { exists fs. split; [done|]. intros inst raw Hraw. destruct (parsed_elem _ _ Hp) as [H1 _].
      destruct (H1 _ _ Hraw) as (s & _ & Hs). exists s. split; [done|]. destruct (go_Contains s fs) eqn:Ec; [done|].
      assert (inst ∈ ([] : list string)) as []%not_elem_of_nil. apply Hby. by exists raw, s, fs. }
    inversion Hrun as [dn Hd|dn f' rest by_ Hd Hne Hiff]; subst; [by apply purge_all; constructor|].
    pose proof (purge_held positions limit first (f :: dn) f' rest by_ ltac:(by constructor) Hne Hiff) as Hgo.
    rewrite bool_decide_eq_false_2, andb_false_r in Hgo by done. exact Hgo.
  - intros [= <-]. pose proof (purge_held positions limit first [] f cs (b :: bs) ltac:(done) ltac:(done) Hby) as Hgo.
    rewrite bool_decide_eq_true_2, andb_true_r in Hgo by done. exact Hgo.
Qed.

(** What the plan is, given the answer of the floor. *)
Lemma planPurge_run l logs res env w w' plan :
  planPurge (T := T) l logs res env w = (w', Ok plan) ->
  plan = no_purge \/
  exists floor positions unknown f rest,
    lp_floor l = Some floor /\ floor (w_calls w) = (positions, unknown, true) /\
    fileBefore logs (ars_LastArchivedBinlog res) <> "" /\
    files_before (fileBefore logs (ars_LastArchivedBinlog res)) (ars_Files res) = f :: rest /\
    ((unknown <> [] /\ plan = mkPurgePlan "" (mkPurgeHold (af_Name f) (isort String.leb unknown))) \/
     (unknown = [] /\ purge_split positions (fileBefore logs (ars_LastArchivedBinlog res)) true (f :: rest) plan)).
Proof.
  unfold planPurge. cbv zeta. destruct (lp_floor l) as [floor|]; [|intros [= _ <-]; by left].
  destruct (String.eqb_spec (fileBefore logs (ars_LastArchivedBinlog res)) "") as [|Hne]; [intros [= _ <-]; by left|].
  destruct (files_before _ (ars_Files res)) as [|f rest] eqn:Ef; [intros [= _ <-]; by left|].
  intros Hrun. apply bind_inv in Hrun as (w1 & ((positions & unknown) & ok) & H1 & Hrun). injection H1 as <- Hfl.
  destruct ok; cbn [negb] in Hrun; [|injection Hrun as _ <-; by left]. right. exists floor, positions, unknown, f, rest.
  split_and!; [done..|]. destruct unknown as [|u us]; cbn in Hrun.
  - right. split; [done|]. destruct (map_result parse_position (map_to_list positions)) as [l'|] eqn:El; [|done]. cbn in Hrun.
    injection Hrun as _ Hrun. eapply purge_loop_spec; [|exact Hrun]. exists l'. split; [done|apply isort_perm].
  - left. injection Hrun as _ <-. done.
Qed.

(** The frontier's predecessor is one of the files a pass went through. *)
Lemma fileBefore_front front tail d :
  NoDup (bl_Name <$> front ++ tail) -> front <> [] ->
  let limit := fileBefore (front ++ tail) (List.last (bl_Name <$> front) d) in
  limit <> "" -> limit ∈ (bl_Name <$> front).
Proof.
  intros Hnd Hne limit. unfold limit. destruct (exists_last_or_nil front) as [->|(fr & x & ->)]; [done|].
  rewrite fmap_app. cbn [fmap list_fmap]. rewrite last_last, <- app_assoc. cbn [app]. unfold fileBefore.
  rewrite <- app_assoc, fmap_app in Hnd. cbn in Hnd. apply NoDup_app in Hnd as (_ & Hnd & _).
  rewrite file_before_middle by (intros Hin; apply (Hnd _ Hin); left).
  destruct (exists_last_or_nil fr) as [->|(fr' & y & ->)]; [done|]. rewrite fmap_app. cbn [fmap list_fmap]. rewrite last_last.
  intros _. set_solver.
Qed.

(** What a purge removes is in the front of the logs, and every instance holds it. *)
Lemma plan_safe l front tail res d env w w' plan :
  NoDup (bl_Name <$> front ++ tail) -> af_Name <$> ars_Files res = bl_Name <$> front ->
  ars_LastArchivedBinlog res = List.last (bl_Name <$> front) d ->
  planPurge (T := T) l (front ++ tail) res env w = (w', Ok plan) -> pp_to plan <> "" ->
  exists floor positions, lp_floor l = Some floor /\ floor (w_calls w) = (positions, [], true) /\
    forall log, log ∈ before (pp_to plan) (front ++ tail) -> log ∈ front /\
      exists f, f ∈ ars_Files res /\ af_Name f = bl_Name log /\ held_by_all positions (af_GTIDSet f).
Proof.
  intros Hnd Hfiles Hlast Hrun Hto.
  destruct (planPurge_run _ _ _ _ _ _ _ Hrun) as [->|(floor & positions & unknown & f & rest & Hl & Hfl & Hlim & Hcand & Hplan)]; [done|].
  destruct Hplan as [[_ ->]|[-> Hsplit]]; [done|]. exists floor, positions. split_and!; [done..|].
  set (limit := fileBefore _ _) in *. destruct (files_before_split limit (ars_Files res)) as (cut & Hcut & _ & Hlimit).
  assert (limit ∈ bl_Name <$> front) as Hin.
  { unfold limit in *. rewrite Hlast in *. apply fileBefore_front; [done| |done]. intros ->. by destruct (ars_Files res). }
  assert (exists dn more, (af_Name <$> ars_Files res) = (af_Name <$> dn) ++ pp_to plan :: more /\ dn ⊆ ars_Files res /\
    Forall (fun f => held_by_all positions (af_GTIDSet f)) dn) as (dn & more & Hnames & Hsub & Hheld).
  { rewrite Hcand in Hcut. inversion Hsplit as [dn Hd Hdn|dn g r by_ Hd Hne Hiff Hdn Hpl]; subst.
    - exists (f :: rest), (af_Name <$> List.tl cut). rewrite Hcut, fmap_app. split_and!; [|set_solver|done].
      destruct Hlimit as [->|(g & cut' & -> & Hg)]; [|cbn; by rewrite Hg]. exfalso. rewrite <- Hfiles, Hcut, app_nil_r in Hin.
      rewrite <- Hcand in Hin. by destruct (files_before_split limit (ars_Files res)) as (? & _ & ? & _).
    - exists dn, (af_Name <$> r ++ cut). rewrite Hcut, <- Hdn, <- app_assoc, fmap_app. cbn in Hto |- *.
      destruct (bool_decide (dn = [])); [done|]. split_and!; [done|set_solver|done]. }
  rewrite Hfiles in Hnames. apply fmap_app_inv in Hnames as (fa & fb & Hfa & Hfb & ->).
  symmetry in Hfb. apply fmap_cons_inv in Hfb as (lg & fb' & Hlg & Hmore & ->).
  rewrite Hlg, <- app_assoc, <- app_comm_cons in *. rewrite before_middle.
  2: { rewrite fmap_app in Hnd. apply NoDup_app in Hnd as (_ & Hnd & _). intros Hx. apply (Hnd _ Hx). left. }
  intros log Hlog. split; [set_solver|]. assert (bl_Name log ∈ af_Name <$> dn) as Hn by (rewrite Hfa; set_solver).
  apply list_elem_of_fmap in Hn as (g & Hg & Hgin). exists g. split_and!; [by apply Hsub|done|].
  by apply (proj1 (Forall_forall _ _) Hheld).
Qed.
End Plan.

(** ** A program logic for the loop *)

Section Safety.
Context {T : Type} {HO : gtidOps T} {HV : Versioning} (SumHex : string -> string) (l : Loop).
Context (P : string -> string -> Prop).
Abbreviation a := (lp_archiver l).

(** What the loop's surroundings promise: conditional writes work and the other
    writers keep this server's files listed and their manifests true, the scanner
    is right, and the server lists its logs in order. *)
Record surroundings (env : Env) : Prop := {
  su_rely : rely a env;
  su_honest : honest a P env;
  su_rows : forall n rows, rd_rows (lp_reader l) n = Ok rows -> in_index_order rows
}.

Definition triple {A} (Pre : Store -> Prop) (m : IO A) (Post : A -> Store -> Prop) : Prop :=
  forall env w w' x, surroundings env -> w_unconditional w = false -> truthful a P (w_store w) -> Pre (w_store w) ->
    m env w = (w', x) ->
    w_unconditional w' = false /\ truthful a P (w_store w') /\ (forall f, listed a (w_store w) f -> listed a (w_store w') f) /\
    Post x (w_store w').

Lemma triple_bind {A B} Pre (m : IO A) Mid (k : A -> IO B) Post :
  triple Pre m Mid -> (forall x, triple (Mid x) (k x) Post) -> triple Pre (bind m k) Post.
Proof.
  intros Hm Hk env w w' y Hs Hu Ht Hp Hrun. apply bind_inv in Hrun as (w1 & x & H1 & H2).
  destruct (Hm _ _ _ _ Hs Hu Ht Hp H1) as (Hu1 & Ht1 & Hl1 & Hmid).
  destruct (Hk x _ _ _ _ Hs Hu1 Ht1 Hmid H2) as (Hu2 & Ht2 & Hl2 & Hpost). split_and!; auto.
Qed.

Lemma triple_ret {A} (Pre : Store -> Prop) (x : A) (Post : A -> Store -> Prop) :
  (forall st, Pre st -> Post x st) -> triple Pre (ret x) Post.
Proof. intros HP env w w' y _ Hu Ht Hp [= <- <-]. split_and!; auto. Qed.

(** A computation that leaves the store alone. *)
Lemma triple_quiet {A} Pre (m : IO A) (Post : A -> Store -> Prop) :
  quiet m -> (forall env w, surroundings env -> Pre (w_store w) -> Post (snd (m env w)) (w_store w)) -> triple Pre m Post.
Proof.
  intros Hq Hpost env w w' x Hs Hu Ht Hp Hrun. destruct (Hq env w) as (_ & H2 & H3). specialize (Hpost env w Hs Hp).
  rewrite Hrun in H2, H3, Hpost. cbn in H2, H3, Hpost. rewrite H2, H3. done.
Qed.

Lemma triple_ask {A} (Pre : Store -> Prop) (f : Env -> nat -> A) (Post : A -> Store -> Prop) :
  (forall env n st, Pre st -> Post (f env n) st) -> triple Pre (ask f) Post.
Proof. intros HP. apply triple_quiet; [apply quiet_ask|]. intros env w _ Hpre. cbn. auto. Qed.

(** ** The loop's invariant *)

(** A purge of [file] was justified: in a listing the server answered, every log
    before it is listed in the index, and all known positions, none missing, hold
    its true contents. *)
Definition justified (st : Store) (file : string) : Prop :=
  exists n rows floor k positions,
    rd_rows (lp_reader l) n = Ok rows /\ lp_floor l = Some floor /\ floor k = (positions, [], true) /\
    forall log, log ∈ before file (listing rows) -> bl_Active log = false /\ listed a st (bl_Name log) /\
      exists gs, P (bl_Name log) gs /\ held_by_all (T := T) positions gs.

Definition executed_ok (st : Store) (s : statement) : Prop :=
  match s with FlushedLogs => True | PurgedTo file => justified st file end.

(** The memos are right and every statement so far was justified. *)
Record ready (v : Vars) (st : Store) : Prop := {
  rd_memo : forall f, f ∈ mm_indexed (lv_memo v) -> listed a st f;
  rd_true : memo_true P (lv_memo v);
  rd_sql : Forall (executed_ok st) (lv_sql v)
}.

Lemma executed_ok_mono st st' s : (forall f, listed a st f -> listed a st' f) -> executed_ok st s -> executed_ok st' s.
Proof.
  intros Hl. destruct s as [|file]; [done|]. intros (n & rows & floor & k & pos & ? & ? & ? & Hall).
  exists n, rows, floor, k, pos. split_and!; [done..|]. intros log Hlog. destruct (Hall log Hlog) as (? & ? & ?). split_and!; auto.
Qed.

Lemma ready_mono v st st' : (forall f, listed a st f -> listed a st' f) -> ready v st -> ready v st'.
Proof. intros Hl [H1 H2 H3]. split; [auto|done|]. eapply Forall_impl; [exact H3|]. intros s. by apply executed_ok_mono. Qed.

(** Variables that agree on the memos and the statements. *)
Lemma ready_same v v' st : lv_memo v' = lv_memo v -> lv_sql v' = lv_sql v -> ready v st -> ready v' st.
Proof. intros H1 H2 [? ? ?]. split; by rewrite ?H1, ?H2. Qed.

Lemma quiet_fail v e : quiet (fail v e).
Proof. done. Qed.

Lemma triple_fail v e : triple (ready v) (fail v e) ready.
Proof. apply triple_quiet; [apply quiet_fail|]. intros env w _. by apply ready_same. Qed.

(** Facts that survive as long as nothing is unlisted. *)
Definition mono (Pre : Store -> Prop) : Prop :=
  forall st st', (forall f, listed a st f -> listed a st' f) -> Pre st -> Pre st'.

Lemma triple_steady {A} Pre (m : IO A) (Q : A -> Prop) :
  mono Pre -> steady a m -> (forall env, does SumHex a None P env m Q) -> triple Pre m (fun x st => Pre st /\ Q x).
Proof.
  intros Hmono Hst Hd env w w' x [Hr Hh Hrows] Hu Ht Hp Hrun. destruct (Hst _ _ _ _ Hr Hu Hrun) as [Hu' Hl'].
  destruct (Hd _ _ _ _ Hh Ht Hrun) as (Ht' & HQ & _). split_and!; [done..| |done]. by eapply Hmono.
Qed.

Lemma listed_logs r :
  quiet (ListBinaryLogs r) /\ forall env w logs, snd (ListBinaryLogs r env w) = Ok logs ->
    exists n rows, rd_rows r n = Ok rows /\ logs = listing rows.
Proof.
  split.
  - apply quiet_bind; [apply quiet_ask|]. intros [rows|e]; apply quiet_ret.
  - intros env w logs. unfold ListBinaryLogs, bind, ask. cbn. destruct (rd_rows r (w_calls w)) as [rows|e] eqn:E; cbn; [|by destruct e].
    intros [= <-]. eauto.
Qed.

Definition is_listing (logs : list BinaryLog) : Prop :=
  exists n rows, rd_rows (lp_reader l) n = Ok rows /\ logs = listing rows.

Lemma triple_ListBinaryLogs Pre :
  triple Pre (ListBinaryLogs (lp_reader l)) (fun r st => Pre st /\ forall logs, r = Ok logs -> is_listing logs).
Proof.
  destruct (listed_logs (lp_reader l)) as [Hq Hl]. apply triple_quiet; [done|]. intros env w _ Hp. split; [done|].
  intros logs Hr. by eapply Hl.
Qed.

Lemma triple_now Pre : triple Pre now (fun _ => Pre).
Proof. by apply triple_ask. Qed.

Lemma triple_FlushLogs v :
  triple (ready v) (FlushLogs (lp_reader l) v) (fun x st => ready (fst x) st).
Proof.
  eapply triple_bind; [apply (triple_ask _ _ (fun _ => ready v)); done|]. intros [[]|e]; apply triple_ret; [|done].
  intros st [? ? Hsql]. split; [done..|]. cbn. apply Forall_app. by repeat constructor.
Qed.

Lemma triple_rotate v logs at_ :
  is_listing logs ->
  triple (ready v) (rotate l v logs at_)
    (fun x st => ready (fst x) st /\ forall logs' at', snd x = Ok (logs', at') -> is_listing logs').
Proof.
  intros Hlog. unfold rotate. destruct (IsZero (lv_lastFlush v)).
  { eapply triple_bind; [apply triple_now|]. intros t. apply triple_ret. intros st Hr. split; [by apply (ready_same v)|].
    by intros ? ? [= <- <-]. }
  eapply triple_bind; [apply triple_now|]. intros t. destruct (_ && _).
  2: { apply triple_ret. intros st Hr. split; [done|]. by intros ? ? [= <- <-]. }
  eapply triple_bind; [apply triple_now|]. intros t1. eapply triple_bind; [apply triple_FlushLogs|]. intros [v1 [[]|e]]; cbn [fst].
  2: { eapply triple_bind; [apply triple_fail|]. intros v2. apply triple_ret. intros st Hr. by split. }
  eapply triple_bind; [apply triple_now|]. intros t2. cbv zeta. eapply triple_bind; [apply triple_now|]. intros t3.
  eapply triple_bind; [apply triple_ListBinaryLogs|]. intros [logs'|e].
  - apply triple_ret. intros st [Hr Hlog']. split; [by apply (ready_same v1)|]. intros ? ? [= <- <-]. by apply Hlog'.
  - eapply triple_bind; [|intros v2; apply triple_ret; intros st Hr; split; [exact Hr|done]].
    intros env w w' x Hs Hu Ht [Hr _] Hrun. eapply triple_fail; [done..| |exact Hrun]. by apply (ready_same v1).
Qed.

(** ** The parts of a tick *)

(** What a pass without an error leaves for the purge gate. *)
Record passed (logs : list BinaryLog) (res : ArchiveResult) (front : list BinaryLog) (st : Store) : Prop := {
  pd_front : exists rest, Archivable logs = front ++ rest;
  pd_listed : forall log, log ∈ front -> listed a st (bl_Name log);
  pd_files : af_Name <$> ars_Files res = bl_Name <$> front;
  pd_last : exists d, ars_LastArchivedBinlog res = List.last (bl_Name <$> front) d;
  pd_true : reported P res
}.

Lemma passed_mono logs res front : mono (passed logs res front).
Proof. intros st st' Hl [? ? ? ? ?]. split; auto. Qed.

Lemma ready_passed_mono v logs res front : mono (fun st => ready v st /\ passed logs res front st).
Proof. intros st st' Hl [Hr Hp]. split; [by eapply ready_mono|by eapply passed_mono]. Qed.

Lemma triple_archivePending v logs allow pass :
  triple (ready v) (archivePending SumHex a logs allow pass (lv_memo v)) (fun x st =>
    ready (with_memo' v (fst x)) st /\ (snd (snd x) = None -> exists front, passed logs (fst (snd x)) front st)).
Proof.
  intros env w w' [memo' [res err]] [Hr Hh Hrows] Hu Ht [Hidx Htrue Hsql] Hrun.
  destruct (archivePending_ok SumHex a _ _ _ _ _ _ _ _ _ _ Hr Hu Hidx Hrun) as (Hu' & Hl' & Hok & Hall).
  destruct (does_archivePending SumHex a allow P _ _ _ _ Htrue _ _ _ Hh Ht Hrun) as (Ht' & [Hm' Hrep] & _).
  split_and!; [done..| |].
  - split; [done..|]. eapply Forall_impl; [exact Hsql|]. intros s. by apply executed_ok_mono.
  - intros He. destruct (Hall He) as (r0 & front & rest & H0 & [Hlogs Hlist Hfiles Hlast Hrest]). exists front.
    cbn. split; [by exists rest|done|by rewrite Hfiles, H0|by eexists|done].
Qed.

Lemma triple_ArchivePending v logs :
  triple (ready v) (ArchivePending SumHex a logs (lv_memo v)) (fun x st =>
    ready (with_memo' v (fst x)) st /\ (snd (snd x) = None -> exists front, passed logs (fst (snd x)) front st)).
Proof.
  eapply (triple_bind _ _ (fun _ => ready v)).
  { apply triple_quiet; [|done]. unfold Authority. destruct (ar_authority a); [apply quiet_ask|apply quiet_ret]. }
  intros [gen ok]. destruct ok; [apply triple_archivePending|]. apply triple_ret. intros st Hr. split; [|done].
  by apply (ready_same v).
Qed.

Lemma triple_frame {A} Pre (m : IO A) :
  mono Pre -> steady a m -> (forall env, does SumHex a None P env m (fun _ => True)) -> triple Pre m (fun _ => Pre).
Proof. intros H1 H2 H3 env w w' x Hs Hu Ht Hp Hrun. by destruct (triple_steady _ _ _ H1 H2 H3 _ _ _ _ Hs Hu Ht Hp Hrun) as (? & ? & ? & ? & _). Qed.

(** The fork check touches neither the memos nor the statements. *)
Definition same_vars (v v' : Vars) : Prop := lv_memo v' = lv_memo v /\ lv_sql v' = lv_sql v.

Lemma triple_Loop_checkForks v report through (Pre : Store -> Prop) :
  mono Pre -> triple Pre (Loop_checkForks l v report through) (fun x st => Pre st /\ same_vars v (fst x)).
Proof.
  intros Hmono. unfold Loop_checkForks. cbv zeta. destruct (ar_forks a) eqn:Ef; [|by apply triple_ret].
  eapply triple_bind; [apply triple_now|]. intros at_.
  set (v1 := match report with Some r => if fr_Checked r then _ else v | None => v end).
  assert (same_vars v v1) as Hv1 by (unfold v1; destruct report as [r|]; [destruct (fr_Checked r)|]; done).
  clearbody v1. eapply (triple_bind _ _ (fun x st => Pre st /\ same_vars v (fst x))).
  - match goal with |- triple _ (if ?b then _ else _) _ => destruct b end; [|by apply triple_ret].
    eapply (triple_bind _ _ (fun _ => Pre)).
    { apply triple_frame; [done|apply steady_CheckArchive|intros env; apply does_CheckArchive]. }
    intros [r [e|]]; [by apply triple_ret|]. eapply triple_bind; [apply triple_now|]. intros t. by apply triple_ret.
  - intros [v2 [[r|]|e]]; cbn [fst]; [|by apply triple_ret..]. destruct (fr_Err r); [by apply triple_ret|].
    apply triple_ret. intros st [Hp Hv2]. split; [done|]. cbn. by destruct (fr_Checked r).
Qed.

(** A purge after a pass is justified. *)
Lemma triple_purge_logs v logs res front :
  is_listing logs ->
  triple (fun st => ready v st /\ passed logs res front st) (purge_logs (T := T) l v logs res) (fun x => ready (fst x)).
Proof.
  intros (n & rows & Hrows & ->). unfold purge_logs. destruct (negb (lp_purge l)); [apply triple_ret; by intros st [? _]|].
  set (ok := fun plan st => pp_to plan <> "" -> justified st (pp_to plan)).
  eapply (triple_bind _ _ (fun x st => ready v st /\ forall plan, x = Ok plan -> ok plan st)).
  { apply triple_quiet.
    - unfold planPurge. cbv zeta. destruct (lp_floor l); [|apply quiet_ret]. destruct (String.eqb _ _); [apply quiet_ret|].
      destruct (files_before _ _); [apply quiet_ret|]. apply quiet_bind; [apply quiet_ask|]. intros [[? ?] []]; cbn [negb]; [|apply quiet_ret].
      destruct (Nat.ltb _ _); apply quiet_ret.
    - intros env w Hs [Hr [[rest Hfront] Hlist Hfiles [d Hlast] Hrep]]. split; [done|]. intros plan Hplan Hto.
      destruct (listing_shape rows (su_rows _ Hs _ _ Hrows)) as [[tail Hshape] Hnd].
      rewrite Hfront, <- app_assoc in Hshape. rewrite Hshape in Hnd.
      destruct (planPurge l (listing rows) res env w) as [w' x] eqn:E. cbn in Hplan. subst x. rewrite Hshape in E.
      destruct (plan_safe l front (rest ++ tail) res d env w w' plan Hnd Hfiles Hlast E Hto) as (floor & positions & Hfl & Hpos & Hall).
      exists n, rows, floor, (w_calls w), positions. split_and!; [done..|]. rewrite Hshape. intros log Hlog.
      destruct (Hall log Hlog) as (Hin & f & Hf & Hname & Hheld). split_and!; [|by apply Hlist|].
      + assert (log ∈ Archivable (listing rows)) as [_ ?]%Archivable_elem by (rewrite Hfront; set_solver). done.
      + exists (af_GTIDSet f). rewrite <- Hname. split; [|done]. by apply (proj1 (Forall_forall _ _) Hrep). }
  intros [plan|e].
  2: { eapply triple_bind; [|intros v'; apply triple_ret; intros st Hr; exact Hr].
       intros env w w' x Hs Hu Ht [Hr _] Hrun. by eapply triple_fail. }
  destruct (String.eqb_spec (pp_to plan) "") as [|Hto]; [apply triple_ret; by intros st [? _]|].
  eapply (triple_bind _ _ (fun x => ready (fst x))).
  - unfold PurgeLogsTo. destruct (PurgeLogsStatement (pp_to plan)); [|apply triple_ret; by intros st [? _]].
    eapply triple_bind; [apply (triple_ask _ _ (fun _ st => ready v st /\ forall p, Ok plan = Ok p -> ok p st)); done|].
    intros [[]|e]; apply triple_ret; [|by intros st [? _]]. intros st [[? ? Hsql] Hok]. split; [done..|]. cbn.
    apply Forall_app. split; [done|]. constructor; [|done]. by apply Hok.
  - intros [v1 [[]|e]]; cbn [fst]; [by apply triple_ret|]. eapply triple_bind; [apply triple_fail|]. intros v2. by apply triple_ret.
Qed.

Lemma triple_publish v logs res held forks err : triple (ready v) (publish v logs res held forks err) ready.
Proof.
  apply triple_quiet.
  - unfold publish. cbv zeta. apply quiet_bind; [destruct (String.eqb _ _); done|]. intros t.
    apply quiet_bind; [destruct err; done|]. intros [? ?]. apply quiet_ret.
  - intros env w _. apply ready_same; unfold publish, bind, now, ask, ret; destruct (String.eqb _ _), err; done.
Qed.

Lemma steady_HasSegment : steady a (HasSegment a).
Proof. apply steady_bind; [apply steady_loadStatus|]. intros [s|e]; apply steady_ret. Qed.

Lemma triple_drain v : triple (ready v) (drain SumHex l v) ready.
Proof.
  unfold drain. destruct (lp_replication l) as [probe|]; [|by apply triple_ret].
  eapply (triple_bind _ _ (fun _ => ready v)).
  { apply triple_frame; [intros st st'; apply ready_mono|apply steady_HasSegment|intros env; apply does_HasSegment]. }
  intros [[]|e]; [|by apply triple_ret|apply triple_fail].
  eapply (triple_bind _ _ (fun _ => ready v)); [by apply triple_ask|]. intros [[]|e]; [|by apply triple_ret|apply triple_fail].
  eapply (triple_bind _ _ (fun _ => ready v)); [destruct (lp_cluster l); [by apply triple_ask|by apply triple_ret]|].
  intros [|]; [by apply triple_ret|]. eapply (triple_bind _ _ (fun _ => ready v)).
  { intros env w w' x Hs Hu Ht Hr Hrun. by destruct (triple_ListBinaryLogs (ready v) _ _ _ _ Hs Hu Ht Hr Hrun) as (? & ? & ? & ? & _). }
  intros [logs|e]; [|apply triple_fail].
  eapply triple_bind; [apply triple_archivePending|]. intros [memo [res err]]. cbn [fst snd]. cbv zeta. destruct err as [e|].
  - intros env w w' x Hs Hu Ht [Hr _] Hrun. by eapply triple_fail.
  - apply triple_ret. intros st [Hr _]. by apply (ready_same (with_memo' v memo)).
Qed.

Lemma quiet_Writable r : quiet (Writable r).
Proof.
  apply quiet_bind; [apply quiet_ask|]. intros [v|e]; [apply quiet_ret|].
  apply quiet_bind; [apply quiet_ask|]. intros [v|e']; apply quiet_ret.
Qed.

Lemma triple_weaken {A} (Pre Pre' : Store -> Prop) (m : IO A) Post :
  triple Pre m Post -> (forall st, Pre' st -> Pre st) -> triple Pre' m Post.
Proof. intros Hm HP env w w' x Hs Hu Ht Hp. apply Hm; auto. Qed.

Lemma triple_given {A} (Pre : Store -> Prop) (Q : Prop) (m : IO A) Post :
  (Q -> triple Pre m Post) -> triple (fun st => Pre st /\ Q) m Post.
Proof. intros Hm env w w' x Hs Hu Ht [Hp HQ]. by apply Hm. Qed.

Lemma triple_exists {A B} (Pre : B -> Store -> Prop) (m : IO A) Post :
  (forall y, triple (Pre y) m Post) -> triple (fun st => exists y, Pre y st) m Post.
Proof. intros Hm env w w' x Hs Hu Ht [y Hp]. by apply (Hm y). Qed.

Lemma triple_tick v : triple (ready v) (tick SumHex l v) ready.
Proof.
  unfold tick. eapply (triple_bind _ _ (fun _ => ready v)); [by apply triple_quiet; [apply quiet_Writable|]|].
  intros [[]|e]; [| |apply triple_fail].
  2: { eapply triple_weaken; [apply triple_drain|]. intros st. by apply ready_same. }
  eapply triple_bind; [apply triple_now|]. intros t. eapply triple_bind; [apply triple_ListBinaryLogs|].
  intros r. apply triple_given. intros Hlog. destruct r as [logs|e]; [|apply triple_fail]. specialize (Hlog logs eq_refl).
  eapply triple_bind; [by apply triple_rotate|]. intros [v1 r]. cbn [fst snd]. apply triple_given. intros Hrot.
  destruct r as [[logs' t']|e]; [|by apply triple_ret]. specialize (Hrot logs' t' eq_refl). clear Hlog logs t.
  eapply triple_bind; [apply triple_ArchivePending|]. intros [memo [res err]]. cbn [fst snd]. cbv zeta.
  destruct err as [e|].
  { eapply (triple_weaken (ready (with_memo' v1 memo))); [|by intros st [? _]]. destruct e; first [by apply triple_ret|apply triple_fail]. }
  eapply (triple_weaken (fun st => exists front, ready (with_memo' v1 memo) st /\ passed logs' res front st)).
  2: { intros st [Hr Hpass]. destruct (Hpass eq_refl) as [front Hfront]. eauto. }
  apply triple_exists. intros front. eapply triple_bind.
  { apply triple_Loop_checkForks, ready_passed_mono. }
  intros [v2 [forks forkErr]]. cbn [fst]. apply triple_given. intros [Hm Hsql].
  eapply triple_bind.
  { eapply triple_weaken; [by apply triple_purge_logs|]. intros st [Hr Hp]. split; [by apply (ready_same (with_memo' v1 memo))|exact Hp]. }
  intros [v3 [held|e]]; cbn [fst]; [apply triple_publish|by apply triple_ret].
Qed.

Lemma triple_run_ticks fuel v : triple (ready v) (run_ticks SumHex fuel l v) ready.
Proof.
  revert v. induction fuel as [|fuel IH]; intros v; cbn [run_ticks]; [by apply triple_ret|].
  eapply triple_bind; [apply triple_tick|]. intros v'.
  eapply (triple_bind _ _ (fun _ => ready v')); [by apply triple_ask|]. intros [e|]; [by apply triple_ret|apply IH].
Qed.

Lemma ready_zero st : ready Vars_zero st.
Proof. split; [intros f; cbn; set_solver|split; apply map_Forall_empty|constructor]. Qed.

(** ** The drain *)

(** A computation of the drain neither runs a statement nor ships a file the
    gate did not accept. *)
Context (env : Env).
Abbreviation drained := (does SumHex a (Some (onSurvivingTimeline l)) P env).

Lemma drained_fail v e : drained (fail v e) (fun v' => lv_sql v' = lv_sql v).
Proof. eapply does_bind; [apply does_ask_any|]. intros t _. by apply does_ret. Qed.

Lemma drained_drain v : memo_true P (lv_memo v) -> drained (drain SumHex l v) (fun v' => lv_sql v' = lv_sql v).
Proof.
  intros Hm. unfold drain. destruct (lp_replication l) as [probe|]; [|by apply does_ret].
  eapply does_bind; [apply does_HasSegment|]. intros [[]|e] _; [|by apply does_ret|apply drained_fail].
  eapply does_bind; [apply does_ask_any|]. intros [[]|e] _; [|by apply does_ret|apply drained_fail].
  eapply (does_bind _ _ _ _ _ _ _ (fun _ => True)); [destruct (lp_cluster l); [apply does_ask_any|by apply does_ret]|].
  intros [|] _; [by apply does_ret|]. eapply does_bind; [apply does_quiet, listed_logs|]. intros [logs|e] _; [|apply drained_fail].
  eapply does_bind; [by apply (does_archivePending SumHex a (Some (onSurvivingTimeline l)) P)|]. intros [memo [res err]] _. cbv zeta.
  destruct err as [e|]; [eapply does_mono; [apply drained_fail|done]|by apply does_ret].
Qed.
End Safety.

(** ** Properties *)

(** C2: over any number of ticks from a fresh process, whatever requests fail and
    whatever else is written to the store short of unlisting this server's files,
    every purge the loop executed removed only rotated logs that are listed in the
    stored index and whose transactions every expected instance had applied: in
    the answer of the replica floor the purge acted on, no instance was unknown and
    every position holds all transactions of the log. *)
Theorem purged_logs_are_archived_and_applied {T} `{gtidOpsLaws T} `{Versioning} SumHex l (P : string -> string -> Prop) fuel
    env w w' v' :
  surroundings l P env -> w_unconditional w = false -> truthful (lp_archiver l) P (w_store w) ->
  (forall f gs, P f gs -> go_raw gs) ->
  (forall floor n positions unknown ok, lp_floor l = Some floor -> floor n = (positions, unknown, ok) ->
     map_Forall (fun _ raw => go_raw raw) positions) ->
  Run SumHex fuel l env w = (w', v') ->
  forall file, PurgedTo file ∈ lv_sql v' ->
  exists n rows floor k positions,
    rd_rows (lp_reader l) n = Ok rows /\ lp_floor l = Some floor /\ floor k = (positions, [], true) /\
    forall log, log ∈ before file (listing rows) ->
      bl_Active log = false /\ listed (lp_archiver l) (w_store w') (bl_Name log) /\
      exists gs fs, P (bl_Name log) gs /\ go_Parse gs = Ok fs /\
        forall inst raw, positions !! inst = Some raw ->
          exists s, go_Parse raw = Ok s /\ forall t, go_holds fs t -> go_holds s t.
Proof.
  intros Hs Hu Ht Hraw Hfloor Hrun file Hfile.
  destruct (triple_run_ticks SumHex l P fuel Vars_zero _ _ _ _ Hs Hu Ht (ready_zero _ _ _) Hrun) as (_ & _ & _ & [_ _ Hsql]).
  rewrite Forall_forall in Hsql. destruct (Hsql _ Hfile) as (n & rows & floor & k & positions & Hn & Hf & Hk & Hall).
  exists n, rows, floor, k, positions. split_and!; [done..|]. intros log Hlog.
  destruct (Hall log Hlog) as (Ha & Hl & gs & HP & fs & Hfs & Hpos). split_and!; [done..|]. exists gs, fs. split_and!; [done..|].
  intros inst raw Hi. destruct (Hpos inst raw Hi) as (s & Hs' & Hc). exists s. split; [done|].
  apply go_contains_iff; [| |done]; eapply go_parse_wf; [|done| |done]; [|by eapply Hraw].
  eapply (Hfloor floor k); eauto.
Qed.

(** What the purge gate plans once the floor answered. *)
Definition plan_exact {T} `{gtidOps T} (positions : gmap string string) (unknown : list string) (ok : bool) (limit : string)
    (candidates : list ArchivedFile) (plan : purgePlan) : Prop :=
  if negb ok then plan = no_purge
  else match unknown with
       | [] => purge_split (T := T) positions limit true candidates plan
       | _ => pp_to plan = "" /\ ph_file (pp_held plan) = default "" (af_Name <$> head candidates) /\
              ph_by (pp_held plan) ≡ₚ unknown
       end.

Lemma purge_loop_total {T} `{gtidOps T} applied limit candidates first :
  Forall (fun f => is_ok (go_Parse (T := T) (af_GTIDSet f)) = true) candidates ->
  exists plan, purge_loop (T := T) applied limit candidates first = Ok plan.
Proof.
  intros Hall. revert first. induction Hall as [|f cs Hf _ IH]; intros first; cbn; [eauto|].
  destruct (go_Parse (af_GTIDSet f)) as [fs|]; [|done]. cbn. destruct (fst <$> _); eauto.
Qed.

(** the purge gate is exact: with readable positions and files it always
    decides; an unobserved cluster purges nothing; an instance of unknown position
    holds the oldest candidate, by exactly the unknown instances; and otherwise the
    purge goes as far as every instance has applied, up to the log before the
    frontier, and stops at the first file that some instance lacks, reporting
    exactly the instances that lack it. *)
Theorem purge_plan_is_exact {T} `{gtidOps T} l logs res floor positions unknown ok candidates env w :
  let limit := fileBefore logs (ars_LastArchivedBinlog res) in
  lp_floor l = Some floor -> floor (w_calls w) = (positions, unknown, ok) ->
  limit <> "" -> files_before limit (ars_Files res) = candidates -> candidates <> [] ->
  map_Forall (fun _ raw => is_ok (go_Parse (T := T) raw) = true) positions ->
  Forall (fun f => is_ok (go_Parse (T := T) (af_GTIDSet f)) = true) candidates ->
  exists w' plan, planPurge (T := T) l logs res env w = (w', Ok plan) /\
    plan_exact (T := T) positions unknown ok limit candidates plan.
Proof.
  intros limit Hl Hfl Hlim Hcand Hne Hpos Hfiles. unfold planPurge, plan_exact. cbv zeta. rewrite Hl. fold limit.
  destruct (String.eqb_spec limit ""); [done|]. rewrite Hcand. destruct candidates as [|f rest]; [done|].
  unfold bind, ask. rewrite Hfl. destruct ok; cbn [negb]; [|by eexists _, _]. destruct unknown as [|u us]; cbn [length Nat.ltb Nat.leb].
  2: { eexists _, _. split; [reflexivity|]. split_and!; [done..|apply (isort_perm String.leb (u :: us))]. }
  assert (exists l', map_result (parse_position (T := T)) (map_to_list positions) = Ok l') as [l' El].
  { assert (Forall (fun x => is_ok (go_Parse (T := T) (snd x)) = true) (map_to_list positions)) as Hall.
    { apply Forall_forall. intros [i raw] Hi%elem_of_map_to_list. by apply (Hpos i raw). }
    induction Hall as [|[i raw] xs Hx _ [ys IH]]; cbn in *; [by eexists|]. unfold parse_position at 1. cbn.
    destruct (go_Parse raw); [|done]. cbn. rewrite IH. by eexists. }
  rewrite El. cbn [rbind]. destruct (purge_loop_total (isort (fun a b => String.leb (fst a) (fst b)) l') limit (f :: rest) true Hfiles) as [plan Hplan].
  rewrite Hplan. eexists _, plan. split; [reflexivity|]. eapply purge_loop_spec; [|exact Hplan]. exists l'. split; [done|apply isort_perm].
Qed.

(** The surviving timeline holds the file: another instance is the primary, and
    its position covers the file's transactions, each of them on the recorded
    timeline for MariaDB. *)
Definition survives (l : Loop) (gs : string) : Prop :=
  exists c n primary position,
    lp_cluster l = Some c /\ cv_Primary c n = (primary, position, true) /\ primary <> "" /\ primary <> lp_instance l /\
    (gs = "" \/
     (lp_mariadb l = false /\ exists p g, ParseGTIDSet position = Ok p /\ ParseGTIDSet gs = Ok g /\
        forall u k, gtid_in g u k -> gtid_in p u k) \/
     (lp_mariadb l = true /\ exists timeline file held,
        cv_Timeline c n = (timeline, true) /\ ParseMariaDBPosition gs = Ok file /\ ParseMariaDBPosition position = Ok held /\
        forall g, g ∈ file -> Timeline_Verdict timeline g = (true, true) /\
          (g_Seq g <= 0 \/ exists h, h ∈ held /\ g_Domain h = g_Domain g /\ g_Seq g <= g_Seq h))).

Lemma onSurvivingTimeline_sound l n f scan :
  onSurvivingTimeline l n f scan = Ok true -> survives l (sr_GTIDSet scan).
Proof.
  unfold onSurvivingTimeline. destruct (lp_cluster l) as [c|] eqn:El; [|done].
  destruct (cv_Primary c n) as [[primary position] ok] eqn:Ep. destruct (_ || _) eqn:Eg; [done|]. boolp. subst ok.
  intros Hrun. exists c, n, primary, position. split_and!; [done..|]. revert Hrun.
  destruct (String.eqb_spec (sr_GTIDSet scan) ""); [by left|]. right. revert Hrun.
  destruct (lp_mariadb l); cbn [negb]; intros Hrun; [right|left].
  - split; [done|]. destruct (cv_Timeline c n) as [timeline []]; [|done]. cbn [negb] in Hrun.
    destruct (ParseMariaDBPosition (sr_GTIDSet scan)) as [file|]; [|done].
    destruct (ParseMariaDBPosition position) as [held|]; [|done]. cbn in Hrun. injection Hrun as Hall.
    exists timeline, file, held. split_and!; [done..|]. intros g Hg. rewrite forallb_forall in Hall.
    specialize (Hall g (proj1 (list_elem_of_In _ _) Hg)). destruct (Timeline_Verdict timeline g) as [on known].
    boolp. subst. split; [done|]. destruct (list_to_map _ !! g_Domain g) as [q|] eqn:Eq; cbn in *; [|left; lia].
    right. apply elem_of_list_to_map_2 in Eq. rewrite elem_of_reverse in Eq. apply list_elem_of_fmap in Eq as (h & [= Hd ->] & Hh).
    exists h. split_and!; [done..|lia].
  - split; [done|]. unfold GTIDContains in Hrun. destruct (ParseGTIDSet position) as [p|] eqn:EP; [|done].
    destruct (ParseGTIDSet (sr_GTIDSet scan)) as [g|] eqn:EG; [|done]. cbn in Hrun. injection Hrun as Hc. exists p, g.
    split_and!; [done..|]. apply GTIDSet_Contains_spec; [..|done]; eauto using ParseGTIDSet_wf with gtid.
Qed.

(** C9: a tick of an instance that is not writable executes no statement, and
    every file it ships is one whose true contents another primary provably holds:
    nothing of a diverged tail enters the archive. *)
Theorem drain_ships_only_surviving_files {T} `{gtidOps T} `{Versioning} SumHex l (P : string -> string -> Prop) v env w w1 w' v' :
  honest (lp_archiver l) P env -> truthful (lp_archiver l) P (w_store w) -> memo_true P (lv_memo v) ->
  Writable (lp_reader l) env w = (w1, Ok false) -> tick SumHex l v env w = (w', v') ->
  lv_sql v' = lv_sql v /\ truthful (lp_archiver l) P (w_store w') /\
  exists new, w_log w' = w_log w ++ new /\
    forall k old bytes, Wrote k old (OBody bytes) ∈ new ->
      exists f keys gs, keys_of (lp_archiver l) f = Ok keys /\ k = bk_BinlogKey keys /\ P f gs /\ survives l gs.
Proof.
  intros Hh Ht Hm Hw Hrun. unfold tick, bind in Hrun. rewrite Hw in Hrun.
  destruct (quiet_Writable (lp_reader l) env w) as (Hl1 & _ & Hs1). rewrite Hw in Hl1, Hs1. cbn in Hl1, Hs1. rewrite <- Hs1 in Ht.
  destruct (drained_drain SumHex l P env (step_down v) Hm _ _ _ Hh Ht Hrun) as (Ht' & Hsql & new & Hlog & Hnew).
  split_and!; [done..|]. exists new. split; [by rewrite Hlog, Hl1|]. intros k old bytes Hin.
  rewrite Forall_forall in Hnew. destruct (Hnew _ Hin) as (f & keys & Hk & Hkey & (scan & HP & Hacc) & _). cbn in Hkey.
  destruct (Hacc _ eq_refl) as [n Hn]. exists f, keys, (sr_GTIDSet scan). split_and!; [done..|]. by eapply onSurvivingTimeline_sound.
Qed.

(** ** A sample loop *)

Module SampleLoop.
Definition rows : list (string * string) :=
  [("binlog.000001", "5"); ("binlog.000002", "5"); ("binlog.000003", "5"); ("binlog.000004", "4")].
Definition reader (read_only : string) : Reader :=
  mkReader (fun _ => Ok read_only) (fun _ => Ok read_only) (fun _ => Ok rows) (fun _ => Ok tt).
Definition positions : gmap string string := {["c-1" := "a:1-9"; "c-2" := "a:1-7"]}.
Definition floor : ReplicaFloor := fun _ => (positions, [], true).
Definition cluster : ClusterView :=
  mkClusterView (fun _ => ("c-2", "a:1-7", true)) (fun _ _ => false) (fun _ => ([], false)).
Definition loop (read_only : string) : Loop :=
  mkLoop (reader read_only) Sample.archiver (Some (fun _ => Ok true)) (Some cluster) "c-1" false 10 true (Some floor).
Definition truth (_ gs : string) : Prop := gs = "a:1-5".

(** Another log was archived before this instance was demoted. *)
Definition demoted : World :=
  mkWorld {["c/binlogs/u1/_archive_status.json" := OStatus (mkArchiveStatus "c" "u1" "c-1" "binlog.000000" "" "" "" 0)]} 0 [] false.

Lemma rows_in_order : in_index_order rows.
Proof.
  split.
  - apply Forall_forall. repeat constructor; eexists; (split; [vm_compute; reflexivity|lia]).
  - intros i j x y s t Hij Hx Hy Hs Ht. destruct i as [|[|[|[|i]]]], j as [|[|[|[|j]]]]; cbn in Hx, Hy; try done; try lia;
      injection Hx as <-; injection Hy as <-; vm_compute in Hs, Ht; injection Hs as <-; injection Ht as <-; lia.
Qed.

Lemma settled read_only : surroundings (loop read_only) truth Sample.env.
Proof.
  split; [exact Fresh.relies| |intros n r [= <-]; exact rows_in_order].
  split; [intros n f s [= <-]; reflexivity|intros n st Hst; exact Hst].
Qed.
End SampleLoop.

Lemma purged_logs_are_archived_and_applied_witness :
  let run := Run (T := GTIDSet) (H0 := ContentTags.tags) Fresh.sum 1 (SampleLoop.loop "0") Sample.env Sample.start in
  lv_sql (snd run) = [PurgedTo "binlog.000002"] /\
  exists n rows floor k positions,
    rd_rows (SampleLoop.reader "0") n = Ok rows /\ lp_floor (SampleLoop.loop "0") = Some floor /\ floor k = (positions, [], true) /\
    forall log, log ∈ before "binlog.000002" (listing rows) -> listed Sample.archiver (w_store (fst run)) (bl_Name log).
Proof.
  intros run. assert (lv_sql (snd run) = [PurgedTo "binlog.000002"]) as Hsql by (vm_compute; reflexivity). split; [exact Hsql|].
  destruct (purged_logs_are_archived_and_applied (T := GTIDSet) (H1 := ContentTags.tags) Fresh.sum (SampleLoop.loop "0")
    SampleLoop.truth 1 Sample.env Sample.start (fst run) (snd run) (SampleLoop.settled "0") eq_refl) with (file := "binlog.000002")
    as (n & rows & floor & k & positions & H1 & H2 & H3 & H4).
  - intros f keys m _ Hm. cbn in Hm. by rewrite lookup_empty in Hm.
  - done.
  - intros fl n pos unk ok _ _ i raw _. exact I.
  - apply surjective_pairing.
  - rewrite Hsql. left.
  - exists n, rows, floor, k, positions. split_and!; [done..|]. intros log Hlog. by destruct (H4 log Hlog) as (_ & ? & _).
Defined.

Lemma purge_plan_is_exact_witness :
  let res := mkArchiveResult [] "binlog.000003" "" "" 0
    [mkArchivedFile "binlog.000001" "a:1-5"; mkArchivedFile "binlog.000002" "a:6-9"; mkArchivedFile "binlog.000003" "a:10"] None "" in
  exists w' plan, planPurge (T := GTIDSet) (SampleLoop.loop "0") (listing SampleLoop.rows) res Sample.env Sample.start = (w', Ok plan) /\
    plan_exact (T := GTIDSet) SampleLoop.positions [] true "binlog.000002" [mkArchivedFile "binlog.000001" "a:1-5"] plan.
Proof.
  intros res. apply (purge_plan_is_exact (T := GTIDSet) (SampleLoop.loop "0") (listing SampleLoop.rows) res SampleLoop.floor
    SampleLoop.positions [] true _ Sample.env Sample.start); try reflexivity; try done.
  - intros i raw. unfold SampleLoop.positions. rewrite lookup_insert_Some. intros [[_ <-]|[_ Hi]]; [vm_compute; reflexivity|].
    apply lookup_singleton_Some in Hi as [_ <-]. vm_compute. reflexivity.
  - repeat constructor.
Defined.

Lemma drain_ships_only_surviving_files_witness :
  let run := tick (T := GTIDSet) (H0 := ContentTags.tags) Fresh.sum (SampleLoop.loop "1") Vars_zero Sample.env SampleLoop.demoted in
  ls_LastArchivedBinlog (lv_state (snd run)) = "binlog.000003" /\ lv_sql (snd run) = [] /\
  truthful Sample.archiver SampleLoop.truth (w_store (fst run)).
Proof.
  intros run. split; [vm_compute; reflexivity|].
  destruct (drain_ships_only_surviving_files (T := GTIDSet) (H0 := ContentTags.tags) Fresh.sum (SampleLoop.loop "1") SampleLoop.truth
    Vars_zero Sample.env SampleLoop.demoted (fst (Writable (SampleLoop.reader "1") Sample.env SampleLoop.demoted)) (fst run) (snd run))
    as (Hsql & Ht & _).
  - exact (su_honest _ _ _ (SampleLoop.settled "1")).
  - intros f keys m _ Hm. cbn in Hm. apply lookup_singleton_Some in Hm as [_ [=]].
  - split; apply map_Forall_empty.
  - vm_compute. reflexivity.
  - apply surjective_pairing.
  - split; [exact Hsql|exact Ht].
Defined.
