(* ===== verification/Retention.v ===== *)
(** * Retention

    [pkg/management/mysql/objectstore/retention.go], the selection and expiry
    functions of [logical.go], [internal/controller/cluster_retention.go],
    [internal/controller/scheduledbackup_retention.go] and the retention-policy
    parser of [api/v1alpha1/cluster_funcs.go]: which base backups, archived binary
    logs, logical backups and Backup objects a retention pass deletes, and how the
    archive index follows.

    The listings of the object store are answers of the environment; the index
    rewrite runs in the object-store model.  The theorems show that a pass deletes
    only from stores proven to be the cluster's own, never the newest backup, and
    never a binary log a retained backup could need; and that rewriting the index
    drops the deleted files and nothing else, whoever writes concurrently. *)

From Stdlib Require Import ZArith Lia Bool Ascii String DecimalString.
From stdpp Require Import base list strings gmap sorting.
From S2P Require Import Prelude GoStrings Gtid GtidText GtidModel MariaGtid MariaTimeline Archive Forks GtidOps ObjectStore.

Local Open Scope Z_scope.
#[local] Arguments String.append : simpl nomatch.

(** ** The retention window *)

Definition day : Duration := 24 * 3600 * 1000000000.

(** [retentionUnitDuration]. *)
Definition retentionUnitDuration (unit : ascii) : option Duration :=
  if Ascii.eqb unit "d" then Some day
  else if Ascii.eqb unit "w" then Some (7 * day)
  else if Ascii.eqb unit "m" then Some (30 * day)
  else None.

(** The text before the last character, and that character. *)
Fixpoint split_last (c : ascii) (s : string) : string * ascii :=
  match s with
  | EmptyString => (EmptyString, c)
  | String c' s' => let '(front, last) := split_last c' s' in (String c front, last)
  end.

(** [retentionPolicyRe]: a positive number without leading zeros, then a unit. *)
Definition retentionPolicyRe (policy : string) : option (string * Duration) :=
  match policy with
  | EmptyString => None
  | String c s =>
      let '(number, unit) := split_last c s in
      match number, retentionUnitDuration unit with
      | String c0 _, Some d => if negb (Ascii.eqb c0 "0") && all_chars is_digit number then Some (number, d) else None
      | _, _ => None
      end
  end.

(** The product wraps at 64 bits. *)
Definition ParseRetentionPolicy (policy : string) : result Duration :=
  match retentionPolicyRe policy with
  | None => Err (Errorf "invalid retention policy")
  | Some (number, unit) =>
      match ParseInt number with
      | None => Err (Errorf "invalid retention policy")
      | Some n => Ok (i64 (n * unit))
      end
  end.

(** ** Backups *)

Record BackupMetadata := mkBackupMetadata {
  bu_BackupID : string;
  bu_ClusterName : string;
  bu_ClusterUID : string;
  bu_BackupName : string;
  bu_InstanceName : string;
  bu_Method : string;
  bu_ArchiveKey : string;
  bu_Compressed : bool;
  bu_SizeBytes : Z;
  bu_SHA256 : string;
  bu_AnchorGTID : string;
  bu_AnchorServerUUID : string;
  bu_StartedAt : Time;
  bu_CompletedAt : Time
}.

Record BackupEntry := mkBackupEntry { be_Prefix : string; be_Meta : BackupMetadata }.
Definition completed (e : BackupEntry) : Time := bu_CompletedAt (be_Meta e).
Definition started (e : BackupEntry) : Time := bu_StartedAt (be_Meta e).

Record BinlogEntry := mkBinlogEntry { bn_Keys : BinlogKeys; bn_Meta : BinlogMetadata }.

Definition SelectLatestBackup (entries : list BackupEntry) : result BackupEntry :=
  match entries with
  | [] => Err (Errorf "no base backups found in object store")
  | e :: entries' =>
      Ok (foldl (fun latest entry => if completed latest <? completed entry then entry else latest) e entries')
  end.

Definition FindBackupByID (entries : list BackupEntry) (id : string) : result BackupEntry :=
  match List.find (fun e => String.eqb (bu_BackupID (be_Meta e)) id) entries with
  | Some e => Ok e
  | None => Err (Errorf "no base backup with this backupID found in object store")
  end.

Record LogicalBackupMetadata := mkLogicalBackupMetadata {
  lm_FormatVersion : Z;
  lm_BackupID : string;
  lm_ClusterName : string;
  lm_ClusterUID : string;
  lm_BackupName : string;
  lm_InstanceName : string;
  lm_Method : string;
  lm_Tool : string;
  lm_Flavor : string;
  lm_ServerVersion : string;
  lm_Compression : string;
  lm_ArchiveKey : string;
  lm_SizeBytes : Z;
  lm_UncompressedBytes : Z;
  lm_SHA256 : string;
  lm_Databases : list string;
  lm_SnapshotGTID : string;
  lm_SnapshotBinlog : string;
  lm_StartedAt : Time;
  lm_CompletedAt : Time
}.

Record LogicalBackupEntry := mkLogicalBackupEntry { le_Prefix : string; le_Meta : LogicalBackupMetadata }.
Definition dumped (e : LogicalBackupEntry) : Time := lm_CompletedAt (le_Meta e).

Definition LogicalFormatVersion : Z := 1.
Definition LogicalCompressionZstd : string := "zstd".

(** [None] when the import can go ahead. *)
Definition CheckImportable (m : LogicalBackupMetadata) (flavor : string) (selected : list string) : option error :=
  if negb (lm_FormatVersion m =? LogicalFormatVersion) then Some (Errorf "the dump uses another format version")
  else if negb (String.eqb (lm_Compression m) LogicalCompressionZstd) then Some (Errorf "the dump uses another compression")
  else if negb (String.eqb (lm_Flavor m) "") && negb (String.eqb (lm_Flavor m) flavor) then
    Some (Errorf "the dump was taken on another flavor")
  else
    match List.filter (fun db => negb (bool_decide (db ∈ lm_Databases m))) selected with
    | [] => None
    | _ => Some (Errorf "databases are not in the dump")
    end.

Definition SelectLatestLogicalBackup (entries : list LogicalBackupEntry) : result LogicalBackupEntry :=
  match entries with
  | [] => Err (Errorf "no logical backups found in object store")
  | e :: entries' => Ok (foldl (fun latest entry => if dumped latest <? dumped entry then entry else latest) e entries')
  end.

Definition FindLogicalBackupByID (entries : list LogicalBackupEntry) (id : string) : result LogicalBackupEntry :=
  match List.find (fun e => String.eqb (lm_BackupID (le_Meta e)) id) entries with
  | Some e => Ok e
  | None => Err (Errorf "no logical backup with this backupID found in object store")
  end.

(** ** Sorting *)

(** [sort.Slice] by a strict weak order: some permutation in which no element is
    less than an earlier one.  Equal elements may come in any order. *)
Class SortSlice := {
  sort_Slice : forall {A}, (A -> A -> bool) -> list A -> list A;
  sort_Slice_perm {A} (less : A -> A -> bool) l : sort_Slice less l ≡ₚ l;
  sort_Slice_sorted {A} (less : A -> A -> bool) l :
    (forall x y, less x y = true -> less y x = false) ->
    (forall x y z, less y x = false -> less z y = false -> less z x = false) ->
    StronglySorted (fun x y => less y x = false) (sort_Slice less l)
}.

(** The prefix breaks the ties of dumps. *)
Definition dump_leb (a b : LogicalBackupEntry) : bool :=
  if negb (dumped a =? dumped b) then dumped a <? dumped b else String.leb (le_Prefix a) (le_Prefix b).

(** [sort.SliceStable], so insertion sort is as good as any. *)
Definition PlanLogicalRetention (entries : list LogicalBackupEntry) (cutoff : Time) : list string :=
  let sorted := isort dump_leb entries in
  le_Prefix <$> List.filter (fun e => negb (IsZero (dumped e)) && (dumped e <? cutoff)) (List.removelast sorted).

(** ** The plan *)

Abbreviation Deleted := (gmap string (gset string)).

Record RetentionPlan := mkRetentionPlan {
  rp_DeleteBackupPrefixes : list string;
  rp_DeleteBinlogKeys : list string;
  rp_NewIndex : option ArchiveIndex;
  rp_DeletedBinlogs : Deleted;
  rp_Horizon : Time
}.

Definition RetentionPlan_Empty (p : RetentionPlan) : bool :=
  Nat.eqb (length (rp_DeleteBackupPrefixes p)) 0 && Nat.eqb (length (rp_DeleteBinlogKeys p)) 0.

(** [deleted[u]], and whether the map has the key. *)
Definition keep_binlogs (gone : gset string) (names : list string) : list string :=
  List.filter (fun n => negb (bool_decide (n ∈ gone))) names.

Definition with_binlogs (s : ArchiveSegment) (names : list string) : ArchiveSegment :=
  mkArchiveSegment (sg_ServerUUID s) (sg_InstanceName s) names (sg_GTIDSet s) (sg_StartGTIDSet s) (sg_Fork s)
    (sg_StartedAt s) (sg_EndedAt s).

Definition rewrite_segment (deleted : Deleted) (s : ArchiveSegment) : list ArchiveSegment :=
  match deleted !! sg_ServerUUID s with
  | None => [s]
  | Some gone =>
      match keep_binlogs gone (sg_Binlogs s) with
      | [] => []
      | kept => [with_binlogs s kept]
      end
  end.

Definition rewriteIndex (index : ArchiveIndex) (deleted : Deleted) (at_ : Time) : ArchiveIndex :=
  mkArchiveIndex (ix_ClusterName index) (ix_ClusterUID index) (concat (rewrite_segment deleted <$> ix_Segments index))
    (ix_CoveredGTIDSet index) at_ (ix_ForkCheck index) (ix_Generation index) (ix_Disowned index)
    (ix_ArchivedThrough index) (ix_MariaDBTimeline index).

(** A file the horizon makes uncoverable; an unknown last event keeps it. *)
Definition uncoverable (horizon : Time) (e : BinlogEntry) : bool :=
  let last := bm_LastEventTime (bn_Meta e) in negb (IsZero last) && (last <? horizon).

Definition note_deleted (deleted : Deleted) (e : BinlogEntry) : Deleted :=
  <[bm_ServerUUID (bn_Meta e) := {[bm_BinlogName (bn_Meta e)]} ∪ default ∅ (deleted !! bm_ServerUUID (bn_Meta e))]> deleted.

Definition applyBinlogGC (plan : RetentionPlan) (binlogs : list BinlogEntry) (index : option ArchiveIndex) (at_ : Time)
  : RetentionPlan :=
  match index with
  | None => plan
  | Some index =>
      if IsZero (rp_Horizon plan) then plan
      else
        let gone := List.filter (uncoverable (rp_Horizon plan)) binlogs in
        let keys := rp_DeleteBinlogKeys plan ++
                    concat ((fun e => [bk_BinlogKey (bn_Keys e); bk_ManifestKey (bn_Keys e)]) <$> gone) in
        let deleted := foldl note_deleted ∅ gone in
        match gone with
        | [] => mkRetentionPlan (rp_DeleteBackupPrefixes plan) keys (rp_NewIndex plan) (rp_DeletedBinlogs plan) (rp_Horizon plan)
        | _ => mkRetentionPlan (rp_DeleteBackupPrefixes plan) keys (Some (rewriteIndex index deleted at_)) deleted (rp_Horizon plan)
        end
  end.

(** The loop over the sorted backups: the prefixes to delete, and the retained
    ones.  The last one is the newest. *)
Fixpoint expire_backups (cutoff : Time) (sorted : list BackupEntry) : list string * list BackupEntry :=
  match sorted with
  | [] => ([], [])
  | e :: rest =>
      let '(gone, kept) := expire_backups cutoff rest in
      if negb (Nat.eqb (length rest) 0) && (completed e <? cutoff) then (be_Prefix e :: gone, kept) else (gone, e :: kept)
  end.

Section Plan.
Context `{SortSlice}.

Definition older (a b : BackupEntry) : bool := completed a <? completed b.

Definition no_plan : RetentionPlan := mkRetentionPlan [] [] None ∅ 0.

Definition PlanRetention (backups : list BackupEntry) (binlogs : list BinlogEntry) (index : option ArchiveIndex)
    (cutoff at_ : Time) : RetentionPlan :=
  match backups with
  | [] => no_plan
  | _ =>
      let '(prefixes, retained) := expire_backups cutoff (sort_Slice older backups) in
      match prefixes, retained with
      | [], _ => no_plan
      | _, oldest :: _ => applyBinlogGC (mkRetentionPlan prefixes [] None ∅ (started oldest)) binlogs index at_
      | _, [] => no_plan (* [retained[0]] of an empty slice: the newest is always retained *)
      end
  end.
End Plan.

(** ** Rewriting the stored index *)

Section Rewrite.
Context `{Versioning}.

Definition rewrite_mutation (deleted : Deleted) (_ : unit) (idx : ArchiveIndex) (exists_ : bool)
  : IO (unit * result (ArchiveIndex * bool)) :=
  if exists_ then do! at_ := now in ret (tt, Ok (rewriteIndex idx deleted at_, true)) else ret (tt, Ok (idx, false)).

Definition rewriteArchiveIndex (key : string) (plan : RetentionPlan) : IO (result unit) :=
  if decide (rp_DeletedBinlogs plan = ∅) then ret (Ok tt)
  else do! (_, r) := UpdateArchiveIndex key (rewrite_mutation (rp_DeletedBinlogs plan)) tt in ret r.
End Rewrite.

(** ** The pass *)

(** What the pass reads of the Cluster.  [rc_Policy] is [None] without a backup
    configuration; [rc_Store] and [rc_BinlogStore] are the locations of the two
    stores, [None] when unset. *)
Record RetentionCluster := mkRetentionCluster {
  rc_UID : string;
  rc_Policy : option string;
  rc_Store : option string;
  rc_BinlogStore : string;
  rc_CurrentPrimary : string;
  rc_LastRetentionRunTime : option Time
}.

Definition retentionInterval : Duration := 3600 * 1000000000.

(** The answers of the API server, the object store and the clock. *)
Record Answers := mkAnswers {
  an_since : Time;
  an_config : result unit;
  an_client : result unit;
  an_backups : result (list BackupEntry);
  an_logical : result (list LogicalBackupEntry);
  an_binlogClient : result unit;
  an_binlogs : result (list BinlogEntry);
  an_index_exists : result bool;
  an_index : result ArchiveIndex;
  an_now : Time;
  an_planned : Time;
  an_removed : string -> result unit;
  an_rewritten : result unit;
  an_stamped : result unit
}.

(** What the pass sets out to do, in order. *)
Inductive action :=
| RemoveBackup (prefix : string)
| RemoveBinlog (key : string)
| RewriteIndex
| RemoveDump (prefix : string)
| Skip (reason : string)
| Stamp.

Definition eventObjectStoreCredentialsRequired : string := "ObjectStoreCredentialsRequired".
Definition reasonObjectStoreCredentialsRefused : string := "ObjectStoreCredentialsRefused".
Definition eventRetentionNotOwned : string := "RetentionNotOwned".

Definition retentionCredentialsRefused {A} (r : result A) : string :=
  match r with
  | Err ErrAmbientCredentialsDisabled => eventObjectStoreCredentialsRequired
  | Err ErrCredentialsSecretRefused => reasonObjectStoreCredentialsRefused
  | _ => ""
  end.

(** Why nothing may be deleted, or empty when every location is the cluster's. *)
Definition retentionOwnership (uid : string) (sameLocation : bool) (backups : list BackupEntry)
    (logical : list LogicalBackupEntry) (binlogs : list BinlogEntry) (index : option ArchiveIndex) : string :=
  if String.eqb uid "" then "the Cluster has no UID"
  else
    let backupsOwned := existsb (fun b => String.eqb (bu_ClusterUID (be_Meta b)) uid) backups
                        || existsb (fun l => String.eqb (lm_ClusterUID (le_Meta l)) uid) logical in
    let archiveOwned := match index with Some i => String.eqb (ix_ClusterUID i) uid | None => false end in
    let backupsOwned' := if sameLocation then backupsOwned || archiveOwned else backupsOwned in
    let archiveOwned' := if sameLocation then backupsOwned' else archiveOwned in
    if negb backupsOwned' && Nat.ltb 0 (length backups + length logical) then
      "no backup manifest or archive index at the backup store carries this Cluster's UID"
    else if negb archiveOwned' && (Nat.ltb 0 (length binlogs) || match index with Some _ => true | None => false end) then
      "the binary-log archive index does not carry this Cluster's UID"
    else "".

(** The steps of a pass, until one of them fails. *)
Fixpoint perform (steps : list (action * result unit)) : list action * option error :=
  match steps with
  | [] => ([], None)
  | (a, Ok _) :: steps' => let '(done, err) := perform steps' in (a :: done, err)
  | (a, Err e) :: _ => ([a], Some e)
  end.

Definition skipRetention (ans : Answers) (reason : string) : list action * option error :=
  perform [(Skip reason, Ok tt); (Stamp, an_stamped ans)].

(** An error ends the pass with nothing done, a refusal of the credentials with a
    warning. *)
Definition or_refused {A} (ans : Answers) (r : result A) (k : A -> list action * option error) : list action * option error :=
  let reason := retentionCredentialsRefused r in
  if negb (String.eqb reason "") then skipRetention ans reason
  else match r with Err e => ([], Some e) | Ok x => k x end.

Definition or_error {A} (r : result A) (k : A -> list action * option error) : list action * option error :=
  match r with Err e => ([], Some e) | Ok x => k x end.

Section Pass.
Context `{SortSlice}.

(** What a plan and the expired dumps amount to. *)
Definition expiry_steps (ans : Answers) (plan : RetentionPlan) (dumps : list string) : list (action * result unit) :=
  (if RetentionPlan_Empty plan then []
   else ((fun p => (RemoveBackup p, an_removed ans p)) <$> rp_DeleteBackupPrefixes plan) ++
        ((fun k => (RemoveBinlog k, an_removed ans k)) <$> rp_DeleteBinlogKeys plan) ++
        (if decide (rp_DeletedBinlogs plan = ∅) then [] else [(RewriteIndex, an_rewritten ans)])) ++
  ((fun p => (RemoveDump p, an_removed ans p)) <$> dumps) ++ [(Stamp, an_stamped ans)].

Definition reconcileRetention (c : RetentionCluster) (ans : Answers) : list action * option error :=
  match rc_Policy c, rc_Store c with
  | Some policy, Some store =>
      if String.eqb policy "" then ([], None)
      else if String.eqb (rc_CurrentPrimary c) "" then ([], None)
      else
        match ParseRetentionPolicy policy with
        | Err _ => ([], None)
        | Ok window =>
            if match rc_LastRetentionRunTime c with Some last => an_since ans - last <? retentionInterval | None => false end
            then ([], None)
            else
              or_refused ans (an_config ans) (fun _ =>
              or_error (an_client ans) (fun _ =>
              or_error (an_backups ans) (fun backups =>
              or_error (an_logical ans) (fun logical =>
              let sameLocation := String.eqb store (rc_BinlogStore c) in
              or_refused ans (if sameLocation then Ok tt else an_binlogClient ans) (fun _ =>
              or_error (an_binlogs ans) (fun binlogs =>
              or_error (an_index_exists ans) (fun exists_ =>
              or_error (if exists_ : bool then let? i := an_index ans in Ok (Some i) else Ok None) (fun index =>
              let reason := retentionOwnership (rc_UID c) sameLocation backups logical binlogs index in
              if negb (String.eqb reason "") then skipRetention ans eventRetentionNotOwned
              else
                let cutoff := an_now ans - window in
                perform (expiry_steps ans (PlanRetention backups binlogs index cutoff (an_planned ans))
                           (PlanLogicalRetention logical cutoff))))))))))
        end
  | _, _ => ([], None)
  end.
End Pass.

(** ** Backup objects of a schedule *)

Definition BackupPhaseCompleted : string := "completed".
Definition BackupPhaseFailed : string := "failed".

Record Backup := mkBackup { bo_Name : string; bo_Phase : string; bo_CreationTimestamp : Time }.

Record ScheduledBackup := mkScheduledBackup {
  sb_SuccessfulBackupsHistoryLimit : option Z;
  sb_FailedBackupsHistoryLimit : option Z;
  sb_RetentionPolicy : string
}.

Definition HasRetention (s : ScheduledBackup) : bool :=
  bool_decide (is_Some (sb_SuccessfulBackupsHistoryLimit s)) || bool_decide (is_Some (sb_FailedBackupsHistoryLimit s))
  || negb (String.eqb (sb_RetentionPolicy s) "").

Definition RetentionWindow (s : ScheduledBackup) : Duration :=
  if String.eqb (sb_RetentionPolicy s) "" then 0
  else match ParseRetentionPolicy (sb_RetentionPolicy s) with Ok w => w | Err _ => 0 end.

Section Schedule.
Context `{SortSlice}.

Definition newer (a b : Backup) : bool :=
  if bo_CreationTimestamp a =? bo_CreationTimestamp b then String.ltb (bo_Name b) (bo_Name a)
  else bo_CreationTimestamp b <? bo_CreationTimestamp a.

Definition sortNewestFirst (entries : list Backup) : list Backup := sort_Slice newer entries.

Definition in_phase (p : string) (children : list Backup) : list Backup :=
  List.filter (fun b => String.eqb (bo_Phase b) p) children.

(** The closure [collect]: the candidates by name, in the map so far. *)
Fixpoint collect (entries : list Backup) (i : Z) (limit : option Z) (window : Duration) (now_ : Time)
    (candidates : gmap string Backup) : gmap string Backup :=
  match entries with
  | [] => candidates
  | entry :: entries' =>
      let overCount := match limit with Some l => l <=? i | None => false end in
      let overAge := (0 <? window) && (bo_CreationTimestamp entry <? now_ - window) in
      collect entries' (i + 1) limit window now_
        (if overCount || overAge then <[bo_Name entry := entry]> candidates else candidates)
  end.

Definition planBackupGC (children : list Backup) (succLimit failLimit : option Z) (window : Duration) (now_ : Time)
  : list Backup :=
  let completed := sortNewestFirst (in_phase BackupPhaseCompleted children) in
  let failed := sortNewestFirst (in_phase BackupPhaseFailed children) in
  let candidates := collect failed 0 failLimit window now_ (collect completed 0 succLimit window now_ ∅) in
  let candidates := match completed with [] => candidates | floor :: _ => delete (bo_Name floor) candidates end in
  snd <$> map_to_list candidates.

(** The deletions requested, with the answer of the API server by name ([None]:
    the object was already gone). *)
Fixpoint delete_backups (answer : string -> option (result unit)) (plan : list Backup) : list string * option error :=
  match plan with
  | [] => ([], None)
  | b :: plan' =>
      match answer (bo_Name b) with
      | Some (Err e) => ([bo_Name b], Some e)
      | _ => let '(done, err) := delete_backups answer plan' in (bo_Name b :: done, err)
      end
  end.

Definition reconcileBackupGC (s : ScheduledBackup) (children : list Backup) (now_ : Time)
    (answer : string -> option (result unit)) : list string * option error :=
  if HasRetention s
  then delete_backups answer
         (planBackupGC children (sb_SuccessfulBackupsHistoryLimit s) (sb_FailedBackupsHistoryLimit s) (RetentionWindow s) now_)
  else ([], None).
End Schedule.

(** ** Lemmas: the plan *)

Lemma List_filter_perm {A} (p : A -> bool) (l : list A) : l ≡ₚ List.filter p l ++ List.filter (fun x => negb (p x)) l.
Proof.
  induction l as [|x l IH]; cbn; [done|]. destruct (p x); cbn; [by constructor|].
  rewrite <- Permutation_middle. by constructor.
Qed.

Lemma expire_backups_spec cutoff front newest :
  expire_backups cutoff (front ++ [newest]) =
  (be_Prefix <$> List.filter (fun e => completed e <? cutoff) front,
   List.filter (fun e => negb (completed e <? cutoff)) front ++ [newest]).
Proof.
  induction front as [|e front IH]; cbn; [done|]. rewrite IH, length_app, Nat.add_comm. cbn.
  by destruct (completed e <? cutoff).
Qed.

Lemma StronglySorted_last {A} (R : A -> A -> Prop) l x : StronglySorted R (l ++ [x]) -> Forall (fun y => R y x) l.
Proof.
  induction l as [|y l IH]; cbn; intros Hs; [done|]. inversion Hs as [|? ? Hs' Hall]; subst. constructor; [|by apply IH].
  apply Forall_app in Hall as [_ Hx]. by inversion Hx.
Qed.

Lemma older_sorted `{SortSlice} l : StronglySorted (fun x y => completed x <= completed y) (sort_Slice older l).
Proof.
  eapply StronglySorted_weaken; [|apply sort_Slice_sorted]; unfold older; intros; lia.
Qed.

(** The first element of a sorted list filtered and extended by its maximum. *)
Lemma sorted_head {A} (key : A -> Z) (p : A -> bool) front x y rest :
  StronglySorted (fun a b => key a <= key b) (front ++ [x]) -> List.filter p front ++ [x] = y :: rest ->
  forall z, z ∈ List.filter p front ++ [x] -> key y <= key z.
Proof.
  intros Hs. revert y rest. induction front as [|e front IH]; cbn in *; intros y rest Heq z Hz.
  - injection Heq as -> _. apply list_elem_of_singleton in Hz as ->. lia.
  - inversion Hs as [|? ? Hs' Hall]; subst. destruct (p e); [|by eapply IH].
    injection Heq as -> Heq. rewrite <- app_comm_cons, elem_of_cons in Hz. destruct Hz as [->|Hz]; [lia|].
    rewrite Forall_forall in Hall. apply Hall. rewrite elem_of_app, elem_of_filter_bool in Hz. set_solver.
Qed.

Lemma note_deleted_lookup deleted e u f :
  f ∈ default ∅ (note_deleted deleted e !! u) <->
  f ∈ default ∅ (deleted !! u) \/ (u = bm_ServerUUID (bn_Meta e) /\ f = bm_BinlogName (bn_Meta e)).
Proof.
  unfold note_deleted. destruct (decide (u = bm_ServerUUID (bn_Meta e))) as [->|Hne].
  - rewrite lookup_insert_eq. cbn. set_solver.
  - rewrite lookup_insert_ne by done. naive_solver.
Qed.

Lemma foldl_deleted gone deleted u f :
  f ∈ default ∅ (foldl note_deleted deleted gone !! u) <->
  f ∈ default ∅ (deleted !! u) \/ exists e, e ∈ gone /\ u = bm_ServerUUID (bn_Meta e) /\ f = bm_BinlogName (bn_Meta e).
Proof.
  revert deleted. induction gone as [|e gone IH]; intros deleted; cbn; [set_solver|].
  rewrite IH, note_deleted_lookup. set_solver.
Qed.

(** ** Lemmas: the index *)

(** A segment of the index lists the file under the server. *)
Definition lists (i : ArchiveIndex) (u f : string) : Prop :=
  exists s, s ∈ ix_Segments i /\ sg_ServerUUID s = u /\ f ∈ sg_Binlogs s.

Definition is_deleted (deleted : Deleted) (u f : string) : Prop := f ∈ default ∅ (deleted !! u).

Lemma rewrite_segment_elem deleted s s' :
  s' ∈ rewrite_segment deleted s <->
  (deleted !! sg_ServerUUID s = None /\ s' = s) \/
  (exists gone, deleted !! sg_ServerUUID s = Some gone /\ keep_binlogs gone (sg_Binlogs s) <> [] /\
     s' = with_binlogs s (keep_binlogs gone (sg_Binlogs s))).
Proof.
  unfold rewrite_segment. destruct (deleted !! sg_ServerUUID s) as [gone|]; [|set_solver].
  destruct (keep_binlogs gone (sg_Binlogs s)) as [|n ns] eqn:E.
  - split; [set_solver|]. intros [[[=] _]|(g & [= <-] & Hne & _)]. congruence.
  - rewrite list_elem_of_singleton. split; [intros ->; right; exists gone; by rewrite E|].
    intros [[[=] _]|(g & [= <-] & _ & ->)]. by rewrite E.
Qed.

Lemma rewriteIndex_segments i deleted t s' :
  s' ∈ ix_Segments (rewriteIndex i deleted t) <-> exists s, s ∈ ix_Segments i /\ s' ∈ rewrite_segment deleted s.
Proof.
  cbn. rewrite list_elem_of_In, in_concat. setoid_rewrite <- list_elem_of_In. setoid_rewrite list_elem_of_fmap. naive_solver.
Qed.

Lemma keep_binlogs_elem gone names f : f ∈ keep_binlogs gone names <-> f ∈ names /\ f ∉ gone.
Proof. unfold keep_binlogs. by rewrite elem_of_filter_bool, negb_true_iff, bool_decide_eq_false. Qed.

Lemma rewriteIndex_lists i deleted t u f :
  lists (rewriteIndex i deleted t) u f <-> lists i u f /\ ~ is_deleted deleted u f.
Proof.
  unfold lists, is_deleted. split.
  - intros (s' & (s & Hs & Hs')%rewriteIndex_segments & <- & Hf).
    apply rewrite_segment_elem in Hs' as [[Hd ->]|(gone & Hd & _ & ->)]; cbn in *.
    + rewrite Hd. split; [eauto|set_solver].
    + rewrite Hd. apply keep_binlogs_elem in Hf as [Hf Hn]. eauto.
  - intros [(s & Hs & <- & Hf) Hn]. destruct (deleted !! sg_ServerUUID s) as [gone|] eqn:Ed; cbn in Hn.
    + assert (f ∈ keep_binlogs gone (sg_Binlogs s)) as Hk by (by apply keep_binlogs_elem).
      exists (with_binlogs s (keep_binlogs gone (sg_Binlogs s))). split_and!; [|done|done].
      apply rewriteIndex_segments. exists s. split; [done|]. apply rewrite_segment_elem. right. exists gone.
      split_and!; [done| |done]. intros E. rewrite E in Hk. by apply not_elem_of_nil in Hk.
    + exists s. split_and!; [|done..]. apply rewriteIndex_segments. exists s. split; [done|]. apply rewrite_segment_elem. by left.
Qed.

Section PlanProps.
Context `{SortSlice}.

Definition last_event (e : BinlogEntry) : Time := bm_LastEventTime (bn_Meta e).

(** A plan that deletes: the backups split into the dead and the kept ones. *)
Record plan_of (backups : list BackupEntry) (binlogs : list BinlogEntry) (index : option ArchiveIndex) (cutoff : Time)
    (dead kept : list BackupEntry) (newest oldest : BackupEntry) (plan : RetentionPlan) : Prop := {
  po_split : backups ≡ₚ dead ++ kept;
  po_dead : rp_DeleteBackupPrefixes plan = be_Prefix <$> dead /\ dead <> [];
  po_expired : forall e, e ∈ dead -> completed e < cutoff;
  po_newest : newest ∈ kept /\ forall e, e ∈ backups -> completed e <= completed newest;
  po_kept : forall e, e ∈ kept -> e = newest \/ cutoff <= completed e;
  po_oldest : oldest ∈ kept /\ forall e, e ∈ kept -> completed oldest <= completed e;
  po_horizon : rp_Horizon plan = started oldest;
  po_binlogs : forall key, key ∈ rp_DeleteBinlogKeys plan <->
    exists e, e ∈ binlogs /\ is_Some index /\ started oldest <> 0 /\ last_event e <> 0 /\ last_event e < started oldest /\
      (key = bk_BinlogKey (bn_Keys e) \/ key = bk_ManifestKey (bn_Keys e));
  po_deleted : forall u f, is_deleted (rp_DeletedBinlogs plan) u f <->
    exists e, e ∈ binlogs /\ is_Some index /\ started oldest <> 0 /\ last_event e <> 0 /\ last_event e < started oldest /\
      u = bm_ServerUUID (bn_Meta e) /\ f = bm_BinlogName (bn_Meta e)
}.

Lemma uncoverable_elem horizon binlogs e :
  e ∈ List.filter (uncoverable horizon) binlogs <-> e ∈ binlogs /\ last_event e <> 0 /\ last_event e < horizon.
Proof.
  rewrite elem_of_filter_bool. unfold uncoverable, last_event, IsZero. rewrite andb_true_iff, negb_true_iff, Z.eqb_neq, Z.ltb_lt. naive_solver.
Qed.

Lemma applyBinlogGC_spec prefixes horizon binlogs index at_ :
  let plan := applyBinlogGC (mkRetentionPlan prefixes [] None ∅ horizon) binlogs index at_ in
  let gone e := e ∈ binlogs /\ is_Some index /\ horizon <> 0 /\ last_event e <> 0 /\ last_event e < horizon in
  rp_DeleteBackupPrefixes plan = prefixes /\ rp_Horizon plan = horizon /\
  (forall key, key ∈ rp_DeleteBinlogKeys plan <->
     exists e, gone e /\ (key = bk_BinlogKey (bn_Keys e) \/ key = bk_ManifestKey (bn_Keys e))) /\
  (forall u f, is_deleted (rp_DeletedBinlogs plan) u f <->
     exists e, gone e /\ u = bm_ServerUUID (bn_Meta e) /\ f = bm_BinlogName (bn_Meta e)).
Proof.
  unfold applyBinlogGC. destruct index as [i|].
  2: { cbn. split_and!; try done; intros; (split; [set_solver|]); intros (e & (_ & [? [=]] & _) & _). }
  cbn. unfold IsZero. destruct (Z.eqb_spec horizon 0) as [->|Hz].
  { split_and!; try done; intros; (split; [set_solver|]); intros (e & (_ & _ & [] & _) & _); done. }
  set (keys := concat _). set (deleted := foldl _ _ _).
  assert (forall key, key ∈ keys <-> exists e, e ∈ List.filter (uncoverable horizon) binlogs /\
    (key = bk_BinlogKey (bn_Keys e) \/ key = bk_ManifestKey (bn_Keys e))) as Hkeys.
  { intros key. unfold keys. rewrite list_elem_of_In, in_concat. setoid_rewrite <- list_elem_of_In.
    setoid_rewrite list_elem_of_fmap. split; [intros (x & (e & -> & He) & Hx); exists e; set_solver|].
    intros (e & He & Hk). eexists. split; [exists e; done|]. set_solver. }
  assert (forall u f, is_deleted deleted u f <-> exists e, e ∈ List.filter (uncoverable horizon) binlogs /\
    u = bm_ServerUUID (bn_Meta e) /\ f = bm_BinlogName (bn_Meta e)) as Hdel.
  { intros u f. unfold is_deleted, deleted. rewrite foldl_deleted, lookup_empty. cbn. set_solver. }
  setoid_rewrite uncoverable_elem in Hkeys. setoid_rewrite uncoverable_elem in Hdel.
  clearbody keys deleted.
  destruct (List.filter (uncoverable horizon) binlogs) as [|g gs] eqn:E; cbn; split_and!; try done.
  - intros key. rewrite Hkeys. split; intros (e & He & Hk); exists e; naive_solver.
  - intros u f. split; [intros Hf; unfold is_deleted in Hf; rewrite lookup_empty in Hf; set_solver|].
    intros (e & (? & ? & ? & ? & ?) & _). assert (e ∈ List.filter (uncoverable horizon) binlogs) as He by (by apply uncoverable_elem).
    rewrite E in He. by apply not_elem_of_nil in He.
  - intros key. rewrite Hkeys. split; intros (e & He & Hk); exists e; naive_solver.
  - intros u f. rewrite Hdel. split; intros (e & He & Hk); exists e; naive_solver.
Qed.

Lemma PlanRetention_spec backups binlogs index cutoff at_ :
  let plan := PlanRetention backups binlogs index cutoff at_ in
  (plan = no_plan /\
     (backups = [] \/ exists newest rest, backups ≡ₚ newest :: rest /\ (forall e, e ∈ rest -> cutoff <= completed e /\ completed e <= completed newest))) \/
  exists dead kept newest oldest, plan_of backups binlogs index cutoff dead kept newest oldest plan.
Proof.
  unfold PlanRetention. destruct backups as [|b bs]; [by left; split; [|left]|].
  pose proof (sort_Slice_perm older (b :: bs)) as Hperm. pose proof (older_sorted (b :: bs)) as Hsort.
  set (sorted := sort_Slice older (b :: bs)) in *. clearbody sorted.
  destruct (@exists_last _ sorted) as (front & newest & ->); [intros ->; by apply Permutation_nil_cons in Hperm|].
  rewrite expire_backups_spec. pose proof (StronglySorted_last _ _ _ Hsort) as Hmax. rewrite Forall_forall in Hmax.
  pose proof (List_filter_perm (fun e => completed e <? cutoff) front) as Hsplit.
  set (dead := List.filter (fun e => completed e <? cutoff) front) in *.
  assert (forall e, e ∈ dead -> completed e < cutoff) as Hdead.
  { intros e [_ He]%elem_of_filter_bool. by apply Z.ltb_lt. }
  set (live := List.filter (fun e => negb (completed e <? cutoff)) front) in *.
  assert (forall e, e ∈ live -> cutoff <= completed e) as Hlive.
  { intros e [_ He]%elem_of_filter_bool. rewrite negb_true_iff, Z.ltb_ge in He. done. }
  destruct dead as [|d ds] eqn:Ed; cbn [fmap list_fmap].
  { left. split; [by destruct live|]. right. exists newest, front. split; [rewrite <- Hperm; by rewrite Permutation_app_comm|].
    intros e He. split; [|by apply Hmax]. apply Hlive. rewrite Hsplit in He. set_solver. }
  right. destruct (live ++ [newest]) as [|oldest rest] eqn:El; [by destruct live|].
  pose proof (sorted_head completed _ front newest oldest rest Hsort El) as Hold. fold live in Hold. rewrite El in Hold.
  exists (d :: ds), (oldest :: rest), newest, oldest.
  destruct (applyBinlogGC_spec (be_Prefix d :: (be_Prefix <$> ds)) (started oldest) binlogs index at_) as (Hp & Hh & Hk & Hdel).
  cbn [fmap list_fmap] in *. split.
  - rewrite <- Hperm, Hsplit, <- app_assoc, El. done.
  - by rewrite Hp.
  - done.
  - split; [rewrite <- El; set_solver|]. intros e. rewrite <- Hperm, elem_of_app, list_elem_of_singleton. intros [He| ->]; [auto|lia].
  - intros e. rewrite <- El, elem_of_app, list_elem_of_singleton. intros [He| ->]; auto.
  - split; [by left|done].
  - done.
  - intros key. rewrite Hk. split; intros (e & He); exists e; naive_solver.
  - intros u f. rewrite Hdel. split; intros (e & He); exists e; naive_solver.
Qed.
End PlanProps.

(** ** Properties *)

(** C8: a retention plan never gives up the ability to recover.  It deletes only
    backups that completed before the cutoff and always keeps a backup that
    completed last, and every other kept one has not expired; it deletes exactly the
    archived logs whose known last event precedes the start of the oldest kept
    backup, and none at all without the archive index; so, backups starting before
    they complete, no deleted log reaches the completion of any kept backup.  When
    nothing expired, nothing is deleted. *)
Theorem retention_keeps_recovery `{SortSlice} backups binlogs index cutoff at_ :
  let plan := PlanRetention backups binlogs index cutoff at_ in
  (plan = no_plan /\
     (backups = [] \/ exists newest rest, backups ≡ₚ newest :: rest /\
        forall e, e ∈ rest -> cutoff <= completed e /\ completed e <= completed newest)) \/
  exists dead kept newest oldest, plan_of backups binlogs index cutoff dead kept newest oldest plan /\
    ((forall e, e ∈ backups -> started e <= completed e) ->
     forall u f, is_deleted (rp_DeletedBinlogs plan) u f ->
       exists e, e ∈ binlogs /\ bm_ServerUUID (bn_Meta e) = u /\ bm_BinlogName (bn_Meta e) = f /\
         forall b, b ∈ kept -> last_event e < completed b).
Proof.
  intros plan. destruct (PlanRetention_spec backups binlogs index cutoff at_) as [Hn|(dead & kept & newest & oldest & Hp)]; [by left|].
  fold plan in Hp. right. exists dead, kept, newest, oldest. split; [done|]. intros Hstart u f. destruct Hp.
  rewrite po_deleted0. intros (e & He & _ & _ & _ & Hlt & -> & ->). exists e. split_and!; [done..|]. intros b Hb.
  destruct po_oldest0 as [Ho Hmin]. specialize (Hmin b Hb).
  assert (oldest ∈ backups) as Hin by (rewrite po_split0; set_solver). specialize (Hstart oldest Hin). lia.
Qed.

(** The fields of the index other than its segments and its stamp. *)
Definition header (i : ArchiveIndex) : string * string * string * option ArchiveForkCheck * Z * option ArchiveDisowned * Time * list ArchiveEpoch :=
  (ix_ClusterName i, ix_ClusterUID i, ix_CoveredGTIDSet i, ix_ForkCheck i, ix_Generation i, ix_Disowned i,
   ix_ArchivedThrough i, ix_MariaDBTimeline i).

(** What a rewrite makes of the index it replaces. *)
Definition rewrites (deleted : Deleted) (old new : ArchiveIndex) : Prop :=
  header new = header old /\
  (forall u f, lists new u f <-> lists old u f /\ ~ is_deleted deleted u f) /\
  (forall s, deleted !! sg_ServerUUID s = None -> s ∈ ix_Segments new <-> s ∈ ix_Segments old).

Lemma rewriteIndex_rewrites deleted i t : rewrites deleted i (rewriteIndex i deleted t).
Proof.
  split_and!; [done|intros; apply rewriteIndex_lists|]. intros s Hs. rewrite rewriteIndex_segments. split.
  - intros (s' & Hs' & Hin). apply rewrite_segment_elem in Hin as [[_ ->]|(gone & Hg & _ & ->)]; [done|]. cbn in Hs. congruence.
  - intros Hin. exists s. split; [done|]. apply rewrite_segment_elem. by left.
Qed.

Lemma rewrite_mutation_quiet deleted r i b : quiet (rewrite_mutation deleted r i b).
Proof. unfold rewrite_mutation. by destruct b. Qed.

(** An index that stays in place is found by every attempt. *)
Lemma rewrite_finds_index `{Versioning} key deleted n env w w' res :
  e_conditional env = true -> w_unconditional w = false ->
  (forall k st, is_Some (st !! key) -> is_Some (e_others env k st !! key)) -> is_Some (w_store w !! key) ->
  update_loop n key (rewrite_mutation deleted) tt env w = (w', (tt, res)) -> res = Ok tt ->
  exists old i, w_store w' !! key = Some (OIndex i) /\ rewrites deleted old i.
Proof.
  intros Hc Hu Hin. revert w Hu. induction n as [|n IH]; intros w Hu Hw; cbn [update_loop]; intros Hrun Hres; [by inv_io|].
  apply bind_inv in Hrun as (w1 & g & Hg & Hrun). destruct g as [[[i etag] ex]|e].
  2: { injection Hrun as <- <-. by destruct e. }
  apply GetJSONVersion_run in Hg as (_ & Hu1 & Hst & old & Hold & -> & -> & Het). apply (Hin (w_calls w)) in Hw. rewrite <- Hst in Hw.
  destruct old as [o|]; [|rewrite Hold in Hw; by destruct Hw].
  apply bind_inv in Hrun as (w2 & (r2 & m) & Hm & Hrun). injection Hm as <- <- <-.
  apply bind_inv in Hrun as (w3 & err & Hp & Hrun).
  apply PutJSONIf_run in Hp as (Hu3 & Hp); [|done|by rewrite <- Hu, <- Hu1]. cbn in Hp.
  destruct err as [[]|e].
  - injection Hrun as <- <-. destruct Hp as [(Hne & _)|(_ & _ & ->)]; [done|]. eexists o, _. rewrite lookup_insert_eq.
    split; [done|apply rewriteIndex_rewrites].
  - destruct (decide (e = ErrPreconditionFailed)) as [->|Hne].
    + eapply IH; [exact Hu3| |exact Hrun|done]. destruct Hp as [(_ & _ & ->)|(_ & _ & ->)]; [by apply Hin|]. rewrite lookup_insert_eq. eauto.
    + destruct e; try done; injection Hrun as <- <-; done.
Qed.

(** whatever the archiver and the other writers do meanwhile and whichever
    requests fail, each index retention stores is made from the very index it
    replaces, by dropping the deleted files and nothing else: every other file stays
    listed, a file added meanwhile included, untouched segments and the index's
    records of forks, disowned transactions and coverage stay as they are.  A
    rewrite that succeeds on an index that stays in place leaves none of the deleted
    files listed. *)
Theorem retention_rewrites_exactly `{Versioning} key plan env w w' res :
  e_conditional env = true -> w_unconditional w = false ->
  rewriteArchiveIndex key plan env w = (w', res) ->
  (exists new, w_log w' = w_log w ++ new /\
    Forall (fun wr => wr_key wr = key /\ exists old i, wr_old wr = Some (OIndex old) /\ wr_new wr = OIndex i /\
              rewrites (rp_DeletedBinlogs plan) old i) new) /\
  (res = Ok tt -> (forall k st, is_Some (st !! key) -> is_Some (e_others env k st !! key)) -> is_Some (w_store w !! key) ->
     rp_DeletedBinlogs plan <> ∅ ->
     exists i, w_store w' !! key = Some (OIndex i) /\ forall u f, is_deleted (rp_DeletedBinlogs plan) u f -> ~ lists i u f).
Proof.
  intros Hc Hu. unfold rewriteArchiveIndex. destruct (decide _) as [Hd|Hd].
  { intros [= <- <-]. split; [|done]. exists []. rewrite app_nil_r. split; [done|constructor]. }
  intros Hrun. apply bind_inv in Hrun as (w1 & ([] & r) & H1 & [= <- <-]). unfold UpdateArchiveIndex in H1. split.
  - apply (update_loop_atomic key _ (rewrite_mutation_quiet _) (fun _ => True)) in H1 as (new & Hlog & Hnew & _); [|done..].
    exists new. split; [done|]. eapply Forall_impl; [exact Hnew|]. intros wr (Hk & old & r' & i & Ho & Hm & Hi). split; [done|].
    destruct Hm as (r0 & w0 & w0' & _ & Hm). unfold rewrite_mutation in Hm. destruct old as [o|]; cbn in Hm; [|by inv_io].
    exists o, i. split_and!; [done..|]. inv_io. simplify_eq. apply rewriteIndex_rewrites.
  - intros Hr Hin Hw _. destruct (rewrite_finds_index _ _ _ _ _ _ _ Hc Hu Hin Hw H1 Hr) as (old & i & Hi & _ & Hl & _).
    exists i. split; [done|]. intros u f Hdel Hli. by apply Hl in Hli as [_ ?].
Qed.

(** a file that is still listed in the index but whose manifest is gone (a pass
    that deleted it failed before it rewrote the index) is not de-listed by any later
    pass: plans are made from the manifests that are left. *)
Theorem lost_file_stays_listed `{SortSlice} backups binlogs index cutoff at_ u f i t :
  (forall e, e ∈ binlogs -> ~ (bm_ServerUUID (bn_Meta e) = u /\ bm_BinlogName (bn_Meta e) = f)) ->
  lists i u f -> lists (rewriteIndex i (rp_DeletedBinlogs (PlanRetention backups binlogs index cutoff at_)) t) u f.
Proof.
  intros Hlost Hl. apply rewriteIndex_lists. split; [done|]. intros Hdel.
  destruct (PlanRetention_spec backups binlogs index cutoff at_) as [[Hn _]|(dead & kept & newest & oldest & [])].
  - rewrite Hn in Hdel. unfold is_deleted in Hdel. cbn in Hdel. by rewrite lookup_empty in Hdel; cbn in Hdel; apply not_elem_of_empty in Hdel.
  - apply po_deleted0 in Hdel as (e & He & _ & _ & _ & _ & -> & ->). by apply (Hlost e He).
Qed.

(** An object at the backup store, or at the archive's when it is the same place,
    carries the cluster's UID. *)
Definition own_backups (uid : string) (same : bool) (backups : list BackupEntry) (logical : list LogicalBackupEntry)
    (index : option ArchiveIndex) : Prop :=
  (exists b, b ∈ backups /\ bu_ClusterUID (be_Meta b) = uid) \/ (exists l, l ∈ logical /\ lm_ClusterUID (le_Meta l) = uid) \/
  (same = true /\ exists i, index = Some i /\ ix_ClusterUID i = uid).
Definition own_archive (uid : string) (same : bool) (backups : list BackupEntry) (logical : list LogicalBackupEntry)
    (index : option ArchiveIndex) : Prop :=
  (exists i, index = Some i /\ ix_ClusterUID i = uid) \/ (same = true /\ own_backups uid same backups logical index).

Lemma existsb_uid {A} (f : A -> string) uid l : existsb (fun x => String.eqb (f x) uid) l = true <-> exists x, x ∈ l /\ f x = uid.
Proof. rewrite existsb_exists. setoid_rewrite list_elem_of_In. by setoid_rewrite String.eqb_eq. Qed.

Lemma retentionOwnership_proves uid same backups logical binlogs index :
  retentionOwnership uid same backups logical binlogs index = "" ->
  uid <> "" /\ (backups <> [] \/ logical <> [] -> own_backups uid same backups logical index) /\
  (binlogs <> [] -> own_archive uid same backups logical index).
Proof.
  unfold retentionOwnership. destruct (String.eqb_spec uid "") as [|Hu]; [done|].
  set (ob := existsb _ backups || existsb _ logical). set (oa := match index with Some i => _ | None => false end).
  assert (ob = true -> own_backups uid same backups logical index) as Hob.
  { unfold ob. rewrite orb_true_iff, !existsb_uid. unfold own_backups. naive_solver. }
  assert (oa = true -> exists i, index = Some i /\ ix_ClusterUID i = uid) as Hoa.
  { unfold oa. destruct index as [i|]; [|done]. rewrite String.eqb_eq. eauto. }
  clearbody ob oa. intros Hrun. split; [done|].
  assert ((if same then ob || oa else ob) = true -> own_backups uid same backups logical index) as Hob'.
  { destruct same; [|done]. intros [Hx|Hx]%orb_true_iff; [auto|]. right; right. split; [done|auto]. }
  assert ((if same then (if same then ob || oa else ob) else oa) = true -> own_archive uid same backups logical index) as Hoa'.
  { destruct same; [|intros; left; auto]. intros Hx. right. split; [done|]. by apply Hob'. }
  revert Hrun. destruct (if same then ob || oa else ob) eqn:E1; cbn [negb andb].
  - intros Hrun. split; [auto|]. intros Hne. apply Hoa'. destruct (if same then true else oa); [done|].
    destruct binlogs; [done|]. cbn in Hrun. done.
  - destruct (Nat.ltb 0 (length backups + length logical)) eqn:El; [done|]. intros Hrun. split.
    + intros Hne. destruct backups, logical; cbn in El; try done. by destruct Hne.
    + intros Hne. apply Hoa'. destruct (if same then false else oa) eqn:E2; [done|]. destruct binlogs; [done|]. done.
Qed.

Definition succeeded (steps : list (action * result unit)) : Prop := forall a r, (a, r) ∈ steps -> r = Ok tt.

Lemma perform_app s1 s2 a :
  a ∈ fst (perform (s1 ++ s2)) -> a ∈ fst (perform s1) \/ (succeeded s1 /\ a ∈ fst (perform s2)).
Proof.
  induction s1 as [|[x r] s1 IH]; cbn; [right; split; [by intros ? ? ?%not_elem_of_nil|done]|]. destruct r as [[]|e]; [|by left].
  destruct (perform (s1 ++ s2)) as [d err], (perform s1) as [d1 err1]. cbn in *. intros [->|Hin]%elem_of_cons; [left; by left|].
  destruct (IH Hin) as [H1|[Hs H2]]; [left; by right|]. right. split; [|done].
  intros b r [[= -> ->]|Hb]%elem_of_cons; [done|by eapply Hs].
Qed.

Lemma perform_sub steps a : a ∈ fst (perform steps) -> exists r, (a, r) ∈ steps.
Proof.
  induction steps as [|[x r] steps IH]; cbn; [set_solver|]. destruct r as [[]|e].
  - destruct (perform steps) as [d err]. cbn in *. intros [->|Hin]%elem_of_cons; [eexists; by left|].
    destruct (IH Hin) as [r Hr]. exists r. by right.
  - cbn. intros ->%list_elem_of_singleton. eexists. by left.
Qed.

Definition deletes (a : action) : bool :=
  match a with RemoveBackup _ | RemoveBinlog _ | RewriteIndex | RemoveDump _ => true | Skip _ | Stamp => false end.

(** What a deletion is backed by. *)
Definition backed (c : RetentionCluster) (ans : Answers) (same : bool) (backups : list BackupEntry)
    (logical : list LogicalBackupEntry) (index : option ArchiveIndex) (plan : RetentionPlan) (dumps : list string) (a : action) : Prop :=
  match a with
  | RemoveBackup p => p ∈ rp_DeleteBackupPrefixes plan /\ own_backups (rc_UID c) same backups logical index
  | RemoveDump p => p ∈ dumps /\ own_backups (rc_UID c) same backups logical index
  | RemoveBinlog k => k ∈ rp_DeleteBinlogKeys plan /\ own_archive (rc_UID c) same backups logical index /\
      forall p, p ∈ rp_DeleteBackupPrefixes plan -> an_removed ans p = Ok tt
  | RewriteIndex => own_archive (rc_UID c) same backups logical index /\
      forall k, k ∈ rp_DeleteBackupPrefixes plan ++ rp_DeleteBinlogKeys plan -> an_removed ans k = Ok tt
  | Skip _ | Stamp => False
  end.

Lemma planned_nonempty `{SortSlice} backups binlogs index cutoff at_ :
  let plan := PlanRetention backups binlogs index cutoff at_ in
  (rp_DeleteBackupPrefixes plan <> [] -> backups <> []) /\
  (rp_DeleteBinlogKeys plan <> [] \/ rp_DeletedBinlogs plan <> ∅ -> binlogs <> []).
Proof.
  intros plan. split.
  - intros Hp ->. done.
  - intros Hk ->. destruct (PlanRetention_spec backups [] index cutoff at_) as [[Hn _]|(dead & kept & newest & oldest & Hp)].
    + unfold plan in Hk. rewrite Hn in Hk. cbn in Hk. naive_solver.
    + unfold plan in Hk. destruct Hk as [Hk|Hk]; apply Hk; clear Hk.
      * destruct (rp_DeleteBinlogKeys _) as [|k ks] eqn:E; [done|]. assert (k ∈ k :: ks) as Hin by left. rewrite <- E in Hin.
        apply (po_binlogs _ _ _ _ _ _ _ _ _ Hp) in Hin as (e & He & _). by apply not_elem_of_nil in He.
      * unfold PlanRetention in *. destruct backups; [done|]. destruct (expire_backups _ _) as [[|p ps] [|o os]]; try done.
        unfold applyBinlogGC. cbn. by destruct index; [destruct (IsZero _)|].
Qed.

Lemma PlanLogicalRetention_nonempty logical cutoff p : p ∈ PlanLogicalRetention logical cutoff -> logical <> [].
Proof. intros Hp ->. cbn in Hp. by apply not_elem_of_nil in Hp. Qed.

Lemma expiry_backed `{SortSlice} c ans same backups logical binlogs index cutoff a :
  retentionOwnership (rc_UID c) same backups logical binlogs index = "" ->
  let plan := PlanRetention backups binlogs index cutoff (an_planned ans) in
  let dumps := PlanLogicalRetention logical cutoff in
  a ∈ fst (perform (expiry_steps ans plan dumps)) -> deletes a = true ->
  backed c ans same backups logical index plan dumps a.
Proof.
  intros (Hu & Hob & Hoa)%retentionOwnership_proves plan dumps Hin Hdel.
  destruct (planned_nonempty backups binlogs index cutoff (an_planned ans)) as [Hnb Hnl]. fold plan in Hnb, Hnl.
  assert (forall (f : string -> result unit) (key : string -> action) (l : list string) x r, (x, r) ∈ ((fun p => (key p, f p)) <$> l) -> exists p : string, p ∈ l /\ x = key p /\ r = f p) as Hmap.
  { intros f key l x r (p & [= -> ->] & Hp)%list_elem_of_fmap. eauto. }
  unfold expiry_steps in Hin. apply perform_app in Hin as [Hin|[_ Hin]].
  - destruct (RetentionPlan_Empty plan); [by apply not_elem_of_nil in Hin|].
    apply perform_app in Hin as [Hin|[Hb Hin]].
    { apply perform_sub in Hin as [r Hin]. apply Hmap in Hin as (p & Hp & -> & _). split; [done|]. apply Hob. left. apply Hnb.
      intros E. rewrite E in Hp. by apply not_elem_of_nil in Hp. }
    assert (forall p, p ∈ rp_DeleteBackupPrefixes plan -> an_removed ans p = Ok tt) as Hbok.
    { intros p Hp. apply (Hb (RemoveBackup p)). apply list_elem_of_fmap. eauto. }
    apply perform_app in Hin as [Hin|[Hk Hin]].
    { apply perform_sub in Hin as [r Hin]. apply Hmap in Hin as (k & Hk & -> & _). split_and!; [done| |done]. apply Hoa, Hnl. left.
      intros E. rewrite E in Hk. by apply not_elem_of_nil in Hk. }
    destruct (decide _) as [|Hne]; [by apply not_elem_of_nil in Hin|]. apply perform_sub in Hin as [r Hin].
    apply list_elem_of_singleton in Hin as [= -> ->]. split; [apply Hoa, Hnl; by right|].
    intros k [Hkb|Hkk]%elem_of_app; [auto|]. apply (Hk (RemoveBinlog k)). apply list_elem_of_fmap. eauto.
  - apply perform_app in Hin as [Hin|[_ Hin]]; apply perform_sub in Hin as [r Hin].
    + apply Hmap in Hin as (p & Hp & -> & _). split; [done|]. apply Hob. right. by eapply PlanLogicalRetention_nonempty.
    + apply list_elem_of_singleton in Hin as [= -> ->]. done.
Qed.

Lemma perform_done front a r :
  snd (perform (front ++ [(a, r)])) = None -> last (fst (perform (front ++ [(a, r)]))) = Some a /\ exists x, r = Ok x.
Proof.
  induction front as [|[b q] front IH]; cbn; [destruct r; [eauto|done]|]. destruct q as [x|e]; [|done].
  destruct (perform (front ++ [(a, r)])) as [acts err] eqn:E. cbn in *. intros ->. destruct (IH eq_refl) as [Hl Hr]. split; [|done].
  destruct acts; [done|exact Hl].
Qed.

(** A pass that ends without an error has done nothing, or recorded its stamp last. *)
Lemma reconcileRetention_stamps `{SortSlice} c ans acts :
  reconcileRetention c ans = (acts, None) -> acts = [] \/ (last acts = Some Stamp /\ exists x, an_stamped ans = Ok x).
Proof.
  assert (forall r acts, skipRetention ans r = (acts, None) -> last acts = Some Stamp /\ exists x, an_stamped ans = Ok x) as Hskip.
  { intros r acts' Hr. pose proof (perform_done [(Skip r, Ok tt)] Stamp (an_stamped ans)) as Hp.
    change (perform ([(Skip r, Ok tt)] ++ [(Stamp, an_stamped ans)])) with (skipRetention ans r) in Hp. rewrite Hr in Hp. by apply Hp. }
  assert (forall A (r : result A) k, (forall x, k x = (acts, None) -> acts = [] \/ (last acts = Some Stamp /\ exists x, an_stamped ans = Ok x)) ->
    or_refused ans r k = (acts, None) -> acts = [] \/ (last acts = Some Stamp /\ exists x, an_stamped ans = Ok x)) as Href.
  { intros A r k Hk. unfold or_refused. destruct (negb _); [intros ?%Hskip; by right|]. destruct r; [apply Hk|done]. }
  assert (forall A (r : result A) k, (forall x, k x = (acts, None) -> acts = [] \/ (last acts = Some Stamp /\ exists x, an_stamped ans = Ok x)) ->
    or_error r k = (acts, None) -> acts = [] \/ (last acts = Some Stamp /\ exists x, an_stamped ans = Ok x)) as Herr.
  { intros A r k Hk. destruct r; [apply Hk|done]. }
  unfold reconcileRetention. destruct (rc_Policy c) as [policy|], (rc_Store c) as [store|]; try (intros [= <-]; by left).
  do 2 (case_match; [intros [= <-]; by left|]). destruct (ParseRetentionPolicy policy); [|intros [= <-]; by left].
  match goal with |- (if ?b then _ else _) = _ -> _ => destruct b end; [intros [= <-]; by left|].
  apply Href. intros _. do 3 (apply Herr; intros ?). cbv zeta. apply Href. intros _. do 3 (apply Herr; intros ?).
  destruct (negb _); [intros ?%Hskip; by right|]. intros Hrun. right. unfold expiry_steps in Hrun. rewrite app_assoc in Hrun.
  pose proof (perform_done _ _ _ (f_equal snd Hrun)) as Hp. by rewrite Hrun in Hp.
Qed.

(** C20: a retention pass deletes something only on an established cluster with a
    readable policy whose recorded stamp, if any, is at least an interval old, and
    only from a store where some object carries the cluster's own UID; it deletes only
    what its plan says, the binary logs after every expired backup is gone, and it
    rewrites the index only once every planned file has been removed.  A pass that
    deletes and ends without an error has recorded a new stamp last (one that fails
    before leaves the old stamp, and the next pass deletes on at once). *)
Theorem retention_deletes_only_own `{SortSlice} c ans acts err a :
  reconcileRetention c ans = (acts, err) -> a ∈ acts -> deletes a = true ->
  (err = None -> last acts = Some Stamp /\ exists x, an_stamped ans = Ok x) /\
  exists policy window store backups logical binlogs index,
    rc_Policy c = Some policy /\ ParseRetentionPolicy policy = Ok window /\ rc_Store c = Some store /\
    rc_CurrentPrimary c <> "" /\ rc_UID c <> "" /\
    (forall last, rc_LastRetentionRunTime c = Some last -> retentionInterval <= an_since ans - last) /\
    an_backups ans = Ok backups /\ an_logical ans = Ok logical /\ an_binlogs ans = Ok binlogs /\
    (forall i, index = Some i -> an_index_exists ans = Ok true /\ an_index ans = Ok i) /\
    backed c ans (String.eqb store (rc_BinlogStore c)) backups logical index
      (PlanRetention backups binlogs index (an_now ans - window) (an_planned ans))
      (PlanLogicalRetention logical (an_now ans - window)) a.
Proof.
  intros Hrun Hin Hdel. split.
  { intros ->. apply reconcileRetention_stamps in Hrun as [->|?]; [by apply elem_of_nil in Hin|done]. }
  assert (a ∈ fst (reconcileRetention c ans)) as Hin' by (by rewrite Hrun). clear Hrun Hin.
  assert (forall r, a ∈ fst (skipRetention ans r) -> False) as Hskip.
  { intros r Hr. apply perform_sub in Hr as [x Hx]. assert (a = Skip r \/ a = Stamp) as [->| ->] by set_solver; done. }
  assert (forall e, a ∈ fst (([], e) : list action * option error) -> False) as Hnil by (intros e He; by apply not_elem_of_nil in He).
  assert (forall A (r : result A) k, a ∈ fst (or_refused ans r k) -> exists x, r = Ok x /\ a ∈ fst (k x)) as Href.
  { intros A r k. unfold or_refused. destruct (negb _); [by intros ?%Hskip|]. destruct r; [eauto|by intros ?%Hnil]. }
  assert (forall A (r : result A) k, a ∈ fst (or_error r k) -> exists x, r = Ok x /\ a ∈ fst (k x)) as Herr.
  { intros A r k. destruct r; cbn; [eauto|by intros ?%Hnil]. }
  unfold reconcileRetention in Hin'. destruct (rc_Policy c) as [policy|]; [|by apply Hnil in Hin'].
  destruct (rc_Store c) as [store|]; [|by apply Hnil in Hin']. destruct (String.eqb_spec policy ""); [by apply Hnil in Hin'|].
  destruct (String.eqb_spec (rc_CurrentPrimary c) ""); [by apply Hnil in Hin'|].
  destruct (ParseRetentionPolicy policy) as [window|] eqn:Ew; [|by apply Hnil in Hin'].
  destruct (match rc_LastRetentionRunTime c with Some _ => _ | None => _ end) eqn:Et; [by apply Hnil in Hin'|].
  apply Href in Hin' as (? & _ & Hin'). apply Herr in Hin' as (? & _ & Hin'). apply Herr in Hin' as (backups & Hb & Hin').
  apply Herr in Hin' as (logical & Hl & Hin'). cbv zeta in Hin'. apply Href in Hin' as (? & _ & Hin').
  apply Herr in Hin' as (binlogs & Hn & Hin'). apply Herr in Hin' as (ex & Hex & Hin'). apply Herr in Hin' as (index & Hix & Hin').
  destruct (String.eqb_spec (retentionOwnership (rc_UID c) (String.eqb store (rc_BinlogStore c)) backups logical binlogs index) "") as [Ho|]; cbn [negb] in Hin'.
  2: by apply Hskip in Hin'.
  pose proof (expiry_backed c ans _ _ _ _ _ (an_now ans - window) a Ho Hin' Hdel) as Hback.
  apply retentionOwnership_proves in Ho as [Hu _]. exists policy, window, store, backups, logical, binlogs, index. split_and!; try done.
  - intros last Hlast. rewrite Hlast in Et. lia.
  - intros i ->. destruct ex; [|done]. destruct (an_index ans); [|done]. cbn in Hix. by injection Hix as ->.
Qed.

(** ** The window *)

Lemma split_last_app c s front last : split_last c s = (front, last) -> String c s = front +:+ String last "".
Proof.
  revert c front last. induction s as [|c' s IH]; intros c front last; cbn; [by intros [= <- <-]|].
  destruct (split_last c' s) as [f l] eqn:E. intros [= <- <-]. cbn. f_equal. by apply IH.
Qed.

Lemma parse_digits_pos c s n : Ascii.eqb c "0" = false -> parse_digits (String c s) = Some n -> 1 <= n.
Proof.
  unfold parse_digits. cbn [NilEmpty.uint_of_string]. destruct (NilEmpty.uint_of_string s) as [d|]; [|by destruct c as [[] [] [] [] [] [] [] []]].
  destruct c as [[] [] [] [] [] [] [] []]; cbn; try done; intros _ [= <-]; lia.
Qed.

Lemma i64_exact z : 0 <= z -> i64 z = z <-> z <= MaxInt64.
Proof.
  intros Hz. split; [|intros; apply i64_id; unfold MinInt64; lia]. intros <-. unfold i64, MaxInt64.
  pose proof (Z.mod_pos_bound (z + 2 ^ 63) (2 ^ 64) ltac:(lia)). lia.
Qed.

(** C29: an accepted retention policy is a positive number of days, weeks or months,
    and the window is that long exactly when it fits 64 bits of nanoseconds (292
    years); beyond that it wraps around, and 200000 days, which validation accepts,
    even give a negative window. *)
Theorem retention_window_is_exact :
  (forall policy w, ParseRetentionPolicy policy = Ok w ->
     exists number unit n d, policy = number +:+ String unit "" /\ ParseInt number = Some n /\
       retentionUnitDuration unit = Some d /\ 1 <= n /\ w = i64 (n * d) /\ (w = n * d <-> n * d <= MaxInt64)) /\
  exists w, ParseRetentionPolicy "200000d" = Ok w /\ w < 0.
Proof.
  split; [|eexists; split; [vm_compute; reflexivity|lia]].
  intros policy w. unfold ParseRetentionPolicy. destruct (retentionPolicyRe policy) as [[number d]|] eqn:Er; [|done].
  destruct (ParseInt number) as [n|] eqn:En; [|done]. intros [= <-]. revert Er. unfold retentionPolicyRe.
  destruct policy as [|c s]; [done|]. destruct (split_last c s) as [number' unit] eqn:Es. apply split_last_app in Es.
  destruct number' as [|c0 rest]; [done|]. destruct (retentionUnitDuration unit) as [d'|] eqn:Eu; [|done].
  destruct (_ && _) eqn:Eok; [|done]. intros [= <- <-]. boolp.
  match goal with H : all_chars _ _ = true |- _ => cbn in H; apply andb_true_iff in H as [Hd _] end.
  assert (1 <= n) as Hn.
  { rewrite (ParseInt_digits _ c0 rest eq_refl Hd) in En. destruct (parse_digits (String c0 rest)) as [m|] eqn:Ep; [|done].
    destruct (_ && _); [|done]. injection En as <-. eapply parse_digits_pos; [|exact Ep]. done. }
  exists (String c0 rest), unit, n, d'. split_and!; [done..|]. apply i64_exact.
  assert (0 < d') by (unfold retentionUnitDuration, day in Eu; repeat case_match; simplify_eq; lia). nia.
Qed.

(** ** Backup objects *)

Lemma ascii_compare_trans a b c : Ascii.compare a b = Lt -> Ascii.compare b c = Lt -> Ascii.compare a c = Lt.
Proof. unfold Ascii.compare. rewrite !N.compare_lt_iff. lia. Qed.

Lemma string_compare_trans a b c : String.compare a b = Lt -> String.compare b c = Lt -> String.compare a c = Lt.
Proof.
  revert b c. induction a as [|x a IH]; intros [|y b] [|z c]; cbn; try done.
  destruct (Ascii.compare x y) eqn:Exy, (Ascii.compare y z) eqn:Eyz; try done; intros H1 H2.
  - apply Ascii.compare_eq_iff in Exy as ->. rewrite Eyz. by eapply IH.
  - apply Ascii.compare_eq_iff in Exy as ->. by rewrite Eyz.
  - apply Ascii.compare_eq_iff in Eyz as <-. by rewrite Exy.
  - by rewrite (ascii_compare_trans _ _ _ Exy Eyz).
Qed.

Lemma ltb_lt a b : String.ltb a b = true <-> String.compare a b = Lt.
Proof. unfold String.ltb. by destruct (String.compare a b). Qed.

Lemma ltb_total a b : a <> b -> String.ltb a b = false -> String.ltb b a = true.
Proof.
  intros Hne. unfold String.ltb. rewrite (String.compare_antisym b a). destruct (String.compare a b) eqn:E; cbn; try done.
  by apply String.compare_eq_iff in E.
Qed.

Lemma ltb_asym a b : String.ltb a b = true -> String.ltb b a = false.
Proof. unfold String.ltb. rewrite (String.compare_antisym b a). by destruct (String.compare a b). Qed.

Lemma ltb_nlt_trans a b c : String.ltb a b = false -> String.ltb b c = false -> String.ltb a c = false.
Proof.
  intros H1 H2. destruct (String.ltb a c) eqn:E; [|done]. destruct (decide (a = b)) as [->|Hab]; [congruence|].
  destruct (decide (b = c)) as [->|Hbc]; [congruence|]. apply ltb_total, ltb_lt in H1, H2; [|done..].
  pose proof (string_compare_trans _ _ _ H2 H1) as Hca. apply ltb_lt, ltb_asym in Hca. congruence.
Qed.

(** Newest first is a strict order that decides between any two names. *)
Lemma newer_asym x y : newer x y = true -> newer y x = false.
Proof.
  unfold newer. rewrite (Z.eqb_sym (bo_CreationTimestamp y)). destruct (Z.eqb_spec (bo_CreationTimestamp x) (bo_CreationTimestamp y)); [apply ltb_asym|lia].
Qed.

Lemma newer_nlt_trans x y z : newer y x = false -> newer z y = false -> newer z x = false.
Proof.
  unfold newer. repeat match goal with |- context [?a =? ?b] => destruct (Z.eqb_spec a b) end; try lia. intros H1 H2. by eapply ltb_nlt_trans.
Qed.

Lemma newer_total x y : bo_Name x <> bo_Name y -> newer y x = false -> newer x y = true.
Proof.
  unfold newer. intros Hne. rewrite (Z.eqb_sym (bo_CreationTimestamp x)).
  destruct (Z.eqb_spec (bo_CreationTimestamp y) (bo_CreationTimestamp x)); [by apply ltb_total|lia].
Qed.

Section ScheduleProps.
Context `{SortSlice}.

(** How many backups of the list are newer. *)
Definition newer_count (l : list Backup) (b : Backup) : nat := length (List.filter (fun b' => newer b' b) l).

Lemma newer_count_perm l l' b : l ≡ₚ l' -> newer_count l b = newer_count l' b.
Proof.
  unfold newer_count. induction 1 as [|x l l' _ IH|x y l|l1 l2 l3 _ IH1 _ IH2]; cbn; [done| | |lia].
  - destruct (newer x b); cbn; lia.
  - by destruct (newer x b), (newer y b).
Qed.

Lemma newer_count_none l b : Forall (fun y => newer y b = false) l -> newer_count l b = 0%nat.
Proof. unfold newer_count. induction 1 as [|y l Hy _ IH]; cbn; [done|]. by rewrite Hy. Qed.

(** Sorted newest first, a backup's index is the number of newer ones. *)
Lemma sorted_rank l k b :
  NoDup (bo_Name <$> l) -> StronglySorted (fun x y => newer y x = false) l -> l !! k = Some b -> newer_count l b = k.
Proof.
  intros Hnd Hs. revert k. induction Hs as [|x l Hs IH Hall]; intros [|k] Hk; cbn in *; try done.
  - injection Hk as ->. unfold newer_count. cbn. assert (newer b b = false) as ->.
    { destruct (newer b b) eqn:E; [|done]. by rewrite (newer_asym _ _ E) in E. }
    by apply newer_count_none.
  - apply NoDup_cons in Hnd as [Hx Hnd]. unfold newer_count in *. cbn. rewrite (newer_total x b); cbn; [by rewrite (IH Hnd k Hk)| |].
    + intros E. apply Hx. rewrite E. apply list_elem_of_fmap. exists b. split; [done|]. by eapply list_elem_of_lookup_2.
    + rewrite Forall_forall in Hall. apply Hall. by eapply list_elem_of_lookup_2.
Qed.

(** Over the count or over the age, at an index. *)
Definition over (limit : option Z) (window : Duration) (now_ : Time) (i : Z) (b : Backup) : Prop :=
  (exists n, limit = Some n /\ n <= i) \/ (0 < window /\ bo_CreationTimestamp b < now_ - window).

Lemma collect_spec entries i limit window now_ (m : gmap string Backup) b :
  NoDup (bo_Name <$> entries) -> (forall e, e ∈ entries -> m !! bo_Name e = None) ->
  collect entries i limit window now_ m !! bo_Name b = Some b <->
  m !! bo_Name b = Some b \/ exists k, entries !! k = Some b /\ over limit window now_ (i + Z.of_nat k) b.
Proof.
  revert i m. induction entries as [|e entries IH]; intros i m Hnd Hm; cbn [collect].
  { split; [by left|]. intros [?|(k & Hk & _)]; [done|]. by rewrite lookup_nil in Hk. }
  apply NoDup_cons in Hnd as [He Hnd].
  assert (over limit window now_ i e <-> (match limit with Some l => l <=? i | None => false end)
    || (0 <? window) && (bo_CreationTimestamp e <? now_ - window) = true) as Hover.
  { unfold over. rewrite orb_true_iff, andb_true_iff, !Z.ltb_lt. destruct limit as [n|]; [rewrite Z.leb_le|]; naive_solver. }
  destruct (_ || _) eqn:Eo; rewrite IH.
  - rewrite lookup_insert_Some. split.
    + intros [[[_ ->]|[_ Hb]]|(k & Hk & Ho)]; [right; exists 0%nat|by left|right; exists (S k)].
      * split; [done|]. rewrite Z.add_0_r. by apply Hover.
      * split; [done|]. by replace (i + Z.of_nat (S k)) with (i + 1 + Z.of_nat k) by lia.
    + intros [Hb|([|k] & Hk & Ho)]; [left; right; split; [|done]| |].
      * intros E. rewrite <- E, Hm in Hb by left. done.
      * injection Hk as ->. by left; left.
      * right. exists k. split; [done|]. by replace (i + 1 + Z.of_nat k) with (i + Z.of_nat (S k)) by lia.
  - done.
  - intros e' He'. rewrite lookup_insert_ne; [apply Hm; by right|]. intros E. apply He. rewrite E. by apply list_elem_of_fmap_2.
  - split.
    + intros [Hb|(k & Hk & Ho)]; [by left|right; exists (S k)]. split; [done|]. by replace (i + Z.of_nat (S k)) with (i + 1 + Z.of_nat k) by lia.
    + intros [Hb|([|k] & Hk & Ho)]; [by left| |].
      * injection Hk as ->. rewrite Z.add_0_r in Ho. apply Hover in Ho. done.
      * right. exists k. split; [done|]. by replace (i + 1 + Z.of_nat k) with (i + Z.of_nat (S k)) by lia.
  - done.
  - intros e' He'. apply Hm. by right.
Qed.

Lemma collect_named entries i limit window now_ (m : gmap string Backup) :
  (forall n e, m !! n = Some e -> bo_Name e = n) ->
  forall n e, collect entries i limit window now_ m !! n = Some e -> bo_Name e = n.
Proof.
  revert i m. induction entries as [|e0 entries IH]; intros i m Hm; cbn [collect]; [done|]. apply IH.
  destruct (_ || _); [|done]. intros n e [[<- <-]|[_ He]]%lookup_insert_Some; [done|by apply Hm].
Qed.
End ScheduleProps.

Section SchedulePlan.
Context `{SortSlice}.

Lemma in_phase_elem p children b : b ∈ in_phase p children <-> b ∈ children /\ bo_Phase b = p.
Proof. unfold in_phase. by rewrite elem_of_filter_bool, String.eqb_eq. Qed.

Lemma in_phase_names p children : NoDup (bo_Name <$> children) -> NoDup (bo_Name <$> in_phase p children).
Proof.
  unfold in_phase. induction children as [|b bs IH]; cbn; [done|]. intros [Hb Hnd]%NoDup_cons.
  destruct (String.eqb (bo_Phase b) p); [|by apply IH]. cbn. apply NoDup_cons. split; [|by apply IH].
  intros (b' & Hn & [Hin _]%elem_of_filter_bool)%list_elem_of_fmap. apply Hb. rewrite Hn. by apply list_elem_of_fmap_2.
Qed.

(** The children of a phase, newest first: an index is a count of newer ones. *)
Lemma ranked p children limit window now_ b :
  NoDup (bo_Name <$> children) ->
  (exists k, sortNewestFirst (in_phase p children) !! k = Some b /\ over limit window now_ (0 + Z.of_nat k) b) <->
  b ∈ children /\ bo_Phase b = p /\ over limit window now_ (Z.of_nat (newer_count (in_phase p children) b)) b.
Proof.
  intros Hnd. pose proof (sort_Slice_perm newer (in_phase p children)) as Hp. fold (sortNewestFirst (in_phase p children)) in Hp.
  assert (forall k, sortNewestFirst (in_phase p children) !! k = Some b -> newer_count (in_phase p children) b = k) as Hrank.
  { intros k Hk. rewrite <- (newer_count_perm _ _ b Hp). apply sorted_rank; [|by apply sort_Slice_sorted; [apply newer_asym|apply newer_nlt_trans]|done].
    rewrite Hp. by apply in_phase_names. }
  split.
  - intros (k & Hk & Ho). rewrite (Hrank k Hk). assert (b ∈ in_phase p children) as [? ?]%in_phase_elem.
    { rewrite <- Hp. by eapply list_elem_of_lookup_2. }
    done.
  - intros (Hb & Hph & Ho). assert (b ∈ sortNewestFirst (in_phase p children)) as [k Hk]%list_elem_of_lookup_1.
    { rewrite Hp. by apply in_phase_elem. }
    exists k. split; [done|]. by rewrite (Hrank k Hk) in Ho.
Qed.

Lemma same_name children b b' : NoDup (bo_Name <$> children) -> b ∈ children -> b' ∈ children -> bo_Name b = bo_Name b' -> b = b'.
Proof.
  intros Hnd [i Hi]%list_elem_of_lookup_1 [j Hj]%list_elem_of_lookup_1 Hn. rewrite NoDup_alt in Hnd.
  assert (i = j) as ->; [|congruence]. apply (Hnd i j (bo_Name b)); rewrite list_lookup_fmap; [by rewrite Hi|by rewrite Hj, Hn].
Qed.

(** The newest of the completed backups has no newer one, and only it. *)
Lemma floor_rank children floor rest b :
  NoDup (bo_Name <$> children) -> sortNewestFirst (in_phase BackupPhaseCompleted children) = floor :: rest ->
  b ∈ children -> bo_Phase b = BackupPhaseCompleted ->
  bo_Name b <> bo_Name floor <-> (0 < newer_count (in_phase BackupPhaseCompleted children) b)%nat.
Proof.
  intros Hnd Hs Hb Hph. pose proof (sort_Slice_perm newer (in_phase BackupPhaseCompleted children)) as Hp.
  fold (sortNewestFirst (in_phase BackupPhaseCompleted children)) in Hp. rewrite Hs in Hp.
  pose proof (sort_Slice_sorted newer (in_phase BackupPhaseCompleted children) newer_asym newer_nlt_trans) as Hsorted.
  fold (sortNewestFirst (in_phase BackupPhaseCompleted children)) in Hsorted. rewrite Hs in Hsorted.
  assert (NoDup (bo_Name <$> floor :: rest)) as Hnd' by (rewrite Hp; by apply in_phase_names).
  assert (b ∈ floor :: rest) as [k Hk]%list_elem_of_lookup_1 by (rewrite Hp; by apply in_phase_elem).
  rewrite <- (newer_count_perm _ _ b Hp), (sorted_rank _ _ _ Hnd' Hsorted Hk). destruct k as [|k]; cbn in Hk.
  - injection Hk as ->. split; [done|lia].
  - split; [lia|]. intros _ E. apply NoDup_cons in Hnd' as [Hf _]. apply Hf. rewrite <- E. apply list_elem_of_fmap_2.
    by eapply list_elem_of_lookup_2.
Qed.
End SchedulePlan.

(** the garbage collection of a schedule is exact: with distinct names it deletes
    a Backup exactly when it is completed or failed and exceeds its limit (as many of
    its phase are newer as the history limit keeps) or its age, except the newest
    completed one, which it always keeps; pending and running Backups are never
    deleted. *)
Theorem schedule_gc_is_exact `{SortSlice} children succLimit failLimit window now_ b :
  NoDup (bo_Name <$> children) ->
  b ∈ planBackupGC children succLimit failLimit window now_ <->
  b ∈ children /\
  ((bo_Phase b = BackupPhaseCompleted /\ (0 < newer_count (in_phase BackupPhaseCompleted children) b)%nat /\
      over succLimit window now_ (Z.of_nat (newer_count (in_phase BackupPhaseCompleted children) b)) b) \/
   (bo_Phase b = BackupPhaseFailed /\
      over failLimit window now_ (Z.of_nat (newer_count (in_phase BackupPhaseFailed children) b)) b)).
Proof.
  intros Hnd. unfold planBackupGC. cbv zeta.
  set (cs := sortNewestFirst (in_phase BackupPhaseCompleted children)).
  set (fs := sortNewestFirst (in_phase BackupPhaseFailed children)).
  set (m1 := collect cs 0 succLimit window now_ ∅). set (m2 := collect fs 0 failLimit window now_ m1).
  assert (forall p, NoDup (bo_Name <$> sortNewestFirst (in_phase p children))) as Hnames.
  { intros p. unfold sortNewestFirst. rewrite sort_Slice_perm. by apply in_phase_names. }
  assert (forall x, m1 !! bo_Name x = Some x <-> x ∈ children /\ bo_Phase x = BackupPhaseCompleted /\
    over succLimit window now_ (Z.of_nat (newer_count (in_phase BackupPhaseCompleted children) x)) x) as Hm1.
  { intros x. unfold m1. rewrite collect_spec, lookup_empty; [|apply Hnames|by intros; apply lookup_empty].
    rewrite <- ranked by done. split; [by intros [?|?]|by right]. }
  assert (forall n e, m1 !! n = Some e -> bo_Name e = n) as Hn1 by (by apply collect_named; intros n e; rewrite lookup_empty).
  assert (forall x, m2 !! bo_Name x = Some x <-> m1 !! bo_Name x = Some x \/ (x ∈ children /\ bo_Phase x = BackupPhaseFailed /\
    over failLimit window now_ (Z.of_nat (newer_count (in_phase BackupPhaseFailed children) x)) x)) as Hm2.
  { intros x. unfold m2. rewrite collect_spec; [by rewrite <- ranked|apply Hnames|]. intros e He.
    unfold fs, sortNewestFirst in He. rewrite sort_Slice_perm in He. apply in_phase_elem in He as [He Hf].
    destruct (m1 !! bo_Name e) as [x'|] eqn:E; [|done]. pose proof (Hn1 _ _ E) as Hx. rewrite <- Hx in E.
    apply Hm1 in E as (Hin & Hc & _). rewrite (same_name _ _ _ Hnd Hin He Hx) in Hc. by rewrite Hc in Hf. }
  assert (forall n e, m2 !! n = Some e -> bo_Name e = n) as Hn2 by (by apply collect_named).
  assert (forall m : gmap string Backup, (forall n e, m !! n = Some e -> bo_Name e = n) ->
    b ∈ snd <$> map_to_list m <-> m !! bo_Name b = Some b) as Hlist.
  { intros m Hm. rewrite list_elem_of_fmap. split.
    - intros ([n e] & -> & He%elem_of_map_to_list). cbn. by rewrite (Hm _ _ He).
    - intros Hb. exists (bo_Name b, b). split; [done|]. by apply elem_of_map_to_list. }
  destruct cs as [|floor rest] eqn:Ecs.
  - rewrite Hlist, Hm2, Hm1 by done. assert (b ∈ children -> bo_Phase b <> BackupPhaseCompleted) as Hno.
    { intros Hb Hc. assert (b ∈ cs) as Hin; [|rewrite Ecs in Hin; by apply not_elem_of_nil in Hin].
      unfold cs, sortNewestFirst. rewrite sort_Slice_perm. by apply in_phase_elem. }
    naive_solver.
  - assert (floor ∈ children /\ bo_Phase floor = BackupPhaseCompleted) as [Hfl Hfc].
    { apply in_phase_elem. rewrite <- (sort_Slice_perm newer). fold (sortNewestFirst (in_phase BackupPhaseCompleted children)). fold cs. rewrite Ecs. left. }
    rewrite Hlist by (intros n e [_ He]%lookup_delete_Some; by apply Hn2). rewrite lookup_delete_Some, Hm2, Hm1. split.
    + intros [Hne [(Hb & Hc & Ho)|(Hb & Hf & Ho)]]; [|naive_solver]. split; [done|]. left. split_and!; [done| |done].
      apply (floor_rank children floor rest); [done|by rewrite <- Ecs|done|done|congruence].
    + intros [Hb [(Hc & Hlt & Ho)|(Hf & Ho)]].
      * split; [|by left]. apply not_eq_sym. apply (floor_rank children floor rest); [done|by rewrite <- Ecs|done..].
      * split; [|by right]. intros E. rewrite (same_name _ _ _ Hnd Hfl Hb E) in Hfc. by rewrite Hfc in Hf.
Qed.

(** ** A sample store *)

Module SampleRetention.

(** Insertion sort is one way to sort a slice. *)
Program Definition insertion : SortSlice := {| sort_Slice A less l := isort (fun x y => negb (less y x)) l |}.
Next Obligation. intros A less l. apply isort_perm. Qed.
Next Obligation.
  intros A less l Hasym Htrans. eapply StronglySorted_weaken; [|apply isort_sorted].
  - intros x y. cbn. by destruct (less y x).
  - intros x y. cbn. destruct (less y x) eqn:E; [|done]. intros _. by rewrite (Hasym _ _ E).
  - intros x y z. cbn. rewrite !negb_true_iff. apply Htrans.
Qed.
#[local] Existing Instance insertion.

Definition backup (id : string) (from until : Time) : BackupEntry :=
  mkBackupEntry ("c/" +:+ id +:+ "/") (mkBackupMetadata id "c" "uid" id "c-0" "xtrabackup" "" false 0 "" "" "" from until).
Definition binlog (name : string) (until : Time) : BinlogEntry :=
  mkBinlogEntry (mkBinlogKeys ("c/binlogs/u1/" +:+ name) ("c/binlogs/u1/" +:+ name +:+ ".json"))
    (mkBinlogMetadata "c" "u1" "c-1" name 0 "" "" "" 0 until 0 "" 0).
Definition backups : list BackupEntry := [backup "new" (20 * day) (21 * day); backup "old" (1 * day) (2 * day)].
Definition binlogs : list BinlogEntry := [binlog "binlog.000001" (5 * day); binlog "binlog.000002" (20 * day)].
Definition index : ArchiveIndex :=
  mkArchiveIndex "c" "uid" [mkArchiveSegment "u1" "c-1" ["binlog.000001"; "binlog.000002"] "" "" None 0 0] "" 0 None 0 None 0 [].

Definition cluster : RetentionCluster := mkRetentionCluster "uid" (Some "7d") (Some "s3/b/p") "s3/b/p" "c-1" None.
Definition answers : Answers :=
  mkAnswers (25 * day) (Ok tt) (Ok tt) (Ok backups) (Ok []) (Ok tt) (Ok binlogs) (Ok true) (Ok index) (25 * day) (25 * day)
    (fun _ => Ok tt) (Ok tt) (Ok tt).

Definition plan : RetentionPlan := PlanRetention backups binlogs (Some index) (18 * day) (25 * day).

Definition env : Env :=
  mkEnv (fun _ st => st) (fun _ => Answered) true (fun n => Z.of_nat n) (fun _ => None)
    (fun _ _ => Err (Errorf "")) (fun _ _ => Err (Errorf "")) (fun _ _ => Err (Errorf "")).
Definition world : World := mkWorld {["k" := OIndex index]} 0 [] false.

Definition children : list Backup :=
  [mkBackup "a" "completed" 1; mkBackup "b" "completed" 2; mkBackup "c" "failed" 3; mkBackup "d" "running" 0].
End SampleRetention.
#[local] Existing Instance SampleRetention.insertion.

Lemma retention_keeps_recovery_witness :
  rp_DeletedBinlogs SampleRetention.plan <> ∅ /\
  exists dead kept newest oldest,
    plan_of SampleRetention.backups SampleRetention.binlogs (Some SampleRetention.index) (18 * day) dead kept newest oldest
      SampleRetention.plan.
Proof.
  assert (rp_DeletedBinlogs SampleRetention.plan <> ∅) as Hne.
  { intros E. apply (f_equal (fun m => bool_decide (is_Some (m !! "u1")))) in E. vm_compute in E. discriminate. }
  split; [exact Hne|].
  destruct (retention_keeps_recovery SampleRetention.backups SampleRetention.binlogs (Some SampleRetention.index) (18 * day)
    (25 * day)) as [[E _]|(dead & kept & newest & oldest & Hp & _)].
  - destruct Hne. unfold SampleRetention.plan. rewrite E. reflexivity.
  - exists dead, kept, newest, oldest. exact Hp.
Defined.

Lemma retention_rewrites_exactly_witness :
  let run := rewriteArchiveIndex (H := ContentTags.tags) "k" SampleRetention.plan SampleRetention.env SampleRetention.world in
  snd run = Ok tt /\ is_deleted (rp_DeletedBinlogs SampleRetention.plan) "u1" "binlog.000001" /\
  exists i, w_store (fst run) !! "k" = Some (OIndex i) /\
    forall u f, is_deleted (rp_DeletedBinlogs SampleRetention.plan) u f -> ~ lists i u f.
Proof.
  intros run. assert (snd run = Ok tt) as Hok by (vm_compute; reflexivity). split; [exact Hok|].
  split; [unfold is_deleted; apply (bool_decide_unpack _); vm_compute; exact I|].
  apply (retention_rewrites_exactly (H := ContentTags.tags) "k" SampleRetention.plan SampleRetention.env SampleRetention.world (fst run) (snd run));
    [reflexivity|reflexivity|apply surjective_pairing|exact Hok|intros k st Hst; exact Hst|eexists; vm_compute; reflexivity|].
  intros E. apply (f_equal (fun m => bool_decide (is_Some (m !! "u1")))) in E. vm_compute in E. discriminate.
Defined.

Lemma lost_file_stays_listed_witness :
  lists (rewriteIndex SampleRetention.index
    (rp_DeletedBinlogs (PlanRetention SampleRetention.backups [SampleRetention.binlog "binlog.000002" 3] (Some SampleRetention.index) (18 * day) 0)) 9)
    "u1" "binlog.000001".
Proof.
  apply (lost_file_stays_listed SampleRetention.backups [SampleRetention.binlog "binlog.000002" 3] (Some SampleRetention.index) (18 * day) 0).
  - intros e He. apply list_elem_of_singleton in He as ->. intros [_ E]. discriminate E.
  - eexists. split; [left|]. split; [reflexivity|left].
Defined.

Lemma retention_deletes_only_own_witness :
  let run := reconcileRetention SampleRetention.cluster SampleRetention.answers in
  fst run = [RemoveBackup "c/old/"; RemoveBinlog "c/binlogs/u1/binlog.000001"; RemoveBinlog "c/binlogs/u1/binlog.000001.json"; RewriteIndex; Stamp] /\
  exists policy window, rc_Policy SampleRetention.cluster = Some policy /\ ParseRetentionPolicy policy = Ok window.
Proof.
  intros run. assert (fst run = [RemoveBackup "c/old/"; RemoveBinlog "c/binlogs/u1/binlog.000001"; RemoveBinlog "c/binlogs/u1/binlog.000001.json"; RewriteIndex; Stamp]) as Hf
    by (vm_compute; reflexivity).
  split; [exact Hf|].
  destruct (retention_deletes_only_own SampleRetention.cluster SampleRetention.answers (fst run) (snd run) RewriteIndex) as
    (_ & policy & window & store & bs & lg & bn & ix & H1 & H2 & _).
  - apply surjective_pairing.
  - rewrite Hf. do 3 right. left.
  - reflexivity.
  - exists policy, window. split; [exact H1|exact H2].
Defined.

Lemma schedule_gc_is_exact_witness :
  mkBackup "a" "completed" 1 ∈ planBackupGC SampleRetention.children (Some 1) None 0 10.
Proof.
  apply (schedule_gc_is_exact SampleRetention.children (Some 1) None 0 10 (mkBackup "a" "completed" 1)).
  - apply (bool_decide_unpack _). vm_compute. exact I.
  - split; [left|]. left. split; [reflexivity|]. split; [apply Nat.ltb_lt; vm_compute; reflexivity|]. left. exists 1. split; [reflexivity|].
    apply Z.leb_le. vm_compute. reflexivity.
Defined.
