(* ===== verification/Replay.v ===== *)
(** * Planning a replay

    [pkg/management/mysql/binlog/replay.go]: turning the archive index, the base
    backup's anchor and a recovery target into a plan.  The generic planner is
    written over [gtidOps]; its theorems are proved from [gtidOpsLaws].  The MySQL
    layer adds the fork records, the backstop for unrecorded forks and the checks
    for gaps; [SelectMariadbSegments] is the MariaDB segment selection. *)

From Stdlib Require Import ZArith Lia Bool Ascii String.
From stdpp Require Import base list strings gmap sorting.
From S2P Require Import Prelude GoStrings Gtid GtidText GtidModel MariaGtid MariaTimeline.
From S2P Require Import Archive Forks GtidOps.

Local Open Scope Z_scope.
#[local] Arguments String.append : simpl nomatch.

(** ** Data *)

Record RecoveryTarget := mkRecoveryTarget {
  rt_Time : option Time;
  rt_GTID : string;
  rt_Immediate : bool
}.

Record ReplaySegment := mkReplaySegment {
  rs_ServerUUID : string;
  rs_Files : list string;
  rs_GTIDSet : string;
  rs_Fork : option ArchiveFork
}.

Record ReplayPlan := mkReplayPlan {
  rp_Segments : list ReplaySegment;
  rp_AnchorGTID : string;
  rp_ExcludeGTIDs : string;
  rp_IncludeGTIDs : string;
  rp_StopDatetime : string;
  rp_TargetTime : Time;
  rp_AnchorFile : string;
  rp_StartPosition : Z;
  rp_AnchorServerUUID : string;
  rp_MariaDBPositional : bool;
  rp_MariaDBDomain : Z;
  rp_MariaDBAnchorSeq : Z;
  rp_MariaDBTargetSeq : Z;
  rp_MariaDBTarget : option MariaDBGTID;
  rp_DisownedGTIDs : string;
  rp_Forks : list SegmentFork;
  rp_ForkChecked : bool;
  rp_Warnings : list string
}.

(** [ReplayPlan{AnchorGTID: ..., ExcludeGTIDs: ..., Segments: ...}], with the
    fields the generic planner fills. *)
Definition new_plan (segs : list ReplaySegment) (anchor exclude : string)
    (forks : list SegmentFork) (checked : bool) : ReplayPlan :=
  mkReplayPlan segs anchor exclude "" "" 0 "" 0 "" false 0 0 0 None "" forks checked [].

(** Assignments to the bounds, to the disowned set and to the exclude set. *)
Definition set_bounds (p : ReplayPlan) (include stop : string) (time : Time) : ReplayPlan :=
  mkReplayPlan (rp_Segments p) (rp_AnchorGTID p) (rp_ExcludeGTIDs p) include stop time
    (rp_AnchorFile p) (rp_StartPosition p) (rp_AnchorServerUUID p) (rp_MariaDBPositional p)
    (rp_MariaDBDomain p) (rp_MariaDBAnchorSeq p) (rp_MariaDBTargetSeq p) (rp_MariaDBTarget p)
    (rp_DisownedGTIDs p) (rp_Forks p) (rp_ForkChecked p) (rp_Warnings p).
Definition set_forks (p : ReplayPlan) (exclude disowned : string) (warnings : list string) : ReplayPlan :=
  mkReplayPlan (rp_Segments p) (rp_AnchorGTID p) exclude (rp_IncludeGTIDs p) (rp_StopDatetime p)
    (rp_TargetTime p) (rp_AnchorFile p) (rp_StartPosition p) (rp_AnchorServerUUID p)
    (rp_MariaDBPositional p) (rp_MariaDBDomain p) (rp_MariaDBAnchorSeq p) (rp_MariaDBTargetSeq p)
    (rp_MariaDBTarget p) disowned (rp_Forks p) (rp_ForkChecked p) warnings.

(** ** [time.Time.UTC().Format("2006-01-02 15:04:05")] *)

Definition pad (width : nat) (n : Z) : string :=
  let s := FormatUint n in
  Nat.iter (width - String.length s) (fun s => "0" +:+ s) s.

(** Year, month and day of a day number, counted from January 1 of year 1. *)
Definition civil (days : Z) : Z * Z * Z :=
  let z := days + 306 in
  let era := z / 146097 in
  let doe := z mod 146097 in
  let yoe := (doe - doe / 1460 + doe / 36524 - doe / 146096) / 365 in
  let doy := doe - (365 * yoe + yoe / 4 - yoe / 100) in
  let mp := (5 * doy + 2) / 153 in
  let d := doy - (153 * mp + 2) / 5 + 1 in
  let m := if mp <? 10 then mp + 3 else mp - 9 in
  (yoe + era * 400 + (if m <=? 2 then 1 else 0), m, d).

Definition format_datetime (t : Time) : string :=
  let secs := t / 10 ^ 9 in
  let '(y, m, d) := civil (secs / 86400) in
  let s := secs mod 86400 in
  pad 4 y +:+ "-" +:+ pad 2 m +:+ "-" +:+ pad 2 d +:+ " " +:+
  pad 2 (s / 3600) +:+ ":" +:+ pad 2 (s mod 3600 / 60) +:+ ":" +:+ pad 2 (s mod 60).

(** ** Shared steps *)

Definition checkTimeTarget (idx : ArchiveIndex) (target : RecoveryTarget) : result unit :=
  match rt_Time target with
  | None => Ok tt
  | Some t =>
      if IsZero (ix_ArchivedThrough idx) || negb (ix_ArchivedThrough idx <? t) then Ok tt
      else Err ErrTargetBeyondArchive
  end.

Definition replaySegment (seg : ArchiveSegment) : ReplaySegment :=
  mkReplaySegment (sg_ServerUUID seg) (sg_Binlogs seg) (sg_GTIDSet seg) (sg_Fork seg).

Definition plannedForks (idx : ArchiveIndex) (planned : list ReplaySegment) : list SegmentFork :=
  List.filter (fun fork => existsb (fun seg => String.eqb (rs_ServerUUID seg) (sf_ServerUUID fork)) planned)
    (SegmentForks (Some idx)).

(** ** The generic planner *)

Section Planner.
Context {T : Type} `{gtidOps T}.

(** The [switch] on the target, shared by both planners but for [TargetTime]. *)
Definition applyTargetWithOps (plan : ReplayPlan) (frontier anchor : T) (target : RecoveryTarget)
  : result ReplayPlan :=
  if negb (String.eqb (rt_GTID target) "") then
    let? want := wrapf "parsing target GTID" (go_Parse (rt_GTID target)) in
    if negb (go_Contains want anchor) then Err ErrTargetBeforeBackup
    else if negb (go_Contains frontier want) then Err ErrTargetBeyondArchive
    else Ok (set_bounds plan (go_String want) (rp_StopDatetime plan) (rp_TargetTime plan))
  else match rt_Time target with
       | Some t => Ok (set_bounds plan (rp_IncludeGTIDs plan) (format_datetime t) t)
       | None => Ok plan
       end.

(** One segment of the index: planned unless the frontier already holds it. *)
Definition plan_step (st : list ReplaySegment * T) (seg : ArchiveSegment) : result (list ReplaySegment * T) :=
  let '(planned, frontier) := st in
  let? segSet := wrapf "parsing segment GTID set" (go_Parse (sg_GTIDSet seg)) in
  if negb (go_IsEmpty segSet) && go_Contains frontier segSet then Ok st
  else Ok (planned ++ [replaySegment seg], go_Union frontier segSet).

Definition planReplayWithOps (idx : option ArchiveIndex) (anchorGTID : string) (target : RecoveryTarget)
  : result ReplayPlan :=
  match idx with
  | None => Err (Errorf "archive index is required")
  | Some idx =>
      let? _ := checkTimeTarget idx target in
      let? anchor := wrapf "parsing anchor GTID" (go_Parse anchorGTID) in
      let? ' (planned, frontier) := fold_result plan_step ([], go_Clone anchor) (ix_Segments idx) in
      let plan := new_plan planned (go_String anchor) (go_String anchor) (plannedForks idx planned)
                    (match ix_ForkCheck idx with Some _ => true | None => false end) in
      let? _ :=
        if negb (String.eqb (ix_CoveredGTIDSet idx) "") then
          let? covered := wrapf "parsing index coverage" (go_Parse (ix_CoveredGTIDSet idx)) in
          if negb (go_Contains frontier covered) then Err ErrForkedTimeline else Ok tt
        else Ok tt in
      applyTargetWithOps plan frontier anchor target
  end.

Definition planReplayWithoutFrontier (idx : ArchiveIndex) (anchorGTID : string) (target : RecoveryTarget)
  : result ReplayPlan :=
  let? _ := checkTimeTarget idx target in
  let? anchor := wrapf "parsing anchor GTID" (go_Parse anchorGTID) in
  let planned := replaySegment <$>
    List.filter (fun seg => negb (Nat.eqb (length (sg_Binlogs seg)) 0)) (ix_Segments idx) in
  let plan := new_plan planned "" (go_String anchor) (plannedForks idx planned)
                (match ix_ForkCheck idx with Some _ => true | None => false end) in
  if negb (String.eqb (rt_GTID target) "") then
    let? want := wrapf "parsing target GTID" (go_Parse (rt_GTID target)) in
    if negb (go_Contains want anchor) then Err ErrTargetBeforeBackup
    else Ok (set_bounds plan (go_String want) (rp_StopDatetime plan) (rp_TargetTime plan))
  else match rt_Time target with
       | Some t => Ok (set_bounds plan (rp_IncludeGTIDs plan) (format_datetime t) (rp_TargetTime plan))
       | None => Ok plan
       end.
End Planner.

(** [errors.Is(err, ErrTargetBeyondArchive)] falls back to the frontier-less plan. *)
Definition PlanReplayWithModel (M : GTIDModel) (idx : option ArchiveIndex) (anchorGTID : string)
    (target : RecoveryTarget) : result ReplayPlan :=
  match planReplayWithOps (H := @mariadbOps M) idx anchorGTID target, idx with
  | Err ErrTargetBeyondArchive, Some idx => planReplayWithoutFrontier (H := @mariadbOps M) idx anchorGTID target
  | r, _ => r
  end.

(** ** MySQL: forks and gaps *)

Definition fork_sets (segs : list ArchiveSegment) : list string :=
  omap (fun seg => match sg_Fork seg with
                   | Some f => if negb (String.eqb (fk_GTIDSet f) "") then Some (fk_GTIDSet f) else None
                   | None => None
                   end) segs.

Definition index_disowned (idx : ArchiveIndex) : list string :=
  fork_sets (ix_Segments idx) ++
  match ix_Disowned idx with
  | Some d => if negb (String.eqb (ds_GTIDSet d) "") then [ds_GTIDSet d] else []
  | None => []
  end.

Definition applyMySQLForks (idx : ArchiveIndex) (target : RecoveryTarget) (plan : ReplayPlan)
  : result ReplayPlan :=
  let? allForks := wrapf "parsing fork records" (UnionGTIDStrings (index_disowned idx)) in
  if negb (String.eqb (rt_GTID target) "") then
    let? mixed := wrapf "comparing target with fork records"
                    (IntersectsGTIDStrings (rp_IncludeGTIDs plan) allForks) in
    let warnings := if mixed then rp_Warnings plan ++
      ["recovery targetGTID includes transactions the surviving timeline disowned (" +:+ allForks +:+
       "); together with transactions written after the failover it recovers a state that never existed"]
      else rp_Warnings plan in
    Ok (set_forks plan (rp_ExcludeGTIDs plan) allForks warnings)
  else
    let? onDeadBranch := wrapf "comparing anchor with fork records"
                           (DifferenceGTIDStrings allForks (rp_ExcludeGTIDs plan)) in
    if negb (String.eqb onDeadBranch allForks) then Err ErrBackupOnDeadBranch
    else
      let? exclude := wrapf "merging fork records into the exclude set"
                        (UnionGTIDStrings [rp_ExcludeGTIDs plan; allForks]) in
      Ok (set_forks plan exclude allForks (rp_Warnings plan)).

(** [ivs[len(ivs)-1].End]. *)
Definition last_end (ivs : list GTIDInterval) : Z := default 0 (iv_End <$> last ivs).

(** What segment [earlier] holds of its own past the point [later] took over and
    no record explains; empty when the pair gives no verdict. *)
Definition unrecorded_dead (known : GTIDSet) (earlier later : ArchiveSegment * GTIDSet) : GTIDSet :=
  let author := ToLower (sg_ServerUUID (fst earlier)) in
  let successor := ToLower (sg_ServerUUID (fst later)) in
  let own := GTIDSet_get (snd earlier) author in
  let relogged := GTIDSet_get (snd later) author in
  if Nat.eqb (length own) 0 then ∅
  else if Nat.eqb (length relogged) 0 || Nat.eqb (length (GTIDSet_get (snd later) successor)) 0
          || Nat.ltb 0 (length (GTIDSet_get (snd earlier) successor)) then ∅
  else
    let tookOverAt := last_end relogged in
    let lastOwn := last_end own in
    if lastOwn <=? tookOverAt then ∅
    else
      let dead := GTIDSet_AddInterval ∅ author (mkGTIDInterval (i64 (tookOverAt + 1)) lastOwn) in
      GTIDSet_Difference (GTIDSet_Intersect dead (snd earlier)) known.

(** [for i ... { for j := i + 1; ... } }]. *)
Fixpoint check_pairs (known : GTIDSet) (l : list (ArchiveSegment * GTIDSet)) : result unit :=
  match l with
  | [] => Ok tt
  | earlier :: later =>
      if existsb (fun x => negb (GTIDSet_IsEmpty (unrecorded_dead known earlier x))) later
      then Err ErrForkedTimeline
      else check_pairs known later
  end.

Definition checkUnrecordedForks (idx : ArchiveIndex) (recorded : string) : result unit :=
  let? known := wrapf "parsing disowned set" (ParseGTIDSet recorded) in
  let? sets := map_result (fun seg => wrapf "parsing segment GTID set" (ParseGTIDSet (sg_GTIDSet seg)))
                 (ix_Segments idx) in
  check_pairs known (zip (ix_Segments idx) sets).

(** The loop over [got]: for a UUID the anchor does not hold, everything before
    its first transaction is missing too. *)
Definition leading_missing (anchor got : GTIDSet) : GTIDSet :=
  foldl (fun missing '(uuid, intervals) =>
    match intervals with
    | first :: _ =>
        if Nat.ltb 0 (length (GTIDSet_get anchor uuid)) || (iv_Start first <=? 1) then missing
        else GTIDSet_AddInterval missing uuid (mkGTIDInterval 1 (i64 (iv_Start first - 1)))
    | [] => missing
    end) (GTIDSet_Holes got) (map_to_list got).

Definition checkMySQLGaps (anchorGTID result_ disowned : string) : result unit :=
  let? anchor := wrapf "parsing anchor GTID" (ParseGTIDSet anchorGTID) in
  let? got := wrapf "parsing recovered GTID set" (ParseGTIDSet result_) in
  let? expected := wrapf "parsing disowned GTID set" (ParseGTIDSet disowned) in
  let expected := GTIDSet_Union expected (GTIDSet_Holes anchor) in
  let missing := leading_missing anchor got in
  if negb (GTIDSet_IsEmpty (GTIDSet_Difference missing expected)) then Err ErrArchiveGap else Ok tt.

Definition PlanReplay (idx : option ArchiveIndex) (anchorGTID : string) (target : RecoveryTarget)
  : result ReplayPlan :=
  let? plan := planReplayWithOps (T := GTIDSet) idx anchorGTID target in
  match idx with
  | None => Err (Errorf "archive index is required")
  | Some idx =>
      let? plan := applyMySQLForks idx target plan in
      let? _ := if String.eqb (rt_GTID target) "" then checkUnrecordedForks idx (rp_DisownedGTIDs plan)
                else Ok tt in
      let? _ :=
        match rt_Time target with
        | None =>
            if String.eqb (rt_GTID target) "" then
              let? union := wrapf "merging planned coverage"
                              (UnionGTIDStrings (anchorGTID :: (rs_GTIDSet <$> rp_Segments plan))) in
              checkMySQLGaps anchorGTID union (rp_DisownedGTIDs plan)
            else Ok tt
        | Some _ => Ok tt
        end in
      Ok plan
  end.

Definition VerifyReplayedGTIDs (plan : ReplayPlan) (anchorGTID executed : string) : result unit :=
  let? _ :=
    if negb (String.eqb (rp_IncludeGTIDs plan) "") then
      let? missing := wrapf "comparing the recovered set with the target"
                        (DifferenceGTIDStrings (rp_IncludeGTIDs plan) executed) in
      if negb (String.eqb missing "") then Err ErrArchiveGap else Ok tt
    else Ok tt in
  checkMySQLGaps anchorGTID executed (rp_DisownedGTIDs plan).

(** ** MariaDB: selecting segments *)

Record seg_interval := mkSegInterval { si_seg : ArchiveSegment; si_start : Z; si_end : Z }.

Definition segment_interval (domain : Z) (seg : ArchiveSegment) : option seg_interval :=
  let end_ := MariaSeqForDomain (sg_GTIDSet seg) domain in
  if end_ =? 0 then None
  else let start := MariaSeqForDomain (sg_StartGTIDSet seg) domain in
       Some (mkSegInterval seg (if start =? 0 then 1 else start) end_).

(** [used[i]] and the interval, by index. *)
Abbreviation slots := (list (bool * seg_interval)).

Definition max_end (ivs : list seg_interval) : Z := foldl (fun m v => Z.max m (si_end v)) 0 ivs.

(** The two scans: the index of the best candidate so far, with its interval. *)
Fixpoint scan_best (eligible : seg_interval -> bool) (better : seg_interval -> seg_interval -> bool)
    (l : slots) (i : nat) (best : option (nat * seg_interval)) : option (nat * seg_interval) :=
  match l with
  | [] => best
  | (used, v) :: l' =>
      let best' :=
        if used || negb (eligible v) then best
        else match best with
             | None => Some (i, v)
             | Some (_, b) => if better v b then Some (i, v) else best
             end in
      scan_best eligible better l' (S i) best'
  end.

(** Furthest end among those contiguous with [current]. *)
Definition pick_contiguous (l : slots) (current : Z) : option (nat * seg_interval) :=
  scan_best (fun v => negb (si_end v <=? current) && negb (u64 (current + 1) <? si_start v))
    (fun v b => si_end b <? si_end v) l 0 None.

(** Earliest start among those past [current]. *)
Definition pick_leading (l : slots) (current : Z) : option (nat * seg_interval) :=
  scan_best (fun v => negb (si_end v <=? current)) (fun v b => si_start v <? si_start b) l 0 None.

(** [for current < targetSeq]; every iteration uses one more slot, so one more than
    the number of slots is enough fuel. *)
Fixpoint select_loop (fuel : nat) (l : slots) (current targetSeq : Z) (out : list ReplaySegment)
  : result (list ReplaySegment) :=
  if current <? targetSeq then
    match fuel with
    | O => Err (Errorf "out of fuel")
    | S fuel =>
        let best := match pick_contiguous l current with
                    | Some b => Some b
                    | None => if Nat.eqb (length out) 0 then pick_leading l current else None
                    end in
        match best with
        | None => Err ErrForkedTimeline
        | Some (i, v) =>
            select_loop fuel (<[i := (true, v)]> l) (si_end v) targetSeq (out ++ [replaySegment (si_seg v)])
        end
    end
  else Ok out.

Definition SelectMariadbSegments (segments : list ArchiveSegment) (domain anchorSeq targetSeq : Z)
  : result (list ReplaySegment) :=
  if targetSeq <=? anchorSeq then Ok []
  else
    let ivs := omap (segment_interval domain) segments in
    if max_end ivs <? targetSeq then Err ErrTargetBeyondArchive
    else select_loop (S (length ivs)) ((fun v => (false, v)) <$> ivs) anchorSeq targetSeq [].

(** ** The generic planner is correct *)

Section PlannerCorrect.
Context {T : Type} `{L : gtidOpsLaws T}.

(** The transactions a raw string denotes. *)
Definition raw_holds (raw : string) (t : go_txn (T := T)) : Prop := exists s : T, go_Parse raw = Ok s /\ go_holds s t.

Lemma parse_wf raw (s : T) : go_Parse raw = Ok s -> go_raw raw -> go_wf s.
Proof. intros Hs Hr. by eapply go_parse_wf. Qed.

Lemma raw_holds_parsed raw (s : T) t : go_Parse raw = Ok s -> raw_holds raw t <-> go_holds s t.
Proof. intros E. split; [|by exists s]. intros (s' & E' & Ht). congruence. Qed.

Lemma raw_holds_String (s : T) t : go_wf s -> raw_holds (go_String s) t <-> go_holds s t.
Proof. intros Hs. destruct (go_string_parse s Hs) as (_ & b & Hb & Hh). by rewrite (raw_holds_parsed _ b). Qed.

Lemma raw_holds_empty t : ~ raw_holds "" t.
Proof. intros (s & Hs & Ht). by eapply go_parse_empty in Ht. Qed.

Lemma plan_loop_spec segs p0 (f0 : T) planned frontier :
  go_wf f0 -> Forall (fun seg => go_raw (T := T) (sg_GTIDSet seg)) segs ->
  fold_result plan_step (p0, f0) segs = Ok (planned, frontier) ->
  go_wf frontier /\
  exists added, planned = p0 ++ (replaySegment <$> added) /\ added `sublist_of` segs /\
    (forall t, go_holds frontier t <->
       go_holds f0 t \/ exists seg, seg ∈ added /\ raw_holds (sg_GTIDSet seg) t) /\
    (forall seg t, seg ∈ segs -> raw_holds (sg_GTIDSet seg) t -> go_holds frontier t).
Proof.
  revert p0 f0. induction segs as [|seg segs IH]; intros p0 f0 Hf Hraw; cbn.
  - intros [= <- <-]. split; [done|]. exists []. rewrite app_nil_r. split_and!; [done..| |set_solver].
    intros t. set_solver.
  - apply Forall_cons in Hraw as [Hr Hraw]. intros Hfold.
    apply rbind_Ok in Hfold as ([p1 f1] & Hstep & Hfold). unfold plan_step in Hstep. inv_result.
    rename x into s. assert (go_wf s) as Hs by (by eapply parse_wf).
    pose proof (fun t => raw_holds_parsed _ _ t H0) as Hseg.
    destruct (negb (go_IsEmpty s) && go_Contains f0 s) eqn:E; injection Hstep as <- <-.
    + boolp. rewrite (go_contains_iff f0 s Hf Hs) in H2.
      destruct (IH _ _ Hf Hraw Hfold) as (Hw & added & -> & Hsub & Hhold & Hall).
      split; [done|]. exists added. split_and!; [done|by apply sublist_cons|done|].
      intros seg' t [->|Hin]%elem_of_cons Ht; [|eauto]. apply Hhold. left. apply H2. by apply Hseg.
    + destruct (go_union_spec f0 s Hf Hs) as [Hw1 Hu].
      destruct (IH _ _ Hw1 Hraw Hfold) as (Hw & added & -> & Hsub & Hhold & Hall).
      split; [done|]. exists (seg :: added). rewrite fmap_cons, <- app_assoc.
      split_and!; [done|by apply sublist_skip| |].
      * intros t. rewrite Hhold, Hu, <- Hseg. setoid_rewrite elem_of_cons. split.
        -- intros [[?|?]|(x & ? & ?)]; eauto.
        -- intros [?|(x & [->|?] & ?)]; eauto.
      * intros seg' t [->|Hin]%elem_of_cons Ht; [|eauto]. apply Hhold. left. apply Hu. right. by apply Hseg.
Qed.

(** The loop fails only on a segment it cannot read. *)
Lemma plan_loop_ok segs p0 (f0 : T) :
  Forall (fun seg => is_ok (go_Parse (T := T) (sg_GTIDSet seg)) = true) segs ->
  exists r, fold_result plan_step (p0, f0) segs = Ok r.
Proof.
  intros Hp. revert p0 f0. induction Hp as [|seg segs Hs Hp IH]; intros p0 f0; cbn; [eauto|].
  destruct (go_Parse (sg_GTIDSet seg)) as [s|]; [|done]. cbn. destruct (_ && _); cbn; apply IH.
Qed.

(** What the caller hands in is covered by the contract. *)
Definition raws_ok (idx : ArchiveIndex) (anchorGTID : string) (target : RecoveryTarget) : Prop :=
  go_raw (T := T) anchorGTID /\ go_raw (T := T) (rt_GTID target) /\ go_raw (T := T) (ix_CoveredGTIDSet idx) /\
  Forall (fun seg => go_raw (T := T) (sg_GTIDSet seg)) (ix_Segments idx).

(** The base backup or a planned segment holds [t]. *)
Definition plan_covers (anchorGTID : string) (planned : list ReplaySegment) (t : go_txn (T := T)) : Prop :=
  raw_holds anchorGTID t \/ exists seg, seg ∈ planned /\ raw_holds (rs_GTIDSet seg) t.

Lemma planReplayWithOps_sound idx anchorGTID target plan :
  raws_ok idx anchorGTID target ->
  planReplayWithOps (T := T) (Some idx) anchorGTID target = Ok plan ->
  (exists added, added `sublist_of` ix_Segments idx /\ rp_Segments plan = replaySegment <$> added) /\
  (forall seg t, seg ∈ ix_Segments idx -> raw_holds (sg_GTIDSet seg) t ->
     plan_covers anchorGTID (rp_Segments plan) t) /\
  (forall t, raw_holds (ix_CoveredGTIDSet idx) t -> plan_covers anchorGTID (rp_Segments plan) t) /\
  (forall t, raw_holds (rp_ExcludeGTIDs plan) t <-> raw_holds anchorGTID t) /\
  (rt_GTID target <> "" ->
     (forall t, raw_holds (rp_IncludeGTIDs plan) t <-> raw_holds (rt_GTID target) t) /\
     (forall t, raw_holds anchorGTID t -> raw_holds (rt_GTID target) t) /\
     (forall t, raw_holds (rt_GTID target) t -> plan_covers anchorGTID (rp_Segments plan) t)).
Proof.
  intros (Hra & Hrt & Hrc & Hrs). unfold planReplayWithOps. intros Hplan.
  apply rbind_Ok in Hplan as (_ & _ & Hplan). apply rbind_Ok in Hplan as (anchor & Ha%wrapf_Ok & Hplan).
  apply rbind_Ok in Hplan as ([planned frontier] & Hloop & Hplan).
  apply rbind_Ok in Hplan as (u & Hcov & Hplan). rewrite go_clone_id in Hloop.
  assert (go_wf anchor) as Hwa by (by eapply parse_wf).
  destruct (plan_loop_spec _ _ _ _ _ Hwa Hrs Hloop) as (Hwf & added & -> & Hsub & Hhold & Hall).
  cbn [app] in *. pose proof (fun t => raw_holds_parsed _ _ t Ha) as Hanchor.
  assert (forall t, go_holds frontier t <-> plan_covers anchorGTID (replaySegment <$> added) t) as Hfr.
  { intros t. rewrite Hhold, <- Hanchor. unfold plan_covers. apply or_iff_compat_l. split.
    - intros (seg & Hin & Ht). exists (replaySegment seg). split; [by apply list_elem_of_fmap_2|done].
    - intros (s & (seg & -> & Hin)%list_elem_of_fmap & Ht). eauto. }
  assert (forall t, raw_holds (ix_CoveredGTIDSet idx) t -> go_holds frontier t) as Hcovered.
  { intros t Ht. destruct (String.eqb_spec (ix_CoveredGTIDSet idx) "") as [E|E].
    - rewrite E in Ht. by apply raw_holds_empty in Ht.
    - cbn in Hcov. inv_result. destruct (go_Contains frontier x) eqn:Ec; [|done].
      assert (go_wf x) as Hwx by (by eapply parse_wf). rewrite (go_contains_iff frontier x Hwf Hwx) in Ec.
      apply Ec. by apply (raw_holds_parsed _ _ t H0). }
  assert (rp_Segments plan = replaySegment <$> added /\ rp_ExcludeGTIDs plan = go_String anchor /\
    (rt_GTID target <> "" -> exists want, go_Parse (rt_GTID target) = Ok want /\
       go_Contains want anchor = true /\ go_Contains frontier want = true /\
       rp_IncludeGTIDs plan = go_String want)) as (-> & -> & Htarget).
  { unfold applyTargetWithOps in Hplan. destruct (String.eqb_spec (rt_GTID target) "") as [E|E]; cbn in Hplan.
    - destruct (rt_Time target); injection Hplan as <-; done.
    - inv_result. destruct (go_Contains x anchor) eqn:E1; cbn in Hplan; [|done].
      destruct (go_Contains frontier x) eqn:E2; cbn in Hplan; [|done]. injection Hplan as <-.
      split_and!; try done. intros _. exists x. done. }
  split_and!.
  - by exists added.
  - intros seg t Hin Ht. apply Hfr. eauto.
  - intros t Ht. apply Hfr. auto.
  - intros t. by rewrite raw_holds_String, Hanchor.
  - intros Hne. destruct (Htarget Hne) as (want & Hw & E1 & E2 & ->).
    assert (go_wf want) as Hww by (by eapply parse_wf).
    rewrite (go_contains_iff want anchor Hww Hwa) in E1.
    rewrite (go_contains_iff frontier want Hwf Hww) in E2. pose proof (fun t => raw_holds_parsed _ _ t Hw) as Hwant.
    split_and!; intros t.
    + by rewrite raw_holds_String, Hwant.
    + rewrite Hanchor, Hwant. apply E1.
    + rewrite Hwant, <- Hfr. apply E2.
Qed.

(** Every readable input is settled: the plan exists exactly when the index is
    coherent and the target reachable, and the sentinel says why not. *)
Lemma planReplayWithOps_total idx anchorGTID target :
  raws_ok idx anchorGTID target -> checkTimeTarget idx target = Ok tt ->
  is_ok (go_Parse (T := T) anchorGTID) = true -> is_ok (go_Parse (T := T) (rt_GTID target)) = true ->
  is_ok (go_Parse (T := T) (ix_CoveredGTIDSet idx)) = true ->
  Forall (fun seg => is_ok (go_Parse (T := T) (sg_GTIDSet seg)) = true) (ix_Segments idx) ->
  let archived t := raw_holds anchorGTID t \/
    exists seg, seg ∈ ix_Segments idx /\ raw_holds (sg_GTIDSet seg) t in
  match planReplayWithOps (T := T) (Some idx) anchorGTID target with
  | Ok _ => True
  | Err ErrForkedTimeline => ~ (forall t, raw_holds (ix_CoveredGTIDSet idx) t -> archived t)
  | Err ErrTargetBeforeBackup => rt_GTID target <> "" /\
      ~ (forall t, raw_holds anchorGTID t -> raw_holds (rt_GTID target) t)
  | Err ErrTargetBeyondArchive => rt_GTID target <> "" /\
      ~ (forall t, raw_holds (rt_GTID target) t -> archived t)
  | Err _ => False
  end.
Proof.
  intros (Hra & Hrt & Hrc & Hrs) Htime Hpa Hpt Hpc Hps archived. unfold planReplayWithOps. rewrite Htime. cbn.
  destruct (go_Parse anchorGTID) as [anchor|] eqn:Ha; [|done]. cbn.
  assert (go_wf anchor) as Hwa by (by eapply parse_wf). rewrite go_clone_id.
  destruct (plan_loop_ok (ix_Segments idx) [] anchor Hps) as [[planned frontier] Hloop]. rewrite Hloop. cbn.
  destruct (plan_loop_spec _ _ _ _ _ Hwa Hrs Hloop) as (Hwf & added & -> & Hsub & Hhold & Hall).
  assert (forall t, go_holds frontier t <-> archived t) as Hfr.
  { intros t. unfold archived. rewrite (raw_holds_parsed _ _ t Ha). split.
    - rewrite Hhold. intros [?|(seg & Hin & ?)]; [by left|]. right. exists seg. split; [|done].
      by eapply elem_of_sublist.
    - intros [?|(seg & Hin & ?)]; [|eauto]. apply Hhold. by left. }
  destruct (String.eqb_spec (ix_CoveredGTIDSet idx) "") as [Ec|Ec]; cbn.
  2: destruct (go_Parse (ix_CoveredGTIDSet idx)) as [covered|] eqn:Hc; [cbn|done].
  2: assert (go_wf covered) as Hwc by (by eapply parse_wf);
     destruct (go_Contains frontier covered) eqn:E; cbn.
  3: { intros Hcov. apply not_true_iff_false in E. apply E, (go_contains_iff frontier covered Hwf Hwc).
       intros t Ht. apply Hfr, Hcov. by apply (raw_holds_parsed _ _ t Hc). }
  all: unfold applyTargetWithOps; destruct (String.eqb_spec (rt_GTID target) "") as [Et|Et]; cbn;
    [by destruct (rt_Time target)|].
  all: destruct (go_Parse (rt_GTID target)) as [want|] eqn:Hw; [cbn|done];
    assert (go_wf want) as Hww by (by eapply parse_wf);
    destruct (go_Contains want anchor) eqn:E1; cbn;
    [destruct (go_Contains frontier want) eqn:E2; cbn; [done|]|]; (split; [done|]); intros Hcon.
  1,3: apply not_true_iff_false in E2; apply E2, (go_contains_iff frontier want Hwf Hww); intros t Ht;
       apply Hfr, Hcon; by apply (raw_holds_parsed _ _ t Hw).
  all: apply not_true_iff_false in E1; apply E1, (go_contains_iff want anchor Hww Hwa); intros t Ht;
       apply (raw_holds_parsed _ _ t Hw), Hcon; by apply (raw_holds_parsed _ _ t Ha).
Qed.
End PlannerCorrect.

(** ** Gaps of a recovered set *)

Lemma get_nonempty s u : set_wf s -> Nat.ltb 0 (length (GTIDSet_get s u)) = true <-> exists k, gtid_in s u k.
Proof.
  intros Hs. unfold gtid_in, GTIDSet_get. destruct (s !! u) as [ivs|] eqn:E; cbn.
  - destruct (Hs _ _ E) as (Hne & Hn & _). destruct ivs as [|iv ivs]; [done|]. cbn in *.
    split; [intros _|done]. exists (iv_Start iv). apply covers_cons. left. lia.
  - split; [done|]. by intros (k & ?%covers_nil).
Qed.

(** [n] comes before everything [got] holds of a source the backup predates. *)
Definition leads (anchor got : GTIDSet) (u : string) (n : Z) : Prop :=
  (forall k, ~ gtid_in anchor u k) /\ 1 <= n /\ (exists m, gtid_in got u m) /\
  (forall k, gtid_in got u k -> n < k).

Lemma leading_step anchor got missing u first rest v n :
  set_wf anchor -> set_wf got -> set_wf missing -> got !! u = Some (first :: rest) ->
  let missing' :=
    if Nat.ltb 0 (length (GTIDSet_get anchor u)) || (iv_Start first <=? 1) then missing
    else GTIDSet_AddInterval missing u (mkGTIDInterval 1 (i64 (iv_Start first - 1))) in
  set_wf missing' /\ (gtid_in missing' v n <-> gtid_in missing v n \/ (v = u /\ leads anchor got u n)).
Proof.
  intros Ha Hg Hm E. destruct (Hg _ _ E) as (_ & Hn & Hu). cbn in Hn. destruct Hn as (N1 & N2 & N3 & N4).
  assert (forall k, gtid_in got u k -> iv_Start first <= k) as Hlow.
  { intros k (ivs & E' & Hk)%gtid_in_lookup. rewrite E in E'. injection E' as <-.
    apply covers_cons in Hk as [Hk|Hk]; [lia|]. apply (separated_bounds _ _ _ N4) in Hk. lia. }
  assert (gtid_in got u (iv_Start first)) as Hfirst.
  { apply gtid_in_lookup. exists (first :: rest). split; [done|]. apply covers_cons. left. lia. }
  pose proof (get_nonempty anchor u Ha) as Hne. unfold leads.
  destruct (Nat.ltb 0 (length (GTIDSet_get anchor u))); cbn.
  { split; [done|]. destruct (proj1 Hne eq_refl) as [k Hk]. naive_solver. }
  assert (forall k, ~ gtid_in anchor u k) as Hno by (intros k Hk; discriminate (proj2 Hne ltac:(eauto))).
  destruct (Z.leb_spec (iv_Start first) 1) as [H1|H1]; cbn.
  { split; [done|]. split; [by left|]. intros [?|(-> & _ & ? & _ & Hk)]; [done|]. specialize (Hk _ Hfirst). lia. }
  rewrite i64_id by (unfold MinInt64, MaxInt64 in *; lia).
  assert (iv_valid (mkGTIDInterval 1 (iv_Start first - 1))) as Hv by (unfold iv_valid; cbn; lia).
  split; [by apply GTIDSet_AddInterval_wf|]. rewrite GTIDSet_AddInterval_in by done. cbn. rewrite Hu.
  split; (intros [?|(-> & Hrest)]; [by left|right; split; [done|]]).
  - split_and!; [done|lia|eauto|]. intros k Hk. specialize (Hlow k Hk). lia.
  - destruct Hrest as (_ & ? & _ & Hk). specialize (Hk _ Hfirst). lia.
Qed.

Lemma leading_missing_spec anchor got :
  set_wf anchor -> set_wf got ->
  set_wf (leading_missing anchor got) /\
  forall u n, gtid_in (leading_missing anchor got) u n <->
    gtid_in (GTIDSet_Holes got) u n \/ leads anchor got u n.
Proof.
  intros Ha Hg. unfold leading_missing.
  assert (forall l missing, (forall u ivs, (u, ivs) ∈ l -> got !! u = Some ivs) -> set_wf missing ->
    let m := foldl (fun missing '(uuid, intervals) =>
      match intervals with
      | first :: _ =>
          if Nat.ltb 0 (length (GTIDSet_get anchor uuid)) || (iv_Start first <=? 1) then missing
          else GTIDSet_AddInterval missing uuid (mkGTIDInterval 1 (i64 (iv_Start first - 1)))
      | [] => missing
      end) missing l in
    set_wf m /\ forall u n, gtid_in m u n <->
      gtid_in missing u n \/ (leads anchor got u n /\ exists ivs, (u, ivs) ∈ l)) as Hgen.
  { induction l as [|[u ivs] l IH]; intros missing Hl Hm; cbn.
    - split; [done|]. set_solver.
    - assert (got !! u = Some ivs) as E by (apply Hl; by left).
      destruct ivs as [|first rest]; [by destruct (Hg _ _ E) as [? _]|].
      edestruct IH as [Hw Hin]; [intros; apply Hl; by right|
        apply (leading_step anchor got missing u first rest u 1 Ha Hg Hm E)|].
      split; [exact Hw|]. intros v n. rewrite Hin.
      rewrite (proj2 (leading_step anchor got missing u first rest v n Ha Hg Hm E)).
      setoid_rewrite elem_of_cons. split.
      + intros [[?|[-> ?]]|(? & ivs & ?)]; eauto 6.
      + intros [?|(? & ivs & [[= -> ->]|?])]; eauto 6. }
  destruct (Hgen (map_to_list got) (GTIDSet_Holes got)) as [Hw Hin].
  - intros u ivs. by rewrite elem_of_map_to_list.
  - by apply GTIDSet_Holes_wf.
  - split; [done|]. intros u n. rewrite Hin. apply or_iff_compat_l. split; [tauto|]. intros Hl.
    split; [done|]. destruct Hl as (_ & _ & (m & Hm) & _).
    apply gtid_in_lookup in Hm as (ivs & E & _). exists ivs. by apply elem_of_map_to_list.
Qed.

Lemma gtid_below_dec s u n :
  (exists k, gtid_in s u k /\ k < n) \/ forall k, gtid_in s u k -> n <= k.
Proof.
  destruct (decide (Exists (fun iv => iv_Start iv <= iv_End iv /\ iv_Start iv < n) (GTIDSet_get s u))) as [H|H].
  - left. apply Exists_exists in H as (iv & Hiv & ? & ?). exists (iv_Start iv). split; [|done].
    exists iv. split; [done|lia].
  - right. intros k (iv & Hiv & ?). destruct (Z.lt_ge_cases k n); [|done]. destruct H.
    apply Exists_exists. exists iv. split; [done|lia].
Qed.

(** [n] of [u] is missing between, or before, what [got] holds. *)
Definition missing_before (anchor got : GTIDSet) (u : string) (n : Z) : Prop :=
  ~ gtid_in got u n /\ 1 <= n /\ (exists m, gtid_in got u m /\ n < m) /\
  ((exists k, gtid_in got u k /\ k < n) \/ forall k, ~ gtid_in anchor u k).

Lemma leading_missing_iff anchor got u n :
  set_wf anchor -> set_wf got -> gtid_in (leading_missing anchor got) u n <-> missing_before anchor got u n.
Proof.
  intros Ha Hg. destruct (leading_missing_spec anchor got Ha Hg) as [_ ->].
  rewrite GTIDSet_Holes_in by done. unfold leads, missing_before. split.
  - intros [(Hn & (a & Haa & ?) & (b & Hb & ?))|(Hno & ? & (m & Hm) & Hall)].
    + split_and!; eauto. apply gtid_in_bounds in Haa; [lia|done].
    + split_and!; eauto. intros Hin. specialize (Hall _ Hin). lia.
  - intros (Hn & ? & (m & Hm & ?) & [(k & Hk & ?)|Hno]); [left; eauto 8|].
    destruct (gtid_below_dec got u n) as [(k & Hk & ?)|Hnone]; [left; eauto 8|right].
    split_and!; eauto. intros k Hk. specialize (Hnone k Hk).
    destruct (decide (k = n)) as [->|]; [done|lia].
Qed.

Lemma checkMySQLGaps_spec anchorGTID raw disowned anchor got dis :
  ParseGTIDSet anchorGTID = Ok anchor -> ParseGTIDSet raw = Ok got -> ParseGTIDSet disowned = Ok dis ->
  checkMySQLGaps anchorGTID raw disowned =
    (if GTIDSet_IsEmpty (GTIDSet_Difference (leading_missing anchor got) (GTIDSet_Union dis (GTIDSet_Holes anchor)))
     then Ok tt else Err ErrArchiveGap) /\
  (checkMySQLGaps anchorGTID raw disowned = Ok tt <->
   forall u n, missing_before anchor got u n -> gtid_in dis u n \/ gtid_in (GTIDSet_Holes anchor) u n).
Proof.
  intros Ha Hg Hd. unfold checkMySQLGaps. rewrite Ha, Hg, Hd. cbn.
  assert (set_wf anchor) as Hwa by eauto with gtid. assert (set_wf got) as Hwg by eauto with gtid.
  assert (set_wf dis) as Hwd by eauto with gtid. pose proof (GTIDSet_Holes_wf anchor Hwa) as Hwh.
  destruct (leading_missing_spec anchor got Hwa Hwg) as [Hwm _].
  destruct (GTIDSet_Union_spec dis (GTIDSet_Holes anchor) Hwd Hwh) as [Hwu Hu].
  pose proof (GTIDSet_IsEmpty_spec _ (GTIDSet_Difference_wf _ _ Hwm Hwu)) as Hemp.
  split; [by destruct (GTIDSet_IsEmpty _)|].
  assert (GTIDSet_IsEmpty (GTIDSet_Difference (leading_missing anchor got) (GTIDSet_Union dis (GTIDSet_Holes anchor))) = true <->
    forall u n, missing_before anchor got u n -> gtid_in dis u n \/ gtid_in (GTIDSet_Holes anchor) u n) as <-.
  { rewrite Hemp. setoid_rewrite GTIDSet_Difference_in; [|done..].
    setoid_rewrite leading_missing_iff; [|done..]. setoid_rewrite Hu. split.
    - intros H u n Hm. specialize (H u n).
      destruct (gtid_in_dec dis u n), (gtid_in_dec (GTIDSet_Holes anchor) u n); tauto.
    - intros H u n [Hm Hn]. by apply Hn, H. }
  destruct (GTIDSet_IsEmpty _); cbn; done.
Qed.

(** ** Fork records in a MySQL plan *)

(** What the archive records as disowned. *)
Definition archive_disowned (idx : ArchiveIndex) (t : string * Z) : Prop :=
  (exists seg, seg ∈ ix_Segments idx /\ fork_holds (sg_Fork seg) t) \/
  mysql_holds (disowned_set (ix_Disowned idx)) t.

Lemma index_disowned_holds idx t :
  (exists s, s ∈ index_disowned idx /\ mysql_holds s t) <-> archive_disowned idx t.
Proof.
  unfold index_disowned, archive_disowned, fork_sets. setoid_rewrite elem_of_app.
  assert (forall l : list ArchiveSegment, (exists s, s ∈ omap (fun seg => match sg_Fork seg with
      | Some f => if negb (String.eqb (fk_GTIDSet f) "") then Some (fk_GTIDSet f) else None
      | None => None end) l /\ mysql_holds s t) <->
    exists seg, seg ∈ l /\ fork_holds (sg_Fork seg) t) as Hseg.
  { intros l. setoid_rewrite list_elem_of_omap. split.
    - intros (s & (seg & Hin & E) & Ht). exists seg. split; [done|].
      destruct (sg_Fork seg) as [f|]; [|done]. destruct (negb _); [|done]. by injection E as <-.
    - intros (seg & Hin & Ht). destruct (sg_Fork seg) as [f|] eqn:E; [|done]. cbn in Ht.
      exists (fk_GTIDSet f). split; [|done]. exists seg. split; [done|]. rewrite E.
      destruct (String.eqb_spec (fk_GTIDSet f) "") as [E0|]; [|done].
      rewrite E0 in Ht. by apply mysql_holds_empty in Ht. }
  assert ((exists s, s ∈ match ix_Disowned idx with
      | Some d => if negb (String.eqb (ds_GTIDSet d) "") then [ds_GTIDSet d] else [] | None => [] end /\
      mysql_holds s t) <-> mysql_holds (disowned_set (ix_Disowned idx)) t) as Hdis.
  { unfold disowned_set. destruct (ix_Disowned idx) as [d|]; cbn.
    - destruct (String.eqb_spec (ds_GTIDSet d) "") as [->|]; cbn.
      + pose proof (mysql_holds_empty t). set_solver.
      + setoid_rewrite list_elem_of_singleton. naive_solver.
    - pose proof (mysql_holds_empty t). set_solver. }
  rewrite <- Hseg, <- Hdis. split; [intros (s & [?|?] & ?); eauto|intros [(s & ? & ?)|(s & ? & ?)]; eauto].
Qed.

Lemma difference_same a b d D :
  DifferenceGTIDStrings a b = Ok d -> ParseGTIDSet a = Ok D -> a = GTIDSet_String D ->
  d = a <-> forall t, mysql_holds a t -> ~ mysql_holds b t.
Proof.
  intros (A & B & E & HA & HB & -> & HE & HwE & Hin)%DifferenceGTIDStrings_spec HD Ha.
  assert (A = D) as -> by congruence. rewrite Ha at 1.
  assert (text_wf D) as HwD by eauto with gtid.
  setoid_rewrite (fun t => mysql_holds_parsed _ _ t HA). setoid_rewrite (fun t => mysql_holds_parsed _ _ t HB).
  split.
  - intros Es%GTIDSet_String_inj [u n] Hu; [|done..]. subst E. cbn in *.
    by apply Hin in Hu as [_ Hn].
  - intros H. f_equal. apply set_wf_canonical; [eauto with gtid..|]. intros u n. rewrite Hin.
    specialize (H (u, n)). naive_solver.
Qed.

Lemma applyMySQLForks_spec idx target plan :
  mysql_valid (rp_ExcludeGTIDs plan) -> Forall mysql_valid (index_disowned idx) -> rt_GTID target = "" ->
  match applyMySQLForks idx target plan with
  | Ok plan' =>
      (forall t, mysql_holds (rp_DisownedGTIDs plan') t <-> archive_disowned idx t) /\
      (forall t, mysql_holds (rp_ExcludeGTIDs plan') t <->
         mysql_holds (rp_ExcludeGTIDs plan) t \/ archive_disowned idx t) /\
      (forall t, mysql_holds (rp_ExcludeGTIDs plan) t -> ~ archive_disowned idx t) /\
      mysql_valid (rp_DisownedGTIDs plan') /\ rp_Segments plan' = rp_Segments plan
  | Err ErrBackupOnDeadBranch =>
      ~ (forall t, mysql_holds (rp_ExcludeGTIDs plan) t -> ~ archive_disowned idx t)
  | Err _ => False
  end.
Proof.
  intros [X HX] Hv Ht. unfold applyMySQLForks.
  destruct (mysql_union_ok _ Hv) as (all & Hall & _ & _). rewrite Hall. cbn. rewrite Ht. cbn.
  pose proof (fun t => mysql_holds_union _ _ t Hall) as Hin.
  pose proof Hall as Hall'. apply UnionGTIDStrings_spec in Hall' as (_ & U & _ & Eall & HU & HwU & _).
  assert (forall t, mysql_holds all t <-> archive_disowned idx t) as Hdis
    by (intros t; by rewrite Hin, index_disowned_holds).
  destruct (DifferenceGTIDStrings all (rp_ExcludeGTIDs plan)) as [d|] eqn:Ed; cbn.
  2: { unfold DifferenceGTIDStrings in Ed. rewrite HU, HX in Ed. done. }
  pose proof (difference_same _ _ _ _ Ed HU Eall) as Hsame. setoid_rewrite Hdis in Hsame.
  destruct (String.eqb_spec d all) as [->|Hne]; cbn.
  - destruct (mysql_union_ok [rp_ExcludeGTIDs plan; all]) as (ex & Hex & _ & _).
    { repeat constructor; by eexists. }
    rewrite Hex. cbn. pose proof (fun t => mysql_holds_union2 _ _ _ t Hex) as Hu.
    split_and!; [done| |naive_solver|by exists U|done]. intros t. by rewrite Hu, Hdis.
  - intros Hno. apply Hne, Hsame. naive_solver.
Qed.

(** ** Forks no primary recorded *)

Lemma last_end_max lo ivs :
  separated lo ivs -> ivs <> [] -> covers ivs (last_end ivs) /\ forall n, covers ivs n -> n <= last_end ivs.
Proof.
  revert lo. induction ivs as [|iv ivs IH]; intros lo; [done|]. cbn [separated].
  intros (H1 & H2 & H3 & H4) _. destruct ivs as [|iv' ivs].
  - unfold last_end. cbn. split; [apply covers_cons; left; lia|].
    intros n [?|?%covers_nil]%covers_cons; [lia|done].
  - assert (last_end (iv :: iv' :: ivs) = last_end (iv' :: ivs)) as -> by done.
    destruct (IH _ H4 ltac:(done)) as [Hc Hall]. split; [apply covers_cons; by right|].
    intros n [Hn|Hn]%covers_cons; [|auto]. apply (separated_bounds _ _ _ H4) in Hc. lia.
Qed.

Lemma get_cases s u :
  set_wf s ->
  (Nat.eqb (length (GTIDSet_get s u)) 0 = true /\ Nat.ltb 0 (length (GTIDSet_get s u)) = false /\
   forall k, ~ gtid_in s u k) \/
  (Nat.eqb (length (GTIDSet_get s u)) 0 = false /\ Nat.ltb 0 (length (GTIDSet_get s u)) = true /\
   exists k, gtid_in s u k).
Proof.
  intros Hs. pose proof (get_nonempty s u Hs) as H. destruct (GTIDSet_get s u) as [|iv l]; cbn in *.
  - left. split_and!; [done..|]. intros k Hk. discriminate (proj2 H ltac:(eauto)).
  - right. split_and!; [done..|]. by apply H.
Qed.

Lemma last_end_get s u :
  set_wf s -> (exists k, gtid_in s u k) ->
  gtid_in s u (last_end (GTIDSet_get s u)) /\ forall n, gtid_in s u n -> n <= last_end (GTIDSet_get s u).
Proof.
  intros Hs (k & Hk). eapply last_end_max; [by apply set_wf_get|].
  intros E. unfold gtid_in in Hk. rewrite E in Hk. by apply covers_nil in Hk.
Qed.

(** The later segment re-logged part of the earlier author's transactions and
    then wrote its own, which the earlier segment does not hold. *)
Definition took_over (earlier later : ArchiveSegment * GTIDSet) : Prop :=
  (exists k, gtid_in (snd later) (ToLower (sg_ServerUUID (fst earlier))) k) /\
  (exists k, gtid_in (snd later) (ToLower (sg_ServerUUID (fst later))) k) /\
  (forall k, ~ gtid_in (snd earlier) (ToLower (sg_ServerUUID (fst later))) k).

Definition dead_past (known : GTIDSet) (earlier later : ArchiveSegment * GTIDSet) (n : Z) : Prop :=
  let author := ToLower (sg_ServerUUID (fst earlier)) in
  took_over earlier later /\ gtid_in (snd earlier) author n /\
  (forall k, gtid_in (snd later) author k -> k < n) /\ ~ gtid_in known author n.

Lemma unrecorded_dead_spec known earlier later :
  set_wf known -> set_wf (snd earlier) -> set_wf (snd later) ->
  set_wf (unrecorded_dead known earlier later) /\
  forall u n, gtid_in (unrecorded_dead known earlier later) u n <->
    u = ToLower (sg_ServerUUID (fst earlier)) /\ dead_past known earlier later n.
Proof.
  intros Hk He Hl. destruct earlier as [se E], later as [sl L]. cbn [fst snd] in *.
  unfold unrecorded_dead, dead_past, took_over. cbn [fst snd].
  set (author := ToLower (sg_ServerUUID se)). set (succ := ToLower (sg_ServerUUID sl)).
  assert (forall P : Z -> Prop, (forall n, ~ P n) ->
    set_wf (∅ : GTIDSet) /\ forall u n, gtid_in ∅ u n <-> u = author /\ P n) as Hempty.
  { intros P HP. split; [apply set_wf_empty|]. intros u n. split; [by intros ?%gtid_in_empty|].
    intros [_ H]. by apply HP in H. }
  destruct (get_cases E author He) as [(-> & _ & G1)|(-> & _ & G1)]; [apply Hempty; naive_solver|].
  destruct (get_cases L author Hl) as [(-> & _ & G2)|(-> & _ & G2)]; [apply Hempty; naive_solver|].
  destruct (get_cases L succ Hl) as [(-> & _ & G3)|(-> & _ & G3)]; [apply Hempty; naive_solver|].
  destruct (get_cases E succ He) as [(_ & -> & G4)|(_ & -> & G4)]; [|apply Hempty; naive_solver].
  cbn [orb]. destruct (last_end_get E author He G1) as [E1 E2].
  destruct (last_end_get L author Hl G2) as [L1 L2].
  set (lastOwn := last_end (GTIDSet_get E author)) in *.
  set (tookOverAt := last_end (GTIDSet_get L author)) in *.
  destruct (Z.leb_spec lastOwn tookOverAt) as [Hle|Hlt].
  { apply Hempty. intros n (_ & Hn & Hall & _). specialize (E2 _ Hn). specialize (Hall _ L1). lia. }
  pose proof (gtid_in_bounds _ _ _ Hl L1) as Hb1. pose proof (gtid_in_bounds _ _ _ He E1) as Hb2.
  rewrite i64_id by (unfold MinInt64 in *; lia).
  assert (iv_valid (mkGTIDInterval (tookOverAt + 1) lastOwn)) as Hv by (unfold iv_valid; cbn; lia).
  pose proof (GTIDSet_AddInterval_wf ∅ author _ set_wf_empty Hv) as Hw1.
  pose proof (GTIDSet_Intersect_wf _ _ Hw1 He) as Hw2. split; [by apply GTIDSet_Difference_wf|].
  intros u n. rewrite GTIDSet_Difference_in, GTIDSet_Intersect_in, GTIDSet_AddInterval_in by done. cbn.
  assert (ToLower author = author) as -> by apply ToLower_idem. split.
  - intros [[[[]%gtid_in_empty|[-> ?]] Hin] Hno]. split_and!; try done.
    intros k Hk'. specialize (L2 _ Hk'). lia.
  - intros (-> & _ & Hin & Hall & Hno). split_and!; try done. right. split; [done|].
    specialize (E2 _ Hin). specialize (Hall _ L1). lia.
Qed.

Lemma check_pairs_spec known l :
  set_wf known -> Forall (fun x => set_wf (snd x)) l ->
  (check_pairs known l = Ok tt \/ check_pairs known l = Err ErrForkedTimeline) /\
  (check_pairs known l = Ok tt <->
   forall i j e x n, (i < j)%nat -> l !! i = Some e -> l !! j = Some x -> ~ dead_past known e x n).
Proof.
  intros Hk. induction l as [|e l IH]; cbn.
  { intros _. split; [by left|]. split; [|done]. intros _ i j e x n _ [=]. }
  intros [He Hl]%Forall_cons. destruct (IH Hl) as [IH1 IH2]. rewrite Forall_forall in Hl.
  destruct (existsb _ l) eqn:Ex.
  - split; [by right|]. split; [done|]. intros Hall. exfalso.
    apply existsb_exists in Ex as (x & Hx%list_elem_of_In & Hne). boolp.
    destruct (unrecorded_dead_spec known e x Hk He (Hl _ Hx)) as [Hw Hin].
    apply not_true_iff_false in Hne. rewrite GTIDSet_IsEmpty_spec in Hne by done. apply Hne.
    intros u n [-> Hd]%Hin. apply list_elem_of_lookup in Hx as [j Hj].
    by apply (Hall 0%nat (S j) e x n ltac:(lia)) in Hd.
  - split; [done|]. rewrite IH2. split; [|intros Hall i j e' x n Hij; apply (Hall (S i) (S j)); lia].
    intros Hall i j e' x n Hij Hi Hj Hd. destruct j as [|j]; [lia|]. cbn in Hj. destruct i as [|i]; cbn in Hi.
    + injection Hi as <-. apply list_elem_of_lookup_2 in Hj.
      destruct (unrecorded_dead_spec known e x Hk He (Hl _ Hj)) as [Hw Hin].
      apply list_elem_of_In in Hj. apply existsb_false with (x := x) in Ex; [|done].
      apply negb_false_iff in Ex. rewrite GTIDSet_IsEmpty_spec in Ex by done.
      apply (Ex (ToLower (sg_ServerUUID (fst e))) n), Hin. by split.
    + eapply (Hall i j); eauto. lia.
Qed.

(** ** A planned MySQL recovery *)

Lemma raw_mysql raw t : raw_holds (T := GTIDSet) raw t <-> mysql_holds raw t.
Proof.
  unfold raw_holds, mysql_holds. cbn. setoid_rewrite mysqlGTIDSet_Parse_eq. done.
Qed.

Lemma union_ok_valid sets u : UnionGTIDStrings sets = Ok u -> Forall mysql_valid sets.
Proof.
  intros (parsed & U & Hp & _)%UnionGTIDStrings_spec. apply map_result_Forall2 in Hp.
  induction Hp as [|raw A sets parsed HA Hp IH]; constructor; [by exists A|done].
Qed.

(** What [mysqlbinlog] applies of the planned segments under the bounds of the plan,
    on top of the base backup; an empty bound is not passed ([ReplayArgs]).
    [before d t]: reading up to [--stop-datetime=d] reaches [t]. *)
Definition recovered (before : string -> string * Z -> Prop) (plan : ReplayPlan) (anchorGTID : string) (t : string * Z) : Prop :=
  mysql_holds anchorGTID t \/
  ((exists seg, seg ∈ rp_Segments plan /\ mysql_holds (rs_GTIDSet seg) t) /\
   ~ mysql_holds (rp_ExcludeGTIDs plan) t /\
   (rp_IncludeGTIDs plan = "" \/ mysql_holds (rp_IncludeGTIDs plan) t) /\
   (rp_StopDatetime plan = "" \/ before (rp_StopDatetime plan) t)).

(** In a segment of the archive. *)
Definition archived (idx : ArchiveIndex) (t : string * Z) : Prop :=
  exists seg, seg ∈ ix_Segments idx /\ mysql_holds (sg_GTIDSet seg) t.

Lemma mysql_holds_dec raw t : mysql_holds raw t \/ ~ mysql_holds raw t.
Proof.
  unfold mysql_holds. destruct (ParseGTIDSet raw) as [s|e]; [|right; by intros (s & [=] & _)].
  destruct (gtid_in_dec s (fst t) (snd t)); [left; by exists s|right; by intros (s' & [= <-] & ?)].
Qed.

Lemma format_datetime_nonempty t : format_datetime t <> "".
Proof.
  unfold format_datetime. destruct (civil _) as [[y m] d]. by destruct (pad 4 y).
Qed.

(** The upper bounds of a plan are those of its target. *)
Lemma planReplayWithOps_bounds idx anchorGTID target plan :
  planReplayWithOps (T := GTIDSet) (Some idx) anchorGTID target = Ok plan ->
  mysql_valid anchorGTID /\ mysql_valid (rp_ExcludeGTIDs plan) /\
  (rt_GTID target = "" -> rp_IncludeGTIDs plan = "" /\ rp_StopDatetime plan = from_option format_datetime "" (rt_Time target)) /\
  (rt_GTID target <> "" -> rp_StopDatetime plan = "").
Proof.
  unfold planReplayWithOps. intros H0. apply rbind_Ok in H0 as (_ & _ & H0).
  apply rbind_Ok in H0 as (anchor & Ha%wrapf_Ok & H0). cbn in Ha. rewrite mysqlGTIDSet_Parse_eq in Ha.
  apply rbind_Ok in H0 as ([planned frontier] & _ & H0). apply rbind_Ok in H0 as (_ & _ & H0).
  assert (mysql_valid (GTIDSet_String anchor)) as Hv.
  { exists anchor. apply ParseGTIDSet_String. by eapply ParseGTIDSet_wf. }
  split; [by exists anchor|]. unfold applyTargetWithOps in H0.
  destruct (String.eqb_spec (rt_GTID target) "") as [Et|Et]; cbn in H0.
  - destruct (rt_Time target); injection H0 as <-; by split_and!.
  - inv_result. repeat (case_match; [done|]). injection H0 as <-. by split_and!.
Qed.

Lemma planReplay_covered idx anchorGTID target plan :
  planReplayWithOps (T := GTIDSet) (Some idx) anchorGTID target = Ok plan ->
  (exists added, added `sublist_of` ix_Segments idx /\ rp_Segments plan = replaySegment <$> added) /\
  (forall t, mysql_holds anchorGTID t \/ archived idx t <->
     mysql_holds anchorGTID t \/ exists seg, seg ∈ rp_Segments plan /\ mysql_holds (rs_GTIDSet seg) t) /\
  (forall t, mysql_holds (ix_CoveredGTIDSet idx) t -> mysql_holds anchorGTID t \/ archived idx t) /\
  (forall t, mysql_holds (rp_ExcludeGTIDs plan) t <-> mysql_holds anchorGTID t) /\
  (rt_GTID target <> "" ->
     (forall t, mysql_holds (rp_IncludeGTIDs plan) t <-> mysql_holds (rt_GTID target) t) /\
     (forall t, mysql_holds anchorGTID t -> mysql_holds (rt_GTID target) t) /\
     (forall t, mysql_holds (rt_GTID target) t -> mysql_holds anchorGTID t \/ archived idx t)).
Proof.
  intros H. assert (raws_ok (T := GTIDSet) idx anchorGTID target) as Hraw by (split_and!; [done..|]; by apply Forall_forall).
  destruct (planReplayWithOps_sound (T := GTIDSet) idx anchorGTID target plan Hraw H) as ((added & Hsub & Hsegs) & Hall & Hc & Hex & Hg).
  unfold plan_covers in *. setoid_rewrite raw_mysql in Hall. setoid_rewrite raw_mysql in Hc.
  setoid_rewrite raw_mysql in Hex. setoid_rewrite raw_mysql in Hg.
  assert (forall t, mysql_holds anchorGTID t \/ archived idx t <->
    mysql_holds anchorGTID t \/ exists seg, seg ∈ rp_Segments plan /\ mysql_holds (rs_GTIDSet seg) t) as Hiff.
  { intros t. split; [intros [Ha|(seg & Hin & Ht)]; [by left|by eapply Hall]|].
    rewrite Hsegs. intros [Ha|(seg & (s & -> & Hin)%list_elem_of_fmap & Ht)]; [by left|right]. exists s. split; [by eapply elem_of_sublist|done]. }
  split_and!; [by exists added|done|intros t Ht; by apply Hiff, Hc|done|].
  intros Hne. destruct (Hg Hne) as (H1 & H2 & H3). split_and!; [done..|]. intros t Ht. by apply Hiff, H3.
Qed.

(** The forks of a plan towards a GTID only name the disowned transactions. *)
Lemma applyMySQLForks_gtid idx target plan plan' :
  rt_GTID target <> "" -> applyMySQLForks idx target plan = Ok plan' ->
  rp_Segments plan' = rp_Segments plan /\ rp_ExcludeGTIDs plan' = rp_ExcludeGTIDs plan /\
  rp_IncludeGTIDs plan' = rp_IncludeGTIDs plan /\ rp_StopDatetime plan' = rp_StopDatetime plan /\
  forall t, mysql_holds (rp_DisownedGTIDs plan') t <-> archive_disowned idx t.
Proof.
  unfold applyMySQLForks. intros Hne H. apply rbind_Ok in H as (all & Hu%wrapf_Ok & H).
  destruct (String.eqb_spec (rt_GTID target) "") as [|_]; [done|]. cbn [negb] in H. apply rbind_Ok in H as (mixed & _ & H). injection H as <-. split_and!; try done.
  intros t. by rewrite <- index_disowned_holds, <- (mysql_holds_union _ _ t Hu).
Qed.

Lemma applyMySQLForks_bounds idx target plan plan' :
  applyMySQLForks idx target plan = Ok plan' ->
  rp_IncludeGTIDs plan' = rp_IncludeGTIDs plan /\ rp_StopDatetime plan' = rp_StopDatetime plan.
Proof.
  unfold applyMySQLForks. intros H. apply rbind_Ok in H as (all & _ & H).
  destruct (negb (String.eqb (rt_GTID target) "")); apply rbind_Ok in H as (x & _ & H); [by injection H as <-|].
  destruct (negb (String.eqb x all)); [done|]. apply rbind_Ok in H as (ex & _ & H). by injection H as <-.
Qed.

Lemma applyMySQLForks_segments idx target plan plan' :
  applyMySQLForks idx target plan = Ok plan' -> rp_Segments plan' = rp_Segments plan.
Proof.
  unfold applyMySQLForks. intros H. apply rbind_Ok in H as (all & _ & H).
  destruct (negb (String.eqb (rt_GTID target) "")); apply rbind_Ok in H as (x & _ & H); [by injection H as <-|].
  destruct (negb (String.eqb x all)); [done|]. apply rbind_Ok in H as (ex & _ & H). by injection H as <-.
Qed.

(** A plan that is not aimed at a GTID. *)
Lemma PlanReplay_recovered before idx anchorGTID target plan :
  PlanReplay (Some idx) anchorGTID target = Ok plan -> rt_GTID target = "" ->
  (forall t, recovered before plan anchorGTID t <->
     mysql_holds anchorGTID t \/
     (archived idx t /\ ~ archive_disowned idx t /\ forall at_, rt_Time target = Some at_ -> before (format_datetime at_) t)) /\
  (forall t, mysql_holds anchorGTID t -> ~ archive_disowned idx t) /\
  (forall t, mysql_holds (rp_DisownedGTIDs plan) t <-> archive_disowned idx t) /\
  mysql_valid (rp_DisownedGTIDs plan) /\ mysql_valid anchorGTID.
Proof.
  unfold PlanReplay. intros H Ht. apply rbind_Ok in H as (plan0 & H0 & H).
  apply rbind_Ok in H as (plan1 & H1 & H). apply rbind_Ok in H as (_ & _ & H). apply rbind_Ok in H as (_ & _ & H).
  injection H as ->.
  destruct (planReplay_covered _ _ _ _ H0) as (_ & Hall & _ & Hex & _).
  destruct (planReplayWithOps_bounds _ _ _ _ H0) as (Hva & Hvx & Hb & _). destruct (Hb Ht) as [Hinc Hstop].
  destruct (applyMySQLForks_bounds _ _ _ _ H1) as [Ei Es].
  assert (Forall mysql_valid (index_disowned idx)) as Hvd.
  { unfold applyMySQLForks in H1. apply rbind_Ok in H1 as (all & Hu%wrapf_Ok & _). by eapply union_ok_valid. }
  pose proof (applyMySQLForks_spec idx target plan0 Hvx Hvd Ht) as Hf. rewrite H1 in Hf.
  destruct Hf as (Hd & Hx & Hdisj & Hvd' & Hs). setoid_rewrite Hex in Hx. setoid_rewrite Hex in Hdisj. split_and!; [|done..].
  intros t. unfold recovered. rewrite Hs, Hx, Ei, Hinc, Es, Hstop. specialize (Hall t).
  assert ((from_option format_datetime "" (rt_Time target) = "" \/ before (from_option format_datetime "" (rt_Time target)) t) <->
    forall at_, rt_Time target = Some at_ -> before (format_datetime at_) t) as ->.
  { destruct (rt_Time target) as [at_|]; cbn; [|naive_solver]. pose proof (format_datetime_nonempty at_). naive_solver. }
  destruct (mysql_holds_dec anchorGTID t); [tauto|]. naive_solver.
Qed.

(** A plan aimed at a GTID that names some transaction. *)
Lemma PlanReplay_to_gtid before idx anchorGTID target plan t0 :
  PlanReplay (Some idx) anchorGTID target = Ok plan -> mysql_holds (rt_GTID target) t0 ->
  (forall t, recovered before plan anchorGTID t <-> mysql_holds (rt_GTID target) t) /\
  forall t, mysql_holds (rp_DisownedGTIDs plan) t <-> archive_disowned idx t.
Proof.
  unfold PlanReplay. intros H Ht. apply rbind_Ok in H as (plan0 & H0 & H).
  apply rbind_Ok in H as (plan1 & H1 & H). apply rbind_Ok in H as (_ & _ & H). apply rbind_Ok in H as (_ & _ & H).
  injection H as ->.
  assert (rt_GTID target <> "") as Hne by (intros E; rewrite E in Ht; by apply (gm_holds_empty (GTIDModelLaws := mysqlGTID_laws) t0)).
  destruct (planReplay_covered _ _ _ _ H0) as (_ & Hall & _ & Hex & Hg). destruct (Hg Hne) as (Hi & Ha & Hc).
  destruct (planReplayWithOps_bounds _ _ _ _ H0) as (_ & _ & _ & Hb).
  destruct (applyMySQLForks_gtid _ _ _ _ Hne H1) as (Es & Ee & Ei & Ed & Hd). split; [|done].
  assert (rp_IncludeGTIDs plan0 <> "") as Hin.
  { intros E. apply (gm_holds_empty (GTIDModelLaws := mysqlGTID_laws) t0). cbn. rewrite <- E. by apply Hi. }
  intros t. unfold recovered. rewrite Es, Ee, Ei, Ed, (Hb Hne), Hex, Hi. specialize (Hall t). specialize (Ha t). specialize (Hc t).
  destruct (mysql_holds_dec anchorGTID t); [tauto|]. naive_solver.
Qed.

(** ** Selecting MariaDB segments *)

Section Scan.
Context (elig : seg_interval -> bool) (better : seg_interval -> seg_interval -> bool) (key : seg_interval -> Z).
Context (Hkey : forall v b, better v b = (key b <? key v)).

Lemma scan_best_spec l i0 best :
  match scan_best elig better l i0 best with
  | None => best = None /\ forall j w, l !! j = Some (false, w) -> elig w = false
  | Some (i, v) =>
      (best = Some (i, v) \/ exists j, i = (i0 + j)%nat /\ l !! j = Some (false, v) /\ elig v = true) /\
      (forall j w, l !! j = Some (false, w) -> elig w = true -> key w <= key v) /\
      (forall k b, best = Some (k, b) -> key b <= key v)
  end.
Proof using Hkey.
  revert i0 best. induction l as [|[u v] l IH]; intros i0 best; cbn.
  - destruct best as [[i v]|]; [|done]. split_and!; [by left|done|]. intros k b [= -> ->]. lia.
  - match goal with |- context [scan_best _ _ l (S i0) ?b] => set (best' := b) end.
    specialize (IH (S i0) best').
    assert (best' = best /\ (u = true \/ elig v = false \/ exists k b, best = Some (k, b) /\ key v <= key b) \/
            best' = Some (i0, v) /\ u = false /\ elig v = true /\ forall k b, best = Some (k, b) -> key b <= key v)
      as Hb.
    { subst best'. destruct u; cbn; [by left; auto|]. destruct (elig v); cbn; [|by left; auto].
      destruct best as [[k b]|]; [|by right]. rewrite Hkey. destruct (Z.ltb_spec (key b) (key v)).
      - right. split_and!; [done..|]. intros ? ? [= -> ->]. lia.
      - left. split; [done|]. right; right. eauto. }
    clearbody best'. destruct (scan_best elig better l (S i0) best') as [[i w]|].
    + destruct IH as (I1 & I2 & I3). destruct Hb as [[-> Hu]|(-> & -> & He & Hk)].
      * split_and!; [destruct I1 as [?|(j & -> & ?)]; [by left|right; exists (S j); split; [lia|done]]| |done].
        intros [|j] w'; cbn; [|eauto]. intros [= -> ->] He. destruct Hu as [[=]|[?|(k & b & Hb & ?)]]; [congruence|].
        specialize (I3 _ _ Hb). lia.
      * pose proof (I3 _ _ eq_refl) as Hv. split_and!.
        -- destruct I1 as [[= <- <-]|(j & -> & ?)]; [right; exists 0%nat; split; [lia|done]|].
           right. exists (S j). split; [lia|done].
        -- intros [|j] w'; cbn; [|eauto]. intros [= ->] _. done.
        -- intros k b Hb. specialize (Hk _ _ Hb). lia.
    + destruct IH as [-> Hall]. destruct Hb as [[<- Hu]|[[=] _]]. split; [done|].
      intros [|j] w; cbn; [|eauto]. intros [= -> ->]. destruct Hu as [[=]|[?|(k & b & [=] & _)]]; done.
Qed.
End Scan.

Lemma pick_contiguous_spec l current :
  0 <= current < MaxUint64 ->
  match pick_contiguous l current with
  | None => forall j w, l !! j = Some (false, w) -> si_end w <= current \/ current + 1 < si_start w
  | Some (i, v) => l !! i = Some (false, v) /\ current < si_end v /\ si_start v <= current + 1
  end.
Proof.
  intros Hc. unfold pick_contiguous. rewrite u64_id by lia.
  match goal with |- context [scan_best ?e ?b _ _ _] =>
    pose proof (scan_best_spec e b si_end ltac:(done) l 0 None) as H end.
  destruct (scan_best _ _ _ _ _) as [[i v]|].
  - destruct H as ([[=]|(j & -> & Hj & He)] & _). boolp. done.
  - destruct H as [_ H]. intros j w Hj. specialize (H j w Hj). apply andb_false_iff in H. destruct H; boolp; lia.
Qed.

Lemma pick_leading_spec l current :
  match pick_leading l current with
  | None => forall j w, l !! j = Some (false, w) -> si_end w <= current
  | Some (i, v) => l !! i = Some (false, v) /\ current < si_end v /\
      forall j w, l !! j = Some (false, w) -> current < si_end w -> si_start v <= si_start w
  end.
Proof.
  unfold pick_leading.
  match goal with |- context [scan_best ?e ?b _ _ _] =>
    pose proof (scan_best_spec e b (fun v => - si_start v) ltac:(intros; cbn; lia) l 0 None) as H end.
  destruct (scan_best _ _ _ _ _) as [[i v]|].
  - destruct H as ([[=]|(j & -> & Hj & He)] & H & _). boolp. split_and!; [done..|].
    intros k w Hk Hw. specialize (H k w Hk). cbn in H. lia.
  - destruct H as [_ H]. intros j w Hj. specialize (H j w Hj). boolp. lia.
Qed.

Definition spans (v : seg_interval) (n : Z) : Prop := si_start v <= n <= si_end v.
Definition some_spans (l : list seg_interval) (n : Z) : Prop := exists v, v ∈ l /\ spans v n.

(** [ch], chosen from [ivs], covers what [ivs] holds past [anchor] up to
    [current], without a hole after its first sequence. *)
Definition chosen (ivs ch : list seg_interval) (anchor current : Z) : Prop :=
  (forall v, v ∈ ch -> v ∈ ivs) /\
  match ch with
  | [] => current = anchor
  | f :: _ =>
      (forall n, si_start f <= n -> anchor < n <= current -> some_spans ch n) /\
      (forall n, anchor < n < si_start f -> ~ some_spans ivs n) /\
      anchor < si_end f <= current
  end.

Lemma some_spans_app a b n : some_spans (a ++ b) n <-> some_spans a n \/ some_spans b n.
Proof. unfold some_spans. setoid_rewrite elem_of_app. naive_solver. Qed.

Lemma chosen_next ivs ch anchor current v :
  chosen ivs ch anchor current -> ch <> [] -> v ∈ ivs -> current < si_end v -> si_start v <= current + 1 ->
  chosen ivs (ch ++ [v]) anchor (si_end v).
Proof.
  intros [Hin Hch] Hne Hv He Hs. destruct ch as [|f ch]; [done|]. cbn [app] in *.
  destruct Hch as (H1 & H2 & H3). split; [set_solver|]. split_and!; [|done|lia..].
  intros n Hf Hn. change (f :: ch ++ [v]) with ((f :: ch) ++ [v]). apply some_spans_app.
  destruct (Z.le_gt_cases n current); [left; apply H1; lia|]. right. exists v. split; [set_solver|]. split; lia.
Qed.

Lemma chosen_first ivs anchor v :
  v ∈ ivs -> anchor < si_end v ->
  (si_start v <= anchor + 1 \/ forall w, w ∈ ivs -> anchor < si_end w -> si_start v <= si_start w) ->
  chosen ivs [v] anchor (si_end v).
Proof.
  intros Hv He Hlead. split; [set_solver|]. split_and!; [| |lia..].
  - intros n Hf Hn. exists v. split; [set_solver|]. split; lia.
  - intros n Hn (w & Hw & Hs1 & Hs2). destruct Hlead as [?|Hall]; [lia|].
    specialize (Hall w Hw). lia.
Qed.

Fixpoint unused (l : slots) : nat :=
  match l with
  | [] => 0
  | (used, _) :: l' => if used then unused l' else S (unused l')
  end.

Lemma unused_insert (l : slots) i v : l !! i = Some (false, v) -> S (unused (<[i := (true, v)]> l)) = unused l.
Proof.
  revert i. induction l as [|[u w] l IH]; intros [|i]; cbn; try done; [by intros [= -> ->]|].
  intros Hi. specialize (IH _ Hi). destruct u; [done|]. by f_equal.
Qed.

Lemma select_loop_spec ivs anchor target fuel l current ch :
  0 <= anchor -> target <= MaxUint64 -> (exists v, v ∈ ivs /\ target <= si_end v) ->
  snd <$> l = ivs -> (unused l < fuel)%nat ->
  (forall j v, l !! j = Some (true, v) -> si_end v <= current) -> anchor <= current ->
  chosen ivs ch anchor current ->
  match select_loop fuel l current target ((fun v => replaySegment (si_seg v)) <$> ch) with
  | Ok sel => exists ch' c, sel = (fun v => replaySegment (si_seg v)) <$> ch' /\ target <= c /\
      chosen ivs ch' anchor c
  | Err ErrForkedTimeline => exists g, anchor < g <= target /\ ~ some_spans ivs g /\
      exists v, v ∈ ivs /\ anchor < si_end v < g
  | Err _ => False
  end.
Proof.
  intros Ha Ht [top [Htop Hreach]] El. revert l current ch El.
  induction fuel as [|fuel IH]; intros l current ch El Hfuel Hused Hac Hch; [lia|]. cbn [select_loop].
  destruct (Z.ltb_spec current target) as [Hlt|Hge]; [|by exists ch, current].
  assert (forall j u v, l !! j = Some (u, v) -> v ∈ ivs) as Hslot.
  { intros j u v Hj. rewrite <- El. apply list_elem_of_fmap. exists (u, v). split; [done|]. by eapply list_elem_of_lookup_2. }
  assert (forall v, v ∈ ivs -> exists j u, l !! j = Some (u, v)) as Hivs.
  { intros v Hv. rewrite <- El in Hv. apply list_elem_of_fmap in Hv as ([u w] & -> & [j Hj]%list_elem_of_lookup). eauto. }
  assert (forall i v ch', l !! i = Some (false, v) -> current < si_end v ->
    chosen ivs ch' anchor (si_end v) -> ch' = ch ++ [v] ->
    match select_loop fuel (<[i := (true, v)]> l) (si_end v) target
      (((fun v => replaySegment (si_seg v)) <$> ch) ++ [replaySegment (si_seg v)]) with
    | Ok sel => exists ch' c, sel = (fun v => replaySegment (si_seg v)) <$> ch' /\ target <= c /\
        chosen ivs ch' anchor c
    | Err ErrForkedTimeline => exists g, anchor < g <= target /\ ~ some_spans ivs g /\
        exists v, v ∈ ivs /\ anchor < si_end v < g
    | Err _ => False
    end) as Hnext.
  { intros i v ch' Hi Hend Hch' ->.
    assert (forall c, (fun v => replaySegment (si_seg v)) <$> (c ++ [v]) =
      ((fun v => replaySegment (si_seg v)) <$> c) ++ [replaySegment (si_seg v)]) as Hmap by (intros; by rewrite fmap_app).
    rewrite <- Hmap. apply IH; [|pose proof (unused_insert l i v Hi); lia| |lia|done].
    - rewrite list_fmap_insert, El. apply list_insert_id. rewrite <- El, list_lookup_fmap, Hi. done.
    - intros j w. rewrite list_lookup_insert. case_decide; [|intros Hj; apply Hused in Hj; lia].
      intros [= ->]. lia. }
  pose proof (pick_contiguous_spec l current ltac:(lia)) as Hp.
  destruct (pick_contiguous l current) as [[i v]|].
  - destruct Hp as (Hi & He & Hs). eapply Hnext; [done..| |done].
    destruct ch as [|f ch].
    + destruct Hch as [_ ->]. apply chosen_first; eauto.
    + eapply chosen_next; eauto.
  - rewrite length_fmap. destruct ch as [|f ch]; cbn [length Nat.eqb].
    + destruct Hch as [_ ->]. pose proof (pick_leading_spec l anchor) as Hl.
      destruct (pick_leading l anchor) as [[i v]|].
      * destruct Hl as (Hi & He & Hmin). eapply Hnext; [done..| |done]. apply chosen_first; eauto.
        right. intros w Hw Hew. destruct (Hivs w Hw) as (j & u & Hj). destruct u; [|eauto].
        apply Hused in Hj. lia.
      * exfalso. destruct (Hivs top Htop) as (j & u & Hj). destruct u; [apply Hused in Hj|apply Hl in Hj]; lia.
    + exists (current + 1). split; [lia|]. split.
      * intros (w & Hw & Hs1 & Hs2). destruct (Hivs w Hw) as (j & u & Hj).
        destruct u; [apply Hused in Hj; lia|]. specialize (Hp j w Hj). lia.
      * destruct Hch as (Hin & _ & _ & Hf). exists f. split; [apply Hin; by left|lia].
Qed.

Lemma max_end_ge ivs m : foldl (fun m v => Z.max m (si_end v)) m ivs <> m -> exists v, v ∈ ivs /\ foldl (fun m v => Z.max m (si_end v)) m ivs = si_end v.
Proof.
  revert m. induction ivs as [|v ivs IH]; intros m; cbn; [done|]. intros H.
  destruct (decide (foldl (fun m v => Z.max m (si_end v)) (Z.max m (si_end v)) ivs = Z.max m (si_end v))) as [E|E].
  - rewrite E in H |- *. exists v. split; [by left|lia].
  - destruct (IH _ E) as (w & Hw & Ew). exists w. split; [by right|done].
Qed.

Lemma max_end_le ivs m v : v ∈ ivs -> si_end v <= foldl (fun m v => Z.max m (si_end v)) m ivs.
Proof.
  assert (forall ivs m, m <= foldl (fun m v => Z.max m (si_end v)) m ivs) as Hm.
  { clear. induction ivs as [|v ivs IH]; intros m; cbn; [lia|]. specialize (IH (Z.max m (si_end v))). lia. }
  revert m. induction ivs as [|w ivs IH]; intros m Hv; cbn; [by apply not_elem_of_nil in Hv|].
  apply elem_of_cons in Hv as [->|Hv]; [|by apply IH]. specialize (Hm ivs (Z.max m (si_end w))). lia.
Qed.

Lemma unused_fresh ivs : unused ((fun v => (false, v)) <$> ivs) = length ivs.
Proof. unfold unused. induction ivs as [|v ivs IH]; cbn; [done|]. by rewrite IH. Qed.

(** ** Properties *)

(** C6: What a MySQL replay plan recovers, by the bounds it passes to
    [mysqlbinlog].  Aimed at a time or at the latest state it recovers exactly the
    base backup and, of the archived segments, every transaction that the archive
    has not recorded as disowned and that reading up to the target time reaches (all
    of them when there is no target time); the base backup holds nothing disowned.
    Aimed at a GTID set that names some transaction it recovers exactly that set.
    The plan takes segments of the archive in order, and names exactly the archive's
    disowned transactions. *)
Theorem replay_recovers_archive_less_disowned before idx anchorGTID target plan :
  PlanReplay (Some idx) anchorGTID target = Ok plan ->
  (rt_GTID target = "" ->
     (forall t, recovered before plan anchorGTID t <->
        mysql_holds anchorGTID t \/
        (archived idx t /\ ~ archive_disowned idx t /\
         forall at_, rt_Time target = Some at_ -> before (format_datetime at_) t)) /\
     (forall t, mysql_holds anchorGTID t -> ~ archive_disowned idx t) /\
     (forall t, mysql_holds (rp_DisownedGTIDs plan) t <-> archive_disowned idx t)) /\
  (forall t0, mysql_holds (rt_GTID target) t0 ->
     (forall t, recovered before plan anchorGTID t <-> mysql_holds (rt_GTID target) t) /\
     (forall t, mysql_holds (rp_DisownedGTIDs plan) t <-> archive_disowned idx t)) /\
  exists added, added `sublist_of` ix_Segments idx /\ rp_Segments plan = replaySegment <$> added.
Proof.
  intros H. split_and!.
  - intros Ht. destruct (PlanReplay_recovered before idx anchorGTID target plan H Ht) as (H1 & H2 & H3 & _). done.
  - intros t0 Ht. by eapply PlanReplay_to_gtid.
  - unfold PlanReplay in H. apply rbind_Ok in H as (plan0 & H0 & H). apply rbind_Ok in H as (plan1 & H1 & H).
    apply rbind_Ok in H as (_ & _ & H). apply rbind_Ok in H as (_ & _ & H). injection H as ->.
    destruct (planReplay_covered _ _ _ _ H0) as ((added & Hsub & Es) & _). exists added. split; [done|].
    by rewrite (applyMySQLForks_segments _ _ _ _ H1).
Qed.

(** A base backup at [:1-40] and two segments; the first one forked after [:100]. *)
Module Restore.

Definition old : ArchiveSegment :=
  mkArchiveSegment "a" "c-1" ["binlog.000001"] "a:1-110" "" (Some (fork_delta "a:101-110" ∅)) 0 0.
Definition new : ArchiveSegment :=
  mkArchiveSegment "b" "c-2" ["binlog.000002"] "a:1-100,b:1-30" "" None 0 0.
Definition index : ArchiveIndex :=
  mkArchiveIndex "c" "uid" [old; new] "a:1-110,b:1-30" 0 None 1 None 0 [].
Definition latest : RecoveryTarget := mkRecoveryTarget None "" false.
Definition to_gtid (g : string) : RecoveryTarget := mkRecoveryTarget None g false.

End Restore.

Lemma replay_recovers_archive_less_disowned_witness :
  exists plan, PlanReplay (Some Restore.index) "a:1-40" Restore.latest = Ok plan /\
    rp_ExcludeGTIDs plan = "a:1-40:101-110" /\
    (forall t, mysql_holds (rp_DisownedGTIDs plan) t <-> archive_disowned Restore.index t).
Proof.
  destruct (PlanReplay (Some Restore.index) "a:1-40" Restore.latest) as [plan|] eqn:E; [|vm_compute in E; discriminate].
  exists plan. split; [reflexivity|]. split; [vm_compute in E; injection E as <-; reflexivity|].
  destruct (replay_recovers_archive_less_disowned (fun _ _ => True) Restore.index "a:1-40" Restore.latest plan E) as [H _].
  apply H. reflexivity.
Defined.

(** Before the engine's own steps, the generic planner takes a sublist of the archived segments,
    in order, that together with the base backup covers every segment and the
    covered set; it excludes exactly what the backup holds, and for a GTID target
    it includes exactly the target, which holds the backup and is covered. *)
Theorem replay_plan_is_sound {T} `{L : gtidOpsLaws T} idx anchorGTID target plan :
  raws_ok (T := T) idx anchorGTID target -> planReplayWithOps (T := T) (Some idx) anchorGTID target = Ok plan ->
  (exists added, added `sublist_of` ix_Segments idx /\ rp_Segments plan = replaySegment <$> added) /\
  (forall seg t, seg ∈ ix_Segments idx -> raw_holds (T := T) (sg_GTIDSet seg) t ->
     plan_covers (T := T) anchorGTID (rp_Segments plan) t) /\
  (forall t, raw_holds (T := T) (ix_CoveredGTIDSet idx) t -> plan_covers anchorGTID (rp_Segments plan) t) /\
  (forall t, raw_holds (T := T) (rp_ExcludeGTIDs plan) t <-> raw_holds anchorGTID t) /\
  (rt_GTID target <> "" ->
     (forall t, raw_holds (T := T) (rp_IncludeGTIDs plan) t <-> raw_holds (rt_GTID target) t) /\
     (forall t, raw_holds (T := T) anchorGTID t -> raw_holds (rt_GTID target) t) /\
     (forall t, raw_holds (T := T) (rt_GTID target) t -> plan_covers anchorGTID (rp_Segments plan) t)).
Proof. apply planReplayWithOps_sound. Qed.

Lemma restore_raws target : go_raw (T := GTIDSet) (rt_GTID target) -> raws_ok (T := GTIDSet) Restore.index "a:1-40" target.
Proof. intros H. split_and!; [done|done|done|]. repeat constructor. Qed.

Lemma replay_plan_is_sound_witness :
  exists plan, planReplayWithOps (T := GTIDSet) (Some Restore.index) "a:1-40" (Restore.to_gtid "a:1-90") = Ok plan /\
    rp_IncludeGTIDs plan = "a:1-90" /\ length (rp_Segments plan) = 2%nat /\
    exists added, added `sublist_of` ix_Segments Restore.index /\ rp_Segments plan = replaySegment <$> added.
Proof.
  eexists. split; [vm_compute; reflexivity|]. split; [vm_compute; reflexivity|]. split; [vm_compute; reflexivity|].
  eapply (replay_plan_is_sound (T := GTIDSet) Restore.index "a:1-40" (Restore.to_gtid "a:1-90"));
    [apply restore_raws; exact I|vm_compute; reflexivity].
Defined.

(** On readable input the planner always answers, and every refusal is
    justified: the covered set is not archived (forked timeline), the target does
    not hold the backup (before the backup), or the target is not archived
    (beyond the archive). *)
Theorem replay_plan_outcomes {T} `{L : gtidOpsLaws T} idx anchorGTID target :
  raws_ok (T := T) idx anchorGTID target -> checkTimeTarget idx target = Ok tt ->
  is_ok (go_Parse (T := T) anchorGTID) = true -> is_ok (go_Parse (T := T) (rt_GTID target)) = true ->
  is_ok (go_Parse (T := T) (ix_CoveredGTIDSet idx)) = true ->
  Forall (fun seg => is_ok (go_Parse (T := T) (sg_GTIDSet seg)) = true) (ix_Segments idx) ->
  let archived t := raw_holds (T := T) anchorGTID t \/
    exists seg, seg ∈ ix_Segments idx /\ raw_holds (T := T) (sg_GTIDSet seg) t in
  match planReplayWithOps (T := T) (Some idx) anchorGTID target with
  | Ok _ => True
  | Err ErrForkedTimeline => ~ (forall t, raw_holds (ix_CoveredGTIDSet idx) t -> archived t)
  | Err ErrTargetBeforeBackup => rt_GTID target <> "" /\
      ~ (forall t, raw_holds (T := T) anchorGTID t -> raw_holds (rt_GTID target) t)
  | Err ErrTargetBeyondArchive => rt_GTID target <> "" /\
      ~ (forall t, raw_holds (rt_GTID target) t -> archived t)
  | Err _ => False
  end.
Proof. apply planReplayWithOps_total. Qed.

Lemma replay_plan_outcomes_witness :
  planReplayWithOps (T := GTIDSet) (Some Restore.index) "a:1-40" (Restore.to_gtid "a:1-30") = Err ErrTargetBeforeBackup /\
  ~ (forall t, raw_holds (T := GTIDSet) "a:1-40" t -> raw_holds "a:1-30" t).
Proof.
  split; [vm_compute; reflexivity|].
  pose proof (replay_plan_outcomes (T := GTIDSet) Restore.index "a:1-40" (Restore.to_gtid "a:1-30")
    ltac:(apply restore_raws; exact I) ltac:(reflexivity) ltac:(vm_compute; reflexivity) ltac:(vm_compute; reflexivity)
    ltac:(vm_compute; reflexivity) ltac:(repeat constructor)) as H.
  assert (planReplayWithOps (T := GTIDSet) (Some Restore.index) "a:1-40" (Restore.to_gtid "a:1-30") = Err ErrTargetBeforeBackup)
    as E by (vm_compute; reflexivity).
  cbv zeta in H. rewrite E in H. exact (proj2 H).
Defined.

(** Applying the archive's forks to a plan without a GTID target excludes
    exactly the disowned transactions besides what it excluded, and refuses
    exactly a base backup that holds a disowned transaction. *)
Theorem forks_exclude_dead_branches idx target plan :
  mysql_valid (rp_ExcludeGTIDs plan) -> Forall mysql_valid (index_disowned idx) -> rt_GTID target = "" ->
  match applyMySQLForks idx target plan with
  | Ok plan' =>
      (forall t, mysql_holds (rp_DisownedGTIDs plan') t <-> archive_disowned idx t) /\
      (forall t, mysql_holds (rp_ExcludeGTIDs plan') t <->
         mysql_holds (rp_ExcludeGTIDs plan) t \/ archive_disowned idx t) /\
      (forall t, mysql_holds (rp_ExcludeGTIDs plan) t -> ~ archive_disowned idx t) /\
      mysql_valid (rp_DisownedGTIDs plan') /\ rp_Segments plan' = rp_Segments plan
  | Err ErrBackupOnDeadBranch =>
      ~ (forall t, mysql_holds (rp_ExcludeGTIDs plan) t -> ~ archive_disowned idx t)
  | Err _ => False
  end.
Proof. apply applyMySQLForks_spec. Qed.

Lemma forks_exclude_dead_branches_witness :
  applyMySQLForks Restore.index Restore.latest (new_plan [] "" "a:1-105" [] false) = Err ErrBackupOnDeadBranch /\
  ~ (forall t, mysql_holds "a:1-105" t -> ~ archive_disowned Restore.index t).
Proof.
  split; [vm_compute; reflexivity|].
  pose proof (forks_exclude_dead_branches Restore.index Restore.latest (new_plan [] "" "a:1-105" [] false)) as H.
  assert (applyMySQLForks Restore.index Restore.latest (new_plan [] "" "a:1-105" [] false) = Err ErrBackupOnDeadBranch)
    as E by (vm_compute; reflexivity).
  rewrite E in H. apply H; [eexists; vm_compute; reflexivity| |reflexivity].
  apply Forall_forall. intros x Hx. vm_compute in Hx.
  repeat (apply elem_of_cons in Hx as [->|Hx]; [eexists; vm_compute; reflexivity|]). by apply not_elem_of_nil in Hx.
Defined.

(** A gap is reported exactly when some transaction is missing below one
    that was recovered (of a source the backup does not hold, from its first
    transaction on), and neither disowned nor a hole of the backup itself. *)
Theorem gaps_are_exact anchorGTID raw disowned anchor got dis :
  ParseGTIDSet anchorGTID = Ok anchor -> ParseGTIDSet raw = Ok got -> ParseGTIDSet disowned = Ok dis ->
  (checkMySQLGaps anchorGTID raw disowned = Ok tt \/ checkMySQLGaps anchorGTID raw disowned = Err ErrArchiveGap) /\
  (checkMySQLGaps anchorGTID raw disowned = Ok tt <->
   forall u n, missing_before anchor got u n -> gtid_in dis u n \/ gtid_in (GTIDSet_Holes anchor) u n).
Proof.
  intros Ha Hg Hd. destruct (checkMySQLGaps_spec _ _ _ _ _ _ Ha Hg Hd) as [-> Hiff]. split; [|done].
  destruct (GTIDSet_IsEmpty _); auto.
Qed.

Lemma gaps_are_exact_witness :
  checkMySQLGaps "a:1-40" "a:1-40:60-90" "" = Err ErrArchiveGap /\ checkMySQLGaps "a:1-40" "a:1-40:60-90" "a:41-59" = Ok tt /\
  exists anchor got dis, forall u n, missing_before anchor got u n -> gtid_in dis u n \/ gtid_in (GTIDSet_Holes anchor) u n.
Proof.
  split; [vm_compute; reflexivity|]. split; [vm_compute; reflexivity|].
  eexists _, _, _. eapply (gaps_are_exact "a:1-40" "a:1-40:60-90" "a:41-59"); vm_compute; reflexivity.
Defined.

(** The unrecorded-fork check passes exactly when no segment, against a
    later one that took over from its server, holds transactions of that server
    past everything the later one holds of it that are not recorded as disowned. *)
Theorem unrecorded_forks_are_exact idx recorded known sets :
  ParseGTIDSet recorded = Ok known ->
  map_result (fun seg => ParseGTIDSet (sg_GTIDSet seg)) (ix_Segments idx) = Ok sets ->
  (checkUnrecordedForks idx recorded = Ok tt \/ checkUnrecordedForks idx recorded = Err ErrForkedTimeline) /\
  (checkUnrecordedForks idx recorded = Ok tt <->
   forall i j e x n, (i < j)%nat -> zip (ix_Segments idx) sets !! i = Some e -> zip (ix_Segments idx) sets !! j = Some x ->
     ~ dead_past known e x n).
Proof.
  intros Hk Hs. unfold checkUnrecordedForks. rewrite Hk. cbn [wrapf rbind].
  assert (map_result (fun seg => wrapf "parsing segment GTID set" (ParseGTIDSet (sg_GTIDSet seg))) (ix_Segments idx) = Ok sets) as ->.
  { apply map_result_Forall2. apply map_result_Forall2 in Hs. eapply Forall2_impl; [exact Hs|]. cbn. intros seg x Hx. by apply wrapf_Ok. }
  cbn [rbind]. apply check_pairs_spec; [eauto with gtid|].
  apply map_result_Forall2 in Hs. apply Forall_lookup. intros i [seg x] [Hi Hx]%lookup_zip_Some.
  destruct (Forall2_lookup_l _ _ _ _ _ Hs Hi) as (x' & Hx' & Ex). cbn. replace x with x' by congruence. eauto with gtid.
Qed.

Lemma unrecorded_forks_are_exact_witness :
  checkUnrecordedForks Restore.index "" = Err ErrForkedTimeline /\ checkUnrecordedForks Restore.index "a:101-110" = Ok tt.
Proof.
  split; [vm_compute; reflexivity|].
  destruct (unrecorded_forks_are_exact Restore.index "a:101-110"
    (match ParseGTIDSet "a:101-110" with Ok k => k | Err _ => ∅ end)
    (match map_result (fun seg => ParseGTIDSet (sg_GTIDSet seg)) (ix_Segments Restore.index) with Ok l => l | Err _ => [] end)
    ltac:(vm_compute; reflexivity) ltac:(vm_compute; reflexivity)) as [[H|H] _]; [exact H|vm_compute in H; discriminate].
Defined.

(** C27: Selecting MariaDB segments terminates with segments, all from the
    archive, that cover without a hole the sequence numbers from the start of the
    first chosen segment up to the target; the numbers between the anchor and that
    start, if any, are in no archived segment and stay uncovered, as in
    [late_archive_is_accepted].  A target past every segment is beyond the archive,
    and a forked timeline means a number between anchor and target that no segment
    holds, with a segment past the anchor before it. *)
Theorem segment_selection_is_complete segments domain anchor target :
  0 <= anchor -> target <= MaxUint64 ->
  let ivs := omap (segment_interval domain) segments in
  match SelectMariadbSegments segments domain anchor target with
  | Ok sel => (target <= anchor /\ sel = []) \/
      exists ch c, sel = (fun v => replaySegment (si_seg v)) <$> ch /\ target <= c /\ chosen ivs ch anchor c
  | Err ErrTargetBeyondArchive => forall v, v ∈ ivs -> si_end v < target
  | Err ErrForkedTimeline => exists g, anchor < g <= target /\ ~ some_spans ivs g /\
      exists v, v ∈ ivs /\ anchor < si_end v < g
  | Err _ => False
  end.
Proof.
  intros Ha Ht ivs. unfold SelectMariadbSegments. fold ivs. destruct (Z.leb_spec target anchor) as [?|Hlt]; [by left|].
  destruct (Z.ltb_spec (max_end ivs) target) as [Hm|Hm].
  { intros v Hv. apply (max_end_le ivs 0) in Hv. unfold max_end in Hm. lia. }
  destruct (max_end_ge ivs 0) as (v & Hv & Ev); [unfold max_end in Hm; lia|].
  pose proof (select_loop_spec ivs anchor target (S (length ivs)) ((fun v => (false, v)) <$> ivs) anchor []) as Hsel.
  cbn [fmap list_fmap] in Hsel.
  assert (match select_loop (S (length ivs)) ((fun v => (false, v)) <$> ivs) anchor target [] with
    | Ok sel => exists ch' c, sel = (fun v => replaySegment (si_seg v)) <$> ch' /\ target <= c /\ chosen ivs ch' anchor c
    | Err ErrForkedTimeline => exists g, anchor < g <= target /\ ~ some_spans ivs g /\ exists v, v ∈ ivs /\ anchor < si_end v < g
    | Err _ => False end) as H.
  { apply Hsel; [done..| | | | | |].
    - exists v. split; [done|]. unfold max_end in Hm. lia.
    - rewrite <- list_fmap_compose. apply list_fmap_id.
    - rewrite unused_fresh. lia.
    - intros j w Hj. apply list_lookup_fmap_Some in Hj as (? & [=] & _).
    - lia.
    - split; [|done]. intros w Hw. by apply not_elem_of_nil in Hw. }
  destruct (select_loop _ _ _ _ _) as [sel|e]; [by right|]. destruct e; done.
Qed.

(** An archive that begins after the backup's anchor is accepted: 41 to 99 are
    replayed from nowhere. *)
Lemma late_archive_is_accepted :
  let s := mkArchiveSegment "s" "c-1" ["b.1"] "0-1-200" "0-1-100" None 0 0 in
  SelectMariadbSegments [s] 0 40 150 = Ok [replaySegment s] /\
  ~ some_spans (omap (segment_interval 0) [s]) 50.
Proof.
  intros s. split; [vm_compute; reflexivity|]. intros (v & Hv & Hs). vm_compute in Hv.
  apply list_elem_of_singleton in Hv as ->. unfold spans in Hs. cbn in Hs. lia.
Qed.

Lemma segment_selection_is_complete_witness :
  let s1 := mkArchiveSegment "s1" "c-1" ["b.1"] "0-1-100" "0-1-1" None 0 0 in
  let s2 := mkArchiveSegment "s2" "c-2" ["b.2"] "0-2-250" "0-1-90" None 0 0 in
  SelectMariadbSegments [s2; s1] 0 40 200 = Ok [replaySegment s1; replaySegment s2] /\
  SelectMariadbSegments [s2; s1] 0 40 300 = Err ErrTargetBeyondArchive /\
  forall v, v ∈ omap (segment_interval 0) [s2; s1] -> si_end v < 300.
Proof.
  intros s1 s2. split; [vm_compute; reflexivity|]. split; [vm_compute; reflexivity|].
  pose proof (segment_selection_is_complete [s2; s1] 0 40 300 ltac:(lia) ltac:(unfold MaxUint64; lia)) as H.
  assert (SelectMariadbSegments [s2; s1] 0 40 300 = Err ErrTargetBeyondArchive) as E by (vm_compute; reflexivity).
  cbv zeta in H. rewrite E in H. exact H.
Defined.

(** The MariaDB planner falls back to a plan that ignores the frontier whenever
    the target is beyond the archive, segments with positions included: here no
    segment reaches the target, and a plan is returned. *)
Lemma fallback_plans_past_the_archive :
  let seg := mkArchiveSegment "s1" "c-1" ["b.1"] "0-1-100" "0-1-1" None 0 0 in
  let idx := mkArchiveIndex "c" "uid" [seg] "0-1-100" 0 None 1 None 0 [] in
  let target := mkRecoveryTarget None "0-1-500" false in
  planReplayWithOps (H := @mariadbOps mariadbGTID) (Some idx) "0-1-40" target = Err ErrTargetBeyondArchive /\
  is_ok (PlanReplayWithModel mariadbGTID (Some idx) "0-1-40" target) = true.
Proof. vm_compute. repeat split. Qed.
