(* ===== verification/ReplayMaria.v ===== *)
(** * Positional replay of a MariaDB archive

    [pkg/management/mysql/binlog/replay_mariadb_forks.go] and the positional part
    of [replay.go].  [mariadb-binlog] cannot filter by GTID, so a recovery is a
    list of chunks bounded by byte offsets.  The theorems give the chunks a
    meaning, the transactions [mariadb-binlog] would apply, and show that they
    are the sequences past the anchor up to the target, in order and once. *)

From Stdlib Require Import ZArith Lia Bool Ascii String.
From stdpp Require Import base list strings gmap sorting.
From S2P Require Import Prelude GoStrings Gtid GtidText GtidModel MariaGtid MariaTimeline.
From S2P Require Import Archive Forks GtidOps Replay.

Local Open Scope Z_scope.
#[local] Arguments String.append : simpl nomatch.

(** ** Data *)

Record TxnBoundary := mkTxnBoundary {
  tb_Domain : Z;
  tb_Server : Z;
  tb_Seq : Z;
  tb_StartPos : Z;
  tb_Time : Time
}.

Record PositionalFile := mkPositionalFile {
  pf_Path : string;
  pf_Segment : string;
  pf_Boundaries : list TxnBoundary;
  pf_EndPos : Z
}.

Record ReplayChunk := mkReplayChunk {
  rc_Files : list string;
  rc_StartPosition : Z;
  rc_StopPosition : Z
}.

(** ** Scanning one file *)

(** The step of [domainFileStats]: the lowest and highest sequence so far. *)
Definition stats_step (domain : Z) (acc : option (Z * Z)) (b : TxnBoundary) : option (Z * Z) :=
  if negb (tb_Domain b =? domain) then acc
  else match acc with
       | None => Some (tb_Seq b, tb_Seq b)
       | Some (lo, hi) => Some (if tb_Seq b <? lo then tb_Seq b else lo, if hi <? tb_Seq b then tb_Seq b else hi)
       end.

Definition domainFileStats (list_ : list TxnBoundary) (domain : Z) : option (Z * Z) :=
  foldl (stats_step domain) None list_.

Fixpoint firstAfterInFile (list_ : list TxnBoundary) (domain seq : Z) : option Z :=
  match list_ with
  | [] => None
  | b :: list_' =>
      if (tb_Domain b =? domain) && (seq <? tb_Seq b) then Some (tb_StartPos b)
      else firstAfterInFile list_' domain seq
  end.

Definition AnchorSeqFromBoundaries (boundaries : list TxnBoundary) (domain pos : Z) : Z :=
  foldl (fun seq b => if (tb_Domain b =? domain) && (tb_StartPos b <? pos) && (seq <? tb_Seq b)
                      then tb_Seq b else seq) 0 boundaries.

(** ** Forks *)

Definition segmentAuthor (seg : ReplaySegment) (domain : Z) : option (Z * Z) :=
  match ParseMariaDBPosition (rs_GTIDSet seg) with
  | Err _ => None
  | Ok gtids => (fun g => (g_Server g, g_Seq g)) <$> head (List.filter (fun g => g_Domain g =? domain) gtids)
  end.

Definition forkCut (seg : ReplaySegment) (domain : Z) : option Z :=
  match rs_Fork seg with
  | None => None
  | Some f => fk_AfterSeq f !! domain
  end.

Fixpoint branch_loop (segs : list ReplaySegment) (domain : Z) (target : MariaDBGTID) : string * Z :=
  match segs with
  | [] => ("", 0)
  | seg :: segs' =>
      match forkCut seg domain with
      | None => branch_loop segs' domain target
      | Some cut =>
          match segmentAuthor seg domain with
          | Some (server, end_) =>
              if (server =? g_Server target) && (cut <? g_Seq target) && (g_Seq target <=? end_)
              then (rs_ServerUUID seg, cut) else branch_loop segs' domain target
          | None => branch_loop segs' domain target
          end
      end
  end.

Definition branchHolder (segs : list ReplaySegment) (domain : Z) (target : option MariaDBGTID) : string * Z :=
  match target with
  | None => ("", 0)
  | Some target => branch_loop segs domain target
  end.

(** The cut of each segment: its fork record, or the target's branch. *)
Definition fork_cuts_of (segs : list ReplaySegment) (domain : Z) (target : option MariaDBGTID) : gmap string Z :=
  let '(holder, branchCut) := branchHolder segs domain target in
  foldl (fun (cuts : gmap string Z) seg =>
    if negb (String.eqb holder "") then
      if negb (String.eqb (rs_ServerUUID seg) holder) then
        match forkCut seg domain with
        | Some own => if own <? branchCut then <[rs_ServerUUID seg := own]> cuts
                      else <[rs_ServerUUID seg := branchCut]> cuts
        | None => <[rs_ServerUUID seg := branchCut]> cuts
        end
      else cuts
    else match forkCut seg domain with
         | Some cut => <[rs_ServerUUID seg := cut]> cuts
         | None => cuts
         end) ∅ segs.

(** The boundaries before the first disowned one, and that one. *)
Fixpoint split_dead (l : list TxnBoundary) (domain cut : Z) : list TxnBoundary * option TxnBoundary :=
  match l with
  | [] => ([], None)
  | b :: l' =>
      if (tb_Domain b =? domain) && (cut <? tb_Seq b) then ([], Some b)
      else let '(kept, first) := split_dead l' domain cut in (b :: kept, first)
  end.

(** The loop over the files; [exhausted] holds the segments whose fork is past. *)
Fixpoint cut_files (files : list PositionalFile) (cuts : gmap string Z) (domain : Z) (exhausted : gset string)
  : list PositionalFile :=
  match files with
  | [] => []
  | f :: files' =>
      match cuts !! pf_Segment f with
      | None => f :: cut_files files' cuts domain exhausted
      | Some cut =>
          if bool_decide (pf_Segment f ∈ exhausted) then cut_files files' cuts domain exhausted
          else match split_dead (pf_Boundaries f) domain cut with
               | (_, None) => f :: cut_files files' cuts domain exhausted
               | (kept, Some dead) =>
                   let exhausted := {[ pf_Segment f ]} ∪ exhausted in
                   match domainFileStats kept domain with
                   | None => cut_files files' cuts domain exhausted
                   | Some _ => mkPositionalFile (pf_Path f) (pf_Segment f) kept (tb_StartPos dead)
                               :: cut_files files' cuts domain exhausted
                   end
               end
      end
  end.

(** The source's error result is always nil. *)
Definition ApplyMariadbForks (files : list PositionalFile) (segs : list ReplaySegment) (domain : Z)
    (target : option MariaDBGTID) : result (list PositionalFile) :=
  Ok (cut_files files (fork_cuts_of segs domain target) domain ∅).

(** The boundaries of all files, in order. *)
Definition all_boundaries (files : list PositionalFile) : list TxnBoundary := files ≫= pf_Boundaries.

Definition author_step (domain anchorSeq : Z) (authors : gmap Z Z) (b : TxnBoundary) : result (gmap Z Z) :=
  if negb (tb_Domain b =? domain) || (tb_Seq b <=? anchorSeq) then Ok authors
  else match authors !! tb_Seq b with
       | Some server => if negb (server =? tb_Server b) then Err ErrForkedTimeline
                        else Ok (<[tb_Seq b := tb_Server b]> authors)
       | None => Ok (<[tb_Seq b := tb_Server b]> authors)
       end.

Definition CheckMariadbAuthors (files : list PositionalFile) (domain anchorSeq : Z) : result unit :=
  let? _ := fold_result (author_step domain anchorSeq) ∅ (all_boundaries files) in Ok tt.

(** ** Targets *)

Definition seqBeforeTime (files : list PositionalFile) (domain anchorSeq highest : Z) (target : Time) : Z :=
  let first := foldl (fun first b =>
    if (tb_Domain b =? domain) && (anchorSeq <? tb_Seq b) && negb (IsZero (tb_Time b))
       && negb (tb_Time b <? target) && (tb_Seq b <? first) then tb_Seq b else first)
    (u64 (highest + 1)) (all_boundaries files) in
  foldl (fun before b =>
    if (tb_Domain b =? domain) && (before <? tb_Seq b) && (tb_Seq b <? first) then tb_Seq b else before)
    anchorSeq (all_boundaries files).

Definition HighestMariadbSeq (files : list PositionalFile) (domain : Z) : option Z :=
  foldl (fun highest f =>
    match domainFileStats (pf_Boundaries f) domain with
    | Some (_, maxSeq) =>
        match highest with
        | None => Some maxSeq
        | Some h => if h <? maxSeq then Some maxSeq else highest
        end
    | None => highest
    end) None files.

(** ** Chunks *)

(** [sort.SliceStable] with [less]; [leb a b] is [!less(b, a)]. *)
Definition domain_leb (domain : Z) (a b : PositionalFile) : bool :=
  match domainFileStats (pf_Boundaries b) domain, domainFileStats (pf_Boundaries a) domain with
  | Some (minB, _), Some (minA, _) => negb (minB <? minA)
  | Some _, None => false
  | None, _ => true
  end.

Definition sortFilesByDomainSeq (files : list PositionalFile) (domain : Z) : list PositionalFile :=
  isort (domain_leb domain) files.

(** [flush()]. *)
Definition flush (chunks : list ReplayChunk) (cur : option ReplayChunk) : list ReplayChunk :=
  match cur with Some c => chunks ++ [c] | None => chunks end.

Definition add_file (c : ReplayChunk) (path : string) : ReplayChunk :=
  mkReplayChunk (rc_Files c ++ [path]) (rc_StartPosition c) (rc_StopPosition c).

(** The chunk of the file that carries the target. *)
Definition target_chunks (f : PositionalFile) (domain applied targetSeq : Z) (overlap firstReplayed : bool)
    (chunks : list ReplayChunk) (cur : option ReplayChunk) : list ReplayChunk :=
  let stop := match firstAfterInFile (pf_Boundaries f) domain targetSeq with
              | Some p => Some p
              | None => if 0 <? pf_EndPos f then Some (pf_EndPos f) else None
              end in
  match stop, cur, overlap with
  | None, Some c, false => chunks ++ [add_file c (pf_Path f)]
  | _, _, _ =>
      let start := if overlap || firstReplayed
                   then default 0 (firstAfterInFile (pf_Boundaries f) domain applied) else 0 in
      flush chunks cur ++ [mkReplayChunk [pf_Path f] start (default 0 stop)]
  end.

(** The loop over the sorted files. *)
Fixpoint chunk_loop (files : list PositionalFile) (domain targetSeq applied : Z) (firstReplayed : bool)
    (chunks : list ReplayChunk) (cur : option ReplayChunk) : result (list ReplayChunk) :=
  match files with
  | [] => Ok (flush chunks cur)
  | f :: files' =>
      match domainFileStats (pf_Boundaries f) domain with
      | None => chunk_loop files' domain targetSeq applied firstReplayed chunks cur
      | Some (minSeq, fileMax) =>
          if fileMax <=? applied then chunk_loop files' domain targetSeq applied firstReplayed chunks cur
          else
            let overlap := minSeq <=? applied in
            if negb firstReplayed && negb overlap && (u64 (applied + 1) <? minSeq) then Err ErrForkedTimeline
            else if targetSeq <=? fileMax then
              Ok (target_chunks f domain applied targetSeq overlap firstReplayed chunks cur)
            else
              let startPos := default 0 (firstAfterInFile (pf_Boundaries f) domain applied) in
              if 0 <? pf_EndPos f then
                chunk_loop files' domain targetSeq fileMax false
                  (flush chunks cur ++ [mkReplayChunk [pf_Path f] startPos (pf_EndPos f)]) None
              else match cur, overlap with
                   | Some c, false =>
                       chunk_loop files' domain targetSeq fileMax false chunks (Some (add_file c (pf_Path f)))
                   | _, _ =>
                       chunk_loop files' domain targetSeq fileMax false (flush chunks cur)
                         (Some (mkReplayChunk [pf_Path f] startPos 0))
                   end
      end
  end.

Definition PlanMariadbPositionalFiles (files : list PositionalFile) (domain anchorSeq targetSeq : Z)
  : result (list ReplayChunk) :=
  match HighestMariadbSeq files domain with
  | None => Err ErrTargetBeyondArchive
  | Some maxSeq =>
      if maxSeq <? targetSeq then Err ErrTargetBeyondArchive
      else if targetSeq <? anchorSeq then Err ErrTargetBeforeBackup
      else chunk_loop (sortFilesByDomainSeq files domain) domain targetSeq anchorSeq true [] None
  end.

Definition PlanMariadbPositional (files : list string) (boundaries : list (list TxnBoundary))
    (domain anchorSeq targetSeq : Z) : result (list ReplayChunk) :=
  if negb (Nat.eqb (length files) (length boundaries)) then Err (Errorf "files/boundaries length mismatch")
  else PlanMariadbPositionalFiles
         (zip_with (fun path b => mkPositionalFile path "" b 0) files boundaries) domain anchorSeq targetSeq.

Definition PlanMariadbReplay (plan : ReplayPlan) (files : list PositionalFile) (anchorSeq : Z)
  : result (list ReplayChunk) :=
  let? cut := ApplyMariadbForks files (rp_Segments plan) (rp_MariaDBDomain plan) (rp_MariaDBTarget plan) in
  let? _ := CheckMariadbAuthors cut (rp_MariaDBDomain plan) anchorSeq in
  if rp_MariaDBTargetSeq plan =? 0 then
    match HighestMariadbSeq cut (rp_MariaDBDomain plan) with
    | None => Ok []
    | Some highest =>
        if highest <=? anchorSeq then Ok []
        else if negb (IsZero (rp_TargetTime plan)) then
          let target := seqBeforeTime cut (rp_MariaDBDomain plan) anchorSeq highest (rp_TargetTime plan) in
          if target <=? anchorSeq then Ok []
          else PlanMariadbPositionalFiles cut (rp_MariaDBDomain plan) anchorSeq target
        else PlanMariadbPositionalFiles cut (rp_MariaDBDomain plan) anchorSeq highest
    end
  else PlanMariadbPositionalFiles cut (rp_MariaDBDomain plan) anchorSeq (rp_MariaDBTargetSeq plan).

(** ** How a recovery replays *)

Record MariadbPositional := mkMariadbPositional {
  mp_Enabled : bool;
  mp_Domain : Z;
  mp_AnchorSeq : Z;
  mp_TargetSeq : Z;
  mp_Target : option MariaDBGTID;
  mp_Selected : bool;
  mp_Segments : list ReplaySegment
}.

Definition MariadbPositional_zero : MariadbPositional := mkMariadbPositional false 0 0 0 None false [].

Definition set_selected (p : MariadbPositional) (segs : list ReplaySegment) : MariadbPositional :=
  mkMariadbPositional (mp_Enabled p) (mp_Domain p) (mp_AnchorSeq p) (mp_TargetSeq p) (mp_Target p) true segs.

Definition archiveDomains (idx : ArchiveIndex) : list Z :=
  isort Z.leb (foldl (fun out seg =>
    match ParseMariaDBPosition (sg_GTIDSet seg) with
    | Ok gtids => foldl (fun out g => if bool_decide (g_Domain g ∈ out) then out else out ++ [g_Domain g]) out gtids
    | Err _ => out
    end) [] (ix_Segments idx)).

Definition segmentsHaveRanges (segments : list ArchiveSegment) : bool :=
  existsb (fun seg => negb (String.eqb (sg_GTIDSet seg) "")) segments.

(** Whether the anchor [a] falls in a recorded dead branch. *)
Definition anchor_dead (segs : list ReplaySegment) (disowned : option ArchiveDisowned) (domain : Z)
    (a : MariaDBGTID) : bool :=
  existsb (fun r => Range_Holds r (g_Domain a) (g_Server a) (g_Seq a))
    (match disowned with Some d => ds_Ranges d | None => [] end) ||
  existsb (fun seg =>
    match forkCut seg domain with
    | Some cut => match segmentAuthor seg domain with
                  | Some (server, _) => (server =? g_Server a) && (cut <? g_Seq a)
                  | None => false
                  end
    | None => false
    end) segs.

Definition checkMariadbAnchor (segs : list ReplaySegment) (disowned : option ArchiveDisowned)
    (anchorGTID : string) (domain : Z) : result unit :=
  match ParseMariaDBPosition anchorGTID with
  | Err _ => Ok tt
  | Ok gtids =>
      if existsb (fun a => (g_Domain a =? domain) && anchor_dead segs disowned domain a) gtids
      then Err ErrBackupOnDeadBranch else Ok tt
  end.

(** One segment's copy and the end of its range. *)
Definition cap_segment (segs : list ReplaySegment) (p : MariadbPositional) (x : ArchiveSegment * ReplaySegment)
  : ArchiveSegment * option Z :=
  let '(holder, branchCut) := branchHolder segs (mp_Domain p) (mp_Target p) in
  let '(seg, rseg) := x in
  match segmentAuthor rseg (mp_Domain p) with
  | None => (seg, None)
  | Some (server, end_) =>
      let limit := if negb (String.eqb holder "")
                   then (if negb (String.eqb (sg_ServerUUID seg) holder) then Some branchCut else None)
                   else forkCut rseg (mp_Domain p) in
      match limit with
      | Some cut =>
          if cut <? end_
          then (set_GTIDSet seg (MariaDBGTID_String (mkMariaDBGTID (mp_Domain p) server cut)), Some cut)
          else (seg, Some end_)
      | None => (seg, Some end_)
      end
  end.

Definition capSegments (index : list ArchiveSegment) (segs : list ReplaySegment) (p : MariadbPositional)
  : list ArchiveSegment * Z :=
  let capped := cap_segment segs p <$> zip index segs in
  let highest := foldl (fun h x => match snd x with Some e => if h <? e then e else h | None => h end) 0 capped in
  (fst <$> capped, if negb (mp_TargetSeq p =? 0) then mp_TargetSeq p else highest).

(** [byUUID]: a later segment of the same server wins. *)
Definition by_uuid (segs : list ReplaySegment) : gmap string ReplaySegment :=
  foldl (fun m seg => <[rs_ServerUUID seg := seg]> m) ∅ segs.

(** The decision up to the segment selection; [inr] is an early return. *)
Definition positional_target (idx : ArchiveIndex) (segs : list ReplaySegment) (anchorGTID : string)
    (target : RecoveryTarget) : result (MariadbPositional + MariadbPositional) :=
  if negb (String.eqb (rt_GTID target) "") then
    let? single := SingleDomainMariaGTID (rt_GTID target) in
    match single with
    | None => Ok (inr MariadbPositional_zero)
    | Some (domain, seq) =>
        let? g := ParseMariaDBGTID (rt_GTID target) in
        Ok (inl (mkMariadbPositional true domain (MariaSeqForDomain anchorGTID domain) seq (Some g) false []))
    end
  else match archiveDomains idx with
       | [] => Ok (inr MariadbPositional_zero)
       | [d] =>
           let? _ := checkMariadbAnchor segs (ix_Disowned idx) anchorGTID d in
           Ok (inl (mkMariadbPositional true d (MariaSeqForDomain anchorGTID d) 0 None false []))
       | _ => if existsb (fun seg => match rs_Fork seg with Some _ => true | None => false end) segs
              then Err ErrForkedTimeline else Ok (inr MariadbPositional_zero)
       end.

Definition PrepareMariadbPositional (idx : ArchiveIndex) (anchorGTID : string) (target : RecoveryTarget)
  : result MariadbPositional :=
  let segs := replaySegment <$> ix_Segments idx in
  let? decided := positional_target idx segs anchorGTID target in
  match decided with
  | inr p => Ok p
  | inl p =>
      if negb (segmentsHaveRanges (ix_Segments idx)) then Ok p
      else
        let '(capped, selectTarget) := capSegments (ix_Segments idx) segs p in
        if selectTarget <=? mp_AnchorSeq p then Ok (set_selected p [])
        else match SelectMariadbSegments capped (mp_Domain p) (mp_AnchorSeq p) selectTarget with
             | Err ErrForkedTimeline =>
                 match rt_Time target with
                 | Some _ => Ok p
                 | None => Err ErrForkedTimeline
                 end
             | Err e => Err e
             | Ok selected =>
                 Ok (set_selected p ((fun s => default (mkReplaySegment "" [] "" None)
                                                 (by_uuid segs !! rs_ServerUUID s)) <$> selected))
             end
  end.

(** ** What a chunk replays *)

Definition seqs (d : Z) (l : list TxnBoundary) : list Z :=
  tb_Seq <$> List.filter (fun b => tb_Domain b =? d) l.

(** The transactions [mariadb-binlog] applies for a chunk, given the files'
    contents: [--start-position] bounds the first file, [--stop-position] comes
    only with a single file, and zero is no bound. *)
Definition from_pos (p : Z) (l : list TxnBoundary) : list TxnBoundary :=
  if 0 <? p then List.filter (fun b => p <=? tb_StartPos b) l else l.
Definition to_pos (p : Z) (l : list TxnBoundary) : list TxnBoundary :=
  if 0 <? p then List.filter (fun b => tb_StartPos b <? p) l else l.

Definition replay_chunk (content : string -> list TxnBoundary) (c : ReplayChunk) : list TxnBoundary :=
  match rc_Files c with
  | [] => []
  | f :: rest => to_pos (rc_StopPosition c) (from_pos (rc_StartPosition c) (content f)) ++ (rest ≫= content)
  end.

Definition replayed (content : string -> list TxnBoundary) (d : Z) (chunks : list ReplayChunk) : list Z :=
  seqs d (chunks ≫= replay_chunk content).

(** The integers from [lo] to [hi]. *)
Definition zrange (lo hi : Z) : list Z := seqZ lo (hi - lo + 1).

Lemma zrange_nil lo hi : hi < lo -> zrange lo hi = [].
Proof. intros H. unfold zrange. apply seqZ_nil. lia. Qed.

Lemma zrange_app lo mid hi : lo <= mid + 1 -> mid <= hi -> zrange lo mid ++ zrange (mid + 1) hi = zrange lo hi.
Proof.
  intros H1 H2. unfold zrange. replace (hi - lo + 1) with ((mid - lo + 1) + (hi - (mid + 1) + 1)) by lia.
  rewrite (seqZ_app lo (mid - lo + 1)) by lia. replace (lo + (mid - lo + 1)) with (mid + 1) by lia. done.
Qed.

Lemma zrange_cons lo hi : lo <= hi -> zrange lo hi = lo :: zrange (lo + 1) hi.
Proof. intros H. unfold zrange. rewrite seqZ_cons by lia.
  replace (Z.pred (hi - lo + 1)) with (hi - (lo + 1) + 1) by lia. done. Qed.

Lemma elem_of_zrange lo hi n : n ∈ zrange lo hi <-> lo <= n <= hi.
Proof. unfold zrange. rewrite elem_of_seqZ. lia. Qed.

Lemma seqs_app d a b : seqs d (a ++ b) = seqs d a ++ seqs d b.
Proof. unfold seqs. by rewrite List.filter_app, fmap_app. Qed.

Lemma seqs_cons d b l : seqs d (b :: l) = if tb_Domain b =? d then tb_Seq b :: seqs d l else seqs d l.
Proof. unfold seqs. cbn. by destruct (_ =? _). Qed.

(** ** One file *)

Lemma domainFileStats_from l d acc :
  foldl (stats_step d) acc l =
  match acc, seqs d l with
  | Some (lo, hi), s => Some (foldl Z.min lo s, foldl Z.max hi s)
  | None, [] => None
  | None, x :: s => Some (foldl Z.min x s, foldl Z.max x s)
  end.
Proof.
  revert acc. induction l as [|b l IH]; intros acc; [by destruct acc as [[]|]|]. cbn [foldl].
  rewrite IH, seqs_cons. unfold stats_step. destruct (tb_Domain b =? d); cbn [negb]; [|done].
  destruct acc as [[lo hi]|]; [|done]. cbn [foldl].
  replace (if tb_Seq b <? lo then tb_Seq b else lo) with (Z.min lo (tb_Seq b)) by (destruct (Z.ltb_spec (tb_Seq b) lo); lia).
  replace (if hi <? tb_Seq b then tb_Seq b else hi) with (Z.max hi (tb_Seq b)) by (destruct (Z.ltb_spec hi (tb_Seq b)); lia).
  done.
Qed.

Lemma domainFileStats_seqs l d :
  domainFileStats l d =
  match seqs d l with [] => None | x :: s => Some (foldl Z.min x s, foldl Z.max x s) end.
Proof. exact (domainFileStats_from l d None). Qed.

Lemma foldl_min_max x s :
  (forall y, y ∈ x :: s -> foldl Z.min x s <= y <= foldl Z.max x s) /\
  foldl Z.min x s ∈ x :: s /\ foldl Z.max x s ∈ x :: s.
Proof.
  assert (forall s a, foldl Z.min a s <= a /\ a <= foldl Z.max a s /\
    (forall y, y ∈ s -> foldl Z.min a s <= y <= foldl Z.max a s) /\
    (foldl Z.min a s = a \/ foldl Z.min a s ∈ s) /\ (foldl Z.max a s = a \/ foldl Z.max a s ∈ s)) as H.
  { clear. induction s as [|y s IH]; intros a; cbn; [set_solver by lia|].
    destruct (IH (Z.min a y)) as (A1 & _ & A3 & A4 & _). destruct (IH (Z.max a y)) as (_ & B2 & B3 & _ & B5).
    split_and!; [lia|lia| | |].
    - intros z [->|Hz]%elem_of_cons; [lia|]. specialize (A3 _ Hz). specialize (B3 _ Hz). lia.
    - rewrite elem_of_cons. destruct A4 as [->|?]; [|tauto]. destruct (Z.min_spec a y) as [[? ->]|[? ->]]; tauto.
    - rewrite elem_of_cons. destruct B5 as [->|?]; [|tauto]. destruct (Z.max_spec a y) as [[? ->]|[? ->]]; tauto. }
  destruct (H s x) as (H1 & H2 & H3 & H4 & H5). split_and!.
  - intros y [->|Hy]%elem_of_cons; [lia|auto].
  - rewrite elem_of_cons. tauto.
  - rewrite elem_of_cons. tauto.
Qed.

(** The statistics of a file are its lowest and highest sequence. *)
Lemma domainFileStats_spec l d :
  match domainFileStats l d with
  | None => seqs d l = []
  | Some (lo, hi) => lo ∈ seqs d l /\ hi ∈ seqs d l /\ forall n, n ∈ seqs d l -> lo <= n <= hi
  end.
Proof.
  rewrite domainFileStats_seqs. destruct (seqs d l) as [|x s]; [done|].
  destruct (foldl_min_max x s) as (H1 & H2 & H3). done.
Qed.

(** A file whose sequences in the domain are a run. *)
Lemma domainFileStats_range l d lo hi :
  lo <= hi -> seqs d l = zrange lo hi -> domainFileStats l d = Some (lo, hi).
Proof.
  intros Hle E. pose proof (domainFileStats_spec l d) as H. rewrite E in H.
  destruct (domainFileStats l d) as [[a b]|].
  - destruct H as (Ha%elem_of_zrange & Hb%elem_of_zrange & Hall).
    pose proof (Hall lo ltac:(apply elem_of_zrange; lia)). pose proof (Hall hi ltac:(apply elem_of_zrange; lia)).
    do 2 f_equal; lia.
  - rewrite zrange_cons in H by lia. done.
Qed.

(** Offsets grow along a file. *)
Abbreviation pos_sorted := (StronglySorted (fun a b => tb_StartPos a < tb_StartPos b)).

Lemma filter_nest {A} (f g : A -> bool) l : List.filter f (List.filter g l) = List.filter (fun x => f x && g x) l.
Proof.
  induction l as [|x l IH]; cbn; [done|]. destruct (g x); cbn; rewrite IH; [by rewrite andb_true_r|].
  by rewrite andb_false_r.
Qed.

Lemma filter_ext_elem {A} (f g : A -> bool) l :
  (forall x, x ∈ l -> f x = g x) -> List.filter f l = List.filter g l.
Proof. intros H. apply filter_ext_in. intros x Hx%list_elem_of_In. auto. Qed.

Lemma seqs_filter d (p : TxnBoundary -> bool) (q : Z -> bool) l :
  (forall b, b ∈ l -> tb_Domain b = d -> p b = q (tb_Seq b)) ->
  seqs d (List.filter p l) = List.filter q (seqs d l).
Proof.
  induction l as [|b l IH]; intros H; [done|]. rewrite seqs_cons. cbn [List.filter].
  assert (forall x, x ∈ l -> tb_Domain x = d -> p x = q (tb_Seq x)) as H' by (intros; apply H; [by right|done]).
  destruct (Z.eqb_spec (tb_Domain b) d) as [Ed|Ed].
  - cbn [List.filter]. rewrite (H b ltac:(by left) Ed). destruct (q (tb_Seq b)); [|by apply IH].
    rewrite seqs_cons, Ed, Z.eqb_refl. f_equal. by apply IH.
  - destruct (p b); [|by apply IH]. rewrite seqs_cons. destruct (Z.eqb_spec (tb_Domain b) d); [done|]. by apply IH.
Qed.

Lemma filter_zrange a t lo hi :
  List.filter (fun n => (a <? n) && (n <=? t)) (zrange lo hi) = zrange (Z.max lo (a + 1)) (Z.min hi t).
Proof.
  destruct (Z.le_gt_cases lo hi) as [Hle|]; [|by rewrite !zrange_nil by lia].
  remember (Z.to_nat (hi - lo)) as k eqn:Ek. revert lo Hle Ek.
  induction k as [|k IH]; intros lo Hle Ek; rewrite (zrange_cons lo hi) by lia; cbn.
  - assert (lo = hi) as -> by lia. rewrite (zrange_nil (hi + 1)) by lia. cbn.
    destruct (Z.ltb_spec a hi), (Z.leb_spec hi t); cbn; try (by rewrite zrange_nil by lia).
    rewrite zrange_cons, zrange_nil by lia. f_equal. lia.
  - rewrite IH by lia. destruct (Z.ltb_spec a lo), (Z.leb_spec lo t); cbn.
    + rewrite (zrange_cons (Z.max lo (a + 1))) by lia. f_equal; [lia|]. f_equal. lia.
    + by rewrite !zrange_nil by lia.
    + f_equal. lia.
    + f_equal. lia.
Qed.

Lemma firstAfter_later l d a p b :
  (forall x, x ∈ l -> tb_StartPos b < tb_StartPos x) -> firstAfterInFile l d a = Some p -> tb_StartPos b < p.
Proof.
  intros H. induction l as [|x l IH]; cbn; [done|]. destruct (_ && _).
  - intros [= <-]. apply H. by left.
  - apply IH. intros y Hy. apply H. by right.
Qed.

(** The offset of the first transaction past [a] separates the file's run at [a]. *)
Lemma firstAfter_splits l d a :
  pos_sorted l -> StronglySorted Z.lt (seqs d l) ->
  match firstAfterInFile l d a with
  | Some p => (forall b, b ∈ l -> tb_Domain b = d -> (p <=? tb_StartPos b) = (a <? tb_Seq b)) /\
      exists b, b ∈ l /\ tb_StartPos b = p /\ tb_Domain b = d /\ a < tb_Seq b
  | None => forall b, b ∈ l -> tb_Domain b = d -> (a <? tb_Seq b) = false
  end.
Proof.
  intros Hs. induction Hs as [|b l Hs IH Hall]; [intros _; cbn; set_solver|]. rewrite Forall_forall in Hall.
  rewrite seqs_cons. cbn [firstAfterInFile]. intros Hq.
  destruct (Z.eqb_spec (tb_Domain b) d) as [Ed|Ed]; cbn [andb].
  - apply StronglySorted_inv in Hq as [Hq Hlt]. rewrite Forall_forall in Hlt.
    destruct (Z.ltb_spec a (tb_Seq b)) as [Ha|Ha].
    + split; [|exists b; split; [by left|done]]. intros x [->|Hx]%elem_of_cons Hd; [lia|].
      specialize (Hall x Hx). assert (tb_Seq b < tb_Seq x); [|lia]. apply Hlt. unfold seqs.
      apply list_elem_of_fmap. exists x. split; [done|]. apply list_elem_of_In, filter_In.
      split; [by apply list_elem_of_In|lia].
    + specialize (IH Hq). destruct (firstAfterInFile l d a) as [p|] eqn:Ep.
      * pose proof (firstAfter_later l d a p b Hall Ep). destruct IH as [IH (y & Hy & ?)].
        split; [|exists y; split; [by right|done]]. intros x [->|Hx]%elem_of_cons Hd; [lia|auto].
      * intros x [->|Hx]%elem_of_cons Hd; [lia|auto].
  - specialize (IH Hq). destruct (firstAfterInFile l d a) as [p|] eqn:Ep.
    + destruct IH as [IH (y & Hy & ?)]. split; [|exists y; split; [by right|done]].
      intros x [->|Hx]%elem_of_cons Hd; [done|auto].
    + intros x [->|Hx]%elem_of_cons Hd; [done|auto].
Qed.

Lemma zrange_sorted lo hi : StronglySorted Z.lt (zrange lo hi).
Proof.
  remember (Z.to_nat (hi - lo + 1)) as k eqn:Ek. revert lo Ek. induction k as [|k IH]; intros lo Ek.
  - rewrite zrange_nil by lia. constructor.
  - rewrite zrange_cons by lia. constructor; [apply IH; lia|]. apply Forall_forall. intros x ?%elem_of_zrange. lia.
Qed.

(** ** A file and its chunk *)

Section Chunks.
Context (content : string -> list TxnBoundary) (d : Z).

(** What the planner knows of a file is its contents up to [EndPos]; offsets are
    positive and grow, and the file's sequences in the domain are a run. *)
Definition file_ok (f : PositionalFile) : Prop :=
  pos_sorted (content (pf_Path f)) /\ (forall b, b ∈ content (pf_Path f) -> 0 < tb_StartPos b) /\
  pf_Boundaries f = to_pos (pf_EndPos f) (content (pf_Path f)) /\ 0 <= pf_EndPos f /\
  exists lo hi, 0 <= lo /\ hi <= MaxUint64 /\ seqs d (pf_Boundaries f) = zrange lo hi.

Lemma pos_sorted_filter (p : TxnBoundary -> bool) l : pos_sorted l -> pos_sorted (List.filter p l).
Proof.
  induction 1 as [|b l Hs IH Hall]; cbn; [constructor|]. destruct (p b); [|done]. constructor; [done|].
  rewrite Forall_forall in *. intros x Hx%list_elem_of_In. apply filter_In in Hx as [Hx _].
  apply Hall. by apply list_elem_of_In.
Qed.

Lemma to_pos_sorted p l : pos_sorted l -> pos_sorted (to_pos p l).
Proof. unfold to_pos. destruct (_ <? _); [apply pos_sorted_filter|done]. Qed.

(** Bounding a file at the first transaction past [a] and at one past [t] (or at
    its end) replays its run in between. *)
Lemma chunk_seqs f a t lo hi stop :
  file_ok f -> seqs d (pf_Boundaries f) = zrange lo hi ->
  stop = match firstAfterInFile (pf_Boundaries f) d t with Some p => p | None => pf_EndPos f end ->
  seqs d (to_pos stop (from_pos (default 0 (firstAfterInFile (pf_Boundaries f) d a)) (content (pf_Path f)))) =
    (if bool_decide (firstAfterInFile (pf_Boundaries f) d a = None) then zrange lo (Z.min hi t)
     else zrange (Z.max lo (a + 1)) (Z.min hi t)) /\
  seqs d (to_pos stop (content (pf_Path f))) = zrange lo (Z.min hi t).
Proof.
  intros (Hs & Hpos & HB & Hend & _) E ->.
  assert (pos_sorted (pf_Boundaries f)) as HsB by (rewrite HB; by apply to_pos_sorted).
  assert (StronglySorted Z.lt (seqs d (pf_Boundaries f))) as HqB by (rewrite E; apply zrange_sorted).
  assert (forall b, b ∈ pf_Boundaries f -> b ∈ content (pf_Path f) /\ (pf_EndPos f = 0 \/ tb_StartPos b < pf_EndPos f)) as HBin.
  { intros b Hb. rewrite HB in Hb. unfold to_pos in Hb. destruct (Z.ltb_spec 0 (pf_EndPos f)); [|split; [done|lia]].
    apply list_elem_of_In, filter_In in Hb as [Hb ?]. split; [by apply list_elem_of_In|lia]. }
  pose proof (firstAfter_splits _ d a HsB HqB) as Ha. pose proof (firstAfter_splits _ d t HsB HqB) as Ht.
  set (stop := match firstAfterInFile (pf_Boundaries f) d t with Some p => p | None => pf_EndPos f end).
  set (keep := fun b => match firstAfterInFile (pf_Boundaries f) d t with
                        | Some p => tb_StartPos b <? p | None => true end).
  assert (forall (q : TxnBoundary -> bool),
    to_pos stop (List.filter q (content (pf_Path f))) = List.filter (fun b => keep b && q b) (pf_Boundaries f)) as Hcut.
  { intros q. rewrite HB. unfold to_pos, stop, keep. destruct (firstAfterInFile _ d t) as [p|] eqn:Ep.
    - destruct Ht as [_ (y & Hy & <- & _)]. apply HBin in Hy as [Hy Hye]. specialize (Hpos _ Hy).
      rewrite (proj2 (Z.ltb_lt _ _) Hpos), filter_nest. destruct (Z.ltb_spec 0 (pf_EndPos f)); [|done].
      rewrite filter_nest. apply filter_ext_elem. intros x Hx. destruct (q x); rewrite ?andb_false_r, ?andb_true_r; [|done].
      destruct (Z.ltb_spec (tb_StartPos x) (tb_StartPos y)); [|done]. symmetry. apply andb_true_iff. lia.
    - cbn. destruct (Z.ltb_spec 0 (pf_EndPos f)); [|done]. rewrite !filter_nest.
      apply filter_ext_elem. intros x Hx. by rewrite andb_comm. }
  assert (forall b, b ∈ pf_Boundaries f -> tb_Domain b = d -> keep b = (tb_Seq b <=? t)) as Hkeep.
  { intros b Hb Hd. unfold keep. destruct (firstAfterInFile _ d t) as [p|].
    - destruct Ht as [Ht _]. specialize (Ht b Hb Hd). lia.
    - specialize (Ht b Hb Hd). lia. }
  assert (forall q r, (forall b, b ∈ pf_Boundaries f -> tb_Domain b = d -> q b = (r <? tb_Seq b)) ->
    seqs d (to_pos stop (List.filter q (content (pf_Path f)))) = zrange (Z.max lo (r + 1)) (Z.min hi t)) as Hgen.
  { intros q r Hq. rewrite Hcut, (seqs_filter d _ (fun n => (r <? n) && (n <=? t))).
    - by rewrite E, filter_zrange.
    - intros b Hb Hd. rewrite (Hq b Hb Hd), (Hkeep b Hb Hd). apply andb_comm. }
  assert (seqs d (to_pos stop (content (pf_Path f))) = zrange lo (Z.min hi t)) as Hwhole.
  { assert (content (pf_Path f) = List.filter (fun _ => true) (content (pf_Path f))) as ->
      by (symmetry; apply forallb_filter_id; by apply forallb_forall).
    rewrite (Hgen _ (lo - 1)); [f_equal; lia|]. intros b Hb Hd. symmetry. apply Z.ltb_lt.
    assert (tb_Seq b ∈ zrange lo hi) as Hz; [|apply elem_of_zrange in Hz; lia].
    rewrite <- E. unfold seqs. apply list_elem_of_fmap. exists b. split; [done|].
    apply list_elem_of_In, filter_In. split; [by apply list_elem_of_In|lia]. }
  split; [|done]. destruct (firstAfterInFile (pf_Boundaries f) d a) as [p|]; cbn.
  - destruct Ha as [Ha (y & Hy & <- & _)]. apply HBin in Hy as [Hy _]. specialize (Hpos _ Hy).
    unfold from_pos. rewrite (proj2 (Z.ltb_lt _ _) Hpos). by apply Hgen.
  - done.
Qed.

Lemma file_ok_stats f mn mx :
  file_ok f -> domainFileStats (pf_Boundaries f) d = Some (mn, mx) ->
  seqs d (pf_Boundaries f) = zrange mn mx /\ 0 <= mn <= mx /\ mx <= MaxUint64.
Proof.
  intros (_ & _ & _ & _ & lo & hi & Hlo & Hhi & E) Hs. destruct (Z.le_gt_cases lo hi) as [Hle|Hgt].
  - rewrite (domainFileStats_range _ _ lo hi) in Hs by done. injection Hs as <- <-. split; [done|lia].
  - rewrite zrange_nil in E by lia. rewrite domainFileStats_seqs, E in Hs. done.
Qed.

Lemma replayed_app a b : replayed content d (a ++ b) = replayed content d a ++ replayed content d b.
Proof. unfold replayed. by rewrite bind_app, seqs_app. Qed.

Lemma replayed_file path start stop :
  replayed content d [mkReplayChunk [path] start stop] = seqs d (to_pos stop (from_pos start (content path))).
Proof. unfold replayed, replay_chunk. cbn. by rewrite !app_nil_r. Qed.

Lemma replayed_add c path :
  rc_Files c <> [] ->
  replayed content d [add_file c path] = replayed content d [c] ++ seqs d (content path).
Proof.
  unfold replayed. intros Hne. rewrite <- seqs_app. f_equal. unfold replay_chunk, add_file.
  destruct c as [[|f fs] st sp]; [done|]. cbn.
  rewrite !app_nil_r. by rewrite bind_app, bind_singleton, app_assoc.
Qed.

Lemma firstAfter_some f a mn mx :
  file_ok f -> seqs d (pf_Boundaries f) = zrange mn mx -> mn <= mx -> a < mx ->
  is_Some (firstAfterInFile (pf_Boundaries f) d a).
Proof.
  intros (Hs & _ & HB & _) E Hle Ha.
  pose proof (firstAfter_splits (pf_Boundaries f) d a) as H. rewrite E in H.
  destruct (firstAfterInFile _ d a) as [p|]; [eauto|]. exfalso.
  assert (mx ∈ seqs d (pf_Boundaries f)) as Hin by (rewrite E; apply elem_of_zrange; lia).
  unfold seqs in Hin. apply list_elem_of_fmap in Hin as (b & -> & Hb%list_elem_of_In).
  apply filter_In in Hb as [Hb Hd]. apply list_elem_of_In in Hb. boolp.
  specialize (H ltac:(rewrite HB; by apply to_pos_sorted) ltac:(apply zrange_sorted) b Hb Hd). lia.
Qed.

Lemma firstAfter_none f t mn mx :
  file_ok f -> seqs d (pf_Boundaries f) = zrange mn mx -> mx <= t -> firstAfterInFile (pf_Boundaries f) d t = None.
Proof.
  intros (Hs & _ & HB & _) E Ht. pose proof (firstAfter_splits (pf_Boundaries f) d t) as H. rewrite E in H.
  destruct (firstAfterInFile _ d t) as [p|]; [|done]. exfalso.
  destruct H as [_ (b & Hb & _ & Hd & ?)]; [rewrite HB; by apply to_pos_sorted|apply zrange_sorted|].
  assert (tb_Seq b ∈ zrange mn mx) as Hz; [|apply elem_of_zrange in Hz; lia].
  rewrite <- E. unfold seqs. apply list_elem_of_fmap. exists b. split; [done|].
  apply list_elem_of_In, filter_In. split; [by apply list_elem_of_In|lia].
Qed.

(** A new chunk for a file, from the first sequence past [a] to its end. *)
Lemma file_from f a mn mx :
  file_ok f -> seqs d (pf_Boundaries f) = zrange mn mx -> mn <= mx -> a < mx ->
  replayed content d [mkReplayChunk [pf_Path f] (default 0 (firstAfterInFile (pf_Boundaries f) d a)) (pf_EndPos f)] =
  zrange (Z.max mn (a + 1)) mx.
Proof.
  intros Hf E Hle Ha. rewrite replayed_file.
  destruct (chunk_seqs f a mx mn mx (pf_EndPos f) Hf E) as [-> _].
  - by rewrite (firstAfter_none f mx mn mx) by (done || lia).
  - destruct (firstAfter_some f a mn mx Hf E Hle Ha) as [p ->]. cbn. f_equal. lia.
Qed.

(** A file without a cut is its run. *)
Lemma file_whole f mn mx :
  file_ok f -> seqs d (pf_Boundaries f) = zrange mn mx -> pf_EndPos f = 0 ->
  seqs d (content (pf_Path f)) = zrange mn mx.
Proof. intros (_ & _ & HB & _) E He. rewrite <- E, HB, He. done. Qed.

(** ** The loop *)

Definition held (files : list PositionalFile) (n : Z) : Prop :=
  exists f, f ∈ files /\ n ∈ seqs d (pf_Boundaries f).

(** Between files: what was replayed is the run from [s] to [applied]. *)
Record loop_inv (anchor target : Z) (all : list PositionalFile) (applied : Z) (first : bool)
    (chunks : list ReplayChunk) (cur : option ReplayChunk) (s : Z) : Prop := {
  li_cur : forall c, cur = Some c -> rc_Files c <> [] /\ rc_StopPosition c = 0;
  li_first : first = true -> applied = anchor /\ chunks = [] /\ cur = None;
  li_start : first = false -> anchor < s <= applied /\ applied < target /\ held all s /\
    (forall n, anchor < n < s -> ~ held all n) /\ replayed content d (flush chunks cur) = zrange s applied
}.

(** The sequences still to come are past [anchor] or this file starts the run. *)
Definition next_start (anchor applied mn s : Z) (first : bool) : Z :=
  if first then Z.max mn (anchor + 1) else s.

(** Replaying a file's part past [applied] extends the run. *)
Lemma extend_run anchor target all applied first chunks cur s mn hi more :
  loop_inv anchor target all applied first chunks cur s -> (first = false -> mn <= applied + 1) ->
  applied <= hi -> more = zrange (Z.max mn (applied + 1)) hi ->
  replayed content d (flush chunks cur) ++ more = zrange (next_start anchor applied mn s first) hi.
Proof.
  intros [Hc Hf Hs] Hmn Hhi ->. unfold next_start. destruct first.
  - destruct (Hf eq_refl) as (-> & -> & ->). done.
  - destruct (Hs eq_refl) as (? & _ & _ & _ & ->). specialize (Hmn eq_refl).
    rewrite Z.max_r by lia. apply zrange_app; lia.
Qed.

Lemma target_chunks_replayed anchor target all applied first chunks cur s f mn mx :
  file_ok f -> domainFileStats (pf_Boundaries f) d = Some (mn, mx) ->
  loop_inv anchor target all applied first chunks cur s -> (first = false -> mn <= applied + 1) ->
  applied < mx -> target <= mx -> applied <= target ->
  replayed content d (target_chunks f d applied target (mn <=? applied) first chunks cur) =
  zrange (next_start anchor applied mn s first) target.
Proof.
  intros Hf Hstats Hinv Hmn Hmx Ht Hat.
  destruct (file_ok_stats f mn mx Hf Hstats) as (E & Hr & _).
  assert (0 <= pf_EndPos f) as Hend by apply Hf.
  unfold target_chunks.
  set (stop := match firstAfterInFile (pf_Boundaries f) d target with Some p => Some p | None => _ end).
  assert (default 0 stop = match firstAfterInFile (pf_Boundaries f) d target with
                           | Some p => p | None => pf_EndPos f end) as Hstop.
  { unfold stop. destruct (firstAfterInFile _ d target); [done|]. destruct (Z.ltb_spec 0 (pf_EndPos f)); cbn; lia. }
  destruct (chunk_seqs f applied target mn mx _ Hf E eq_refl) as [Hpart Hall].
  rewrite <- Hstop in Hpart, Hall. rewrite Z.min_r in Hpart, Hall by lia.
  destruct (firstAfter_some f applied mn mx Hf E ltac:(lia) Hmx) as [p Hp]. rewrite Hp in Hpart. cbn in Hpart.
  assert (replayed content d (flush chunks cur ++ [mkReplayChunk [pf_Path f]
      (if (mn <=? applied) || first then default 0 (firstAfterInFile (pf_Boundaries f) d applied) else 0)
      (default 0 stop)]) = zrange (next_start anchor applied mn s first) target) as Hnew.
  { rewrite replayed_app, replayed_file. eapply extend_run; [done..|]. rewrite Hp. cbn.
    destruct (Z.leb_spec mn applied); cbn; [done|]. destruct first; [done|].
    change (from_pos 0 (content (pf_Path f))) with (content (pf_Path f)). rewrite Hall.
    specialize (Hmn eq_refl). f_equal. lia. }
  destruct stop as [q|] eqn:Es; [done|]. destruct cur as [c|]; [|done].
  destruct (mn <=? applied) eqn:Eo; [done|]. clear Hnew.
  unfold stop in Es. destruct (firstAfterInFile (pf_Boundaries f) d target) as [?|] eqn:En; [done|].
  assert (pf_EndPos f = 0) as Hz by (destruct (Z.ltb_spec 0 (pf_EndPos f)); [done|lia]).
  assert (mx = target) as ->.
  { destruct (Z.le_gt_cases mx target); [lia|].
    destruct (firstAfter_some f target mn mx Hf E ltac:(lia) ltac:(lia)) as [? ?]. congruence. }
  destruct (li_cur _ _ _ _ _ _ _ _ Hinv c eq_refl) as [Hne _].
  rewrite replayed_app, replayed_add, app_assoc, <- replayed_app by done.
  change (chunks ++ [c]) with (flush chunks (Some c)). eapply extend_run; [done..|].
  rewrite (file_whole f mn target Hf E Hz). boolp.
  destruct first; [by destruct (li_first _ _ _ _ _ _ _ _ Hinv eq_refl) as (_ & _ & [=])|].
  specialize (Hmn eq_refl). f_equal. lia.
Qed.

(** One file below the target keeps the invariant. *)
Lemma loop_step anchor target all applied first chunks cur s f mn mx chunks' cur' :
  f ∈ all -> (forall g n, g ∈ all -> anchor < n < Z.max mn (anchor + 1) -> first = true -> n ∉ seqs d (pf_Boundaries g)) ->
  file_ok f -> domainFileStats (pf_Boundaries f) d = Some (mn, mx) ->
  loop_inv anchor target all applied first chunks cur s -> (first = false -> mn <= applied + 1) ->
  applied < mx -> mx < target ->
  (if 0 <? pf_EndPos f
   then (chunks', cur') = (flush chunks cur ++ [mkReplayChunk [pf_Path f]
           (default 0 (firstAfterInFile (pf_Boundaries f) d applied)) (pf_EndPos f)], None)
   else match cur, mn <=? applied with
        | Some c, false => (chunks', cur') = (chunks, Some (add_file c (pf_Path f)))
        | _, _ => (chunks', cur') = (flush chunks cur, Some (mkReplayChunk [pf_Path f]
                    (default 0 (firstAfterInFile (pf_Boundaries f) d applied)) 0))
        end) ->
  loop_inv anchor target all mx false chunks' cur' (next_start anchor applied mn s first).
Proof.
  intros Hin Hbelow Hf Hstats Hinv Hmn Hmx Ht Hcase.
  destruct (file_ok_stats f mn mx Hf Hstats) as (E & Hr & _).
  assert (0 <= pf_EndPos f) as Hend by apply Hf.
  assert (replayed content d (flush chunks' cur') = zrange (next_start anchor applied mn s first) mx /\
    forall c, cur' = Some c -> rc_Files c <> [] /\ rc_StopPosition c = 0) as [Hrep Hcur].
  { destruct (Z.ltb_spec 0 (pf_EndPos f)) as [He|He].
    - injection Hcase as -> ->. split; [|done]. unfold flush at 1. rewrite replayed_app.
      eapply extend_run; [done..|lia|]. by apply file_from; try lia.
    - assert (pf_EndPos f = 0) as Hz by lia.
      assert ((chunks', cur') = (flush chunks cur, Some (mkReplayChunk [pf_Path f]
          (default 0 (firstAfterInFile (pf_Boundaries f) d applied)) 0)) \/
        exists c, cur = Some c /\ applied < mn /\ (chunks', cur') = (chunks, Some (add_file c (pf_Path f))))
        as [[= -> ->]|(c & -> & Hno & [= -> ->])].
      { destruct cur as [c|]; [|by left]. destruct (Z.leb_spec mn applied); [by left|]. right. eauto. }
      + split; [|by intros c [= <-]]. unfold flush at 1.
        rewrite replayed_app. eapply extend_run; [done..|lia|].
        rewrite <- Hz at 2. by apply file_from; try lia.
      + destruct (li_cur _ _ _ _ _ _ _ _ Hinv c eq_refl) as [Hne Hstop].
        split; [|intros x [= <-]; cbn; split; [by destruct (rc_Files c)|done]].
        cbn [flush]. rewrite replayed_app, replayed_add, app_assoc, <- replayed_app by done.
        change (chunks ++ [c]) with (flush chunks (Some c)). eapply extend_run; [done..|lia|].
        rewrite (file_whole f mn mx Hf E Hz).
        destruct first; [by destruct (li_first _ _ _ _ _ _ _ _ Hinv eq_refl) as (_ & _ & [=])|].
        specialize (Hmn eq_refl). f_equal. lia. }
  split; [done|done|]. intros _. unfold next_start in *. destruct first.
  - destruct (li_first _ _ _ _ _ _ _ _ Hinv eq_refl) as (-> & _ & _). split_and!; try lia; [| |done].
    + exists f. split; [done|]. rewrite E. apply elem_of_zrange. lia.
    + intros n Hn (g & Hg & Hng). by apply (Hbelow g n Hg Hn eq_refl) in Hng.
  - destruct (li_start _ _ _ _ _ _ _ _ Hinv eq_refl) as (? & ? & ? & ? & _). split_and!; try lia; done.
Qed.

Lemma leb_min f g mn mx n :
  domain_leb d f g = true -> domainFileStats (pf_Boundaries f) d = Some (mn, mx) ->
  n ∈ seqs d (pf_Boundaries g) -> mn <= n.
Proof.
  unfold domain_leb. intros H Hf Hn. rewrite Hf in H. pose proof (domainFileStats_spec (pf_Boundaries g) d) as Hs.
  destruct (domainFileStats (pf_Boundaries g) d) as [[lo hi]|].
  - destruct Hs as (_ & _ & Hall). specialize (Hall n Hn). boolp. lia.
  - rewrite Hs in Hn. by apply not_elem_of_nil in Hn.
Qed.

Lemma chunk_loop_spec anchor target all rest : forall (before : list PositionalFile) applied first chunks cur s,
  0 <= anchor <= target ->
  (forall f, f ∈ all <-> f ∈ before \/ f ∈ rest) -> Forall file_ok all ->
  StronglySorted (fun a b => domain_leb d a b = true) rest ->
  (forall f n, f ∈ before -> n ∈ seqs d (pf_Boundaries f) -> n <= applied) ->
  (exists n, held all n /\ target <= n) ->
  loop_inv anchor target all applied first chunks cur s ->
  match chunk_loop rest d target applied first chunks cur with
  | Ok out => exists s', anchor < s' /\ replayed content d out = zrange s' target /\
      forall n, anchor < n < s' -> ~ held all n
  | Err ErrForkedTimeline => exists g, anchor < g <= target /\ ~ held all g /\
      exists n, anchor < n < g /\ held all n
  | Err _ => False
  end.
Proof.
  induction rest as [|f rest IH]; intros before applied first chunks cur s Hat Hall Hok Hsorted Hdone Hreach Hinv.
  - cbn. destruct Hreach as (n & (f & Hf & Hn) & Htn). apply Hall in Hf as [Hf|?%not_elem_of_nil]; [|done].
    specialize (Hdone _ _ Hf Hn). destruct first.
    + destruct (li_first _ _ _ _ _ _ _ _ Hinv eq_refl) as (-> & -> & ->). exists (anchor + 1).
      split_and!; [lia|by rewrite zrange_nil by lia|lia].
    + destruct (li_start _ _ _ _ _ _ _ _ Hinv eq_refl) as (_ & ? & _). lia.
  - apply StronglySorted_inv in Hsorted as [Hsorted Hmin]. rewrite Forall_forall in Hmin.
    assert (f ∈ all) as Hfa by (apply Hall; right; by left).
    assert (file_ok f) as Hf by (by eapply Forall_forall in Hok).
    assert (anchor <= applied /\ (first = false -> applied < target) /\ applied <= target) as (Haa & Hlt & Hat').
    { destruct first.
      - destruct (li_first _ _ _ _ _ _ _ _ Hinv eq_refl) as (-> & _). split_and!; [lia|done|lia].
      - destruct (li_start _ _ _ _ _ _ _ _ Hinv eq_refl) as (? & ? & _). split_and!; [lia|done|lia]. }
    assert (forall x, x ∈ all <-> x ∈ f :: before \/ x ∈ rest) as Hall'.
    { intros x. rewrite Hall, !elem_of_cons. tauto. }
    cbn [chunk_loop].
    pose proof (domainFileStats_spec (pf_Boundaries f) d) as Hspec.
    destruct (domainFileStats (pf_Boundaries f) d) as [[mn mx]|] eqn:Hstats.
    2: { apply (IH (f :: before) applied first chunks cur s); try done.
         intros g n [->|Hg]%elem_of_cons Hn; [|eauto]. rewrite Hspec in Hn. by apply not_elem_of_nil in Hn. }
    destruct Hspec as (Hmn & Hmx & Hrange).
    destruct (file_ok_stats f mn mx Hf Hstats) as (E & Hr & Hmax).
    destruct (Z.leb_spec mx applied) as [Hskip|Hnew].
    { apply (IH (f :: before) applied first chunks cur s); try done.
      intros g n [->|Hg]%elem_of_cons Hn; [|eauto]. specialize (Hrange n Hn). lia. }
    assert (forall n, applied < n < mn -> ~ held all n) as Hbelow.
    { intros n Hn (g & Hg & Hng). apply Hall' in Hg as [[->|Hg]%elem_of_cons|Hg].
      - specialize (Hrange n Hng). lia.
      - specialize (Hdone _ _ Hg Hng). lia.
      - pose proof (leb_min f g mn mx n (Hmin _ Hg) Hstats Hng). lia. }
    rewrite u64_id by lia.
    destruct (negb first && negb (mn <=? applied) && (applied + 1 <? mn)) eqn:Egap.
    { boolp. subst first. destruct (li_start _ _ _ _ _ _ _ _ Hinv eq_refl) as (? & ? & ? & _).
      exists (applied + 1). split; [lia|]. split; [apply Hbelow; lia|]. exists s. split; [lia|done]. }
    assert (first = false -> mn <= applied + 1) as Hcont.
    { intros ->. cbn in Egap. apply andb_false_iff in Egap as [?|?]; boolp; lia. }
    assert (first = true -> forall n, anchor < n < Z.max mn (anchor + 1) -> ~ held all n) as Hfirst.
    { intros -> n Hn. destruct (li_first _ _ _ _ _ _ _ _ Hinv eq_refl) as (-> & _). apply Hbelow. lia. }
    destruct (Z.leb_spec target mx) as [Htarget|Hbelow_t].
    { exists (next_start anchor applied mn s first).
      rewrite (target_chunks_replayed anchor target all applied first chunks cur s f mn mx) by done.
      unfold next_start. destruct first.
      - split_and!; [lia|done|]. by apply Hfirst.
      - destruct (li_start _ _ _ _ _ _ _ _ Hinv eq_refl) as (? & ? & ? & ? & _). split_and!; [lia|done..]. }
    assert (forall g n, g ∈ all -> anchor < n < Z.max mn (anchor + 1) -> first = true -> n ∉ seqs d (pf_Boundaries g)) as Hno.
    { intros g n Hg Hn Hft Hng. apply (Hfirst Hft n Hn). by exists g. }
    assert (forall chunks' cur',
      loop_inv anchor target all mx false chunks' cur' (next_start anchor applied mn s first) ->
      match chunk_loop rest d target mx false chunks' cur' with
      | Ok out => exists s', anchor < s' /\ replayed content d out = zrange s' target /\
          forall n, anchor < n < s' -> ~ held all n
      | Err ErrForkedTimeline => exists g, anchor < g <= target /\ ~ held all g /\
          exists n, anchor < n < g /\ held all n
      | Err _ => False
      end) as Hrec.
    { intros chunks' cur' Hinv'. eapply (IH (f :: before)); try done.
      intros g n [->|Hg]%elem_of_cons Hn; [specialize (Hrange n Hn); lia|]. specialize (Hdone _ _ Hg Hn). lia. }
    pose proof (fun chunks' cur' => loop_step anchor target all applied first chunks cur s f mn mx chunks' cur'
      Hfa Hno Hf Hstats Hinv Hcont Hnew Hbelow_t) as Hstep.
    destruct (0 <? pf_EndPos f); [by apply Hrec, Hstep|].
    destruct cur as [c|]; [destruct (mn <=? applied)|]; by apply Hrec, Hstep.
Qed.

Lemma domain_leb_total a b : domain_leb d a b = false -> domain_leb d b a = true.
Proof.
  unfold domain_leb. destruct (domainFileStats (pf_Boundaries a) d) as [[]|], (domainFileStats (pf_Boundaries b) d) as [[]|]; try done.
  intros H. boolp. apply negb_true_iff, Z.ltb_ge. lia.
Qed.

Lemma domain_leb_trans a b c : domain_leb d a b = true -> domain_leb d b c = true -> domain_leb d a c = true.
Proof.
  unfold domain_leb. destruct (domainFileStats (pf_Boundaries a) d) as [[]|], (domainFileStats (pf_Boundaries b) d) as [[]|],
    (domainFileStats (pf_Boundaries c) d) as [[]|]; try done.
  intros H1 H2. boolp. apply negb_true_iff, Z.ltb_ge. lia.
Qed.

Lemma HighestMariadbSeq_spec files :
  match HighestMariadbSeq files d with
  | None => forall n, ~ held files n
  | Some h => held files h /\ forall n, held files n -> n <= h
  end.
Proof.
  unfold HighestMariadbSeq.
  set (step := fun highest f => match domainFileStats (pf_Boundaries f) d with
    | Some (_, maxSeq) => match highest with None => Some maxSeq | Some h => if h <? maxSeq then Some maxSeq else highest end
    | None => highest end).
  assert (forall l pre acc,
    match acc with None => forall n, ~ held pre n | Some h => held pre h /\ forall n, held pre n -> n <= h end ->
    match foldl step acc l with
    | None => forall n, ~ held (pre ++ l) n
    | Some h => held (pre ++ l) h /\ forall n, held (pre ++ l) n -> n <= h
    end) as H.
  { induction l as [|f l IH]; intros pre acc Hacc; [by rewrite app_nil_r|]. cbn [foldl].
    replace (pre ++ f :: l) with ((pre ++ [f]) ++ l) by (by rewrite <- app_assoc). apply IH. unfold step.
    assert (forall n, held (pre ++ [f]) n <-> held pre n \/ n ∈ seqs d (pf_Boundaries f)) as Happ.
    { intros n. unfold held. setoid_rewrite elem_of_app. setoid_rewrite list_elem_of_singleton. naive_solver. }
    pose proof (domainFileStats_spec (pf_Boundaries f) d) as Hs.
    destruct (domainFileStats (pf_Boundaries f) d) as [[lo hi]|].
    - destruct Hs as (_ & Hhi & Hr). destruct acc as [h|].
      + destruct Hacc as [Hh Hall]. destruct (Z.ltb_spec h hi).
        * rewrite Happ. split; [by right|]. intros n [Hn|Hn]%Happ; [specialize (Hall n Hn)|specialize (Hr n Hn)]; lia.
        * rewrite Happ. split; [by left|]. intros n [Hn|Hn]%Happ; [specialize (Hall n Hn)|specialize (Hr n Hn)]; lia.
      + rewrite Happ. split; [by right|]. intros n [Hn|Hn]%Happ; [by apply Hacc in Hn|]. specialize (Hr n Hn). lia.
    - assert (forall n, held (pre ++ [f]) n <-> held pre n) as Heq.
      { intros n. rewrite Happ, Hs. split; [intros [?|?%not_elem_of_nil]; done|by left]. }
      destruct acc as [h|]; [|intros n; by rewrite Heq]. rewrite Heq. split; [apply Hacc|].
      intros n. rewrite Heq. apply Hacc. }
  apply (H files [] None). intros n (f & []%not_elem_of_nil & _).
Qed.

Lemma PlanMariadbPositionalFiles_spec files anchor target :
  0 <= anchor -> Forall file_ok files ->
  match PlanMariadbPositionalFiles files d anchor target with
  | Ok chunks => exists s, anchor < s /\ replayed content d chunks = zrange s target /\
      forall n, anchor < n < s -> ~ held files n
  | Err ErrTargetBeyondArchive => forall n, held files n -> n < target
  | Err ErrTargetBeforeBackup => target < anchor
  | Err ErrForkedTimeline => exists g, anchor < g <= target /\ ~ held files g /\
      exists n, anchor < n < g /\ held files n
  | Err _ => False
  end.
Proof.
  intros Ha Hok. unfold PlanMariadbPositionalFiles. pose proof (HighestMariadbSeq_spec files) as Hh.
  destruct (HighestMariadbSeq files d) as [h|]; [|intros n Hn; by apply Hh in Hn].
  destruct Hh as [Hheld Hmax].
  destruct (Z.ltb_spec h target) as [Hlt|Hge]; [intros n Hn; specialize (Hmax n Hn); lia|].
  destruct (Z.ltb_spec target anchor) as [|Hta]; [done|].
  unfold sortFilesByDomainSeq. set (sorted := isort (domain_leb d) files).
  assert (forall f, f ∈ sorted <-> f ∈ files) as Hperm by (intros f; unfold sorted; by rewrite isort_perm).
  assert (forall n, held sorted n <-> held files n) as Hheld' by (intros n; unfold held; by setoid_rewrite Hperm).
  assert (loop_inv anchor target sorted anchor true [] None 0) as Hinv by (split; done).
  assert (exists n, held sorted n /\ target <= n) as Hreach by (exists h; by rewrite Hheld').
  pose proof (chunk_loop_spec anchor target sorted sorted [] anchor true [] None 0 ltac:(lia) ltac:(set_solver)
    ltac:(unfold sorted; by rewrite isort_perm)
    ltac:(apply isort_sorted; [apply domain_leb_total|apply domain_leb_trans])
    ltac:(by intros f n []%not_elem_of_nil) Hreach Hinv) as H.
  destruct (chunk_loop _ _ _ _ _ _ _) as [chunks|[]]; try done; by setoid_rewrite Hheld' in H.
Qed.
End Chunks.

(** ** Authors *)

(** A transaction of the domain past the anchor. *)
Definition relevant (d anchor : Z) (b : TxnBoundary) : Prop := tb_Domain b = d /\ anchor < tb_Seq b.

Lemma author_step_eq d anchor m b :
  author_step d anchor m b =
  if bool_decide (relevant d anchor b) then
    match m !! tb_Seq b with
    | Some s => if bool_decide (s = tb_Server b) then Ok m else Err ErrForkedTimeline
    | None => Ok (<[tb_Seq b := tb_Server b]> m)
    end
  else Ok m.
Proof.
  unfold author_step, relevant. case_bool_decide as Hr.
  - destruct (Z.eqb_spec (tb_Domain b) d), (Z.leb_spec (tb_Seq b) anchor); cbn; try lia.
    destruct (m !! tb_Seq b) as [s|] eqn:E; [|done]. case_bool_decide as Es.
    + subst s. rewrite Z.eqb_refl. cbn. by rewrite insert_id.
    + destruct (Z.eqb_spec s (tb_Server b)); done.
  - destruct (Z.eqb_spec (tb_Domain b) d), (Z.leb_spec (tb_Seq b) anchor); cbn; try done. destruct Hr. lia.
Qed.

Lemma author_loop_spec d anchor l m seen :
  (forall n s, m !! n = Some s <-> exists b, b ∈ seen /\ relevant d anchor b /\ tb_Seq b = n /\ tb_Server b = s) ->
  match fold_result (author_step d anchor) m l with
  | Ok _ => forall b b', b ∈ seen ++ l -> b' ∈ seen ++ l -> relevant d anchor b -> relevant d anchor b' ->
      tb_Seq b = tb_Seq b' -> tb_Server b = tb_Server b'
  | Err e => e = ErrForkedTimeline /\ exists b b', b ∈ seen ++ l /\ b' ∈ seen ++ l /\
      relevant d anchor b /\ relevant d anchor b' /\ tb_Seq b = tb_Seq b' /\ tb_Server b <> tb_Server b'
  end.
Proof.
  revert m seen. induction l as [|b l IH]; intros m seen Hm; cbn [fold_result].
  - rewrite app_nil_r. intros b b' Hb Hb' Hr Hr' E.
    assert (m !! tb_Seq b = Some (tb_Server b)) as H1 by (apply Hm; eauto).
    assert (m !! tb_Seq b' = Some (tb_Server b')) as H2 by (apply Hm; eauto). congruence.
  - replace (seen ++ b :: l) with ((seen ++ [b]) ++ l) by (by rewrite <- app_assoc).
    rewrite author_step_eq. case_bool_decide as Hr; cbn.
    2: { apply IH. intros n s. rewrite Hm, exists_snoc. tauto. }
    destruct (m !! tb_Seq b) as [s0|] eqn:E0; [case_bool_decide as Es|]; cbn.
    + apply IH. intros n s. rewrite Hm, exists_snoc. split; [by left|].
      intros [?|(_ & <- & <-)]; [done|]. subst. by apply Hm in E0.
    + split; [done|]. apply Hm in E0 as (x & Hx & Hrx & E1 & E2). exists x, b.
      split_and!; [set_solver|set_solver|done..|congruence].
    + apply IH. intros n s. rewrite lookup_insert, exists_snoc. case_decide as Ed.
      * subst n. split; [intros [= <-]; by right|].
        intros [(x & Hx & Hrx & E1 & <-)|(_ & _ & <-)]; [|done].
        assert (m !! tb_Seq b = Some (tb_Server x)) by (apply Hm; eauto). congruence.
      * rewrite Hm. split; [by left|]. intros [?|(_ & ? & _)]; done.
Qed.

Lemma CheckMariadbAuthors_iff files d anchor :
  (CheckMariadbAuthors files d anchor = Ok tt <->
   forall b b', b ∈ all_boundaries files -> b' ∈ all_boundaries files -> relevant d anchor b -> relevant d anchor b' ->
     tb_Seq b = tb_Seq b' -> tb_Server b = tb_Server b') /\
  (CheckMariadbAuthors files d anchor = Ok tt \/ CheckMariadbAuthors files d anchor = Err ErrForkedTimeline).
Proof.
  unfold CheckMariadbAuthors.
  pose proof (author_loop_spec d anchor (all_boundaries files) ∅ []) as H. cbn [app] in H.
  destruct (fold_result _ ∅ _) as [m|e]; cbn.
  - split; [|by left]. split; [|done]. intros _. apply H. intros n s. rewrite lookup_empty. set_solver.
  - destruct H as [-> (b & b' & Hb & Hb' & Hr & Hr' & E & Hne)].
    { intros n s. rewrite lookup_empty. set_solver. }
    split; [|by right]. split; [done|]. intros Hall. destruct Hne. by apply Hall.
Qed.

(** ** The sequence a time target stops at *)

(** A transaction past the anchor stamped at or after the target. *)
Definition late (d anchor : Z) (target : Time) (b : TxnBoundary) : Prop :=
  tb_Domain b = d /\ anchor < tb_Seq b /\ tb_Time b <> 0 /\ target <= tb_Time b.

Lemma first_late_spec d anchor target l first0 :
  let first := foldl (fun first b =>
    if (tb_Domain b =? d) && (anchor <? tb_Seq b) && negb (IsZero (tb_Time b))
       && negb (tb_Time b <? target) && (tb_Seq b <? first) then tb_Seq b else first) first0 l in
  first <= first0 /\ (forall b, b ∈ l -> late d anchor target b -> first <= tb_Seq b) /\
  (first = first0 \/ exists b, b ∈ l /\ late d anchor target b /\ tb_Seq b = first).
Proof.
  revert first0. induction l as [|b l IH]; intros first0; cbn [foldl]; [set_solver by lia|].
  set (f1 := if _ && _ then _ else _). destruct (IH f1) as (H1 & H2 & H3). cbn zeta in *.
  assert (f1 <= first0 /\ (late d anchor target b -> f1 <= tb_Seq b) /\
          (f1 = first0 \/ late d anchor target b /\ f1 = tb_Seq b)) as (F1 & F2 & F3).
  { unfold f1, late, IsZero. destruct (Z.eqb_spec (tb_Domain b) d), (Z.ltb_spec anchor (tb_Seq b)),
      (Z.eqb_spec (tb_Time b) 0), (Z.ltb_spec (tb_Time b) target), (Z.ltb_spec (tb_Seq b) first0); cbn; lia. }
  split_and!; [lia| |].
  - intros x [->|Hx]%elem_of_cons Hl; [specialize (F2 Hl); lia|auto].
  - destruct H3 as [E|(x & Hx & Hl & E)]; [|right; exists x; split; [by right|done]].
    destruct F3 as [F3|[Hl F3]]; [left; congruence|]. right. exists b. split; [by left|]. split; [done|congruence].
Qed.

Lemma last_before_spec d l first before0 :
  let before := foldl (fun before b =>
    if (tb_Domain b =? d) && (before <? tb_Seq b) && (tb_Seq b <? first) then tb_Seq b else before) before0 l in
  before0 <= before /\ (forall b, b ∈ l -> tb_Domain b = d -> tb_Seq b < first -> tb_Seq b <= before) /\
  (before = before0 \/ exists b, b ∈ l /\ tb_Domain b = d /\ tb_Seq b < first /\ tb_Seq b = before).
Proof.
  revert before0. induction l as [|b l IH]; intros before0; cbn [foldl]; [set_solver by lia|].
  set (f1 := if _ && _ then _ else _). destruct (IH f1) as (H1 & H2 & H3). cbn zeta in *.
  assert (before0 <= f1 /\ (tb_Domain b = d -> tb_Seq b < first -> tb_Seq b <= f1) /\
          (f1 = before0 \/ tb_Domain b = d /\ tb_Seq b < first /\ f1 = tb_Seq b)) as (F1 & F2 & F3).
  { unfold f1. destruct (Z.eqb_spec (tb_Domain b) d), (Z.ltb_spec before0 (tb_Seq b)), (Z.ltb_spec (tb_Seq b) first); cbn; lia. }
  split_and!; [lia| |].
  - intros x [->|Hx]%elem_of_cons Hd Hf; [specialize (F2 Hd Hf); lia|auto].
  - destruct H3 as [E|(x & Hx & Hl)]; [|right; exists x; split; [by right|done]].
    destruct F3 as [F3|(Hd & Hf & F3)]; [left; congruence|]. right. exists b. split; [by left|]. split_and!; [done|done|congruence].
Qed.

Lemma held_boundary files d n :
  held d files n <-> exists b, b ∈ all_boundaries files /\ tb_Domain b = d /\ tb_Seq b = n.
Proof.
  unfold held, all_boundaries, seqs. split.
  - intros (f & Hf & (b & -> & Hb%list_elem_of_In)%list_elem_of_fmap). apply filter_In in Hb as [Hb Hd]. boolp.
    exists b. split; [|done]. apply list_elem_of_bind. exists f. split; [by apply list_elem_of_In|done].
  - intros (b & (f & Hb & Hf)%list_elem_of_bind & Hd & <-). exists f. split; [done|].
    apply list_elem_of_fmap. exists b. split; [done|]. apply list_elem_of_In, filter_In.
    split; [by apply list_elem_of_In|lia].
Qed.

Lemma seqBeforeTime_spec files d anchor highest target :
  0 <= highest < MaxUint64 -> (forall n, held d files n -> n <= highest) ->
  let r := seqBeforeTime files d anchor highest target in
  anchor <= r /\ (r = anchor \/ held d files r) /\
  (forall b, b ∈ all_boundaries files -> late d anchor target b -> r < tb_Seq b) /\
  (forall n, held d files n ->
     (forall b, b ∈ all_boundaries files -> late d anchor target b -> n < tb_Seq b) -> n <= r).
Proof.
  intros Hh Hmax. unfold seqBeforeTime. rewrite u64_id by lia.
  set (l := all_boundaries files).
  pose proof (first_late_spec d anchor target l (highest + 1)) as Hfirst. cbn zeta in Hfirst.
  set (first := foldl _ (highest + 1) l) in *. destruct Hfirst as (F1 & F2 & F3).
  pose proof (last_before_spec d l first anchor) as Hlast. cbn zeta in Hlast.
  set (r := foldl _ anchor l) in *. destruct Hlast as (L1 & L2 & L3).
  split_and!; [done| | |].
  - destruct L3 as [?|(b & Hb & Hd & _ & E)]; [by left|right]. apply held_boundary. eauto.
  - intros b Hb Hl. specialize (F2 b Hb Hl). destruct L3 as [E|(x & _ & _ & ? & E)]; [|lia].
    destruct Hl as (_ & ? & _). lia.
  - intros n Hn Hbefore. pose proof (Hmax n Hn). apply held_boundary in Hn as (b & Hb & Hd & <-).
    apply L2; [done..|]. destruct F3 as [->|(x & Hx & Hl & <-)]; [lia|by apply Hbefore].
Qed.

(** ** Cutting forks *)

Lemma split_dead_spec l d cut kept first :
  split_dead l d cut = (kept, first) ->
  (forall n, n ∈ seqs d kept -> n <= cut) /\
  match first with
  | None => kept = l
  | Some b => tb_Domain b = d /\ cut < tb_Seq b /\ exists rest, l = kept ++ b :: rest
  end.
Proof.
  revert kept first. induction l as [|b l IH]; intros kept first; cbn.
  - intros [= <- <-]. split; [|done]. intros n []%not_elem_of_nil.
  - destruct (_ && _) eqn:E.
    + intros [= <- <-]. boolp. split; [intros n []%not_elem_of_nil|]. split_and!; [done..|]. by exists l.
    + destruct (split_dead l d cut) as [k f]. intros [= <- <-]. destruct (IH k f eq_refl) as [H1 H2]. split.
      * rewrite seqs_cons. intros n Hn. apply andb_false_iff in E.
        destruct (Z.eqb_spec (tb_Domain b) d); [|auto]. apply elem_of_cons in Hn as [->|Hn]; [|auto].
        destruct E; boolp; [done|lia].
      * destruct f as [x|]; [|by rewrite H2]. destruct H2 as (? & ? & rest & ->). split_and!; [done..|]. by exists rest.
Qed.

(** [f'] is what the cut leaves of [f]. *)
Definition cut_of (d : Z) (cuts : gmap string Z) (f f' : PositionalFile) : Prop :=
  pf_Path f' = pf_Path f /\ pf_Segment f' = pf_Segment f /\
  match cuts !! pf_Segment f with
  | None => f' = f
  | Some cut =>
      (forall n, n ∈ seqs d (pf_Boundaries f') -> n <= cut) /\
      (f' = f \/ exists b rest, pf_Boundaries f = pf_Boundaries f' ++ b :: rest /\
         pf_EndPos f' = tb_StartPos b /\ tb_Domain b = d /\ cut < tb_Seq b)
  end.

Lemma cut_files_spec files cuts d ex f' :
  f' ∈ cut_files files cuts d ex -> exists f, f ∈ files /\ cut_of d cuts f f'.
Proof.
  revert ex. induction files as [|f files IH]; intros ex; cbn; [by intros ?%not_elem_of_nil|].
  assert (forall ex, f' ∈ cut_files files cuts d ex -> exists f0, f0 ∈ f :: files /\ cut_of d cuts f0 f') as IH'.
  { intros ex' H. destruct (IH ex' H) as (f0 & ? & ?). exists f0. split; [by right|done]. }
  assert (cut_of d cuts f f' -> exists f0, f0 ∈ f :: files /\ cut_of d cuts f0 f') as Hf
    by (intros; exists f; split; [by left|done]).
  destruct (cuts !! pf_Segment f) as [cut|] eqn:Ec.
  2: { intros [->|?]%elem_of_cons; [|eauto]. apply Hf. unfold cut_of. by rewrite Ec. }
  case_bool_decide; [eauto|]. destruct (split_dead (pf_Boundaries f) d cut) as [kept [b|]] eqn:Es;
    apply split_dead_spec in Es as [Hle Hs].
  - destruct (domainFileStats kept d); [|eauto]. intros [->|?]%elem_of_cons; [|eauto]. apply Hf.
    unfold cut_of. cbn. rewrite Ec. split_and!; [done..|]. right.
    destruct Hs as (? & ? & rest & ?). exists b, rest. done.
  - intros [->|?]%elem_of_cons; [|eauto]. apply Hf. unfold cut_of. rewrite Ec. subst kept. split_and!; [done..|by left].
Qed.

(** A segment no cut applies to keeps all its files. *)
Lemma cut_files_keeps files cuts d ex f :
  f ∈ files -> cuts !! pf_Segment f = None -> f ∈ cut_files files cuts d ex.
Proof.
  revert ex. induction files as [|g files IH]; intros ex; cbn; [by intros ?%not_elem_of_nil|].
  intros [->|Hf]%elem_of_cons Hc; [by rewrite Hc; left|].
  destruct (cuts !! pf_Segment g); [|right; auto]. case_bool_decide; [auto|].
  destruct (split_dead _ _ _) as [kept [b|]]; [|right; auto]. destruct (domainFileStats kept d); [right|]; auto.
Qed.

Lemma zrange_prefix lo hi x y z : zrange lo hi = x ++ y :: z -> x = zrange lo (y - 1).
Proof.
  revert lo. induction x as [|a x IH]; intros lo E; cbn in E.
  - destruct (Z.le_gt_cases lo hi); [|by rewrite zrange_nil in E by lia].
    rewrite zrange_cons in E by lia. injection E as -> _. by rewrite zrange_nil by lia.
  - destruct (Z.le_gt_cases lo hi); [|by rewrite zrange_nil in E by lia].
    rewrite zrange_cons in E by lia. injection E as -> E.
    assert (y ∈ zrange (a + 1) hi) as Hy by (rewrite E; set_solver).
    apply elem_of_zrange in Hy. rewrite (IH _ E). rewrite (zrange_cons a) by lia. done.
Qed.

Lemma sorted_prefix_to_pos kept b rest :
  pos_sorted (kept ++ b :: rest) -> 0 < tb_StartPos b -> to_pos (tb_StartPos b) (kept ++ b :: rest) = kept.
Proof.
  intros Hs Hb. unfold to_pos. rewrite (proj2 (Z.ltb_lt _ _) Hb).
  induction kept as [|x kept IH]; cbn in *.
  - rewrite Z.ltb_irrefl. apply StronglySorted_inv in Hs as [_ Hall]. rewrite Forall_forall in Hall.
    assert (List.filter (fun b0 => tb_StartPos b0 <? tb_StartPos b) rest = List.filter (fun _ => false) rest) as ->.
    { apply filter_ext_elem. intros x Hx. specialize (Hall x Hx). lia. }
    clear. induction rest; done.
  - apply StronglySorted_inv in Hs as [Hs Hall]. rewrite Forall_forall in Hall.
    assert (tb_StartPos x < tb_StartPos b) as Hx by (apply Hall; set_solver).
    rewrite (proj2 (Z.ltb_lt _ _) Hx). f_equal. by apply IH.
Qed.

(** A cut file is still described by its contents. *)
Lemma cut_of_ok content d cuts f f' :
  file_ok content d f -> pf_EndPos f = 0 -> cut_of d cuts f f' -> file_ok content d f'.
Proof.
  intros Hok Hend (Hp & _ & Hc). destruct (cuts !! pf_Segment f) as [cut|]; [|by subst].
  destruct Hc as [_ [->|(b & rest & HB & He & Hd & _)]]; [done|].
  destruct Hok as (Hs & Hpos & Hcont & _ & lo & hi & Hlo & Hhi & E).
  rewrite Hend in Hcont. change (to_pos 0 ?l) with l in Hcont. rewrite <- Hcont in Hs, Hpos.
  unfold file_ok. rewrite Hp, <- Hcont, He, HB. rewrite HB in Hs, Hpos, E.
  assert (0 < tb_StartPos b) as Hb by (apply Hpos; set_solver).
  split_and!; [done|done|by rewrite sorted_prefix_to_pos|lia|].
  exists lo, (tb_Seq b - 1). rewrite seqs_app, seqs_cons, Hd, Z.eqb_refl in E.
  assert (tb_Seq b ∈ zrange lo hi) as Hin by (rewrite <- E; set_solver). apply elem_of_zrange in Hin.
  split_and!; [done|lia|]. by eapply zrange_prefix.
Qed.

(** ** A whole MariaDB plan *)

Definition cut_plan (plan : ReplayPlan) (files : list PositionalFile) : list PositionalFile :=
  cut_files files (fork_cuts_of (rp_Segments plan) (rp_MariaDBDomain plan) (rp_MariaDBTarget plan))
    (rp_MariaDBDomain plan) ∅.

Lemma cut_plan_ok content plan files :
  Forall (fun f => file_ok content (rp_MariaDBDomain plan) f /\ pf_EndPos f = 0) files ->
  Forall (file_ok content (rp_MariaDBDomain plan)) (cut_plan plan files).
Proof.
  intros H. rewrite Forall_forall in *. intros f' (f & Hf & Hc)%cut_files_spec.
  destruct (H f Hf) as [? ?]. by eapply cut_of_ok.
Qed.

Lemma PlanMariadbReplay_run content plan files anchor chunks :
  let d := rp_MariaDBDomain plan in
  let cut := cut_plan plan files in
  0 <= anchor -> Forall (fun f => file_ok content d f /\ pf_EndPos f = 0) files ->
  (forall n, held d cut n -> n < MaxUint64) ->
  PlanMariadbReplay plan files anchor = Ok chunks ->
  CheckMariadbAuthors cut d anchor = Ok tt /\
  exists s t, anchor < s /\ replayed content d chunks = zrange s t /\
    (forall n, anchor < n < s -> n <= t -> ~ held d cut n) /\
    (rp_MariaDBTargetSeq plan <> 0 -> t = rp_MariaDBTargetSeq plan) /\
    (rp_MariaDBTargetSeq plan = 0 -> rp_TargetTime plan = 0 -> forall n, held d cut n -> n <= Z.max anchor t) /\
    (rp_MariaDBTargetSeq plan = 0 -> rp_TargetTime plan <> 0 ->
       (forall b, b ∈ all_boundaries cut -> late d anchor (rp_TargetTime plan) b -> t < tb_Seq b) /\
       forall n, held d cut n -> (forall b, b ∈ all_boundaries cut -> late d anchor (rp_TargetTime plan) b -> n < tb_Seq b) ->
         n <= Z.max anchor t).
Proof.
  intros d cut Ha Hok Hmax. unfold PlanMariadbReplay, ApplyMariadbForks. cbn [rbind].
  fold (cut_plan plan files). fold cut. fold d. intros H. apply rbind_Ok in H as ([] & Hauth & H).
  split; [done|]. pose proof (cut_plan_ok content plan files Hok) as Hcut. fold d in Hcut. fold cut in Hcut.
  pose proof (fun target => PlanMariadbPositionalFiles_spec content d cut anchor target Ha Hcut) as Hplan.
  assert (forall b, b ∈ all_boundaries cut -> late d anchor (rp_TargetTime plan) b -> anchor < tb_Seq b) as Hlate
    by (by intros b _ (_ & ? & _)).
  assert (forall target, PlanMariadbPositionalFiles cut d anchor target = Ok chunks -> exists s, anchor < s /\
    replayed content d chunks = zrange s target /\ (forall n, anchor < n < s -> n <= target -> ~ held d cut n)) as Hsome.
  { intros target E. specialize (Hplan target). rewrite E in Hplan. destruct Hplan as (s & ? & ? & Hn).
    exists s. split_and!; [done..|]. intros n Hn' _. by apply Hn. }
  pose proof (HighestMariadbSeq_spec d cut) as Hh.
  destruct (Z.eqb_spec (rp_MariaDBTargetSeq plan) 0) as [E0|E0].
  2: { destruct (Hsome _ H) as (s & ? & ? & ?). exists s, (rp_MariaDBTargetSeq plan). split_and!; done. }
  destruct (HighestMariadbSeq cut d) as [h|].
  2: { injection H as <-. exists (anchor + 1), anchor. rewrite zrange_nil by lia.
       split_and!; [lia|done|lia|done| |split; [auto|]]; intros; by edestruct Hh. }
  destruct Hh as [Hheld Hhmax]. pose proof (Hmax h Hheld) as Hh64.
  destruct (Z.leb_spec h anchor) as [Hle|Hgt].
  { injection H as <-. exists (anchor + 1), anchor. rewrite zrange_nil by lia.
    split_and!; [lia|done|lia|done| |split; [auto|]]; [intros _ _ n Hn|intros n Hn _]; specialize (Hhmax n Hn); lia. }
  unfold IsZero in H. destruct (Z.eqb_spec (rp_TargetTime plan) 0) as [Et|Et]; cbn in H.
  { destruct (Hsome _ H) as (s & ? & ? & ?). exists s, h. split_and!; try done.
    intros _ _ n Hn. specialize (Hhmax n Hn). lia. }
  pose proof (seqBeforeTime_spec cut d anchor h (rp_TargetTime plan) ltac:(lia) Hhmax) as Hb. cbn zeta in Hb.
  destruct Hb as (B1 & _ & B3 & B4).
  destruct (Z.leb_spec (seqBeforeTime cut d anchor h (rp_TargetTime plan)) anchor) as [Hs|Hs].
  { injection H as <-. exists (anchor + 1), anchor. rewrite zrange_nil by lia.
    split_and!; [lia|done|lia|done|done|]. intros _ _. split; [auto|]. intros n Hn Hb. specialize (B4 n Hn Hb). lia. }
  destruct (Hsome _ H) as (s & ? & ? & ?). exists s, (seqBeforeTime cut d anchor h (rp_TargetTime plan)).
  split_and!; try done. intros _ _. split; [done|]. intros n Hn Hb. specialize (B4 n Hn Hb). lia.
Qed.

(** ** Properties *)

(** Planning positional replay over scanned files yields chunks whose
    replay is exactly a run of consecutive sequence numbers, each once and in
    order, up to the target, starting past the anchor with nothing the files hold
    skipped before it; otherwise the target is past everything held, before the
    anchor, or past a hole. *)
Theorem positional_replay_is_exact content d files anchor target :
  0 <= anchor -> Forall (file_ok content d) files ->
  match PlanMariadbPositionalFiles files d anchor target with
  | Ok chunks => exists s, anchor < s /\ replayed content d chunks = zrange s target /\
      forall n, anchor < n < s -> ~ held d files n
  | Err ErrTargetBeyondArchive => forall n, held d files n -> n < target
  | Err ErrTargetBeforeBackup => target < anchor
  | Err ErrForkedTimeline => exists g, anchor < g <= target /\ ~ held d files g /\
      exists n, anchor < n < g /\ held d files n
  | Err _ => False
  end.
Proof. apply PlanMariadbPositionalFiles_spec. Qed.

(** Two files of domain 0 that overlap at 3. *)
Module Scan.

Definition txn (seq pos : Z) : TxnBoundary := mkTxnBoundary 0 1 seq pos (1000 * seq).
Definition content (path : string) : list TxnBoundary :=
  if String.eqb path "b.1" then [txn 1 10; txn 2 20; txn 3 30] else [txn 3 12; txn 4 22; txn 5 32].
Definition files : list PositionalFile :=
  [mkPositionalFile "b.2" "s2" (content "b.2") 0; mkPositionalFile "b.1" "s1" (content "b.1") 0].

End Scan.

Lemma scan_ok : Forall (fun f => file_ok Scan.content 0 f /\ pf_EndPos f = 0) Scan.files.
Proof.
  repeat constructor; cbn; try lia.
  all: try (intros b Hb; repeat (apply elem_of_cons in Hb as [->|Hb]; [cbn; lia|]); by apply not_elem_of_nil in Hb).
  - exists 3, 5. split; [lia|]. split; [unfold MaxUint64; lia|reflexivity].
  - exists 1, 3. split; [lia|]. split; [unfold MaxUint64; lia|reflexivity].
Qed.

Lemma positional_replay_is_exact_witness :
  exists chunks, PlanMariadbPositionalFiles Scan.files 0 1 4 = Ok chunks /\ replayed Scan.content 0 chunks = [2; 3; 4] /\
    exists s, 1 < s /\ replayed Scan.content 0 chunks = zrange s 4.
Proof.
  eexists. split; [vm_compute; reflexivity|]. split; [vm_compute; reflexivity|].
  pose proof (positional_replay_is_exact Scan.content 0 Scan.files 1 4 ltac:(lia)
    ltac:(eapply Forall_impl; [exact scan_ok|]; intros f Hf; exact (proj1 Hf))) as H.
  match goal with |- exists s, _ /\ replayed _ _ ?c = _ =>
    assert (PlanMariadbPositionalFiles Scan.files 0 1 4 = Ok c) as E by (vm_compute; reflexivity) end.
  rewrite E in H. destruct H as (s & H1 & H2 & _). exists s. split; [exact H1|exact H2].
Defined.

(** The author check passes exactly when no sequence number past the anchor
    was written by two servers; otherwise it reports a forked timeline. *)
Theorem author_check_is_exact files d anchor :
  (CheckMariadbAuthors files d anchor = Ok tt <->
   forall b b', b ∈ all_boundaries files -> b' ∈ all_boundaries files -> relevant d anchor b -> relevant d anchor b' ->
     tb_Seq b = tb_Seq b' -> tb_Server b = tb_Server b') /\
  (CheckMariadbAuthors files d anchor = Ok tt \/ CheckMariadbAuthors files d anchor = Err ErrForkedTimeline).
Proof. apply CheckMariadbAuthors_iff. Qed.

(** A time target stops at the greatest held sequence number (or the anchor)
    below every transaction past the anchor that committed at or after it. *)
Theorem time_target_is_tight files d anchor highest target :
  0 <= highest < MaxUint64 -> (forall n, held d files n -> n <= highest) ->
  let r := seqBeforeTime files d anchor highest target in
  anchor <= r /\ (r = anchor \/ held d files r) /\
  (forall b, b ∈ all_boundaries files -> late d anchor target b -> r < tb_Seq b) /\
  (forall n, held d files n ->
     (forall b, b ∈ all_boundaries files -> late d anchor target b -> n < tb_Seq b) -> n <= r).
Proof. apply seqBeforeTime_spec. Qed.

Lemma scan_highest n : held 0 Scan.files n -> 1 <= n <= 5.
Proof.
  intros (f & Hf & Hn). apply elem_of_cons in Hf as [->|[->|[]%not_elem_of_nil]%elem_of_cons];
    cbn in Hn; repeat (apply elem_of_cons in Hn as [->|Hn]; [lia|]); by apply not_elem_of_nil in Hn.
Qed.

Lemma time_target_is_tight_witness :
  seqBeforeTime Scan.files 0 1 5 4000 = 3 /\ 1 <= seqBeforeTime Scan.files 0 1 5 4000.
Proof.
  split; [vm_compute; reflexivity|].
  destruct (time_target_is_tight Scan.files 0 1 5 4000) as [H _]; [unfold MaxUint64; lia| |exact H].
  intros n Hn. apply scan_highest in Hn. lia.
Defined.
