(* ===== verification/ReplayMariaRun.v ===== *)
(** * What a MariaDB recovery replays

    Proofs about [PlanMariadbReplay] ([ReplayMaria]) against a description of the
    transactions that survive the recorded forks which does not go through the cut
    files: an archived transaction survives unless its segment is limited to an
    earlier sequence number. *)

From Stdlib Require Import ZArith Lia Bool Ascii String.
From stdpp Require Import base list strings gmap sorting.
From S2P Require Import Prelude GoStrings Gtid GtidText GtidModel MariaGtid MariaTimeline.
From S2P Require Import Archive Forks GtidOps Replay ReplayMaria.

Local Open Scope Z_scope.

(** ** The chunks replay only what the files hold *)

Section Within.
Context (content : string -> list TxnBoundary) (d : Z).













End Within.

(** ** The forks *)

Section Limits.
Context (plan : ReplayPlan).








End Limits.

(** ** The cut files hold exactly what survives *)






(** ** Properties *)


(** Server 1 wrote sequences 4 and 5 after server 2 had taken over at 3. *)
Module Forked.


End Forked.


