(* ===== verification/Scan.v ===== *)
(** * The binlog scanner

    [pkg/management/mysql/binlog/scan.go] and [scanfile.go]: reading the GTIDs
    and the time bounds of one binary log out of the text that [mysqlbinlog] or
    [mariadb-binlog] prints for it, and the byte offsets of MariaDB transactions.
    The regular expressions are those of the source, run by [GoRegexp]; the text
    comes with the error, if any, that ended the reading of it.

    The theorems print a file's events in the clients' documented form and show
    that scanning the text, where no statement in it looks like a header or a GTID
    assignment, gives back exactly the transactions, in order, with the times of
    the first and the last event, and that a MariaDB boundary is the end of the
    event before it. *)

From Stdlib Require Import ZArith Lia Bool Ascii String DecimalString DecimalN Decimal.
From stdpp Require Import base list strings gmap sorting.
From S2P Require Import Prelude GoStrings Gtid GtidText GtidModel MariaGtid MariaTimeline Archive Forks GtidOps ObjectStore Replay ReplayMaria GoRegexp.

Local Open Scope Z_scope.
#[local] Arguments String.append : simpl nomatch.

(** ** The patterns *)

Definition digits : regexp := Rep is_digit 1 None.
(** [[0-9a-fA-F-]{36}]. *)
Definition uuid_text : regexp := Rep (fun c => is_hex c || Ascii.eqb c "-") 36 (Some 36%nat).

Definition gtidNextRe : regexp :=
  LitFold "SET" ⋅⋅ Rep is_re_space 1 None ⋅⋅ LitFold "@@SESSION.GTID_NEXT" ⋅⋅ Rep is_re_space 0 None ⋅⋅ LitFold "=" ⋅⋅
  Rep is_re_space 0 None ⋅⋅ LitFold "'" ⋅⋅ Group uuid_text ⋅⋅ LitFold ":" ⋅⋅ Group digits ⋅⋅ LitFold "'".

Definition two : regexp := Rep is_digit 2 (Some 2%nat).
Definition eventHeaderRe : regexp :=
  Bol ⋅⋅ Lit "#" ⋅⋅ Group (Rep is_digit 6 (Some 6%nat)) ⋅⋅ Rep is_re_space 1 None ⋅⋅
  Group (Rep is_digit 1 (Some 2%nat) ⋅⋅ Lit ":" ⋅⋅ two ⋅⋅ Lit ":" ⋅⋅ two) ⋅⋅
  Rep is_re_space 1 None ⋅⋅ Lit "server id" ⋅⋅ WordB.

Definition endLogPosRe : regexp := Lit "end_log_pos " ⋅⋅ Group digits.

Definition prevGTIDsLabelRe : regexp :=
  WordB ⋅⋅ LitFold "Previous" ⋅⋅ Rep (Ascii.eqb "-") 0 (Some 1%nat) ⋅⋅ LitFold "GTIDs" ⋅⋅ WordB.

Definition is_set_char (c : ascii) : bool := is_digit c || Ascii.eqb c ":" || Ascii.eqb c "," || Ascii.eqb c "-".
Definition gtidSetLineRe : regexp :=
  Bol ⋅⋅ Lit "#" ⋅⋅ Rep is_re_space 0 None ⋅⋅ Group (uuid_text ⋅⋅ Lit ":" ⋅⋅ Rep is_set_char 1 None) ⋅⋅
  Rep is_re_space 0 None ⋅⋅ Eol.

Definition mariadbGTIDEventRe : regexp :=
  WordB ⋅⋅ Lit "GTID " ⋅⋅ Group digits ⋅⋅ Lit "-" ⋅⋅ Group digits ⋅⋅ Lit "-" ⋅⋅ Group digits ⋅⋅ WordB.

Definition mariadbGtidListRe : regexp :=
  Lit "Gtid list [" ⋅⋅ Group (Rep (fun c => is_digit c || Ascii.eqb c "," || Ascii.eqb c "-") 0 None) ⋅⋅ Lit "]".

(** ** Event times *)

(** [time.Parse(eventTimeLayout, ...)] on the digits the header pattern selects. *)
Definition is_leap (y : Z) : bool := (y mod 4 =? 0) && (negb (y mod 100 =? 0) || (y mod 400 =? 0)).
Definition days_before_month : list Z := [0; 31; 59; 90; 120; 151; 181; 212; 243; 273; 304; 334; 365].
Definition nth_days (m : Z) : Z := nth (Z.to_nat m) days_before_month 0.
Definition daysIn (m y : Z) : Z := if (m =? 2) && is_leap y then 29 else nth_days m - nth_days (m - 1).

(** Days from January 1 of year 1. *)
Definition days_to (y m d : Z) : Z :=
  let y' := y - 1 in
  365 * y' + y' / 4 - y' / 100 + y' / 400 + nth_days (m - 1) + (if is_leap y && (2 <? m) then 1 else 0) + (d - 1).

Definition time_Date (y m d h mi s : Z) : Time := (((days_to y m d * 24 + h) * 60 + mi) * 60 + s) * 1000000000.

(** A two-digit year. *)
Definition full_year (yy : Z) : Z := if 69 <=? yy then 1900 + yy else 2000 + yy.

Definition two_digits (s : string) : option Z :=
  match s with String _ (String _ EmptyString) => parse_digits s | _ => None end.

Definition eventTime (date clock : string) : option Time :=
  match two_digits (substring 0 2 date), two_digits (substring 2 2 date), two_digits (substring 4 2 date),
        two_digits (substring 0 2 clock), two_digits (substring 3 2 clock), two_digits (substring 6 2 clock) with
  | Some yy, Some m, Some d, Some h, Some mi, Some s =>
      let y := full_year yy in
      if (1 <=? m) && (m <=? 12) && (1 <=? d) && (d <=? daysIn m y) && (h <? 24) && (mi <? 60) && (s <? 60)
      then Some (time_Date y m d h mi s) else None
  | _, _, _, _, _, _ => None
  end.

Definition normalizeClock (clock : string) : string :=
  if Nat.eqb (String.length clock) 7 then String "0" clock else clock.

(** ** Numbers *)

Definition digit_value (c : ascii) : Z := Z.of_N (N_of_ascii c) - 48.

(** The multiplication wraps at 64 bits. *)
Fixpoint positive_loop (s : string) (n : Z) : option Z :=
  match s with
  | EmptyString => Some n
  | String c s' => if is_digit c then positive_loop s' (i64 (n * 10 + digit_value c)) else None
  end.

Definition parsePositiveInt (s : string) : option Z :=
  match positive_loop s 0 with
  | Some n => if 0 <? n then Some n else None
  | None => None
  end.

(** [strconv.ParseUint] of digits, its error ignored: a number out of range gives
    the largest one. *)
Definition ParseUint_clamped (s : string) (bits : Z) : Z := default (2 ^ bits - 1) (ParseUint s bits).

(** ** Lines of text *)

Definition max_line : Z := 4 * 1024 * 1024.

(** What a client printed, and the error that ended the stream, if any. *)
Record output := mkOutput { out_text : string; out_err : option error }.

(** [scanner.Err()]. *)
Definition scanner_Err (r : output) : option error :=
  if line_too_long max_line (out_text r) then Some (Errorf "bufio.Scanner: token too long") else out_err r.

Definition ScanResult_zero : ScanResult := mkScanResult "" "" "" "" 0 0.

Definition note_time (res : ScanResult) (date clock : string) : ScanResult :=
  match eventTime date (normalizeClock clock) with
  | Some ts =>
      mkScanResult (sr_PreviousGTIDs res) (sr_GTIDSet res) (sr_FirstGTID res) (sr_LastGTID res)
        (if IsZero (sr_FirstEventTime res) then ts else sr_FirstEventTime res) ts
  | None => res
  end.

Definition note_gtid (res : ScanResult) (gtid : string) : ScanResult :=
  mkScanResult (sr_PreviousGTIDs res) (sr_GTIDSet res)
    (if String.eqb (sr_FirstGTID res) "" then gtid else sr_FirstGTID res) gtid (sr_FirstEventTime res) (sr_LastEventTime res).

Definition with_previous (res : ScanResult) (previous : string) : ScanResult :=
  mkScanResult previous (sr_GTIDSet res) (sr_FirstGTID res) (sr_LastGTID res) (sr_FirstEventTime res) (sr_LastEventTime res).

Definition with_set (res : ScanResult) (set : string) : ScanResult :=
  mkScanResult (sr_PreviousGTIDs res) set (sr_FirstGTID res) (sr_LastGTID res) (sr_FirstEventTime res) (sr_LastEventTime res).

(** ** MySQL *)

(** The variables of the loop: the result, the set, and [expectPrevGTIDs]. *)
Abbreviation mysqlState := (ScanResult * GTIDSet * bool)%type.

(** The rest of an iteration, once the line is not the set the label announced. *)
Definition mysql_plain_line (res : ScanResult) (contributed : GTIDSet) (line : string) : mysqlState :=
  match FindStringSubmatch eventHeaderRe line with
  | Some [date; clock] => (note_time res date clock, contributed, MatchString prevGTIDsLabelRe line)
  | _ =>
      match FindStringSubmatch gtidNextRe line with
      | Some [m1; m2] =>
          let uuid := ToLower m1 in
          match parsePositiveInt m2 with
          | None => (res, contributed, false)
          | Some n =>
              (note_gtid res (uuid +:+ ":" +:+ m2), GTIDSet_AddInterval contributed uuid (mkGTIDInterval n n), false)
          end
      | _ => (res, contributed, false)
      end
  end.

Definition mysql_line (st : mysqlState) (line : string) : mysqlState :=
  let '(res, contributed, expectPrevGTIDs) := st in
  match (if expectPrevGTIDs : bool then FindStringSubmatch gtidSetLineRe line else None) with
  | Some [m1] => (with_previous res (canonicalGTIDSet m1), contributed, false)
  | _ => mysql_plain_line res contributed line
  end.

Definition scanMySQL (r : output) : result ScanResult :=
  let '(res, contributed, _) := foldl mysql_line (ScanResult_zero, ∅, false) (scan_lines (out_text r)) in
  match scanner_Err r with
  | Some e => wrapf "binlog: scanning mysqlbinlog output" (Err e)
  | None => Ok (with_set res (GTIDSet_String contributed))
  end.

(** ** MariaDB *)

Definition mariaScanAccum_add (entries : mariaPos) (domain server seq : Z) : mariaPos :=
  match entries !! domain with
  | Some existing => if me_seq existing <=? seq then <[domain := mkMariaEntry server seq]> entries else entries
  | None => <[domain := mkMariaEntry server seq]> entries
  end.

Definition mariaScanAccum_string (entries : mariaPos) : string :=
  if Nat.eqb (size entries) 0 then ""
  else
    let domains := isort Z.leb (fst <$> map_to_list entries) in
    Join ((fun d => let e := default (mkMariaEntry 0 0) (entries !! d) in
                    FormatUint d +:+ "-" +:+ FormatUint (me_server e) +:+ "-" +:+ FormatUint (me_seq e)) <$> domains) ",".

Definition maria_line (st : ScanResult * mariaPos) (line : string) : ScanResult * mariaPos :=
  let '(res, accum) := st in
  match FindStringSubmatch eventHeaderRe line with
  | Some [date; clock] =>
      let res := note_time res date clock in
      match FindStringSubmatch mariadbGtidListRe line with
      | Some [body] => (if String.eqb (sr_PreviousGTIDs res) "" then with_previous res body else res, accum)
      | _ =>
          match FindStringSubmatch mariadbGTIDEventRe line with
          | Some [g1; g2; g3] =>
              (note_gtid res (g1 +:+ "-" +:+ g2 +:+ "-" +:+ g3),
               mariaScanAccum_add accum (ParseUint_clamped g1 32) (ParseUint_clamped g2 32) (ParseUint_clamped g3 64))
          | _ => (res, accum)
          end
      end
  | _ => st
  end.

Definition scanMariaDB (r : output) : result ScanResult :=
  let '(res, accum) := foldl maria_line (ScanResult_zero, ∅) (scan_lines (out_text r)) in
  match scanner_Err r with
  | Some e => wrapf "binlog: scanning mariadb-binlog output" (Err e)
  | None => Ok (with_set res (mariaScanAccum_string accum))
  end.

Definition Scan (r : output) (mariadb : bool) : result ScanResult :=
  if mariadb then scanMariaDB r else scanMySQL r.

(** ** Transaction boundaries *)

(** The boundaries so far, and [prevEnd]. *)
Definition boundary_line (st : list TxnBoundary * Z) (line : string) : list TxnBoundary * Z :=
  let '(out, prevEnd) := st in
  match FindStringSubmatch eventHeaderRe line with
  | Some [date; clock] =>
      let out :=
        match FindStringSubmatch mariadbGTIDEventRe line with
        | Some [g1; g2; g3] =>
            out ++ [mkTxnBoundary (ParseUint_clamped g1 32) (ParseUint_clamped g2 32) (ParseUint_clamped g3 64) prevEnd
                      (default 0 (eventTime date (normalizeClock clock)))]
        | _ => out
        end in
      match FindStringSubmatch endLogPosRe line with
      | Some [p] => (out, default prevEnd (ParseInt p))
      | _ => (out, prevEnd)
      end
  | _ => st
  end.

Definition scanMariaDBBoundaries (r : output) : result (list TxnBoundary) :=
  let '(out, _) := foldl boundary_line ([], 4) (scan_lines (out_text r)) in
  match scanner_Err r with
  | Some e => wrapf "binlog: scanning mariadb-binlog output for positions" (Err e)
  | None => Ok out
  end.

(** ** Running the client *)

(** [ReadArgs], without extra arguments. *)
Definition ReadArgs (file : string) : result (list string) :=
  if String.eqb file "" then Err (Errorf "binlog: file is required") else Ok ["--base64-output=DECODE-ROWS"; file].

(** How a client process goes: whether it starts, what it prints, how it ends.
    The two pipes are opened before it starts. *)
Record process := mkProcess {
  ps_stdout : result unit;
  ps_stderr : result unit;
  ps_start : result unit;
  ps_output : output;
  ps_wait : result unit
}.

Section Client.
(** The client named by a path, run with some arguments. *)
Context (exec_Command : string -> list string -> process).

Definition runBinlogClient {T} (binPath procName path : string) (parse : output -> result T) : result T :=
  let? args := ReadArgs path in
  let cmd := exec_Command binPath args in
  let? _ := wrapf "binlog: stdout pipe" (ps_stdout cmd) in
  let? _ := wrapf "binlog: stderr pipe" (ps_stderr cmd) in
  let? _ := wrapf "binlog: starting the client" (ps_start cmd) in
  let parsed := parse (ps_output cmd) in
  let? _ := wrapf "binlog: the client failed" (ps_wait cmd) in
  parsed.

Definition DefaultMysqlbinlog : string := "mysqlbinlog".
Definition or_default (binPath : string) : string := if String.eqb binPath "" then DefaultMysqlbinlog else binPath.

Definition MysqlbinlogScanner (binPath : string) (mariaDB : bool) (path : string) : result ScanResult :=
  runBinlogClient (or_default binPath) (if mariaDB then "mariadb-binlog" else "mysqlbinlog") path (fun r => Scan r mariaDB).

Definition MariadbTxnBoundaries (binPath path : string) : result (list TxnBoundary) :=
  runBinlogClient (or_default binPath) "mariadb-binlog" path scanMariaDBBoundaries.
End Client.

(** ** What the clients print *)

Definition digit_char (n : Z) : ascii := ascii_of_N (Z.to_N (48 + n)).
(** [%02d] and [%2d]. *)
Definition print2 (n : Z) : string := String (digit_char (n / 10)) (String (digit_char (n mod 10)) "").
Definition print_hour (h : Z) : string := if h <? 10 then String (digit_char h) "" else print2 h.

(** A moment, with the two digits of its year. *)
Record stamp := mkStamp { st_year : Z; st_month : Z; st_day : Z; st_hour : Z; st_min : Z; st_sec : Z }.

Definition stamp_ok (t : stamp) : Prop :=
  0 <= st_year t < 100 /\ 1 <= st_month t <= 12 /\ 1 <= st_day t <= daysIn (st_month t) (full_year (st_year t)) /\
  0 <= st_hour t < 24 /\ 0 <= st_min t < 60 /\ 0 <= st_sec t < 60.

Definition stamp_time (t : stamp) : Time :=
  time_Date (full_year (st_year t)) (st_month t) (st_day t) (st_hour t) (st_min t) (st_sec t).

(** The header of an event: where it starts, its moment, its server, where it
    ends, and what follows on the line. *)
Record header := mkHeader { hd_at : Z; hd_stamp : stamp; hd_server : Z; hd_end : Z }.

Definition print_date (t : stamp) : string := print2 (st_year t) +:+ print2 (st_month t) +:+ print2 (st_day t).
Definition print_clock (t : stamp) : string :=
  print_hour (st_hour t) +:+ ":" +:+ print2 (st_min t) +:+ ":" +:+ print2 (st_sec t).
Definition hour_pad (t : stamp) : string := if st_hour t <? 10 then "  " else " ".

Definition print_at (h : header) : string := "# at " +:+ FormatUint (hd_at h).
Definition print_header (h : header) (tail : string) : string :=
  "#" +:+ print_date (hd_stamp h) +:+ hour_pad (hd_stamp h) +:+ print_clock (hd_stamp h) +:+ " " +:+ "server id" +:+ " " +:+
  FormatUint (hd_server h) +:+ "  " +:+ "end_log_pos " +:+ FormatUint (hd_end h) +:+ tail.

(** ** Matching, step by step *)

Section Steps.
Context {R : Type} (prev : option ascii) (g : list string) (k : option ascii -> string -> list string -> option R) (x : R).

Lemma step_Then r1 r2 s :
  match_at r1 prev s g (fun prev' s' g' => match_at r2 prev' s' g' k) = Some x -> match_at (r1 ⋅⋅ r2) prev s g k = Some x.
Proof. done. Qed.

Lemma step_Lit l s : k (last_char prev l) s g = Some x -> match_at (Lit l) prev (l +:+ s) g k = Some x.
Proof. by rewrite match_Lit. Qed.

Lemma step_LitFold l s : k (last_char prev l) s g = Some x -> match_at (LitFold l) prev (l +:+ s) g k = Some x.
Proof. by rewrite match_LitFold. Qed.

Lemma step_Group r s :
  match_at r prev s g (fun prev' s' g' => k prev' s' (g' ++ [taken s s'])) = Some x -> match_at (Group r) prev s g k = Some x.
Proof. done. Qed.

Lemma step_WordB s : word_at prev s = true -> k prev s g = Some x -> match_at WordB prev s g k = Some x.
Proof. intros H. cbn. by rewrite H. Qed.
End Steps.

(** One step of a match of known text; [regexp_steps] goes on to the next class,
    whose side conditions are the caller's. *)
Ltac regexp_step :=
  lazymatch goal with
  | |- match_at ?r _ _ _ _ = Some _ =>
      let r' := eval hnf in r in
      lazymatch r' with
      | Then _ _ => apply step_Then
      | Lit _ => apply step_Lit
      | LitFold _ => apply step_LitFold
      | Group _ => apply step_Group
      | WordB => apply step_WordB; [reflexivity|]
      end; cbv beta
  end.
Ltac regexp_steps := repeat regexp_step.

Lemma all_below (P : Z -> bool) n : forallb P (seqZ 0 n) = true -> forall z, 0 <= z < n -> P z = true.
Proof. rewrite forallb_forall. intros H z Hz. apply H, list_elem_of_In, elem_of_seqZ. lia. Qed.

Lemma digit_char_digit n : 0 <= n < 10 -> is_digit (digit_char n) = true.
Proof. apply (all_below (fun n => is_digit (digit_char n))). by vm_compute. Qed.

Lemma print2_digits n : 0 <= n < 100 -> all_chars is_digit (print2 n) = true.
Proof. apply (all_below (fun n => all_chars is_digit (print2 n))). by vm_compute. Qed.

Lemma two_digits_print2 n : 0 <= n < 100 -> two_digits (print2 n) = Some n.
Proof.
  intros H. eapply bool_decide_eq_true_1. revert n H.
  apply (all_below (fun n => bool_decide (two_digits (print2 n) = Some n))). by vm_compute.
Qed.

Lemma print_hour_digits n : 0 <= n < 24 -> all_chars is_digit (print_hour n) = true.
Proof. apply (all_below (fun n => all_chars is_digit (print_hour n))). by vm_compute. Qed.

Lemma print_hour_length n : 0 <= n < 24 -> within 1 (Some 2%nat) (String.length (print_hour n)) = true.
Proof. apply (all_below (fun n => within 1 (Some 2%nat) (String.length (print_hour n)))). by vm_compute. Qed.

Lemma normalize_hour n s :
  0 <= n < 24 -> String.length s = 6%nat -> normalizeClock (print_hour n +:+ s) = print2 n +:+ s.
Proof.
  intros Hn Hs. unfold normalizeClock, print_hour. destruct (Z.ltb_spec n 10).
  - cbn [String.length String.append]. change (String.length (EmptyString +:+ s)) with (String.length s). rewrite Hs.
    cbn. unfold print2. rewrite Z.div_small, Z.mod_small by lia. done.
  - cbn. change (String.length (EmptyString +:+ s)) with (String.length s). by rewrite Hs.
Qed.

Lemma daysIn_bound m y : 1 <= m <= 12 -> daysIn m y <= 31.
Proof.
  intros Hm. unfold daysIn. destruct (_ && _); [lia|].
  assert (m = 1 \/ m = 2 \/ m = 3 \/ m = 4 \/ m = 5 \/ m = 6 \/ m = 7 \/ m = 8 \/ m = 9 \/ m = 10 \/ m = 11 \/ m = 12) as Hc by lia.
  repeat destruct Hc as [->|Hc]; try (by vm_compute); subst; by vm_compute.
Qed.

Lemma eventTime_print t :
  stamp_ok t -> eventTime (print_date t) (normalizeClock (print_clock t)) = Some (stamp_time t).
Proof.
  intros (Hy & Hm & Hd & Hh & Hmi & Hs). unfold print_clock.
  pose proof (daysIn_bound (st_month t) (full_year (st_year t)) Hm).
  rewrite normalize_hour by done. unfold eventTime, print_date.
  change (substring 0 2 (print2 (st_year t) +:+ _)) with (print2 (st_year t)).
  change (substring 2 2 (print2 (st_year t) +:+ _)) with (print2 (st_month t)).
  change (substring 4 2 (print2 (st_year t) +:+ _)) with (print2 (st_day t)).
  change (substring 0 2 (print2 (st_hour t) +:+ _)) with (print2 (st_hour t)).
  change (substring 3 2 (print2 (st_hour t) +:+ _)) with (print2 (st_min t)).
  change (substring 6 2 (print2 (st_hour t) +:+ _)) with (print2 (st_sec t)).
  rewrite !two_digits_print2 by lia. cbv zeta.
  repeat match goal with |- context [?a <=? ?b] => replace (a <=? b) with true by lia end.
  repeat match goal with |- context [?a <? ?b] => replace (a <? b) with true by lia end. done.
Qed.

(** ** Headers are recognised *)

Lemma print_date_digits t : stamp_ok t -> all_chars is_digit (print_date t) = true.
Proof.
  intros (Hy & Hm & Hd & _). unfold print_date. rewrite !all_chars_app.
  pose proof (daysIn_bound (st_month t) (full_year (st_year t)) Hm).
  by rewrite !print2_digits by lia.
Qed.

(** What the header pattern matches up to: everything before the server's number. *)
Lemma header_match h tail :
  stamp_ok (hd_stamp h) ->
  FindStringSubmatch eventHeaderRe (print_header h tail) = Some [print_date (hd_stamp h); print_clock (hd_stamp h)].
Proof.
  intros Ht. pose proof Ht as (Hy & Hm & Hd & Hh & Hmi & Hs). set (t := hd_stamp h) in *.
  unfold eventHeaderRe. rewrite find_Bol. unfold print_header. fold t.
  set (rest := FormatUint (hd_server h) +:+ _).
  regexp_steps. apply match_Rep; [by apply print_date_digits|done|done|]. rewrite taken_app. cbn [app].
  regexp_steps. apply match_Rep.
  { unfold hour_pad. by destruct (_ <? _). } { unfold hour_pad. by destruct (_ <? _). }
  { unfold print_clock. pose proof (print_hour_digits (st_hour t) Hh) as Hp.
    pose proof (print_hour_length (st_hour t) Hh) as Hl. destruct (print_hour (st_hour t)) as [|c s]; [done|].
    cbn in *. boolp. destruct c as [[] [] [] [] [] [] [] []]; done. }
  assert (forall a b c s : string, (a +:+ ":" +:+ b +:+ ":" +:+ c) +:+ s = a +:+ ":" +:+ b +:+ ":" +:+ c +:+ s) as Hassoc.
  { intros. by rewrite !append_assoc. }
  unfold print_clock. rewrite Hassoc.
  regexp_steps. apply match_Rep; [by apply print_hour_digits|by apply print_hour_length|by apply orb_true_r|].
  regexp_steps. apply match_Rep; [by apply print2_digits; lia|done|done|].
  regexp_steps. apply match_Rep; [by apply print2_digits; lia|done|done|].
  rewrite <- Hassoc, taken_app. cbn [app].
  regexp_steps. apply match_Rep; [done|done|done|]. by regexp_steps.
Qed.

(** ** Skipping text *)

Lemma find_skip_class (p : ascii -> bool) r prev a s :
  (forall c, p c = true -> avoids r c) -> all_chars p a = true ->
  find_from r prev (a +:+ s) = find_from r (last_char prev a) s.
Proof.
  intros Hp. revert prev. induction a as [|c a IH]; intros prev Ha; [done|]. cbn in Ha. boolp.
  change (String c a +:+ s) with (String c (a +:+ s)). cbn [find_from]. rewrite (Hp c) by done. by apply IH.
Qed.

Lemma find_none_class (p : ascii -> bool) r a :
  (forall c, p c = true -> avoids r c) -> (forall prev, find_from r prev "" = None) -> all_chars p a = true ->
  FindStringSubmatch r a = None.
Proof.
  intros Hp He Ha. unfold FindStringSubmatch. rewrite <- (append_nil_r a). by rewrite (find_skip_class p).
Qed.

Lemma ends_stop p max a c s : p c = false -> ends p max a (String c s) = true.
Proof. intros H. unfold ends. rewrite H. apply orb_true_r. Qed.

Lemma match_digits {R} prev n s g (k : _ -> _ -> _ -> option R) x :
  (forall c s', s = String c s' -> is_digit c = false) ->
  k (last_char prev (FormatUint n)) s g = Some x -> match_at digits prev (FormatUint n +:+ s) g k = Some x.
Proof.
  intros Hs Hk. destruct (FormatUint_cons n) as (c & t & E & _).
  apply match_Rep; [apply FormatUint_digits|by rewrite E| |done].
  destruct s as [|c' s']; [apply orb_true_r|]. apply ends_stop. by eapply Hs.
Qed.

(** Everything of a header before [server id] avoids letters. *)
Definition header_char (c : ascii) : bool :=
  is_digit c || Ascii.eqb c ":" || Ascii.eqb c " " || Ascii.eqb c "#".

Lemma header_start_chars t :
  stamp_ok t -> all_chars header_char ("#" +:+ print_date t +:+ hour_pad t +:+ print_clock t +:+ " ") = true.
Proof.
  intros Ht. pose proof Ht as (_ & _ & _ & Hh & Hmi & Hs).
  assert (forall s, all_chars is_digit s = true -> all_chars header_char s = true) as Hd.
  { intros s. apply all_chars_impl. unfold header_char. intros c ->. done. }
  unfold print_clock. rewrite !all_chars_app.
  rewrite (Hd (print_date t)), (Hd (print_hour _)), (Hd (print2 (st_min t))), (Hd (print2 (st_sec t)))
    by first [by apply print_date_digits | by apply print_hour_digits | apply print2_digits; lia].
  unfold hour_pad. by destruct (_ <? _).
Qed.

Lemma print_header_split h tail :
  print_header h tail =
  ("#" +:+ print_date (hd_stamp h) +:+ hour_pad (hd_stamp h) +:+ print_clock (hd_stamp h) +:+ " ") +:+
  "server id" +:+ " " +:+ FormatUint (hd_server h) +:+ "  " +:+ "end_log_pos " +:+ FormatUint (hd_end h) +:+ tail.
Proof. unfold print_header. by rewrite !append_assoc. Qed.

Lemma header_char_digit c : is_digit c = true -> header_char c = true.
Proof. unfold header_char. by intros ->. Qed.

Lemma header_digits n : all_chars header_char (FormatUint n) = true.
Proof. eapply all_chars_impl; [exact header_char_digit|apply FormatUint_digits]. Qed.

(** No header has a capital [G]. *)
Definition not_G (c : ascii) : bool := negb (Ascii.eqb "G" c).

Lemma header_not_G h : stamp_ok (hd_stamp h) -> all_chars not_G (print_header h "") = true.
Proof.
  intros Ht. rewrite print_header_split.
  assert (forall s, all_chars header_char s = true -> all_chars not_G s = true) as Hc.
  { intros s. apply all_chars_impl. intros c. by destruct c as [[] [] [] [] [] [] [] []]. }
  set (start := "#" +:+ _). assert (all_chars header_char start = true) as Hs by (by apply header_start_chars).
  rewrite !all_chars_app, (Hc start Hs), !(Hc (FormatUint _) (header_digits _)). done.
Qed.

Lemma print_header_app h tail : print_header h tail = print_header h "" +:+ tail.
Proof. unfold print_header. by rewrite !append_assoc. Qed.

(** A pattern that starts with a [G] is looked for in the tail. *)
Lemma find_in_tail r h crc rest :
  stamp_ok (hd_stamp h) -> (forall c, not_G c = true -> avoids r c) -> all_chars not_G crc = true ->
  FindStringSubmatch r (print_header h (crc +:+ rest)) = find_from r (last_char (last_char None (print_header h "")) crc) rest.
Proof.
  intros Ht Hr Hc. unfold FindStringSubmatch. rewrite print_header_app.
  rewrite (find_skip_class not_G) by auto using header_not_G. by rewrite (find_skip_class not_G).
Qed.

(** The end position is read off the header. *)
Lemma endpos_match h tail :
  stamp_ok (hd_stamp h) -> (forall c s, tail = String c s -> is_digit c = false) ->
  FindStringSubmatch endLogPosRe (print_header h tail) = Some [FormatUint (hd_end h)].
Proof.
  intros Ht Htail. unfold FindStringSubmatch. rewrite print_header_split.
  assert (forall c, header_char c = true -> avoids endLogPosRe c) as Hc.
  { intros c Hc. apply avoids_Lit. by intros <-. }
  rewrite (find_skip_class header_char) by auto using header_start_chars.
  change (find_from endLogPosRe ?prev ("server id" +:+ ?s)) with (find_from endLogPosRe (Some "d"%char) s).
  rewrite (find_skip_class header_char) by done.
  rewrite (find_skip_class header_char) by auto using header_digits.
  rewrite (find_skip_class header_char) by done. apply find_here.
  regexp_steps. apply match_digits; [done|]. by rewrite taken_app.
Qed.

(** ** Lines of a MySQL log *)

Definition is_uuid_char (c : ascii) : bool := is_hex c || Ascii.eqb c "-".
Definition uuid_ok (uuid : string) : Prop := all_chars is_uuid_char uuid = true /\ String.length uuid = 36%nat.

Definition print_gtid (uuid : string) (n : Z) : string :=
  "SET" +:+ " " +:+ "@@SESSION.GTID_NEXT" +:+ "=" +:+ " " +:+ "'" +:+ uuid +:+ ":" +:+ FormatUint n +:+ "'" +:+ "/*!*/;".

Lemma uuid_head uuid : uuid_ok uuid -> exists c s, uuid = String c s /\ is_uuid_char c = true.
Proof. intros [Hc Hl]. destruct uuid as [|c s]; [done|]. cbn in Hc. boolp. eauto. Qed.

Lemma uuid_not_space c : is_uuid_char c = true -> is_re_space c = false.
Proof. destruct c as [[] [] [] [] [] [] [] []]; done. Qed.

Lemma gtid_next_match uuid n :
  uuid_ok uuid -> FindStringSubmatch gtidNextRe (print_gtid uuid n) = Some [uuid; FormatUint n].
Proof.
  intros Hu. pose proof Hu as [Hc Hl]. destruct (uuid_head _ Hu) as (c0 & s0 & Eu & _). unfold print_gtid.
  apply find_here. unfold gtidNextRe. regexp_steps. apply match_Rep; [done..|].
  regexp_steps. apply (match_Rep _ _ _ _ ""); [done..|].
  regexp_steps. apply match_Rep; [done..|].
  regexp_steps. apply match_Rep; [done|by rewrite Hl|by unfold ends; rewrite Hl|]. rewrite taken_app. cbn [app].
  regexp_steps. apply match_digits; [by intros c s [= <- _]|]. rewrite taken_app. by regexp_steps.
Qed.

Lemma not_header c s : c <> "#"%char -> FindStringSubmatch eventHeaderRe (String c s) = None.
Proof. intros Hc. unfold eventHeaderRe. rewrite find_Bol. by apply (avoids_Lit "#" "" _ c). Qed.

Lemma not_header_space s : FindStringSubmatch eventHeaderRe (String "#" (String " " s)) = None.
Proof. unfold eventHeaderRe. by rewrite find_Bol. Qed.

Lemma gtidNext_avoids c : same_letter "S" c = false -> avoids gtidNextRe c.
Proof. intros Hc prev s g. unfold gtidNextRe. cbn. by rewrite Hc. Qed.

(** Text without an [S] assigns no GTID. *)
Definition no_s (c : ascii) : bool := negb (same_letter "S" c).

Lemma not_gtid_next s : all_chars no_s s = true -> FindStringSubmatch gtidNextRe s = None.
Proof.
  apply find_none_class; [|done]. intros c Hc. apply gtidNext_avoids. unfold no_s in Hc. by boolp.
Qed.

Lemma digit_no_s c : is_digit c = true -> no_s c = true.
Proof. destruct c as [[] [] [] [] [] [] [] []]; done. Qed.

Lemma digits_no_s n : all_chars no_s (FormatUint n) = true.
Proof. eapply all_chars_impl; [exact digit_no_s|apply FormatUint_digits]. Qed.

(** A set of a Previous-GTIDs event, as one of its comment lines has it. *)
Definition set_text (s : string) : Prop :=
  exists uuid ivs, s = uuid +:+ ":" +:+ ivs /\ uuid_ok uuid /\ ivs <> "" /\ all_chars is_set_char ivs = true.
Definition print_set (s : string) : string := "# " +:+ s.

Lemma set_line_match s : set_text s -> FindStringSubmatch gtidSetLineRe (print_set s) = Some [s].
Proof.
  intros (uuid & ivs & -> & Hu & Hne & Hi). pose proof Hu as [Hc Hl]. destruct (uuid_head _ Hu) as (c0 & s0 & Eu & Hc0).
  unfold print_set, gtidSetLineRe. rewrite find_Bol.
  change ("# " +:+ ?x) with ("#" +:+ " " +:+ x). regexp_steps. apply match_Rep; [done|done| |].
  { rewrite Eu. apply ends_stop. by apply uuid_not_space. }
  regexp_steps. apply match_Rep; [done|by rewrite Hl|by unfold ends; rewrite Hl|].
  regexp_steps. rewrite <- (append_nil_r ivs) at 1.
  apply match_Rep; [done|by destruct ivs|done|].
  rewrite taken_all. reflexivity.
Qed.

Lemma set_char_no_s c : is_uuid_char c || is_set_char c = true -> no_s c = true.
Proof. destruct c as [[] [] [] [] [] [] [] []]; done. Qed.

Lemma set_line_no_s s : set_text s -> all_chars no_s (print_set s) = true.
Proof.
  intros (uuid & ivs & -> & [Hu _] & _ & Hi). unfold print_set. rewrite !all_chars_app.
  apply (all_chars_impl _ no_s) in Hu; [|intros c Hc; apply set_char_no_s; by rewrite Hc].
  apply (all_chars_impl _ no_s) in Hi; [|intros c Hc; apply set_char_no_s; by rewrite Hc, orb_true_r].
  by rewrite Hu, Hi.
Qed.

(** Comment lines leave the result alone. *)
Lemma comment_line res contributed b s :
  (b = true -> FindStringSubmatch gtidSetLineRe (String "#" (String " " s)) = None) ->
  all_chars no_s (String "#" (String " " s)) = true ->
  mysql_line (res, contributed, b) (String "#" (String " " s)) = (res, contributed, false).
Proof.
  intros Hb Hs. unfold mysql_line, mysql_plain_line. destruct b; [rewrite Hb by done|];
    by rewrite not_header_space, not_gtid_next.
Qed.

Lemma at_line res contributed b h : mysql_line (res, contributed, b) (print_at h) = (res, contributed, false).
Proof.
  apply (comment_line _ _ _ ("at " +:+ FormatUint (hd_at h))).
  - intros _. unfold gtidSetLineRe. by rewrite find_Bol.
  - change (all_chars no_s ("# at " +:+ FormatUint (hd_at h)) = true). by rewrite all_chars_app, digits_no_s.
Qed.

(** ** Numbers of lines *)

(** The value of a run of digits after [n]. *)
Fixpoint digits_value (s : string) (n : Z) : Z :=
  match s with EmptyString => n | String c s' => digits_value s' (n * 10 + digit_value c) end.

Lemma digit_value_bound c : is_digit c = true -> 0 <= digit_value c <= 9.
Proof. destruct c as [[] [] [] [] [] [] [] []]; (done || (intros _; vm_compute; split; discriminate)). Qed.

Lemma digits_value_mono s n : all_chars is_digit s = true -> 0 <= n -> n <= digits_value s n.
Proof.
  revert n. induction s as [|c s IH]; intros n Hs Hn; cbn in *; [lia|]. boolp.
  pose proof (digit_value_bound c ltac:(done)). etrans; [|apply IH]; try done; lia.
Qed.

Lemma positive_loop_value s n :
  all_chars is_digit s = true -> 0 <= n -> digits_value s n <= MaxInt64 -> positive_loop s n = Some (digits_value s n).
Proof.
  revert n. induction s as [|c s IH]; intros n Hs Hn Hm; cbn in *; [done|]. boolp.
  pose proof (digit_value_bound c ltac:(done)). rewrite H.
  pose proof (digits_value_mono s (n * 10 + digit_value c) ltac:(done) ltac:(lia)).
  rewrite i64_id by (unfold MinInt64; lia). apply IH; try done; lia.
Qed.

Lemma digits_value_acc s d p :
  NilEmpty.uint_of_string s = Some d -> digits_value s (Zpos p) = Zpos (Pos.of_uint_acc d p).
Proof.
  revert d p. induction s as [|c s IH]; intros d p; cbn; [by intros [= <-]|].
  destruct (NilEmpty.uint_of_string s) as [d'|];
    destruct c as [[] [] [] [] [] [] [] []]; cbn; try done; intros [= <-]; cbn [Pos.of_uint_acc];
    rewrite <- (IH d'); try done; f_equal; unfold digit_value; cbn; lia.
Qed.

Lemma digits_value_zero s d :
  NilEmpty.uint_of_string s = Some d -> digits_value s 0 = Z.of_N (Pos.of_uint d).
Proof.
  revert d. induction s as [|c s IH]; intros d; cbn; [by intros [= <-]|].
  destruct (NilEmpty.uint_of_string s) as [d'|] eqn:E;
    destruct c as [[] [] [] [] [] [] [] []]; cbn; try done; intros [= <-]; cbn [Pos.of_uint Z.of_N];
    first [by apply IH | by apply (digits_value_acc s d')].
Qed.

Lemma parsePositiveInt_format n : 1 <= n <= MaxInt64 -> parsePositiveInt (FormatUint n) = Some n.
Proof.
  intros Hn. assert (digits_value (FormatUint n) 0 = n) as E.
  { rewrite (digits_value_zero _ (N.to_uint (Z.to_N n))) by apply NilEmpty.usu.
    change (Z.of_N (N.of_uint (N.to_uint (Z.to_N n))) = n). rewrite Unsigned.of_to. lia. }
  unfold parsePositiveInt. rewrite positive_loop_value by (rewrite ?E; auto using FormatUint_digits; lia).
  rewrite E. by replace (0 <? n) with true by lia.
Qed.

Lemma ParseUint_clamped_format n bits : 0 <= n < 2 ^ bits -> ParseUint_clamped (FormatUint n) bits = n.
Proof. intros Hn. unfold ParseUint_clamped. by rewrite ParseUint_FormatUint. Qed.

Lemma stamp_time_pos t : stamp_ok t -> 0 < stamp_time t.
Proof.
  intros (Hy & Hm & Hd & Hh & Hmi & Hs). unfold stamp_time, time_Date, days_to.
  assert (1969 <= full_year (st_year t) < 2069) as Hf by (unfold full_year; destruct (Z.leb_spec 69 (st_year t)); lia).
  set (y := full_year (st_year t)) in *.
  assert (0 <= nth_days (st_month t - 1)).
  { unfold nth_days. set (k := Z.to_nat _). do 13 (destruct k as [|k]; [by vm_compute|]). by destruct k. }
  assert (0 <= (if is_leap y && (2 <? st_month t) then 1 else 0)) by (by destruct (_ && _)).
  assert (0 <= (y - 1) / 4 - (y - 1) / 100) by (Z.to_euclidean_division_equations; lia).
  assert (0 <= (y - 1) / 400) by (Z.to_euclidean_division_equations; lia). lia.
Qed.

(** ** The events of a MySQL log *)

Inductive mysqlEvent :=
| EGtid (h : header) (tail : string) (uuid : string) (n : Z)
| EPrevious (h : header) (tail : string) (sets : list string)
| EOther (h : header) (tail : string) (body : list string).

Definition ev_stamp (e : mysqlEvent) : stamp :=
  hd_stamp match e with EGtid h _ _ _ => h | EPrevious h _ _ => h | EOther h _ _ => h end.

Definition print_mysql (e : mysqlEvent) : list string :=
  match e with
  | EGtid h tail uuid n => [print_at h; print_header h tail; print_gtid uuid n]
  | EPrevious h tail sets => print_at h :: print_header h tail :: (print_set <$> sets)
  | EOther h tail body => print_at h :: print_header h tail :: body
  end.

(** A line the scanner takes nothing from. *)
Definition inert (l : string) : Prop :=
  FindStringSubmatch eventHeaderRe l = None /\ FindStringSubmatch gtidNextRe l = None.

Definition mysql_ok (e : mysqlEvent) : Prop :=
  stamp_ok (ev_stamp e) /\
  match e with
  | EGtid _ _ uuid n => uuid_ok uuid /\ 1 <= n <= MaxInt64
  | EPrevious h tail sets => MatchString prevGTIDsLabelRe (print_header h tail) = true /\ Forall set_text sets
  | EOther h tail body => MatchString prevGTIDsLabelRe (print_header h tail) = false /\ Forall inert body
  end.

Definition ev_gtid (e : mysqlEvent) : option (string * Z) :=
  match e with EGtid _ _ uuid n => Some (ToLower uuid, n) | _ => None end.

(** What the scanner takes of a Previous-GTIDs event: the line after its header. *)
Definition first_previous (e : mysqlEvent) : option string :=
  match e with EPrevious _ _ (s :: _) => Some (canonicalGTIDSet s) | _ => None end.

(** The set of a Previous-GTIDs event: all of its lines, each but the last ending in a
    comma; and events whose set is one line, as that of a single server is. *)
Definition previous_set (e : mysqlEvent) : option string :=
  match e with EPrevious _ _ (s :: sets) => Some (String.concat "" (s :: sets)) | _ => None end.
Definition one_line_set (e : mysqlEvent) : Prop :=
  match e with EPrevious _ _ sets => (length sets <= 1)%nat | _ => True end.

Definition gtid_text (g : string * Z) : string := fst g +:+ ":" +:+ FormatUint (snd g).

(** What one event adds to the result. *)
Definition stamped (res : ScanResult) (t : Time) : ScanResult :=
  mkScanResult (sr_PreviousGTIDs res) (sr_GTIDSet res) (sr_FirstGTID res) (sr_LastGTID res)
    (if IsZero (sr_FirstEventTime res) then t else sr_FirstEventTime res) t.

Definition read_event (res : ScanResult) (e : mysqlEvent) : ScanResult :=
  let res := stamped res (stamp_time (ev_stamp e)) in
  let res := match first_previous e with Some s => with_previous res s | None => res end in
  match ev_gtid e with Some g => note_gtid res (gtid_text g) | None => res end.

Definition add_gtid (set : GTIDSet) (g : string * Z) : GTIDSet :=
  GTIDSet_AddInterval set (fst g) (mkGTIDInterval (snd g) (snd g)).

Definition add_event (set : GTIDSet) (e : mysqlEvent) : GTIDSet :=
  match ev_gtid e with Some g => add_gtid set g | None => set end.

Lemma header_line res contributed b h tail :
  stamp_ok (hd_stamp h) -> b = false ->
  mysql_line (res, contributed, b) (print_header h tail) =
    (stamped res (stamp_time (hd_stamp h)), contributed, MatchString prevGTIDsLabelRe (print_header h tail)).
Proof.
  intros Ht ->. unfold mysql_line, mysql_plain_line, note_time. by rewrite header_match, eventTime_print.
Qed.

Lemma inert_lines res contributed body :
  Forall inert body -> foldl mysql_line (res, contributed, false) body = (res, contributed, false).
Proof.
  induction 1 as [|l body [Hh Hg] _ IH]; [done|]. cbn [foldl]. unfold mysql_line at 2, mysql_plain_line.
  by rewrite Hh, Hg.
Qed.

Lemma set_lines res contributed sets :
  Forall set_text sets -> foldl mysql_line (res, contributed, false) (print_set <$> sets) = (res, contributed, false).
Proof.
  induction 1 as [|s sets Hs _ IH]; [done|]. cbn [fmap list_fmap foldl].
  replace (mysql_line _ (print_set s)) with (res, contributed, false); [done|].
  symmetry. by apply comment_line; [|apply set_line_no_s].
Qed.

(** Scanning what one event prints. *)
Lemma mysql_event_lines e res contributed b :
  mysql_ok e -> exists b', foldl mysql_line (res, contributed, b) (print_mysql e) =
    (read_event res e, add_event contributed e, b').
Proof.
  destruct e as [h tail uuid n|h tail sets|h tail body]; intros [Ht He]; cbn [ev_stamp] in Ht; cbn [print_mysql foldl];
    rewrite at_line, header_line by done.
  - destruct He as [Hu Hn]. exists false. unfold mysql_line, mysql_plain_line.
    replace (if MatchString _ _ then FindStringSubmatch gtidSetLineRe _ else None) with (@None (list string)).
    2: { destruct (MatchString _ _); [|done]. unfold gtidSetLineRe. by rewrite find_Bol. }
    assert (FindStringSubmatch eventHeaderRe (print_gtid uuid n) = None) as -> by (by apply not_header).
    by rewrite gtid_next_match, parsePositiveInt_format.
  - destruct He as [-> Hs]. destruct Hs as [|s sets Hs Hss]; [by exists true|]. exists false.
    cbn [fmap list_fmap foldl]. unfold mysql_line at 2. rewrite set_line_match by done. by apply set_lines.
  - destruct He as [-> Hb]. exists false. by rewrite inert_lines.
Qed.

Lemma mysql_events_lines evs res contributed b :
  Forall mysql_ok evs -> exists b', foldl mysql_line (res, contributed, b) (concat (print_mysql <$> evs)) =
    (foldl read_event res evs, foldl add_event contributed evs, b').
Proof.
  intros H. revert res contributed b. induction H as [|e evs He _ IH]; intros res contributed b; [by exists b|].
  cbn [fmap list_fmap concat foldl]. rewrite foldl_app.
  destruct (mysql_event_lines e res contributed b He) as [b' ->]. apply IH.
Qed.

(** ** The result as a function of the events *)

Definition gtids (evs : list mysqlEvent) : list (string * Z) := omap ev_gtid evs.
Definition times (evs : list mysqlEvent) : list Time := (fun e => stamp_time (ev_stamp e)) <$> evs.

(** The first of some values, and the last. *)
Definition first_text (old : string) (l : list string) : string :=
  if String.eqb old "" then default "" (head l) else old.
Definition first_time (old : Time) (l : list Time) : Time := if IsZero old then default 0 (head l) else old.
Definition latest {A} (old : A) (l : list A) : A := default old (last l).

Lemma latest_cons {A} (old x : A) l : latest old (x :: l) = latest x l.
Proof. unfold latest. by destruct l as [|y l]; [|rewrite last_cons_cons; destruct (last (y :: l)) eqn:E; [|apply last_None in E]]. Qed.

Lemma first_text_cons old x l : x <> "" -> first_text old (x :: l) = first_text (if String.eqb old "" then x else old) l.
Proof.
  intros Hx. unfold first_text. destruct (String.eqb_spec old "") as [->|Ho]; cbn.
  - destruct (String.eqb_spec x ""); done.
  - destruct (String.eqb_spec old ""); done.
Qed.

Lemma first_time_cons old x l : 0 < x -> first_time old (x :: l) = first_time (if IsZero old then x else old) l.
Proof.
  intros Hx. unfold first_time, IsZero. destruct (Z.eqb_spec old 0) as [->|Ho]; cbn.
  - destruct (Z.eqb_spec x 0); [lia|done].
  - destruct (Z.eqb_spec old 0); done.
Qed.

Lemma gtid_text_nonempty g : gtid_text g <> "".
Proof. unfold gtid_text. by destruct (fst g). Qed.

Lemma read_events evs res :
  Forall mysql_ok evs ->
  foldl read_event res evs =
    mkScanResult (latest (sr_PreviousGTIDs res) (omap first_previous evs)) (sr_GTIDSet res)
      (first_text (sr_FirstGTID res) (gtid_text <$> gtids evs)) (latest (sr_LastGTID res) (gtid_text <$> gtids evs))
      (first_time (sr_FirstEventTime res) (times evs)) (latest (sr_LastEventTime res) (times evs)).
Proof.
  intros H. revert res. induction H as [|e evs [Ht _] _ IH]; intros res.
  - destruct res as [p s f l ft lt]. cbn. unfold first_text, first_time, latest, IsZero. cbn.
    destruct (String.eqb_spec f "") as [->|?], (Z.eqb_spec ft 0) as [->|?]; done.
  - cbn [foldl]. rewrite IH. unfold times. cbn [fmap list_fmap]. fold (times evs).
    rewrite first_time_cons, latest_cons by (by apply stamp_time_pos).
    unfold gtids. cbn [omap list_omap]. fold (omap ev_gtid evs) (omap first_previous evs) (gtids evs).
    unfold read_event, note_gtid, with_previous, stamped.
    destruct (ev_gtid e) as [g|]; cbn [fmap list_fmap]; rewrite ?first_text_cons, ?latest_cons by apply gtid_text_nonempty;
      destruct (first_previous e); cbn; by rewrite ?latest_cons.
Qed.

Lemma uuid_key uuid : uuid_ok uuid -> key_ok (ToLower (ToLower uuid)).
Proof.
  intros Hu. rewrite ToLower_idem. destruct (uuid_head _ Hu) as (c & s & -> & _). destruct Hu as [Hc _]. split; [done|].
  apply (all_chars_impl is_uuid_char).
  - intros d. destruct d as [[] [] [] [] [] [] [] []]; done.
  - apply all_chars_ToLower; [|done]. intros d. destruct d as [[] [] [] [] [] [] [] []]; done.
Qed.

Lemma add_events_spec evs set :
  Forall mysql_ok evs -> text_wf set ->
  text_wf (foldl add_event set evs) /\
  forall u n, gtid_in (foldl add_event set evs) u n <-> gtid_in set u n \/ (u, n) ∈ gtids evs.
Proof.
  intros H. revert set. induction H as [|e evs He _ IH]; intros set Hs.
  - split; [done|]. intros u n. cbn. rewrite elem_of_nil. tauto.
  - cbn [foldl]. unfold gtids. cbn [omap list_omap]. fold (gtids evs).
    destruct e as [h tail uuid n|h tail sets|h tail body]; cbn [add_event ev_gtid]; [|by apply IH..].
    destruct He as (_ & Hu & Hn). assert (iv_valid (mkGTIDInterval n n)) as Hv by (unfold iv_valid; cbn; lia).
    unfold add_event; cbn [ev_gtid]; unfold add_gtid; cbn [fst snd].
    destruct (IH (GTIDSet_AddInterval set (ToLower uuid) (mkGTIDInterval n n))) as [Hw Hin];
      [by apply GTIDSet_AddInterval_text; [..|apply uuid_key]|].
    split; [done|]. intros u m. rewrite Hin, GTIDSet_AddInterval_in by (try done; by apply text_wf_set).
    cbn. rewrite ToLower_idem, elem_of_cons. split.
    + intros [[?|[-> ?]]|?]; [by left|right; left; f_equal; lia|by right; right].
    + intros [?|[[= -> ->]|?]]; [by left; left|left; right; split; [done|lia]|by right].
Qed.

(** ** The text a client prints *)

Definition fits (l : string) : Prop := line_ok l = true /\ Z.of_nat (String.length l) < max_line.

Definition printed (ls : list string) : output := mkOutput (print_lines ls) None.

Lemma printed_err ls : Forall fits ls -> scanner_Err (printed ls) = None.
Proof.
  intros H. unfold scanner_Err, printed, line_too_long. cbn. rewrite raw_print_lines.
  - replace (existsb _ ls) with false; [done|]. symmetry. apply not_true_is_false. rewrite existsb_exists.
    intros (l & Hl & Hlen). boolp. rewrite Forall_forall in H. apply list_elem_of_In, H in Hl as [_ ?]. lia.
  - eapply Forall_impl; [exact H|]. by intros l [? _].
Qed.

Lemma printed_lines ls : Forall fits ls -> scan_lines (out_text (printed ls)) = ls.
Proof. intros H. apply scan_print_lines. eapply Forall_impl; [exact H|]. by intros l [? _]. Qed.

Lemma scanMySQL_printed preamble evs :
  Forall inert preamble -> Forall mysql_ok evs -> Forall fits (preamble ++ concat (print_mysql <$> evs)) ->
  exists set, scanMySQL (printed (preamble ++ concat (print_mysql <$> evs))) =
      Ok (mkScanResult (latest "" (omap first_previous evs)) (GTIDSet_String set) (default "" (head (gtid_text <$> gtids evs)))
            (latest "" (gtid_text <$> gtids evs)) (default 0 (head (times evs))) (latest 0 (times evs))) /\
    ParseGTIDSet (GTIDSet_String set) = Ok set /\
    forall u n, gtid_in set u n <-> (u, n) ∈ gtids evs.
Proof.
  intros Hp He Hf. unfold scanMySQL. rewrite printed_lines, printed_err, foldl_app, inert_lines by done.
  destruct (mysql_events_lines evs ScanResult_zero ∅ false He) as [b ->].
  destruct (add_events_spec evs ∅ He text_wf_empty) as [Hw Hin]. exists (foldl add_event ∅ evs).
  split_and!; [by rewrite read_events|by apply ParseGTIDSet_String|].
  intros u n. rewrite Hin. pose proof (gtid_in_empty u n). tauto.
Qed.

Lemma one_line_previous evs : Forall one_line_set evs -> omap first_previous evs = canonicalGTIDSet <$> omap previous_set evs.
Proof.
  induction 1 as [|e evs He H IH]; [done|]. cbn [omap list_omap]. fold (omap first_previous evs) (omap previous_set evs). rewrite IH.
  destruct e as [| h tail [|s [|s' sets]]|]; cbn in *; try done; lia.
Qed.

Lemma canonical_parses raw set : ParseGTIDSet raw = Ok set -> ParseGTIDSet (canonicalGTIDSet raw) = Ok set.
Proof. intros E. unfold canonicalGTIDSet. rewrite E. by eapply ParseGTIDSet_String, ParseGTIDSet_wf. Qed.

(** The last of some sets, read back from its canonical text. *)
Lemma latest_canonical raws :
  match last raws with
  | Some whole => forall set, ParseGTIDSet whole = Ok set -> ParseGTIDSet (latest "" (canonicalGTIDSet <$> raws)) = Ok set
  | None => latest "" (canonicalGTIDSet <$> raws) = ""
  end.
Proof.
  unfold latest. rewrite fmap_last. destruct (last raws) as [whole|]; cbn; [|done]. intros set. apply canonical_parses.
Qed.

(** ** Lines of a MariaDB log *)

Definition tab : string := String "009" "".
Definition gtid_tail (crc : string) (d s n : Z) (flags : string) : string :=
  (crc +:+ tab) +:+ "GTID " +:+ FormatUint d +:+ "-" +:+ FormatUint s +:+ "-" +:+ FormatUint n +:+ flags.
Definition list_tail (crc body : string) : string := (crc +:+ tab) +:+ "Gtid list [" +:+ body +:+ "]".

(** A checksum field, and the flags after a GTID. *)
Definition crc_ok (crc : string) : Prop :=
  all_chars not_G crc = true /\ forall c s, crc = String c s -> is_digit c = false.
Definition flags_ok (flags : string) : Prop :=
  all_chars not_G flags = true /\ forall c s, flags = String c s -> is_word c = false.
Definition is_list_char (c : ascii) : bool := is_digit c || Ascii.eqb c "," || Ascii.eqb c "-".

Lemma event_avoids c : not_G c = true -> avoids mariadbGTIDEventRe c.
Proof. intros Hc. apply avoids_WordB. intros <-. done. Qed.
Lemma list_avoids c : not_G c = true -> avoids mariadbGtidListRe c.
Proof. intros Hc. apply avoids_Lit. intros <-. done. Qed.

Lemma digits_not_G n : all_chars not_G (FormatUint n) = true.
Proof.
  eapply all_chars_impl; [|apply FormatUint_digits]. intros c. by destruct c as [[] [] [] [] [] [] [] []].
Qed.

Lemma crc_tab crc : crc_ok crc -> all_chars not_G (crc +:+ tab) = true.
Proof. intros [H _]. by rewrite all_chars_app, H. Qed.

Lemma digits_last prev n : exists c, last_char prev (FormatUint n) = Some c /\ is_digit c = true.
Proof.
  destruct (FormatUint_cons n) as (c & s & E & Hc). pose proof (FormatUint_digits n) as Hd. rewrite E in *.
  clear E n. revert prev c Hc Hd. induction s as [|x s IH]; intros prev c Hc Hd; cbn; [by exists c|].
  cbn in Hd. boolp. apply (IH (Some c) x); cbn; [done|]. by apply andb_true_iff.
Qed.

Lemma gtid_event_match h crc d s n flags :
  stamp_ok (hd_stamp h) -> crc_ok crc -> flags_ok flags ->
  FindStringSubmatch mariadbGTIDEventRe (print_header h (gtid_tail crc d s n flags)) =
    Some [FormatUint d; FormatUint s; FormatUint n].
Proof.
  intros Ht Hc [_ Hf]. unfold gtid_tail. rewrite find_in_tail by auto using event_avoids, crc_tab.
  rewrite (last_char_app _ crc tab). apply find_here. unfold mariadbGTIDEventRe. regexp_steps.
  assert (forall c s', flags = String c s' -> is_digit c = false) as Hd.
  { intros c s' E. apply Hf in E. unfold is_word in E. by boolp. }
  apply match_digits; [by intros c s' [= <- _]|]. rewrite taken_app. regexp_steps.
  apply match_digits; [by intros c s' [= <- _]|]. rewrite taken_app. regexp_steps.
  apply match_digits; [done|]. rewrite taken_app. apply step_WordB; [|done].
  edestruct digits_last as (c' & E & Hc'). unfold word_at. rewrite E.
  assert (is_word c' = true) as -> by (unfold is_word; by rewrite Hc').
  destruct flags as [|f flags]; [done|]. by rewrite (Hf f flags).
Qed.

Lemma gtid_event_not_list h crc d s n flags :
  stamp_ok (hd_stamp h) -> crc_ok crc -> flags_ok flags ->
  FindStringSubmatch mariadbGtidListRe (print_header h (gtid_tail crc d s n flags)) = None.
Proof.
  intros Ht Hc [Hf _]. unfold gtid_tail. rewrite find_in_tail by auto using list_avoids, crc_tab.
  set (rest := FormatUint d +:+ _). set (prev := last_char _ _).
  change (find_from mariadbGtidListRe prev ("GTID " +:+ rest)) with (find_from mariadbGtidListRe (Some " "%char) rest).
  rewrite <- (append_nil_r rest). rewrite (find_skip_class not_G); [done|exact list_avoids|].
  unfold rest. rewrite !all_chars_app, !digits_not_G, Hf. done.
Qed.

Lemma list_event_match h crc body :
  stamp_ok (hd_stamp h) -> crc_ok crc -> all_chars is_list_char body = true ->
  FindStringSubmatch mariadbGtidListRe (print_header h (list_tail crc body)) = Some [body].
Proof.
  intros Ht Hc Hb. unfold list_tail. rewrite find_in_tail by auto using list_avoids, crc_tab.
  apply find_here. unfold mariadbGtidListRe. regexp_steps.
  apply match_Rep; [done|done|by apply ends_stop|]. rewrite taken_app. by regexp_steps.
Qed.

Lemma list_event_not_gtid h crc body :
  stamp_ok (hd_stamp h) -> crc_ok crc -> all_chars is_list_char body = true ->
  FindStringSubmatch mariadbGTIDEventRe (print_header h (list_tail crc body)) = None.
Proof.
  intros Ht Hc Hb. unfold list_tail. rewrite find_in_tail by auto using event_avoids, crc_tab.
  rewrite (last_char_app _ crc tab). set (rest := body +:+ _). cbn [last_char tab].
  change (find_from mariadbGTIDEventRe (Some "009"%char) ("Gtid list [" +:+ rest))
    with (find_from mariadbGTIDEventRe (Some "["%char) rest).
  rewrite <- (append_nil_r rest). rewrite (find_skip_class not_G); [|exact event_avoids|].
  - unfold mariadbGTIDEventRe. cbn [find_from match_at]. by destruct (word_at _ _).
  - unfold rest. rewrite all_chars_app. apply andb_true_iff. split; [|done].
    eapply all_chars_impl; [|exact Hb]. intros c. by destruct c as [[] [] [] [] [] [] [] []].
Qed.

(** ** The events of a MariaDB log *)

Record mariaTxn := mkMariaTxn { mt_domain : Z; mt_server : Z; mt_seq : Z }.

Inductive mariaKind :=
| KGtid (crc : string) (t : mariaTxn) (flags : string)
| KList (crc : string) (body : string)
| KOther (tail : string).

(** An event: its header, what it is, and the lines that follow the header. *)
Record mariaEvent := mkMariaEvent { mv_header : header; mv_kind : mariaKind; mv_body : list string }.

Definition kind_tail (k : mariaKind) : string :=
  match k with
  | KGtid crc t flags => gtid_tail crc (mt_domain t) (mt_server t) (mt_seq t) flags
  | KList crc body => list_tail crc body
  | KOther tail => tail
  end.

Definition header_text (e : mariaEvent) : string := print_header (mv_header e) (kind_tail (mv_kind e)).
Definition print_maria (e : mariaEvent) : list string := print_at (mv_header e) :: header_text e :: mv_body e.

Definition no_header (l : string) : Prop := FindStringSubmatch eventHeaderRe l = None.

Definition txn_ok (t : mariaTxn) : Prop :=
  0 <= mt_domain t <= MaxUint32 /\ 0 <= mt_server t <= MaxUint32 /\ 0 <= mt_seq t <= MaxUint64.

Definition maria_ok (e : mariaEvent) : Prop :=
  stamp_ok (hd_stamp (mv_header e)) /\ 0 <= hd_end (mv_header e) <= MaxInt64 /\ Forall no_header (mv_body e) /\
  match mv_kind e with
  | KGtid crc t flags => crc_ok crc /\ txn_ok t /\ flags_ok flags
  | KList crc body => crc_ok crc /\ all_chars is_list_char body = true
  | KOther tail => (forall c s, tail = String c s -> is_digit c = false) /\
      FindStringSubmatch mariadbGtidListRe (header_text e) = None /\
      FindStringSubmatch mariadbGTIDEventRe (header_text e) = None
  end.

Definition mv_time (e : mariaEvent) : Time := stamp_time (hd_stamp (mv_header e)).
Definition mv_txn (e : mariaEvent) : option mariaTxn := match mv_kind e with KGtid _ t _ => Some t | _ => None end.
Definition mv_list (e : mariaEvent) : option string := match mv_kind e with KList _ body => Some body | _ => None end.
Definition txn_text (t : mariaTxn) : string :=
  FormatUint (mt_domain t) +:+ "-" +:+ FormatUint (mt_server t) +:+ "-" +:+ FormatUint (mt_seq t).
Definition txns (evs : list mariaEvent) : list mariaTxn := omap mv_txn evs.

Lemma maria_header_match e :
  maria_ok e -> FindStringSubmatch eventHeaderRe (header_text e) = Some [print_date (hd_stamp (mv_header e)); print_clock (hd_stamp (mv_header e))].
Proof. intros [Ht _]. by apply header_match. Qed.

Lemma maria_endpos e : maria_ok e -> FindStringSubmatch endLogPosRe (header_text e) = Some [FormatUint (hd_end (mv_header e))].
Proof.
  intros (Ht & _ & _ & Hk). apply endpos_match; [done|]. destruct (mv_kind e) as [crc t flags|crc body|tail]; cbn in *.
  - destruct Hk as ([_ Hc] & _). intros c s E. destruct crc as [|c' crc]; cbn in E.
    + by injection E as <- _.
    + injection E as <- _. by eapply Hc.
  - destruct Hk as ([_ Hc] & _). intros c s E. destruct crc as [|c' crc]; cbn in E.
    + by injection E as <- _.
    + injection E as <- _. by eapply Hc.
  - by destruct Hk.
Qed.

Lemma maria_list_match e :
  maria_ok e -> FindStringSubmatch mariadbGtidListRe (header_text e) = (fun body => [body]) <$> mv_list e.
Proof.
  destruct e as [h k body]. unfold mv_list, header_text. intros (Ht & _ & _ & Hk). cbn in *. destruct k as [crc t flags|crc l|tail]; cbn.
  - destruct Hk as (Hc & _ & Hf). by apply gtid_event_not_list.
  - destruct Hk as (Hc & Hb). by apply list_event_match.
  - by destruct Hk as (_ & ? & _).
Qed.

Lemma maria_gtid_match e :
  maria_ok e -> FindStringSubmatch mariadbGTIDEventRe (header_text e) =
    (fun t => [FormatUint (mt_domain t); FormatUint (mt_server t); FormatUint (mt_seq t)]) <$> mv_txn e.
Proof.
  destruct e as [h k body]. unfold mv_txn, header_text. intros (Ht & _ & _ & Hk). cbn in *. destruct k as [crc t flags|crc l|tail]; cbn.
  - destruct Hk as (Hc & _ & Hf). by apply gtid_event_match.
  - destruct Hk as (Hc & Hb). by apply list_event_not_gtid.
  - by destruct Hk as (_ & _ & ?).
Qed.

Lemma at_no_header h : no_header (print_at h).
Proof. apply (not_header_space ("at " +:+ FormatUint (hd_at h))). Qed.

Lemma txn_parse t :
  txn_ok t -> ParseUint_clamped (FormatUint (mt_domain t)) 32 = mt_domain t /\
    ParseUint_clamped (FormatUint (mt_server t)) 32 = mt_server t /\ ParseUint_clamped (FormatUint (mt_seq t)) 64 = mt_seq t.
Proof.
  unfold txn_ok, MaxUint32, MaxUint64. intros (? & ? & ?). by rewrite !ParseUint_clamped_format by lia.
Qed.

(** *** The set and the bounds *)

Definition maria_read (res : ScanResult) (e : mariaEvent) : ScanResult :=
  let res := stamped res (mv_time e) in
  match mv_list e, mv_txn e with
  | Some body, _ => if String.eqb (sr_PreviousGTIDs res) "" then with_previous res body else res
  | None, Some t => note_gtid res (txn_text t)
  | None, None => res
  end.

Definition maria_keep (pos : mariaPos) (t : mariaTxn) : mariaPos := pos_keep pos (mt_domain t) (mkMariaEntry (mt_server t) (mt_seq t)).
Definition maria_add (pos : mariaPos) (e : mariaEvent) : mariaPos :=
  match mv_txn e with Some t => maria_keep pos t | None => pos end.

Lemma no_header_lines st body : Forall no_header body -> foldl maria_line st body = st.
Proof. induction 1 as [|l body Hl _ IH]; [done|]. cbn [foldl]. destruct st. unfold maria_line at 2. by rewrite Hl. Qed.

Lemma maria_header_line e res accum :
  maria_ok e -> maria_line (res, accum) (header_text e) = (maria_read res e, maria_add accum e).
Proof.
  intros He. pose proof He as (Ht & _ & _ & Hk). unfold maria_line.
  rewrite maria_header_match, maria_list_match, maria_gtid_match by done.
  unfold note_time. rewrite eventTime_print by done. unfold maria_read, maria_add, mv_list, mv_txn, mv_time, stamped.
  generalize (stamp_time (hd_stamp (mv_header e))). intros time.
  destruct (mv_kind e) as [crc t flags|crc l|tail]; cbn [fmap option_fmap option_map]; [|reflexivity..].
  destruct Hk as (_ & (Hd & Hs & Hq)%txn_parse & _). rewrite Hd, Hs, Hq. reflexivity.
Qed.

Lemma maria_event_lines e res accum :
  maria_ok e -> foldl maria_line (res, accum) (print_maria e) = (maria_read res e, maria_add accum e).
Proof.
  intros He. pose proof He as (_ & _ & Hb & _). unfold print_maria. cbn [foldl].
  assert (maria_line (res, accum) (print_at (mv_header e)) = (res, accum)) as ->.
  { unfold maria_line. by rewrite (at_no_header (mv_header e)). }
  rewrite maria_header_line by done. by apply no_header_lines.
Qed.

Lemma maria_events_lines evs res accum :
  Forall maria_ok evs ->
  foldl maria_line (res, accum) (concat (print_maria <$> evs)) = (foldl maria_read res evs, foldl maria_add accum evs).
Proof.
  intros H. revert res accum. induction H as [|e evs He _ IH]; intros res accum; [done|].
  cbn [fmap list_fmap concat foldl]. by rewrite foldl_app, maria_event_lines.
Qed.

Lemma txn_text_nonempty t : txn_text t <> "".
Proof. unfold txn_text. by destruct (FormatUint (mt_domain t)). Qed.

(** The first list that is not empty is the set before the file. *)
Definition first_list (old : string) (l : list string) : string :=
  foldl (fun acc body => if String.eqb acc "" then body else acc) old l.

Lemma maria_reads evs res :
  Forall maria_ok evs ->
  foldl maria_read res evs =
    mkScanResult (first_list (sr_PreviousGTIDs res) (omap mv_list evs)) (sr_GTIDSet res)
      (first_text (sr_FirstGTID res) (txn_text <$> txns evs)) (latest (sr_LastGTID res) (txn_text <$> txns evs))
      (first_time (sr_FirstEventTime res) (mv_time <$> evs)) (latest (sr_LastEventTime res) (mv_time <$> evs)).
Proof.
  intros H. revert res. induction H as [|e evs [Ht _] _ IH]; intros res.
  - destruct res as [p s f l ft lt]. cbn. unfold first_text, first_time, latest, IsZero. cbn.
    destruct (String.eqb_spec f "") as [->|?], (Z.eqb_spec ft 0) as [->|?]; done.
  - cbn [foldl]. rewrite IH. cbn [fmap list_fmap]. rewrite first_time_cons, latest_cons by (by apply stamp_time_pos).
    unfold txns. cbn [omap list_omap]. fold (omap mv_txn evs) (omap mv_list evs) (txns evs).
    unfold maria_read, mv_list, mv_txn, note_gtid, with_previous, stamped.
    destruct (mv_kind e) as [crc t flags|crc l|tail]; cbn [fmap list_fmap];
      rewrite ?first_text_cons, ?latest_cons by apply txn_text_nonempty; cbn; [done| |done].
    destruct (String.eqb_spec (sr_PreviousGTIDs res) ""); done.
Qed.

Lemma mariaScanAccum_add_keep pos t :
  mariaScanAccum_add pos (mt_domain t) (mt_server t) (mt_seq t) = maria_keep pos t.
Proof. done. Qed.

Lemma mariaScanAccum_string_pos pos : mariaScanAccum_string pos = mariaPos_string pos.
Proof.
  unfold mariaScanAccum_string, mariaPos_string. destruct (Nat.eqb_spec (size pos) 0) as [E|E]; [|done].
  apply map_size_empty_iff in E as ->. by rewrite map_to_list_empty.
Qed.

(** Each domain at the highest sequence number of the file, with a server that
    wrote it. *)
Definition highest_of (pos : mariaPos) (l : list mariaTxn) : Prop :=
  (forall d e, pos !! d = Some e ->
     mkMariaTxn d (me_server e) (me_seq e) ∈ l /\ forall t, t ∈ l -> mt_domain t = d -> mt_seq t <= me_seq e) /\
  (forall t, t ∈ l -> is_Some (pos !! mt_domain t)).

Lemma highest_of_snoc pos l t : highest_of pos l -> highest_of (maria_keep pos t) (l ++ [t]).
Proof.
  intros [H1 H2]. destruct t as [dt st qt]. split.
  - intros d e. unfold maria_keep. rewrite pos_keep_lookup. cbn. case_decide as E.
    + subst dt. destruct (pos !! d) as [x|] eqn:Ex.
      * destruct (H1 d x Ex) as [Hx Hmax]. destruct (Z.leb_spec (me_seq x) qt); intros [= <-]; cbn; (split; [apply elem_of_app|]).
        -- right. by apply list_elem_of_singleton.
        -- intros t [Ht| ->%list_elem_of_singleton]%elem_of_app Hd; [|done]. specialize (Hmax t Ht Hd). lia.
        -- by left.
        -- intros t [Ht| ->%list_elem_of_singleton]%elem_of_app Hd; [by apply Hmax|]. cbn. lia.
      * intros [= <-]. cbn. split; [apply elem_of_app; right; by apply list_elem_of_singleton|].
        intros t [Ht| ->%list_elem_of_singleton]%elem_of_app Hd; [|done].
        destruct (H2 t Ht) as [y Hy]. congruence.
    + intros Hd. destruct (H1 d e Hd) as [Hx Hmax]. split; [apply elem_of_app; by left|].
      intros t [Ht| ->%list_elem_of_singleton]%elem_of_app Hdt; [by apply Hmax|]. cbn in Hdt. congruence.
  - intros t Ht. unfold maria_keep. rewrite pos_keep_lookup. cbn. case_decide as E; [eauto|].
    apply elem_of_app in Ht as [Ht| ->%list_elem_of_singleton]; [by apply H2|]. done.
Qed.

Lemma maria_adds evs pos l :
  Forall maria_ok evs -> pos_wf pos -> highest_of pos l ->
  pos_wf (foldl maria_add pos evs) /\ highest_of (foldl maria_add pos evs) (l ++ txns evs).
Proof.
  intros H. revert pos l. induction H as [|e evs He _ IH]; intros pos l Hw Hp; [by rewrite app_nil_r|].
  cbn [foldl]. unfold txns. cbn [omap list_omap]. fold (txns evs). destruct He as (_ & _ & _ & Hk). unfold maria_add at 2 4, mv_txn.
  destruct (mv_kind e) as [crc t flags|crc b|tail]; [|by apply IH..].
  destruct Hk as (_ & (Hd & Hs & Hq) & _). rewrite cons_middle, app_assoc. apply IH; [|by apply highest_of_snoc].
  apply pos_keep_wf; [done|]. unfold entry_ok, MaxUint32, MaxUint64 in *. cbn. lia.
Qed.

Lemma scanMariaDB_printed preamble evs :
  Forall no_header preamble -> Forall maria_ok evs -> Forall fits (preamble ++ concat (print_maria <$> evs)) ->
  exists pos, scanMariaDB (printed (preamble ++ concat (print_maria <$> evs))) =
      Ok (mkScanResult (first_list "" (omap mv_list evs)) (mariaPos_string pos) (default "" (head (txn_text <$> txns evs)))
            (latest "" (txn_text <$> txns evs)) (default 0 (head (mv_time <$> evs))) (latest 0 (mv_time <$> evs))) /\
    parseMariaPos (mariaPos_string pos) = Ok pos /\ highest_of pos (txns evs).
Proof.
  intros Hp He Hf. unfold scanMariaDB. rewrite printed_lines, printed_err, foldl_app, (no_header_lines _ preamble) by done.
  rewrite maria_events_lines by done. destruct (maria_adds evs ∅ [] He) as [Hw Hh].
  { apply map_Forall_empty. } { split; [intros d e; by rewrite lookup_empty|by intros t ?%elem_of_nil]. }
  exists (foldl maria_add ∅ evs). rewrite mariaScanAccum_string_pos, maria_reads by done.
  split_and!; [done|by apply parseMariaPos_string|done].
Qed.

(** *** The boundaries *)

(** Each event starts where the one before it ends; the first after the magic. *)
Fixpoint contiguous (p : Z) (evs : list mariaEvent) : Prop :=
  match evs with
  | [] => True
  | e :: evs' => hd_at (mv_header e) = p /\ p < hd_end (mv_header e) /\ contiguous (hd_end (mv_header e)) evs'
  end.

Definition mv_boundary (e : mariaEvent) : option TxnBoundary :=
  (fun t => mkTxnBoundary (mt_domain t) (mt_server t) (mt_seq t) (hd_at (mv_header e)) (mv_time e)) <$> mv_txn e.

Lemma boundary_skip st body : Forall no_header body -> foldl boundary_line st body = st.
Proof. induction 1 as [|l body Hl _ IH]; [done|]. cbn [foldl]. destruct st. unfold boundary_line at 2. by rewrite Hl. Qed.

Lemma boundary_event_lines e out p :
  maria_ok e -> hd_at (mv_header e) = p ->
  foldl boundary_line (out, p) (print_maria e) = (out ++ omap mv_boundary [e], hd_end (mv_header e)).
Proof.
  intros He Hp. pose proof He as (Ht & Hend & Hb & Hk). cbn [print_maria foldl].
  unfold boundary_line at 3. rewrite (at_no_header (mv_header e)). unfold boundary_line at 2.
  rewrite maria_header_match, maria_gtid_match, maria_endpos by done.
  rewrite boundary_skip by done. rewrite <- FormatInt_FormatUint, ParseInt_FormatInt, eventTime_print by (done || lia).
  cbn. unfold mv_boundary, mv_txn. destruct (mv_kind e) as [crc t flags|crc l|tail]; cbn; rewrite ?app_nil_r; [|done..].
  destruct Hk as (_ & (Hd & Hs & Hq)%txn_parse & _). by rewrite Hd, Hs, Hq, Hp.
Qed.

Lemma boundary_events_lines evs out p :
  Forall maria_ok evs -> contiguous p evs ->
  fst (foldl boundary_line (out, p) (concat (print_maria <$> evs))) = out ++ omap mv_boundary evs.
Proof.
  intros H. revert out p. induction H as [|e evs He _ IH]; intros out p Hc; [by rewrite app_nil_r|].
  destruct Hc as (Hat & _ & Hc). cbn [fmap list_fmap concat]. rewrite foldl_app, boundary_event_lines, IH by done.
  rewrite <- app_assoc. f_equal. by rewrite <- omap_app.
Qed.

Lemma boundaries_after evs p b : contiguous p evs -> b ∈ omap mv_boundary evs -> p <= tb_StartPos b.
Proof.
  revert p. induction evs as [|e evs IH]; intros p; [by intros _ ?%elem_of_nil|]. intros (Hat & Hlt & Hc) Hb.
  apply list_elem_of_omap in Hb as (x & [->|Hx]%elem_of_cons & Hm).
  - unfold mv_boundary in Hm. apply fmap_Some in Hm as (t & _ & ->). cbn. lia.
  - assert (b ∈ omap mv_boundary evs) as Hb by (apply list_elem_of_omap; eauto). specialize (IH _ Hc Hb). lia.
Qed.

Lemma boundaries_sorted evs p : contiguous p evs -> pos_sorted (omap mv_boundary evs).
Proof.
  revert p. induction evs as [|e evs IH]; intros p; [constructor|]. intros (Hat & Hlt & Hc). cbn.
  destruct (mv_boundary e) as [b|] eqn:Eb; [|by eapply IH]. constructor; [by eapply IH|].
  apply Forall_forall. intros b' Hb'. pose proof (boundaries_after _ _ _ Hc Hb').
  unfold mv_boundary in Eb. apply fmap_Some in Eb as (t & _ & ->). cbn. lia.
Qed.

Lemma boundaries_printed preamble evs :
  Forall no_header preamble -> Forall maria_ok evs -> contiguous 4 evs ->
  Forall fits (preamble ++ concat (print_maria <$> evs)) ->
  scanMariaDBBoundaries (printed (preamble ++ concat (print_maria <$> evs))) = Ok (omap mv_boundary evs).
Proof.
  intros Hp He Hc Hf. unfold scanMariaDBBoundaries. rewrite printed_lines, printed_err, foldl_app, (boundary_skip _ preamble) by done.
  pose proof (boundary_events_lines evs [] 4 He Hc) as E. destruct (foldl boundary_line _ _) as [out q]. by cbn in E; subst.
Qed.

(** ** Running a client *)

(** A client that starts, prints some lines and exits cleanly. *)
Definition clean_process (ls : list string) : process := mkProcess (Ok tt) (Ok tt) (Ok tt) (printed ls) (Ok tt).
Definition read_args (path : string) : list string := ["--base64-output=DECODE-ROWS"; path].

Lemma runBinlogClient_clean {T} exec binPath procName path ls (parse : output -> result T) :
  path <> "" -> exec binPath (read_args path) = clean_process ls ->
  runBinlogClient exec binPath procName path parse = parse (printed ls).
Proof.
  intros Hp He. unfold runBinlogClient, ReadArgs. destruct (String.eqb_spec path ""); [done|]. cbn.
  unfold read_args in He. rewrite He. cbn. done.
Qed.

Lemma runBinlogClient_inv {T} exec binPath procName path (parse : output -> result T) x :
  runBinlogClient exec binPath procName path parse = Ok x ->
  path <> "" /\ let cmd := exec binPath (read_args path) in
  ps_start cmd = Ok tt /\ ps_wait cmd = Ok tt /\ parse (ps_output cmd) = Ok x.
Proof.
  unfold runBinlogClient, ReadArgs. destruct (String.eqb_spec path ""); [done|]. cbn. intros H. inv_result.
  by repeat match goal with u : unit |- _ => destruct u end.
Qed.

Lemma Scan_complete r mariadb res : Scan r mariadb = Ok res -> out_err r = None /\ line_too_long max_line (out_text r) = false.
Proof.
  unfold Scan, scanMySQL, scanMariaDB, scanner_Err.
  destruct mariadb; [destruct (foldl maria_line _ _)|destruct (foldl mysql_line _ _) as [[? ?] ?]];
    destruct (line_too_long _ _), (out_err r) as [[]|]; done.
Qed.

Lemma boundaries_complete r bs :
  scanMariaDBBoundaries r = Ok bs -> out_err r = None /\ line_too_long max_line (out_text r) = false.
Proof.
  unfold scanMariaDBBoundaries, scanner_Err. destruct (foldl boundary_line _ _).
  by destruct (line_too_long _ _), (out_err r) as [[]|].
Qed.

(** ** Properties *)

(** C37: Scanning a MySQL binary log gives back its transactions: of the text that
    [mysqlbinlog] prints for any sequence of events, in whose bodies no line looks like
    an event header or a GTID assignment ([inert]; compare [statement_text_counts]),
    the scan yields a set that parses to exactly the GTIDs of the file, the first and
    the last of them, and the times of the first and the last event; and where every
    Previous-GTIDs event prints its set on one line (compare [later_sets_are_dropped]),
    the set of the last one, or none when there is no such event. *)
Theorem mysql_scan_is_exact (exec_Command : string -> list string -> process) binPath path preamble evs :
  path <> "" ->
  exec_Command (or_default binPath) (read_args path) = clean_process (preamble ++ concat (print_mysql <$> evs)) ->
  Forall inert preamble -> Forall mysql_ok evs -> Forall fits (preamble ++ concat (print_mysql <$> evs)) ->
  exists r set, MysqlbinlogScanner exec_Command binPath false path = Ok r /\
    ParseGTIDSet (sr_GTIDSet r) = Ok set /\ (forall u n, gtid_in set u n <-> (u, n) ∈ gtids evs) /\
    sr_FirstGTID r = default "" (head (gtid_text <$> gtids evs)) /\ sr_LastGTID r = default "" (last (gtid_text <$> gtids evs)) /\
    sr_FirstEventTime r = default 0 (head (times evs)) /\ sr_LastEventTime r = default 0 (last (times evs)) /\
    (Forall one_line_set evs ->
       match last (omap previous_set evs) with
       | Some whole => forall P, ParseGTIDSet whole = Ok P -> ParseGTIDSet (sr_PreviousGTIDs r) = Ok P
       | None => sr_PreviousGTIDs r = ""
       end).
Proof.
  intros Hne Hx Hp He Hf. unfold MysqlbinlogScanner. rewrite (runBinlogClient_clean _ _ _ _ _ _ Hne Hx).
  destruct (scanMySQL_printed preamble evs Hp He Hf) as (set & E & Hs & Hin). eexists _, set. split; [exact E|].
  split_and!; try done. intros Ho. cbn [sr_PreviousGTIDs]. rewrite one_line_previous by done. apply latest_canonical.
Qed.

(** Scanning a MariaDB binary log gives back each domain at its highest
    sequence number, with a server that wrote it; and the boundaries are, in file
    order, the transactions with the byte offsets at which their events start,
    increasing, whenever the events of the file follow one another. *)
Theorem maria_scan_is_exact (exec_Command : string -> list string -> process) binPath path preamble evs :
  path <> "" ->
  exec_Command (or_default binPath) (read_args path) = clean_process (preamble ++ concat (print_maria <$> evs)) ->
  Forall no_header preamble -> Forall maria_ok evs -> contiguous 4 evs ->
  Forall fits (preamble ++ concat (print_maria <$> evs)) ->
  (exists pos, MysqlbinlogScanner exec_Command binPath true path =
      Ok (mkScanResult (first_list "" (omap mv_list evs)) (mariaPos_string pos) (default "" (head (txn_text <$> txns evs)))
            (latest "" (txn_text <$> txns evs)) (default 0 (head (mv_time <$> evs))) (latest 0 (mv_time <$> evs))) /\
    parseMariaPos (mariaPos_string pos) = Ok pos /\ highest_of pos (txns evs)) /\
  MariadbTxnBoundaries exec_Command binPath path = Ok (omap mv_boundary evs) /\ pos_sorted (omap mv_boundary evs).
Proof.
  intros Hne Hx Hp He Hc Hf. unfold MysqlbinlogScanner, MariadbTxnBoundaries.
  rewrite !(runBinlogClient_clean _ _ _ _ _ _ Hne Hx). split_and!.
  - by apply scanMariaDB_printed.
  - by apply boundaries_printed.
  - by eapply boundaries_sorted.
Qed.

(** C40: A scan is whole or it fails: a result comes only from a client that
    started and exited cleanly, after all of its output was read, with no line of
    4 MiB or more; nothing is reported of a file read in part. *)
Theorem scan_is_never_partial (exec_Command : string -> list string -> process) binPath mariadb path :
  let cmd := exec_Command (or_default binPath) (read_args path) in
  let whole := path <> "" /\ ps_start cmd = Ok tt /\ ps_wait cmd = Ok tt /\ out_err (ps_output cmd) = None /\
    line_too_long max_line (out_text (ps_output cmd)) = false in
  (forall res, MysqlbinlogScanner exec_Command binPath mariadb path = Ok res -> whole) /\
  (forall bs, MariadbTxnBoundaries exec_Command binPath path = Ok bs -> whole).
Proof.
  intros cmd whole. subst whole. unfold MysqlbinlogScanner, MariadbTxnBoundaries. split; intros x (Hne & Hs & Hw & Hx)%runBinlogClient_inv;
    (split; [done|]); (split; [done|]); (split; [done|]).
  - by apply Scan_complete in Hx.
  - by apply boundaries_complete in Hx.
Qed.

(** ** Witnesses *)

Module ScanSample.
Definition uuid1 : string := "3e11fa47-71ca-11e1-9e33-c80aa9429562".
Definition uuid2 : string := "5b0fa0d4-71ca-11e1-9e33-c80aa9429562".
Definition moment (h s : Z) : stamp := mkStamp 26 6 12 h 0 s.
Definition start : header := mkHeader 4 (moment 10 0) 1 126.
Definition crc : string := " CRC32 0xdeadbeef ".
Definition mysql_log : list mysqlEvent :=
  [EOther start (crc +:+ tab +:+ "Start: binlog v 4, server v 8.0.46") [];
   EPrevious (mkHeader 126 (moment 10 0) 1 197) (crc +:+ tab +:+ "Previous-GTIDs") [uuid1 +:+ ":1-5"];
   EGtid (mkHeader 197 (moment 10 5) 1 274) (crc +:+ tab +:+ "GTID") uuid1 6;
   EOther (mkHeader 274 (moment 10 5) 1 350) (crc +:+ tab +:+ "Query") ["BEGIN"; "/*!*/;"];
   EGtid (mkHeader 350 (moment 10 9) 1 400) (crc +:+ tab +:+ "GTID") uuid1 7].
Definition preamble : list string := ["/*!50530 SET @@SESSION.PSEUDO_SLAVE_MODE=1*/;"].
Definition maria_log : list mariaEvent :=
  [mkMariaEvent start (KOther (crc +:+ tab +:+ "Start: binlog v 4, server v 11.4.2-MariaDB")) [];
   mkMariaEvent (mkHeader 126 (moment 10 0) 1 299) (KList crc "0-1-9") [];
   mkMariaEvent (mkHeader 299 (moment 10 5) 1 341) (KGtid crc (mkMariaTxn 0 1 10) " ddl") ["BEGIN"; "/*!*/;"];
   mkMariaEvent (mkHeader 341 (moment 10 7) 1 420) (KGtid crc (mkMariaTxn 0 1 11) " trans") ["COMMIT"];
   mkMariaEvent (mkHeader 420 (moment 10 9) 5 500) (KGtid crc (mkMariaTxn 1 5 3) " trans") ["COMMIT"]].
Definition runs (ls : list string) (_ : string) (_ : list string) : process := clean_process ls.
End ScanSample.

Ltac all_lines := repeat apply List.Forall_cons; try apply List.Forall_nil.

Lemma mysql_scan_is_exact_witness :
  let evs := ScanSample.mysql_log in
  exists r set previous, MysqlbinlogScanner (ScanSample.runs (ScanSample.preamble ++ concat (print_mysql <$> evs))) "" false "/binlog.000004" = Ok r /\
    ParseGTIDSet (sr_GTIDSet r) = Ok set /\ (forall u n, gtid_in set u n <-> (u, n) ∈ gtids evs) /\
    sr_FirstGTID r = ScanSample.uuid1 +:+ ":6" /\ sr_LastGTID r = ScanSample.uuid1 +:+ ":7" /\
    ParseGTIDSet (ScanSample.uuid1 +:+ ":1-5") = Ok previous /\ ParseGTIDSet (sr_PreviousGTIDs r) = Ok previous.
Proof.
  intros evs.
  destruct (mysql_scan_is_exact (ScanSample.runs (ScanSample.preamble ++ concat (print_mysql <$> evs))) "" "/binlog.000004"
    ScanSample.preamble evs) as (r & set & E & Hs & Hin & Hfirst & Hlast & _ & _ & Hprev); [done|reflexivity| | | |].
  - all_lines. by split; vm_compute.
  - all_lines; (split; [vm_compute; repeat split; discriminate|]).
    + by split; [vm_compute|constructor].
    + split; [by vm_compute|]. all_lines. exists ScanSample.uuid1, "1-5". by repeat split.
    + by repeat split; vm_compute.
    + split; [by vm_compute|]. all_lines; by split; vm_compute.
    + by repeat split; vm_compute.
  - all_lines; by split; vm_compute.
  - assert (Forall one_line_set evs) as Ho by (all_lines; vm_compute; auto).
    destruct (ParseGTIDSet (ScanSample.uuid1 +:+ ":1-5")) as [previous|] eqn:Ep; [|vm_compute in Ep; discriminate].
    exists r, set, previous. split_and!; [exact E|exact Hs|exact Hin|exact Hfirst|exact Hlast|reflexivity|].
    exact (Hprev Ho previous Ep).
Defined.

Lemma maria_scan_is_exact_witness :
  let evs := ScanSample.maria_log in
  MariadbTxnBoundaries (ScanSample.runs (concat (print_maria <$> evs))) "mariadb-binlog" "/binlog.000004" =
    Ok [mkTxnBoundary 0 1 10 299 (time_Date 2026 6 12 10 0 5); mkTxnBoundary 0 1 11 341 (time_Date 2026 6 12 10 0 7);
        mkTxnBoundary 1 5 3 420 (time_Date 2026 6 12 10 0 9)].
Proof.
  intros evs.
  destruct (maria_scan_is_exact (ScanSample.runs (concat (print_maria <$> evs))) "mariadb-binlog" "/binlog.000004" [] evs)
    as (_ & E & _); [done|reflexivity|constructor| | | |exact E].
  - all_lines; (split; [vm_compute; repeat split; discriminate|]); (split; [vm_compute; split; discriminate|]);
      (split; [all_lines; by vm_compute|]); cbn; unfold crc_ok, flags_ok; repeat split; try (by vm_compute);
      try (intros c s [= <- _]; by vm_compute); vm_compute; discriminate.
  - vm_compute. repeat split; discriminate || done.
  - all_lines; by split; vm_compute.
Defined.

Lemma scan_is_never_partial_witness :
  let cmd := ScanSample.runs ["BEGIN"] "mysqlbinlog" (read_args "/binlog.000004") in
  MysqlbinlogScanner (ScanSample.runs ["BEGIN"]) "" false "/binlog.000004" = Ok ScanResult_zero /\
  ps_wait cmd = Ok tt /\ line_too_long max_line (out_text (ps_output cmd)) = false.
Proof.
  intros cmd. assert (MysqlbinlogScanner (ScanSample.runs ["BEGIN"]) "" false "/binlog.000004" = Ok ScanResult_zero) as E
    by (vm_compute; reflexivity).
  split; [exact E|].
  destruct (proj1 (scan_is_never_partial (ScanSample.runs ["BEGIN"]) "" false "/binlog.000004") _ E) as (_ & _ & Hw & _ & Hl).
  by split.
Defined.

(** ** What the scan takes from a file *)

(** A statement is printed as it was written, and a line of it that assigns a GTID
    is counted as a transaction of the file. *)
Lemma statement_text_counts :
  let evs := [EOther ScanSample.start (ScanSample.crc +:+ tab +:+ "Query")
                ["create table t (a int) /*"; print_gtid ScanSample.uuid2 99; "*/"]] in
  gtids evs = [] /\
  (sr_GTIDSet <$> match scanMySQL (printed (concat (print_mysql <$> evs))) with Ok r => Some r | Err _ => None end)
    = Some (ScanSample.uuid2 +:+ ":99").
Proof. split; [done|]. by vm_compute. Qed.

(** Of a Previous-GTIDs event that spans several lines, only the first is kept. *)
Lemma later_sets_are_dropped :
  let evs := [EPrevious ScanSample.start (ScanSample.crc +:+ tab +:+ "Previous-GTIDs")
                [ScanSample.uuid1 +:+ ":1-5,"; ScanSample.uuid2 +:+ ":1-7"]] in
  (sr_PreviousGTIDs <$> match scanMySQL (printed (concat (print_mysql <$> evs))) with Ok r => Some r | Err _ => None end)
    = Some (ScanSample.uuid1 +:+ ":1-5,").
Proof. by vm_compute. Qed.
