(* ===== verification/Election.v ===== *)
(** * Electing a failover candidate

    The election of [internal/controller/async/cluster_failover.go]
    ([SelectFailoverCandidate] and the bounds and orders it applies) with the
    disowned guard of [cluster_observation.go].  The election is a client of the
    engine's GTID model: its theorems are proved from [GTIDModelLaws], for any
    engine. *)

From Stdlib Require Import ZArith Lia Bool Ascii String.
From stdpp Require Import base list strings gmap sorting.
From S2P Require Import Prelude GoStrings Gtid GtidText GtidModel MariaGtid.

Local Open Scope Z_scope.

(** ** Observed state *)

Record FailoverInstance := mkFailoverInstance {
  fi_Ready : bool;
  fi_Primary : bool;
  fi_Replica : bool;
  fi_Role : string;
  fi_IORunning : bool;
  fi_SQLRunning : bool;
  fi_GTID : string;
  fi_RetrievedGTID : string;
  fi_GTIDPurged : string;
  fi_HeartbeatAge : option Duration;
  fi_InPlaceUpgrading : bool
}.

Record FailoverState := mkFailoverState {
  fs_PrimaryName : string;
  fs_InstanceNames : list string;
  fs_Instances : gmap string FailoverInstance;
  fs_Fenced : list string;
  fs_Diverged : list string;
  fs_Terminating : list string
}.

(** A lookup in the instances map: the zero status when the key is absent. *)
Definition instance_zero : FailoverInstance :=
  mkFailoverInstance false false false "" false false "" "" "" None false.
Definition instance_of (observed : FailoverState) (name : string) : FailoverInstance :=
  default instance_zero (fs_Instances observed !! name).

Definition contains_name (l : list string) (name : string) : bool := bool_decide (name ∈ l).

(** Why no candidate was elected; the constructors stand for the messages. *)
Inductive reason :=
| EveryReplicaDiverged
| NoHealthyReplica
| MeasureError (e : error)
| TooFarBehind (closest : string) (behind max : Z)
| NoHeartbeat (maxLag : Duration)
| TooMuchLag (closest : string) (lost maxLag : Duration)
| CompareError (e : error)
| CandidatesDiverged.

Record FailoverCandidate := mkFailoverCandidate {
  fc_Name : string;
  fc_TransactionsBehind : Z;
  fc_TimeBehind : option Duration;
  fc_Reason : option reason
}.

Definition no_candidate (r : reason) : FailoverCandidate := mkFailoverCandidate "" 0 None (Some r).

Record Election := mkElection {
  el_Observed : FailoverState;
  el_KnownDiverged : list string;
  el_MaxTransactionsBehind : option Z;
  el_ArchiveCovered : string;
  el_Preferred : list string;
  el_ReferenceGTID : string;
  el_MaxReplicationLag : option Duration;
  el_PrimaryDownFor : Duration;
  el_Disowned : option GTIDSet
}.

(** ** The disowned guard *)

(** [None] is the source's nil set. *)
Definition disownedSet (mariadb : bool) (raw : string) : option GTIDSet :=
  if String.eqb raw "" || mariadb then None
  else match ParseGTIDSet raw with
       | Ok set => if GTIDSet_IsEmpty set then None else Some set
       | Err _ => None
       end.

Definition holdsDisowned (disowned : GTIDSet) (sets : list string) : bool :=
  existsb (fun raw => match ParseGTIDSet raw with
                      | Ok set => negb (GTIDSet_IsEmpty (GTIDSet_Intersect set disowned))
                      | Err _ => false
                      end) sets.

(** ** Bounds *)

Definition withinBound (candidates : list string) (behind : gmap string Z) (maxBehind : option Z) : list string :=
  match maxBehind with
  | None => candidates
  | Some m => List.filter (fun name => default 0 (behind !! name) <=? m) candidates
  end.

Definition writesBehind (observed : FailoverState) (candidates : list string) (behind : gmap string Z)
    (primaryDownFor : Duration) : gmap string (option Duration) :=
  foldl (fun out name =>
    <[name := if default 0 (behind !! name) =? 0 then Some 0
              else match fi_HeartbeatAge (instance_of observed name) with
                   | None => None
                   | Some age => Some (Z.max (age - primaryDownFor) 0)
                   end]> out) ∅ candidates.

(** [timeBehind[name]]: nil when absent. *)
Definition time_of (timeBehind : gmap string (option Duration)) (name : string) : option Duration :=
  default None (timeBehind !! name).

Definition withinLagBound (candidates : list string) (timeBehind : gmap string (option Duration))
    (maxLag : option Duration) : list string :=
  match maxLag with
  | None => candidates
  | Some m => List.filter (fun name => match time_of timeBehind name with
                                       | Some lost => lost <=? m
                                       | None => false
                                       end) candidates
  end.

Definition lagBlockReason (candidates : list string) (timeBehind : gmap string (option Duration))
    (maxLag : Duration) : reason :=
  let closest := foldl (fun closest name =>
    match time_of timeBehind name with
    | None => closest
    | Some lost => if String.eqb closest "" then name
                   else if lost <? default 0 (time_of timeBehind closest) then name else closest
    end) "" candidates in
  if String.eqb closest "" then NoHeartbeat maxLag
  else TooMuchLag closest (default 0 (time_of timeBehind closest)) maxLag.

(** ** Orders *)

(** [slices.Index(preferred, name)], or [len(preferred)]. *)
Fixpoint rank (preferred : list string) (name : string) : Z :=
  match preferred with
  | [] => 0
  | p :: preferred' => if String.eqb p name then 0 else 1 + rank preferred' name
  end.

Definition orderByPreference (candidates preferred : list string) : list string :=
  if Nat.eqb (length preferred) 0 then candidates
  else isort (fun a b => rank preferred a <=? rank preferred b) candidates.

(** The archive holds every transaction of [purged] past its first one. *)
Definition archiveCoversHistory (covered purged : string) : bool :=
  match ParseGTIDSet covered, ParseGTIDSet purged with
  | Ok archive, Ok held =>
      forallb (fun '(uuid, intervals) =>
        match GTIDSet_get archive uuid with
        | [] => true
        | first :: _ => forallb (fun iv => negb (iv_Start first <=? iv_End iv)) intervals
        end) (map_to_list (GTIDSet_Difference held archive))
  | _, _ => true
  end.

Definition orderByArchiveContinuity (candidates preferred : list string) (observed : FailoverState)
    (covered : string) : list string :=
  if String.eqb covered "" then candidates
  else
    let continuous name := if archiveCoversHistory covered (fi_GTIDPurged (instance_of observed name)) then 0 else 1 in
    isort (fun a b => (rank preferred a <? rank preferred b) ||
                      ((rank preferred a =? rank preferred b) && (continuous a <=? continuous b))) candidates.

(** ** The election *)

Section Elect.
Context {M : GTIDModel}.

Definition transactionsBehind (observed : FailoverState) (candidates : list string) (referenceGTID : string)
  : result (gmap string Z) :=
  let? held := map_result (fun name =>
    let status := instance_of observed name in
    wrapf "merging gtid sets" (gm_Union [fi_GTID status; fi_RetrievedGTID status])) candidates in
  let? reference := wrapf "merging candidate gtid sets" (gm_Union (referenceGTID :: held)) in
  fold_result (fun behind '(name, union) =>
    let? missing := wrapf "measuring lag" (gm_MissingCount union reference) in
    Ok (<[name := missing]> behind)) ∅ (zip candidates held).

(** One instance: a candidate, a diverged one that is counted, or neither. *)
Definition consider (e : Election) (st : list string * nat) (name : string) : list string * nat :=
  let '(candidates, divergedSkipped) := st in
  let observed := el_Observed e in
  if String.eqb name (fs_PrimaryName observed) || contains_name (fs_Fenced observed) name then st
  else if contains_name (el_KnownDiverged e) name then (candidates, S divergedSkipped)
  else match fs_Instances observed !! name with
       | None => st
       | Some status =>
           if negb (fi_Replica status) || negb (fi_SQLRunning status) || String.eqb (fi_GTID status) "" then st
           else match el_Disowned e with
                | Some disowned =>
                    if holdsDisowned disowned [fi_GTID status; fi_RetrievedGTID status]
                    then (candidates, S divergedSkipped) else (candidates ++ [name], divergedSkipped)
                | None => (candidates ++ [name], divergedSkipped)
                end
       end.

(** The inner loop: whether [candidate] contains every other's position. *)
Fixpoint dominates (observed : FailoverState) (candidate : string) (others : list string) : result bool :=
  match others with
  | [] => Ok true
  | other :: others' =>
      if String.eqb candidate other then dominates observed candidate others'
      else
        let? contains := gm_Contains (fi_GTID (instance_of observed candidate)) (fi_GTID (instance_of observed other)) in
        if contains then dominates observed candidate others' else Ok false
  end.

(** The outer loop: the first candidate that dominates all. *)
Fixpoint elect (observed : FailoverState) (eligible todo : list string) : result (option string) :=
  match todo with
  | [] => Ok None
  | candidate :: todo' =>
      let? all := dominates observed candidate eligible in
      if all then Ok (Some candidate) else elect observed eligible todo'
  end.

(** [slices.MinFunc]: the first of the smallest. *)
Definition closest_of (candidates : list string) (behind : gmap string Z) : string :=
  match candidates with
  | [] => ""
  | c :: cs => foldl (fun a b => if default 0 (behind !! b) <? default 0 (behind !! a) then b else a) c cs
  end.

Definition SelectFailoverCandidate (e : Election) : FailoverCandidate :=
  let observed := el_Observed e in
  let '(candidates, divergedSkipped) := foldl (consider e) ([], O) (fs_InstanceNames observed) in
  if Nat.eqb (length candidates) 0 then
    no_candidate (if Nat.ltb 0 divergedSkipped then EveryReplicaDiverged else NoHealthyReplica)
  else match transactionsBehind observed candidates (el_ReferenceGTID e) with
  | Err err => no_candidate (MeasureError err)
  | Ok behind =>
      let eligible := withinBound candidates behind (el_MaxTransactionsBehind e) in
      if Nat.eqb (length eligible) 0 then
        let closest := closest_of candidates behind in
        mkFailoverCandidate "" (default 0 (behind !! closest)) None
          (Some (TooFarBehind closest (default 0 (behind !! closest)) (default 0 (el_MaxTransactionsBehind e))))
      else
        let timeBehind := writesBehind observed eligible behind (el_PrimaryDownFor e) in
        let withinLag := withinLagBound eligible timeBehind (el_MaxReplicationLag e) in
        if Nat.eqb (length withinLag) 0 then
          no_candidate (lagBlockReason eligible timeBehind (default 0 (el_MaxReplicationLag e)))
        else
          let eligible := orderByPreference withinLag (el_Preferred e) in
          let eligible := orderByArchiveContinuity eligible (el_Preferred e) observed (el_ArchiveCovered e) in
          match elect observed eligible eligible with
          | Err err => no_candidate (CompareError err)
          | Ok None => no_candidate CandidatesDiverged
          | Ok (Some candidate) =>
              mkFailoverCandidate candidate (default 0 (behind !! candidate)) (time_of timeBehind candidate) None
          end
  end.
End Elect.

(** ** Admission *)

(** An instance the election may consider. *)
Definition admissible (e : Election) (name : string) : Prop :=
  let observed := el_Observed e in
  name ∈ fs_InstanceNames observed /\ name <> fs_PrimaryName observed /\
  name ∉ fs_Fenced observed /\ name ∉ el_KnownDiverged e /\
  exists status, fs_Instances observed !! name = Some status /\
    fi_Replica status = true /\ fi_SQLRunning status = true /\ fi_GTID status <> "" /\
    forall disowned, el_Disowned e = Some disowned ->
      holdsDisowned disowned [fi_GTID status; fi_RetrievedGTID status] = false.

Lemma admit_spec e st name candidates n :
  consider e st name = (candidates, n) ->
  forall x, x ∈ candidates <-> x ∈ fst st \/ (x = name /\ (name ∈ fs_InstanceNames (el_Observed e) -> admissible e name) /\
    candidates = fst st ++ [name]).
Proof.
  intros H x. destruct st as [c k]. unfold consider in H. cbn [fst].
  assert (forall A : Prop, candidates = c -> (x ∈ candidates <-> x ∈ c \/ (x = name /\ A /\ candidates = c ++ [name]))) as Hskip.
  { intros A ->. split; [by left|]. intros [?|(_ & _ & Hbad)]; [done|].
    apply (f_equal length) in Hbad. rewrite length_app in Hbad. cbn in Hbad. lia. }
  destruct (String.eqb_spec name (fs_PrimaryName (el_Observed e))) as [|Hp]; cbn [orb] in H; [apply Hskip; by injection H|].
  destruct (contains_name (fs_Fenced _) name) eqn:Hf; cbn [orb] in H; [apply Hskip; by injection H|].
  destruct (contains_name (el_KnownDiverged e) name) eqn:Hd; [apply Hskip; by injection H|].
  destruct (fs_Instances _ !! name) as [status|] eqn:Hs; [|apply Hskip; by injection H].
  destruct (negb (fi_Replica status) || negb (fi_SQLRunning status) || String.eqb (fi_GTID status) "") eqn:Hr;
    [apply Hskip; by injection H|].
  revert H. boolp. unfold contains_name in *. boolp. intros Hret.
  assert ((match el_Disowned e with Some d => holdsDisowned d [fi_GTID status; fi_RetrievedGTID status] | None => false end) = false ->
    candidates = c ++ [name] -> x ∈ candidates <-> x ∈ c \/ (x = name /\ (name ∈ fs_InstanceNames (el_Observed e) -> admissible e name) /\
      candidates = c ++ [name])) as Hadd.
  { intros Hno ->. rewrite elem_of_app, list_elem_of_singleton. split; [|tauto]. intros [?| ->]; [by left|right].
    split; [done|]. split; [|done]. intros Hin. split_and!; [done..|]. exists status. split_and!; [done..|].
    intros d Ed. by rewrite Ed in Hno. }
  destruct (el_Disowned e) as [d|].
  - destruct (holdsDisowned d _) eqn:Eh; [apply Hskip; by injection Hret|]. apply Hadd; [done|by injection Hret].
  - apply Hadd; [done|by injection Hret].
Qed.

(** Every candidate is admissible. *)
Lemma admitted e l st candidates n :
  (forall x, x ∈ l -> x ∈ fs_InstanceNames (el_Observed e)) -> (forall x, x ∈ fst st -> admissible e x) ->
  foldl (consider e) st l = (candidates, n) -> forall x, x ∈ candidates -> admissible e x.
Proof.
  revert st. induction l as [|name l IH]; intros st Hl Hst; cbn; [intros -> ; done|].
  intros H. destruct (consider e st name) as [c k] eqn:E. eapply IH; [|..|exact H].
  - intros x Hx. apply Hl. by right.
  - intros x Hx. cbn in Hx. rewrite (admit_spec _ _ _ _ _ E) in Hx. destruct Hx as [?|(-> & Ha & _)]; [auto|].
    apply Ha, Hl. by left.
Qed.

(** ** Orders and bounds *)

Lemma orderByPreference_perm c p : orderByPreference c p ≡ₚ c.
Proof. unfold orderByPreference. destruct (Nat.eqb _ 0); [done|apply isort_perm]. Qed.

Lemma orderByArchiveContinuity_perm c p o v : orderByArchiveContinuity c p o v ≡ₚ c.
Proof. unfold orderByArchiveContinuity. destruct (String.eqb v ""); [done|apply isort_perm]. Qed.

Lemma rank_nonneg p x : 0 <= rank p x.
Proof. induction p as [|y p IH]; cbn; [done|]. destruct (String.eqb y x); lia. Qed.

(** What decides between two candidates that are equally safe: the preference,
    then whether the archive holds_all the candidate's purged history. *)
Definition precedes (p : list string) (o : FailoverState) (v a b : string) : Prop :=
  rank p a < rank p b \/
  (rank p a = rank p b /\
   (v <> "" -> archiveCoversHistory v (fi_GTIDPurged (instance_of o b)) = true ->
               archiveCoversHistory v (fi_GTIDPurged (instance_of o a)) = true)).

(** The pool the dominance check walks is sorted by it. *)
Lemma ordered_by_preference c p o v :
  StronglySorted (precedes p o v) (orderByArchiveContinuity (orderByPreference c p) p o v).
Proof.
  unfold orderByArchiveContinuity, precedes. destruct (String.eqb_spec v "") as [->|Ev].
  - unfold orderByPreference. destruct p as [|x p]; cbn [length Nat.eqb].
    + clear. induction c as [|y c IH]; constructor; [done|]. apply Forall_forall. intros; right; done.
    + eapply StronglySorted_weaken; [|apply isort_sorted]; cbn beta; intros; try lia.
      destruct (Z.eq_dec (rank (x :: p) a) (rank (x :: p) b)); [right; done|left; lia].
  - eapply StronglySorted_weaken; [|apply isort_sorted]; cbn beta.
    + intros a b [?|[? H]%andb_true_iff]%orb_true_iff; [left; lia|]. right. split; [lia|]. intros _ Hb.
      rewrite Hb in H. by destruct (archiveCoversHistory v (fi_GTIDPurged (instance_of o a))).
    + intros a b [H1 H2]%orb_false_iff. apply orb_true_iff. boolp.
      destruct (Z.eq_dec (rank p a) (rank p b)); [right|left; lia].
      destruct H2 as [?|?]; [lia|]. apply andb_true_iff. split; [lia|].
      repeat case_match; done.
    + intros a b d H1 H2. apply orb_true_iff in H1, H2. apply orb_true_iff.
      destruct H1 as [H1|[H1 H1']%andb_true_iff], H2 as [H2|[H2 H2']%andb_true_iff]; try (left; lia).
      right. apply andb_true_iff. split; lia.
Qed.

Lemma withinBound_elem c behind m x :
  x ∈ withinBound c behind m <-> x ∈ c /\ forall b, m = Some b -> default 0 (behind !! x) <= b.
Proof.
  unfold withinBound. destruct m as [b|]; [|naive_solver].
  rewrite list_elem_of_In, filter_In, <- list_elem_of_In. split.
  - intros [? ?]. split; [done|]. intros ? [= <-]. lia.
  - intros [? H]. split; [done|]. specialize (H b eq_refl). lia.
Qed.

Lemma withinLagBound_elem c tb m x :
  x ∈ withinLagBound c tb m <->
  x ∈ c /\ forall b, m = Some b -> exists lost, time_of tb x = Some lost /\ lost <= b.
Proof.
  unfold withinLagBound. destruct m as [b|]; [|naive_solver].
  rewrite list_elem_of_In, filter_In, <- list_elem_of_In. split.
  - intros [? H]. split; [done|]. intros ? [= <-]. destruct (time_of tb x) as [lost|]; [|done]. exists lost. split; [done|lia].
  - intros [? H]. split; [done|]. destruct (H b eq_refl) as (lost & -> & ?). lia.
Qed.

Lemma writesBehind_time o c behind down x :
  x ∈ c ->
  time_of (writesBehind o c behind down) x =
  if default 0 (behind !! x) =? 0 then Some 0
  else match fi_HeartbeatAge (instance_of o x) with
       | None => None
       | Some age => Some (Z.max (age - down) 0)
       end.
Proof.
  unfold writesBehind, time_of.
  set (v := fun name : string => if default 0 (behind !! name) =? 0 then Some 0
            else match fi_HeartbeatAge (instance_of o name) with
                 | None => None | Some age => Some (Z.max (age - down) 0) end).
  assert (forall l (m : gmap string (option Duration)),
    foldl (fun out name => <[name := v name]> out) m l !! x = if decide (x ∈ l) then Some (v x) else m !! x) as H.
  { induction l as [|y l IH]; intros m; cbn; [done|]. rewrite IH, lookup_insert.
    repeat case_decide; subst; try done; set_solver. }
  intros Hx. fold (v x). unfold v in H at 1. rewrite H. rewrite decide_True by done. done.
Qed.

(** Every instance that may be considered is a candidate. *)
Lemma admit_admissible e c k name :
  admissible e name -> fst (consider e (c, k) name) = c ++ [name].
Proof.
  intros (_ & Hp & Hf & Hd & status & Hs & Hr & Hq & Hg & Hdis). unfold consider, contains_name.
  rewrite (proj2 (String.eqb_neq _ _) Hp), !bool_decide_eq_false_2 by done. cbn [orb].
  rewrite Hs, Hr, Hq, (proj2 (String.eqb_neq _ _) Hg). cbn [negb orb].
  destruct (el_Disowned e) as [d|]; [|done]. by rewrite (Hdis d eq_refl).
Qed.

Lemma candidates_iff e candidates n :
  foldl (consider e) ([], O) (fs_InstanceNames (el_Observed e)) = (candidates, n) ->
  forall x, x ∈ candidates <-> admissible e x.
Proof.
  intros H x. split.
  - revert x. eapply admitted; [|..|exact H]; [done|]. intros x Hx. by apply not_elem_of_nil in Hx.
  - intros Ha. assert (forall l st, x ∈ l \/ x ∈ fst st -> x ∈ fst (foldl (consider e) st l)) as Hall.
    { induction l as [|y l IH]; intros st Hin; cbn; [destruct Hin as [[]%not_elem_of_nil|?]; done|].
      apply IH. destruct st as [c k]. destruct (consider e (c, k) y) as [c' k'] eqn:E. cbn [fst] in *.
      destruct Hin as [[->|Hin]%elem_of_cons|Hin]; [right| by left|right].
      - replace c' with (fst (consider e (c, k) y)) by (by rewrite E). rewrite (admit_admissible _ _ _ _ Ha). set_solver.
      - rewrite (admit_spec _ _ _ _ _ E). by left. }
    specialize (Hall (fs_InstanceNames (el_Observed e)) ([], O)). rewrite H in Hall. apply Hall. left. apply Ha.
Qed.

(** ** The disowned guard, on transactions *)

Lemma holdsDisowned_spec d sets :
  set_wf d ->
  holdsDisowned d sets = true <-> exists raw t, raw ∈ sets /\ mysql_holds raw t /\ gtid_in d (fst t) (snd t).
Proof.
  intros Hd. unfold holdsDisowned. rewrite existsb_exists. split.
  - intros (raw & Hin & Hh). destruct (ParseGTIDSet raw) as [s|] eqn:E; [|done].
    apply negb_true_iff in Hh. destruct (decide (GTIDSet_IsEmpty (GTIDSet_Intersect s d) = true)) as [|Hne]; [congruence|].
    assert (set_wf s) as Hs by eauto with gtid.
    destruct (gtid_witness (GTIDSet_Intersect s d)) as (u & n & Hn).
    { by apply GTIDSet_Intersect_wf. }
    { intros Hemp. apply Hne. rewrite Hemp. done. }
    apply GTIDSet_Intersect_in in Hn; [|done..]. exists raw, (u, n). split_and!; [by apply list_elem_of_In| |by apply Hn].
    exists s. split; [done|apply Hn].
  - intros (raw & [u n] & Hin & (s & E & Hn) & Hdn). exists raw. split; [by apply list_elem_of_In|]. rewrite E.
    apply negb_true_iff. apply not_true_iff_false. assert (set_wf s) as Hs by eauto with gtid.
    rewrite GTIDSet_IsEmpty_spec by (by apply GTIDSet_Intersect_wf). intros Hno. apply (Hno u n).
    by apply GTIDSet_Intersect_in.
Qed.

(** ** The election, against the interface *)

Section Laws.
Context {M : GTIDModel} {L : GTIDModelLaws M}.

Lemma contains_holds a b r : gm_Contains a b = Ok r -> r = true <-> forall t, gm_holds b t -> gm_holds a t.
Proof. apply (ct_contains_iff _ _ _ gm_contract). Qed.

(** [c] holds everything the executed position of [x] holds. *)
Definition holds_all (observed : FailoverState) (c x : string) : Prop :=
  forall t, gm_holds (fi_GTID (instance_of observed x)) t -> gm_holds (fi_GTID (instance_of observed c)) t.

Lemma dominates_spec observed c others r :
  dominates observed c others = Ok r -> r = true <-> forall x, x ∈ others -> holds_all observed c x.
Proof.
  revert r. induction others as [|y others IH]; intros r; cbn; intros H.
  - injection H as <-. split; [|done]. intros _ x Hx. by apply not_elem_of_nil in Hx.
  - destruct (String.eqb_spec c y) as [->|Hne].
    + rewrite (IH _ H). split; [|intros Hx x Hin; apply Hx; by right].
      intros Hx x [->|Hin]%elem_of_cons; [intros t; tauto|auto].
    + inv_result. match goal with H : gm_Contains _ _ = Ok _ |- _ => pose proof (contains_holds _ _ _ H) as Hc end.
      destruct x.
      * rewrite (IH _ H). split; [|intros Hx x Hin; apply Hx; by right].
        intros Hx x [->|Hin]%elem_of_cons; [exact (proj1 Hc eq_refl)|auto].
      * injection H as <-. split; [done|]. intros Hx. apply Hc. intros t. apply Hx. by left.
Qed.

Lemma dominates_total observed c others :
  gm_valid (fi_GTID (instance_of observed c)) -> (forall x, x ∈ others -> gm_valid (fi_GTID (instance_of observed x))) ->
  exists r, dominates observed c others = Ok r.
Proof.
  intros Hc. induction others as [|y others IH]; intros Ho; cbn; [eauto|].
  assert (exists r, dominates observed c others = Ok r) as [r Hr] by (apply IH; intros; apply Ho; by right).
  destruct (String.eqb c y); [eauto|].
  destruct (gm_contains_ok _ _ Hc (Ho y ltac:(by left))) as (b & -> & _). cbn. destruct b; eauto.
Qed.

(** The elected candidate is the first that holds_all the pool. *)
Lemma elect_some observed pool todo c :
  elect observed pool todo = Ok (Some c) ->
  exists pre post, todo = pre ++ c :: post /\ (forall x, x ∈ pool -> holds_all observed c x) /\
    forall p, p ∈ pre -> ~ (forall x, x ∈ pool -> holds_all observed p x).
Proof.
  induction todo as [|y todo IH]; cbn; [done|]. intros H. inv_result.
  match goal with H : dominates _ _ _ = Ok _ |- _ => pose proof (dominates_spec _ _ _ _ H) as Hd end.
  destruct x; [injection H as ->; exists [], todo; split_and!; [done|by apply Hd|]; intros p Hp; by apply not_elem_of_nil in Hp|].
  destruct (IH H) as (pre & post & -> & Hc & Hp). exists (y :: pre), post. split_and!; [done..|].
  intros p [->|Hin]%elem_of_cons; [|auto]. intros Hx. by apply Hd in Hx.
Qed.

Lemma elect_none observed pool todo :
  elect observed pool todo = Ok None -> forall p, p ∈ todo -> ~ (forall x, x ∈ pool -> holds_all observed p x).
Proof.
  induction todo as [|y todo IH]; cbn; intros H p Hp; [by apply not_elem_of_nil in Hp|]. inv_result.
  match goal with H : dominates _ _ _ = Ok _ |- _ => pose proof (dominates_spec _ _ _ _ H) as Hd end.
  destruct x; [done|]. apply elem_of_cons in Hp as [->|Hin]; [|by apply IH]. intros Hx. by apply Hd in Hx.
Qed.

Lemma elect_total observed pool todo :
  (forall x, x ∈ pool \/ x ∈ todo -> gm_valid (fi_GTID (instance_of observed x))) ->
  exists r, elect observed pool todo = Ok r.
Proof.
  induction todo as [|y todo IH]; intros Hv; cbn; [eauto|].
  destruct (dominates_total observed y pool) as [r ->]; [apply Hv; right; by left|auto|]. cbn.
  destruct r; [eauto|]. apply IH. intros x [?|?]; apply Hv; [by left|right; by right].
Qed.

(** ** Loss *)

(** What is measured against: everything the departing primary was last known to
    hold, and everything a candidate executed or retrieved. *)
Definition known_to_exist (e : Election) (candidates : list string) (t : gm_txn) : Prop :=
  gm_holds (el_ReferenceGTID e) t \/
  exists x, x ∈ candidates /\ (gm_holds (fi_GTID (instance_of (el_Observed e) x)) t \/
                               gm_holds (fi_RetrievedGTID (instance_of (el_Observed e) x)) t).

(** The positions an election reads are ones the engine can read. *)
Definition readable (e : Election) : Prop :=
  gm_valid (el_ReferenceGTID e) /\
  forall x, admissible e x -> gm_valid (fi_GTID (instance_of (el_Observed e) x)) /\
                              gm_valid (fi_RetrievedGTID (instance_of (el_Observed e) x)).

Lemma union2_ok a b :
  gm_valid a -> gm_valid b -> exists u, gm_Union [a; b] = Ok u /\ gm_valid u.
Proof. intros Ha Hb. destruct (gm_union_ok [a; b]) as (u & ? & ? & _); [by repeat constructor|eauto]. Qed.

Lemma union2_holds a b u t :
  gm_valid a -> gm_valid b -> gm_Union [a; b] = Ok u -> gm_holds u t <-> gm_holds a t \/ gm_holds b t.
Proof.
  intros Ha Hb H. destruct (gm_union_ok [a; b] ltac:(by repeat constructor)) as (u' & H' & _ & Hu).
  replace u with u' by congruence. rewrite Hu. setoid_rewrite elem_of_cons. setoid_rewrite list_elem_of_singleton.
  naive_solver.
Qed.

Lemma fold_insert (f : string -> result Z) l (m m' : gmap string Z) :
  fold_result (fun b '(x, y) => let? v := f y in Ok (<[x := v]> b)) m l = Ok m' ->
  (forall x y y', (x, y) ∈ l -> (x, y') ∈ l -> y = y') ->
  forall x y, (x, y) ∈ l -> exists v, f y = Ok v /\ m' !! x = Some v.
Proof.
  revert m'. induction l as [|[x y] l IH] using rev_ind; intros m' H Hf x' y' Hin; [by apply not_elem_of_nil in Hin|].
  rewrite fold_result_app in H. cbn in H. inv_result.
  apply elem_of_app in Hin. rewrite lookup_insert. destruct (decide (x = x')) as [->|Hne].
  - eexists. split; [|done]. replace y' with y; [eassumption|]. apply (Hf x'); set_solver.
  - destruct Hin as [Hin|[= -> ->]%list_elem_of_singleton]; [|done]. eapply IH; [done| |done].
    intros z ? ? ? ?. apply (Hf z); set_solver.
Qed.

Lemma transactionsBehind_spec e candidates behind :
  transactionsBehind (el_Observed e) candidates (el_ReferenceGTID e) = Ok behind ->
  exists held reference,
    Forall2 (fun x h => gm_Union [fi_GTID (instance_of (el_Observed e) x); fi_RetrievedGTID (instance_of (el_Observed e) x)] = Ok h)
      candidates held /\
    gm_Union (el_ReferenceGTID e :: held) = Ok reference /\
    forall x, x ∈ candidates -> exists h m,
      gm_Union [fi_GTID (instance_of (el_Observed e) x); fi_RetrievedGTID (instance_of (el_Observed e) x)] = Ok h /\
      gm_MissingCount h reference = Ok m /\ behind !! x = Some m.
Proof.
  unfold transactionsBehind. intros H. inv_result.
  match goal with H : map_result _ _ = Ok ?h |- _ => apply map_result_Forall2 in H as Hh; rename h into held end.
  assert (Forall2 (fun x h => gm_Union [fi_GTID (instance_of (el_Observed e) x); fi_RetrievedGTID (instance_of (el_Observed e) x)] = Ok h)
      candidates held) as Hheld.
  { eapply Forall2_impl; [exact Hh|]. cbn. intros ? ? Hw. by inv_result. }
  match goal with H : gm_Union (_ :: held) = Ok ?r |- _ => exists held, r end. split_and!; [done..|].
  intros x' Hx. apply list_elem_of_lookup in Hx as [i Hi].
  destruct (Forall2_lookup_l _ _ _ _ _ Hheld Hi) as (h & Hhi & Hu). exists h.
  match goal with H : fold_result _ _ _ = Ok _ |- _ =>
    eapply (fold_insert (fun h => wrapf "measuring lag" (gm_MissingCount h _))) in H as (m & Hm & Hb) end.
  - exists m. split_and!; [done| |exact Hb]. by apply wrapf_Ok in Hm.
  - intros y h1 h2 Hin1 Hin2. apply list_elem_of_lookup in Hin1 as [j1 Hj1], Hin2 as [j2 Hj2].
    apply lookup_zip_Some in Hj1 as [? ?], Hj2 as [? ?].
    assert (forall j h', candidates !! j = Some y -> held !! j = Some h' ->
      gm_Union [fi_GTID (instance_of (el_Observed e) y); fi_RetrievedGTID (instance_of (el_Observed e) y)] = Ok h') as Hy.
    { intros j h' Hj Hh'. destruct (Forall2_lookup_l _ _ _ _ _ Hheld Hj) as (h'' & ? & ?). congruence. }
    assert (Ok h1 = Ok h2) as [= ->]; [|done]. by rewrite <- (Hy j1 h1), <- (Hy j2 h2).
  - apply (list_elem_of_lookup_2 _ i). by apply lookup_zip_Some.
Qed.

(** The reference holds exactly what is known to exist. *)
Lemma reference_holds e candidates held reference :
  (forall x, x ∈ candidates -> admissible e x) -> readable e ->
  Forall2 (fun x h => gm_Union [fi_GTID (instance_of (el_Observed e) x); fi_RetrievedGTID (instance_of (el_Observed e) x)] = Ok h)
    candidates held ->
  gm_Union (el_ReferenceGTID e :: held) = Ok reference ->
  gm_valid reference /\ forall t, gm_holds reference t <-> known_to_exist e candidates t.
Proof.
  intros Ha [Hr Hv] Hh Hu.
  assert (Forall gm_valid (el_ReferenceGTID e :: held)) as Hval.
  { constructor; [done|]. apply Forall_lookup. intros i h Hi.
    destruct (Forall2_lookup_r _ _ _ _ _ Hh Hi) as (x & Hx & Hxu).
    destruct (Hv x) as [V1 V2]; [by eapply Ha, list_elem_of_lookup_2|].
    destruct (union2_ok _ _ V1 V2) as (u & Hu' & Hvu).
    by replace h with u by congruence. }
  destruct (gm_union_ok _ Hval) as (u & Hu' & Hvu & Huh). replace reference with u by congruence.
  split; [done|]. intros t. rewrite Huh. unfold known_to_exist. setoid_rewrite elem_of_cons. split.
  - intros (s & [->|Hs] & Ht); [by left|right]. apply list_elem_of_lookup in Hs as [i Hi].
    destruct (Forall2_lookup_r _ _ _ _ _ Hh Hi) as (x & Hx & Hxu).
    assert (x ∈ candidates) as Hin by (by eapply list_elem_of_lookup_2). exists x. split; [done|].
    destruct (Hv x (Ha x Hin)) as [V1 V2]. by rewrite (union2_holds _ _ _ t V1 V2 Hxu) in Ht.
  - intros [?|(x & Hin & Ht)]; [eauto|]. destruct (Hv x (Ha x Hin)) as [V1 V2]. apply list_elem_of_lookup in Hin as [i Hi].
    destruct (Forall2_lookup_l _ _ _ _ _ Hh Hi) as (h & Hhi & Hxu). exists h.
    split; [right; by eapply list_elem_of_lookup_2|]. by rewrite (union2_holds _ _ _ t V1 V2 Hxu).
Qed.

Lemma transactionsBehind_total e candidates :
  (forall x, x ∈ candidates -> admissible e x) -> readable e ->
  exists behind, transactionsBehind (el_Observed e) candidates (el_ReferenceGTID e) = Ok behind.
Proof.
  intros Ha [Hr Hv]. unfold transactionsBehind.
  match goal with |- exists _, rbind (map_result ?f _) _ = _ => assert (exists held,
    map_result f candidates = Ok held /\ Forall gm_valid held) as (held & -> & Hheld) end.
  { clear -Ha Hv L. induction candidates as [|x l IH]; cbn; [eauto|].
    destruct IH as (held & -> & Hh); [intros; apply Ha; by right|].
    destruct (Hv x (Ha x ltac:(by left))) as [V1 V2].
    destruct (union2_ok _ _ V1 V2) as (u & -> & Hu). cbn. eauto. }
  cbn. destruct (gm_union_ok (el_ReferenceGTID e :: held) ltac:(by constructor)) as (u & -> & Hu & _). cbn.
  generalize (∅ : gmap string Z). revert held Hheld. clear Ha. induction candidates as [|x l IH]; intros held Hheld m; [cbn; eauto|].
  destruct Hheld as [|h held Hh Hheld]; [cbn; eauto|]. cbn.
  destruct (gm_missing_ok h u Hh Hu) as (k & -> & _). cbn. by apply IH.
Qed.

(** ** The outcome *)

(** Seconds of writes [x] would lose. *)
Definition time_lost (e : Election) (behind : gmap string Z) (x : string) : option Duration :=
  if default 0 (behind !! x) =? 0 then Some 0
  else match fi_HeartbeatAge (instance_of (el_Observed e) x) with
       | None => None
       | Some age => Some (Z.max (age - el_PrimaryDownFor e) 0)
       end.

(** A candidate within both bounds. *)
Definition electable (e : Election) (behind : gmap string Z) (x : string) : Prop :=
  admissible e x /\
  (forall m, el_MaxTransactionsBehind e = Some m -> default 0 (behind !! x) <= m) /\
  (forall l, el_MaxReplicationLag e = Some l -> exists lost, time_lost e behind x = Some lost /\ lost <= l).

(** The two bounds keep exactly the electable candidates. *)
Lemma pool_elem e candidates n behind x :
  foldl (consider e) ([], O) (fs_InstanceNames (el_Observed e)) = (candidates, n) ->
  let eligible := withinBound candidates behind (el_MaxTransactionsBehind e) in
  x ∈ withinLagBound eligible (writesBehind (el_Observed e) eligible behind (el_PrimaryDownFor e)) (el_MaxReplicationLag e)
  <-> electable e behind x.
Proof.
  intros Hc eligible. pose proof (candidates_iff e candidates n Hc x) as Hx.
  unfold electable, time_lost. rewrite withinLagBound_elem. split.
  - intros [He Hl]. pose proof He as He'. apply withinBound_elem in He' as [Hin Hb]. split_and!; [by apply Hx|done|].
    intros l El. rewrite <- writesBehind_time with (c := eligible); auto.
  - intros (Ha & Hb & Hl). assert (x ∈ eligible) as He by (apply withinBound_elem; split; [by apply Hx|done]).
    split; [done|]. intros l El. rewrite writesBehind_time by done. auto.
Qed.

Lemma time_of_elected e candidates behind x :
  x ∈ withinBound candidates behind (el_MaxTransactionsBehind e) ->
  time_of (writesBehind (el_Observed e) (withinBound candidates behind (el_MaxTransactionsBehind e)) behind
    (el_PrimaryDownFor e)) x = time_lost e behind x.
Proof. apply writesBehind_time. Qed.

(** [c] holds_all every electable candidate. *)
Definition safest (e : Election) (behind : gmap string Z) (c : string) : Prop :=
  electable e behind c /\ forall x, electable e behind x -> holds_all (el_Observed e) c x.

Lemma Select_elected e :
  fc_Reason (SelectFailoverCandidate e) = None ->
  exists candidates n behind,
    foldl (consider e) ([], O) (fs_InstanceNames (el_Observed e)) = (candidates, n) /\
    transactionsBehind (el_Observed e) candidates (el_ReferenceGTID e) = Ok behind /\
    let r := SelectFailoverCandidate e in
    safest e behind (fc_Name r) /\
    fc_TransactionsBehind r = default 0 (behind !! fc_Name r) /\
    fc_TimeBehind r = time_lost e behind (fc_Name r) /\
    forall x, safest e behind x -> precedes (el_Preferred e) (el_Observed e) (el_ArchiveCovered e) (fc_Name r) x.
Proof.
  unfold SelectFailoverCandidate. destruct (foldl _ _ _) as [candidates n] eqn:Ec.
  destruct (Nat.eqb (length candidates) 0); [done|].
  destruct (transactionsBehind _ _ _) as [behind|] eqn:Eb; [|done].
  pose proof (fun x => pool_elem e candidates n behind x Ec) as Hpool. cbv zeta in Hpool.
  destruct (Nat.eqb (length (withinBound _ _ _)) 0); [done|]. cbv zeta.
  set (eligible := withinBound candidates behind (el_MaxTransactionsBehind e)) in *.
  set (lag := withinLagBound eligible _ _) in *.
  destruct (Nat.eqb (length lag) 0); [done|].
  set (pool := orderByArchiveContinuity _ _ _ _).
  assert (forall x, x ∈ pool <-> electable e behind x) as Hp.
  { intros x. subst pool. rewrite orderByArchiveContinuity_perm, orderByPreference_perm. apply Hpool. }
  destruct (elect _ _ _) as [[c|]|] eqn:Ee; [|done..]. intros _. cbn [fc_Name fc_TransactionsBehind fc_TimeBehind fc_Reason].
  apply elect_some in Ee as (pre & post & Ep & Hc & Hpre).
  assert (electable e behind c) as Helc by (apply Hp; rewrite Ep; set_solver).
  assert (forall x, electable e behind x -> holds_all (el_Observed e) c x) as Hcov by (intros x Hx; by apply Hc, Hp).
  exists candidates, n, behind. split_and!; [done..| |].
  - apply time_of_elected. apply Hpool, withinLagBound_elem in Helc. apply Helc.
  - intros x [Hx Hall]. apply Hp in Hx as Hin.
    pose proof (ordered_by_preference lag (el_Preferred e) (el_Observed e) (el_ArchiveCovered e)) as Hsort.
    fold pool in Hsort. rewrite Ep in Hin, Hsort.
    apply elem_of_app in Hin as [Hin|[->|Hin]%elem_of_cons].
    + destruct (Hpre x Hin). intros y Hy. by apply Hall, Hp.
    + right. done.
    + apply StronglySorted_app_1_r, StronglySorted_cons in Hsort as [Hf _].
      rewrite Forall_forall in Hf. by apply Hf.
Qed.

Lemma length_eqb_0 {A} (l : list A) x : Nat.eqb (length l) 0 = true -> x ∉ l.
Proof. destruct l; [intros _; apply not_elem_of_nil|done]. Qed.

(** A refusal is never for want of a safe candidate. *)
Lemma Select_refused e r candidates n behind x :
  readable e ->
  foldl (consider e) ([], O) (fs_InstanceNames (el_Observed e)) = (candidates, n) ->
  transactionsBehind (el_Observed e) candidates (el_ReferenceGTID e) = Ok behind ->
  fc_Reason (SelectFailoverCandidate e) = Some r -> ~ safest e behind x.
Proof.
  intros [_ Hv] Ec Eb H [Hx Hall]. revert H. unfold SelectFailoverCandidate. rewrite Ec, Eb.
  pose proof (fun x => pool_elem e candidates n behind x Ec) as Hpool. cbv zeta in Hpool |- *.
  set (eligible := withinBound candidates behind (el_MaxTransactionsBehind e)) in *.
  set (lag := withinLagBound eligible _ _) in *.
  assert (x ∈ lag) as Hlag by (by apply Hpool). pose proof Hlag as He. apply withinLagBound_elem in He as [He _].
  destruct (Nat.eqb (length candidates) 0) eqn:E0.
  { destruct (length_eqb_0 _ x E0). by apply withinBound_elem in He as [? _]. }
  destruct (Nat.eqb (length eligible) 0) eqn:E1; [by destruct (length_eqb_0 _ x E1)|].
  destruct (Nat.eqb (length lag) 0) eqn:E2; [by destruct (length_eqb_0 _ x E2)|].
  set (pool := orderByArchiveContinuity _ _ _ _).
  assert (forall x, x ∈ pool <-> electable e behind x) as Hp.
  { intros y. subst pool. rewrite orderByArchiveContinuity_perm, orderByPreference_perm. apply Hpool. }
  destruct (elect_total (el_Observed e) pool pool) as [r' Er].
  { intros y Hy. apply Hv. assert (electable e behind y) as [? _] by (apply Hp; tauto). done. }
  rewrite Er. destruct r' as [c|]; [done|]. intros _.
  apply (elect_none _ _ _ Er x); [by apply Hp|]. intros y Hy. by apply Hall, Hp.
Qed.
End Laws.

(** A refusal names nobody. *)
Lemma Select_named {M : GTIDModel} e :
  fc_Name (SelectFailoverCandidate e) <> "" -> fc_Reason (SelectFailoverCandidate e) = None.
Proof.
  unfold SelectFailoverCandidate. destruct (foldl _ _ _) as [candidates n].
  repeat (case_match; try done).
Qed.

(** ** Properties *)

(** The losses the election measured. *)
Definition measured {M : GTIDModel} (e : Election) (behind : gmap string Z) : Prop :=
  exists candidates n, foldl (consider e) ([], O) (fs_InstanceNames (el_Observed e)) = (candidates, n) /\
    transactionsBehind (el_Observed e) candidates (el_ReferenceGTID e) = Ok behind.

(** C5: An elected replica is admissible (not the primary, not fenced, not
    diverged, a replica whose applier runs, holding nothing disowned), loses no
    more than the configured transactions and seconds of writes, and has executed
    everything any other electable replica executed; among those, no other one
    is ranked before it by the preference and then by archive continuity.  The
    reported losses are the measured ones. *)
Theorem elected_is_safest {M : GTIDModel} {L : GTIDModelLaws M} e :
  let r := SelectFailoverCandidate e in
  fc_Reason r = None ->
  exists behind, measured e behind /\ safest e behind (fc_Name r) /\
    fc_TransactionsBehind r = default 0 (behind !! fc_Name r) /\ fc_TimeBehind r = time_lost e behind (fc_Name r) /\
    forall x, safest e behind x -> precedes (el_Preferred e) (el_Observed e) (el_ArchiveCovered e) (fc_Name r) x.
Proof.
  intros r Hr. destruct (Select_elected e Hr) as (candidates & n & behind & H1 & H2 & H3 & H4 & H5 & H6).
  exists behind. split_and!; try done. by exists candidates, n.
Qed.

(** C23: When the engine can read the positions involved, a replica is elected
    exactly when some electable replica has executed everything the electable
    ones executed: no safe candidate is refused, and nothing is elected without one. *)
Theorem election_succeeds_iff_safe {M : GTIDModel} {L : GTIDModelLaws M} e :
  readable e ->
  fc_Reason (SelectFailoverCandidate e) = None <-> exists behind x, measured e behind /\ safest e behind x.
Proof.
  intros Hv. split.
  - intros Hr. destruct (Select_elected e Hr) as (candidates & n & behind & H1 & H2 & H3 & _).
    exists behind. eexists. split; [by exists candidates, n|exact H3].
  - intros (behind & x & (candidates & n & H1 & H2) & Hx).
    destruct (fc_Reason (SelectFailoverCandidate e)) as [r|] eqn:E; [|done].
    by destruct (Select_refused e r candidates n behind x Hv H1 H2 E).
Qed.

(** The loss the election bounds is measured against everything known to
    exist: the reference holds exactly the departing primary's last position and
    what the admissible replicas executed or retrieved, and each admissible
    replica's loss is what its executed and retrieved positions miss of it. *)
Theorem loss_is_measured_against_all_known {M : GTIDModel} {L : GTIDModelLaws M} e :
  readable e ->
  exists behind candidates reference, measured e behind /\ (forall x, x ∈ candidates <-> admissible e x) /\
    (forall t, gm_holds reference t <-> known_to_exist e candidates t) /\
    forall x, admissible e x -> exists held,
      (forall t, gm_holds held t <-> gm_holds (fi_GTID (instance_of (el_Observed e) x)) t \/
                                     gm_holds (fi_RetrievedGTID (instance_of (el_Observed e) x)) t) /\
      gm_MissingCount held reference = Ok (default 0 (behind !! x)) /\
      ((forall t, known_to_exist e candidates t -> gm_holds held t) -> default 0 (behind !! x) = 0).
Proof.
  intros Hv. destruct (foldl (consider e) ([], O) (fs_InstanceNames (el_Observed e))) as [candidates n] eqn:Ec.
  pose proof (candidates_iff _ _ _ Ec) as Hc.
  destruct (transactionsBehind_total e candidates) as [behind Hb]; [intros x Hx; by apply Hc|done|].
  destruct (transactionsBehind_spec _ _ _ Hb) as (held & reference & Hh & Hu & Hm).
  destruct (reference_holds e candidates held reference) as [Hvr Href]; [intros x Hx; by apply Hc|done..|].
  exists behind, candidates, reference. split_and!; [by exists candidates, n|done|done|].
  intros x Hx. destruct (Hm x) as (h & m & Hxu & Hmc & Hbx); [by apply Hc|]. destruct (proj2 Hv x Hx) as [V1 V2].
  exists h. rewrite Hbx. split_and!; [intros t; by apply union2_holds|done|]. intros Hall. cbn.
  destruct (union2_ok _ _ V1 V2) as (h' & Hh' & Hvh). assert (h' = h) as -> by congruence.
  destruct (gm_missing_ok h reference Hvh Hvr) as (m' & Hm' & _ & Hz).
  assert (m' = m) as <- by congruence. apply Hz. intros t Ht. apply Hall. by apply Href.
Qed.

(** No elected replica has executed, or holds in its relay log, a
    transaction of the archive's disowned set. *)
Theorem elected_holds_nothing_disowned {M : GTIDModel} {L : GTIDModelLaws M} e disowned t :
  fc_Reason (SelectFailoverCandidate e) = None -> el_Disowned e = Some disowned -> set_wf disowned ->
  gtid_in disowned (fst t) (snd t) ->
  let status := instance_of (el_Observed e) (fc_Name (SelectFailoverCandidate e)) in
  ~ mysql_holds (fi_GTID status) t /\ ~ mysql_holds (fi_RetrievedGTID status) t.
Proof.
  intros Hr Hd Hwf Ht. destruct (Select_elected e Hr) as (_ & _ & behind & _ & _ & [[Ha _] _] & _).
  destruct Ha as (_ & _ & _ & _ & status & Hs & _ & _ & _ & Hdis). specialize (Hdis disowned Hd).
  unfold instance_of. rewrite Hs. cbn [default]. apply not_true_iff_false in Hdis.
  split; intros Hh; apply Hdis, holdsDisowned_spec; [done| |done|]; eexists _, t; (split_and!; [|exact Hh|done]); set_solver.
Qed.

(** A primary that went down at [:1-105] and two replicas; the more advanced one
    is not the preferred one. *)
Module Sample.

Definition uuid : string := "3e11fa47-71ca-11e1-9e33-c80aa9429562".

Definition replica (gtid : string) : FailoverInstance :=
  mkFailoverInstance true false true "replica" false true gtid "" "" (Some 3000000000) false.

Definition observed : FailoverState :=
  mkFailoverState "c-1" ["c-1"; "c-2"; "c-3"]
    (<["c-2" := replica (uuid +:+ ":1-90")]> (<["c-3" := replica (uuid +:+ ":1-100")]> ∅)) [] [] [].

Definition disowned : GTIDSet := {[ uuid := [mkGTIDInterval 200 210] ]}.

Definition election : Election :=
  mkElection observed [] (Some 10) "" ["c-2"] (uuid +:+ ":1-105") None 0 (Some disowned).

End Sample.

Lemma elected_is_safest_witness :
  fc_Name (@SelectFailoverCandidate mysqlGTID Sample.election) = "c-3" /\
  fc_TransactionsBehind (@SelectFailoverCandidate mysqlGTID Sample.election) = 5 /\
  exists behind, @measured mysqlGTID Sample.election behind /\
    @safest mysqlGTID mysqlGTID_laws Sample.election behind (fc_Name (@SelectFailoverCandidate mysqlGTID Sample.election)).
Proof.
  split; [vm_compute; reflexivity|]. split; [vm_compute; reflexivity|].
  destruct (@elected_is_safest mysqlGTID mysqlGTID_laws Sample.election ltac:(vm_compute; reflexivity))
    as (behind & H1 & H2 & _). exists behind. split; [exact H1|exact H2].
Defined.

Lemma sample_readable : @readable mysqlGTID mysqlGTID_laws Sample.election.
Proof.
  split; [eexists; vm_compute; reflexivity|]. intros x (Hin & Hp & _).
  apply elem_of_cons in Hin as [->|[->|[->|[]%not_elem_of_nil]%elem_of_cons]%elem_of_cons]; [done|..];
    (split; eexists; vm_compute; reflexivity).
Qed.

Lemma election_succeeds_iff_safe_witness :
  exists behind x, @measured mysqlGTID Sample.election behind /\ @safest mysqlGTID mysqlGTID_laws Sample.election behind x.
Proof.
  apply (@election_succeeds_iff_safe mysqlGTID mysqlGTID_laws Sample.election sample_readable).
  vm_compute. reflexivity.
Defined.

Lemma loss_is_measured_against_all_known_witness :
  exists behind, @measured mysqlGTID Sample.election behind.
Proof.
  destruct (@loss_is_measured_against_all_known mysqlGTID mysqlGTID_laws Sample.election sample_readable)
    as (behind & _ & _ & H & _). exists behind. exact H.
Defined.

Lemma elected_holds_nothing_disowned_witness :
  ~ mysql_holds (fi_GTID (instance_of Sample.observed (fc_Name (@SelectFailoverCandidate mysqlGTID Sample.election))))
      (Sample.uuid, 205).
Proof.
  destruct (@elected_holds_nothing_disowned mysqlGTID mysqlGTID_laws Sample.election Sample.disowned (Sample.uuid, 205))
    as [H _].
  - vm_compute. reflexivity.
  - reflexivity.
  - intros u ivs. unfold Sample.disowned. rewrite lookup_singleton. case_decide; [|done].
    intros [= <-]. subst. vm_compute. repeat split; discriminate || reflexivity.
  - exists (mkGTIDInterval 200 210). split; [vm_compute; left|split; vm_compute; discriminate].
  - exact H.
Defined.
