(* ===== verification/Cluster.v ===== *)
(** * The cluster object and a reconcile pass

    The fields of the Cluster resource that the failover and switchover paths
    read and write ([api/v1alpha1/cluster_types.go], with the accessors of
    [cluster_funcs.go]), the pass that talks to the API server, the primary
    Lease ([internal/controller/async/cluster_primary_lease.go]) and the
    anti-flapping policy ([internal/controller/topology/failover_policy.go]).

    A pass is a state monad: the in-memory status, the stored status, the effects
    performed so far in order, and the number of answers taken from the
    environment.  The API server and the clock are an [API] of answers, one per
    call; nothing is assumed of them except where a theorem says so. *)

From Stdlib Require Import ZArith Lia Bool Ascii String.
From stdpp Require Import base list strings gmap.
From S2P Require Import Prelude GoStrings Gtid GtidText GtidModel MariaGtid Election.

Local Open Scope Z_scope.

(** ** Specification *)

Record FailoverPolicy := mkFailoverPolicy {
  fp_MaxTransactionsBehind : option Z;
  fp_MaxReplicationLag : option Duration;
  fp_PreferredPrimary : list string;
  fp_MinTimeBetweenFailovers : option Duration;
  fp_PrimaryStabilityWindow : option Duration
}.

(** [spec.backup]: whether an object store is set, and [continuousArchiving.enabled]. *)
Record BackupSpec := mkBackupSpec { bk_ObjectStore : bool; bk_ContinuousArchiving : option bool }.

Record ClusterSpec := mkClusterSpec {
  spec_FailoverPolicy : option FailoverPolicy;
  spec_EnableFailover : option bool;
  spec_EnablePrimaryLease : option bool;
  spec_EnableSwitchoverOnDrain : option bool;
  spec_FailoverDelay : Z;
  spec_MaxSwitchoverDelay : Z;
  spec_InPlaceInstanceManagerUpdates : bool;
  spec_Flavor : string;
  spec_Backup : option BackupSpec
}.

Definition EnableFailover (spec : ClusterSpec) : bool := default true (spec_EnableFailover spec).
Definition IsPrimaryLeaseEnabled (spec : ClusterSpec) : bool := default true (spec_EnablePrimaryLease spec).
Definition IsSwitchoverOnDrainEnabled (spec : ClusterSpec) : bool := default true (spec_EnableSwitchoverOnDrain spec).

Definition MaxReplicationLag (spec : ClusterSpec) : option Duration :=
  spec_FailoverPolicy spec ≫= fp_MaxReplicationLag.
Definition PreferredPrimary (spec : ClusterSpec) : list string :=
  default [] (fp_PreferredPrimary <$> spec_FailoverPolicy spec).
Definition MinTimeBetweenFailovers (spec : ClusterSpec) : Duration :=
  default 0 (spec_FailoverPolicy spec ≫= fp_MinTimeBetweenFailovers).
Definition PrimaryStabilityWindow (spec : ClusterSpec) : Duration :=
  default 0 (spec_FailoverPolicy spec ≫= fp_PrimaryStabilityWindow).
Definition maxTransactionsBehind (spec : ClusterSpec) : option Z :=
  spec_FailoverPolicy spec ≫= fp_MaxTransactionsBehind.

Definition ResolvedFlavor (spec : ClusterSpec) : string :=
  if String.eqb (spec_Flavor spec) "" then "mysql" else spec_Flavor spec.

Definition IsArchivingEnabled (spec : ClusterSpec) : bool :=
  match spec_Backup spec with
  | Some bk => default false (bk_ContinuousArchiving bk) && bk_ObjectStore bk
  | None => false
  end.

(** [engine.ForFlavor(f).GTID()]. *)
Definition ForFlavor (f : string) : result GTIDModel :=
  if String.eqb f "mysql" || String.eqb f "" then Ok mysqlGTID
  else if String.eqb f "mariadb" then Ok mariadbGTID
  else Err (Errorf "unknown engine flavor").

(** ** Status *)

(** The phase messages, by what they say. *)
Inductive phase_reason :=
| FailoverDisabled (primary : string)
| WaitingDelay (primary : string) (remaining : Duration)
| CoolingDown (primary : string) (cooldown remaining : Duration)
| CannotFailOver (primary : string) (why : option reason)
| LeaseHeld (primary : string)
| FailingOver (primary candidate : string) (behind : Z) (lost : option Duration)
| SwitchingOver (target : string)
| WaitingRecord (target : string)
| WaitingPromote (target : string)
| NotRecorded (target : string) (maxDelay : Z)
| UnfitTarget (e : error)
| Aborted (target : string) (maxDelay : Z)
| Draining (primary target : string)
| Requested (message : string).

Record ClusterStatus := mkClusterStatus {
  st_CurrentPrimary : string;
  st_CurrentPrimaryTimestamp : option Time;
  st_TargetPrimary : string;
  st_TargetPrimaryTimestamp : option Time;
  st_PrimaryFailingSince : option Time;
  st_PrimaryHealthySince : option Time;
  st_LastFailoverTimestamp : option Time;
  st_FencedInstances : list string;
  st_DivergedInstances : list string;
  st_GTIDExecutedByInstance : gmap string string;
  st_ExecutableHashByInstance : gmap string string;
  st_CoveredGTIDSet : option string;
  st_Phase : string;
  st_PhaseReason : option phase_reason
}.

(** The archive's covered set as last reported; [st_CoveredGTIDSet] is [None]
    when [status.continuousArchiving] is. *)
Definition archiveCovered (spec : ClusterSpec) (status : ClusterStatus) : string :=
  match st_CoveredGTIDSet status with
  | Some covered => if IsArchivingEnabled spec then covered else ""
  | None => ""
  end.

(** ** The API server *)

Record Lease := mkLease {
  ls_HolderIdentity : option string;
  ls_RenewTime : option Time;
  ls_LeaseDurationSeconds : option Z
}.

Record Pod := mkPod { pod_DeletionTimestamp : bool; pod_Fencing : string }.

Inductive api_error := NotFound | APIError (e : error).

(** [client.IgnoreNotFound]. *)
Definition IgnoreNotFound (e : api_error) : option error :=
  match e with NotFound => None | APIError e => Some e end.

(** The answers to a pass's calls, by call number.  [api_latest] is the Get of
    [PatchClusterStatus]: what is stored by then, other writers included.
    [api_time] is a timestamp as it comes back from the API server. *)
Record API := mkAPI {
  api_now : nat -> Time;
  api_lease : nat -> Lease + api_error;
  api_pod : nat -> string -> Pod + api_error;
  api_delete : nat -> string -> option api_error;
  api_latest : nat -> ClusterStatus -> result ClusterStatus;
  api_patch : nat -> option error;
  api_time : Time -> Time
}.

Inductive effect :=
| PodDeleted (name : string)
| StatusPatched (status : ClusterStatus).

Record Pass := mkPass {
  ps_Status : ClusterStatus;
  ps_Stored : ClusterStatus;
  ps_Effects : list effect;
  ps_Calls : nat
}.

Definition M (A : Type) : Type := API -> Pass -> Pass * A.

Definition ret {A} (a : A) : M A := fun _ s => (s, a).
Definition bind {A B} (m : M A) (k : A -> M B) : M B := fun api s => let '(s', a) := m api s in k a api s'.

Notation "'let!' x := m 'in' k" := (bind m (fun x => k)) (at level 200, x pattern, right associativity) : go_scope.
Local Open Scope go_scope.

(** Take the next answer. *)
Definition call {A} (f : API -> nat -> A) : M A :=
  fun api s => (mkPass (ps_Status s) (ps_Stored s) (ps_Effects s) (S (ps_Calls s)), f api (ps_Calls s)).

Definition Now : M Time := call api_now.
Definition status : M ClusterStatus := fun _ s => (s, ps_Status s).

Definition emit (e : effect) : M unit :=
  fun _ s => (mkPass (ps_Status s) (ps_Stored s) (ps_Effects s ++ [e]) (ps_Calls s), tt).

(** Timestamps as the API server keeps them. *)
Definition through (api : API) (st : ClusterStatus) : ClusterStatus :=
  mkClusterStatus (st_CurrentPrimary st) (api_time api <$> st_CurrentPrimaryTimestamp st)
    (st_TargetPrimary st) (api_time api <$> st_TargetPrimaryTimestamp st)
    (api_time api <$> st_PrimaryFailingSince st) (api_time api <$> st_PrimaryHealthySince st)
    (api_time api <$> st_LastFailoverTimestamp st)
    (st_FencedInstances st) (st_DivergedInstances st) (st_GTIDExecutedByInstance st)
    (st_ExecutableHashByInstance st) (st_CoveredGTIDSet st) (st_Phase st) (st_PhaseReason st).

(** [PatchClusterStatus]: fetch the latest, mutate, patch, copy back. *)
Definition PatchClusterStatus (mutate : ClusterStatus -> ClusterStatus) : M (option error) :=
  let! stored := (fun _ s => (s, ps_Stored s)) in
  let! latest := call (fun api n => api_latest api n stored) in
  match latest with
  | Err e => ret (Some e)
  | Ok latest =>
      let! err := call api_patch in
      match err with
      | Some e => ret (Some e)
      | None =>
          fun api s =>
            let st := through api (mutate latest) in
            (mkPass st st (ps_Effects s ++ [StatusPatched st]) (ps_Calls s), None)
      end
  end.

(** ** The primary Lease *)

Definition second : Duration := 1000000000.
Definition primaryLeaseDuration : Duration := 15 * second.

Record LeaseStatus := mkLeaseStatus { Held : bool; RetryAfter : Duration }.
Definition free : LeaseStatus := mkLeaseStatus false 0.

Definition PrimaryLeaseStatus (spec : ClusterSpec) (holder : string) : M (result LeaseStatus) :=
  if negb (IsPrimaryLeaseEnabled spec) then ret (Ok free)
  else
    let! lease := call api_lease in
    match lease with
    | inr NotFound => ret (Ok free)
    | inr (APIError e) => ret (Err e)
    | inl lease =>
        match ls_HolderIdentity lease, ls_RenewTime lease with
        | Some h, Some renew =>
            if negb (String.eqb h holder) then ret (Ok free)
            else
              let duration := match ls_LeaseDurationSeconds lease with
                              | Some seconds => seconds * second
                              | None => primaryLeaseDuration
                              end in
              let! now := Now in
              let remaining := duration - (now - renew) in
              if remaining <=? 0 then ret (Ok free) else ret (Ok (mkLeaseStatus true remaining))
        | _, _ => ret (Ok free)
        end
    end.

(** ** The anti-flapping policy *)

(** [time.Time.IsZero] is the year-1 instant, [0] here. *)
Definition primaryHealthySince (st : ClusterStatus) : Time :=
  match st_PrimaryHealthySince st with
  | None => 0
  | Some since =>
      match st_CurrentPrimaryTimestamp st with
      | Some elected => if since <? elected then elected else since
      | None => since
      end
  end.

Definition primarySettledAt (spec : ClusterSpec) (st : ClusterStatus) : Time :=
  let settled := default 0 (st_LastFailoverTimestamp st) in
  let window := PrimaryStabilityWindow spec in
  if window <=? 0 then settled
  else
    let healthy := primaryHealthySince st in
    if negb (IsZero healthy) && (settled <? healthy + window) then healthy + window else settled.

Definition FailoverCooldownRemaining (spec : ClusterSpec) (st : ClusterStatus) (now : Time) : Duration :=
  let cooldown := MinTimeBetweenFailovers spec in
  if cooldown <=? 0 then 0
  else
    let settled := primarySettledAt spec st in
    if IsZero settled then 0 else Z.max (settled + cooldown - now) 0.

Definition primaryMovable (spec : ClusterSpec) (st : ClusterStatus) (observed : FailoverState) (now : Time) : bool :=
  let current := st_CurrentPrimary st in
  let target := st_TargetPrimary st in
  if String.eqb current "" || String.eqb (fs_PrimaryName observed) "" then false
  else if negb (String.eqb target "") && negb (String.eqb target current) then false
  else match fs_Instances observed !! current with
       | None => false
       | Some s =>
           if negb (fi_Ready s) || negb (fi_Primary s) then false
           else if contains_name (fs_Terminating observed) current then false
           else negb (0 <? FailoverCooldownRemaining spec st now)
       end.

Definition candidateEligible (st : ClusterStatus) (observed : FailoverState) (name : string) : bool :=
  negb (contains_name (fs_Fenced observed) name) &&
  negb (contains_name (fs_Diverged observed) name) &&
  negb (contains_name (st_DivergedInstances st) name) &&
  negb (contains_name (fs_Terminating observed) name).

(** The walk over the preferred instances. *)
Fixpoint failback_walk (st : ClusterStatus) (observed : FailoverState) (promotable : string -> bool)
    (preferred : list string) : string :=
  match preferred with
  | [] => ""
  | name :: preferred' =>
      if String.eqb name (st_CurrentPrimary st) then ""
      else if negb (candidateEligible st observed name) then failback_walk st observed promotable preferred'
      else if promotable name then name
      else failback_walk st observed promotable preferred'
  end.

Definition PreferredFailbackTarget (spec : ClusterSpec) (st : ClusterStatus) (observed : FailoverState)
    (promotable : string -> bool) (now : Time) : string :=
  let preferred := PreferredPrimary spec in
  if Nat.eqb (length preferred) 0 || negb (primaryMovable spec st observed now) then ""
  else failback_walk st observed promotable preferred.

(** The preferred instances, then the others in ordinal order. *)
Definition in_range_candidates (preferred names : list string) : list string :=
  foldl (fun candidates name => if contains_name candidates name then candidates else candidates ++ [name])
    preferred names.

Definition InRangeSwitchoverTarget (spec : ClusterSpec) (st : ClusterStatus) (observed : FailoverState)
    (inRange promotable : string -> bool) (now : Time) : string :=
  let current := st_CurrentPrimary st in
  if String.eqb current "" || inRange current || negb (primaryMovable spec st observed now) then ""
  else
    default "" (List.find (fun name =>
      negb (String.eqb name current) && inRange name && candidateEligible st observed name && promotable name)
      (in_range_candidates (PreferredPrimary spec) (fs_InstanceNames observed))).

(** ** Running a pass *)

Lemma bind_run {A B} (m : M A) (k : A -> M B) api s s' b :
  bind m k api s = (s', b) -> exists s1 a, m api s = (s1, a) /\ k a api s1 = (s', b).
Proof. unfold bind. destruct (m api s) as [s1 a]. eauto. Qed.

(** Decompose a completed run into the runs of its operations. *)
Ltac inv_pass :=
  repeat match goal with
  | H : bind _ _ _ _ = (_, _) |- _ =>
      let s := fresh "s" in let a := fresh "a" in let H1 := fresh "Hrun" in
      apply bind_run in H as (s & a & H1 & H)
  | H : ret _ _ _ = (_, _) |- _ => unfold ret in H; injection H as <- <-
  | H : status _ _ = (_, _) |- _ => unfold status in H; injection H as <- <-
  | H : (?s, ps_Stored ?s) = (_, _) |- _ => injection H as <- <-
  | H : call _ _ _ = (_, _) |- _ => unfold call in H; injection H as <- <-
  | H : emit _ _ _ = (_, _) |- _ => unfold emit in H; injection H as <- <-
  | H : Now _ _ = (_, _) |- _ => unfold Now in H
  end.

(** A pass only takes more answers and adds effects. *)
Record extends (s s' : Pass) (new : list effect) : Prop := {
  ext_calls : (ps_Calls s <= ps_Calls s')%nat;
  ext_effects : ps_Effects s' = ps_Effects s ++ new
}.

Lemma extends_refl s : extends s s [].
Proof. split; [done|by rewrite app_nil_r]. Qed.

Lemma extends_trans s1 s2 s3 n1 n2 : extends s1 s2 n1 -> extends s2 s3 n2 -> extends s1 s3 (n1 ++ n2).
Proof. intros [? E1] [? E2]. split; [lia|]. by rewrite E2, E1, app_assoc. Qed.

(** The outcomes of a patch: nothing changed, or the latest status mutated. *)
Lemma PatchClusterStatus_run mutate api s s' err :
  PatchClusterStatus mutate api s = (s', err) ->
  (exists e, err = Some e /\ ps_Status s' = ps_Status s /\ ps_Stored s' = ps_Stored s /\ extends s s' []) \/
  (exists k latest, err = None /\ api_latest api k (ps_Stored s) = Ok latest /\
     let st := through api (mutate latest) in
     ps_Status s' = st /\ ps_Stored s' = st /\ extends s s' [StatusPatched st]).
Proof.
  unfold PatchClusterStatus. intros H. inv_pass.
  destruct (api_latest api (ps_Calls s) (ps_Stored s)) as [latest|e] eqn:El.
  - inv_pass. destruct (api_patch api _) as [e|]; inv_pass.
    + left. exists e. split_and!; [done..|]. split; cbn; [lia|by rewrite app_nil_r].
    + injection H as <- <-. right. exists (ps_Calls s), latest. cbn. split_and!; [done..|]. split; cbn; [lia|done].
  - inv_pass. left. exists e. split_and!; [done..|]. split; cbn; [lia|by rewrite app_nil_r].
Qed.

(** A lease holds nothing back once it is somebody else's, or has run out. *)
Lemma PrimaryLeaseStatus_run spec holder api s s' r :
  PrimaryLeaseStatus spec holder api s = (s', r) ->
  ps_Status s' = ps_Status s /\ ps_Stored s' = ps_Stored s /\ extends s s' [] /\
  forall lease, r = Ok lease -> Held lease = false ->
    IsPrimaryLeaseEnabled spec = false \/ api_lease api (ps_Calls s) = inr NotFound \/
    exists l, api_lease api (ps_Calls s) = inl l /\
      (ls_HolderIdentity l <> Some holder \/ ls_RenewTime l = None \/
       exists renew, ls_RenewTime l = Some renew /\
         renew + default primaryLeaseDuration ((fun n => n * second) <$> ls_LeaseDurationSeconds l) <= api_now api (S (ps_Calls s))).
Proof.
  unfold PrimaryLeaseStatus. intros H. destruct (IsPrimaryLeaseEnabled spec) eqn:En; cbn [negb] in H.
  2: { inv_pass. split_and!; [done..|apply extends_refl|]. auto. }
  inv_pass. destruct (api_lease api (ps_Calls s)) as [l|[|e]] eqn:El.
  2, 3: inv_pass; split_and!; [done..|split; cbn; [lia|by rewrite app_nil_r]|naive_solver].
  destruct (ls_HolderIdentity l) as [h|] eqn:Eh.
  2: { inv_pass. split_and!; [done..|split; cbn; [lia|by rewrite app_nil_r]|]. intros. right; right. exists l.
       split; [done|]. left. congruence. }
  destruct (ls_RenewTime l) as [renew|] eqn:Er.
  2: { inv_pass. split_and!; [done..|split; cbn; [lia|by rewrite app_nil_r]|]. intros. right; right. exists l. auto. }
  destruct (String.eqb_spec h holder) as [->|Hne]; cbn [negb] in H.
  2: { inv_pass. split_and!; [done..|split; cbn; [lia|by rewrite app_nil_r]|]. intros. right; right. exists l.
       split; [done|]. left. congruence. }
  inv_pass. cbn in H. destruct (Z.leb_spec (match ls_LeaseDurationSeconds l with Some seconds => seconds * second
    | None => primaryLeaseDuration end - (api_now api (S (ps_Calls s)) - renew)) 0) as [Hle|Hgt]; inv_pass;
    (split_and!; [done..|split; cbn; [lia|by rewrite app_nil_r]|]); [|by intros ? [= <-]].
  intros _ _ _. right; right. exists l. split; [done|]. right; right. exists renew. split; [done|].
  destruct (ls_LeaseDurationSeconds l); cbn; lia.
Qed.

(** ** Where the primary should go *)

(** The walk stops at the current primary, and otherwise at the first instance
    that is eligible and promotable. *)
Lemma failback_walk_spec st observed promotable preferred r :
  failback_walk st observed promotable preferred = r -> r <> "" ->
  exists pre post, preferred = pre ++ r :: post /\
    candidateEligible st observed r = true /\ promotable r = true /\ r <> st_CurrentPrimary st /\
    st_CurrentPrimary st ∉ pre /\
    forall p, p ∈ pre -> candidateEligible st observed p && promotable p = false.
Proof.
  induction preferred as [|y l IH]; cbn; [congruence|]. intros H Hr.
  destruct (String.eqb_spec y (st_CurrentPrimary st)) as [->|Hy]; [congruence|].
  assert (candidateEligible st observed y && promotable y = false -> failback_walk st observed promotable l = r ->
    exists pre post, y :: l = pre ++ r :: post /\ candidateEligible st observed r = true /\ promotable r = true /\
      r <> st_CurrentPrimary st /\ st_CurrentPrimary st ∉ pre /\
      forall p, p ∈ pre -> candidateEligible st observed p && promotable p = false) as Hnext.
  { intros Hno Hw. destruct (IH Hw Hr) as (pre & post & -> & He & Hp & Hc & Hni & Hpre).
    exists (y :: pre), post. split_and!; [done..|set_solver|]. intros p [->|?]%elem_of_cons; auto. }
  destruct (candidateEligible st observed y) eqn:He; cbn [negb] in H; [|by apply Hnext].
  destruct (promotable y) eqn:Hp; [|by apply Hnext]. subst r.
  exists [], l. split_and!; [done..|apply not_elem_of_nil|]. intros p Hin. by apply not_elem_of_nil in Hin.
Qed.

(** No target when nothing above the current primary fits. *)
Lemma failback_walk_none st observed promotable preferred :
  "" ∉ preferred -> failback_walk st observed promotable preferred = "" ->
  forall pre name post, preferred = pre ++ name :: post -> st_CurrentPrimary st ∉ pre -> name <> st_CurrentPrimary st ->
    candidateEligible st observed name && promotable name = false.
Proof.
  intros He Hw pre name post ->. revert Hw. induction pre as [|y pre IH]; cbn; intros Hw Hni Hne.
  - rewrite (proj2 (String.eqb_neq _ _) Hne) in Hw. destruct (candidateEligible st observed name); [|done]. cbn in *.
    destruct (promotable name); [|done]. subst. set_solver.
  - destruct (String.eqb_spec y (st_CurrentPrimary st)) as [->|]; [set_solver|].
    apply IH; [set_solver| |set_solver|done].
    destruct (candidateEligible st observed y); [|done]. cbn in Hw. destruct (promotable y); [|done]. subst. set_solver.
Qed.

Lemma primaryMovable_spec spec st observed now :
  primaryMovable spec st observed now = true <->
  st_CurrentPrimary st <> "" /\ fs_PrimaryName observed <> "" /\
  (st_TargetPrimary st = "" \/ st_TargetPrimary st = st_CurrentPrimary st) /\
  (exists s, fs_Instances observed !! st_CurrentPrimary st = Some s /\ fi_Ready s = true /\ fi_Primary s = true) /\
  st_CurrentPrimary st ∉ fs_Terminating observed /\ FailoverCooldownRemaining spec st now <= 0.
Proof.
  unfold primaryMovable, contains_name.
  destruct (String.eqb_spec (st_CurrentPrimary st) ""), (String.eqb_spec (fs_PrimaryName observed) "");
    cbn [orb]; try (split; [done|naive_solver]).
  destruct (String.eqb_spec (st_TargetPrimary st) "") as [E1|E1], (String.eqb_spec (st_TargetPrimary st) (st_CurrentPrimary st)) as [E2|E2];
    cbn [negb andb]; try (split; [done|naive_solver]).
  all: destruct (fs_Instances observed !! st_CurrentPrimary st) as [i|]; [|split; [done|naive_solver]].
  all: destruct (fi_Ready i) eqn:Er, (fi_Primary i) eqn:Ep; cbn [negb orb]; try (split; [done|naive_solver]).
  all: destruct (bool_decide_reflect (st_CurrentPrimary st ∈ fs_Terminating observed)); try (split; [done|naive_solver]).
  all: rewrite negb_true_iff, Z.ltb_ge; split; [intros ?; split_and!; eauto|naive_solver].
Qed.

(** The engine of a flavour, with the meaning its positions have: a MySQL position
    holds the (source, number) pairs of the set it parses to, a MariaDB position
    the sequence numbers each domain has reached. *)
Inductive engine : string -> forall M : GTIDModel, GTIDModelLaws M -> Prop :=
| engine_mysql f : f = "" \/ f = "mysql" -> engine f mysqlGTID mysqlGTID_laws
| engine_mariadb : engine "mariadb" mariadbGTID mariadbGTID_laws.

Lemma ForFlavor_engine f M : ForFlavor f = Ok M -> exists L, engine f M L.
Proof.
  unfold ForFlavor. destruct (_ || _) eqn:E.
  - intros [= <-]. exists mysqlGTID_laws. apply orb_true_iff in E as [E|E]; apply String.eqb_eq in E; constructor; auto.
  - destruct (String.eqb_spec f "mariadb"); [|done]. subst. intros [= <-]. exists mariadbGTID_laws. constructor.
Qed.

(** ** Properties *)



(** A failback target is the most preferred instance, ranked before the
    current primary, that is eligible and promotable, and it is only named for a
    healthy primary that is not draining, with no handoff in flight and the
    cooldown elapsed; no name means no such instance. *)
Theorem failback_target_is_most_preferred spec st observed promotable now :
  "" ∉ PreferredPrimary spec ->
  let r := PreferredFailbackTarget spec st observed promotable now in
  let current := st_CurrentPrimary st in
  let fits name := candidateEligible st observed name && promotable name in
  (r <> "" ->
     (exists s, fs_Instances observed !! current = Some s /\ fi_Ready s = true /\ fi_Primary s = true) /\
     current ∉ fs_Terminating observed /\ (st_TargetPrimary st = "" \/ st_TargetPrimary st = current) /\
     FailoverCooldownRemaining spec st now <= 0 /\
     exists pre post, PreferredPrimary spec = pre ++ r :: post /\ fits r = true /\ r <> current /\ current ∉ pre /\
       forall p, p ∈ pre -> fits p = false) /\
  (r = "" -> primaryMovable spec st observed now = true ->
     forall pre name post, PreferredPrimary spec = pre ++ name :: post -> current ∉ pre -> name <> current ->
       fits name = false).
Proof.
  intros He r current fits. subst r. unfold PreferredFailbackTarget.
  destruct (Nat.eqb_spec (length (PreferredPrimary spec)) 0) as [Hl|Hl]; cbn [orb].
  { split; [done|]. intros _ _ pre name post E. rewrite E, length_app in Hl. cbn in Hl. lia. }
  destruct (primaryMovable spec st observed now) eqn:Em; cbn [negb]; [|split; done].
  split.
  - intros Hr. apply primaryMovable_spec in Em as (_ & _ & Ht & Hs & Hterm & Hc).
    destruct (failback_walk_spec _ _ _ _ _ eq_refl Hr) as (pre & post & E & Hel & Hp & Hne & Hni & Hpre).
    split_and!; [done..|]. exists pre, post. subst fits. cbn beta. rewrite Hel, Hp. done.
  - intros Hr _. by apply failback_walk_none.
Qed.

(** The primary moved to [c-3] and [c-1], the preferred one, is back. *)
Module Home.

Definition spec : ClusterSpec :=
  mkClusterSpec (Some (mkFailoverPolicy None None ["c-2"; "c-1"] (Some (60 * second)) None))
    None None None 0 30 false "mysql" None.

Definition observed : FailoverState :=
  mkFailoverState "c-3" ["c-1"; "c-2"; "c-3"]
    (<["c-3" := mkFailoverInstance true true false "primary" false false "" "" "" None false]> ∅) [] ["c-2"] [].

Definition stored : ClusterStatus :=
  mkClusterStatus "c-3" None "c-3" None None None (Some (100 * second)) [] [] ∅ ∅ None "Ready" None.

End Home.

Lemma failback_target_is_most_preferred_witness :
  PreferredFailbackTarget Home.spec Home.stored Home.observed (fun _ => true) (170 * second) = "c-1" /\
  PreferredFailbackTarget Home.spec Home.stored Home.observed (fun _ => true) (130 * second) = "" /\
  FailoverCooldownRemaining Home.spec Home.stored (170 * second) <= 0.
Proof.
  split; [vm_compute; reflexivity|]. split; [vm_compute; reflexivity|].
  destruct (failback_target_is_most_preferred Home.spec Home.stored Home.observed (fun _ => true) (170 * second)) as [H _].
  - vm_compute. intros Hin. repeat (apply elem_of_cons in Hin as [?|Hin]; [discriminate|]). by apply not_elem_of_nil in Hin.
  - destruct H as (_ & _ & _ & Hc & _); [vm_compute; discriminate|exact Hc].
Defined.
