(* ===== verification/Observation.v ===== *)
(** * Observing divergence

    [internal/controller/async/cluster_observation.go]: which replicas hold
    transactions the primary does not, on both engines, and whose replication is
    broken.  The flags are the [KnownDiverged] of the election. *)

From Stdlib Require Import ZArith Lia Bool Ascii String.
From stdpp Require Import base list strings gmap.
From S2P Require Import Prelude GoStrings Gtid GtidText GtidModel MariaGtid MariaTimeline Election Cluster.

Local Open Scope Z_scope.

(** ** Input *)

(** [webserver.ReplicationStatus], the fields used. *)
Record ReplicationStatus := mkReplicationStatus {
  rs_SourceHost : string;
  rs_IORunning : bool;
  rs_SQLRunning : bool;
  rs_LastError : string;
  rs_LastIOErrno : Z
}.

(** The reports are non-nil pointers; [None] is a nil [Replication]. *)
Record ObservationInput := mkObservationInput {
  oi_PrimaryName : string;
  oi_InstanceNames : list string;
  oi_StatusByInstance : gmap string (option ReplicationStatus);
  oi_GTIDByInstance : gmap string string;
  oi_EngineFlavor : string;
  oi_PriorDivergedInstances : list string;
  oi_MariaDBTimeline : MariaDBTimeline;
  oi_DisownedGTIDs : string
}.

Record Observation := mkObservation {
  ob_DivergedInstances : list string;
  ob_ReplicationBrokenInstances : list string
}.

(** [input.GTIDByInstance[name]]. *)
Definition gtid_of (input : ObservationInput) (name : string) : string :=
  default "" (oi_GTIDByInstance input !! name).

Definition is_mariadb (input : ObservationInput) : bool := String.eqb (oi_EngineFlavor input) "mariadb".

(** ** Operations *)

Definition stillPresent (names instanceNames : list string) : list string :=
  List.filter (fun name => contains_name instanceNames name) names.

Definition mariadbSourceRefused : Z := 1236.

Definition refusedByPrimary (status : option (option ReplicationStatus)) (primary : string) : bool :=
  match status with
  | Some (Some rs) =>
      if String.eqb primary "" then false
      else
        let '(host, _, _) := Cut (rs_SourceHost rs) "."%char in
        (rs_LastIOErrno rs =? mariadbSourceRefused) && String.eqb host primary
  | _ => false
  end.

(** The timeline's verdict on a position is that it is off the timeline. *)
Definition off_timeline (t : MariaDBTimeline) (gtid : string) : bool :=
  match Timeline_Judge t gtid with
  | Ok (on, known) => known && negb on
  | Err _ => false
  end.

Definition offTimeline (input : ObservationInput) (diverged : list string) : list string :=
  if negb (is_mariadb input) || Nat.eqb (length (oi_MariaDBTimeline input)) 0 then diverged
  else
    foldl (fun diverged name =>
      if String.eqb name (oi_PrimaryName input) || contains_name diverged name then diverged
      else
        let gtid := gtid_of input name in
        if String.eqb gtid "" then diverged
        else if off_timeline (oi_MariaDBTimeline input) gtid then diverged ++ [name] else diverged)
      diverged (oi_InstanceNames input).

Definition holdingDisowned (input : ObservationInput) (diverged : list string) : list string :=
  match disownedSet (is_mariadb input) (oi_DisownedGTIDs input) with
  | None => diverged
  | Some disowned =>
      foldl (fun diverged name =>
        if String.eqb name (oi_PrimaryName input) || contains_name diverged name then diverged
        else if holdsDisowned disowned [gtid_of input name] then diverged ++ [name] else diverged)
        diverged (oi_InstanceNames input)
  end.

(** The body of the loop against a live primary: whether [name] is flagged. *)
Definition flag_live (M : GTIDModel) (input : ObservationInput) (primaryGTID : string) (name : string) : bool :=
  let prior := contains_name (oi_PriorDivergedInstances input) name in
  if String.eqb name (oi_PrimaryName input) then false
  else if is_mariadb input && refusedByPrimary (oi_StatusByInstance input !! name) (oi_PrimaryName input) then true
  else
    let gtid := gtid_of input name in
    if String.eqb gtid "" then prior
    else match @gm_Contains M primaryGTID gtid with
         | Err _ => prior
         | Ok false => true
         | Ok true =>
             if is_mariadb input && negb (Nat.eqb (length (oi_MariaDBTimeline input)) 0) then
               match Timeline_Judge (oi_MariaDBTimeline input) gtid with
               | Ok (on, known) => (known && negb on) || (prior && negb (known && on))
               | Err _ => prior
               end
             else false
         end.

Definition detectDivergedReplicas (input : ObservationInput) : list string :=
  match ForFlavor (oi_EngineFlavor input) with
  | Err _ => stillPresent (oi_PriorDivergedInstances input) (oi_InstanceNames input)
  | Ok gtidModel =>
      let primaryGTID := gtid_of input (oi_PrimaryName input) in
      if String.eqb primaryGTID "" then
        holdingDisowned input (offTimeline input
          (stillPresent (oi_PriorDivergedInstances input) (oi_InstanceNames input)))
      else
        holdingDisowned input
          (foldl (fun diverged name => if flag_live gtidModel input primaryGTID name then diverged ++ [name] else diverged)
             [] (oi_InstanceNames input))
  end.

Definition replicationBroken (status : option ReplicationStatus) : bool :=
  match status with
  | Some replica => negb (String.eqb (rs_LastError replica) "") && (negb (rs_SQLRunning replica) || negb (rs_IORunning replica))
  | None => false
  end.

Definition detectReplicationBroken (input : ObservationInput) (diverged : list string) : list string :=
  List.filter (fun name =>
    negb (String.eqb name (oi_PrimaryName input) || contains_name diverged name) &&
    match oi_StatusByInstance input !! name with
    | Some status => replicationBroken status
    | None => false
    end) (oi_InstanceNames input).

Definition Observe (input : ObservationInput) : Observation :=
  let diverged := detectDivergedReplicas input in
  mkObservation diverged (detectReplicationBroken input diverged).

(** ** Membership *)

Lemma foldl_add (P : string -> bool) primary names acc x :
  x ∈ foldl (fun diverged name =>
    if String.eqb name primary || contains_name diverged name then diverged
    else if P name then diverged ++ [name] else diverged) acc names <->
  x ∈ acc \/ (x ∈ names /\ x <> primary /\ P x = true).
Proof.
  revert acc. induction names as [|y names IH]; intros acc; cbn; [set_solver|]. rewrite IH.
  unfold contains_name. destruct (String.eqb_spec y primary) as [->|Hy]; cbn [orb].
  - rewrite elem_of_cons. naive_solver.
  - destruct (bool_decide_reflect (y ∈ acc)) as [Hin|Hin]; [rewrite elem_of_cons; naive_solver|].
    destruct (P y) eqn:Ep; rewrite elem_of_cons; rewrite ?elem_of_app, ?list_elem_of_singleton.
    + split; [intros [[?| ->]|?]|intros [?|([->|?] & ? & ?)]]; tauto.
    + split; [intros [?|?]|intros [?|([->|?] & ? & ?)]]; [tauto..|congruence|tauto].
Qed.

Lemma foldl_flag (P : string -> bool) names acc x :
  x ∈ foldl (fun diverged name => if P name then diverged ++ [name] else diverged) acc names <->
  x ∈ acc \/ (x ∈ names /\ P x = true).
Proof.
  revert acc. induction names as [|y names IH]; intros acc; cbn; [set_solver|]. rewrite IH.
  destruct (P y) eqn:Ep; rewrite elem_of_cons; rewrite ?elem_of_app, ?list_elem_of_singleton.
  - split; [intros [[?| ->]|?]|intros [?|([->|?] & ?)]]; tauto.
  - split; [intros [?|?]|intros [?|([->|?] & ?)]]; [tauto..|congruence|tauto].
Qed.

Lemma foldl_ext' {A B} (f g : A -> B -> A) acc l : (forall a b, f a b = g a b) -> foldl f acc l = foldl g acc l.
Proof. intros H. revert acc. induction l as [|y l IH]; intros acc; cbn; [done|]. by rewrite H, IH. Qed.

Lemma stillPresent_elem names present x : x ∈ stillPresent names present <-> x ∈ names /\ x ∈ present.
Proof.
  unfold stillPresent, contains_name. rewrite list_elem_of_In, filter_In, <- list_elem_of_In.
  by rewrite bool_decide_eq_true.
Qed.

(** On MySQL, holding a disowned transaction flags. *)
Definition disowned_flag (input : ObservationInput) (x : string) : Prop :=
  exists d, disownedSet (is_mariadb input) (oi_DisownedGTIDs input) = Some d /\ holdsDisowned d [gtid_of input x] = true.

Lemma holdingDisowned_elem input diverged x :
  x ∈ holdingDisowned input diverged <->
  x ∈ diverged \/ (x ∈ oi_InstanceNames input /\ x <> oi_PrimaryName input /\ disowned_flag input x).
Proof.
  unfold holdingDisowned, disowned_flag. destruct (disownedSet _ _) as [d|]; [|naive_solver].
  rewrite foldl_add. naive_solver.
Qed.

Definition timeline_flag (input : ObservationInput) (x : string) : Prop :=
  is_mariadb input = true /\ gtid_of input x <> "" /\ off_timeline (oi_MariaDBTimeline input) (gtid_of input x) = true.

Lemma judge_nil gtid : off_timeline [] gtid = false.
Proof.
  unfold off_timeline, Timeline_Judge. destruct (ParseMariaDBPosition gtid) as [gtids|e]; cbn [rbind]; [|done].
  generalize true as ak. induction gtids as [|g gtids IH]; intros ak; [by destruct ak|]. apply IH.
Qed.

Lemma offTimeline_elem input diverged x :
  x ∈ offTimeline input diverged <->
  x ∈ diverged \/ (x ∈ oi_InstanceNames input /\ x <> oi_PrimaryName input /\ timeline_flag input x).
Proof.
  unfold offTimeline, timeline_flag. destruct (is_mariadb input); cbn [negb orb]; [|naive_solver].
  destruct (oi_MariaDBTimeline input) as [|ep t] eqn:Et; cbn [length Nat.eqb].
  { rewrite judge_nil. naive_solver. }
  rewrite (foldl_ext' _ (fun diverged name =>
    if String.eqb name (oi_PrimaryName input) || contains_name diverged name then diverged
    else if negb (String.eqb (gtid_of input name) "") && off_timeline (ep :: t) (gtid_of input name)
    then diverged ++ [name] else diverged)).
  - rewrite foldl_add, andb_true_iff, negb_true_iff, String.eqb_neq. naive_solver.
  - intros acc y. destruct (_ || _); [done|]. destruct (String.eqb (gtid_of input y) ""); done.
Qed.

(** Every flag, by where it comes from. *)
Lemma detectDivergedReplicas_elem input M x :
  ForFlavor (oi_EngineFlavor input) = Ok M ->
  let primaryGTID := gtid_of input (oi_PrimaryName input) in
  x ∈ detectDivergedReplicas input <->
  (primaryGTID = "" /\ x ∈ oi_InstanceNames input /\ x ∈ oi_PriorDivergedInstances input) \/
  (x ∈ oi_InstanceNames input /\ x <> oi_PrimaryName input /\
   ((primaryGTID = "" /\ timeline_flag input x) \/
    (primaryGTID <> "" /\ flag_live M input primaryGTID x = true) \/
    disowned_flag input x)).
Proof.
  intros Ef. unfold detectDivergedReplicas. rewrite Ef. cbv zeta. set (p := gtid_of input _).
  destruct (String.eqb_spec p "") as [->|Hp]; rewrite holdingDisowned_elem.
  - rewrite offTimeline_elem, stillPresent_elem. naive_solver.
  - rewrite foldl_flag. assert (flag_live M input p (oi_PrimaryName input) = false) as Hself.
    { unfold flag_live. by rewrite String.eqb_refl. }
    split.
    + intros [[[]%not_elem_of_nil|[Hin Hf]]|(Hin & Hne & Hd)]; right; [|tauto].
      split_and!; [done|congruence|]. tauto.
    + intros [(? & _)|(Hin & Hne & [(? & _)|[[_ Hf]|Hd]])]; [done|done|left; right; tauto|right; tauto].
Qed.

(** ** Flags as transactions *)

Lemma mysql_not_contained a b A B :
  ParseGTIDSet a = Ok A -> ParseGTIDSet b = Ok B ->
  GTIDSet_Contains A B = false <-> exists t, mysql_holds b t /\ ~ mysql_holds a t.
Proof.
  intros Ha Hb. assert (set_wf A) as WA by eauto with gtid. assert (set_wf B) as WB by eauto with gtid. split.
  - intros Hc. destruct (gtid_witness (GTIDSet_Difference B A)) as (u & n & Hn); [by apply GTIDSet_Difference_wf| |].
    + intros He. apply not_true_iff_false in Hc. apply Hc. apply GTIDSet_Contains_spec; [done..|]. intros u n Hn.
      destruct (gtid_in_dec A u n) as [?|Hno]; [done|]. destruct (gtid_in_empty u n). rewrite <- He.
      by apply GTIDSet_Difference_in.
    + apply GTIDSet_Difference_in in Hn as [H1 H2]; [|done..]. exists (u, n).
      rewrite (mysql_holds_parsed b B), (mysql_holds_parsed a A) by done. done.
  - intros (t & H1 & H2). apply not_true_iff_false. rewrite (mysql_subset a b A B) by done. auto.
Qed.

Lemma disowned_flag_mysql input x :
  oi_EngineFlavor input = "mysql" ->
  disowned_flag input x <-> exists t, mysql_holds (gtid_of input x) t /\ mysql_holds (oi_DisownedGTIDs input) t.
Proof.
  intros Ef. unfold disowned_flag, is_mariadb, disownedSet. rewrite Ef. cbn [String.eqb Ascii.eqb Bool.eqb].
  rewrite orb_false_r. split.
  - intros (d & Hd & Hh). destruct (String.eqb _ ""); [done|].
    destruct (ParseGTIDSet (oi_DisownedGTIDs input)) as [set|] eqn:Ep; [|done].
    destruct (GTIDSet_IsEmpty set) eqn:Ee; [done|]. injection Hd as <-. assert (set_wf set) as Hwf by eauto with gtid.
    apply holdsDisowned_spec in Hh as (raw & t & ->%list_elem_of_singleton & H1 & H2); [|done].
    exists t. split; [done|]. by rewrite (mysql_holds_parsed _ set).
  - intros (t & H1 & (set & Ep & H2)). assert (set_wf set) as Hwf by eauto with gtid. exists set.
    destruct (String.eqb_spec (oi_DisownedGTIDs input) "") as [E|_].
    { rewrite E in Ep. injection Ep as <-. by apply gtid_in_empty in H2. }
    rewrite Ep. destruct (GTIDSet_IsEmpty set) eqn:Ee.
    { by apply (proj1 (GTIDSet_IsEmpty_spec _ Hwf) Ee) in H2. }
    split; [done|]. apply holdsDisowned_spec; [done|]. exists (gtid_of input x), t. set_solver.
Qed.

(** ** Properties *)

(** C25: On MySQL, against a primary whose position is known, the replicas
    observed as diverged are exactly those that executed a transaction the
    primary did not, those that hold a transaction the archive disowned, and the
    previously flagged ones that report no position. *)
Theorem mysql_divergence_is_exact input x :
  oi_EngineFlavor input = "mysql" ->
  let primaryGTID := gtid_of input (oi_PrimaryName input) in
  primaryGTID <> "" -> mysql_valid primaryGTID -> mysql_valid (gtid_of input x) ->
  x ∈ ob_DivergedInstances (Observe input) <->
  x ∈ oi_InstanceNames input /\ x <> oi_PrimaryName input /\
  ((exists t, mysql_holds (gtid_of input x) t /\ ~ mysql_holds primaryGTID t) \/
   (exists t, mysql_holds (gtid_of input x) t /\ mysql_holds (oi_DisownedGTIDs input) t) \/
   (gtid_of input x = "" /\ x ∈ oi_PriorDivergedInstances input)).
Proof.
  intros Ef p Hp [P HP] [X HX]. cbn [Observe ob_DivergedInstances].
  rewrite (detectDivergedReplicas_elem input mysqlGTID) by (by rewrite Ef). fold p. rewrite (disowned_flag_mysql _ _ Ef).
  assert (x <> oi_PrimaryName input -> flag_live mysqlGTID input p x = true <->
    (exists t, mysql_holds (gtid_of input x) t /\ ~ mysql_holds p t) \/
    (gtid_of input x = "" /\ x ∈ oi_PriorDivergedInstances input)) as Hflag.
  { intros Hne. unfold flag_live, is_mariadb, contains_name. rewrite Ef. cbn [String.eqb Ascii.eqb Bool.eqb andb].
    rewrite (proj2 (String.eqb_neq _ _) Hne). destruct (String.eqb_spec (gtid_of input x) "") as [E|E].
    - rewrite E, bool_decide_eq_true. split; [auto|]. intros [(t & H & _)|[_ H]]; [|done].
      destruct H as (s & [= <-] & H). by apply gtid_in_empty in H.
    - cbn [gm_Contains mysqlGTID]. unfold mysqlGTID_Contains, GTIDContains. rewrite HP, HX. cbn [rbind].
      rewrite <- (mysql_not_contained p _ P X) by done. destruct (GTIDSet_Contains P X); naive_solver. }
  split.
  - intros [(? & _)|(Hin & Hne & Hf)]; [done|]. specialize (Hflag Hne). naive_solver.
  - intros (Hin & Hne & Hf). right. specialize (Hflag Hne). naive_solver.
Qed.

(** Divergence is sticky and needs no live primary: while the primary's
    position is unknown every flagged instance that is still present stays
    flagged, and on MariaDB a replica is flagged as soon as its position names a
    transaction the primary timeline credits to another server, whether or not
    the primary is there to compare with. *)
Theorem divergence_survives_primary_loss input M x :
  ForFlavor (oi_EngineFlavor input) = Ok M -> x ∈ oi_InstanceNames input ->
  let primaryGTID := gtid_of input (oi_PrimaryName input) in
  let flagged := x ∈ ob_DivergedInstances (Observe input) in
  (primaryGTID = "" -> x ∈ oi_PriorDivergedInstances input -> flagged) /\
  (oi_EngineFlavor input = "mariadb" -> x <> oi_PrimaryName input -> maria_valid primaryGTID ->
   forall gtids g author, ParseMariaDBPosition (gtid_of input x) = Ok gtids -> g ∈ gtids ->
     authored (oi_MariaDBTimeline input) (g_Domain g) (g_Seq g) author -> author <> g_Server g -> flagged).
Proof.
  intros HM Hin p flagged. subst flagged. cbn [Observe ob_DivergedInstances].
  pose proof (detectDivergedReplicas_elem input M x HM) as Hd. cbv zeta in Hd. fold p in Hd.
  split; [intros; apply Hd; left; done|].
  intros Ef Hne Hv gtids g a Hg Hgin Ha Han. apply Hd. clear Hd. right. split_and!; [done..|].
  assert (off_timeline (oi_MariaDBTimeline input) (gtid_of input x) = true) as Hoff.
  { unfold off_timeline, Timeline_Judge. rewrite Hg. cbn [rbind]. rewrite judge_loop_spec.
    assert (existsb (fun g => let '(on, k) := Timeline_Verdict (oi_MariaDBTimeline input) g in k && negb on) gtids = true) as Hex.
    { apply existsb_exists. exists g. split; [by apply list_elem_of_In|]. rewrite (authored_Verdict _ _ _ Ha).
      destruct (Z.eqb_spec (g_Server g) a); [congruence|done]. }
    match goal with |- context [existsb ?f ?l] => replace (existsb f l) with true by (symmetry; exact Hex) end. done. }
  assert (gtid_of input x <> "") as Hgne.
  { intros E. rewrite E in Hg. vm_compute in Hg. injection Hg as <-. by apply not_elem_of_nil in Hgin. }
  destruct (decide (p = "")) as [Ep|Ep]; [left; split; [done|]; unfold timeline_flag, is_mariadb; rewrite Ef; done|].
  right; left. split; [done|]. unfold flag_live, is_mariadb. rewrite Ef. cbn [String.eqb Ascii.eqb Bool.eqb andb].
  rewrite (proj2 (String.eqb_neq _ _) Hne), (proj2 (String.eqb_neq _ _) Hgne). destruct (refusedByPrimary _ _); [done|].
  assert (M = mariadbGTID) as -> by (rewrite Ef in HM; by injection HM).
  assert (maria_valid (gtid_of input x)) as Hvx.
  { unfold ParseMariaDBPosition in Hg. inv_result. eexists. eassumption. }
  destruct (@gm_contains_ok mariadbGTID mariadbGTID_laws p (gtid_of input x) Hv Hvx) as (r & -> & _). destruct r; [|done].
  destruct (oi_MariaDBTimeline input) as [|ep t] eqn:Et; [by rewrite judge_nil in Hoff|]. cbn [length Nat.eqb negb].
  unfold off_timeline in Hoff. destruct (Timeline_Judge (ep :: t) (gtid_of input x)) as [[on known]|]; [|done]. by rewrite Hoff.
Qed.

(** [c-2] executed [:205], which the primary did not. *)
Module Errant.

Definition input : ObservationInput :=
  mkObservationInput "c-1" ["c-1"; "c-2"; "c-3"] ∅
    (<["c-1" := Sample.uuid +:+ ":1-100"]> (<["c-2" := Sample.uuid +:+ ":1-90:205"]> (<["c-3" := Sample.uuid +:+ ":1-90"]> ∅)))
    "mysql" [] [] "".

(** Domain 0 went from server 1 to server 2 after 100; [c-2] is at 0-1-120. *)
Definition forked : ObservationInput :=
  mkObservationInput "c-1" ["c-1"; "c-2"] ∅ (<["c-2" := "0-1-120"]> ∅) "mariadb" []
    [mkMariaDBEpoch 1 ""; mkMariaDBEpoch 2 "0-1-100"] "".

End Errant.

Lemma mysql_divergence_is_exact_witness :
  ob_DivergedInstances (Observe Errant.input) = ["c-2"] /\
  exists t, mysql_holds (gtid_of Errant.input "c-2") t /\ ~ mysql_holds (gtid_of Errant.input "c-1") t.
Proof.
  split; [vm_compute; reflexivity|].
  destruct (mysql_divergence_is_exact Errant.input "c-2") as [H _].
  - reflexivity.
  - vm_compute. discriminate.
  - eexists. vm_compute. reflexivity.
  - eexists. vm_compute. reflexivity.
  - destruct H as (_ & _ & [Ht|[(t & _ & (s & Hs & Hn))|[He _]]]).
    + vm_compute. left.
    + exact Ht.
    + vm_compute in Hs. injection Hs as <-. by apply gtid_in_empty in Hn.
    + vm_compute in He. discriminate.
Defined.

Lemma divergence_survives_primary_loss_witness :
  ob_DivergedInstances (Observe Errant.forked) = ["c-2"] /\ "c-2" ∈ ob_DivergedInstances (Observe Errant.forked).
Proof.
  split; [vm_compute; reflexivity|].
  destruct (divergence_survives_primary_loss Errant.forked mariadbGTID "c-2") as [_ H].
  - reflexivity.
  - vm_compute. right. left.
  - apply (H eq_refl ltac:(discriminate) ltac:(eexists; vm_compute; reflexivity) [mkMariaDBGTID 0 1 120] (mkMariaDBGTID 0 1 120) 2).
    + vm_compute. reflexivity.
    + left.
    + exists [(0, 0); (100, 1)], 1%nat, (mkMariaDBEpoch 2 "0-1-100"), 100, 1.
      split; [vm_compute; reflexivity|]. split; [reflexivity|]. split; [reflexivity|]. split; [vm_compute; reflexivity|reflexivity].
    + discriminate.
Defined.
