(* ===== verification/Failover.v ===== *)
(** * The failover pass

    [ReconcileFailover] of [internal/controller/async/cluster_failover.go] with
    the operations it calls, and the planned-switchover side it defers to
    ([cluster_switchover.go]).  Theorems: what a promotion requires and in which
    order its effects happen, and that chained failovers respect the cooldown. *)

From Stdlib Require Import ZArith Lia Bool Ascii String Sorted.
From stdpp Require Import base list strings gmap relations.
From S2P Require Import Prelude GoStrings Gtid GtidText GtidModel MariaGtid Election Cluster.

Local Open Scope Z_scope.
Local Open Scope go_scope.

(** ** Results *)

Record OperationPhase := mkOperationPhase {
  op_Phase : string;
  op_Reason : phase_reason;
  op_Ready : bool;
  op_Progressing : bool
}.

Record FailoverRequest := mkFailoverRequest {
  rq_Instances : Z;
  rq_Observed : FailoverState;
  rq_ProvisioningRetry : Duration;
  rq_DisownedGTIDs : string
}.

Record FailoverResult := mkFailoverResult {
  fr_Handled : bool;
  fr_RequeueAfter : Duration;
  fr_Phase : option OperationPhase
}.

Definition no_result : FailoverResult := mkFailoverResult false 0 None.
Definition handled : FailoverResult := mkFailoverResult true 0 None.

Definition phaseResult (requeueAfter : Duration) (phase : string) (r : phase_reason) : FailoverResult :=
  mkFailoverResult true requeueAfter (Some (mkOperationPhase phase r false true)).

(** A refusal that does not claim the pass. *)
Definition blocked (r : phase_reason) : FailoverResult :=
  mkFailoverResult false 0 (Some (mkOperationPhase "Blocked" r false true)).

(** ** Status updates *)

Definition stamp_failing (now : Time) (st : ClusterStatus) : ClusterStatus :=
  mkClusterStatus (st_CurrentPrimary st) (st_CurrentPrimaryTimestamp st) (st_TargetPrimary st)
    (st_TargetPrimaryTimestamp st) (Some now) (st_PrimaryHealthySince st) (st_LastFailoverTimestamp st)
    (st_FencedInstances st) (st_DivergedInstances st) (st_GTIDExecutedByInstance st)
    (st_ExecutableHashByInstance st) (st_CoveredGTIDSet st) (st_Phase st) (st_PhaseReason st).

Definition stamp_healthy (now : Time) (st : ClusterStatus) : ClusterStatus :=
  mkClusterStatus (st_CurrentPrimary st) (st_CurrentPrimaryTimestamp st) (st_TargetPrimary st)
    (st_TargetPrimaryTimestamp st) None (Some now) (st_LastFailoverTimestamp st)
    (st_FencedInstances st) (st_DivergedInstances st) (st_GTIDExecutedByInstance st)
    (st_ExecutableHashByInstance st) (st_CoveredGTIDSet st) (st_Phase st) (st_PhaseReason st).

Definition stamp_target (target : string) (at_ : option Time) (phase : option (string * phase_reason))
    (st : ClusterStatus) : ClusterStatus :=
  mkClusterStatus (st_CurrentPrimary st) (st_CurrentPrimaryTimestamp st) target at_
    (st_PrimaryFailingSince st) (st_PrimaryHealthySince st) (st_LastFailoverTimestamp st)
    (st_FencedInstances st) (st_DivergedInstances st) (st_GTIDExecutedByInstance st)
    (st_ExecutableHashByInstance st) (st_CoveredGTIDSet st)
    (match phase with Some (p, _) => p | None => st_Phase st end)
    (match phase with Some (_, r) => Some r | None => st_PhaseReason st end).

Definition stamp_failover (candidate : string) (now : Time) (message : phase_reason) (st : ClusterStatus)
  : ClusterStatus :=
  mkClusterStatus (st_CurrentPrimary st) (st_CurrentPrimaryTimestamp st) candidate (Some now) None None (Some now)
    (st_FencedInstances st) (st_DivergedInstances st) (st_GTIDExecutedByInstance st)
    (st_ExecutableHashByInstance st) (st_CoveredGTIDSet st) "FailingOver" (Some message).

(** ** Operations *)

(** [time.Time.Truncate]. *)
Definition Truncate (t : Time) (d : Duration) : Time := t - t mod d.

Definition recordPrimaryFailing : M (result Time) :=
  let! st := status in
  match st_PrimaryFailingSince st with
  | Some existing => ret (Ok existing)
  | None =>
      let! now := Now in
      let now := Truncate now second in
      let! err := PatchClusterStatus (stamp_failing now) in
      ret (match err with Some e => Err e | None => Ok now end)
  end.

Definition recordPrimaryHealthy : M (option error) :=
  let! st := status in
  match st_PrimaryFailingSince st, st_PrimaryHealthySince st with
  | None, Some _ => ret None
  | _, _ =>
      let! now := Now in
      PatchClusterStatus (stamp_healthy (Truncate now second))
  end.

(** The error of the deletion, [client.IgnoreNotFound] applied. *)
Definition fenceInstancePod (name : string) : M (option error) :=
  let! st := status in
  let! pod := call (fun api n => api_pod api n name) in
  match pod with
  | inr e => ret (IgnoreNotFound e)
  | inl pod =>
      if pod_DeletionTimestamp pod then ret None
      else if String.eqb (pod_Fencing pod) "true" && contains_name (st_FencedInstances st) name then ret None
      else
        let! err := call (fun api n => api_delete api n name) in
        match err with
        | Some e => ret (IgnoreNotFound e)
        | None => let! _ := emit (PodDeleted name) in ret None
        end
  end.

(** [(stale, ok)]. *)
Definition isInstanceHashStale (st : ClusterStatus) (name operatorHash : string) : bool * bool :=
  match st_ExecutableHashByInstance st !! name with
  | None => (false, false)
  | Some hash => (negb (String.eqb hash "") && negb (String.eqb hash operatorHash), true)
  end.

Definition PrimaryHealthy (observed : FailoverState) : bool :=
  match fs_Instances observed !! fs_PrimaryName observed with
  | Some s => fi_Ready s && fi_Primary s
  | None => false
  end.

Definition hasObservedReplica (observed : FailoverState) : bool :=
  existsb (fun '(name, _) => negb (String.eqb name (fs_PrimaryName observed))) (map_to_list (fs_Instances observed)).

Definition validateSwitchoverTarget (observed : FailoverState) (target : string) : option error :=
  match fs_Instances observed !! target with
  | None => Some (Errorf "target primary is not reporting status")
  | Some s =>
      if negb (fi_Ready s) then Some (Errorf "target primary is not ready")
      else if negb (fi_Replica s) then Some (Errorf "target primary role is not replica")
      else if negb (fi_IORunning s) || negb (fi_SQLRunning s) then
        Some (Errorf "target primary replication is not healthy")
      else None
  end.

Definition switchoverOverdue (spec : ClusterSpec) (st : ClusterStatus) (now : Time) : bool :=
  let maxDelay := spec_MaxSwitchoverDelay spec * second in
  (0 <? maxDelay) &&
  match st_TargetPrimaryTimestamp st with
  | Some started => maxDelay <? now - started
  | None => false
  end.

Definition targetHoldsPromotionLease (spec : ClusterSpec) (knownDiverged : list string) : M (result bool) :=
  let! st := status in
  let target := st_TargetPrimary st in
  if String.eqb target "" || String.eqb target (st_CurrentPrimary st) || contains_name knownDiverged target
  then ret (Ok false)
  else
    let! lease := PrimaryLeaseStatus spec target in
    match lease with
    | Err e => ret (Err e)
    | Ok lease =>
        if negb (Held lease) then ret (Ok false)
        else
          let! now := Now in
          ret (Ok (negb (switchoverOverdue spec st now)))
    end.

Definition switchoverInFlight (spec : ClusterSpec) (st : ClusterStatus) (observed : FailoverState)
    (knownDiverged : list string) (targetHoldsLease : bool) (now : Time) : bool :=
  let target := st_TargetPrimary st in
  if String.eqb target "" || String.eqb target (st_CurrentPrimary st) then false
  else if contains_name knownDiverged target then false
  else match validateSwitchoverTarget observed target with
       | None => true
       | Some _ =>
           if targetHoldsLease then true
           else match fs_Instances observed !! target with
                | None => false
                | Some s =>
                    if fi_Ready s && fi_Primary s then true
                    else fi_Replica s && fi_SQLRunning s && negb (switchoverOverdue spec st now)
                end
       end.

(** The grace before a failover: [failoverDelay], at least 30 seconds while the
    primary's manager is, or may be, upgrading in place. *)
Definition failover_delay (spec : ClusterSpec) (operatorHash : string) (st : ClusterStatus) (observed : FailoverState)
  : Duration :=
  let delay := spec_FailoverDelay spec * second in
  let delay :=
    if spec_InPlaceInstanceManagerUpdates spec && negb (String.eqb operatorHash "") then
      let '(stale, ok) := isInstanceHashStale st (fs_PrimaryName observed) operatorHash in
      if ok && stale then Z.max delay (30 * second) else delay
    else delay in
  match fs_Instances observed !! fs_PrimaryName observed with
  | Some primary => if fi_InPlaceUpgrading primary then Z.max delay (30 * second) else delay
  | None => delay
  end.

(** The election a failover holds. *)
Definition failover_election (spec : ClusterSpec) (st : ClusterStatus) (request : FailoverRequest)
    (knownDiverged : list string) (downFor : Duration) : Election :=
  let observed := rq_Observed request in
  mkElection observed knownDiverged (maxTransactionsBehind spec) (archiveCovered spec st) (PreferredPrimary spec)
    (default "" (st_GTIDExecutedByInstance st !! fs_PrimaryName observed)) (MaxReplicationLag spec) downFor
    (disownedSet (String.eqb (ResolvedFlavor spec) "mariadb") (rq_DisownedGTIDs request)).

(** From the lease of the old primary on: fence it, then record the target. *)
Definition promote (spec : ClusterSpec) (request : FailoverRequest) (elected : FailoverCandidate)
  : M (FailoverResult * option error) :=
  let primary := fs_PrimaryName (rq_Observed request) in
  let! lease := PrimaryLeaseStatus spec primary in
  match lease with
  | Err e => ret (handled, Some e)
  | Ok lease =>
      if Held lease then ret (phaseResult (RetryAfter lease) "Degraded" (LeaseHeld primary), None)
      else
        let! err := fenceInstancePod primary in
        match err with
        | Some _ => ret (handled, Some (Errorf "fence old primary"))
        | None =>
            let! now := Now in
            let! err := PatchClusterStatus (stamp_failover (fc_Name elected) now
              (FailingOver primary (fc_Name elected) (fc_TransactionsBehind elected) (fc_TimeBehind elected))) in
            match err with
            | Some e => ret (handled, Some e)
            | None => ret (mkFailoverResult true (rq_ProvisioningRetry request) None, None)
            end
        end
  end.

(** From the failing marker on: the delay, the cooldown, the election. *)
Definition drive (spec : ClusterSpec) (operatorHash : string) (request : FailoverRequest) (knownDiverged : list string)
  : M (FailoverResult * option error) :=
  let observed := rq_Observed request in
  let primary := fs_PrimaryName observed in
  let! failing := recordPrimaryFailing in
  match failing with
  | Err e => ret (handled, Some e)
  | Ok failingSince =>
      let! st := status in
      let! now := Now in
      let remaining := failover_delay spec operatorHash st observed - (now - failingSince) in
      if 0 <? remaining then ret (phaseResult remaining "Degraded" (WaitingDelay primary remaining), None)
      else
        let! now := Now in
        let remaining := FailoverCooldownRemaining spec st now in
        if 0 <? remaining then
          ret (blocked (CoolingDown primary (MinTimeBetweenFailovers spec) remaining), None)
        else
          match ForFlavor (ResolvedFlavor spec) with
          | Err e => ret (no_result, Some e)
          | Ok gtid =>
              let! now := Now in
              let elected := @SelectFailoverCandidate gtid
                (failover_election spec st request knownDiverged (now - failingSince)) in
              if String.eqb (fc_Name elected) "" then
                if negb (hasObservedReplica observed) then ret (no_result, None)
                else ret (blocked (CannotFailOver primary (fc_Reason elected)), None)
              else promote spec request elected
          end
  end.

Definition ReconcileFailover (spec : ClusterSpec) (operatorHash : string) (request : FailoverRequest)
  : M (FailoverResult * option error) :=
  let observed := rq_Observed request in
  let primary := fs_PrimaryName observed in
  let! st := status in
  if String.eqb (st_CurrentPrimary st) "" || String.eqb primary "" || (rq_Instances request <? 2)
  then ret (no_result, None)
  else if PrimaryHealthy observed then
    let! err := recordPrimaryHealthy in ret (no_result, err)
  else if contains_name (fs_Fenced observed) primary && negb (contains_name (st_FencedInstances st) primary)
  then ret (no_result, None)
  else
    let knownDiverged := fs_Diverged observed ++ st_DivergedInstances st in
    let! lease := targetHoldsPromotionLease spec knownDiverged in
    match lease with
    | Err e => ret (handled, Some e)
    | Ok targetHoldsLease =>
        let! now := Now in
        if switchoverInFlight spec st observed knownDiverged targetHoldsLease now then ret (no_result, None)
        else if negb (EnableFailover spec) then ret (blocked (FailoverDisabled primary), None)
        else drive spec operatorHash request knownDiverged
    end.

(** ** What the operations do to the pass *)

(** A patch that carries no promotion: the target, its time and the failover
    stamp are the latest ones. *)
Definition keeps_target (api : API) (stored : ClusterStatus) (e : effect) : Prop :=
  match e with
  | PodDeleted _ => True
  | StatusPatched st => exists k latest, api_latest api k stored = Ok latest /\
      st_TargetPrimary st = st_TargetPrimary latest /\
      st_LastFailoverTimestamp st = api_time api <$> st_LastFailoverTimestamp latest
  end.

Lemma recordPrimaryHealthy_run api s s' err :
  recordPrimaryHealthy api s = (s', err) ->
  exists new, extends s s' new /\ Forall (keeps_target api (ps_Stored s)) new.
Proof.
  unfold recordPrimaryHealthy. intros H. inv_pass.
  assert (forall t s0, ps_Stored s0 = ps_Stored s -> extends s s0 [] -> PatchClusterStatus (stamp_healthy t) api s0 = (s', err) ->
    exists new, extends s s' new /\ Forall (keeps_target api (ps_Stored s)) new) as Hp.
  { intros t s0 E0 X0 [(e & -> & _ & _ & X)|(k & latest & -> & El & _ & _ & X)]%PatchClusterStatus_run.
    - exists []. split; [by eapply (extends_trans _ s0 _ [] [])|done].
    - eexists. split; [by eapply (extends_trans _ s0 _ [])|]. cbn. repeat constructor. exists k, latest.
      by rewrite <- E0. }
  destruct (st_PrimaryFailingSince (ps_Status s)), (st_PrimaryHealthySince (ps_Status s)).
  all: inv_pass; try (eapply Hp in H; [exact H|done|split; cbn; [lia|by rewrite app_nil_r]]).
  exists []. split; [apply extends_refl|done].
Qed.

(** What the failing marker comes to: the one the status carries, or one stamped
    with the clock of this pass on the stored status and written before anything
    else; [st] is the status the pass goes on with. *)
Definition marked (api : API) (s : Pass) (since : Time) (st : ClusterStatus) (new : list effect) : Prop :=
  (st_PrimaryFailingSince (ps_Status s) = Some since /\ new = [] /\ st = ps_Status s) \/
  (st_PrimaryFailingSince (ps_Status s) = None /\
     since = Truncate (api_now api (ps_Calls s)) second /\
     exists k latest, api_latest api k (ps_Stored s) = Ok latest /\
       st = through api (stamp_failing since latest) /\ new = [StatusPatched st]).

(** The failing marker: kept when there is one, stamped otherwise. *)
Lemma recordPrimaryFailing_run api s s' r :
  recordPrimaryFailing api s = (s', r) ->
  exists new, extends s s' new /\ Forall (keeps_target api (ps_Stored s)) new /\
    (forall e, r = Err e -> new = [] /\ ps_Status s' = ps_Status s /\ ps_Stored s' = ps_Stored s) /\
    (forall since, r = Ok since -> marked api s since (ps_Status s') new /\
      (new = [] /\ ps_Stored s' = ps_Stored s \/ new <> [] /\ ps_Stored s' = ps_Status s')).
Proof.
  unfold recordPrimaryFailing. intros H. inv_pass. destruct (st_PrimaryFailingSince (ps_Status s)) as [since|] eqn:E.
  - inv_pass. exists []. split; [apply extends_refl|]. split_and!; [done..|]. intros ? [= <-]. unfold marked. rewrite E. auto 6.
  - inv_pass. cbn [ps_Status ps_Stored ps_Effects ps_Calls] in Hrun0.
    set (s0 := mkPass _ _ _ _) in Hrun0.
    assert (extends s s0 []) as X0 by (split; cbn; [lia|by rewrite app_nil_r]).
    apply PatchClusterStatus_run in Hrun0 as [(e & -> & E1 & E2 & X)|(k & latest & -> & El & E1 & E2 & X)]; cbn in E1, E2.
    + exists []. split; [by eapply (extends_trans _ s0 _ [] [])|]. split_and!; [done..|]. intros ? [=].
    + eexists. split; [by eapply (extends_trans _ s0 _ [])|]. cbn [app]. split_and!.
      * repeat constructor. cbn. by exists k, latest.
      * intros ? [=].
      * intros ? [= <-]. split; [|right; split; [done|by rewrite E1, E2]]. right. split_and!; [done..|].
        exists k, latest. rewrite E1. done.
Qed.

(** Fencing deletes at most the named Pod. *)
Lemma fenceInstancePod_run name api s s' err :
  fenceInstancePod name api s = (s', err) ->
  exists new, extends s s' new /\ (new = [] \/ new = [PodDeleted name]) /\
    ps_Status s' = ps_Status s /\ ps_Stored s' = ps_Stored s /\
    (err = None -> new = [PodDeleted name] \/
      api_pod api (ps_Calls s) name = inr NotFound \/
      (exists pod, api_pod api (ps_Calls s) name = inl pod /\
        (pod_DeletionTimestamp pod = true \/
         (pod_Fencing pod = "true" /\ name ∈ st_FencedInstances (ps_Status s)) \/
         api_delete api (S (ps_Calls s)) name = Some NotFound))).
Proof.
  unfold fenceInstancePod. intros H. inv_pass.
  destruct (api_pod api (ps_Calls s) name) as [pod|e] eqn:Ep.
  - destruct (pod_DeletionTimestamp pod) eqn:Ed.
    { inv_pass. exists []. split_and!; [split; cbn; [lia|by rewrite app_nil_r]|auto|done..|]. intros _. right; right; eauto. }
    destruct (String.eqb (pod_Fencing pod) "true" && contains_name (st_FencedInstances (ps_Status s)) name) eqn:Ef.
    { inv_pass. exists []. unfold contains_name in Ef. boolp.
      split_and!; [split; cbn; [lia|by rewrite app_nil_r]|auto|done..|]. intros _. right; right; eauto 7. }
    inv_pass. cbn in H. destruct (api_delete api (S (ps_Calls s)) name) as [[|e]|] eqn:Edel; inv_pass; cbn.
    + exists []. split_and!; [split; cbn; [lia|by rewrite app_nil_r]|auto|done..|]. intros _. right; right; eauto 7.
    + exists []. split_and!; [split; cbn; [lia|by rewrite app_nil_r]|auto|done..].
    + exists [PodDeleted name]. split_and!; [split; cbn; [lia|done]|auto|done..|]. auto.
  - inv_pass. exists []. split_and!; [split; cbn; [lia|by rewrite app_nil_r]|auto|done..|].
    destruct e; cbn; [auto|done].
Qed.

Lemma targetHoldsPromotionLease_run spec kd api s s' r :
  targetHoldsPromotionLease spec kd api s = (s', r) ->
  ps_Status s' = ps_Status s /\ ps_Stored s' = ps_Stored s /\ extends s s' [].
Proof.
  unfold targetHoldsPromotionLease. intros H. inv_pass. destruct (_ || _ || _).
  { inv_pass. split_and!; [done..|apply extends_refl]. }
  inv_pass. apply PrimaryLeaseStatus_run in Hrun as (E1 & E2 & X & _).
  destruct a as [lease|e]; [destruct (Held lease); cbn [negb] in H|]; inv_pass; cbn; [|done..].
  split_and!; [done..|]. eapply (extends_trans _ _ _ [] []); [exact X|]. split; cbn; [lia|by rewrite app_nil_r].
Qed.

(** ** A promotion *)

(** The outcome of a pass that promoted: claimed, no phase, no error. *)
Definition succeeded (r : FailoverResult * option error) : Prop :=
  fr_Handled (fst r) = true /\ fr_Phase (fst r) = None /\ snd r = None.

(** The primary's Lease does not hold the promotion back. *)
Definition lease_free (spec : ClusterSpec) (api : API) (primary : string) (k : nat) : Prop :=
  IsPrimaryLeaseEnabled spec = false \/ api_lease api k = inr NotFound \/
  exists l, api_lease api k = inl l /\
    (ls_HolderIdentity l <> Some primary \/ ls_RenewTime l = None \/
     exists renew, ls_RenewTime l = Some renew /\
       renew + default primaryLeaseDuration ((fun n => n * second) <$> ls_LeaseDurationSeconds l) <= api_now api (S k)).

(** The old primary's Pod is out of the way: deleted by this pass, or found gone,
    terminating, or fenced with the fence acknowledged. *)
Definition isolated (api : API) (st : ClusterStatus) (primary : string) (n : nat) (fence : list effect) : Prop :=
  fence = [PodDeleted primary] \/
  fence = [] /\
    (api_pod api n primary = inr NotFound \/
     exists pod, api_pod api n primary = inl pod /\
       (pod_DeletionTimestamp pod = true \/
        (pod_Fencing pod = "true" /\ primary ∈ st_FencedInstances st) \/
        api_delete api (S n) primary = Some NotFound)).

(** From [s], the old primary was fenced and then [elected] was recorded. *)
Definition recorded (spec : ClusterSpec) (request : FailoverRequest) (elected : FailoverCandidate) (api : API)
    (s s' : Pass) : Prop :=
  let primary := fs_PrimaryName (rq_Observed request) in
  exists fence k latest n j,
    lease_free spec api primary (ps_Calls s) /\
    extends s s' (fence ++ [StatusPatched (ps_Status s')]) /\ isolated api (ps_Status s) primary n fence /\
    (ps_Calls s <= n < ps_Calls s')%nat /\
    api_latest api k (ps_Stored s) = Ok latest /\ (ps_Calls s <= j < ps_Calls s')%nat /\
    ps_Status s' = through api (stamp_failover (fc_Name elected) (api_now api j)
      (FailingOver primary (fc_Name elected) (fc_TransactionsBehind elected) (fc_TimeBehind elected)) latest) /\
    ps_Stored s' = ps_Status s'.

Lemma promote_run spec request elected api s s' r :
  promote spec request elected api s = (s', r) ->
  (~ succeeded r /\ ps_Stored s' = ps_Stored s /\
     exists new, extends s s' new /\ (new = [] \/ new = [PodDeleted (fs_PrimaryName (rq_Observed request))])) \/
  (succeeded r /\ recorded spec request elected api s s').
Proof.
  unfold promote, recorded. set (primary := fs_PrimaryName _) in *. intros H.
  apply bind_run in H as (s1 & lease & Hl & H). apply PrimaryLeaseStatus_run in Hl as (E1 & E2 & X & Hfree).
  destruct lease as [lease|e].
  2: { inv_pass. left. split; [by intros (_ & _ & [=])|]. eauto. }
  destruct (Held lease) eqn:Eh.
  { inv_pass. left. split; [by intros (_ & [=] & _)|]. eauto. }
  apply bind_run in H as (s2 & ferr & Hf & H).
  apply fenceInstancePod_run in Hf as (fence & Xf & Hfence & E3 & E4 & Hiso).
  pose proof (extends_trans _ _ _ _ _ X Xf) as X2. cbn [app] in X2.
  destruct ferr as [fe|].
  { inv_pass. left. split; [by intros (_ & _ & [=])|]. split; [congruence|]. eauto. }
  apply bind_run in H as (s3 & now & Hn & H). unfold Now, call in Hn. injection Hn as <- <-.
  apply bind_run in H as (s4 & perr & Hp & H). apply PatchClusterStatus_run in Hp.
  set (s2' := mkPass _ _ _ _) in Hp.
  assert (extends s s2' fence) as X3 by (destruct X2; split; cbn; [lia|done]).
  destruct Hp as [(e & -> & E5 & E6 & X4)|(k & latest & -> & El & E5 & E6 & X4)]; inv_pass.
  - left. split; [by intros (_ & _ & [=])|]. cbn in E6. split; [congruence|]. exists fence. split; [|done].
    pose proof (extends_trans _ _ _ _ _ X3 X4) as X5. by rewrite app_nil_r in X5.
  - right. split; [done|]. exists fence, k, latest, (ps_Calls s1), (ps_Calls s2). cbn in El, X4, E5, E6. cbv zeta in E5, E6, X4.
    assert (ps_Calls s <= ps_Calls s1 <= ps_Calls s2 /\ ps_Calls s2 < ps_Calls s4)%nat
      by (destruct X, Xf, X4; cbn in *; lia).
    split_and!; [eapply Hfree; eauto| | |lia..|congruence|lia|lia|done|congruence].
    + rewrite E5. by eapply extends_trans.
    + rewrite E1 in Hiso. unfold isolated. destruct (Hiso eq_refl) as [->|Hfound]; [by left|]. destruct Hfence as [->| ->]; auto.
Qed.

(** ** The whole pass *)

(** What a promotion went through, in order: the failing marker, the delay, the
    cooldown, the election, the lease, the fence and the patch. *)
Definition promotes (spec : ClusterSpec) (operatorHash : string) (request : FailoverRequest) (kd : list string)
    (api : API) (s s' : Pass) : Prop :=
  exists mid since gtid pre (i j k : nat) s1,
    extends s mid pre /\ Forall (keeps_target api (ps_Stored s)) pre /\
    marked api s since (ps_Status mid) pre /\
    (pre = [] /\ ps_Stored mid = ps_Stored s \/ pre <> [] /\ ps_Stored mid = ps_Status mid) /\
    ps_Status s1 = ps_Status mid /\ ps_Stored s1 = ps_Stored mid /\ extends mid s1 [] /\
    (ps_Calls mid <= i /\ i < j < k /\ k < ps_Calls s1)%nat /\
    failover_delay spec operatorHash (ps_Status mid) (rq_Observed request) <= api_now api i - since /\
    FailoverCooldownRemaining spec (ps_Status mid) (api_now api j) = 0 /\
    ForFlavor (ResolvedFlavor spec) = Ok gtid /\
    let elected := @SelectFailoverCandidate gtid
      (failover_election spec (ps_Status mid) request kd (api_now api k - since)) in
    fc_Name elected <> "" /\ recorded spec request elected api s1 s'.

(** What any other outcome leaves behind. *)
Definition leaves_target (api : API) (s s' : Pass) : Prop :=
  (exists new, extends s s' new /\ Forall (keeps_target api (ps_Stored s)) new) /\
  (ps_Stored s' = ps_Stored s \/ exists n latest mark, api_latest api n (ps_Stored s) = Ok latest /\
    (mark = stamp_failing \/ mark = stamp_healthy) /\
    exists t, ps_Stored s' = through api (mark t latest)).

Lemma FailoverCooldownRemaining_nonneg spec st now : 0 <= FailoverCooldownRemaining spec st now.
Proof. unfold FailoverCooldownRemaining. repeat case_match; lia. Qed.

Lemma marked_stored api s since mid new :
  marked api s since (ps_Status mid) new ->
  new = [] /\ ps_Stored mid = ps_Stored s \/ new <> [] /\ ps_Stored mid = ps_Status mid ->
  ps_Stored mid = ps_Stored s \/ exists n latest, api_latest api n (ps_Stored s) = Ok latest /\
    ps_Stored mid = through api (stamp_failing since latest).
Proof.
  intros [(_ & -> & _)|(_ & _ & n & latest & ? & E & ->)] [[? ?]|[? Es]]; try done; [by left|right].
  exists n, latest. split; [done|congruence].
Qed.

Lemma drive_run spec operatorHash request kd api s s' r :
  drive spec operatorHash request kd api s = (s', r) ->
  (~ succeeded r /\ leaves_target api s s') \/ (succeeded r /\ promotes spec operatorHash request kd api s s').
Proof.
  unfold drive. intros H. apply bind_run in H as (mid & failing & Hm & H).
  apply recordPrimaryFailing_run in Hm as (pre & X & Hpre & Herr & Hok).
  destruct failing as [since|e].
  2: { destruct (Herr e eq_refl) as (-> & _ & E2). inv_pass. left. split; [by intros (_ & _ & [=])|]. split; [eauto|auto]. }
  destruct (Hok since eq_refl) as [Hmark Hst]. pose proof (marked_stored _ _ _ _ _ Hmark Hst) as Hsd. clear Herr Hok.
  assert (forall s2 extra, extends mid s2 extra -> ps_Stored s2 = ps_Stored mid ->
    extra = [] \/ extra = [PodDeleted (fs_PrimaryName (rq_Observed request))] -> leaves_target api s s2) as Hleave.
  { intros s2 extra X2 E2 Hex. split.
    - exists (pre ++ extra). split; [by eapply extends_trans|]. apply Forall_app. split; [done|].
      destruct Hex as [->| ->]; by repeat constructor.
    - rewrite E2. destruct Hsd as [?|(n & latest & ? & ?)]; [by left|right]. exists n, latest, stamp_failing. eauto. }
  apply bind_run in H as (s1 & st & Hs & H). unfold status in Hs. injection Hs as <- <-.
  apply bind_run in H as (s1 & t1 & Hs & H). unfold Now, call in Hs. injection Hs as <- <-.
  destruct (Z.ltb_spec 0 (failover_delay spec operatorHash (ps_Status mid) (rq_Observed request) -
    (api_now api (ps_Calls mid) - since))) as [Hd|Hd].
  { inv_pass. left. split; [by intros (_ & [=] & _)|]. apply (Hleave _ []); [split; cbn; [lia|by rewrite app_nil_r]|done|auto]. }
  apply bind_run in H as (s1 & t2 & Hs & H). unfold Now, call in Hs. injection Hs as <- <-.
  cbn [ps_Calls ps_Status ps_Stored ps_Effects] in H.
  destruct (Z.ltb_spec 0 (FailoverCooldownRemaining spec (ps_Status mid) (api_now api (S (ps_Calls mid))))) as [Hc|Hc].
  { inv_pass. left. split; [by intros ([=] & _ & _)|]. apply (Hleave _ []); [split; cbn; [lia|by rewrite app_nil_r]|done|auto]. }
  destruct (ForFlavor (ResolvedFlavor spec)) as [gtid|e] eqn:Ef.
  2: { inv_pass. left. split; [by intros ([=] & _ & _)|]. apply (Hleave _ []); [split; cbn; [lia|by rewrite app_nil_r]|done|auto]. }
  apply bind_run in H as (s1 & t3 & Hs & H). unfold Now, call in Hs. injection Hs as <- <-.
  cbn [ps_Calls ps_Status ps_Stored ps_Effects] in H.
  set (elected := @SelectFailoverCandidate gtid _) in H.
  set (s1 := mkPass _ _ _ _) in H.
  assert (extends mid s1 []) as X1 by (split; cbn; [lia|by rewrite app_nil_r]).
  destruct (String.eqb_spec (fc_Name elected) "") as [En|En].
  { destruct (hasObservedReplica (rq_Observed request)); cbn [negb] in H; inv_pass; left;
      (split; [by intros ([=] & _ & _)|]; by apply (Hleave _ []); auto). }
  apply promote_run in H as [(Hns & E2 & new & X2 & Hnew)|[Hsucc Hrec]].
  - left. split; [done|]. apply (Hleave _ new); [by eapply (extends_trans _ _ _ [])|done|done].
  - right. split; [done|]. exists mid, since, gtid, pre, (ps_Calls mid), (S (ps_Calls mid)), (S (S (ps_Calls mid))), s1.
    pose proof (FailoverCooldownRemaining_nonneg spec (ps_Status mid) (api_now api (S (ps_Calls mid)))).
    split_and!; first [done|cbn; lia|lia].
Qed.

(** The guards of the pass, before the failing marker. *)
Definition unhealthy (spec : ClusterSpec) (request : FailoverRequest) (st : ClusterStatus) : Prop :=
  let observed := rq_Observed request in
  st_CurrentPrimary st <> "" /\ fs_PrimaryName observed <> "" /\ 2 <= rq_Instances request /\
  PrimaryHealthy observed = false /\
  (fs_PrimaryName observed ∈ fs_Fenced observed -> fs_PrimaryName observed ∈ st_FencedInstances st) /\
  EnableFailover spec = true.

Lemma recordPrimaryHealthy_leaves api s s' err : recordPrimaryHealthy api s = (s', err) -> leaves_target api s s'.
Proof.
  intros H. split; [by eapply recordPrimaryHealthy_run|]. revert H. unfold recordPrimaryHealthy. intros H. inv_pass.
  assert (forall t s0, ps_Stored s0 = ps_Stored s -> PatchClusterStatus (stamp_healthy t) api s0 = (s', err) ->
    ps_Stored s' = ps_Stored s \/ exists n latest mark, api_latest api n (ps_Stored s) = Ok latest /\
    (mark = stamp_failing \/ mark = stamp_healthy) /\ exists t, ps_Stored s' = through api (mark t latest)) as Hp.
  { intros t s0 E0 [(e & _ & _ & ? & _)|(k & latest & _ & El & _ & Es & _)]%PatchClusterStatus_run; [left; congruence|].
    right. exists k, latest, stamp_healthy. rewrite <- E0. eauto. }
  destruct (st_PrimaryFailingSince (ps_Status s)), (st_PrimaryHealthySince (ps_Status s)).
  all: inv_pass; try (eapply Hp in H; [exact H|done]). by left.
Qed.

Lemma ReconcileFailover_run spec operatorHash request api s s' r :
  ReconcileFailover spec operatorHash request api s = (s', r) ->
  (~ succeeded r /\ leaves_target api s s') \/
  (succeeded r /\ unhealthy spec request (ps_Status s) /\
   let kd := fs_Diverged (rq_Observed request) ++ st_DivergedInstances (ps_Status s) in
   exists s0 asked holds,
     ps_Status s0 = ps_Status s /\ ps_Stored s0 = ps_Stored s /\ extends s s0 [] /\
     targetHoldsPromotionLease spec kd api s = (asked, Ok holds) /\
     switchoverInFlight spec (ps_Status s) (rq_Observed request) kd holds (api_now api (ps_Calls asked)) = false /\
     promotes spec operatorHash request kd api s0 s').
Proof.
  unfold ReconcileFailover. set (observed := rq_Observed request). set (primary := fs_PrimaryName observed). intros H.
  assert (leaves_target api s s) as Hrefl by (split; [exists []; split; [apply extends_refl|done]|by left]).
  apply bind_run in H as (s0 & st & Hs & H). unfold status in Hs. injection Hs as <- <-.
  destruct (String.eqb (st_CurrentPrimary (ps_Status s)) "" || String.eqb primary "" || (rq_Instances request <? 2)) eqn:E0.
  { inv_pass. left. split; [by intros ([=] & _)|done]. }
  destruct (PrimaryHealthy observed) eqn:Eh.
  { apply bind_run in H as (s1 & err & Hr & H). inv_pass. left. split; [by intros ([=] & _)|]. by eapply recordPrimaryHealthy_leaves. }
  destruct (contains_name (fs_Fenced observed) primary && negb (contains_name (st_FencedInstances (ps_Status s)) primary)) eqn:Ef.
  { inv_pass. left. split; [by intros ([=] & _)|done]. }
  apply bind_run in H as (s1 & lease & Hl & H). pose proof Hl as (E1 & E2 & X)%targetHoldsPromotionLease_run.
  assert (leaves_target api s s1) as H1 by (split; [exists []; split; [exact X|done]|by left]).
  destruct lease as [holds|e].
  2: { inv_pass. left. split; [by intros (_ & _ & [=])|done]. }
  apply bind_run in H as (s2 & now & Hn & H). unfold Now, call in Hn. injection Hn as <- <-.
  set (s2 := mkPass _ _ _ _) in H.
  assert (extends s s2 []) as X2 by (destruct X; split; cbn; [lia|done]).
  assert (leaves_target api s s2) as H2 by (split; [exists []; split; [exact X2|done]|by left]).
  destruct (switchoverInFlight _ _ _ _ _ _) eqn:Esw.
  { inv_pass. left. split; [by intros ([=] & _)|done]. }
  destruct (EnableFailover spec) eqn:Een; cbn [negb] in H.
  2: { inv_pass. left. split; [by intros ([=] & _)|done]. }
  apply drive_run in H as [[Hns Hlv]|[Hsu Hpr]].
  - left. split; [done|]. destruct Hlv as [(new & Xn & Hn) Hsd]. cbn [ps_Stored s2] in Hn, Hsd. rewrite E2 in Hn, Hsd. split; [|done].
    exists new. split; [|done]. by eapply (extends_trans _ _ _ []).
  - right. split; [done|]. split.
    + unfold unhealthy. fold observed primary. unfold contains_name in Ef. boolp.
      split_and!; [done..|lia|done| |done]. intros Hin. destruct Ef as [Hf|Hf].
      * by apply bool_decide_eq_false in Hf.
      * apply negb_false_iff, bool_decide_eq_true in Hf. done.
    + exists s2, s1, holds. split_and!; done.
Qed.

(** ** Chained failovers *)

(** The cooldown runs from the last failover at the earliest. *)
Lemma primarySettledAt_after spec st t :
  st_LastFailoverTimestamp st = Some t -> t <= primarySettledAt spec st.
Proof. intros E. unfold primarySettledAt. rewrite E. cbn. repeat case_match; boolp; lia. Qed.

Lemma cooldown_over spec st t now :
  0 < MinTimeBetweenFailovers spec -> 0 < t -> st_LastFailoverTimestamp st = Some t ->
  FailoverCooldownRemaining spec st now = 0 -> t + MinTimeBetweenFailovers spec <= now.
Proof.
  intros Hc Ht E. apply (primarySettledAt_after spec) in E. unfold FailoverCooldownRemaining, IsZero.
  destruct (Z.leb_spec (MinTimeBetweenFailovers spec) 0); [lia|].
  destruct (Z.eqb_spec (primarySettledAt spec st) 0); [lia|]. lia.
Qed.

Section Chain.
Context (spec : ClusterSpec) (operatorHash : string).
(** How a timestamp comes back from the API server: to the second. *)
Context (tr : Time -> Time).

(** The stored status and the failover stamps it has had, newest first. *)
Record World := mkWorld { w_Now : Time; w_Stored : ClusterStatus; w_Failovers : list Time }.

(** Answers of a server whose clock runs on from [now], and whose other writers
    leave the failover stamp alone. *)
Record fair (now : Time) (api : API) : Prop := {
  fair_from : forall n, now <= api_now api n;
  fair_mono : forall n m, (n <= m)%nat -> api_now api n <= api_now api m;
  fair_time : api_time api = tr;
  fair_latest : forall n stored st,
    api_latest api n stored = Ok st -> st_LastFailoverTimestamp st = st_LastFailoverTimestamp stored
}.

(** A pass starts from the stored status. *)
Definition start (w : World) : Pass := mkPass (w_Stored w) (w_Stored w) [] 0.

Inductive step : World -> World -> Prop :=
| step_wait w now :
    w_Now w <= now -> step w (mkWorld now (w_Stored w) (w_Failovers w))
| step_write w st :
    st_LastFailoverTimestamp st = st_LastFailoverTimestamp (w_Stored w) ->
    step w (mkWorld (w_Now w) st (w_Failovers w))
| step_pass w request api s' r now :
    fair (w_Now w) api -> ReconcileFailover spec operatorHash request api (start w) = (s', r) -> ~ succeeded r ->
    (forall n, api_now api n <= now) ->
    step w (mkWorld now (ps_Stored s') (w_Failovers w))
| step_failover w request api s' r now stamp :
    fair (w_Now w) api -> ReconcileFailover spec operatorHash request api (start w) = (s', r) -> succeeded r ->
    (forall n, api_now api n <= now) -> st_LastFailoverTimestamp (ps_Stored s') = Some stamp ->
    step w (mkWorld now (ps_Stored s') (stamp :: w_Failovers w)).

Context (tr_le : forall t, tr t <= t) (tr_gt : forall t, t - second < tr t) (tr_idem : forall t, tr (tr t) = tr t).

(** Two successive failovers, the later one first. *)
Definition spaced (later earlier : Time) : Prop := earlier + MinTimeBetweenFailovers spec - second < later.

Definition chain_inv (w : World) : Prop :=
  second <= w_Now w /\ Sorted spaced (w_Failovers w) /\
  match w_Failovers w with
  | [] => True
  | last :: _ => st_LastFailoverTimestamp (w_Stored w) = Some last /\ tr last = last /\ 0 < last <= w_Now w
  end.

Lemma promotes_stamp request kd api w s0 s' last :
  fair (w_Now w) api -> ps_Status s0 = w_Stored w -> ps_Stored s0 = w_Stored w ->
  promotes spec operatorHash request kd api s0 s' ->
  (st_LastFailoverTimestamp (w_Stored w) = Some last -> tr last = last -> 0 < last <= w_Now w ->
   exists j, st_LastFailoverTimestamp (ps_Stored s') = Some (tr (api_now api j)) /\
     last + MinTimeBetweenFailovers spec <= api_now api j) /\
  exists j, st_LastFailoverTimestamp (ps_Stored s') = Some (tr (api_now api j)).
Proof using tr_le.
  intros [Hfrom Hmono Htime Hlatest] E1 E2 (mid & since & gtid & pre & i & j & k & s1 & X & _ & Hmark & Hst & _ & _ & X1 & Hidx & _ &
    Hcool & _ & _ & fence & n & latest & pod & m & _ & _ & _ & _ & _ & Hm & Es & Esd).
  pose proof (marked_stored _ _ _ _ _ Hmark Hst) as Hsd.
  assert (st_LastFailoverTimestamp (ps_Stored s') = Some (tr (api_now api m))) as Hstamp.
  { rewrite Esd, Es. cbn. by rewrite Htime. }
  split; [|eauto]. intros El Et Hl. exists m. split; [done|].
  assert (st_LastFailoverTimestamp (ps_Status mid) = Some last) as Hmid.
  { assert (st_LastFailoverTimestamp (ps_Stored mid) = Some last) as Hmid.
    { destruct Hsd as [->|(q & lt & Hq & ->)]; [by rewrite E2|]. apply Hlatest in Hq. cbn. rewrite Hq, E2, El, Htime. cbn.
      by rewrite Et. }
    destruct Hmark as [(_ & _ & ->)|(_ & _ & _ & _ & _ & _ & Hnew)]; [by rewrite E1|].
    destruct Hst as [[? _]|[_ <-]]; [congruence|done]. }
  assert (api_now api j <= api_now api m) by (apply Hmono; lia).
  destruct (Z.ltb_spec 0 (MinTimeBetweenFailovers spec)) as [Hcd|Hcd].
  - pose proof (cooldown_over _ _ last _ Hcd ltac:(lia) Hmid Hcool). lia.
  - specialize (Hfrom m). lia.
Qed.

Lemma leaves_stamp api s s' :
  (forall n stored st, api_latest api n stored = Ok st -> st_LastFailoverTimestamp st = st_LastFailoverTimestamp stored) ->
  leaves_target api s s' ->
  st_LastFailoverTimestamp (ps_Stored s') = st_LastFailoverTimestamp (ps_Stored s) \/
  st_LastFailoverTimestamp (ps_Stored s') = api_time api <$> st_LastFailoverTimestamp (ps_Stored s).
Proof.
  intros Hl [_ [->|(n & latest & mark & Hn & Hmark & t & ->)]]; [by left|right]. apply Hl in Hn.
  destruct Hmark as [->| ->]; cbn; by rewrite Hn.
Qed.

Lemma step_inv w w' : chain_inv w -> step w w' -> chain_inv w'.
Proof using tr_le tr_gt tr_idem.
  unfold chain_inv. intros (Hnow & Hsp & Hlast) Hstep.
  destruct Hstep as [w now Hle|w st Est|w request api s' r now Hf Hrun Hns Hall|w request api s' r now stamp Hf Hrun Hs Hall Est];
    cbn [w_Now w_Stored w_Failovers].
  - split_and!; [lia|done|]. destruct (w_Failovers w); [done|]. destruct Hlast as (? & ? & ?). split_and!; [done..|lia|lia].
  - split_and!; [done..|]. destruct (w_Failovers w); [done|]. destruct Hlast as (? & ? & ?). split_and!; [congruence|done|lia|lia].
  - assert (w_Now w <= now) by (pose proof (fair_from _ _ Hf O); specialize (Hall O); lia).
    split_and!; [lia|done|]. destruct (w_Failovers w) as [|last fs]; [done|]. destruct Hlast as (El & Et & Hl).
    apply ReconcileFailover_run in Hrun as [[_ Hlv]|[? _]]; [|done].
    apply leaves_stamp in Hlv; [|apply (fair_latest _ _ Hf)]. cbn in Hlv. rewrite El in Hlv.
    split_and!; [|done|lia|lia]. destruct Hlv as [->| ->]; [done|]. rewrite (fair_time _ _ Hf). cbn. by rewrite Et.
  - assert (w_Now w <= now) by (pose proof (fair_from _ _ Hf O); specialize (Hall O); lia).
    apply ReconcileFailover_run in Hrun as [[? _]|(_ & _ & s0 & asked & holds & E1 & E2 & _ & _ & _ & Hp)]; [done|].
    pose proof (fun last => promotes_stamp _ _ _ _ _ _ last Hf E1 E2 Hp) as Hlst.
    destruct (Hlst 0) as [_ [j Hj]]. assert (stamp = tr (api_now api j)) as -> by congruence.
    pose proof (tr_le (api_now api j)). pose proof (tr_gt (api_now api j)). pose proof (fair_from _ _ Hf j). specialize (Hall j).
    split_and!; [lia| |done|apply tr_idem|lia|lia].
    constructor; [done|]. destruct (w_Failovers w) as [|last fs]; constructor. destruct Hlast as (El & Et & Hl).
    destruct (Hlst last) as [Hs' _]. destruct (Hs' El Et Hl) as (j' & Hj' & Hge). unfold spaced.
    pose proof (tr_gt (api_now api j')). assert (tr (api_now api j) = tr (api_now api j')) by congruence. lia.
Qed.

Lemma chain_spaced w w' : chain_inv w -> rtc step w w' -> chain_inv w'.
Proof using tr_le tr_gt tr_idem. intros Hw Hr. revert Hw. induction Hr; eauto using step_inv. Qed.
End Chain.

(** ** Properties *)

(** C1: A failover pass that promotes started from an unhealthy, established
    primary with failover enabled, no unacknowledged fence and no planned
    switchover in flight, by the answer the pass got on the target's Lease.  By the
    clock of the pass the failover delay had elapsed since the failing marker (the
    one in the status, else one stamped and written by this very pass), and then
    no cooldown remained; then the election was held, and then the old primary's
    Lease was read free (or the Lease is disabled).  The old primary's Pod was
    deleted, or read gone, terminating or fenced, before the target was recorded,
    and the pass wrote nothing else.  The recorded target is a safest electable
    replica of exactly that election, by the positions of the cluster's engine and
    the losses the election measured: healthy, known not to have diverged, within
    the configured bounds, having executed everything every other electable
    replica executed. *)
Theorem failover_promotes_safely spec operatorHash request api s :
  let run := ReconcileFailover spec operatorHash request api s in
  let s' := fst run in
  let observed := rq_Observed request in
  let primary := fs_PrimaryName observed in
  let kd := fs_Diverged observed ++ st_DivergedInstances (ps_Status s) in
  succeeded (snd run) ->
  unhealthy spec request (ps_Status s) /\
  (exists asked holds, targetHoldsPromotionLease spec kd api s = (asked, Ok holds) /\
     switchoverInFlight spec (ps_Status s) observed kd holds (api_now api (ps_Calls asked)) = false) /\
  exists s0 since st pre fence (i j k l n : nat),
    ps_Status s0 = ps_Status s /\ ps_Stored s0 = ps_Stored s /\ marked api s0 since st pre /\
    (ps_Calls s <= ps_Calls s0 <= i /\ i < j < k /\ k < l <= n /\ n < ps_Calls s')%nat /\
    failover_delay spec operatorHash st observed <= api_now api i - since /\
    FailoverCooldownRemaining spec st (api_now api j) = 0 /\
    lease_free spec api primary l /\ isolated api st primary n fence /\
    ps_Effects s' = ps_Effects s ++ pre ++ fence ++ [StatusPatched (ps_Stored s')] /\
    let e := failover_election spec st request kd (api_now api k - since) in
    exists gtid L behind, engine (ResolvedFlavor spec) gtid L /\ @measured gtid e behind /\
      @safest gtid L e behind (st_TargetPrimary (ps_Stored s')).
Proof.
  intros run s' observed primary kd Hs. subst run s'.
  destruct (ReconcileFailover spec operatorHash request api s) as [s' r] eqn:Hrun. cbn [fst snd] in *.
  apply ReconcileFailover_run in Hrun as [[? _]|(_ & Hu & s0 & asked & holds & E1 & E2 & X0 & Hl & Hsw & Hp)]; [done|].
  split; [done|]. split; [eauto|].
  destruct Hp as (mid & since & gtid & pre & i & j & k & s1 & X1 & _ & Hmark & _ & E3 & _ & X2 & Hidx & Hd & Hc & Hf & Hn & Hrec).
  destruct Hrec as (fence & q & latest & n & m & Hfree & X3 & Hiso & Hn' & _ & Hm & Es & Esd). rewrite E3 in Hiso.
  exists s0, since, (ps_Status mid), pre, fence, i, j, k, (ps_Calls s1), n.
  destruct (extends_trans _ _ _ _ _ X0 (extends_trans _ _ _ _ _ X1 (extends_trans _ _ _ _ _ X2 X3))) as [_ E].
  split_and!; try done; try (destruct X0, X1, X2, X3; lia).
  - rewrite E, Esd. done.
  - destruct (ForFlavor_engine _ _ Hf) as [L HL]. set (e := failover_election _ _ _ _ _) in Hn, Es. exists gtid, L.
    destruct (Select_elected e (Select_named e Hn)) as (cs & c & behind & Hcs & Hb & Hsafe & _). exists behind.
    split_and!; [done|by exists cs, c|]. by rewrite Esd, Es.
Qed.

(** The sample cluster: three instances, the primary [c-1] gone, both replicas up. *)
Module Demo.

Definition spec : ClusterSpec :=
  mkClusterSpec (Some (mkFailoverPolicy (Some 1000) None ["c-2"] (Some (60 * second)) None))
    None None None 0 30 false "mysql" None.

Definition stored : ClusterStatus :=
  mkClusterStatus "c-1" None "c-1" None None None None [] [] (<["c-1" := Sample.uuid +:+ ":1-105"]> ∅) ∅ None "Ready" None.

(** The clock reads [t]; the Lease is gone, the Pod is there and is deleted. *)
Definition api (t : Time) : API :=
  mkAPI (fun _ => t) (fun _ => inr NotFound) (fun _ _ => inl (mkPod false "")) (fun _ _ => None)
    (fun _ st => Ok st) (fun _ => None) (fun t => Truncate t second).

Definition request : FailoverRequest := mkFailoverRequest 3 Sample.observed (10 * second) "".

Definition pass (t : Time) (st : ClusterStatus) : Pass * (FailoverResult * option error) :=
  ReconcileFailover spec "" request (api t) (mkPass st st [] 0).

(** The status a first failover leaves. *)
Definition after : ClusterStatus := Eval vm_compute in ps_Stored (fst (pass (100 * second) stored)).

End Demo.

Lemma failover_promotes_safely_witness :
  st_TargetPrimary (ps_Stored (fst (Demo.pass (100 * second) Demo.stored))) = "c-3" /\
  unhealthy Demo.spec Demo.request Demo.stored.
Proof.
  split; [vm_compute; reflexivity|].
  apply (failover_promotes_safely Demo.spec "" Demo.request (Demo.api (100 * second)) (mkPass Demo.stored Demo.stored [] 0)).
  vm_compute. repeat split.
Defined.

(** C16: Automatic failovers are spaced: along any run of passes, clock advances
    and writes by others (which leave the failover stamp alone), the stamps of
    two successive failovers are more than [minTimeBetweenFailovers] less the
    second that a stored timestamp loses apart. *)
Theorem failovers_respect_cooldown spec operatorHash tr w w' :
  (forall t, tr t <= t) -> (forall t, t - second < tr t) -> (forall t, tr (tr t) = tr t) ->
  second <= w_Now w -> w_Failovers w = [] -> rtc (step spec operatorHash tr) w w' ->
  Sorted (spaced spec) (w_Failovers w').
Proof.
  intros H1 H2 H3 Hnow Hnil Hr. apply (chain_spaced spec operatorHash tr H1 H2 H3 w w'); [|done].
  unfold chain_inv. rewrite Hnil. split_and!; [done|constructor|done].
Qed.

Lemma failovers_respect_cooldown_witness :
  let st1 := ps_Stored (fst (Demo.pass (100 * second) Demo.stored)) in
  let st2 := ps_Stored (fst (Demo.pass (170 * second) st1)) in
  Sorted (spaced Demo.spec) [170 * second; 100 * second] /\
  snd (Demo.pass (140 * second) st1) =
    (blocked (CoolingDown "c-1" (60 * second) (20 * second)), None).
Proof.
  intros st1 st2. split; [|vm_compute; reflexivity].
  assert (forall t, Truncate t second = t - t mod second) as Htr by reflexivity.
  assert (forall t, 0 <= t mod second < second) as Hmod by (intros t; apply Z.mod_pos_bound; done).
  apply (failovers_respect_cooldown Demo.spec "" (fun t => Truncate t second)
    (mkWorld (100 * second) Demo.stored []) (mkWorld (170 * second) st2 [170 * second; 100 * second])).
  - intros t. rewrite Htr. specialize (Hmod t). lia.
  - intros t. rewrite Htr. specialize (Hmod t). lia.
  - intros t. rewrite !Htr. replace ((t - t mod second) mod second) with 0; [lia|]. symmetry. apply Z.mod_divide; [done|].
    exists (t / second). pose proof (Z.div_mod t second ltac:(done)). lia.
  - done.
  - done.
  - assert (forall now t, now <= t -> fair (fun t => Truncate t second) now (Demo.api t)) as Hfair.
    { intros now t Hle. split; cbn; [done|lia|done|congruence]. }
    eapply rtc_l; [|eapply rtc_l; [|apply rtc_refl]].
    + eapply (step_failover Demo.spec "" (fun t => Truncate t second) (mkWorld (100 * second) Demo.stored []) Demo.request
        (Demo.api (100 * second)) (fst (Demo.pass (100 * second) Demo.stored)) (snd (Demo.pass (100 * second) Demo.stored))
        (170 * second)); [by apply Hfair|apply surjective_pairing|vm_compute; repeat split|done|vm_compute; reflexivity].
    + eapply (step_failover Demo.spec "" (fun t => Truncate t second) (mkWorld (170 * second) st1 [100 * second]) Demo.request
        (Demo.api (170 * second)) (fst (Demo.pass (170 * second) st1)) (snd (Demo.pass (170 * second) st1))
        (170 * second)); [by apply Hfair|apply surjective_pairing|vm_compute; repeat split|done|vm_compute; reflexivity].
Defined.

(** Every outcome of a failover pass other than a promotion leaves the
    target primary and the failover stamp alone: whatever it patches carries the
    ones that were stored. *)
Theorem failover_refusals_keep_target spec operatorHash request api s :
  let run := ReconcileFailover spec operatorHash request api s in
  ~ succeeded (snd run) ->
  exists new, ps_Effects (fst run) = ps_Effects s ++ new /\ Forall (keeps_target api (ps_Stored s)) new.
Proof.
  intros run Hs. subst run. destruct (ReconcileFailover spec operatorHash request api s) as [s' r] eqn:Hrun.
  cbn [fst snd] in *. apply ReconcileFailover_run in Hrun as [[_ [(new & X & Hn) _]]|[? _]]; [|done].
  exists new. split; [apply X|done].
Qed.

Lemma failover_refusals_keep_target_witness :
  exists new, ps_Effects (fst (ReconcileFailover Demo.spec "" Demo.request (Demo.api (140 * second))
      (mkPass Demo.after Demo.after [] 0))) = [] ++ new /\
    Forall (keeps_target (Demo.api (140 * second)) Demo.after) new.
Proof.
  apply (failover_refusals_keep_target Demo.spec "" Demo.request (Demo.api (140 * second)) (mkPass Demo.after Demo.after [] 0)).
  vm_compute. intros (H & _). discriminate.
Defined.
