(* ===== verification/Switchover.v ===== *)
(** * Planned switchovers

    [internal/controller/async/cluster_switchover.go] (validating and bounding a
    handoff, the drain switchover) and the requests of
    [internal/controller/cluster_switchover.go] (cancelling one onto a leaving
    instance, moving the primary in range or back home), in the order
    [reconcileSwitchover] runs them on the asynchronous topology. *)

From Stdlib Require Import ZArith Lia Bool Ascii String.
From stdpp Require Import base list strings gmap.
From S2P Require Import Prelude GoStrings Gtid GtidText GtidModel MariaGtid Election Cluster Failover.

Local Open Scope Z_scope.
Local Open Scope go_scope.

(** ** Driving a handoff *)

Definition ensureSwitchoverStarted : M (result Time) :=
  let! st := status in
  match st_TargetPrimaryTimestamp st with
  | Some started => ret (Ok started)
  | None =>
      let! now := Now in
      let now := Truncate now second in
      let! err := PatchClusterStatus (fun st => stamp_target (st_TargetPrimary st) (Some now) None st) in
      ret (match err with Some e => Err e | None => Ok now end)
  end.

Definition abortSwitchover (spec : ClusterSpec) (current target : string) : M (FailoverResult * option error) :=
  let! err := fenceInstancePod target in
  match err with
  | Some _ => ret (handled, Some (Errorf "fence aborted target"))
  | None =>
      let! err := PatchClusterStatus
        (stamp_target current None (Some ("Blocked", Aborted target (spec_MaxSwitchoverDelay spec)))) in
      match err with
      | Some e => ret (no_result, Some e)
      | None => ret (handled, None)
      end
  end.

(** [maxDelay > 0 && time.Since(startedAt) > maxDelay]. *)
Definition overdue (spec : ClusterSpec) (startedAt now : Time) : bool :=
  let maxDelay := spec_MaxSwitchoverDelay spec * second in
  (0 <? maxDelay) && (maxDelay <? now - startedAt).

Definition phase_only (phase : string) (r : phase_reason) (progressing : bool) : FailoverResult :=
  mkFailoverResult true 0 (Some (mkOperationPhase phase r false progressing)).

(** Start the clock of the handoff, then abort it, report it, or escalate. *)
Definition bounded (spec : ClusterSpec) (late : M (FailoverResult * option error)) (r : FailoverResult)
  : M (FailoverResult * option error) :=
  let! started := ensureSwitchoverStarted in
  match started with
  | Err e => ret (no_result, Some e)
  | Ok startedAt =>
      let! now := Now in
      if overdue spec startedAt now then late else ret (r, None)
  end.

Definition ReconcileSwitchover (spec : ClusterSpec) (observed : FailoverState) : M (FailoverResult * option error) :=
  let! st := status in
  let target := st_TargetPrimary st in
  let current := st_CurrentPrimary st in
  if String.eqb target "" || String.eqb target current || String.eqb current "" then ret (no_result, None)
  else
    match validateSwitchoverTarget observed target with
    | Some err =>
        if match fs_Instances observed !! target with Some s => fi_Ready s && fi_Primary s | None => false end then
          bounded spec (ret (phase_only "Blocked" (NotRecorded target (spec_MaxSwitchoverDelay spec)) false, None))
            (phase_only "Switchover" (WaitingRecord target) true)
        else
          let! lease := PrimaryLeaseStatus spec target in
          match lease with
          | Err e => ret (no_result, Some e)
          | Ok lease =>
              if Held lease then
                bounded spec (abortSwitchover spec current target) (phase_only "Switchover" (WaitingPromote target) true)
              else ret (phase_only "Blocked" (UnfitTarget err) false, None)
          end
    | None =>
        bounded spec (abortSwitchover spec current target) (phase_only "Switchover" (SwitchingOver target) true)
    end.

(** ** A draining primary *)

Definition drain_election (spec : ClusterSpec) (st : ClusterStatus) (observed : FailoverState) (disownedGTIDs : string)
  : Election :=
  mkElection observed (fs_Diverged observed ++ st_DivergedInstances st) (maxTransactionsBehind spec)
    (archiveCovered spec st) (PreferredPrimary spec) (fi_GTID (instance_of observed (st_CurrentPrimary st))) None 0
    (disownedSet (String.eqb (ResolvedFlavor spec) "mariadb") disownedGTIDs).

Definition ReconcileDrainSwitchover (spec : ClusterSpec) (observed : FailoverState) (disownedGTIDs : string)
  : M (FailoverResult * option error) :=
  let! st := status in
  let current := st_CurrentPrimary st in
  if negb (IsSwitchoverOnDrainEnabled spec) then ret (no_result, None)
  else if String.eqb current "" || String.eqb (fs_PrimaryName observed) "" then ret (no_result, None)
  else if negb (contains_name (fs_Terminating observed) current) then ret (no_result, None)
  else if negb (String.eqb (st_TargetPrimary st) "") && negb (String.eqb (st_TargetPrimary st) current)
  then ret (no_result, None)
  else if negb (PrimaryHealthy observed) then ret (no_result, None)
  else
    match ForFlavor (ResolvedFlavor spec) with
    | Err e => ret (no_result, Some e)
    | Ok gtid =>
        let candidate := fc_Name (@SelectFailoverCandidate gtid (drain_election spec st observed disownedGTIDs)) in
        if String.eqb candidate "" then ret (no_result, None)
        else
          let! now := Now in
          let! err := PatchClusterStatus
            (stamp_target candidate (Some now) (Some ("Switchover", Draining current candidate))) in
          match err with
          | Some e => ret (handled, Some e)
          | None => ret (handled, None)
          end
    end.

Definition SwitchoverTargetReady (observed : FailoverState) (target : string) : bool :=
  match validateSwitchoverTarget observed target with None => true | Some _ => false end.

(** ** Requesting a handoff *)

(** [strings.CutPrefix]. *)
Fixpoint CutPrefix (s prefix : string) : option string :=
  match prefix, s with
  | EmptyString, _ => Some s
  | String p prefix', String c s' => if Ascii.eqb p c then CutPrefix s' prefix' else None
  | _, _ => None
  end.

Definition instanceOrdinal (clusterName name : string) : option Z :=
  match CutPrefix name (clusterName +:+ "-") with
  | None => None
  | Some suffix =>
      match ParseInt suffix with
      | Some ordinal => if ordinal <? 1 then None else Some ordinal
      | None => None
      end
  end.

Definition instanceInRange (clusterName : string) (instances : Z) (name : string) : bool :=
  match instanceOrdinal clusterName name with
  | Some ordinal => ordinal <=? instances
  | None => false
  end.

Definition requestSwitchover (target message : string) : M (option error) :=
  let! now := Now in
  PatchClusterStatus (stamp_target target (Some now) (Some ("Switchover", Requested message))).

(** [true] when the pass is claimed, with its error. *)
Definition cancelSwitchoverToTerminating (observed : FailoverState) : M (bool * option error) :=
  let! st := status in
  let current := st_CurrentPrimary st in
  let target := st_TargetPrimary st in
  if String.eqb current "" || String.eqb target "" || String.eqb target current then ret (false, None)
  else if negb (contains_name (fs_Terminating observed) target) then ret (false, None)
  else if match fs_Instances observed !! target with Some s => fi_Primary s | None => false end then ret (false, None)
  else
    let! err := PatchClusterStatus (stamp_target current None None) in
    match err with
    | Some e => ret (false, Some e)
    | None => ret (true, None)
    end.

Definition reconcilePreferredPrimary (clusterName : string) (instances : Z) (spec : ClusterSpec) (observed : FailoverState)
  : M (bool * option error) :=
  let! st := status in
  let! now := Now in
  let target := PreferredFailbackTarget spec st observed
    (fun name => instanceInRange clusterName instances name && SwitchoverTargetReady observed name) now in
  if String.eqb target "" then ret (false, None)
  else let! err := requestSwitchover target "preferred primary" in ret (true, err).

Definition reconcileInRangePrimary (clusterName : string) (instances : Z) (spec : ClusterSpec) (observed : FailoverState)
  : M (bool * option error) :=
  let! st := status in
  let! now := Now in
  let target := InRangeSwitchoverTarget spec st observed (instanceInRange clusterName instances)
    (SwitchoverTargetReady observed) now in
  if String.eqb target "" then ret (false, None)
  else let! err := requestSwitchover target "scale down" in ret (true, err).

(** The three requests, then the handoff itself; the phase of the handoff's
    result is recorded by the caller. *)
Definition reconcileSwitchover (clusterName : string) (instances : Z) (spec : ClusterSpec) (observed : FailoverState)
  : M (FailoverResult * option error) :=
  let! (cancelled, err) := cancelSwitchoverToTerminating observed in
  if cancelled || match err with Some _ => true | None => false end then ret (mkFailoverResult cancelled 0 None, err)
  else
    let! (requested, err) := reconcileInRangePrimary clusterName instances spec observed in
    if requested || match err with Some _ => true | None => false end then ret (mkFailoverResult requested 0 None, err)
    else
      let! (requested, err) := reconcilePreferredPrimary clusterName instances spec observed in
      if requested || match err with Some _ => true | None => false end then ret (mkFailoverResult requested 0 None, err)
      else ReconcileSwitchover spec observed.

(** ** What a switchover pass may do *)

(** An instance a switchover may be requested to. *)
Definition approved (clusterName : string) (instances : Z) (st : ClusterStatus) (observed : FailoverState) (name : string)
  : Prop :=
  candidateEligible st observed name = true /\ SwitchoverTargetReady observed name = true /\
  instanceInRange clusterName instances name = true.

(** The target as somebody stored it. *)
Definition stored_target (api : API) (name : string) : Prop :=
  exists k stored latest, api_latest api k stored = Ok latest /\ st_TargetPrimary latest = name.

(** The effects of a pass that starts from [st]: the target ends up where it was,
    at the current primary, or at an approved instance, and the only Pod deleted
    is that of a target that has not taken the role. *)
Definition allowed (ok : string -> Prop) (st : ClusterStatus) (observed : FailoverState) (api : API) (e : effect) : Prop :=
  match e with
  | PodDeleted name =>
      name = st_TargetPrimary st /\ name <> st_CurrentPrimary st /\
      forall s, fs_Instances observed !! name = Some s -> fi_Ready s && fi_Primary s = false
  | StatusPatched st' =>
      st_TargetPrimary st' = st_CurrentPrimary st \/ ok (st_TargetPrimary st') \/ stored_target api (st_TargetPrimary st')
  end.

Definition pass_allowed (ok : string -> Prop) (observed : FailoverState) (api : API) (s s' : Pass) : Prop :=
  exists new, extends s s' new /\ Forall (allowed ok (ps_Status s) observed api) new.

Lemma pass_allowed_refl ok observed api s : pass_allowed ok observed api s s.
Proof. exists []. split; [apply extends_refl|done]. Qed.

Lemma pass_allowed_read ok observed api s s' : extends s s' [] -> pass_allowed ok observed api s s'.
Proof. intros H. by exists []. Qed.

Lemma extends_read {A} (f : API -> nat -> A) api s s' a :
  call f api s = (s', a) -> ps_Status s' = ps_Status s /\ ps_Stored s' = ps_Stored s /\ extends s s' [].
Proof. intros H. inv_pass. split_and!; [done..|]. split; cbn; [lia|by rewrite app_nil_r]. Qed.

Lemma pass_allowed_trans ok observed api s s1 s' :
  extends s s1 [] -> ps_Status s1 = ps_Status s -> pass_allowed ok observed api s1 s' -> pass_allowed ok observed api s s'.
Proof.
  intros X E (new & X1 & Hn). exists new. split; [by eapply (extends_trans _ _ _ [])|]. by rewrite <- E.
Qed.

(** A patch whose target is allowed. *)
Lemma patch_allowed ok observed api s s' err mutate :
  PatchClusterStatus mutate api s = (s', err) ->
  (forall latest, st_TargetPrimary (mutate latest) = st_CurrentPrimary (ps_Status s) \/
     ok (st_TargetPrimary (mutate latest)) \/ st_TargetPrimary (mutate latest) = st_TargetPrimary latest) ->
  pass_allowed ok observed api s s'.
Proof.
  intros [(e & _ & _ & _ & X)|(k & latest & _ & El & _ & _ & X)]%PatchClusterStatus_run Hm.
  - by apply pass_allowed_read.
  - eexists. split; [exact X|]. apply Forall_singleton. cbn [allowed through st_TargetPrimary].
    destruct (Hm latest) as [?|[?|Hk]]; [by left|right; by left|right; right]. exists k, (ps_Stored s), latest. done.
Qed.

Lemma ensureSwitchoverStarted_run ok observed api s s' r :
  ensureSwitchoverStarted api s = (s', r) -> pass_allowed ok observed api s s'.
Proof.
  unfold ensureSwitchoverStarted. intros H. inv_pass. destruct (st_TargetPrimaryTimestamp (ps_Status s)).
  { inv_pass. apply pass_allowed_refl. }
  apply bind_run in H as (s1 & now & Hn & H). apply extends_read in Hn as (E1 & _ & X).
  apply bind_run in H as (s2 & err & Hp & H). inv_pass.
  eapply pass_allowed_trans; [exact X|done|]. eapply patch_allowed; [exact Hp|]. cbn. auto.
Qed.

Lemma abortSwitchover_run spec api s s' r current target :
  abortSwitchover spec current target api s = (s', r) ->
  exists new, extends s s' new /\
    Forall (fun e => e = PodDeleted target \/ exists st, e = StatusPatched st /\ st_TargetPrimary st = current) new.
Proof.
  unfold abortSwitchover. intros H. apply bind_run in H as (s1 & ferr & Hf & H).
  apply fenceInstancePod_run in Hf as (fence & X & Hfence & _ & _ & _).
  assert (Forall (fun e => e = PodDeleted target \/ exists st, e = StatusPatched st /\ st_TargetPrimary st = current) fence) as Hff
    by (destruct Hfence as [->| ->]; [done|apply Forall_singleton; auto]).
  destruct ferr; [inv_pass; eauto|].
  apply bind_run in H as (s2 & perr & Hp & H). apply PatchClusterStatus_run in Hp.
  assert (s' = s2) as -> by (destruct perr; by inv_pass).
  destruct Hp as [(e & _ & _ & _ & X1)|(k & latest & _ & _ & _ & _ & X1)].
  - exists (fence ++ []). split; [by eapply extends_trans|]. by rewrite app_nil_r.
  - eexists. split; [by eapply extends_trans|]. apply Forall_app. split; [done|]. apply Forall_singleton. right. eauto.
Qed.

(** The bounded part of a handoff: [late] is the abort or a report. *)
Lemma bounded_allowed ok observed spec api late r s s' res :
  (forall s1 s2 res, late api s1 = (s2, res) -> exists new, extends s1 s2 new /\ Forall (allowed ok (ps_Status s) observed api) new) ->
  bounded spec late r api s = (s', res) -> pass_allowed ok observed api s s'.
Proof.
  intros Hlate. unfold bounded. intros H. apply bind_run in H as (s1 & started & Hs & H).
  apply (ensureSwitchoverStarted_run ok observed) in Hs as (n1 & X1 & Hn1).
  destruct started; [|inv_pass; by exists n1].
  apply bind_run in H as (s2 & now & Hn & H). apply extends_read in Hn as (E1 & _ & X).
  assert (extends s s2 n1) as X2 by (rewrite <- (app_nil_r n1); by eapply extends_trans).
  destruct (overdue _ _ _); [|inv_pass; by exists n1].
  apply Hlate in H as (n2 & X3 & Hn2). exists (n1 ++ n2). split; [by eapply extends_trans|]. by apply Forall_app.
Qed.

(** A role is one of primary and replica. *)
Definition roles (observed : FailoverState) : Prop :=
  forall x s, fs_Instances observed !! x = Some s -> fi_Primary s && fi_Replica s = false.

Lemma validate_not_primary observed target :
  roles observed -> validateSwitchoverTarget observed target = None ->
  forall s, fs_Instances observed !! target = Some s -> fi_Ready s && fi_Primary s = false.
Proof.
  intros Hr Hv s Hs. unfold validateSwitchoverTarget in Hv. rewrite Hs in Hv. specialize (Hr _ _ Hs).
  destruct (fi_Ready s), (fi_Replica s), (fi_Primary s); done.
Qed.

Lemma ReconcileSwitchover_run ok spec observed api s s' r :
  roles observed -> ReconcileSwitchover spec observed api s = (s', r) -> pass_allowed ok observed api s s'.
Proof.
  intros Hroles. unfold ReconcileSwitchover. intros H. apply bind_run in H as (s0 & st & Hs & H). unfold status in Hs. injection Hs as <- <-.
  destruct (_ || _ || _) eqn:E0; [inv_pass; apply pass_allowed_refl|]. boolp.
  assert (forall s1, ps_Status s1 = ps_Status s -> (forall i, fs_Instances observed !! st_TargetPrimary (ps_Status s) = Some i -> fi_Ready i && fi_Primary i = false) ->
    forall s2 s3 res, abortSwitchover spec (st_CurrentPrimary (ps_Status s)) (st_TargetPrimary (ps_Status s)) api s2 = (s3, res) ->
    exists new, extends s2 s3 new /\ Forall (allowed ok (ps_Status s1) observed api) new) as Habort.
  { intros s1 E1 Hnp s2 s3 res (new & X & Hn)%abortSwitchover_run. exists new. split; [done|]. rewrite E1.
    eapply Forall_impl; [exact Hn|]. intros e [->|(st & -> & Et)]; cbn; [done|by left]. }
  destruct (validateSwitchoverTarget observed (st_TargetPrimary (ps_Status s))) as [err|] eqn:Ev.
  - match type of H with context [if ?b then _ else _] => destruct b eqn:Ei end.
    { eapply bounded_allowed; [|exact H]. intros s1 s2 res Hl. inv_pass. exists []. split; [apply extends_refl|done]. }
    apply bind_run in H as (s1 & lease & Hl & H). apply PrimaryLeaseStatus_run in Hl as (E1 & E2 & X & _).
    eapply pass_allowed_trans; [exact X|done|].
    destruct lease as [lease|e]; [|inv_pass; apply pass_allowed_refl].
    destruct (Held lease); [|inv_pass; apply pass_allowed_refl].
    eapply bounded_allowed; [|exact H]. apply Habort; [done|]. intros i Hi. by rewrite Hi in Ei.
  - eapply bounded_allowed; [|exact H]. apply Habort; [done|]. by apply validate_not_primary.
Qed.

Lemma InRangeSwitchoverTarget_spec spec st observed inRange promotable now r :
  InRangeSwitchoverTarget spec st observed inRange promotable now = r -> r <> "" ->
  inRange (st_CurrentPrimary st) = false /\ primaryMovable spec st observed now = true /\
  r <> st_CurrentPrimary st /\ inRange r = true /\ candidateEligible st observed r = true /\ promotable r = true /\
  r ∈ in_range_candidates (PreferredPrimary spec) (fs_InstanceNames observed).
Proof.
  unfold InRangeSwitchoverTarget. destruct (_ || _ || _) eqn:E0; [congruence|]. boolp. intros <-.
  destruct (List.find _ _) as [x|] eqn:Ef; cbn; [|done]. intros _. apply find_some in Ef as [Hin Hx]. boolp.
  split_and!; try done. by apply list_elem_of_In.
Qed.

(** A request goes to an approved instance; without one nothing changes. *)
Lemma request_run ok observed api s s' res target message :
  (if String.eqb target "" then ret (false, None)
   else let! err := requestSwitchover target message in ret (true, err)) api s = (s', res) ->
  (target <> "" -> ok target) ->
  pass_allowed ok observed api s s' /\ (fst res = false -> ps_Status s' = ps_Status s /\ extends s s' []).
Proof.
  intros H Hok. destruct (String.eqb_spec target "") as [->|Hne].
  { inv_pass. split; [apply pass_allowed_refl|]. intros _. split; [done|apply extends_refl]. }
  apply bind_run in H as (s1 & err & Hr & H). inv_pass. split; [|done]. unfold requestSwitchover in Hr.
  apply bind_run in Hr as (s2 & now & Hn & Hr). apply extends_read in Hn as (E1 & _ & X).
  eapply pass_allowed_trans; [exact X|done|]. eapply patch_allowed; [exact Hr|]. intros latest. right; left. by apply Hok.
Qed.

Lemma reconcileInRangePrimary_run clusterName instances spec observed api s s' res :
  reconcileInRangePrimary clusterName instances spec observed api s = (s', res) ->
  pass_allowed (approved clusterName instances (ps_Status s) observed) observed api s s' /\
  (fst res = false -> ps_Status s' = ps_Status s /\ extends s s' []).
Proof.
  unfold reconcileInRangePrimary. intros H. apply bind_run in H as (s0 & st & Hs & H). unfold status in Hs. injection Hs as <- <-.
  apply bind_run in H as (s1 & now & Hn & H). apply extends_read in Hn as (E1 & _ & X).
  apply request_run with (ok := approved clusterName instances (ps_Status s) observed) (observed := observed) in H.
  - destruct H as [Hp Hf]. split; [by eapply pass_allowed_trans|]. intros Hr. destruct (Hf Hr) as [? ?].
    split; [congruence|]. by eapply (extends_trans _ _ _ [] []).
  - intros Hne. by destruct (InRangeSwitchoverTarget_spec _ _ _ _ _ _ _ eq_refl Hne) as (_ & _ & _ & ? & ? & ? & _).
Qed.

Lemma reconcilePreferredPrimary_run clusterName instances spec observed api s s' res :
  reconcilePreferredPrimary clusterName instances spec observed api s = (s', res) ->
  pass_allowed (approved clusterName instances (ps_Status s) observed) observed api s s' /\
  (fst res = false -> ps_Status s' = ps_Status s /\ extends s s' []).
Proof.
  unfold reconcilePreferredPrimary. intros H. apply bind_run in H as (s0 & st & Hs & H). unfold status in Hs. injection Hs as <- <-.
  apply bind_run in H as (s1 & now & Hn & H). apply extends_read in Hn as (E1 & _ & X).
  apply request_run with (ok := approved clusterName instances (ps_Status s) observed) (observed := observed) in H.
  - destruct H as [Hp Hf]. split; [by eapply pass_allowed_trans|]. intros Hr. destruct (Hf Hr) as [? ?].
    split; [congruence|]. by eapply (extends_trans _ _ _ [] []).
  - unfold PreferredFailbackTarget. destruct (_ || _); [done|]. intros Hne.
    destruct (failback_walk_spec _ _ _ _ _ eq_refl Hne) as (pre & post & _ & He & [? ?]%andb_true_iff & _). done.
Qed.

Lemma cancel_run ok observed api s s' res :
  cancelSwitchoverToTerminating observed api s = (s', res) ->
  pass_allowed ok observed api s s' /\ (res = (false, None) -> s' = s).
Proof.
  unfold cancelSwitchoverToTerminating. intros H. apply bind_run in H as (s0 & st & Hs & H). unfold status in Hs. injection Hs as <- <-.
  destruct (_ || _ || _); [inv_pass; split; [apply pass_allowed_refl|done]|].
  destruct (negb _); [inv_pass; split; [apply pass_allowed_refl|done]|].
  match type of H with context [if ?b then _ else _] => destruct b end; [inv_pass; split; [apply pass_allowed_refl|done]|].
  apply bind_run in H as (s1 & err & Hp & H).
  assert (pass_allowed ok observed api s s1) as Ha by (eapply patch_allowed; [exact Hp|cbn; auto]).
  destruct err; inv_pass; done.
Qed.

(** The composed pass. *)
Lemma reconcileSwitchover_run clusterName instances spec observed api s s' r :
  roles observed -> reconcileSwitchover clusterName instances spec observed api s = (s', r) ->
  pass_allowed (approved clusterName instances (ps_Status s) observed) observed api s s'.
Proof.
  intros Hroles. unfold reconcileSwitchover. set (ok := approved _ _ _ _). intros H.
  apply bind_run in H as (s1 & [cancelled err] & Hc & H). apply (cancel_run ok) in Hc as [Ha Hs].
  destruct cancelled; cbn [orb] in H; [by inv_pass|]. destruct err; [by inv_pass|]. rewrite (Hs eq_refl) in H. clear Ha Hs.
  apply bind_run in H as (s2 & [requested err] & Hr & H). apply reconcileInRangePrimary_run in Hr as [Ha Hs].
  destruct requested; cbn [orb] in H; [by inv_pass|]. destruct err; [by inv_pass|]. destruct (Hs eq_refl) as [E2 X2].
  eapply pass_allowed_trans; [exact X2|done|]. clear Ha Hs.
  apply bind_run in H as (s3 & [requested err] & Hr & H). apply reconcilePreferredPrimary_run in Hr as [Ha Hs].
  rewrite E2 in Ha. fold ok in Ha.
  destruct requested; cbn [orb] in H; [by inv_pass|]. destruct err; [by inv_pass|]. destruct (Hs eq_refl) as [E3 X3].
  eapply pass_allowed_trans; [exact X3|done|]. by eapply ReconcileSwitchover_run.
Qed.

(** A drain switchover that was recorded. *)
Lemma ReconcileDrainSwitchover_run spec observed disowned api s s' r err :
  ReconcileDrainSwitchover spec observed disowned api s = (s', (r, err)) ->
  let st := ps_Status s in let current := st_CurrentPrimary st in
  (s' = s /\ fr_Handled r = false) \/
  (IsSwitchoverOnDrainEnabled spec = true /\ current ∈ fs_Terminating observed /\ current <> "" /\
   (st_TargetPrimary st = "" \/ st_TargetPrimary st = current) /\ PrimaryHealthy observed = true /\
   exists gtid, ForFlavor (ResolvedFlavor spec) = Ok gtid /\
     let elected := @SelectFailoverCandidate gtid (drain_election spec st observed disowned) in
     fc_Name elected <> "" /\ fr_Handled r = true /\
     exists new, extends s s' new /\
       (err = None -> exists st', new = [StatusPatched st'] /\ ps_Status s' = st' /\ ps_Stored s' = st' /\
          st_TargetPrimary st' = fc_Name elected)).
Proof.
  unfold ReconcileDrainSwitchover. intros H. cbv zeta. apply bind_run in H as (s0 & st & Hs & H). unfold status in Hs. injection Hs as <- <-.
  destruct (IsSwitchoverOnDrainEnabled spec); cbn [negb] in H; [|inv_pass; by left].
  destruct (_ || _) eqn:E0; [inv_pass; by left|].
  destruct (contains_name _ _) eqn:E1; cbn [negb] in H; [|inv_pass; by left].
  destruct (_ && _) eqn:E2; [inv_pass; by left|].
  destruct (PrimaryHealthy observed); cbn [negb] in H; [|inv_pass; by left].
  destruct (ForFlavor (ResolvedFlavor spec)) as [gtid|e]; [|inv_pass; by left].
  destruct (String.eqb_spec (fc_Name (@SelectFailoverCandidate gtid (drain_election spec (ps_Status s) observed disowned))) "") as [En|En];
    [inv_pass; by left|].
  right. apply bind_run in H as (s1 & now & Hn & H). apply extends_read in Hn as (_ & _ & X).
  apply bind_run in H as (s2 & perr & Hp & H). apply PatchClusterStatus_run in Hp. unfold contains_name in E1.
  assert (s' = s2 /\ err = perr /\ fr_Handled r = true) as (-> & -> & Hh).
  { destruct perr; unfold ret in H; by simplify_eq. }
  apply orb_false_iff in E0 as [E0 _]. apply bool_decide_eq_true in E1. apply String.eqb_neq in E0. apply andb_false_iff in E2.
  split_and!; [done..| |done|].
  { destruct E2 as [E2%negb_false_iff|E2%negb_false_iff]; apply String.eqb_eq in E2; auto. }
  exists gtid. split_and!; [done..|]. destruct Hp as [(e & -> & _ & _ & X1)|(k & latest & -> & _ & Es & Ed & X1)].
  - exists []. split; [by eapply (extends_trans _ _ _ [] [])|done].
  - eexists. split; [by eapply (extends_trans _ _ _ [])|]. intros _. eexists. split; [done|]. rewrite Es, Ed. done.
Qed.

(** ** Properties *)

(** A switchover pass (cancelling, requesting, driving) only ever points the
    target primary at where it was stored, back at the current primary, or at an
    instance that is in range, ready to take the role, and neither fenced,
    diverged nor leaving; and the only Pod it deletes is that of a target other
    than the current primary that has not taken the role. *)
Theorem switchover_effects_are_allowed clusterName instances spec observed api s :
  roles observed ->
  let run := reconcileSwitchover clusterName instances spec observed api s in
  exists new, ps_Effects (fst run) = ps_Effects s ++ new /\
    Forall (allowed (approved clusterName instances (ps_Status s) observed) (ps_Status s) observed api) new.
Proof.
  intros Hr run. subst run. destruct (reconcileSwitchover clusterName instances spec observed api s) as [s' r] eqn:Hrun.
  apply reconcileSwitchover_run in Hrun as (new & X & Hn); [|done]. exists new. split; [apply X|done].
Qed.

Lemma home_roles : roles Home.observed.
Proof.
  intros x s Hs. unfold Home.observed in Hs. cbn [fs_Instances] in Hs. rewrite lookup_insert in Hs.
  case_decide; [by injection Hs as <-|]. by rewrite lookup_empty in Hs.
Qed.

Lemma switchover_effects_are_allowed_witness :
  exists new, ps_Effects (fst (reconcileSwitchover "c" 3 Home.spec Home.observed (Demo.api (170 * second))
      (mkPass Home.stored Home.stored [] 0))) = [] ++ new /\
    Forall (allowed (approved "c" 3 Home.stored Home.observed) Home.stored Home.observed (Demo.api (170 * second))) new.
Proof.
  exact (switchover_effects_are_allowed "c" 3 Home.spec Home.observed (Demo.api (170 * second))
    (mkPass Home.stored Home.stored [] 0) home_roles).
Defined.

(** C19: A drain switchover is only started off a healthy primary whose Pod is
    terminating, with no handoff in flight, and goes to a safest electable
    replica by the cluster's engine and the losses measured against the primary's
    live position; a pass that does not handle it changes nothing. *)
Theorem drain_switchover_goes_to_safest spec observed disowned api s :
  let run := ReconcileDrainSwitchover spec observed disowned api s in
  let s' := fst run in let r := fst (snd run) in let st := ps_Status s in let current := st_CurrentPrimary st in
  (fr_Handled r = false -> s' = s) /\
  (fr_Handled r = true -> snd (snd run) = None ->
     current ∈ fs_Terminating observed /\ PrimaryHealthy observed = true /\
     (st_TargetPrimary st = "" \/ st_TargetPrimary st = current) /\
     ps_Effects s' = ps_Effects s ++ [StatusPatched (ps_Stored s')] /\
     exists gtid (L : GTIDModelLaws gtid) behind, engine (ResolvedFlavor spec) gtid L /\
       @measured gtid (drain_election spec st observed disowned) behind /\
       @safest gtid L (drain_election spec st observed disowned) behind (st_TargetPrimary (ps_Stored s'))).
Proof.
  intros run s' r st current. subst run s' r. destruct (ReconcileDrainSwitchover spec observed disowned api s) as [s' [r err]] eqn:Hrun.
  cbn [fst snd]. apply ReconcileDrainSwitchover_run in Hrun as [[-> Hh]|(_ & Hterm & _ & Ht & Hph & gtid & Hf & Hn & Hh & new & X & Hnew)].
  - split; [done|]. congruence.
  - split; [congruence|]. intros _ ->. destruct (Hnew eq_refl) as (st' & -> & E1 & E2 & Et). split_and!; try done.
    + destruct X as [_ E]. rewrite E, E2. done.
    + destruct (ForFlavor_engine _ _ Hf) as [L HL]. exists gtid, L.
      destruct (Select_elected _ (Select_named _ Hn)) as (cs & n & behind & Hc & Hb & Hsafe & _). exists behind.
      split_and!; [done|by exists cs, n|by rewrite E2, Et].
Qed.

(** The primary [c-1] of the sample cluster is up and draining. *)
Module Drain.

Definition observed : FailoverState :=
  mkFailoverState "c-1" ["c-1"; "c-2"; "c-3"]
    (<["c-1" := mkFailoverInstance true true false "primary" false false (Sample.uuid +:+ ":1-100") "" "" None false]>
      (fs_Instances Sample.observed)) [] [] ["c-1"].

End Drain.

Lemma drain_switchover_goes_to_safest_witness :
  let run := ReconcileDrainSwitchover Demo.spec Drain.observed "" (Demo.api (100 * second))
    (mkPass Demo.stored Demo.stored [] 0) in
  st_TargetPrimary (ps_Stored (fst run)) = "c-3" /\ "c-1" ∈ fs_Terminating Drain.observed.
Proof.
  intros run. split; [vm_compute; reflexivity|].
  destruct (drain_switchover_goes_to_safest Demo.spec Drain.observed "" (Demo.api (100 * second))
    (mkPass Demo.stored Demo.stored [] 0)) as [_ H].
  apply H; vm_compute; reflexivity.
Defined.
