(* ===== verification/GroupReplication.v ===== *)
(** * Group replication: observation, quorum and recovery

    [internal/controller/groupreplication/cluster_observation.go] and
    [cluster_quorum.go]: merging the members' views of the group into the Cluster's
    status, the guards that keep a majority alive, and the choice of the member a
    group without quorum is re-formed from.

    The theorems show that a group is reported quorate only with a majority of the
    largest view it had, that the guards leave a majority, and on which grounds a
    recovery picks its member.  Positions are compared only between several ONLINE
    members without a primary, and after a full outage without a recorded primary. *)

From Stdlib Require Import ZArith Lia Bool Ascii String.
From stdpp Require Import base list strings gmap sorting.
From S2P Require Import Prelude GoStrings Gtid GtidText.

Local Open Scope Z_scope.

(** ** Data *)

Definition MemberStateOnline : string := "ONLINE".
Definition MemberStateRecovering : string := "RECOVERING".
Definition MemberStateUnreachable : string := "UNREACHABLE".
Definition MemberRolePrimary : string := "PRIMARY".

(** A row of a member's view, and what a member reports of itself. *)
Record GroupReplicationMember := mkGroupReplicationMember {
  gm_MemberID : string;
  gm_Host : string;
  gm_State : string;
  gm_Role : string
}.
Record GroupReplicationMemberStatus := mkGroupReplicationMemberStatus {
  gs_MemberID : string;
  gs_State : string;
  gs_ViewID : string;
  gs_CommunicationProtocol : string;
  gs_Members : list GroupReplicationMember
}.

Record GroupMember := mkGroupMember {
  me_Instance : string;
  me_State : string;
  me_Role : string;
  me_Reachable : bool
}.
Record GroupReplicationStatus := mkGroupReplicationStatus {
  gr_GroupName : string;
  gr_Bootstrapped : bool;
  gr_PrimaryMember : string;
  gr_Members : list GroupMember;
  gr_HasQuorum : bool;
  gr_ObservedViewMax : Z;
  gr_ObservedOnlineMax : Z;
  gr_ViewID : string;
  gr_CommunicationProtocol : string;
  gr_CommunicationProtocolTarget : string
}.
Definition GroupReplicationStatus_zero : GroupReplicationStatus := mkGroupReplicationStatus "" false "" [] false 0 0 "" "" "".

(** What these functions read of the Cluster. *)
Record GroupCluster := mkGroupCluster {
  gc_Namespace : string;
  gc_Instances : Z;
  gc_CurrentPrimary : string;
  gc_CurrentPrimaryGeneration : Z;
  gc_TargetPrimary : string;
  gc_GroupReplication : option GroupReplicationStatus
}.

(** [topology.ObservationInput]: a member that did not answer has no status. *)
Record GroupInput := mkGroupInput {
  gi_InstanceNames : list string;
  gi_StatusByInstance : gmap string GroupReplicationMemberStatus;
  gi_ConfiguredMembers : Z;
  gi_ObservedViewMax : Z
}.

Definition count {A} (p : A -> bool) (l : list A) : Z := Z.of_nat (length (List.filter p l)).

(** ** Observation *)

Definition member_online (m : GroupReplicationMember) : bool := String.eqb (gm_State m) MemberStateOnline.
Definition view_online (g : GroupReplicationMemberStatus) : Z := count member_online (gs_Members g).

(** The ONLINE primary of a view.  The loop stops at a second one, so the rows
    after it are not counted as ONLINE either. *)
Fixpoint view_loop (members : list GroupReplicationMember) (onlineCount : Z) (primaryID : string) : Z * string :=
  match members with
  | [] => (onlineCount, primaryID)
  | m :: members' =>
      let onlineCount := if member_online m then onlineCount + 1 else onlineCount in
      if member_online m && String.eqb (gm_Role m) MemberRolePrimary then
        if negb (String.eqb primaryID "") then (onlineCount, "") else view_loop members' onlineCount (gm_MemberID m)
      else view_loop members' onlineCount primaryID
  end.

(** The loop over the instances: the first majority view, the votes and the
    largest view. *)
Definition vote (votes : gmap string Z) (id : string) : gmap string Z := <[id := default 0 (votes !! id) + 1]> votes.

Fixpoint poll (input : GroupInput) (names : list string) (view : option GroupReplicationMemberStatus) (votes : gmap string Z)
    (maxViewMembers : Z) : option GroupReplicationMemberStatus * gmap string Z * Z :=
  match names with
  | [] => (view, votes, maxViewMembers)
  | name :: names' =>
      match gi_StatusByInstance input !! name with
      | None => poll input names' view votes maxViewMembers
      | Some group =>
          if negb (String.eqb (gs_State group) MemberStateOnline) then poll input names' view votes maxViewMembers
          else
            let '(onlineCount, primaryID) := view_loop (gs_Members group) 0 "" in
            let size := Z.of_nat (length (gs_Members group)) in
            if onlineCount * 2 <=? size then poll input names' view votes maxViewMembers
            else
              poll input names' (match view with None => Some group | Some _ => view end)
                (if negb (String.eqb primaryID "") then vote votes primaryID else votes) (Z.max maxViewMembers size)
      end
  end.

Definition quorumDenominator (configured observedMax currentMax : Z) : Z :=
  if (0 <? observedMax) && (configured <=? observedMax) then observedMax else currentMax.

(** The instance by member ID; of two with the same ID either may stay, as the
    map is ranged over in any order. *)
Definition uuidToInstance (input : GroupInput) : gmap string string :=
  list_to_map ((fun x => (gs_MemberID (snd x), fst x)) <$>
    List.filter (fun x => negb (String.eqb (gs_MemberID (snd x)) "")) (map_to_list (gi_StatusByInstance input))).

Definition to_member (instances : gmap string string) (m : GroupReplicationMember) : GroupMember :=
  mkGroupMember (default "" (instances !! gm_MemberID m)) (gm_State m) (gm_Role m)
    (negb (String.eqb (gm_State m) MemberStateUnreachable)).

Definition observeGroup (input : GroupInput) : option GroupReplicationStatus * string :=
  match poll input (gi_InstanceNames input) None ∅ 0 with
  | (None, _, _) => (None, "")
  | (Some view, votes, maxViewMembers) =>
      let primaryID := match List.find (fun x => maxViewMembers <? snd x * 2) (map_to_list votes) with
                       | Some x => fst x
                       | None => ""
                       end in
      let instances := uuidToInstance input in
      let primaryInstance := default "" (instances !! primaryID) in
      let onlineCount := view_online view in
      (Some (mkGroupReplicationStatus "" false primaryInstance (to_member instances <$> gs_Members view)
               (quorumDenominator (gi_ConfiguredMembers input) (gi_ObservedViewMax input) maxViewMembers <? onlineCount * 2)
               maxViewMembers onlineCount (gs_ViewID view) (gs_CommunicationProtocol view) ""), primaryInstance)
  end.

(** ** Merging *)

Definition online (m : GroupMember) : bool := String.eqb (me_State m) MemberStateOnline.

Definition MergeStatus (c : GroupCluster) (observed : option GroupReplicationStatus) : GroupCluster :=
  let existing := gc_GroupReplication c in
  let e := default GroupReplicationStatus_zero existing in
  let '(merged, primary, generation) :=
    match observed with
    | None =>
        (mkGroupReplicationStatus (gr_GroupName e) (gr_Bootstrapped e) "" [] false (gr_ObservedViewMax e)
           (gr_ObservedOnlineMax e) "" "" (gr_CommunicationProtocolTarget e),
         gc_CurrentPrimary c, gc_CurrentPrimaryGeneration c)
    | Some s =>
        let recovering := match existing with None => true | Some e => negb (gr_HasQuorum e) end in
        let fresh := recovering && gr_HasQuorum s in
        let elected := negb (String.eqb (gr_PrimaryMember s) "") in
        (mkGroupReplicationStatus (gr_GroupName e) (gr_Bootstrapped e || elected) (gr_PrimaryMember s) (gr_Members s) false
           (if fresh then gr_ObservedViewMax s else Z.max (gr_ObservedViewMax e) (gr_ObservedViewMax s))
           (if fresh then gr_ObservedOnlineMax s else Z.max (gr_ObservedOnlineMax e) (gr_ObservedOnlineMax s))
           (gr_ViewID s) (gr_CommunicationProtocol s)
           (if negb (String.eqb (gr_CommunicationProtocolTarget s) "") then gr_CommunicationProtocolTarget s
            else gr_CommunicationProtocolTarget e),
         if elected then gr_PrimaryMember s else gc_CurrentPrimary c,
         if elected && negb (String.eqb (gc_CurrentPrimary c) (gr_PrimaryMember s)) then gc_CurrentPrimaryGeneration c + 1
         else gc_CurrentPrimaryGeneration c)
    end in
  let n := gc_Instances c in
  let viewMax := if 0 <? n then Z.min (gr_ObservedViewMax merged) n else gr_ObservedViewMax merged in
  let onlineMax := if 0 <? n then Z.min (gr_ObservedOnlineMax merged) n else gr_ObservedOnlineMax merged in
  let quorate := if 0 <? viewMax then viewMax <? count online (gr_Members merged) * 2 else gr_HasQuorum merged in
  mkGroupCluster (gc_Namespace c) n primary generation (gc_TargetPrimary c)
    (Some (mkGroupReplicationStatus (gr_GroupName merged) (gr_Bootstrapped merged) (gr_PrimaryMember merged) (gr_Members merged)
             quorate viewMax onlineMax (gr_ViewID merged) (gr_CommunicationProtocol merged) (gr_CommunicationProtocolTarget merged))).

Definition ObservedFailover (before after : GroupCluster) : option (string * string) :=
  let from := gc_CurrentPrimary before in
  let to := gc_CurrentPrimary after in
  if String.eqb from "" || String.eqb to "" || String.eqb from to || String.eqb (gc_TargetPrimary before) to then None
  else Some (from, to).

(** ** Guards *)

(** Integer division truncates, like [Z.quot]; members are positive there. *)
Definition quorum (members : Z) : Z := if members <=? 0 then 1 else Z.quot members 2 + 1.

Record QuorumResult := mkQuorumResult { qr_Blocked : bool; qr_CurrentSize : Z; qr_Quorum : Z }.

Definition active (m : GroupMember) : bool :=
  String.eqb (me_State m) MemberStateOnline || String.eqb (me_State m) MemberStateRecovering.

Definition FenceQuorumGuard (c : GroupCluster) (fenceSet : list string) : option QuorumResult :=
  let q := quorum (gc_Instances c) in
  match gc_GroupReplication c with
  | None => None
  | Some gr =>
      let online := count active (gr_Members gr) in
      let fencing := count (fun name => existsb (fun m => String.eqb (me_Instance m) name) (gr_Members gr)) fenceSet in
      let after := online - fencing in
      if after <? q then Some (mkQuorumResult true online q) else None
  end.

Definition MaxInt32 : Z := 2 ^ 31 - 1.

(** [maxUnavailable] of the members' PodDisruptionBudget. *)
Definition PDBMaxUnavailable (c : GroupCluster) : Z * Z :=
  let n := gc_Instances c in
  (Z.min (Z.max (n - quorum n) 0) MaxInt32, 0).

Definition ScaleDownQuorumGuard (c : GroupCluster) : option QuorumResult :=
  let n := gc_Instances c in
  if n <=? 1 then Some (mkQuorumResult true n 1)
  else
    let after := n - 1 in
    let q := quorum after in
    if after <? q then Some (mkQuorumResult true n q) else None.

(** ** Recovery *)

Inductive QuorumRecoveryAction := QuorumRecoveryForceMembers | QuorumRecoveryRebootstrap.
Record ForceQuorumRecovery := mkForceQuorumRecovery {
  fq_Action : QuorumRecoveryAction;
  fq_Survivor : string;
  fq_ForceMembers : string
}.

Definition DefaultGroupReplicationPort : Z := 33061.
Definition memberAddress (name namespace : string) : string :=
  name +:+ "." +:+ namespace +:+ ".svc:" +:+ FormatInt DefaultGroupReplicationPort.

Definition gtid_of (gtidByInstance : gmap string string) (name : string) : string := default "" (gtidByInstance !! name).

(** [contained, err := GTIDContains(..)]; an error disproves. *)
Definition proves (candidateGTID otherGTID : string) : bool :=
  match GTIDContains candidateGTID otherGTID with Ok contained => contained | Err _ => false end.

Definition dominatesAll (candidate : GroupMember) (candidateGTID : string) (online : list GroupMember)
    (gtidByInstance : gmap string string) : bool :=
  forallb (fun other =>
    String.eqb (me_Instance other) (me_Instance candidate) ||
    String.eqb (gtid_of gtidByInstance (me_Instance other)) "" ||
    proves candidateGTID (gtid_of gtidByInstance (me_Instance other))) online.

Definition selectQuorumSurvivor (online : list GroupMember) (gtidByInstance : gmap string string) : option GroupMember :=
  match online with
  | [] => None
  | [m] => Some m
  | _ =>
      match List.find (fun m => String.eqb (me_Role m) MemberRolePrimary) online with
      | Some m => Some m
      | None =>
          List.find (fun candidate =>
            let candidateGTID := gtid_of gtidByInstance (me_Instance candidate) in
            negb (String.eqb candidateGTID "") && dominatesAll candidate candidateGTID online gtidByInstance) online
      end
  end.

Definition gtidDominatesAll (candidateGTID : string) (names : list string) (candidate : string)
    (gtidByInstance : gmap string string) : bool :=
  forallb (fun other => String.eqb other candidate || proves candidateGTID (gtid_of gtidByInstance other)) names.

Definition selectRebootstrapSurvivor (gtidByInstance : gmap string string) (configured : Z) : option string :=
  if (configured <=? 0) || (Z.of_nat (size gtidByInstance) <? configured) then None
  else
    let names := isort String.leb (fst <$> map_to_list gtidByInstance) in
    List.find (fun candidate =>
      let candidateGTID := gtid_of gtidByInstance candidate in
      negb (String.eqb candidateGTID "") && gtidDominatesAll candidateGTID names candidate gtidByInstance) names.

Definition computeRebootstrap (c : GroupCluster) (gtidByInstance : gmap string string) : option ForceQuorumRecovery :=
  survivor ← selectRebootstrapSurvivor gtidByInstance (gc_Instances c);
  Some (mkForceQuorumRecovery QuorumRecoveryRebootstrap survivor "").

Definition ComputeForceQuorumRecovery (c : GroupCluster) (gtidByInstance : gmap string string) : option ForceQuorumRecovery :=
  match gc_GroupReplication c with
  | None => None
  | Some gr =>
      if gr_HasQuorum gr then None
      else
        match List.filter online (gr_Members gr) with
        | [] =>
            if negb (String.eqb (gc_CurrentPrimary c) "")
            then Some (mkForceQuorumRecovery QuorumRecoveryRebootstrap (gc_CurrentPrimary c) "")
            else computeRebootstrap c gtidByInstance
        | survivors =>
            survivor ← selectQuorumSurvivor survivors gtidByInstance;
            Some (mkForceQuorumRecovery QuorumRecoveryForceMembers (me_Instance survivor)
                    (memberAddress (me_Instance survivor) (gc_Namespace c)))
        end
  end.

(** ** Lemmas *)

Lemma count_cons {A} (p : A -> bool) x l : count p (x :: l) = (if p x then 1 else 0) + count p l.
Proof. unfold count. cbn. destruct (p x); cbn [length]; lia. Qed.

Lemma count_nonneg {A} (p : A -> bool) l : 0 <= count p l.
Proof. unfold count. lia. Qed.

Lemma count_split {A} (p q : A -> bool) l : count p l = count (fun x => p x && q x) l + count (fun x => p x && negb (q x)) l.
Proof. induction l as [|x l IH]; [done|]. rewrite !count_cons, IH. destruct (p x), (q x); cbn; lia. Qed.

(** Distinct names of one list that occur in another are at most as many. *)
Lemma count_names {A} (f : A -> string) (p : A -> bool) (l : list A) (names : list string) (q : string -> bool) :
  NoDup (f <$> l) -> (forall x, x ∈ l -> p x = true -> f x ∈ names /\ q (f x) = true) -> count p l <= count q names.
Proof.
  intros Hnd Hin. unfold count. apply Nat2Z.inj_le. rewrite <- (length_fmap f (List.filter p l)). apply submseteq_length, NoDup_submseteq.
  - clear Hin. induction l as [|x l IH]; cbn; [done|]. rewrite fmap_cons, NoDup_cons in Hnd. destruct Hnd as [Hx Hnd].
    destruct (p x); [|by apply IH]. cbn. apply NoDup_cons. split; [|by apply IH].
    intros (y & Hy & [Hyl _]%elem_of_filter_bool)%list_elem_of_fmap. apply Hx. rewrite Hy. by apply list_elem_of_fmap_2.
  - intros n (x & -> & [Hx Hp]%elem_of_filter_bool)%list_elem_of_fmap. apply elem_of_filter_bool. by apply Hin.
Qed.

Lemma quorum_majority n : 1 <= n -> n < 2 * quorum n /\ 2 * (quorum n - 1) <= n /\ quorum n <= n.
Proof.
  intros Hn. unfold quorum. destruct (Z.leb_spec n 0); [lia|]. rewrite Z.quot_div_nonneg by lia.
  pose proof (Z.div_mod n 2). pose proof (Z.mod_pos_bound n 2). lia.
Qed.

Definition fenced (fenceSet : list string) (m : GroupMember) : bool := existsb (String.eqb (me_Instance m)) fenceSet.

Lemma fence_count members fenceSet :
  NoDup (me_Instance <$> members) ->
  count active members - count (fun name => existsb (fun m => String.eqb (me_Instance m) name) members) fenceSet <=
  count (fun m => active m && negb (fenced fenceSet m)) members.
Proof.
  intros Hnd. rewrite (count_split active (fenced fenceSet) members).
  enough (count (fun m => active m && fenced fenceSet m) members <=
    count (fun name => existsb (fun m => String.eqb (me_Instance m) name) members) fenceSet) by lia.
  apply (count_names me_Instance); [done|]. intros m Hm [_ Hf]%andb_true_iff. unfold fenced in Hf.
  apply existsb_exists in Hf as (n & Hn & <-%String.eqb_eq). rewrite list_elem_of_In. split; [done|].
  apply existsb_exists. exists m. split; [by apply list_elem_of_In|apply String.eqb_refl].
Qed.

(** The first position holds every transaction of the second. *)
Definition ahead (a b : string) : Prop :=
  exists A B, ParseGTIDSet a = Ok A /\ ParseGTIDSet b = Ok B /\ forall u n, gtid_in B u n -> gtid_in A u n.

Lemma proves_ahead a b : proves a b = true -> ahead a b.
Proof.
  unfold proves, GTIDContains. destruct (ParseGTIDSet a) as [A|] eqn:EA; [|done]. destruct (ParseGTIDSet b) as [B|] eqn:EB; [|done].
  cbn. intros Hc. exists A, B. split_and!; [done..|]. apply GTIDSet_Contains_spec; eauto using ParseGTIDSet_wf with gtid.
Qed.

(** ** Polling *)

(** The instance is ONLINE in a view whose majority is, and names the primary. *)
Definition ballot (input : GroupInput) (name : string) : option string :=
  match gi_StatusByInstance input !! name with
  | None => None
  | Some group =>
      if negb (String.eqb (gs_State group) MemberStateOnline) then None
      else
        let '(onlineCount, primaryID) := view_loop (gs_Members group) 0 "" in
        if onlineCount * 2 <=? Z.of_nat (length (gs_Members group)) then None else Some primaryID
  end.
Definition votes_for (input : GroupInput) (id name : string) : bool :=
  match ballot input name with Some p => String.eqb p id | None => false end.

Lemma poll_votes input names view votes maxView view' votes' maxView' :
  poll input names view votes maxView = (view', votes', maxView') ->
  (forall id, id <> "" -> default 0 (votes' !! id) = default 0 (votes !! id) + count (votes_for input id) names) /\
  (votes !! "" = None -> votes' !! "" = None) /\ maxView <= maxView'.
Proof.
  revert view votes maxView. induction names as [|name names IH]; intros view votes maxView; cbn [poll].
  { intros [= <- <- <-]. split_and!; [|done|lia]. intros id _. unfold count. cbn. lia. }
  assert (forall id, count (votes_for input id) (name :: names) =
    (match ballot input name with Some p => if String.eqb p id then 1 else 0 | None => 0 end) + count (votes_for input id) names) as Hc.
  { intros id. rewrite count_cons. unfold votes_for. by destruct (ballot input name). }
  unfold ballot in Hc. destruct (gi_StatusByInstance input !! name) as [group|].
  2: { intros (H1 & H2 & H3)%IH. split_and!; [|done..]. intros id Hid. rewrite Hc, H1 by done. lia. }
  destruct (negb (String.eqb (gs_State group) MemberStateOnline)).
  { intros (H1 & H2 & H3)%IH. split_and!; [|done..]. intros id Hid. rewrite Hc, H1 by done. lia. }
  destruct (view_loop (gs_Members group) 0 "") as [n p]. destruct (n * 2 <=? Z.of_nat (length (gs_Members group))).
  { intros (H1 & H2 & H3)%IH. split_and!; [|done..]. intros id Hid. rewrite Hc, H1 by done. lia. }
  intros (H1 & H2 & H3)%IH. destruct (String.eqb_spec p "") as [->|Hp]; cbn [negb] in *.
  - split_and!; [|done|lia]. intros id Hid. rewrite Hc, H1 by done. destruct (String.eqb_spec "" id); [congruence|]. lia.
  - split_and!; [| |lia].
    + intros id Hid. rewrite Hc, H1 by done. unfold vote. destruct (String.eqb_spec p id) as [->|Hne].
      * rewrite lookup_insert_eq. cbn. lia.
      * rewrite lookup_insert_ne by done. lia.
    + intros H0. apply H2. unfold vote. by rewrite lookup_insert_ne.
Qed.

(** An instance votes once. *)
Lemma ballots_disjoint input id id' names :
  id <> id' ->
  count (votes_for input id) names + count (votes_for input id') names <=
  count (fun n => bool_decide (is_Some (ballot input n))) names.
Proof.
  intros Hne. induction names as [|n ns IH]; [done|]. rewrite !count_cons.
  enough ((if votes_for input id n then 1 else 0) + (if votes_for input id' n then 1 else 0) <=
    (if bool_decide (is_Some (ballot input n)) then 1 else 0)) by lia.
  unfold votes_for. destruct (ballot input n) as [q|]; cbn; [|lia].
  destruct (String.eqb_spec q id), (String.eqb_spec q id'); subst; try done; lia.
Qed.

(** ** Properties *)

(** the quorum guards keep a majority: quorum is the least majority; the
    disruption budget leaves exactly a quorum of members; fencing is allowed only
    when at least a quorum of active members stays unfenced; and scaling down is
    refused exactly at the last member. *)
Theorem quorum_guards_keep_majority c :
  let n := gc_Instances c in
  (1 <= n -> n < 2 * quorum n /\ 2 * (quorum n - 1) <= n) /\
  (1 <= n <= MaxInt32 -> n - fst (PDBMaxUnavailable c) = quorum n) /\
  (forall gr fenceSet, gc_GroupReplication c = Some gr -> NoDup (me_Instance <$> gr_Members gr) ->
     FenceQuorumGuard c fenceSet = None ->
     quorum n <= count (fun m => active m && negb (fenced fenceSet m)) (gr_Members gr)) /\
  (is_Some (ScaleDownQuorumGuard c) <-> n <= 1).
Proof.
  intros n. split_and!.
  - intros Hn. destruct (quorum_majority n Hn) as (? & ? & ?). lia.
  - intros Hn. destruct (quorum_majority n ltac:(lia)) as (? & ? & ?). unfold PDBMaxUnavailable, MaxInt32 in *. cbn. fold n. lia.
  - intros gr fenceSet Hgr Hnd. unfold FenceQuorumGuard. rewrite Hgr. fold n. pose proof (fence_count (gr_Members gr) fenceSet Hnd).
    destruct (Z.ltb_spec (count active (gr_Members gr) - count (fun name => existsb (fun m => String.eqb (me_Instance m) name) (gr_Members gr)) fenceSet) (quorum n)); [done|]. lia.
  - unfold ScaleDownQuorumGuard. fold n. destruct (Z.leb_spec n 1) as [Hn|Hn]; [split; [lia|eauto]|].
    destruct (quorum_majority (n - 1) ltac:(lia)) as (_ & _ & Hq). destruct (Z.ltb_spec (n - 1) (quorum (n - 1))); [lia|].
    split; [by intros [? ?]|lia].
Qed.

(** What a recovery rests on. *)
Definition recovery_safe (c : GroupCluster) (gtidByInstance : gmap string string) (gr : GroupReplicationStatus)
    (r : ForceQuorumRecovery) : Prop :=
  match fq_Action r with
  | QuorumRecoveryForceMembers =>
      exists m, m ∈ gr_Members gr /\ online m = true /\ fq_Survivor r = me_Instance m /\
        fq_ForceMembers r = memberAddress (me_Instance m) (gc_Namespace c) /\
        (count online (gr_Members gr) = 1 \/ me_Role m = MemberRolePrimary \/
         (gtid_of gtidByInstance (me_Instance m) <> "" /\
          forall other, other ∈ gr_Members gr -> online other = true -> me_Instance other <> me_Instance m ->
            gtid_of gtidByInstance (me_Instance other) <> "" ->
            ahead (gtid_of gtidByInstance (me_Instance m)) (gtid_of gtidByInstance (me_Instance other))))
  | QuorumRecoveryRebootstrap =>
      count online (gr_Members gr) = 0 /\
      ((gc_CurrentPrimary c <> "" /\ fq_Survivor r = gc_CurrentPrimary c) \/
       (gc_CurrentPrimary c = "" /\ 0 < gc_Instances c <= Z.of_nat (size gtidByInstance) /\
        gtid_of gtidByInstance (fq_Survivor r) <> "" /\
        forall other raw, gtidByInstance !! other = Some raw -> other <> fq_Survivor r ->
          ahead (gtid_of gtidByInstance (fq_Survivor r)) raw))
  end.

Lemma dominatesAll_ahead m g members byInstance other :
  dominatesAll m g members byInstance = true -> other ∈ members -> me_Instance other <> me_Instance m ->
  gtid_of byInstance (me_Instance other) <> "" -> ahead g (gtid_of byInstance (me_Instance other)).
Proof.
  unfold dominatesAll. rewrite forallb_forall. intros Hall Hin%list_elem_of_In Hne Hknown. specialize (Hall other Hin).
  rewrite !orb_true_iff, !String.eqb_eq in Hall. destruct Hall as [[?|?]|Hp]; [done..|by apply proves_ahead].
Qed.

Lemma find_elem {A} (p : A -> bool) l x : List.find p l = Some x -> x ∈ l /\ p x = true.
Proof. intros [Hin Hp]%List.find_some. by rewrite list_elem_of_In. Qed.

Lemma selectQuorumSurvivor_safe members byInstance m :
  selectQuorumSurvivor members byInstance = Some m ->
  m ∈ members /\
  (length members = 1%nat \/ me_Role m = MemberRolePrimary \/
   (gtid_of byInstance (me_Instance m) <> "" /\
    forall other, other ∈ members -> me_Instance other <> me_Instance m -> gtid_of byInstance (me_Instance other) <> "" ->
      ahead (gtid_of byInstance (me_Instance m)) (gtid_of byInstance (me_Instance other)))).
Proof.
  unfold selectQuorumSurvivor. destruct members as [|x [|y members]]; [done|intros [= ->]; split; [left|by left]|].
  set (ms := x :: y :: members). clearbody ms. destruct (List.find _ ms) as [p|] eqn:Ef.
  - intros [= ->]. apply find_elem in Ef as [Hin Hr%String.eqb_eq]. split; [done|]. by right; left.
  - intros [Hin Hd]%find_elem. boolp. split; [done|]. right; right. split; [done|]. intros other Ho Hne Hk. by eapply dominatesAll_ahead.
Qed.

Lemma selectRebootstrapSurvivor_safe byInstance configured s :
  selectRebootstrapSurvivor byInstance configured = Some s ->
  0 < configured <= Z.of_nat (size byInstance) /\ gtid_of byInstance s <> "" /\
  forall other raw, byInstance !! other = Some raw -> other <> s -> ahead (gtid_of byInstance s) raw.
Proof.
  unfold selectRebootstrapSurvivor. destruct (_ || _) eqn:Eg; [done|]. boolp. intros [_ Hd]%find_elem. boolp.
  split; [lia|]. split; [done|]. intros other raw Hraw Hne. match goal with Hx : gtidDominatesAll _ _ _ _ = true |- _ => rename Hx into Hall end.
  unfold gtidDominatesAll in Hall. rewrite forallb_forall in Hall. specialize (Hall other). rewrite orb_true_iff, String.eqb_eq in Hall.
  destruct Hall as [?|Hp]; [|done|].
  - apply list_elem_of_In. rewrite isort_perm. apply list_elem_of_fmap. exists (other, raw). split; [done|]. by apply elem_of_map_to_list.
  - apply proves_ahead in Hp. unfold gtid_of in Hp at 2. by rewrite Hraw in Hp.
Qed.

(** A group is re-formed only when it has lost its quorum: from an ONLINE member that
    is the only one, the primary, or whose transactions include those of every other
    ONLINE member of known position; after a total outage from the recorded primary
    whatever its position, or when there is none from a member whose transactions
    include those of every instance, of which as many as are configured must have
    answered. *)
Theorem quorum_recovery_is_safe c gtidByInstance r :
  ComputeForceQuorumRecovery c gtidByInstance = Some r ->
  exists gr, gc_GroupReplication c = Some gr /\ gr_HasQuorum gr = false /\ recovery_safe c gtidByInstance gr r.
Proof.
  unfold ComputeForceQuorumRecovery. destruct (gc_GroupReplication c) as [gr|]; [|done]. destruct (gr_HasQuorum gr) eqn:Eq; [done|].
  intros Hrun. exists gr. split_and!; [done..|]. unfold recovery_safe, count.
  destruct (List.filter online (gr_Members gr)) as [|x xs] eqn:Eo.
  - destruct (String.eqb_spec (gc_CurrentPrimary c) "") as [Hp|Hp]; cbn [negb] in Hrun.
    + unfold computeRebootstrap in Hrun. destruct (selectRebootstrapSurvivor _ _) as [s|] eqn:Es; [|done]. injection Hrun as <-. cbn.
      split; [done|]. right. split; [done|]. by apply selectRebootstrapSurvivor_safe.
    + injection Hrun as <-. cbn. split; [done|]. by left.
  - destruct (selectQuorumSurvivor (x :: xs) gtidByInstance) as [m|] eqn:Es; [|done]. injection Hrun as <-. cbn [fq_Action fq_Survivor fq_ForceMembers].
    apply selectQuorumSurvivor_safe in Es as [Hin Hwhy]. rewrite <- Eo in Hin. apply elem_of_filter_bool in Hin as [Hin Hon].
    exists m. split_and!; [done..|]. destruct Hwhy as [Hl|[Hr|[Hk Hall]]]; [left; cbn in *; lia|by right; left|].
    right; right. split; [done|]. intros other Ho Hoo. apply Hall. rewrite <- Eo. by apply elem_of_filter_bool.
Qed.

(** the merged status is honest about quorum: a group is quorate exactly when
    more than half of its recorded size is ONLINE, that size never exceeds the
    configured one, and a group that was quorate shrinks on record only with its
    configuration, so it stays quorate only while more than half of what it was is
    ONLINE.  The group's name and the fact that it was bootstrapped are kept, and the
    generation of the primary grows by one exactly when another primary is named. *)
Theorem group_status_is_honest c observed :
  exists gr, gc_GroupReplication (MergeStatus c observed) = Some gr /\
    (0 < gr_ObservedViewMax gr ->
       gr_HasQuorum gr = true <-> gr_ObservedViewMax gr < 2 * count online (gr_Members gr)) /\
    (gr_ObservedViewMax gr <= 0 -> gr_HasQuorum gr = false) /\
    (0 < gc_Instances c -> gr_ObservedViewMax gr <= gc_Instances c) /\
    (forall e, gc_GroupReplication c = Some e ->
       gr_GroupName gr = gr_GroupName e /\ (gr_Bootstrapped e = true -> gr_Bootstrapped gr = true) /\
       (0 < gc_Instances c -> gr_HasQuorum e = true -> 0 < gr_ObservedViewMax e ->
          Z.min (gr_ObservedViewMax e) (gc_Instances c) <= gr_ObservedViewMax gr /\
          (gr_HasQuorum gr = true -> Z.min (gr_ObservedViewMax e) (gc_Instances c) < 2 * count online (gr_Members gr)))) /\
    gc_CurrentPrimaryGeneration (MergeStatus c observed) =
      gc_CurrentPrimaryGeneration c + (if String.eqb (gc_CurrentPrimary (MergeStatus c observed)) (gc_CurrentPrimary c) then 0 else 1).
Proof.
  assert (forall v k : Z, (0 < v -> (if 0 <? v then v <? k * 2 else false) = true <-> v < 2 * k) /\
    (v <= 0 -> (if 0 <? v then v <? k * 2 else false) = false)) as Hq.
  { intros v k. destruct (Z.ltb_spec 0 v); (split; [|lia || done]); intros; [rewrite Z.ltb_lt|]; lia. }
  unfold MergeStatus. destruct observed as [s|]; eexists; (split; [reflexivity|]);
    cbn [gr_ObservedViewMax gr_HasQuorum gr_Members gr_GroupName gr_Bootstrapped gc_CurrentPrimaryGeneration gc_CurrentPrimary];
    (split; [apply Hq|split; [apply Hq|split; [intros Hn; destruct (Z.ltb_spec 0 (gc_Instances c)); lia|split]]]).
  - intros e ->. cbn [from_option id]. split_and!; [done|intros ->; done|]. intros Hn Hqe Hve. rewrite Hqe. cbn [negb andb].
    destruct (Z.ltb_spec 0 (gc_Instances c)); [|lia]. split; [lia|].
    destruct (Z.ltb_spec 0 (Z.min (Z.max (gr_ObservedViewMax e) (gr_ObservedViewMax s)) (gc_Instances c))); [|done]. rewrite Z.ltb_lt. cbn. lia.
  - destruct (String.eqb_spec (gr_PrimaryMember s) ""); cbn [negb andb]; [by rewrite String.eqb_refl; lia|].
    rewrite (String.eqb_sym (gr_PrimaryMember s)). destruct (String.eqb (gc_CurrentPrimary c) (gr_PrimaryMember s)); cbn; lia.
  - intros e ->. cbn [from_option id]. split_and!; [done..|]. intros Hn Hqe Hve. destruct (Z.ltb_spec 0 (gc_Instances c)); [|lia].
    split; [lia|]. destruct (Z.ltb_spec 0 (Z.min (gr_ObservedViewMax e) (gc_Instances c))); [|done]. rewrite Z.ltb_lt. unfold count. cbn. lia.
  - rewrite String.eqb_refl. lia.
Qed.

(** the primary of the group is the one a majority names: more instances than
    half of the largest view are ONLINE, each in a view whose majority is ONLINE and
    whose only ONLINE primary is that member; and as long as no more instances vote
    than the largest view has members, no other member has such a majority. *)
Theorem group_primary_has_majority input s primary :
  observeGroup input = (Some s, primary) -> primary <> "" ->
  exists id, uuidToInstance input !! id = Some primary /\
    gr_ObservedViewMax s < 2 * count (votes_for input id) (gi_InstanceNames input) /\
    (count (fun n => bool_decide (is_Some (ballot input n))) (gi_InstanceNames input) <= gr_ObservedViewMax s ->
     forall id', gr_ObservedViewMax s < 2 * count (votes_for input id') (gi_InstanceNames input) -> id' = id).
Proof.
  unfold observeGroup. destruct (poll input (gi_InstanceNames input) None ∅ 0) as [[[view|] votes] maxView] eqn:Ep; [|done].
  intros [= <- <-] Hne. cbn [gr_ObservedViewMax]. apply poll_votes in Ep as (Hv & H0 & _).
  destruct (List.find _ (map_to_list votes)) as [[id k]|] eqn:Ef; cbn [fst] in Hne.
  2: { exfalso. apply Hne. destruct (uuidToInstance input !! "") eqn:E; [|done]. exfalso. unfold uuidToInstance in E.
       apply elem_of_list_to_map_2 in E. apply list_elem_of_fmap in E as ([i g] & [= Hid _] & [_ Hx]%elem_of_filter_bool). cbn in Hx.
       by rewrite <- Hid in Hx. }
  apply find_elem in Ef as [Hin%elem_of_map_to_list Hk%Z.ltb_lt]. cbn in Hk.
  destruct (uuidToInstance input !! id) as [p|] eqn:Ei; [|done]. exists id.
  assert (id <> "") as Hid. { intros ->. rewrite H0 in Hin; [done|apply lookup_empty]. }
  specialize (Hv id Hid) as Hvid. rewrite Hin, lookup_empty in Hvid. cbn in Hvid.
  cbn [fst]. rewrite Ei. split_and!; [done|lia|]. intros Hfew id' Hid'. destruct (decide (id' = id)) as [|Hdiff]; [done|]. exfalso.
  pose proof (ballots_disjoint input id id' (gi_InstanceNames input) ltac:(congruence)). lia.
Qed.

(** ** A sample group *)

Module SampleGroup.
Definition member (name role : string) : GroupMember := mkGroupMember name "ONLINE" role true.
Definition status (quorate : bool) (members : list GroupMember) : GroupReplicationStatus :=
  mkGroupReplicationStatus "g" true "" members quorate 5 5 "v" "8" "".
Definition cluster : GroupCluster :=
  mkGroupCluster "ns" 5 "" 1 "" (Some (status false [member "c-0" "SECONDARY"; member "c-1" "SECONDARY"])).
Definition gtids : gmap string string := {["c-0" := "a:1-5"; "c-1" := "a:1-7"]}.

Definition row (id role : string) : GroupReplicationMember := mkGroupReplicationMember id id "ONLINE" role.
Definition view (id : string) : GroupReplicationMemberStatus :=
  mkGroupReplicationMemberStatus id "ONLINE" "v" "8" [row "u0" "PRIMARY"; row "u1" "SECONDARY"; row "u2" "SECONDARY"].
Definition input : GroupInput :=
  mkGroupInput ["c-0"; "c-1"; "c-2"] {["c-0" := view "u0"; "c-1" := view "u1"; "c-2" := view "u2"]} 3 3.
End SampleGroup.

Lemma quorum_recovery_is_safe_witness :
  exists gr r, ComputeForceQuorumRecovery SampleGroup.cluster SampleGroup.gtids = Some r /\ fq_Survivor r = "c-1" /\
    recovery_safe SampleGroup.cluster SampleGroup.gtids gr r.
Proof.
  destruct (quorum_recovery_is_safe SampleGroup.cluster SampleGroup.gtids
    (mkForceQuorumRecovery QuorumRecoveryForceMembers "c-1" "c-1.ns.svc:33061") ltac:(vm_compute; reflexivity)) as (gr & _ & _ & Hs).
  eexists gr, _. split; [vm_compute; reflexivity|]. split; [reflexivity|exact Hs].
Defined.

Lemma group_primary_has_majority_witness :
  snd (observeGroup SampleGroup.input) = "c-0" /\
  exists id, uuidToInstance SampleGroup.input !! id = Some "c-0" /\
    3 < 2 * count (votes_for SampleGroup.input id) (gi_InstanceNames SampleGroup.input).
Proof.
  split; [vm_compute; reflexivity|].
  destruct (group_primary_has_majority SampleGroup.input (default GroupReplicationStatus_zero (fst (observeGroup SampleGroup.input))) "c-0")
    as (id & Hid & Hv & _).
  - vm_compute. reflexivity.
  - discriminate.
  - exists id. split; [exact Hid|exact Hv].
Defined.
