(* ===== verification/Versions.v ===== *)
(** * Server versions and upgrade paths

    [pkg/management/mysql/version/version.go] and the version facet of
    [pkg/engine/engine.go]: parsing a server version, the features each version
    has, and which upgrades are allowed.

    The theorem shows that both engines allow exactly the upgrades that stay in
    one release series or move to the next one of their chain. *)

From Stdlib Require Import ZArith Lia Bool Ascii String.
From stdpp Require Import base list strings.
From S2P Require Import Prelude GoStrings.

Local Open Scope Z_scope.

(** ** Versions *)

Record Version := mkVersion { v_Major : Z; v_Minor : Z; v_Patch : Z }.

#[export] Instance Version_eq_dec : EqDecision Version.
Proof. solve_decision. Defined.

Definition trim_v (v : string) : string := match v with String "v" v' => v' | _ => v end.

Definition parse_part (parts : list string) (i : nat) : result Z :=
  match parts !! i with
  | None => Ok 0
  | Some p => match ParseInt p with Some n => Ok n | None => Err (Errorf "invalid MySQL version") end
  end.

Definition Parse (v : string) : result Version :=
  let v := trim_v (TrimSpace v) in
  if String.eqb v "" then Err (Errorf "empty MySQL version")
  else
    let '(v, _, _) := Cut v "-" in
    let parts := Split v "." in
    let? major := parse_part parts 0 in
    let? minor := parse_part parts 1 in
    let? patch := parse_part parts 2 in
    Ok (mkVersion major minor patch).

Definition Series (v : Version) : Version := mkVersion (v_Major v) (v_Minor v) 0.

Definition AtLeast (v : Version) (major minor patch : Z) : bool :=
  if negb (v_Major v =? major) then major <? v_Major v
  else if negb (v_Minor v =? minor) then minor <? v_Minor v
  else patch <=? v_Patch v.

Definition UsesReplicaTerminology (v : Version) : bool := AtLeast v 8 0 23.
Definition HasSuperReadOnly (v : Version) : bool := AtLeast v 5 7 8.
Definition HasGetSourcePublicKey (v : Version) : bool := AtLeast v 5 7 23.
Definition HasLogReplicaUpdates (v : Version) : bool := AtLeast v 8 0 0.
Definition HasAdminInterface (v : Version) : bool := AtLeast v 8 0 14.
Definition UsesResetBinaryLogsAndGtids (v : Version) : bool := AtLeast v 8 4 0.
Definition SupportsGroupReplication (v : Version) : bool := AtLeast v 8 0 22.
Definition HasGroupReplicationClone (v : Version) : bool := AtLeast v 8 0 17.
Definition GroupReplicationDefaultsToMySQLStack (v : Version) : bool := AtLeast v 26 7 0.
Definition GroupReplicationRequiresNoBinlogChecksum (v : Version) : bool := negb (AtLeast v 8 0 21).
Definition usesSourceSemiSyncNaming (v : Version) : bool := AtLeast v 8 0 26.

Record SemiSyncNaming := mkSemiSyncNaming {
  ss_EnabledVarSource : string;
  ss_EnabledVarReplica : string;
  ss_WaitForCountVar : string;
  ss_TimeoutVar : string;
  ss_WaitPointVar : string;
  ss_PluginSource : string;
  ss_PluginReplica : string;
  ss_LibSource : string;
  ss_LibReplica : string
}.

Definition SemiSync (v : Version) : SemiSyncNaming :=
  if usesSourceSemiSyncNaming v then
    mkSemiSyncNaming "rpl_semi_sync_source_enabled" "rpl_semi_sync_replica_enabled"
      "rpl_semi_sync_source_wait_for_replica_count" "rpl_semi_sync_source_timeout" ""
      "rpl_semi_sync_source" "rpl_semi_sync_replica" "semisync_source.so" "semisync_replica.so"
  else
    mkSemiSyncNaming "rpl_semi_sync_master_enabled" "rpl_semi_sync_slave_enabled"
      "rpl_semi_sync_master_wait_for_slave_count" "rpl_semi_sync_master_timeout" ""
      "rpl_semi_sync_master" "rpl_semi_sync_slave" "semisync_master.so" "semisync_slave.so".

Definition mariadbSemiSyncNaming : SemiSyncNaming :=
  mkSemiSyncNaming "rpl_semi_sync_master_enabled" "rpl_semi_sync_slave_enabled" "" "rpl_semi_sync_master_timeout"
    "rpl_semi_sync_master_wait_point" "" "" "" "".

(** ** Engines *)

Inductive Engine := mysqlEngine | mariadbEngine.

#[export] Instance Engine_eq_dec : EqDecision Engine.
Proof. solve_decision. Defined.

Definition Flavor (e : Engine) : string := match e with mysqlEngine => "mysql" | mariadbEngine => "mariadb" end.
Definition engine_HasSuperReadOnly (e : Engine) : bool := match e with mysqlEngine => true | mariadbEngine => false end.
Definition SemiSyncIsPlugin (e : Engine) : bool := match e with mysqlEngine => true | mariadbEngine => false end.

(** ** Upgrades *)

Definition UpgradeSeriesChain : list Version := [mkVersion 8 0 0; mkVersion 8 4 0; mkVersion 9 7 0].
Definition mariadbUpgradeChain : list Version := [mkVersion 10 11 0; mkVersion 11 4 0; mkVersion 12 3 0].

(** The first position of [s], counted from [i]; [-1] if none. *)
Fixpoint index_from (i : Z) (chain : list Version) (s : Version) : Z :=
  match chain with
  | [] => -1
  | entry :: chain' => if bool_decide (entry = s) then i else index_from (i + 1) chain' s
  end.

Definition seriesIndex (v : Version) : Z := index_from 0 UpgradeSeriesChain (Series v).

(** The order of the refusals; [next] is [UpgradeSeriesChain[fromIdx+1]], read
    only to name it in the message. *)
Definition refuse (fromIdx toIdx : Z) : result unit :=
  if fromIdx =? -1 then Err (Errorf "unsupported source MySQL series")
  else if toIdx =? -1 then Err (Errorf "unsupported target MySQL series")
  else if toIdx <? fromIdx then Err (Errorf "downgrade is not supported")
  else if fromIdx + 1 <? toIdx then Err (Errorf "cannot upgrade directly")
  else Ok tt.

Definition CheckUpgrade (from to : Version) : result unit :=
  if bool_decide (Series from = Series to) then Ok tt else refuse (seriesIndex from) (seriesIndex to).

(** One loop finds both positions, and keeps the last match. *)
Fixpoint last_index (i : Z) (chain : list Version) (s : Version) (found : Z) : Z :=
  match chain with
  | [] => found
  | e :: chain' => last_index (i + 1) chain' s (if bool_decide (e = s) then i else found)
  end.

Definition checkUpgradeChain (from to : Version) (chain : list Version) : result unit :=
  if bool_decide (Series from = Series to) then Ok tt
  else refuse (last_index 0 chain (Series from) (-1)) (last_index 0 chain (Series to) (-1)).

Definition engine_CheckUpgrade (e : Engine) (from to : Version) : result unit :=
  match e with
  | mysqlEngine => CheckUpgrade from to
  | mariadbEngine => checkUpgradeChain from to mariadbUpgradeChain
  end.

Definition engine_UpgradeChain (e : Engine) : list Version :=
  match e with mysqlEngine => UpgradeSeriesChain | mariadbEngine => mariadbUpgradeChain end.

Definition SeriesFlavor (series : Version) : option string :=
  Flavor <$> List.find (fun e => existsb (fun s => v_Major s =? v_Major series) (engine_UpgradeChain e)) [mysqlEngine; mariadbEngine].

(** ** Lemmas *)

Lemma index_from_spec chain s i :
  0 <= i ->
  (index_from i chain s = -1 /\ s ∉ chain) \/
  exists k, index_from i chain s = i + Z.of_nat k /\ chain !! k = Some s.
Proof.
  revert i. induction chain as [|e chain IH]; intros i Hi; cbn; [left; split; [done|apply not_elem_of_nil]|].
  case_bool_decide as E; [right; exists 0%nat; split; [lia|by cbn; f_equal]|].
  destruct (IH (i + 1)) as [[H1 H2]|(k & H1 & H2)]; [lia| |].
  - left. split; [done|]. rewrite not_elem_of_cons. split; [congruence|done].
  - right. exists (S k). split; [lia|done].
Qed.

Lemma last_index_spec chain s i found :
  last_index i chain s found = found /\ s ∉ chain \/
  exists k, last_index i chain s found = i + Z.of_nat k /\ chain !! k = Some s.
Proof.
  revert i found. induction chain as [|e chain IH]; intros i found; cbn; [left; split; [done|apply not_elem_of_nil]|].
  destruct (IH (i + 1) (if bool_decide (e = s) then i else found)) as [[H1 H2]|(k & H1 & H2)].
  - rewrite H1. case_bool_decide as E.
    + right. exists 0%nat. split; [lia|by cbn; f_equal].
    + left. split; [done|]. rewrite not_elem_of_cons. split; [congruence|done].
  - right. exists (S k). split; [lia|done].
Qed.

(** Adjacent in [chain]. *)
Definition hop (chain : list Version) (a b : Version) : Prop := exists i, chain !! i = Some a /\ chain !! S i = Some b.

(** Both searches end in positions of the series, or say it is not there. *)
Definition located (chain : list Version) (s : Version) (i : Z) : Prop :=
  (i = -1 /\ s ∉ chain) \/ exists k, i = Z.of_nat k /\ chain !! k = Some s.

Lemma refuse_ok chain a b i j :
  NoDup chain -> a <> b -> located chain a i -> located chain b j -> refuse i j = Ok tt <-> hop chain a b.
Proof.
  intros Hnd Hne Ha Hb. unfold refuse, hop.
  destruct Ha as [[-> Ha]|(k & -> & Ha)].
  { cbn. split; [done|]. intros (n & H & _). by apply list_elem_of_lookup_2 in H. }
  rewrite (proj2 (Z.eqb_neq _ _)) by lia.
  destruct Hb as [[-> Hb]|(l & -> & Hb)].
  { cbn. split; [done|]. intros (n & _ & H). by apply list_elem_of_lookup_2 in H. }
  rewrite (proj2 (Z.eqb_neq (Z.of_nat l) _)) by lia. split.
  - destruct (Z.ltb_spec (Z.of_nat l) (Z.of_nat k)); [done|]. destruct (Z.ltb_spec (Z.of_nat k + 1) (Z.of_nat l)); [done|]. intros _.
    assert (l = k \/ l = S k) as [->| ->] by lia; [congruence|]. by exists k.
  - intros (n & H1 & H2). assert (n = k) as -> by (by eapply NoDup_lookup). assert (S k = l) as <- by (by eapply NoDup_lookup).
    rewrite (proj2 (Z.ltb_ge _ _)), (proj2 (Z.ltb_ge _ _)) by lia. done.
Qed.

(** ** Theorem *)

(** an engine allows an upgrade exactly when it stays in one release series or
    moves to the very next series of that engine's chain: never back, never over a
    series, never to or from a series outside the chain. *)
Theorem upgrades_move_one_series e from to :
  engine_CheckUpgrade e from to = Ok tt <->
  Series from = Series to \/ hop (engine_UpgradeChain e) (Series from) (Series to).
Proof.
  assert (forall chain i j, NoDup chain -> located chain (Series from) i -> located chain (Series to) j ->
    (if bool_decide (Series from = Series to) then Ok tt else refuse i j) = Ok tt <->
    Series from = Series to \/ hop chain (Series from) (Series to)) as Hgen.
  { intros chain i j Hnd Hi Hj. case_bool_decide as E; [by split; [left|]|].
    rewrite (refuse_ok chain) by done. split; [by right|by intros [|]]. }
  unfold engine_CheckUpgrade, engine_UpgradeChain, CheckUpgrade, checkUpgradeChain. destruct e.
  - apply Hgen; [apply (bool_decide_unpack _); by vm_compute| |]; unfold located, seriesIndex.
    + destruct (index_from_spec UpgradeSeriesChain (Series from) 0) as [?|?]; [lia|by left|by right].
    + destruct (index_from_spec UpgradeSeriesChain (Series to) 0) as [?|?]; [lia|by left|by right].
  - apply Hgen; [apply (bool_decide_unpack _); by vm_compute| |]; unfold located.
    + destruct (last_index_spec mariadbUpgradeChain (Series from) 0 (-1)) as [?|?]; [by left|by right].
    + destruct (last_index_spec mariadbUpgradeChain (Series to) 0 (-1)) as [?|?]; [by left|by right].
Qed.

Example parse_sample : Parse "v8.0.36-28" = Ok (mkVersion 8 0 36) /\ Parse "8.4" = Ok (mkVersion 8 4 0).
Proof. split; reflexivity. Qed.
