(* ===== verification/SqlText.v ===== *)
(** * SQL text

    The statement builders of [pkg/management/mysql/replication/statements.go] and
    [pkg/management/mysql/groupreplication/statements.go] with the dialects of
    [pkg/engine/engine_repl.go], and the quoting all builders share.

    [lex] is the specification the builders are held to: the documented lexical
    structure of a SQL statement (string literals with doubled quotes and, unless
    [NO_BACKSLASH_ESCAPES] is set, backslash escapes; backquoted identifiers; words;
    single-character punctuation).  The theorem shows that whatever a replication
    account, host or password contains, [CHANGE REPLICATION SOURCE TO] reads back as
    the clauses it was built from, each value one literal. *)

From Stdlib Require Import ZArith Lia Bool Ascii String.
From stdpp Require Import base list strings.
From S2P Require Import Prelude GoStrings Versions.

Local Open Scope Z_scope.
#[local] Arguments String.append : simpl nomatch.

(** ** Quoting *)

(** [strings.ReplaceAll] of one character. *)
Fixpoint ReplaceAll (s : string) (old : ascii) (new : string) : string :=
  match s with
  | EmptyString => EmptyString
  | String c s' => if Ascii.eqb c old then new +:+ ReplaceAll s' old new else String c (ReplaceAll s' old new)
  end.

Definition backslash : ascii := "092".
Definition apostrophe : ascii := "'".
Definition backquote : ascii := "`".
Definition str1 (c : ascii) : string := String c EmptyString.

Definition quote (s : string) : string :=
  let s := ReplaceAll s backslash (String backslash (str1 backslash)) in
  let s := ReplaceAll s apostrophe (String apostrophe (str1 apostrophe)) in
  str1 apostrophe +:+ s +:+ str1 apostrophe.

Definition quoteIdent (s : string) : string :=
  str1 backquote +:+ ReplaceAll s backquote (String backquote (str1 backquote)) +:+ str1 backquote.

Definition onOff (on : bool) : string := if on then "ON" else "OFF".

(** ** Replication statements *)

Record SourceOptions := mkSourceOptions {
  so_Host : string;
  so_Port : Z;
  so_User : string;
  so_Password : string;
  so_AutoPosition : bool;
  so_SSL : bool;
  so_SSLCA : string;
  so_SSLCert : string;
  so_SSLKey : string;
  so_ConnectRetry : Z;
  so_RetryCount : Z;
  so_GetPublicKey : bool
}.

Definition set_Host (o : SourceOptions) (host : string) : SourceOptions :=
  mkSourceOptions host (so_Port o) (so_User o) (so_Password o) (so_AutoPosition o) (so_SSL o) (so_SSLCA o) (so_SSLCert o)
    (so_SSLKey o) (so_ConnectRetry o) (so_RetryCount o) (so_GetPublicKey o).

Definition empty (s : string) : bool := String.eqb s "".
Definition mtls (opts : SourceOptions) : bool :=
  negb (empty (so_SSLCA opts)) && negb (empty (so_SSLCert opts)) && negb (empty (so_SSLKey opts)).

(** The clauses both flavors add, in order. *)
Definition source_clauses (prefix : string) (opts : SourceOptions) : list string :=
  let add suffix value := prefix +:+ suffix +:+ "=" +:+ value in
  [add "HOST" (quote (so_Host opts))] ++
  (if negb (so_Port opts =? 0) then [add "PORT" (FormatInt (so_Port opts))] else []) ++
  [add "USER" (quote (so_User opts))] ++
  (if negb (empty (so_Password opts)) then [add "PASSWORD" (quote (so_Password opts))] else []) ++
  (if negb (so_ConnectRetry opts =? 0) then [add "CONNECT_RETRY" (FormatInt (so_ConnectRetry opts))] else []) ++
  (if negb (so_RetryCount opts =? 0) then [add "RETRY_COUNT" (FormatInt (so_RetryCount opts))] else []) ++
  (if so_SSL opts || mtls opts then [add "SSL" "1"] else []) ++
  (if mtls opts then [add "SSL_CA" (quote (so_SSLCA opts)); add "SSL_CERT" (quote (so_SSLCert opts)); add "SSL_KEY" (quote (so_SSLKey opts))]
   else []).

Definition ChangeSourceStatement (v : Version) (opts : SourceOptions) : string :=
  let modern := UsesReplicaTerminology v in
  let verb := if modern then "CHANGE REPLICATION SOURCE TO" else "CHANGE MASTER TO" in
  let prefix := if modern then "SOURCE_" else "MASTER_" in
  let clauses := source_clauses prefix opts ++
    (if so_AutoPosition opts then [prefix +:+ "AUTO_POSITION=1"] else []) ++
    (if so_GetPublicKey opts && HasGetSourcePublicKey v
     then [if modern then "GET_SOURCE_PUBLIC_KEY=1" else "GET_MASTER_PUBLIC_KEY=1"] else []) in
  verb +:+ " " +:+ Join clauses ", ".

Definition MariaDBChangeSourceStatement (opts : SourceOptions) : string :=
  let clauses := source_clauses "MASTER_" opts ++ (if so_AutoPosition opts then ["MASTER_USE_GTID=current_pos"] else []) in
  "CHANGE MASTER TO" +:+ " " +:+ Join clauses ", ".

Definition StartReplicaStatement (v : Version) : string :=
  if UsesReplicaTerminology v then "START REPLICA" else "START SLAVE".
Definition StopReplicaStatement (v : Version) : string :=
  if UsesReplicaTerminology v then "STOP REPLICA" else "STOP SLAVE".
Definition ResetReplicaStatement (v : Version) (all : bool) : string :=
  let stmt := if UsesReplicaTerminology v then "RESET REPLICA" else "RESET SLAVE" in
  if all then stmt +:+ " ALL" else stmt.
Definition ShowReplicaStatusStatement (v : Version) : string :=
  if UsesReplicaTerminology v then "SHOW REPLICA STATUS" else "SHOW SLAVE STATUS".
Definition ResetBinaryLogsStatement (v : Version) : string :=
  if UsesResetBinaryLogsAndGtids v then "RESET BINARY LOGS AND GTIDS" else "RESET MASTER".
Definition SetGTIDPurgedStatement (gtidSet : string) : string := "SET GLOBAL gtid_purged = " +:+ quote gtidSet.
Definition SetReadOnlyStatement (on : bool) : string := "SET GLOBAL read_only = " +:+ onOff on.
Definition SetSuperReadOnlyStatement (on : bool) : string := "SET GLOBAL super_read_only = " +:+ onOff on.
Definition SetGlobalStatement (name value : string) : string := "SET GLOBAL " +:+ name +:+ " = " +:+ value.
Definition InstallSemiSyncSourceStatement (v : Version) : string :=
  "INSTALL PLUGIN " +:+ ss_PluginSource (SemiSync v) +:+ " SONAME " +:+ quote (ss_LibSource (SemiSync v)).
Definition InstallSemiSyncReplicaStatement (v : Version) : string :=
  "INSTALL PLUGIN " +:+ ss_PluginReplica (SemiSync v) +:+ " SONAME " +:+ quote (ss_LibReplica (SemiSync v)).

(** ** Dialects *)

Record Dialect := mkDialect {
  d_ChangeSource : SourceOptions -> string;
  d_StartReplica : string;
  d_StopReplica : string;
  d_ResetReplica : bool -> string;
  d_ShowReplicaStatus : string;
  d_ResetBinaryLogs : string;
  d_GTIDExecutedQuery : string;
  d_GTIDPurgedQuery : string;
  d_ServerIdentityQuery : string;
  d_SeedReplicaPosition : string -> string;
  d_SemiSyncNaming : SemiSyncNaming;
  d_HasSuperReadOnly : bool
}.

(** A dialect at the server version of its manager. *)
Definition mysqlReplDialect (v : Version) : Dialect :=
  mkDialect (ChangeSourceStatement v) (StartReplicaStatement v) (StopReplicaStatement v) (ResetReplicaStatement v)
    (ShowReplicaStatusStatement v) (ResetBinaryLogsStatement v) "SELECT @@GLOBAL.gtid_executed" "SELECT @@GLOBAL.gtid_purged"
    "SELECT @@GLOBAL.server_uuid" SetGTIDPurgedStatement (SemiSync v) true.

Definition mariadbReplDialect : Dialect :=
  mkDialect MariaDBChangeSourceStatement "START SLAVE" "STOP SLAVE" (fun all => if all then "RESET SLAVE ALL" else "RESET SLAVE")
    "SHOW SLAVE STATUS" "RESET MASTER" "SELECT @@gtid_current_pos" "" "SELECT @@GLOBAL.server_id"
    (fun pos => "SET GLOBAL gtid_slave_pos = " +:+ quote pos) mariadbSemiSyncNaming false.

Definition Repl (e : Engine) (v : Version) : Dialect :=
  match e with mysqlEngine => mysqlReplDialect v | mariadbEngine => mariadbReplDialect end.

(** ** Group replication statements *)

Definition RecoveryChannelName : string := "group_replication_recovery".
Definition StartGroupReplicationStatement : string := "START GROUP_REPLICATION".
Definition StopGroupReplicationStatement : string := "STOP GROUP_REPLICATION".
Definition ConfigureRecoveryChannelStatement (v : Version) (user password : string) : string :=
  let modern := UsesReplicaTerminology v in
  let verb := if modern then "CHANGE REPLICATION SOURCE TO" else "CHANGE MASTER TO" in
  let prefix := if modern then "SOURCE_" else "MASTER_" in
  let clauses := [prefix +:+ "USER=" +:+ quote user] ++
    (if negb (empty password) then [prefix +:+ "PASSWORD=" +:+ quote password] else []) in
  verb +:+ " " +:+ Join clauses ", " +:+ " FOR CHANNEL " +:+ quote RecoveryChannelName.
Definition ForceCloneStatement : string := "SET GLOBAL group_replication_clone_threshold = 1".
Definition ForceMembersStatement (addresses : list string) : string :=
  "SET GLOBAL group_replication_force_members = " +:+ quote (Join addresses ",").

(** ** Reading a statement *)

Inductive token := Word (s : string) | Str (s : string) | Id (s : string) | Sym (c : ascii).

Definition is_word (c : ascii) : bool :=
  let n := N_of_ascii c in
  is_digit c || ((65 <=? n) && (n <=? 90))%N || ((97 <=? n) && (n <=? 122))%N || Ascii.eqb c "_" || Ascii.eqb c "$".

(** The documented escapes; another character stands for itself. *)
Definition unescape (c : ascii) : string :=
  if Ascii.eqb c "0" then str1 "000"
  else if Ascii.eqb c "b" then str1 "008"
  else if Ascii.eqb c "n" then str1 "010"
  else if Ascii.eqb c "r" then str1 "013"
  else if Ascii.eqb c "t" then str1 "009"
  else if Ascii.eqb c "Z" then str1 "026"
  else if Ascii.eqb c "%" || Ascii.eqb c "_" then String backslash (str1 c)
  else str1 c.

(** Outside a quoted token with the word read so far, inside one, just after a
    quote that may be doubled, or after a backslash. *)
Inductive lexst :=
| Outside (w : string)
| Inside (q : ascii) (v : string)
| AfterQuote (q : ascii) (v : string)
| Escape (q : ascii) (v : string).

Definition flush (w : string) : list token := if empty w then [] else [Word w].
Definition close (q : ascii) (v : string) : token := if Ascii.eqb q apostrophe then Str v else Id v.

Definition lex_outside (next : lexst -> option (list token)) (w : string) (c : ascii) : option (list token) :=
  if is_word c then next (Outside (w +:+ str1 c))
  else
    ts ← (if Ascii.eqb c apostrophe || Ascii.eqb c backquote then next (Inside c "")
          else if is_space c then next (Outside "")
          else (cons (Sym c)) <$> next (Outside ""));
    Some (flush w ++ ts).

(** [esc]: backslashes escape, i.e. [NO_BACKSLASH_ESCAPES] is not set. *)
Fixpoint lex (esc : bool) (st : lexst) (s : string) : option (list token) :=
  match s with
  | EmptyString =>
      match st with
      | Outside w => Some (flush w)
      | AfterQuote q v => Some [close q v]
      | _ => None
      end
  | String c s' =>
      let next st := lex esc st s' in
      match st with
      | Outside w => lex_outside next w c
      | Inside q v =>
          if Ascii.eqb c q then next (AfterQuote q v)
          else if esc && Ascii.eqb q apostrophe && Ascii.eqb c backslash then next (Escape q v)
          else next (Inside q (v +:+ str1 c))
      | AfterQuote q v =>
          if Ascii.eqb c q then next (Inside q (v +:+ str1 c))
          else (cons (close q v)) <$> lex_outside next "" c
      | Escape q v => next (Inside q (v +:+ unescape c))
      end
  end.

(** The value a literal stands for: itself, or with its backslashes doubled where
    they do not escape. *)
Definition literal (esc : bool) (s : string) : string :=
  if esc then s else ReplaceAll s backslash (String backslash (str1 backslash)).

(** What may follow a token without running into it. *)
Definition ends (rest : string) : bool :=
  match rest with
  | EmptyString => true
  | String c _ => negb (is_word c) && negb (Ascii.eqb c apostrophe) && negb (Ascii.eqb c backquote)
  end.

(** [x] reads as [ts] wherever it stands. *)
Definition reads (esc : bool) (x : string) (ts : list token) : Prop :=
  forall rest, ends rest = true -> lex esc (Outside "") (x +:+ rest) = (app ts) <$> lex esc (Outside "") rest.

(** ** Lemmas *)

Lemma ReplaceAll_app s t c new : ReplaceAll (s +:+ t) c new = ReplaceAll s c new +:+ ReplaceAll t c new.
Proof.
  induction s as [|x s IH]; cbn; [done|]. destruct (Ascii.eqb x c); rewrite IH; cbn; [by rewrite append_assoc|done].
Qed.

Lemma fmap_app_nil {A} (o : option (list A)) : (app []) <$> o = o.
Proof. by destruct o. Qed.

Lemma fmap_app_app {A} (a b : list A) (o : option (list A)) : (app a) <$> ((app b) <$> o) = (app (a ++ b)) <$> o.
Proof. destruct o; cbn; [|done]. by rewrite app_assoc. Qed.

Lemma append_str1 v c s : (v +:+ str1 c) +:+ s = v +:+ String c s.
Proof. by rewrite append_assoc. Qed.

(** Inside a literal the escaped text is read back. *)
Lemma lex_literal esc s v rest :
  lex esc (Inside apostrophe v)
    (ReplaceAll (ReplaceAll s backslash (String backslash (str1 backslash))) apostrophe (String apostrophe (str1 apostrophe)) +:+ rest) =
  lex esc (Inside apostrophe (v +:+ literal esc s)) rest.
Proof.
  revert v. induction s as [|c s IH]; intros v.
  { destruct esc; cbn; by rewrite append_nil_r. }
  cbn [ReplaceAll]. destruct (Ascii.eqb_spec c backslash) as [->|Hb].
  - rewrite ReplaceAll_app. change (ReplaceAll (String backslash (str1 backslash)) apostrophe (String apostrophe (str1 apostrophe)))
      with (String backslash (str1 backslash)).
    destruct esc; cbn [str1 String.append lex andb]; cbn -[lex literal ReplaceAll String.append]; rewrite IH; f_equal; f_equal; cbn;
      rewrite !append_assoc; reflexivity.
  - cbn [ReplaceAll]. destruct (Ascii.eqb_spec c apostrophe) as [->|Ha].
    + cbn [str1 String.append lex]; cbn -[lex literal ReplaceAll String.append]. rewrite IH, append_assoc. destruct esc; reflexivity.
    + cbn [String.append lex]. rewrite (proj2 (Ascii.eqb_neq _ _) Ha), (proj2 (Ascii.eqb_neq _ _) Hb), andb_false_r, IH, append_assoc.
      destruct esc; [reflexivity|]. cbn [literal ReplaceAll]. by rewrite (proj2 (Ascii.eqb_neq _ _) Hb).
Qed.

Lemma ends_outside esc q v rest :
  ends rest = true -> q = apostrophe \/ q = backquote ->
  lex esc (AfterQuote q v) rest = (app [close q v]) <$> lex esc (Outside "") rest.
Proof.
  destruct rest as [|c rest]; cbn; [done|]. intros [[Hw Ha]%andb_true_iff Hb]%andb_true_iff Hq. apply negb_true_iff in Hw, Ha, Hb.
  by destruct Hq as [-> | ->]; rewrite ?Ha, ?Hb.
Qed.

Lemma reads_quote esc s : reads esc (quote s) [Str (literal esc s)].
Proof.
  intros rest Hrest. unfold quote. rewrite !append_assoc. cbn [str1 String.append lex]. unfold lex_outside at 1. cbn [is_word is_digit].
  change (is_word apostrophe) with false. cbn -[lex literal ReplaceAll]. rewrite lex_literal. cbn [lex String.append].
  rewrite Ascii.eqb_refl, ends_outside by auto. cbn. by destruct (lex _ _ rest).
Qed.

Lemma lex_words esc w x rest : all_chars is_word x = true -> lex esc (Outside w) (x +:+ rest) = lex esc (Outside (w +:+ x)) rest.
Proof.
  revert w. induction x as [|c x IH]; intros w; cbn; [by rewrite append_nil_r|]. intros [Hc Hx]%andb_true_iff.
  unfold lex_outside. by rewrite Hc, IH, append_str1.
Qed.

Lemma reads_word esc w : all_chars is_word w = true -> empty w = false -> reads esc w [Word w].
Proof.
  intros Hw Hne rest Hrest. rewrite lex_words by done. cbn [String.append]. destruct rest as [|c rest]; cbn.
  - unfold flush. by rewrite Hne.
  - cbn in Hrest. apply andb_true_iff in Hrest as [[Hc Ha]%andb_true_iff Hb]. apply negb_true_iff in Hc.
    unfold lex_outside. rewrite Hc. unfold flush at 1. rewrite Hne. by match goal with |- context [mbind _ ?o] => destruct o end.
Qed.

(** A symbol may follow a word or a token, and anything may follow it. *)
Lemma lex_sym esc c rest :
  is_word c = false -> is_space c = false -> c <> apostrophe -> c <> backquote ->
  lex esc (Outside "") (String c rest) = (app [Sym c]) <$> lex esc (Outside "") rest.
Proof.
  intros Hw Hs Ha Hb. cbn. unfold lex_outside. rewrite Hw, Hs, (proj2 (Ascii.eqb_neq _ _) Ha), (proj2 (Ascii.eqb_neq _ _) Hb). cbn.
  by destruct (lex _ _ rest).
Qed.

Lemma lex_space esc c rest :
  is_space c = true -> lex esc (Outside "") (String c rest) = lex esc (Outside "") rest.
Proof.
  intros Hs. cbn. unfold lex_outside.
  assert (is_word c = false /\ Ascii.eqb c apostrophe = false /\ Ascii.eqb c backquote = false) as (-> & -> & ->)
    by (revert Hs; clear; destruct c as [[] [] [] [] [] [] [] []]; cbn; intros; repeat split; try reflexivity; discriminate).
  rewrite Hs. cbn. by destruct (lex _ _ rest).
Qed.

Lemma reads_app esc x y ts us : reads esc x ts -> reads esc y us -> ends y = true -> y <> "" -> reads esc (x +:+ y) (ts ++ us).
Proof.
  intros Hx Hy He Hne rest Hr. rewrite append_assoc, Hx, Hy, fmap_app_app; [done|done|]. by destruct y.
Qed.

Lemma reads_space esc c x ts : is_space c = true -> reads esc x ts -> reads esc (String c x) ts.
Proof. intros Hc Hx rest Hr. cbn [String.append]. by rewrite lex_space, Hx. Qed.

Lemma reads_sym esc c x ts :
  is_word c = false -> is_space c = false -> c <> apostrophe -> c <> backquote ->
  reads esc x ts -> reads esc (String c x) (Sym c :: ts).
Proof. intros ???? Hx rest Hr. cbn [String.append]. by rewrite lex_sym, Hx, fmap_app_app. Qed.

Lemma reads_nil esc : reads esc "" [].
Proof. intros rest _. by rewrite fmap_app_nil. Qed.

(** A whole statement. *)
Lemma reads_all esc x ts : reads esc x ts -> lex esc (Outside "") x = Some ts.
Proof. intros H. specialize (H "" eq_refl). rewrite append_nil_r in H. rewrite H. cbn. by rewrite app_nil_r. Qed.

(** Numbers. *)
Definition num_tokens (n : Z) : list token :=
  if n <? 0 then [Sym "-"; Word (FormatUint (- n))] else [Word (FormatUint n)].

Lemma reads_FormatUint esc n : reads esc (FormatUint n) [Word (FormatUint n)].
Proof.
  apply reads_word.
  - eapply all_chars_impl; [|apply FormatUint_digits]. intros c Hc. unfold is_word. by rewrite Hc.
  - destruct (FormatUint_cons n) as (c & s & -> & _). reflexivity.
Qed.

Lemma reads_FormatInt esc n : reads esc (FormatInt n) (num_tokens n).
Proof.
  unfold FormatInt, num_tokens. destruct (n <? 0); [|apply reads_FormatUint].
  apply reads_sym; [reflexivity|reflexivity|discriminate|discriminate|apply reads_FormatUint].
Qed.

(** Comma-separated lists. *)
Fixpoint commas (ts : list (list token)) : list token :=
  match ts with
  | [] => []
  | [t] => t
  | t :: ts' => t ++ Sym "," :: commas ts'
  end.

Lemma reads_join esc l ts : Forall2 (reads esc) l ts -> reads esc (Join l ", ") (commas ts).
Proof.
  induction 1 as [|x t l ts Hx Hl IH]; [apply reads_nil|]. destruct Hl as [|y u l ts Hy Hl]; [done|].
  change (Join (x :: y :: l) ", ") with (x +:+ String "," (String " " (Join (y :: l) ", "))).
  change (commas (t :: u :: ts)) with (t ++ Sym "," :: commas (u :: ts)).
  apply reads_app; [done| |reflexivity|discriminate].
  apply reads_sym; [reflexivity|reflexivity|discriminate|discriminate|]. by apply reads_space.
Qed.

(** ** What a [CHANGE REPLICATION SOURCE TO] says *)

Inductive value := Lit (s : string) | Num (n : Z) | Key (s : string).

Definition value_tokens (esc : bool) (v : value) : list token :=
  match v with
  | Lit s => [Str (literal esc s)]
  | Num n => num_tokens n
  | Key s => [Word s]
  end.
Definition assign_tokens (esc : bool) (a : string * value) : list token :=
  Word (fst a) :: Sym "=" :: value_tokens esc (snd a).

(** The settings of [opts], in order. *)
Definition source_settings (prefix : string) (opts : SourceOptions) : list (string * value) :=
  [(prefix +:+ "HOST", Lit (so_Host opts))] ++
  (if negb (so_Port opts =? 0) then [(prefix +:+ "PORT", Num (so_Port opts))] else []) ++
  [(prefix +:+ "USER", Lit (so_User opts))] ++
  (if negb (empty (so_Password opts)) then [(prefix +:+ "PASSWORD", Lit (so_Password opts))] else []) ++
  (if negb (so_ConnectRetry opts =? 0) then [(prefix +:+ "CONNECT_RETRY", Num (so_ConnectRetry opts))] else []) ++
  (if negb (so_RetryCount opts =? 0) then [(prefix +:+ "RETRY_COUNT", Num (so_RetryCount opts))] else []) ++
  (if so_SSL opts || mtls opts then [(prefix +:+ "SSL", Num 1)] else []) ++
  (if mtls opts then [(prefix +:+ "SSL_CA", Lit (so_SSLCA opts)); (prefix +:+ "SSL_CERT", Lit (so_SSLCert opts));
                      (prefix +:+ "SSL_KEY", Lit (so_SSLKey opts))] else []).

Definition mysql_settings (v : Version) (opts : SourceOptions) : list (string * value) :=
  let modern := UsesReplicaTerminology v in
  source_settings (if modern then "SOURCE_" else "MASTER_") opts ++
  (if so_AutoPosition opts then [(if modern then "SOURCE_AUTO_POSITION" else "MASTER_AUTO_POSITION", Num 1)] else []) ++
  (if so_GetPublicKey opts && HasGetSourcePublicKey v
   then [(if modern then "GET_SOURCE_PUBLIC_KEY" else "GET_MASTER_PUBLIC_KEY", Num 1)] else []).

Definition mariadb_settings (opts : SourceOptions) : list (string * value) :=
  source_settings "MASTER_" opts ++ (if so_AutoPosition opts then [("MASTER_USE_GTID", Key "current_pos")] else []).

Lemma reads_assign esc n v x :
  all_chars is_word n = true -> empty n = false -> reads esc x (value_tokens esc v) ->
  reads esc (n +:+ "=" +:+ x) (assign_tokens esc (n, v)).
Proof.
  intros Hn Hne Hx. change (assign_tokens esc (n, v)) with ([Word n] ++ Sym "=" :: value_tokens esc v).
  apply reads_app; [by apply reads_word| |reflexivity|discriminate].
  apply reads_sym; [reflexivity|reflexivity|discriminate|discriminate|done].
Qed.

Definition word_prefix (prefix : string) : Prop := prefix = "SOURCE_" \/ prefix = "MASTER_".

Lemma source_clauses_read esc prefix opts :
  word_prefix prefix -> Forall2 (reads esc) (source_clauses prefix opts) (assign_tokens esc <$> source_settings prefix opts).
Proof.
  intros Hp. unfold source_clauses, source_settings. rewrite !fmap_app.
  assert (forall suffix v x, all_chars is_word suffix = true -> reads esc x (value_tokens esc v) ->
            reads esc (prefix +:+ suffix +:+ "=" +:+ x) (assign_tokens esc (prefix +:+ suffix, v))) as Hone.
  { intros suffix v x Hs Hx. rewrite <- append_assoc. by apply reads_assign; [destruct Hp as [-> | ->]| destruct Hp as [-> | ->]|]. }
  assert (forall suffix s, all_chars is_word suffix = true ->
            reads esc (prefix +:+ suffix +:+ "=" +:+ quote s) (assign_tokens esc (prefix +:+ suffix, Lit s))) as Hlit
    by (intros; apply Hone; [done|apply reads_quote]).
  assert (forall suffix n, all_chars is_word suffix = true ->
            reads esc (prefix +:+ suffix +:+ "=" +:+ FormatInt n) (assign_tokens esc (prefix +:+ suffix, Num n))) as Hnum
    by (intros; apply Hone; [done|apply reads_FormatInt]).
  repeat apply Forall2_app; try case_match; repeat (apply List.Forall2_cons || apply List.Forall2_nil);
    first [by apply Hlit|by apply Hnum|by apply (Hnum "SSL" 1)].
Qed.

(** A verb of plain words in front. *)
Lemma reads_verb esc w x ts : all_chars is_word w = true -> empty w = false -> reads esc x ts -> reads esc (w +:+ " " +:+ x) (Word w :: ts).
Proof.
  intros Hw Hne Hx. change (Word w :: ts) with ([Word w] ++ ts).
  apply reads_app; [by apply reads_word|by apply reads_space|reflexivity|discriminate].
Qed.

(** whatever host, account, password or file names a replication source has, the
    [CHANGE REPLICATION SOURCE TO] (or [CHANGE MASTER TO]) built for it reads as
    exactly its settings in order, every value a single literal that stands for the
    value itself; with [NO_BACKSLASH_ESCAPES] each is still a single literal. *)
Theorem source_statement_reads_back esc v opts :
  lex esc (Outside "") (ChangeSourceStatement v opts) =
    Some ((Word <$> (if UsesReplicaTerminology v then ["CHANGE"; "REPLICATION"; "SOURCE"; "TO"] else ["CHANGE"; "MASTER"; "TO"])) ++
          commas (assign_tokens esc <$> mysql_settings v opts)) /\
  lex esc (Outside "") (MariaDBChangeSourceStatement opts) =
    Some ((Word <$> ["CHANGE"; "MASTER"; "TO"]) ++ commas (assign_tokens esc <$> mariadb_settings opts)) /\
  forall s, literal true s = s.
Proof.
  assert (forall x ts, reads esc x ts -> reads esc ("CHANGE MASTER TO" +:+ " " +:+ x) ((Word <$> ["CHANGE"; "MASTER"; "TO"]) ++ ts)) as Hm.
  { intros x ts Hx. apply (reads_verb _ "CHANGE" ("MASTER" +:+ " " +:+ "TO" +:+ " " +:+ x)); [done..|]. by repeat apply reads_verb. }
  assert (forall x ts, reads esc x ts -> reads esc ("CHANGE REPLICATION SOURCE TO" +:+ " " +:+ x)
            ((Word <$> ["CHANGE"; "REPLICATION"; "SOURCE"; "TO"]) ++ ts)) as Hr.
  { intros x ts Hx. apply (reads_verb _ "CHANGE" ("REPLICATION" +:+ " " +:+ "SOURCE" +:+ " " +:+ "TO" +:+ " " +:+ x)); [done..|].
    by repeat apply reads_verb. }
  assert (forall n, all_chars is_word n = true -> empty n = false ->
            Forall2 (reads esc) [n +:+ "=1"] (assign_tokens esc <$> [(n, Num 1)])) as Hone.
  { intros n Hn Hne. constructor; [|constructor]. apply (reads_assign esc n (Num 1) "1"); [done..|]. by apply (reads_word esc "1"). }
  repeat split.
  - apply reads_all. unfold ChangeSourceStatement, mysql_settings. rewrite !fmap_app. destruct (UsesReplicaTerminology v);
      [apply Hr|apply Hm]; apply reads_join; (apply Forall2_app; [apply source_clauses_read; unfold word_prefix; auto|]);
      (apply Forall2_app; (case_match; [|constructor]));
      first [by apply (Hone "SOURCE_AUTO_POSITION")|by apply (Hone "GET_SOURCE_PUBLIC_KEY")|by apply (Hone "MASTER_AUTO_POSITION")
            |by apply (Hone "GET_MASTER_PUBLIC_KEY")].
  - apply reads_all. unfold MariaDBChangeSourceStatement, mariadb_settings. rewrite fmap_app. apply Hm, reads_join.
    apply Forall2_app; [apply source_clauses_read; by right|]. case_match; [|constructor].
    constructor; [|constructor]. apply (reads_assign esc "MASTER_USE_GTID" (Key "current_pos") "current_pos"); [done..|]. by apply reads_word.
Qed.
