(* ===== verification/Instance.v ===== *)
(** * The instance manager's hold on its server

    [pkg/management/mysql/replication/manager.go] and [reader.go], [pool.RunIsolated],
    [pkg/management/mysql/groupreplication/manager.go] and the operations of
    [pkg/management/mysql/instance/controller.go] that the role reconciler drives.

    A piece of code that talks to the outside is a finite tree of requests, [prog]:
    a request to the server, the supervisor, the manager's own memory or the
    Kubernetes API, and what follows for each answer.  The trees are run later, one
    request at a time, against whatever interleaving the environment chooses
    ([LeaseProtocol]).  [configureSemiSync] is what [runner.go] does to a server it
    has just started when semi-synchronous replication is on.

    Not modelled of [Status]: the fields the role reconciler does not read (semi-sync,
    uptime, archiving, storage, lag, executable hash); of an error, its text is the
    server's message behind the prefixes the code adds, without the statement. *)

From Stdlib Require Import ZArith Lia Bool Ascii String.
From stdpp Require Import base list strings gmap.
From S2P Require Import Prelude GoStrings Versions SqlText Cluster GroupReplication.

Local Open Scope Z_scope.
#[local] Arguments String.append : simpl nomatch.

(** ** Requests *)

(** A Go error: the MySQL error number it wraps ([0] if none) and its text. *)
Record Failure := mkFailure { f_Number : Z; f_Message : string }.
Definition fails (message : string) : Failure := mkFailure 0 message.
Definition wrap (what : string) (f : Failure) : Failure := mkFailure (f_Number f) (what +:+ ": " +:+ f_Message f).

Inductive Role := RolePrimary | RoleReplica | RoleUnknown.
#[export] Instance Role_eq_dec : EqDecision Role.
Proof. solve_decision. Defined.

(** The primary Lease as an object: [lo_Version] is its resource version. *)
Record LeaseObject := mkLeaseObject {
  lo_Version : nat;
  lo_HolderIdentity : option string;
  lo_RenewTime : option Time;
  lo_AcquireTime : option Time;
  lo_LeaseDurationSeconds : option Z;
  lo_LeaseTransitions : option Z;
  lo_Annotations : gmap string string
}.

(** What the role reconciler reads of the Cluster. *)
Record RoleCluster := mkRoleCluster {
  rc_GroupReplicationMode : bool;
  rc_EnablePrimaryLease : option bool;
  rc_TargetPrimary : string;
  rc_CurrentPrimary : string;
  rc_CurrentPrimaryGeneration : Z;
  rc_DivergedInstances : list string;
  rc_FencedInstances : list string;
  rc_Phase : string;
  rc_GroupStatus : option GroupReplicationStatus
}.

(** A row of [replication_group_members]; host and port are not used. *)
Record ViewMember := mkViewMember { vm_MemberID : string; vm_State : string; vm_Role : string }.

(** [PinnedExec]: a statement on the connection that [configureSemiSync] pins. *)
Inductive request :=
| Exec (stmt : string)
| PinnedExec (stmt : string)
| Scalar (query : string)
| FirstRow (query : string)
| ScalarArgs (query : string) (args : list string)
| Rows (query : string)
| GroupMembers
| Ping
| Connect
| SupervisorShutdown
| GetExpected
| SetExpected (r : Role)
| GateFence
| GateUnfence
| Clock
| GetCluster
| PatchCurrentPrimary (name : string) (at_ : Time) (generation : Z)
| GetLease
| CreateLease (l : LeaseObject)
| UpdateLease (l : LeaseObject)
| GetPodAnnotations
| PatchPodAnnotation (key : string) (value : option string).

(** A scalar is the first column of the first row, [NULL] read as empty; a first row
    is a map from columns to values, [None] when there is no row; rows are lists of
    columns. *)
Definition answer (r : request) : Type :=
  match r with
  | Exec _ | PinnedExec _ | Ping | Connect | SupervisorShutdown => option Failure
  | Scalar _ | ScalarArgs _ _ => string + Failure
  | FirstRow _ => option (gmap string string) + Failure
  | Rows _ => list (list string) + Failure
  | GroupMembers => list ViewMember + Failure
  | GetExpected => Role
  | SetExpected _ | GateFence | GateUnfence => unit
  | Clock => Time
  | GetCluster => RoleCluster + api_error
  | PatchCurrentPrimary _ _ _ | PatchPodAnnotation _ _ => option error
  | GetLease => LeaseObject + api_error
  | CreateLease _ | UpdateLease _ => option api_error
  | GetPodAnnotations => gmap string string + api_error
  end.

Inductive prog (A : Type) : Type :=
| Done (a : A)
| Ask (r : request) (k : answer r -> prog A).
Arguments Done {A} a.
Arguments Ask {A} r k.

Fixpoint pbind {A B} (p : prog A) (f : A -> prog B) : prog B :=
  match p with
  | Done a => f a
  | Ask r k => Ask r (fun x => pbind (k x) f)
  end.

Definition req (r : request) : prog (answer r) := Ask r Done.

(** The same code over a pinned connection instead of the pool. *)
Fixpoint pinned {A} (p : prog A) : prog A :=
  match p with
  | Done a => Done a
  | Ask r k =>
      match r return (answer r -> prog A) -> prog A with
      | Exec stmt => fun k => Ask (PinnedExec stmt) (fun a => pinned (k a))
      | r => fun k => Ask r (fun a => pinned (k a))
      end k
  end.

Declare Scope prog_scope.
Delimit Scope prog_scope with prog.
Notation "'run!' x := m 'in' k" := (pbind m (fun x => k)) (at level 200, x pattern, right associativity) : prog_scope.
Notation "'check!' m 'in' k" := (pbind m (fun e => match e with Some f => Done (Some f) | None => k end))
  (at level 200, right associativity) : prog_scope.
Open Scope prog_scope.

(** ** Reading the server *)

Definition parseBool (s : string) : bool :=
  let s := ToLower (TrimSpace s) in
  String.eqb s "1" || String.eqb s "on" || String.eqb s "true" || String.eqb s "yes".
Definition parseYesNo (s : string) : bool := String.eqb (ToLower (TrimSpace s)) "yes".

Definition firstNonEmpty (row : gmap string string) (keys : list string) : string :=
  default "" (List.find (fun v => negb (empty v)) ((fun k => default "" (row !! k)) <$> keys)).

Record ReplicaState := mkReplicaState {
  rp_Configured : bool;
  rp_SourceHost : string;
  rp_IORunning : bool;
  rp_SQLRunning : bool;
  rp_SecondsBehindSource : option Z;
  rp_LastError : string;
  rp_LastIOErrno : Z;
  rp_RetrievedGTIDSet : string
}.
Definition unconfigured : ReplicaState := mkReplicaState false "" false false None "" 0 "".

Definition parseReplicaStatus (row : gmap string string) : ReplicaState :=
  let lag := firstNonEmpty row ["Seconds_Behind_Source"; "Seconds_Behind_Master"] in
  mkReplicaState true
    (firstNonEmpty row ["Source_Host"; "Master_Host"])
    (parseYesNo (firstNonEmpty row ["Replica_IO_Running"; "Slave_IO_Running"]))
    (parseYesNo (firstNonEmpty row ["Replica_SQL_Running"; "Slave_SQL_Running"]))
    (if negb (empty lag) && negb (String.eqb lag "NULL") then ParseInt lag else None)
    (firstNonEmpty row ["Last_Error"; "Last_IO_Error"; "Last_SQL_Error"])
    (default 0 (ParseInt (firstNonEmpty row ["Last_IO_Errno"])))
    (firstNonEmpty row ["Retrieved_Gtid_Set"]).

(** [replication.Manager] over a connection: the dialect and the version. *)
Record Manager := mkManager { m_repl : Dialect; m_version : Version }.

Section Manager.
Context (m : Manager).

Definition exec (stmt : string) : prog (option Failure) :=
  run! e := req (Exec stmt) in Done (wrap "executing" <$> e).

Definition scalarString (query : string) : prog (string + Failure) :=
  run! v := req (Scalar query) in
  Done (match v with inl s => inl s | inr f => inr (wrap "query" f) end).

Definition super_read_only : bool := d_HasSuperReadOnly (m_repl m) && HasSuperReadOnly (m_version m).

Definition ReadOnly : prog ((bool * bool) + Failure) :=
  run! ro := scalarString "SELECT @@GLOBAL.read_only" in
  match ro with
  | inr f => Done (inr f)
  | inl ro =>
      if super_read_only then
        run! sro := scalarString "SELECT @@GLOBAL.super_read_only" in
        Done (match sro with inr f => inr f | inl sro => inl (parseBool ro, parseBool sro) end)
      else Done (inl (parseBool ro, false))
  end.

Definition GetReplicaState : prog (ReplicaState + Failure) :=
  run! row := req (FirstRow (d_ShowReplicaStatus (m_repl m))) in
  Done (match row with
        | inr f => inr (wrap "query" f)
        | inl None => inl unconfigured
        | inl (Some row) => inl (parseReplicaStatus row)
        end).

Definition GTIDExecuted : prog (string + Failure) := scalarString (d_GTIDExecutedQuery (m_repl m)).

(** ** Changing the server *)

Definition configureSource (opts : SourceOptions) (start : bool) : prog (option Failure) :=
  check! exec (d_StopReplica (m_repl m)) in
  check! exec (d_ChangeSource (m_repl m) opts) in
  if start then exec (d_StartReplica (m_repl m)) else Done None.

Definition ConfigureSource (opts : SourceOptions) : prog (option Failure) := configureSource opts true.

Definition ResetBinaryLogs : prog (option Failure) := exec (d_ResetBinaryLogs (m_repl m)).

Definition ProvisionFromBackup (gtidPurged : string) (opts : SourceOptions) : prog (option Failure) :=
  check! exec (d_ResetBinaryLogs (m_repl m)) in
  check! (if negb (empty gtidPurged) then exec (d_SeedReplicaPosition (m_repl m) gtidPurged) else Done None) in
  configureSource opts false.

Definition StartReplica : prog (option Failure) := exec (d_StartReplica (m_repl m)).
Definition StopReplica : prog (option Failure) := exec (d_StopReplica (m_repl m)).
Definition ResetReplica (all : bool) : prog (option Failure) := exec (d_ResetReplica (m_repl m) all).

(** [strings.TrimSuffix(s, ".")]. *)
Definition trim_dot (s : string) : string :=
  match String.rev s with String "." r => String.rev r | _ => s end.
Definition sameSourceHost (current desired : string) : bool :=
  String.eqb (ToLower (trim_dot current)) (ToLower (trim_dot desired)).

Definition EnsureReplicaConfigured (opts : SourceOptions) : prog (option Failure) :=
  run! state := GetReplicaState in
  match state with
  | inr f => Done (Some f)
  | inl state =>
      if negb (rp_Configured state) then ConfigureSource opts
      else if negb (sameSourceHost (rp_SourceHost state) (so_Host opts)) then ConfigureSource opts
      else if rp_IORunning state && rp_SQLRunning state then Done None
      else StartReplica
  end.

Definition EnsureReplicaStarted : prog (option Failure) :=
  run! state := GetReplicaState in
  match state with
  | inr f => Done (Some f)
  | inl state =>
      if negb (rp_Configured state) || (rp_IORunning state && rp_SQLRunning state) then Done None else StartReplica
  end.

Definition RepairReplication (opts : SourceOptions) : prog (option Failure) :=
  if negb (so_AutoPosition opts) then Done (Some (fails "repairing replication requires GTID auto-positioning"))
  else
    run! e := exec (d_StopReplica (m_repl m)) in
    match e with
    | Some f => Done (Some (wrap "stopping replica before repair" f))
    | None =>
        run! e := exec (d_ResetReplica (m_repl m) true) in
        match e with
        | Some f => Done (Some (wrap "resetting replica during repair" f))
        | None => configureSource opts true
        end
    end.

Definition SetReadOnly (on : bool) : prog (option Failure) := exec (SetReadOnlyStatement on).
Definition SetSuperReadOnly (on : bool) : prog (option Failure) :=
  if super_read_only then exec (SetSuperReadOnlyStatement on) else Done None.

Definition repl_Promote : prog (option Failure) :=
  run! state := GetReplicaState in
  match state with
  | inr f => Done (Some f)
  | inl state =>
      check! (if rp_Configured state then check! StopReplica in ResetReplica true else Done None) in
      check! (if d_HasSuperReadOnly (m_repl m) then SetSuperReadOnly false else Done None) in
      SetReadOnly false
  end.

Fixpoint exec_all (stmts : list string) : prog (option Failure) :=
  match stmts with
  | [] => Done None
  | stmt :: stmts' =>
      run! e := req (Exec stmt) in
      match e with
      | Some f => Done (Some (wrap "pool: executing" f))
      | None => exec_all stmts'
      end
  end.

Definition demoteLockWait : Duration := 15 * second.

(** The session's lock wait is restored however the statements end; its failure is
    reported only when they succeeded. *)
Definition RunIsolated (lockWait : Duration) (stmts : list string) : prog (option Failure) :=
  if Nat.eqb (length stmts) 0 then Done None
  else
    run! e := req Connect in
    match e with
    | Some f => Done (Some (wrap "pool: dedicated connection" f))
    | None =>
        let seconds := Z.max (Z.quot lockWait second) 1 in
        run! e := req (Exec ("SET SESSION lock_wait_timeout = " +:+ FormatInt seconds)) in
        run! err := match e with
                    | Some f => Done (Some (wrap "pool: setting session lock_wait_timeout" f))
                    | None => exec_all stmts
                    end in
        run! resetErr := req (Exec "SET SESSION lock_wait_timeout = DEFAULT") in
        Done (match err, resetErr with
              | None, Some f => Some (wrap "pool: restoring session lock_wait_timeout" f)
              | _, _ => err
              end)
    end.

Definition repl_Demote : prog (option Failure) :=
  RunIsolated demoteLockWait
    (SetReadOnlyStatement true :: if super_read_only then [SetSuperReadOnlyStatement true] else []).

(** ** Semi-synchronous replication *)

Definition errPluginInstalled : Z := 1968.
Definition errFunctionAlreadyExists : Z := 1125.

Definition isPluginAlreadyInstalled (f : Failure) : bool :=
  (f_Number f =? errPluginInstalled) || (f_Number f =? errFunctionAlreadyExists).

Definition installPlugin (stmt : string) : prog (option Failure) :=
  run! e := req (Exec stmt) in
  Done (match e with
        | Some f => if isPluginAlreadyInstalled f then None else Some (wrap "executing" f)
        | None => None
        end).

Definition InstallSemiSyncSource : prog (option Failure) := installPlugin (InstallSemiSyncSourceStatement (m_version m)).
Definition InstallSemiSyncReplica : prog (option Failure) := installPlugin (InstallSemiSyncReplicaStatement (m_version m)).

Definition EnableSemiSync : prog (option Failure) :=
  let naming := d_SemiSyncNaming (m_repl m) in
  check! exec (SetGlobalStatement (ss_EnabledVarSource naming) "1") in
  exec (SetGlobalStatement (ss_EnabledVarReplica naming) "1").

Definition SetSemiSyncWaitForReplicaCount (count : Z) : prog (option Failure) :=
  let naming := d_SemiSyncNaming (m_repl m) in
  if empty (ss_WaitForCountVar naming) then Done None
  else exec (SetGlobalStatement (ss_WaitForCountVar naming) (FormatInt count)).

Definition SetSemiSyncTimeoutMillis (timeoutMillis : Z) : prog (option Failure) :=
  exec (SetGlobalStatement (ss_TimeoutVar (d_SemiSyncNaming (m_repl m))) (FormatInt timeoutMillis)).

Definition restoreReadOnly (readOnly superReadOnly : bool) : prog (option Failure) :=
  check! (if readOnly then SetReadOnly true else Done None) in
  if superReadOnly then SetSuperReadOnly true else Done None.

Definition install_semisync (waitCount timeoutMillis : Z) : prog (option Failure) :=
  check! InstallSemiSyncSource in
  check! InstallSemiSyncReplica in
  check! EnableSemiSync in
  check! (if 0 <? waitCount then SetSemiSyncWaitForReplicaCount waitCount else Done None) in
  if 0 <? timeoutMillis then SetSemiSyncTimeoutMillis timeoutMillis else Done None.

(** What runs on the pinned connection; the first error is the one reported. *)
Definition semisync_session (waitCount timeoutMillis : Z) : prog (option Failure) :=
  run! ro := ReadOnly in
  match ro with
  | inr f => Done (Some f)
  | inl (readOnly, superReadOnly) =>
      check! exec "SET SESSION SQL_LOG_BIN=0" in
      check! (if superReadOnly then SetSuperReadOnly false else Done None) in
      check! (if readOnly then SetReadOnly false else Done None) in
      run! err := install_semisync waitCount timeoutMillis in
      run! binlogErr := exec "SET SESSION SQL_LOG_BIN=1" in
      let err := match err with Some f => Some f | None => binlogErr end in
      run! restoreErr := restoreReadOnly readOnly superReadOnly in
      Done (match err with Some f => Some f | None => restoreErr end)
  end.

(** Discarding the pinned connection while its binary logging is off is not
    modelled. *)
Definition configureSemiSync (e : Engine) (waitCount timeoutMillis : Z) : prog (option Failure) :=
  if negb (SemiSyncIsPlugin e) then Done None
  else
    run! c := req Connect in
    match c with
    | Some f => Done (Some (wrap "dedicated connection for semi-sync configuration" f))
    | None => pinned (semisync_session waitCount timeoutMillis)
    end.
End Manager.

(** [strings.Contains]. *)
Definition Contains (s sub : string) : bool :=
  match String.index 0 sub s with Some _ => true | None => false end.

Definition replicationMetadataErrorPatterns : list string :=
  ["Could not parse relay log event entry"; "Error initializing relay log position"; "Failed to open the relay log";
   "Error reading relay log event"; "Error counting relay log space"; "Relay log write failure";
   "error writing relay log configuration"; "Master information file"; "replication metadata repository";
   "applier metadata structure from the repository"; "Error creating relay log file"; "Could not open log file"].

Definition IsReplicationMetadataError (f : Failure) : bool :=
  existsb (fun pattern => Contains (f_Message f) pattern) replicationMetadataErrorPatterns.

(** ** Group replication *)

Definition GroupView : prog (list ViewMember + Failure) :=
  run! rows := req GroupMembers in
  Done (match rows with
        | inr f => inr (wrap "querying replication_group_members" f)
        | inl rows => inl (List.filter (fun m => negb (empty (vm_MemberID m))) rows)
        end).

Definition Bootstrap : prog (option Failure) :=
  check! exec "SET GLOBAL group_replication_bootstrap_group = ON" in
  run! err := exec StartGroupReplicationStatement in
  run! offErr := exec "SET GLOBAL group_replication_bootstrap_group = OFF" in
  Done (match err, offErr with None, Some f => Some f | _, _ => err end).

(** ** The controller *)

(** [instance.Controller]: what does not change while it runs.  [c_fence] and
    [c_supervisor] say whether fencing and a supervisor are wired up. *)
Record Controller := mkController {
  c_repl : Manager;
  c_mariadb : bool;
  c_groupReplication : bool;
  c_fence : bool;
  c_supervisor : bool
}.

Record ReplicaStatus := mkReplicaStatus {
  re_SourceHost : string;
  re_IORunning : bool;
  re_SQLRunning : bool;
  re_SecondsBehindSource : option Z;
  re_RetrievedGTIDSet : string
}.

(** [GroupReplicationMemberStatus], the fields the role reconciler reads. *)
Record MemberStatus := mkMemberStatus {
  ms_MemberID : string;
  ms_State : string;
  ms_PrimaryMemberID : string;
  ms_ViewID : string;
  ms_Members : list ViewMember
}.

Record Status := mkStatus {
  su_Role : Role;
  su_ReadOnly : bool;
  su_SuperReadOnly : bool;
  su_GTIDExecuted : string;
  su_Replication : option ReplicaStatus;
  su_GroupReplication : option MemberStatus
}.

Section Controller.
Context (c : Controller).

Definition role (expected : Role) (state : ReplicaState) : Role :=
  if rp_Configured state then RoleReplica
  else match expected with RoleReplica => RoleUnknown | _ => RolePrimary end.

Definition serverUUID : prog (string + Failure) := req (Scalar "SELECT @@global.server_uuid").
Definition groupName : prog (string + Failure) := req (Scalar "SELECT @@global.group_replication_group_name").

Definition last_state (id : string) (view : list ViewMember) : string :=
  foldl (fun state m => if String.eqb (vm_MemberID m) id then vm_State m else state) "" view.
Definition last_primary (view : list ViewMember) : string :=
  foldl (fun id m => if String.eqb (vm_Role m) MemberRolePrimary then vm_MemberID m else id) "" view.

(** A view without members is not configured; nothing here sets the view ID. *)
Definition groupReplicationStatus : prog (option MemberStatus) :=
  run! view := GroupView in
  match view with
  | inr _ | inl [] => Done None
  | inl view =>
      run! uuid := serverUUID in
      let id := match uuid with inl id => id | inr _ => "" end in
      Done (Some (mkMemberStatus id (last_state id view) (last_primary view) "" view))
  end.

Definition mysqlAccessDenied : Z := 1045.

Definition collectStatus : prog (Status + Failure) :=
  run! ro := ReadOnly (c_repl c) in
  match ro with
  | inr f => Done (inr f)
  | inl (readOnly, superReadOnly) =>
      run! state := GetReplicaState (c_repl c) in
      match state with
      | inr f => Done (inr f)
      | inl state =>
          run! expected := req GetExpected in
          run! gtid := GTIDExecuted (c_repl c) in
          run! gr := (if c_groupReplication c then groupReplicationStatus else Done None) in
          Done (inl (mkStatus (role expected state) readOnly superReadOnly (match gtid with inl g => g | inr _ => "" end)
            (if rp_Configured state
             then Some (mkReplicaStatus (rp_SourceHost state) (rp_IORunning state) (rp_SQLRunning state)
                          (rp_SecondsBehindSource state) (rp_RetrievedGTIDSet state))
             else None) gr))
      end
  end.

Definition GetStatus : prog (Status + Failure) :=
  run! status := collectStatus in
  match status with
  | inl status => Done (inl status)
  | inr f =>
      if f_Number f =? mysqlAccessDenied then
        run! expected := req GetExpected in Done (inl (mkStatus expected false false "" None None))
      else Done (inr f)
  end.

Definition Promote : prog (option Failure) :=
  check! repl_Promote (c_repl c) in
  run! _ := req (SetExpected RolePrimary) in Done None.

Definition Demote : prog (option Failure) := repl_Demote (c_repl c).

Definition ctl_EnsureReplicaConfigured (opts : SourceOptions) : prog (option Failure) :=
  check! EnsureReplicaConfigured (c_repl c) opts in
  run! _ := req (SetExpected RoleReplica) in Done None.

Definition ctl_RepairReplication (opts : SourceOptions) : prog (option Failure) :=
  check! RepairReplication (c_repl c) opts in
  run! _ := req (SetExpected RoleReplica) in Done None.

(** [SET GLOBAL innodb_fast_shutdown = ?] with 2; its error is ignored. *)
Definition Shutdown : prog (option Failure) :=
  if negb (c_supervisor c) then Done (Some (fails "shutdown is not available: no supervisor configured"))
  else
    run! _ := req (Exec (SetGlobalStatement "innodb_fast_shutdown" "2")) in
    req SupervisorShutdown.

Definition Fence : prog (option Failure) :=
  if negb (c_fence c) || negb (c_supervisor c) then Done (Some (fails "fencing is not available in this context"))
  else run! _ := req GateFence in req SupervisorShutdown.

Definition Unfence : prog (option Failure) :=
  if negb (c_fence c) then Done None else run! _ := req GateUnfence in Done None.

(** Fresh: GTIDs of its own and none of the group's. *)
Definition isFreshMember : prog (bool + Failure) :=
  run! uuid := serverUUID in
  match uuid with
  | inr f => Done (inr f)
  | inl uuid =>
      run! gtids := GTIDExecuted (c_repl c) in
      match gtids with
      | inr f => Done (inr f)
      | inl gtids =>
          if negb (Contains gtids uuid) then Done (inl false)
          else
            run! name := groupName in
            Done (match name with
                  | inr f => inr f
                  | inl name => inl (empty name || negb (Contains gtids name))
                  end)
      end
  end.

Definition PrepareGroupJoin (recoveryUser password : string) : prog (option Failure) :=
  run! fresh := isFreshMember in
  match fresh with
  | inr f => Done (Some f)
  | inl fresh =>
      check! (if fresh : bool then
                run! e := ResetBinaryLogs (c_repl c) in
                match e with
                | Some f => Done (Some (wrap "clearing local GTIDs before group join" f))
                | None =>
                    run! e := exec ForceCloneStatement in
                    Done (wrap "forcing clone for group join" <$> e)
                end
              else Done None) in
      exec (ConfigureRecoveryChannelStatement (m_version (c_repl c)) recoveryUser password)
  end.

Definition StartGroupReplication : prog (option Failure) := exec StartGroupReplicationStatement.
Definition StopGroupReplication : prog (option Failure) := exec StopGroupReplicationStatement.
Definition BootstrapGroup : prog (option Failure) := Bootstrap.
Definition ForceGroupMembers (addresses : list string) : prog (option Failure) := exec (ForceMembersStatement addresses).
End Controller.
