(* ===== verification/RoleReconciler.v ===== *)
(** * The in-Pod role reconciler

    [pkg/management/mysql/instance/rolereconciler]: every instance watches the Cluster
    and drives its own server to the role the Cluster gives it.  Under asynchronous
    replication the target promotes itself once it holds the primary Lease and has
    applied what it should, and everybody else follows the current primary; under
    group replication an instance only sees to its membership.

    The theorems are about single passes, for every answer of the environment: what a
    promotion requires, that a group member never promotes or touches the Lease, and
    when a group may be created.  [LeaseProtocol] runs the passes of all instances
    against one another. *)

From Stdlib Require Import ZArith Lia Bool Ascii String.
From stdpp Require Import base list strings gmap.
From S2P Require Import Prelude GoStrings Versions SqlText Cluster GtidModel GroupReplication Instance.

Local Open Scope Z_scope.
#[local] Arguments String.append : simpl nomatch.

(** ** The local instance *)

Record LocalInstance := mkLocalInstance {
  li_Status : prog (Status + Failure);
  li_Promote : prog (option Failure);
  li_Demote : prog (option Failure);
  li_EnsureReplicaConfigured : SourceOptions -> prog (option Failure);
  li_RepairReplication : SourceOptions -> prog (option Failure);
  li_Shutdown : prog (option Failure);
  li_Fence : prog (option Failure);
  li_Unfence : prog (option Failure);
  li_PrepareGroupJoin : string -> string -> prog (option Failure);
  li_StartGroupReplication : prog (option Failure);
  li_BootstrapGroup : prog (option Failure);
  li_StopGroupReplication : prog (option Failure);
  li_ForceGroupMembers : list string -> prog (option Failure)
}.

Definition LocalController (c : Controller) : LocalInstance :=
  mkLocalInstance (GetStatus c) (Promote c) (Demote c) (ctl_EnsureReplicaConfigured c) (ctl_RepairReplication c) (Shutdown c)
    (Fence c) (Unfence c) (PrepareGroupJoin c) StartGroupReplication BootstrapGroup StopGroupReplication ForceGroupMembers.

(** [r.flavor] is the [CNMSQL_FLAVOR] of the environment. *)
Record Reconciler := mkReconciler {
  r_InstanceName : string;
  r_ServiceDomain : string;
  r_SourceTemplate : SourceOptions;
  r_Local : LocalInstance;
  r_groupReplication : bool;
  r_flavor : string
}.

Definition waitRequeue : Duration := 2 * second.
Definition steadyRequeue : Duration := 30 * second.
Definition groupObservationRequeue : Duration := second.

Inductive pass_error := LocalFailed (f : Failure) | APIFailed (e : error).
Record Outcome := mkOutcome { oc_RequeueAfter : Duration; oc_Error : option pass_error }.
Definition after (d : Duration) : Outcome := mkOutcome d None.
Definition failed (f : Failure) : Outcome := mkOutcome 0 (Some (LocalFailed f)).

(** ** The primary Lease *)

Definition defaultLeaseDuration : Duration := 15 * second.
Definition defaultLeaseSeconds : Z := Z.quot defaultLeaseDuration second.
Definition handoffPositionAnnotation : string := "cnmsql.cnmsql.co/handoff-position".
Definition errPrimaryLeaseHeld : error := Errorf "primary lease is held by another instance".
Definition api_err (e : api_error) : error := match e with NotFound => Errorf "not found" | APIError e => e end.

(** Two's-complement wrap-around of [int32] arithmetic. *)
Definition i32 (z : Z) : Z := (z + 2 ^ 31) mod 2 ^ 32 - 2 ^ 31.

Definition lease_duration (l : LeaseObject) : Duration :=
  match lo_LeaseDurationSeconds l with Some s => s * second | None => defaultLeaseDuration end.

Definition leaseExpired (l : LeaseObject) : prog bool :=
  match lo_RenewTime l with
  | None => Done true
  | Some renew => run! now := req Clock in Done (lease_duration l <? now - renew)
  end.

Definition holder (l : LeaseObject) : string := default "" (lo_HolderIdentity l).

(** The lease with the instance as its holder. *)
Definition take_lease (me previousHolder : string) (now : Time) (drop : bool) (l : LeaseObject) : LeaseObject :=
  let fresh := match lo_AcquireTime l with None => true | Some _ => false end || negb (String.eqb previousHolder me) in
  mkLeaseObject (lo_Version l) (Some me) (Some now)
    (if fresh then Some now else lo_AcquireTime l)
    (Some (default defaultLeaseSeconds (lo_LeaseDurationSeconds l)))
    (if fresh then Some (i32 (default 0 (lo_LeaseTransitions l) + 1)) else lo_LeaseTransitions l)
    (if drop then delete handoffPositionAnnotation (lo_Annotations l) else lo_Annotations l).

Definition new_lease : LeaseObject := mkLeaseObject 0 None None None (Some defaultLeaseSeconds) None ∅.

(** From the lease that was read, or a new one to create. *)
Definition acquire_from (r : Reconciler) (settled create : bool) (l : LeaseObject) : prog (string + error) :=
  let me := r_InstanceName r in
  let previousHolder := holder l in
  run! blocked := (if negb (empty previousHolder) && negb (String.eqb previousHolder me)
                   then run! expired := leaseExpired l in Done (negb expired) else Done false) in
  if blocked : bool then Done (inr errPrimaryLeaseHeld)
  else
    let handoff := default "" (lo_Annotations l !! handoffPositionAnnotation) in
    let drop := settled && negb (empty handoff) in
    let handoff := if drop then "" else handoff in
    run! now := req Clock in
    let l := take_lease me previousHolder now drop l in
    run! err := (if create then req (CreateLease l) else req (UpdateLease l)) in
    Done (match err with None => inl handoff | Some e => inr (api_err e) end).

Definition acquireOrRenewLease (r : Reconciler) (enabled settled : bool) : prog (string + error) :=
  if negb enabled then Done (inl "")
  else
    run! l := req GetLease in
    match l with
    | inr (APIError e) => Done (inr e)
    | inr NotFound => acquire_from r settled true new_lease
    | inl l => acquire_from r settled false l
    end.

(** The lease without its holder. *)
Definition give_lease (handoff : string) (l : LeaseObject) : LeaseObject :=
  mkLeaseObject (lo_Version l) None None (lo_AcquireTime l) (lo_LeaseDurationSeconds l) (lo_LeaseTransitions l)
    (if negb (empty handoff) then <[handoffPositionAnnotation := handoff]> (lo_Annotations l) else lo_Annotations l).

Definition releaseLease (r : Reconciler) (enabled : bool) (handoff : string) : prog (option error) :=
  if negb enabled then Done None
  else
    run! l := req GetLease in
    match l with
    | inr e => Done (IgnoreNotFound e)
    | inl l =>
        match lo_HolderIdentity l with
        | None => Done None
        | Some h =>
            if negb (String.eqb h (r_InstanceName r)) then Done None
            else run! err := req (UpdateLease (give_lease handoff l)) in Done (err ≫= IgnoreNotFound)
        end
    end.

(** ** The asynchronous role *)

Definition isDiverged (c : RoleCluster) (name : string) : bool := existsb (String.eqb name) (rc_DivergedInstances c).
Definition isFenced (c : RoleCluster) (name : string) : bool := existsb (String.eqb name) (rc_FencedInstances c).

Definition applied (r : Reconciler) (executed set : string) : bool :=
  match ForFlavor (r_flavor r) with
  | Err _ => false
  | Ok gtid => match @gm_Contains gtid executed set with Ok b => b | Err _ => false end
  end.

Definition caughtUp (r : Reconciler) (status : Status) : bool :=
  match su_Replication status with
  | None => true
  | Some repl =>
      if negb (re_SQLRunning repl) then false
      else if negb (applied r (su_GTIDExecuted status) (re_RetrievedGTIDSet repl)) then false
      else match re_SecondsBehindSource repl with Some s => negb (0 <? s) | None => true end
  end.

Definition sourceFor (r : Reconciler) (primary : string) : SourceOptions :=
  set_Host (r_SourceTemplate r) (primary +:+ "." +:+ r_ServiceDomain r).

Definition setCurrentPrimary (me : string) : prog (option error) :=
  run! c := req GetCluster in
  match c with
  | inr e => Done (Some (api_err e))
  | inl c =>
      if String.eqb (rc_CurrentPrimary c) me then Done None
      else
        run! now := req Clock in
        req (PatchCurrentPrimary me now (i64 (rc_CurrentPrimaryGeneration c + 1)))
  end.

Definition outcome_of (d : Duration) (e : option error) : Outcome := mkOutcome d (APIFailed <$> e).

Definition handOffLease (r : Reconciler) (enabled : bool) : prog (option pass_error) :=
  run! status := li_Status (r_Local r) in
  match status with
  | inr f => Done (Some (LocalFailed f))
  | inl status => run! e := releaseLease r enabled (su_GTIDExecuted status) in Done (APIFailed <$> e)
  end.

Definition stepDown (r : Reconciler) (enabled : bool) : prog (option pass_error) :=
  run! e := li_Demote (r_Local r) in
  match e with
  | Some f => Done (Some (LocalFailed f))
  | None => handOffLease r enabled
  end.

Definition is_primary (status : Status) : bool := bool_decide (su_Role status = RolePrimary).

(** The source still feeds this replica. *)
Definition fed (status : Status) : bool :=
  match su_Replication status with Some repl => re_IORunning repl | None => false end.

(** The designated primary. *)
Definition as_target (r : Reconciler) (enabled : bool) (current : string) (status : Status) : prog Outcome :=
  let me := r_InstanceName r in
  if is_primary status && negb (su_ReadOnly status) && negb (su_SuperReadOnly status) then
    run! lease := acquireOrRenewLease r enabled true in
    match lease with
    | inr _ => Done (after waitRequeue)
    | inl _ =>
        if negb (String.eqb current me) then run! e := setCurrentPrimary me in Done (outcome_of steadyRequeue e)
        else Done (after steadyRequeue)
    end
  else if negb (is_primary status) && negb (caughtUp r status) then Done (after waitRequeue)
  else
    run! lease := acquireOrRenewLease r enabled false in
    match lease with
    | inr _ => Done (after waitRequeue)
    | inl handoff =>
        if negb (empty handoff) && negb (applied r (su_GTIDExecuted status) handoff) && fed status
        then Done (after waitRequeue)
        else
          run! e := li_Promote (r_Local r) in
          match e with
          | Some f => Done (failed f)
          | None => run! e := setCurrentPrimary me in Done (outcome_of waitRequeue e)
          end
    end.

(** A replica of [current]. *)
Definition follow (r : Reconciler) (current : string) (amPrimary : bool) : prog Outcome :=
  let source := sourceFor r current in
  let shutdown := run! e := li_Shutdown (r_Local r) in Done (mkOutcome 0 (LocalFailed <$> e)) in
  run! e := li_EnsureReplicaConfigured (r_Local r) source in
  match e with
  | None => Done (after steadyRequeue)
  | Some f =>
      if IsReplicationMetadataError f then
        run! repair := li_RepairReplication (r_Local r) source in
        match repair with
        | Some repairErr => if amPrimary then shutdown else Done (failed repairErr)
        | None => Done (after steadyRequeue)
        end
      else if amPrimary then shutdown
      else Done (failed f)
  end.

Definition reconcileAsyncRole (r : Reconciler) (enabled : bool) (c : RoleCluster) (status : Status) : prog Outcome :=
  let me := r_InstanceName r in
  let target := rc_TargetPrimary c in
  let current := rc_CurrentPrimary c in
  let amPrimary := is_primary status in
  if isDiverged c me then
    run! _ := (if amPrimary then
                 run! e := li_Demote (r_Local r) in
                 match e with
                 | None => run! _ := releaseLease r enabled "" in Done tt
                 | Some _ => Done tt
                 end
               else Done tt) in
    Done (after steadyRequeue)
  else if String.eqb target me then as_target r enabled current status
  else if empty current || String.eqb current me then
    run! e := (if amPrimary then stepDown r enabled else Done None) in
    Done (match e with Some e => mkOutcome 0 (Some e) | None => after waitRequeue end)
  else if amPrimary then
    run! e := li_Demote (r_Local r) in
    match e with
    | Some _ => run! e := li_Shutdown (r_Local r) in Done (mkOutcome 0 (LocalFailed <$> e))
    | None => run! _ := handOffLease r enabled in follow r current true
    end
  else follow r current false.

(** ** The group role *)

Definition groupObservationAnnotation : string := "mysql.cnmsql.co/gr-observed".
Definition forceQuorumMembersAnnotation : string := "cnmsql.cnmsql.co/force-quorum-members".
Definition forceGroupRebootstrapAnnotation : string := "cnmsql.cnmsql.co/force-group-rebootstrap".
Definition clusterPhaseBlocked : string := "Blocked".
Definition clusterPhaseFullOutage : string := "FullOutage".
Definition MemberStateError : string := "ERROR".

(** Designated, and no group yet. *)
Definition shouldBootstrap (r : Reconciler) (c : RoleCluster) : bool :=
  String.eqb (rc_TargetPrimary c) (r_InstanceName r) &&
  match rc_GroupStatus c with None => true | Some gr => negb (gr_Bootstrapped gr) end.

(** A crisis only guided recovery resolves. *)
Definition inRecovery (c : RoleCluster) : bool :=
  (String.eqb (rc_Phase c) clusterPhaseBlocked || String.eqb (rc_Phase c) clusterPhaseFullOutage) &&
  match rc_GroupStatus c with Some gr => gr_Bootstrapped gr && negb (gr_HasQuorum gr) | None => false end.

Section Group.
(** The first eight bytes of the SHA-256 of a text, in hexadecimal. *)
Context (digest : string -> string).

Definition NUL : string := str1 "000".

Definition groupObservationFingerprint (gr : option MemberStatus) : string :=
  let '(primary, viewID, state, hasQuorum) :=
    match gr with
    | None => ("", "", "", false)
    | Some gr =>
        let online := count (fun m => String.eqb (vm_State m) MemberStateOnline) (ms_Members gr) in
        (ms_PrimaryMemberID gr, ms_ViewID gr, ms_State gr, Z.of_nat (length (ms_Members gr)) <? online * 2)
    end in
  digest (primary +:+ NUL +:+ viewID +:+ NUL +:+ state +:+ NUL +:+ (if hasQuorum : bool then "true" else "false")).

(** Its error is logged and ignored. *)
Definition ringGroupObservationDoorbell (gr : option MemberStatus) : prog (option error) :=
  run! pod := req GetPodAnnotations in
  match pod with
  | inr e => Done (Some (api_err e))
  | inl annotations =>
      let fingerprint := groupObservationFingerprint gr in
      if bool_decide (annotations !! groupObservationAnnotation = Some fingerprint) ||
         (empty fingerprint && bool_decide (annotations !! groupObservationAnnotation = None)) then Done None
      else req (PatchPodAnnotation groupObservationAnnotation (Some fingerprint))
  end.

(** Clears a doorbell; a failure is logged. *)
Definition clear_annotation (key : string) : prog Outcome :=
  run! _ := req (PatchPodAnnotation key None) in Done (after steadyRequeue).

Definition member_online (gr : option MemberStatus) : bool :=
  match gr with Some gr => String.eqb (ms_State gr) MemberStateOnline | None => false end.

Definition rebootstrap (r : Reconciler) (status : Status) : prog Outcome :=
  if member_online (su_GroupReplication status) then clear_annotation forceGroupRebootstrapAnnotation
  else
    run! _ := li_StopGroupReplication (r_Local r) in
    run! e := li_BootstrapGroup (r_Local r) in
    match e with
    | Some _ => Done (after waitRequeue)
    | None => clear_annotation forceGroupRebootstrapAnnotation
    end.

Definition join_group (r : Reconciler) (c : RoleCluster) : prog Outcome :=
  if shouldBootstrap r c then
    run! e := li_BootstrapGroup (r_Local r) in
    Done (match e with Some f => failed f | None => after waitRequeue end)
  else if inRecovery c then Done (after waitRequeue)
  else
    run! e := li_PrepareGroupJoin (r_Local r) (so_User (r_SourceTemplate r)) (so_Password (r_SourceTemplate r)) in
    match e with
    | Some f => Done (failed f)
    | None =>
        run! e := li_StartGroupReplication (r_Local r) in
        Done (match e with Some f => failed f | None => after waitRequeue end)
    end.

Definition ensure_member (r : Reconciler) (c : RoleCluster) (status : Status) : prog Outcome :=
  let gr := su_GroupReplication status in
  run! _ := ringGroupObservationDoorbell gr in
  match gr with
  | Some g =>
      if String.eqb (ms_State g) MemberStateOnline then Done (after groupObservationRequeue)
      else if String.eqb (ms_State g) MemberStateRecovering then Done (after waitRequeue)
      else if String.eqb (ms_State g) MemberStateError then Done (after waitRequeue)
      else join_group r c
  | None => join_group r c
  end.

Definition reconcileGroupRole (r : Reconciler) (c : RoleCluster) (status : Status) : prog Outcome :=
  run! pod := req GetPodAnnotations in
  match pod with
  | inr _ => ensure_member r c status
  | inl annotations =>
      let addrs := default "" (annotations !! forceQuorumMembersAnnotation) in
      if negb (empty addrs) then
        run! e := li_ForceGroupMembers (r_Local r) [addrs] in
        match e with
        | Some _ => Done (after waitRequeue)
        | None => clear_annotation forceQuorumMembersAnnotation
        end
      else if String.eqb (default "" (annotations !! forceGroupRebootstrapAnnotation)) "yes" then rebootstrap r status
      else ensure_member r c status
  end.

(** ** A pass *)

Definition lease_enabled (r : Reconciler) (c : RoleCluster) : bool :=
  negb (r_groupReplication r) && default true (rc_EnablePrimaryLease c).

Definition reconcile_fenced (r : Reconciler) (enabled : bool) (c : RoleCluster) : prog Outcome :=
  if rc_GroupReplicationMode c then
    run! e := li_StopGroupReplication (r_Local r) in
    Done (after (match e with Some _ => waitRequeue | None => steadyRequeue end))
  else
    run! e := li_Fence (r_Local r) in
    match e with
    | Some _ => Done (after waitRequeue)
    | None => run! _ := releaseLease r enabled "" in Done (after steadyRequeue)
    end.

Definition reconcile_role (r : Reconciler) (enabled : bool) (c : RoleCluster) : prog Outcome :=
  if isFenced c (r_InstanceName r) then reconcile_fenced r enabled c
  else
    run! e := li_Unfence (r_Local r) in
    match e with
    | Some _ => Done (after waitRequeue)
    | None =>
        run! status := li_Status (r_Local r) in
        match status with
        | inr _ => Done (after waitRequeue)
        | inl status =>
            if rc_GroupReplicationMode c then reconcileGroupRole r c status
            else reconcileAsyncRole r enabled c status
        end
    end.

(** [Reconcile]; the [primaryLeaseEnabled] field it leaves is the first result. *)
Definition Reconcile (r : Reconciler) (enabled : bool) : prog (bool * Outcome) :=
  run! c := req GetCluster in
  match c with
  | inr e => Done (enabled, mkOutcome 0 (APIFailed <$> IgnoreNotFound e))
  | inl c =>
      let enabled := lease_enabled r c in
      run! out := reconcile_role r enabled c in Done (enabled, out)
  end.

(** What [Start] runs once the manager was told to stop. *)
Definition shutdown_release (r : Reconciler) (enabled : bool) : prog (option error) := releaseLease r enabled "".
End Group.

(** ** Runs of a program *)

(** A request and the answer it got. *)
Definition event : Type := {r : request & answer r}.
Definition ev (r : request) (a : answer r) : event := existT r a.

(** [p] ends in [a] after the exchange [h]. *)
Fixpoint yields {A} (p : prog A) (h : list event) (a : A) : Prop :=
  match p with
  | Done b => h = [] /\ a = b
  | Ask r k => exists x h', h = ev r x :: h' /\ yields (k x) h' a
  end.

(** Every request of [p] satisfies [P] of what was exchanged before it; [h] is what
    was exchanged before [p]. *)
Fixpoint always {A} (P : list event -> request -> Prop) (h : list event) (p : prog A) : Prop :=
  match p with
  | Done _ => True
  | Ask r k => P h r /\ forall x, always P (h ++ [ev r x]) (k x)
  end.

Lemma always_mono {A} (P Q : list event -> request -> Prop) h (p : prog A) :
  (forall h' r, P (h ++ h') r -> Q (h ++ h') r) -> always P h p -> always Q h p.
Proof.
  revert h. induction p as [a|r k IH]; intros h HPQ; cbn; [done|]. intros [Hr Hk]. split.
  - rewrite <- (app_nil_r h). apply HPQ. by rewrite app_nil_r.
  - intros x. apply IH; [|apply Hk]. intros h' r'. rewrite <- !app_assoc. apply HPQ.
Qed.

Lemma always_bind {A B} (P : list event -> request -> Prop) h (p : prog A) (f : A -> prog B) :
  always P h p -> (forall h' a, yields p h' a -> always P (h ++ h') (f a)) -> always P h (pbind p f).
Proof.
  revert h. induction p as [a|r k IH]; intros h; cbn.
  - intros _ Hf. rewrite <- (app_nil_r h). by apply Hf.
  - intros [Hr Hk] Hf. split; [done|]. intros x. apply IH; [done|]. intros h' a Hy. rewrite <- app_assoc. apply Hf. cbn. eauto.
Qed.

(** The simple way: requests that are allowed whatever happened. *)
Lemma always_every {A} (Q : request -> Prop) h (p : prog A) : always (fun _ => Q) [] p -> always (fun _ => Q) h p.
Proof.
  assert (forall h1 h2, always (fun _ => Q) h1 p -> always (fun _ => Q) h2 p) as H; [|apply H].
  induction p as [a|r k IH]; intros h1 h2; cbn; [done|]. intros [Hr Hk]. split; [done|]. intros x. eapply IH, Hk.
Qed.

(** ** Who clears [read_only] *)

Definition clears (q : request) : bool :=
  match q with Exec stmt => String.eqb stmt (SetReadOnlyStatement false) | _ => false end.

(** Every request of a program satisfies [Q], whatever happens. *)
Definition within {A} (Q : request -> Prop) (p : prog A) : Prop := forall h, always (fun _ q => Q q) h p.

(** A program that leaves [read_only] alone or sets it. *)
Abbreviation spares := (within (fun q => clears q = false)).

Create HintDb within.

Lemma within_done {A} Q (a : A) : within Q (Done a).
Proof. by intros h. Qed.

Lemma within_ask {A} (Q : request -> Prop) r (k : answer r -> prog A) : Q r -> (forall x, within Q (k x)) -> within Q (Ask r k).
Proof. intros Hr Hk h. cbn. split; [done|]. intros x. apply Hk. Qed.

Lemma within_bind {A B} Q (p : prog A) (f : A -> prog B) : within Q p -> (forall a, within Q (f a)) -> within Q (pbind p f).
Proof. intros Hp Hf h. apply always_bind; [apply Hp|]. intros h' a _. apply Hf. Qed.

Lemma within_req (Q : request -> Prop) r : Q r -> within Q (req r).
Proof. intros Hr. apply within_ask; [done|]. intros x. apply within_done. Qed.

Lemma within_exec (Q : request -> Prop) stmt : Q (Exec stmt) -> within Q (exec stmt).
Proof. intros H. apply within_bind; [by apply within_req|]. intros e. apply within_done. Qed.

#[export] Hint Resolve within_done within_exec within_req : within.

(** Walks a program: binds, branches, requests. *)
Ltac walk :=
  repeat first
    [ progress (intros; cbn beta iota)
    | solve [auto with within nocore]
    | apply within_bind
    | apply within_ask; [reflexivity|]
    | case_match
    | apply within_exec; reflexivity
    | apply within_req; reflexivity ].

Section Spares.
Context (e : Engine) (v : Version) (c : Controller) (Hc : c_repl c = mkManager (Repl e v) v).

Lemma spares_scalar q : spares (scalarString q).
Proof. unfold scalarString. walk. Qed.
#[local] Hint Resolve spares_scalar : within.

Lemma spares_state : spares (GetReplicaState (c_repl c)).
Proof. unfold GetReplicaState. walk. Qed.
#[local] Hint Resolve spares_state : within.

Lemma spares_status : spares (GetStatus c).
Proof. unfold GetStatus, collectStatus, ReadOnly, GTIDExecuted, groupReplicationStatus, GroupView, serverUUID. walk. Qed.

Lemma spares_stop : spares (exec (d_StopReplica (Repl e v))).
Proof. unfold Repl, mysqlReplDialect, StopReplicaStatement. apply within_exec. by destruct e, (UsesReplicaTerminology v) eqn:E; cbn; rewrite ?E. Qed.
Lemma spares_start : spares (exec (d_StartReplica (Repl e v))).
Proof. unfold Repl, mysqlReplDialect, StartReplicaStatement. apply within_exec. by destruct e, (UsesReplicaTerminology v) eqn:E; cbn; rewrite ?E. Qed.
Lemma spares_reset all : spares (exec (d_ResetReplica (Repl e v) all)).
Proof.
  unfold Repl, mysqlReplDialect, ResetReplicaStatement. apply within_exec.
  by destruct e, all, (UsesReplicaTerminology v) eqn:E; cbn; rewrite ?E.
Qed.
Lemma spares_change opts : spares (exec (d_ChangeSource (Repl e v) opts)).
Proof.
  apply within_exec. unfold Repl, mysqlReplDialect, mariadbReplDialect, d_ChangeSource, ChangeSourceStatement, MariaDBChangeSourceStatement.
  by destruct e, (UsesReplicaTerminology v).
Qed.
Lemma spares_reset_logs : spares (exec (d_ResetBinaryLogs (Repl e v))).
Proof. apply within_exec. unfold Repl, mysqlReplDialect, ResetBinaryLogsStatement. by destruct e; cbn; try case_match. Qed.
#[local] Hint Resolve spares_stop spares_start spares_reset spares_change spares_reset_logs : within.

Lemma spares_configure opts start : spares (configureSource (c_repl c) opts start).
Proof using Hc. unfold configureSource. rewrite Hc. cbn [m_repl]. walk. Qed.
#[local] Hint Resolve spares_configure : within.

Lemma spares_ensure opts : spares (ctl_EnsureReplicaConfigured c opts).
Proof using Hc.
  unfold ctl_EnsureReplicaConfigured, EnsureReplicaConfigured, ConfigureSource, StartReplica. walk. rewrite Hc. cbn [m_repl]. walk.
Qed.

Lemma spares_repair opts : spares (ctl_RepairReplication c opts).
Proof using Hc.
  unfold ctl_RepairReplication, RepairReplication. apply within_bind; [|walk]. destruct (so_AutoPosition opts); cbn [negb]; [|walk].
  rewrite Hc. cbn [m_repl]. walk; try (rewrite <- Hc; walk).
Qed.

Lemma spares_demote : spares (Demote c).
Proof using Hc.
  unfold Demote, repl_Demote, RunIsolated. cbn [length Nat.eqb]. walk; destruct (super_read_only _); cbn [exec_all]; walk.
Qed.
Lemma spares_shutdown : spares (Shutdown c).
Proof. unfold Shutdown. walk. Qed.
Lemma spares_fence : spares (Fence c).
Proof. unfold Fence. walk. Qed.
Lemma spares_unfence : spares (Unfence c).
Proof. unfold Unfence. walk. Qed.

Lemma spares_prepare user password : spares (PrepareGroupJoin c user password).
Proof using Hc.
  unfold PrepareGroupJoin, isFreshMember, serverUUID, groupName, GTIDExecuted, ResetBinaryLogs. walk.
  - rewrite Hc. cbn [m_repl]. walk.
  - apply within_exec. unfold ConfigureRecoveryChannelStatement. by destruct (UsesReplicaTerminology _).
Qed.
End Spares.

(** ** What a promotion requires *)

Definition handoff_of (l : LeaseObject) : string := default "" (lo_Annotations l !! handoffPositionAnnotation).

(** Nobody else's, or run out by the clock the instance read. *)
Definition free_for (me : string) (l : LeaseObject) (h : list event) : Prop :=
  holder l = "" \/ holder l = me \/ lo_RenewTime l = None \/
  exists renew t, lo_RenewTime l = Some renew /\ ev Clock t ∈ h /\ lease_duration l < t - renew.

(** The API server accepted the Lease [l] with this instance as its holder. *)
Definition lease_taken (me : string) (l : LeaseObject) (h : list event) : Prop :=
  exists now, (ev GetLease (inl l) ∈ h /\ ev (UpdateLease (take_lease me (holder l) now false l)) None ∈ h) \/
              (l = new_lease /\ ev (CreateLease (take_lease me (holder l) now false l)) None ∈ h).

Record may_promote (r : Reconciler) (h : list event) : Prop := {
  mp_cluster : RoleCluster;
  mp_status : Status;
  mp_before : list event;
  mp_during : list event;
  mp_after : list event;
  mp_split : h = mp_before ++ mp_during ++ mp_after;
  mp_read : ev GetCluster (inl mp_cluster) ∈ mp_before;
  mp_observed : yields (li_Status (r_Local r)) mp_during (inl mp_status);
  mp_target : rc_TargetPrimary mp_cluster = r_InstanceName r;
  mp_async : rc_GroupReplicationMode mp_cluster = false;
  mp_not_diverged : r_InstanceName r ∉ rc_DivergedInstances mp_cluster;
  mp_not_fenced : r_InstanceName r ∉ rc_FencedInstances mp_cluster;
  mp_caught_up : su_Role mp_status = RolePrimary \/ caughtUp r mp_status = true;
  mp_lease : lease_enabled r mp_cluster = true ->
    exists l, lease_taken (r_InstanceName r) l mp_after /\ free_for (r_InstanceName r) l mp_after /\
      (handoff_of l = "" \/ applied r (su_GTIDExecuted mp_status) (handoff_of l) = true \/ fed mp_status = false)
}.

Lemma yields_bind {A B} (p : prog A) (f : A -> prog B) h b :
  yields (pbind p f) h b -> exists h1 h2 a, h = h1 ++ h2 /\ yields p h1 a /\ yields (f a) h2 b.
Proof.
  revert h. induction p as [a|r k IH]; intros h; cbn; [by exists [], h, a|].
  intros (x & h' & -> & Hy). apply IH in Hy as (h1 & h2 & a & -> & H1 & H2). exists (ev r x :: h1), h2, a. split; [done|]. eauto.
Qed.

Lemma yields_req r h a : yields (req r) h a -> h = [ev r a].
Proof. cbn. by intros (x & h' & -> & -> & ->). Qed.

Lemma yields_done {A} (b : A) h a : yields (Done b) h a -> h = [] /\ a = b.
Proof. done. Qed.

(** Finds an event in what was exchanged. *)
Ltac exchanged :=
  lazymatch goal with
  | |- _ ∈ _ ++ _ => apply elem_of_app; first [left; exchanged|right; exchanged]
  | |- _ ∈ _ :: _ => first [apply list_elem_of_here|apply list_elem_of_further; exchanged]
  | _ => assumption
  end.

(** Opens the run of a program. *)
Ltac inv_yields :=
  repeat match goal with
  | H : yields (pbind _ _) _ _ |- _ => let h1 := fresh "h" in let h2 := fresh "h" in let a := fresh "a" in
      apply yields_bind in H as (h1 & h2 & a & -> & ? & H)
  | H : yields (req _) _ _ |- _ => apply yields_req in H as ->
  | H : yields (Done _) _ _ |- _ => apply yields_done in H as [-> H]; try discriminate H; simplify_eq
  end.

Lemma acquire_from_yields r create l h handoff :
  yields (acquire_from r false create l) h (inl handoff) ->
  handoff = handoff_of l /\ free_for (r_InstanceName r) l h /\
  exists now, if create then ev (CreateLease (take_lease (r_InstanceName r) (holder l) now false l)) None ∈ h
              else ev (UpdateLease (take_lease (r_InstanceName r) (holder l) now false l)) None ∈ h.
Proof.
  unfold acquire_from. cbn [andb]. intros H. apply yields_bind in H as (h1 & h2 & blocked & -> & Hb & H).
  destruct blocked; [by inv_yields|].
  assert (free_for (r_InstanceName r) l h1) as Hfree.
  { destruct (negb (empty (holder l)) && negb (String.eqb (holder l) (r_InstanceName r))) eqn:E.
    - clear H. apply yields_bind in Hb as (h3 & h4 & expired & -> & Hx & Hb). inv_yields. destruct expired; [|done].
      unfold leaseExpired in Hx. destruct (lo_RenewTime l) as [renew|] eqn:Er; [|right; right; by left].
      inv_yields. right; right; right. exists renew, a. split; [done|]. split; [exchanged|]. by apply Z.ltb_lt.
    - apply andb_false_iff in E as [E|E]; apply negb_false_iff, String.eqb_eq in E; [by left|right; by left]. }
  assert (handoff = handoff_of l /\ exists now, if create
    then ev (CreateLease (take_lease (r_InstanceName r) (holder l) now false l)) None ∈ h2
    else ev (UpdateLease (take_lease (r_InstanceName r) (holder l) now false l)) None ∈ h2) as [-> [now Hnow]].
  { apply yields_bind in H as (h3 & h4 & now & -> & Hn & H). apply yields_bind in H as (h5 & h6 & err & -> & He & H).
    destruct err as [e|]; inv_yields. split; [done|]. exists now. inv_yields.
    destruct create; [apply (yields_req (CreateLease _)) in He as ->|apply (yields_req (UpdateLease _)) in He as ->]; exchanged. }
  split; [done|]. split; [|exists now; destruct create; exchanged].
  destruct Hfree as [?|[?|[?|(renew & t & ? & ? & ?)]]]; [by left|right; by left|right; right; by left|].
  right; right; right. exists renew, t. split; [done|]. split; [exchanged|done].
Qed.

Lemma acquire_yields r enabled h handoff :
  yields (acquireOrRenewLease r enabled false) h (inl handoff) -> enabled = true ->
  exists l, lease_taken (r_InstanceName r) l h /\ free_for (r_InstanceName r) l h /\ handoff = handoff_of l.
Proof.
  intros H ->. unfold acquireOrRenewLease in H. cbn [negb] in H. apply yields_bind in H as (h1 & h2 & got & -> & Hl & H).
  apply yields_req in Hl as ->.
  assert (forall l h, free_for (r_InstanceName r) l h -> free_for (r_InstanceName r) l ([ev GetLease got] ++ h)) as Hf.
  { intros l h [?|[?|[?|(renew & t & ? & ? & ?)]]]; [by left|right; by left|right; right; by left|]. right; right; right.
    exists renew, t. split; [done|]. split; [exchanged|done]. }
  destruct got as [l|[|err]]; [| |by inv_yields]; apply acquire_from_yields in H as (-> & Hfree & now & Hnow).
  - exists l. split; [exists now; left; split; exchanged|]. split; [by apply Hf|done].
  - exists new_lease. split; [exists now; right; split; [done|exchanged]|]. split; [by apply Hf|done].
Qed.

Lemma spares_always {A} (P : list event -> request -> Prop) (p : prog A) h :
  spares p -> (forall h q, clears q = false -> P h q) -> always P h p.
Proof. intros Hp HP. eapply always_mono, Hp. intros h' q Hq. by apply HP. Qed.

Lemma always_true {A} (P : list event -> request -> Prop) (p : prog A) h : (forall h' q, P (h ++ h') q) -> always P h p.
Proof.
  revert h. induction p as [a|r k IH]; intros h HP; cbn; [done|]. split; [rewrite <- (app_nil_r h); apply HP|].
  intros x. apply IH. intros h' q. rewrite <- app_assoc. apply HP.
Qed.

Section Promotion.
Context (digest : string -> string) (e : Engine) (v : Version) (ctl : Controller) (Hctl : c_repl ctl = mkManager (Repl e v) v).
Context (r : Reconciler) (Hlocal : r_Local r = LocalController ctl).

(** The operations of the controller, in the context. *)
Ltac local_spares :=
  pose proof (spares_status ctl); pose proof (spares_ensure e v ctl Hctl); pose proof (spares_repair e v ctl Hctl);
  pose proof (spares_demote e v ctl Hctl); pose proof (spares_shutdown ctl); pose proof (spares_fence ctl);
  pose proof (spares_unfence ctl); pose proof (spares_prepare e v ctl Hctl);
  rewrite ?Hlocal; cbn [li_Status li_Demote li_Shutdown li_EnsureReplicaConfigured li_RepairReplication li_Fence li_Unfence
    li_PrepareGroupJoin li_StartGroupReplication li_StopGroupReplication li_BootstrapGroup li_ForceGroupMembers LocalController].

Lemma spares_release enabled handoff : spares (releaseLease r enabled handoff).
Proof. unfold releaseLease. walk. Qed.
Lemma spares_acquire enabled settled : spares (acquireOrRenewLease r enabled settled).
Proof. unfold acquireOrRenewLease, acquire_from, leaseExpired. walk. Qed.
Lemma spares_current me : spares (setCurrentPrimary me).
Proof. unfold setCurrentPrimary. walk. Qed.
#[local] Hint Resolve spares_release spares_acquire spares_current : within.

Lemma spares_handoff enabled : spares (handOffLease r enabled).
Proof using Hlocal Hctl. unfold handOffLease. local_spares. walk. Qed.
#[local] Hint Resolve spares_handoff : within.

Lemma spares_follow current amPrimary : spares (follow r current amPrimary).
Proof using Hlocal Hctl. unfold follow. local_spares. walk. Qed.
#[local] Hint Resolve spares_follow : within.

Lemma spares_group c status : spares (reconcileGroupRole digest r c status).
Proof using Hlocal Hctl.
  unfold reconcileGroupRole, ensure_member, join_group, rebootstrap, ringGroupObservationDoorbell, clear_annotation,
    StartGroupReplication, StopGroupReplication, BootstrapGroup, Bootstrap, ForceGroupMembers.
  local_spares. unfold StartGroupReplication, StopGroupReplication, BootstrapGroup, Bootstrap, ForceGroupMembers. walk.
Qed.

Lemma spares_fenced enabled c : spares (reconcile_fenced r enabled c).
Proof using Hlocal Hctl. unfold reconcile_fenced. local_spares. unfold StopGroupReplication. walk. Qed.

Definition guarded (h : list event) (q : request) : Prop := clears q = true -> may_promote r h.

Lemma guarded_spares {A} (p : prog A) h : spares p -> always guarded h p.
Proof. intros Hp. apply spares_always; [done|]. unfold guarded. intros ? q ->. done. Qed.

Lemma as_target_guarded c status hb hs :
  ev GetCluster (inl c) ∈ hb -> yields (li_Status (r_Local r)) hs (inl status) ->
  rc_TargetPrimary c = r_InstanceName r -> rc_GroupReplicationMode c = false ->
  isDiverged c (r_InstanceName r) = false -> isFenced c (r_InstanceName r) = false ->
  always guarded (hb ++ hs) (as_target r (lease_enabled r c) (rc_CurrentPrimary c) status).
Proof using Hlocal Hctl.
  intros Hc Hs Ht Hm Hd Hf. unfold as_target. destruct (is_primary status && _ && _).
  { apply guarded_spares. local_spares. walk. }
  destruct (negb (is_primary status) && negb (caughtUp r status)) eqn:Ecatch; [done|].
  apply always_bind; [apply guarded_spares; walk|]. intros h2 lease Hl. destruct lease as [handoff|err]; [|done].
  destruct (negb (empty handoff) && negb (applied r (su_GTIDExecuted status) handoff) && fed status) eqn:Ewait; [done|].
  apply always_bind.
  - apply always_true. intros h' q _. refine (Build_may_promote r _ c status hb hs (h2 ++ h') _ Hc Hs Ht Hm _ _ _ _).
    + by rewrite <- !app_assoc.
    + unfold isDiverged in Hd. intros Hin. apply not_true_iff_false in Hd. apply Hd, existsb_exists.
      exists (r_InstanceName r). split; [by apply list_elem_of_In|apply String.eqb_refl].
    + unfold isFenced in Hf. intros Hin. apply not_true_iff_false in Hf. apply Hf, existsb_exists.
      exists (r_InstanceName r). split; [by apply list_elem_of_In|apply String.eqb_refl].
    + apply andb_false_iff in Ecatch as [E|E]; apply negb_false_iff in E; [left|by right]. by apply bool_decide_eq_true in E.
    + intros He. rewrite He in Hl. apply acquire_yields in Hl as (l & (now & Hnow) & Hfree & ->); [|done]. exists l. split; [|split].
      * exists now. destruct Hnow as [[H1 H2]|[H1 H2]]; [left|right]; split; try done; exchanged.
      * destruct Hfree as [?|[?|[?|(renew & t & ? & ? & ?)]]]; [by left|right; by left|right; right; by left|]. right; right; right.
        exists renew, t. split; [done|]. split; [exchanged|done].
      * apply andb_false_iff in Ewait as [[E|E]%andb_false_iff|E]; [left|right; left|right; by right].
        -- by apply negb_false_iff, String.eqb_eq in E.
        -- by apply negb_false_iff in E.
  - intros h' res _. apply guarded_spares. walk.
Qed.

Lemma async_guarded c status hb hs :
  ev GetCluster (inl c) ∈ hb -> yields (li_Status (r_Local r)) hs (inl status) ->
  rc_GroupReplicationMode c = false -> isFenced c (r_InstanceName r) = false ->
  always guarded (hb ++ hs) (reconcileAsyncRole r (lease_enabled r c) c status).
Proof using Hlocal Hctl.
  intros Hc Hs Hm Hf. unfold reconcileAsyncRole, stepDown. destruct (isDiverged c (r_InstanceName r)) eqn:Ed.
  { apply guarded_spares. local_spares. walk. }
  destruct (String.eqb_spec (rc_TargetPrimary c) (r_InstanceName r)) as [Et|_]; [by apply as_target_guarded|].
  apply guarded_spares. local_spares. walk.
Qed.

Lemma Reconcile_guarded enabled : always guarded [] (Reconcile digest r enabled).
Proof using Hlocal Hctl.
  unfold Reconcile. apply always_bind; [apply guarded_spares; walk|]. intros h1 got H1. apply yields_req in H1 as ->.
  destruct got as [c|err]; [|done]. apply always_bind; [|by intros].
  unfold reconcile_role. destruct (isFenced c (r_InstanceName r)) eqn:Ef; [apply guarded_spares, spares_fenced|].
  apply always_bind; [apply guarded_spares; local_spares; walk|]. intros h2 e2 _. destruct e2; [done|].
  apply always_bind; [apply guarded_spares; local_spares; walk|]. intros h3 status H3. destruct status as [status|f]; [|done].
  destruct (rc_GroupReplicationMode c) eqn:Em; [apply guarded_spares, spares_group|].
  apply async_guarded; [exchanged|done..].
Qed.
End Promotion.

(** C4: a pass of the role reconciler clears [read_only], whatever the server and the
    API answer, only after it read a Cluster that names this instance the target and
    lists it neither diverged nor fenced, found itself a primary or caught up, and
    (with the Lease enabled) got the API server to accept it as the holder of a Lease
    that was free, its own or run out; and then it has applied the position the
    outgoing primary handed over, or that primary no longer feeds it. *)
Theorem promotion_is_guarded digest e v ctl r enabled :
  c_repl ctl = mkManager (Repl e v) v -> r_Local r = LocalController ctl ->
  always (fun h q => clears q = true -> may_promote r h) [] (Reconcile digest r enabled).
Proof. intros Hctl Hlocal. exact (Reconcile_guarded digest e v ctl Hctl r Hlocal enabled). Qed.

(** ** Group members *)

Definition starts_group (q : request) : bool :=
  match q with Exec stmt => String.eqb stmt "SET GLOBAL group_replication_bootstrap_group = ON" | _ => false end.

(** What a group member may ask of the world: no Lease, no Cluster status, no
    [read_only]. *)
Definition members_only (q : request) : bool :=
  match q with
  | GetLease | CreateLease _ | UpdateLease _ | PatchCurrentPrimary _ _ _ | SupervisorShutdown => false
  | Exec _ => negb (clears q)
  | _ => true
  end.

Definition plain (q : request) : Prop := members_only q && negb (starts_group q) = true.

(** The instance is the designated founder of a group that never was, or the operator
    rang for a re-bootstrap and it is not ONLINE. *)
Definition may_found (r : Reconciler) (c : RoleCluster) (status : Status) (h : list event) : Prop :=
  (rc_TargetPrimary c = r_InstanceName r /\ forall gr, rc_GroupStatus c = Some gr -> gr_Bootstrapped gr = false) \/
  (exists annotations, ev GetPodAnnotations (inl annotations) ∈ h /\
     annotations !! forceGroupRebootstrapAnnotation = Some "yes" /\ member_online (su_GroupReplication status) = false).

Definition group_rule (r : Reconciler) (c : RoleCluster) (status : Status) (h : list event) (q : request) : Prop :=
  members_only q = true /\ (starts_group q = true -> may_found r c status h).

Lemma within_always {A} (P : list event -> request -> Prop) (Q : request -> Prop) (p : prog A) h :
  within Q p -> (forall h' q, Q q -> P (h ++ h') q) -> always P h p.
Proof. intros Hp HP. eapply always_mono, Hp. intros h' q Hq. by apply HP. Qed.

Section GroupRole.
Context (digest : string -> string) (e : Engine) (v : Version) (ctl : Controller) (Hctl : c_repl ctl = mkManager (Repl e v) v).
Context (r : Reconciler) (Hlocal : r_Local r = LocalController ctl) (c : RoleCluster) (status : Status).

Lemma plain_prepare user password : within plain (PrepareGroupJoin ctl user password).
Proof using Hctl.
  assert (within plain (exec (d_ResetBinaryLogs (Repl e v)))) as Hreset.
  { apply within_exec. unfold Repl, mysqlReplDialect, ResetBinaryLogsStatement. by destruct e; cbn; try case_match. }
  unfold PrepareGroupJoin, isFreshMember, serverUUID, groupName, GTIDExecuted, scalarString, ResetBinaryLogs. walk.
  - rewrite Hctl. cbn [m_repl]. exact Hreset.
  - apply within_exec. unfold ConfigureRecoveryChannelStatement. by destruct (UsesReplicaTerminology _).
Qed.

Lemma plain_rule {A} (p : prog A) h : within plain p -> always (group_rule r c status) h p.
Proof.
  intros Hp. eapply within_always; [exact Hp|]. intros h' q [H1 H2]%andb_true_iff. apply negb_true_iff in H2. split; [done|].
  by rewrite H2.
Qed.

(** Founding, where it is allowed. *)
Lemma found_rule h : (forall h', may_found r c status (h ++ h')) -> always (group_rule r c status) h BootstrapGroup.
Proof.
  intros Hf. eapply (within_always _ (fun q => members_only q = true)); [unfold BootstrapGroup, Bootstrap; walk|]. intros h' q Hq. split; [done|]. intros _. apply Hf.
Qed.

Lemma join_rule h : always (group_rule r c status) h (join_group r c).
Proof using Hlocal Hctl.
  unfold join_group. rewrite Hlocal. cbn [li_BootstrapGroup li_PrepareGroupJoin li_StartGroupReplication LocalController].
  destruct (shouldBootstrap r c) eqn:Eb.
  - apply always_bind; [|by intros]. apply found_rule. intros h'. left. apply andb_true_iff in Eb as [Et Eg].
    apply String.eqb_eq in Et. split; [done|]. intros gr Hgr. rewrite Hgr in Eg. by apply negb_true_iff.
  - apply plain_rule. pose proof plain_prepare. unfold StartGroupReplication. walk.
Qed.

Lemma ensure_rule h : always (group_rule r c status) h (ensure_member digest r c status).
Proof using Hlocal Hctl.
  unfold ensure_member. apply always_bind; [apply plain_rule; unfold ringGroupObservationDoorbell; walk|]. intros h' a _.
  repeat case_match; try done; apply join_rule.
Qed.

Lemma rebootstrap_rule annotations h :
  ev GetPodAnnotations (inl annotations) ∈ h -> annotations !! forceGroupRebootstrapAnnotation = Some "yes" ->
  always (group_rule r c status) h (rebootstrap r status).
Proof using Hlocal.
  intros Hann Hyes. unfold rebootstrap, clear_annotation. rewrite Hlocal. cbn [li_StopGroupReplication li_BootstrapGroup LocalController].
  destruct (member_online (su_GroupReplication status)) eqn:Eo; [apply plain_rule; walk|].
  apply always_bind; [apply plain_rule; unfold StopGroupReplication; walk|]. intros h1 e1 _.
  apply always_bind; [|intros h2 e2 _; apply plain_rule; walk]. apply found_rule. intros h'. right. exists annotations.
  split; [exchanged|done].
Qed.

Lemma group_role_rule : always (group_rule r c status) [] (reconcileGroupRole digest r c status).
Proof using Hlocal Hctl.
  unfold reconcileGroupRole. apply always_bind; [apply plain_rule; walk|]. intros h1 got H1. apply yields_req in H1 as ->.
  destruct got as [annotations|err]; [|apply ensure_rule].
  destruct (negb (empty _)); [apply plain_rule; rewrite Hlocal; unfold clear_annotation; cbn [li_ForceGroupMembers LocalController];
                              unfold ForceGroupMembers; walk|].
  destruct (String.eqb_spec (default "" (annotations !! forceGroupRebootstrapAnnotation)) "yes") as [Ey|_]; [|apply ensure_rule].
  apply (rebootstrap_rule annotations); [exchanged|].
  destruct (annotations !! forceGroupRebootstrapAnnotation) as [x|]; cbn in Ey; [by rewrite Ey|discriminate].
Qed.
End GroupRole.

(** the role pass of a group member, whatever the server and the API answer, never
    touches the Lease, the Cluster's status or [read_only], and founds a group only
    when the Cluster designates it and no group was ever bootstrapped, or when the
    operator rang its Pod for a re-bootstrap and it is not ONLINE; and the flag that
    founds a group is turned off again before anything else happens. *)
Theorem group_is_founded_once digest e v ctl r c status :
  c_repl ctl = mkManager (Repl e v) v -> r_Local r = LocalController ctl ->
  always (group_rule r c status) [] (reconcileGroupRole digest r c status) /\
  forall h res, yields (li_BootstrapGroup (r_Local r)) h res ->
    (exists f, h = [ev (Exec "SET GLOBAL group_replication_bootstrap_group = ON") (Some f)]) \/
    exists started off, h = [ev (Exec "SET GLOBAL group_replication_bootstrap_group = ON") None;
                             ev (Exec StartGroupReplicationStatement) started;
                             ev (Exec "SET GLOBAL group_replication_bootstrap_group = OFF") off].
Proof.
  intros Hctl Hlocal. split; [by eapply group_role_rule|]. intros h res. rewrite Hlocal. cbn. intros H.
  destruct H as (x & h' & -> & H). cbn in H. destruct x as [f|]; cbn in H; [destruct H as [-> _]; left; by exists f|].
  destruct H as (y & h'' & -> & z & h''' & -> & -> & _). right. by exists y, z.
Qed.

(** ** Samples *)

(** What was exchanged when a program first clears [read_only], answered by [o]. *)
Fixpoint first_clear {A} (o : forall r, answer r) (h : list event) (p : prog A) : option (list event) :=
  match p with
  | Done _ => None
  | Ask r k => if clears r then Some h else first_clear o (h ++ [ev r (o r)]) (k (o r))
  end.

Lemma always_first {A} P o h (p : prog A) h' :
  always P h p -> first_clear o h p = Some h' -> exists q, clears q = true /\ P h' q.
Proof.
  revert h. induction p as [a|r k IH]; intros h; cbn; [done|]. intros [Hr Hk]. destruct (clears r) eqn:E.
  - intros [= <-]. by exists r.
  - apply IH, Hk.
Qed.

Module SampleRole.
Definition v84 : Version := mkVersion 8 4 3.
Definition ctl : Controller := mkController (mkManager (Repl mysqlEngine v84) v84) false false true true.
Definition source : SourceOptions := mkSourceOptions "" 3306 "repl" "" true true "" "" "" 0 0 false.
Definition member (name : string) : Reconciler := mkReconciler name "ns.svc" source (LocalController ctl) false "mysql".
Definition cluster (target current : string) : RoleCluster := mkRoleCluster false None target current 1 [] [] "" None.
Definition lease : LeaseObject := mkLeaseObject 7 None None None (Some 15) (Some 3) ∅.

(** A fresh server that answers every statement, in a Cluster whose target it is. *)
Definition answers (c : RoleCluster) (r : request) : answer r :=
  match r with
  | Exec _ | PinnedExec _ | Ping | Connect | SupervisorShutdown => None
  | Scalar _ | ScalarArgs _ _ => inl "1"
  | FirstRow _ => inl None
  | Rows _ => inl []
  | GroupMembers => inl []
  | GetExpected => RoleUnknown
  | SetExpected _ | GateFence | GateUnfence => tt
  | Clock => 100 * second
  | GetCluster => inl c
  | PatchCurrentPrimary _ _ _ | PatchPodAnnotation _ _ => None
  | GetLease => inl lease
  | CreateLease _ | UpdateLease _ => None
  | GetPodAnnotations => inl ∅
  end.
End SampleRole.

Lemma promotion_is_guarded_witness :
  exists h, first_clear (SampleRole.answers (SampleRole.cluster "c-1" "")) [] (Reconcile id (SampleRole.member "c-1") false) = Some h /\
    may_promote (SampleRole.member "c-1") h.
Proof.
  pose proof (promotion_is_guarded id mysqlEngine SampleRole.v84 SampleRole.ctl (SampleRole.member "c-1") false eq_refl eq_refl) as Hall.
  destruct (first_clear (SampleRole.answers (SampleRole.cluster "c-1" "")) [] (Reconcile id (SampleRole.member "c-1") false)) as [h|] eqn:E;
    [|exfalso; vm_compute in E; discriminate].
  destruct (always_first _ _ _ _ _ Hall E) as (q & Hq & Hp). exists h. split; [reflexivity|exact (Hp Hq)].
Defined.

Lemma group_is_founded_once_witness :
  let status := mkStatus RolePrimary true true "" None None in
  let c := SampleRole.cluster "c-1" "" in
  always (group_rule (SampleRole.member "c-1") c status) [] (reconcileGroupRole id (SampleRole.member "c-1") c status).
Proof.
  exact (proj1 (group_is_founded_once id mysqlEngine SampleRole.v84 SampleRole.ctl (SampleRole.member "c-1") (SampleRole.cluster "c-1" "")
    (mkStatus RolePrimary true true "" None None) eq_refl eq_refl)).
Defined.
