(* ===== verification/LeaseProtocol.v ===== *)
(** * All instances against one another

    The passes of [RoleReconciler], with the operations of [instance.Controller],
    run concurrently: each step lets one instance make its next request.  The API
    server keeps the Lease with its resource versions; a read may be as stale as the
    informer cache is, an update is accepted only on the current version, and an
    accepted update may still be reported as failed.  Clocks may be skewed.

    The server is a parameter ([Mysqld]) with what its documentation says of
    [read_only].  The Cluster an instance reads is arbitrary, except that it is
    asynchronous and has the Lease enabled.

    An instance may also start its server anew at any time.  When semi-synchronous
    replication is on and its plugins have to be installed (MySQL), the manager then
    runs [configureSemiSync], which clears [read_only] while it works, whoever holds
    the Lease; its requests interleave with the others like those of a pass.

    The theorems show that at most one server is writable as long as nobody takes an
    unreleased Lease from an instance that is still up, no instance shuts down while
    it is writable, and no starting instance that does not hold the Lease has its
    [read_only] cleared for the plugins; and that all three do happen: the Lease lasts
    15 seconds and a healthy primary renews it every 30, [Start] releases the Lease of
    a primary that is told to stop before its server is down, and a restarting replica
    is opened for writes while the primary is up. *)

From Stdlib Require Import ZArith Lia Bool Ascii String.
From stdpp Require Import base list strings gmap.
From S2P Require Import Prelude GoStrings Versions SqlText Cluster GtidModel GroupReplication Instance RoleReconciler.

Local Open Scope Z_scope.
#[local] Arguments String.append : simpl nomatch.
#[local] Arguments SetReadOnlyStatement : simpl never.

(** ** The server *)

(** The statements the asynchronous role and the semi-sync set-up issue, other than
    clearing [read_only]. *)
Inductive benign_stmt (e : Engine) (v : Version) : string -> Prop :=
| benign_stop : benign_stmt e v (d_StopReplica (Repl e v))
| benign_start : benign_stmt e v (d_StartReplica (Repl e v))
| benign_reset all : benign_stmt e v (d_ResetReplica (Repl e v) all)
| benign_change opts : benign_stmt e v (d_ChangeSource (Repl e v) opts)
| benign_super on : benign_stmt e v (SetSuperReadOnlyStatement on)
| benign_wait seconds : benign_stmt e v ("SET SESSION lock_wait_timeout = " +:+ FormatInt seconds)
| benign_default : benign_stmt e v "SET SESSION lock_wait_timeout = DEFAULT"
| benign_fast : benign_stmt e v (SetGlobalStatement "innodb_fast_shutdown" "2")
| benign_binlog stmt : stmt = "SET SESSION SQL_LOG_BIN=0" \/ stmt = "SET SESSION SQL_LOG_BIN=1" -> benign_stmt e v stmt
| benign_plugin stmt : stmt = InstallSemiSyncSourceStatement v \/ stmt = InstallSemiSyncReplicaStatement v -> benign_stmt e v stmt
| benign_semisync name value :
    name ∈ (fun f => f (d_SemiSyncNaming (Repl e v))) <$>
      [ss_EnabledVarSource; ss_EnabledVarReplica; ss_WaitForCountVar; ss_TimeoutVar] ->
    benign_stmt e v (SetGlobalStatement name value).

(** [my_exec s stmt s' err]: executing [stmt] may take the server from [s] to [s']
    with the answer [err].  [writable]: ordinary accounts may write. *)
Class Mysqld (e : Engine) (v : Version) := {
  server : Type;
  writable : server -> bool;
  my_exec : server -> string -> server -> option Failure -> Prop;
  my_benign s stmt s' err : benign_stmt e v stmt -> my_exec s stmt s' err -> writable s' = true -> writable s = true;
  my_set s s' err : my_exec s (SetReadOnlyStatement true) s' err -> writable s' = true -> writable s = true;
  my_set_done s s' : my_exec s (SetReadOnlyStatement true) s' None -> writable s' = false
}.

Section Protocol.
Context {e : Engine} {v : Version} `{My : Mysqld e v} (digest : string -> string).
(** Each instance's reconciler, and its clock against true time. *)
Context (rec : string -> Reconciler) (skew : string -> Duration).

(** ** States *)

Record Node := mkNode { n_server : server; n_enabled : bool; n_pass : prog (bool * Outcome) }.

(** A Lease taken from a holder that had not released it: whether that holder was
    stopped, how long the Lease had been renewed for and when, and when it was taken
    by the taker's clock; a manager that was told to stop; and a starting instance
    whose [read_only] was cleared for the semi-sync plugins, with whether it held the
    Lease then. *)
Inductive incident :=
| Takeover (old new : string) (stopped : bool) (renewed : option Time) (duration : Duration) (at_ : Time)
| ShutDown (name : string) (stillWritable : bool)
| Opened (name : string) (owner : bool).

Record System := mkSystem {
  y_now : Time;
  y_lease : option LeaseObject;
  y_past : list LeaseObject;
  y_nodes : gmap string Node;
  y_log : list incident
}.

Definition idle (p : prog (bool * Outcome)) : bool := match p with Done _ => true | Ask _ _ => false end.
Definition set_node (i : string) (n : Node) (y : System) : System :=
  mkSystem (y_now y) (y_lease y) (y_past y) (<[i := n]> (y_nodes y)) (y_log y).
Definition set_server (i : string) (n : Node) (s : server) (y : System) : System :=
  set_node i (mkNode s (n_enabled n) (n_pass n)) y.

Definition logged (log : list incident) (y : System) : System :=
  mkSystem (y_now y) (y_lease y) (y_past y) (y_nodes y) (y_log y ++ log).

(** Whether the Lease is [i]'s. *)
Definition owns (y : System) (i : string) : bool :=
  match y_lease y with Some l => bool_decide (lo_HolderIdentity l = Some i) | None => false end.

(** The incident of a starting instance clearing [read_only]. *)
Definition opened (i : string) (y : System) (stmt : string) : list incident :=
  if String.eqb stmt (SetReadOnlyStatement false) then [Opened i (owns y i)] else [].

(** Read-only and between passes. *)
Definition stopped (y : System) (i : string) : bool :=
  match y_nodes y !! i with Some n => negb (writable (n_server n)) && idle (n_pass n) | None => true end.

(** [MicroTime] keeps microseconds. *)
Definition micro (t : Time) : Time := t / 1000 * 1000.
Definition stored (version : nat) (l : LeaseObject) : LeaseObject :=
  mkLeaseObject version (lo_HolderIdentity l) (micro <$> lo_RenewTime l) (micro <$> lo_AcquireTime l) (lo_LeaseDurationSeconds l)
    (lo_LeaseTransitions l) (lo_Annotations l).

Definition put_lease (l : LeaseObject) (y : System) (log : list incident) : System :=
  let l := stored (length (y_past y)) l in
  mkSystem (y_now y) (Some l) (y_past y ++ [l]) (y_nodes y) (y_log y ++ log).

(** The incident of [i] writing itself over the Lease [cur]. *)
Definition takeover (i : string) (y : System) (cur l : LeaseObject) : list incident :=
  if bool_decide (lo_HolderIdentity l = Some i) && negb (empty (holder cur)) && negb (String.eqb (holder cur) i)
  then [Takeover (holder cur) i (stopped y (holder cur)) (lo_RenewTime cur) (lease_duration cur) (y_now y + skew i)]
  else [].

(** ** Steps *)

(** Answering a request of [i], whose node is [n].  Questions get any answer. *)
Definition serve (i : string) (n : Node) (y : System) (r : request) : answer r -> System -> Prop :=
  match r with
  | Exec stmt => fun a y' => exists s', my_exec (n_server n) stmt s' a /\ y' = set_server i n s' y
  | PinnedExec stmt => fun a y' => exists s',
      my_exec (n_server n) stmt s' a /\ y' = logged (opened i y stmt) (set_server i n s' y)
  | SupervisorShutdown => fun a y' => exists s',
      (writable s' = true -> writable (n_server n) = true) /\ (a = None -> writable s' = false) /\ y' = set_server i n s' y
  | Clock => fun a y' => a = y_now y + skew i /\ y' = y
  | GetCluster => fun a y' => y' = y /\
      forall c, a = inl c -> rc_GroupReplicationMode c = false /\ default true (rc_EnablePrimaryLease c) = true
  | GetLease => fun a y' => y' = y /\ forall l, a = inl l -> l ∈ y_past y
  | CreateLease l => fun a y' => (y' = y /\ a <> None) \/ (y_lease y = None /\ y' = put_lease l y [])
  | UpdateLease l => fun a y' => (y' = y /\ a <> None) \/
      exists cur, y_lease y = Some cur /\ lo_Version l = lo_Version cur /\ y' = put_lease l y (takeover i y cur l)
  | _ => fun _ y' => y' = y
  end.

(** The next request of a pass. *)
Definition advance (i : string) (n : Node) (y : System) (y' : System) : Prop :=
  match n_pass n with
  | Done _ => False
  | Ask r k => exists a y1 n1, serve i n y r a y1 /\ y_nodes y1 !! i = Some n1 /\
                 y' = set_node i (mkNode (n_server n1) (n_enabled n1) (k a)) y1
  end.

Definition pass_of (i : string) (enabled : bool) : prog (bool * Outcome) := Reconcile digest (rec i) enabled.

(** [Start]'s deferred release. *)
Definition release_of (i : string) (enabled : bool) : prog (bool * Outcome) :=
  pbind (shutdown_release (rec i) enabled) (fun _ => Done (enabled, after 0)).

(** A start with semi-sync on: the server is shut down when its set-up fails. *)
Definition setup_of (waitCount timeoutMillis : Z) (enabled : bool) : prog (bool * Outcome) :=
  pbind (configureSemiSync (mkManager (Repl e v) v) e waitCount timeoutMillis) (fun err =>
    match err with
    | Some _ => pbind (req SupervisorShutdown) (fun _ => Done (enabled, after 0))
    | None => Done (enabled, after 0)
    end).

Inductive step : System -> System -> Prop :=
| step_ask i n y y' : y_nodes y !! i = Some n -> advance i n y y' -> step y y'
| step_pass i n y b out : y_nodes y !! i = Some n -> n_pass n = Done (b, out) ->
    step y (set_node i (mkNode (n_server n) b (pass_of i b)) y)
| step_shutdown i n y : y_nodes y !! i = Some n ->
    step y (let y := set_node i (mkNode (n_server n) (n_enabled n) (release_of i (n_enabled n))) y in
            logged [ShutDown i (writable (n_server n))] y)
| step_setup i n y s' b waitCount timeoutMillis : y_nodes y !! i = Some n -> (writable s' = true -> writable (n_server n) = true) ->
    step y (set_node i (mkNode s' b (setup_of waitCount timeoutMillis b)) y)
| step_restart i n y s' b : y_nodes y !! i = Some n -> (writable s' = true -> writable (n_server n) = true) ->
    step y (set_node i (mkNode s' b (Done (b, after 0))) y)
| step_server i n y s' : y_nodes y !! i = Some n -> (writable s' = true -> writable (n_server n) = true) ->
    step y (set_server i n s' y)
| step_time y t : y_now y <= t -> step y (mkSystem t (y_lease y) (y_past y) (y_nodes y) (y_log y))
| step_operator y l : y_lease y = None \/ (exists cur, y_lease y = Some cur /\
      l = mkLeaseObject (lo_Version cur) (lo_HolderIdentity cur) (lo_RenewTime cur) (lo_AcquireTime cur) (Some defaultLeaseSeconds)
            (lo_LeaseTransitions cur) (lo_Annotations cur)) ->
    (y_lease y = None -> lo_HolderIdentity l = None) -> step y (put_lease l y []).

(** No Lease yet, every server read-only, every instance between passes. *)
Record initial (y : System) : Prop := {
  in_lease : y_lease y = None;
  in_past : y_past y = [];
  in_log : y_log y = [];
  in_names : y_nodes y !! "" = None;
  in_nodes i n : y_nodes y !! i = Some n -> writable (n_server n) = false /\ idle (n_pass n) = true
}.

Inductive reach : System -> Prop :=
| reach_init y : initial y -> reach y
| reach_step y y' : reach y -> step y y' -> reach y'.
End Protocol.

(** ** What a pass knows *)

Section Knowledge.
Context {e : Engine} {v : Version}.

(** The Lease it last read, the latest time it read, that the Lease is its own, that
    its server is read-only. *)
Record know := mkKnow { k_seen : option LeaseObject; k_now : option Time; k_owner : bool; k_quiet : bool }.
Definition nothing : know := mkKnow None None false false.

Definition may_take (i : string) (k : know) (l : LeaseObject) : Prop :=
  holder l = "" \/ holder l = i \/ lo_RenewTime l = None \/
  exists renew now, lo_RenewTime l = Some renew /\ k_now k = Some now /\ lease_duration l < now - renew.

Definition allowed (i : string) (k : know) (r : request) : Prop :=
  match r with
  | Exec stmt =>
      benign_stmt e v stmt \/ stmt = SetReadOnlyStatement true \/ (stmt = SetReadOnlyStatement false /\ k_owner k = true)
  | PinnedExec stmt => benign_stmt e v stmt \/ exists on, stmt = SetReadOnlyStatement on
  | CreateLease l => lo_HolderIdentity l = Some i /\ lo_RenewTime l <> None
  | UpdateLease l => exists l0, k_seen k = Some l0 /\ lo_Version l = lo_Version l0 /\
      ((lo_HolderIdentity l = Some i /\ lo_RenewTime l <> None /\ may_take i k l0) \/
       (lo_HolderIdentity l = None /\ lo_HolderIdentity l0 = Some i /\ k_quiet k = true))
  | _ => True
  end.

Definition set_quiet (k : know) (b : bool) : know := mkKnow (k_seen k) (k_now k) (k_owner k) b.
Definition set_owner (k : know) (b : bool) : know := mkKnow (k_seen k) (k_now k) b (k_quiet k).

Definition learn (i : string) (k : know) (r : request) : answer r -> know :=
  match r with
  | Exec stmt => fun a =>
      if String.eqb stmt (SetReadOnlyStatement true) then match a with None => set_quiet k true | Some _ => k end
      else if String.eqb stmt (SetReadOnlyStatement false) then set_quiet k false
      else k
  | PinnedExec _ => fun _ => set_quiet k false
  | SupervisorShutdown => fun a => match a with None => set_quiet k true | Some _ => k end
  | Clock => fun a => mkKnow (k_seen k) (Some (Z.max a (default a (k_now k)))) (k_owner k) (k_quiet k)
  | GetLease => fun a => match a with inl l => mkKnow (Some l) (k_now k) (k_owner k) (k_quiet k) | inr _ => k end
  | CreateLease l | UpdateLease l => fun a =>
      set_owner k (match a with None => bool_decide (lo_HolderIdentity l = Some i) | Some _ => false end)
  | _ => fun _ => k
  end.

Definition legal (r : request) : answer r -> Prop :=
  match r with
  | GetCluster => fun a => forall c, a = inl c -> rc_GroupReplicationMode c = false /\ default true (rc_EnablePrimaryLease c) = true
  | _ => fun _ => True
  end.

Fixpoint wp {A} (i : string) (k : know) (p : prog A) (Q : know -> A -> Prop) : Prop :=
  match p with
  | Done a => Q k a
  | Ask r f => allowed i k r /\ forall a, legal r a -> wp i (learn i k r a) (f a) Q
  end.

Lemma wp_mono {A} i k (p : prog A) (Q Q' : know -> A -> Prop) :
  (forall k a, Q k a -> Q' k a) -> wp i k p Q -> wp i k p Q'.
Proof. intros HQ. revert k. induction p as [a|r f IH]; intros k; cbn; [apply HQ|]. intros [Hr Hf]. split; [done|]. intros a Ha. by apply IH, Hf. Qed.

Lemma wp_bind {A B} i k (p : prog A) (f : A -> prog B) Q : wp i k p (fun k' a => wp i k' (f a) Q) -> wp i k (pbind p f) Q.
Proof. revert k. induction p as [a|r g IH]; intros k; cbn; [done|]. intros [Hr Hg]. split; [done|]. intros a Ha. by apply IH, Hg. Qed.

(** Requests that neither need nor change what a pass knows. *)
Definition inert (q : request) : Prop :=
  match q with
  | Exec stmt => benign_stmt e v stmt
  | PinnedExec _ | SupervisorShutdown | Clock | GetLease | CreateLease _ | UpdateLease _ => False
  | _ => True
  end.

Lemma benign_semisync_eqb naming value name on :
  naming = mariadbSemiSyncNaming \/ naming = SemiSync v ->
  name ∈ (fun f => f naming) <$> [ss_EnabledVarSource; ss_EnabledVarReplica; ss_WaitForCountVar; ss_TimeoutVar] ->
  String.eqb (SetGlobalStatement name value) (SetReadOnlyStatement on) = false.
Proof.
  intros Hn. unfold SetGlobalStatement, SetReadOnlyStatement, SemiSync in *. cbn [fmap list_fmap].
  rewrite !elem_of_cons, elem_of_nil. destruct Hn as [->| ->]; [|destruct (usesSourceSemiSyncNaming v)];
    cbn; intros [->|[->|[->|[->|[]]]]]; by destruct on.
Qed.

Lemma benign_eqb stmt on : benign_stmt e v stmt -> String.eqb stmt (SetReadOnlyStatement on) = false.
Proof.
  intros Hb. destruct Hb as [| |all|opts|b|seconds| | |stmt [->| ->]|stmt [->| ->]|name value Hn].
  13: { eapply benign_semisync_eqb, Hn. destruct e; [by right|by left]. }
  all: unfold SetReadOnlyStatement, Repl, mysqlReplDialect, mariadbReplDialect; cbn; destruct on; try reflexivity; destruct e; cbn;
    unfold StopReplicaStatement, StartReplicaStatement, ResetReplicaStatement, ChangeSourceStatement, MariaDBChangeSourceStatement;
    try reflexivity; try (destruct (UsesReplicaTerminology v)); try reflexivity; destruct all; reflexivity.
Qed.

Lemma inert_learn i k q a : inert q -> allowed i k q /\ learn i k q a = k.
Proof.
  destruct q; cbn; try done. intros Hb. split; [by left|]. by rewrite !benign_eqb.
Qed.

Lemma wp_inert {A} i k (p : prog A) Q : within inert p -> (forall a, Q k a) -> wp i k p Q.
Proof.
  intros Hp HQ. specialize (Hp []). revert Hp. generalize (@nil event). induction p as [a|r f IH]; intros h; cbn; [by intros|].
  intros [Hr Hf]. split.
  - destruct r; cbn in *; try done. by left.
  - intros a _. rewrite (proj2 (inert_learn i k r a Hr)). eapply IH, Hf.
Qed.

(** Requests that are always allowed. *)
Definition free (q : request) : Prop :=
  match q with
  | Exec stmt => benign_stmt e v stmt
  | PinnedExec _ | CreateLease _ | UpdateLease _ => False
  | _ => True
  end.

Lemma wp_free {A} i k (p : prog A) : within free p -> wp i k p (fun _ _ => True).
Proof.
  intros Hp. specialize (Hp []). revert k Hp. generalize (@nil event). induction p as [a|r f IH]; intros h k; cbn; [done|].
  intros [Hr Hf]. split; [destruct r; cbn in *; try done; by left|]. intros a _. eapply IH, Hf.
Qed.

(** ** The operations of the controller *)

Section Local.
Context (ctl : Controller) (Hctl : c_repl ctl = mkManager (Repl e v) v) (i : string).

Lemma inert_status : within inert (GetStatus ctl).
Proof. unfold GetStatus, collectStatus, ReadOnly, GetReplicaState, GTIDExecuted, scalarString, groupReplicationStatus, GroupView, serverUUID. walk; exact I. Qed.

Lemma inert_configure opts start : within inert (configureSource (c_repl ctl) opts start).
Proof using Hctl. unfold configureSource. rewrite Hctl. cbn [m_repl]. walk; apply within_exec; constructor. Qed.

Lemma inert_ensure opts : within inert (ctl_EnsureReplicaConfigured ctl opts).
Proof using Hctl.
  pose proof inert_configure. unfold ctl_EnsureReplicaConfigured, EnsureReplicaConfigured, ConfigureSource, StartReplica, GetReplicaState.
  walk; try exact I. rewrite Hctl. cbn [m_repl]. apply within_exec. constructor.
Qed.

Lemma inert_repair opts : within inert (ctl_RepairReplication ctl opts).
Proof using Hctl.
  pose proof inert_configure. unfold ctl_RepairReplication, RepairReplication. apply within_bind; [|walk; exact I].
  destruct (so_AutoPosition opts); cbn [negb]; [|walk]. apply within_bind; [rewrite Hctl; apply within_exec; constructor|].
  intros [f|]; [walk|]. apply within_bind; [rewrite Hctl; apply within_exec; constructor|]. intros [f|]; walk.
Qed.

Lemma inert_unfence : within inert (Unfence ctl).
Proof. unfold Unfence. walk; exact I. Qed.

Lemma free_shutdown : within free (Shutdown ctl).
Proof.
  unfold Shutdown. case_match; [walk|]. apply within_bind; [apply within_req, benign_fast|]. intros _. by apply within_req.
Qed.

Lemma inert_free {A} (p : prog A) : within inert p -> within free p.
Proof. intros Hp h. eapply always_mono, Hp. intros h' q. by destruct q. Qed.

#[local] Arguments learn : simpl never.

Lemma wp_benign k stmt Q :
  benign_stmt e v stmt -> (forall a, Q k a) -> wp i k (req (Exec stmt)) Q.
Proof. intros Hb Hf. split; [by left|]. intros a _. rewrite (proj2 (inert_learn i k (Exec stmt) a Hb)). apply Hf. Qed.

(** The same knowledge, but possibly that the server is read-only. *)
Definition quieter (k k' : know) : Prop := k' = k \/ k' = set_quiet k true.

Lemma wp_exec_all k stmts :
  Forall (fun stmt => benign_stmt e v stmt \/ stmt = SetReadOnlyStatement true) stmts ->
  wp i k (exec_all stmts) (fun k' a => quieter k k' /\
    (a = None -> SetReadOnlyStatement true ∈ stmts -> k' = set_quiet k true)).
Proof.
  intros Hall. revert k. induction Hall as [|stmt stmts Hs Hall IH]; intros k; cbn [exec_all].
  { split; [by left|]. intros _ Hin. by apply elem_of_nil in Hin. }
  apply wp_bind. destruct Hs as [Hb| ->].
  - apply wp_benign; [done|]. intros [f|]; [split; [by left|done]|].
    eapply wp_mono; [|apply IH]. intros k' a' [H1 H2]. split; [done|]. intros Ha Hin. apply H2; [done|].
    apply elem_of_cons in Hin as [Heq|Hin]; [|done]. exfalso. pose proof (benign_eqb stmt true Hb) as Hn.
    rewrite <- Heq, String.eqb_refl in Hn. done.
  - split; [right; by left|]. intros a _. unfold learn. rewrite String.eqb_refl. destruct a as [f|]; cbn [wp]; [split; [by left|done]|].
    eapply wp_mono; [|apply IH]. intros k' a' [H1 _].
    assert (k' = set_quiet k true) as -> by (destruct H1 as [-> | ->]; done). split; [by right|done].
Qed.

Lemma wp_demote k :
  wp i k (Demote ctl) (fun k' a => quieter k k' /\ (a = None -> k' = set_quiet k true)).
Proof.
  unfold Demote, repl_Demote, RunIsolated. cbn [length Nat.eqb]. apply wp_bind. split; [done|]. intros [f|] _; [split; [by left|done]|].
  apply wp_bind, wp_benign; [apply benign_wait|]. intros [f|]; apply wp_bind.
  - apply wp_bind, wp_benign; [apply benign_default|]. intros a. split; [by left|]. by destruct a.
  - change (learn i k Connect None) with k. eapply wp_mono; [|apply wp_exec_all].
    + intros k' a [H1 H2]. apply wp_bind, wp_benign; [apply benign_default|]. intros b. split; [done|]. destruct a as [f|]; [done|].
      intros _. apply H2; [done|]. left.
    + constructor; [by right|]. destruct (super_read_only _); [|constructor]. constructor; [|constructor]. left. apply benign_super.
Qed.

Lemma wp_promote k : k_owner k = true -> wp i k (Promote ctl) (fun _ _ => True).
Proof using Hctl.
  intros Ho. unfold Promote, repl_Promote. apply wp_bind, wp_bind. rewrite Hctl. cbn [m_repl].
  apply wp_inert; [unfold GetReplicaState; walk; exact I|]. intros [state|f]; [|done].
  apply wp_bind. apply wp_inert.
  { destruct (rp_Configured state); [|apply within_done]. apply within_bind; [apply within_exec; constructor|].
    intros [f|]; [apply within_done|]. apply within_exec. constructor. }
  intros [f|]; [done|]. apply wp_bind. apply wp_inert.
  { unfold SetSuperReadOnly. repeat case_match; try apply within_done. apply within_exec. constructor. }
  intros [f|]; [done|]. apply wp_bind. split; [right; by right|]. intros [f|] _; [done|]. by split.
Qed.

Lemma wp_fence k : wp i k (Fence ctl) (fun k' a => a = None -> k' = set_quiet k true).
Proof. unfold Fence. case_match; [done|]. split; [done|]. intros [] _. split; [done|]. by intros [f|] _. Qed.
End Local.

(** ** A whole pass *)

Section Pass.
Context (ctl : Controller) (Hctl : c_repl ctl = mkManager (Repl e v) v).
Context (r : Reconciler) (Hlocal : r_Local r = LocalController ctl) (Hasync : r_groupReplication r = false).
#[local] Arguments learn : simpl never.

Definition me : string := r_InstanceName r.

Lemma wp_release k enabled handoff :
  k_quiet k = true -> wp me k (releaseLease r enabled handoff) (fun _ _ => True).
Proof.
  intros Hq. unfold releaseLease. destruct enabled; [cbn [negb]|done]. apply wp_bind. split; [done|]. intros [l|err] _; [|done].
  cbn [wp]. destruct (lo_HolderIdentity l) as [h|] eqn:Eh; [|done]. destruct (String.eqb_spec h (r_InstanceName r)) as [->|]; [|done]. cbn [negb].
  apply wp_bind. split; [|done]. exists l. split; [done|]. split; [done|]. right. by split.
Qed.

Lemma take_lease_version i prev now drop l : lo_Version (take_lease i prev now drop l) = lo_Version l.
Proof. done. Qed.

Lemma wp_acquire k settled :
  wp me k (acquireOrRenewLease r true settled) (fun k' a => forall handoff, a = inl handoff -> k_owner k' = true).
Proof.
  unfold acquireOrRenewLease. cbn [negb]. apply wp_bind. split; [done|].
  assert (forall k create l, (create = false -> k_seen k = Some l) ->
    wp me k (acquire_from r settled create l) (fun k' a => forall handoff, a = inl handoff -> k_owner k' = true)) as Hfrom.
  { clear k. intros k create l Hseen. unfold acquire_from. apply wp_bind.
    eapply (wp_mono _ _ _ (fun k' blocked => k_seen k' = k_seen k /\ (blocked = false -> may_take me k' l))).
    - intros k' blocked [Hs Ht]. destruct blocked; [by intros ? [=]|]. specialize (Ht eq_refl). apply wp_bind. split; [done|]. intros now _.
      cbn [wp]. apply wp_bind. destruct create.
      + split; [by split|]. intros a _. cbn [wp]. intros handoff. destruct a; [done|]. intros _. unfold learn. cbn. by rewrite bool_decide_true.
      + split.
        * exists l. split; [unfold learn; cbn; by rewrite Hs, Hseen|]. split; [done|]. left. split; [done|]. split; [done|].
          destruct Ht as [?|[?|[?|(renew & t & H1 & H2 & H3)]]]; [by left|right; by left|right; right; by left|]. right; right; right.
          exists renew, (Z.max now t). split; [done|]. split; [|lia]. unfold learn. cbn [k_now]. by rewrite H2.
        * intros a _. cbn [wp]. intros handoff. destruct a; [done|]. intros _. unfold learn. cbn. by rewrite bool_decide_true.
    - destruct (negb (empty (holder l)) && negb (String.eqb (holder l) (r_InstanceName r))) eqn:E.
      + apply wp_bind. unfold leaseExpired. destruct (lo_RenewTime l) as [renew|] eqn:Er.
        * apply wp_bind. split; [done|]. intros now _. cbn [wp]. split; [done|]. intros Hb. apply negb_false_iff, Z.ltb_lt in Hb.
          right; right; right. exists renew, (Z.max now (default now (k_now k))). split; [done|]. split; [done|]. lia.
        * cbn [wp]. split; [done|]. intros _. right; right; by left.
      + cbn [wp]. split; [done|]. intros _. apply andb_false_iff in E as [E|E]; apply negb_false_iff, String.eqb_eq in E; [by left|right; by left]. }
  intros [l|[|err]] _; cbn [wp]; [by apply Hfrom|by apply Hfrom|by intros ? [=]].
Qed.

Lemma wp_handoff k : k_quiet k = true -> wp me k (handOffLease r true) (fun _ _ => True).
Proof using Hlocal.
  intros Hq. unfold handOffLease. rewrite Hlocal. apply wp_bind, wp_inert; [apply inert_status|]. intros [status|f]; [|done].
  by apply wp_bind, (wp_mono _ _ _ (fun _ _ => True)), wp_release.
Qed.

Lemma wp_stepDown k : wp me k (stepDown r true) (fun _ _ => True).
Proof using Hlocal.
  unfold stepDown. rewrite Hlocal. apply wp_bind. eapply wp_mono; [|apply wp_demote]. cbn beta. intros k' [f|] [_ Hq]; [done|].
  rewrite (Hq eq_refl). by apply wp_handoff.
Qed.

Lemma wp_current k : wp me k (setCurrentPrimary (r_InstanceName r)) (fun _ _ => True).
Proof. apply wp_free. unfold setCurrentPrimary. walk; exact I. Qed.

Lemma free_follow current amPrimary : within free (follow r current amPrimary).
Proof using Hlocal Hctl.
  unfold follow. rewrite Hlocal. pose proof (inert_free _ (inert_ensure ctl Hctl (sourceFor r current))).
  pose proof (inert_free _ (inert_repair ctl Hctl (sourceFor r current))). pose proof (free_shutdown ctl).
  cbn [li_EnsureReplicaConfigured li_RepairReplication li_Shutdown LocalController]. walk.
Qed.

Lemma wp_target k current status : wp me k (as_target r true current status) (fun _ _ => True).
Proof using Hlocal Hctl.
  unfold as_target. case_match.
  { apply wp_bind. eapply wp_mono; [|apply wp_acquire]. intros k' [handoff|err] _; [|done]. case_match; [|done].
    by apply wp_bind, (wp_mono _ _ _ (fun _ _ => True)), wp_current. }
  case_match; [done|]. apply wp_bind. eapply wp_mono; [|apply wp_acquire]. cbn beta. intros k' [handoff|err] Ho; [|done].
  case_match; [done|]. rewrite Hlocal. apply wp_bind. eapply wp_mono; [|by eapply wp_promote, Ho]. intros k'' [f|] _; [done|].
  by apply wp_bind, (wp_mono _ _ _ (fun _ _ => True)), wp_current.
Qed.

Lemma wp_async k c status : wp me k (reconcileAsyncRole r true c status) (fun _ _ => True).
Proof using Hlocal Hctl.
  unfold reconcileAsyncRole. destruct (isDiverged _ _).
  { apply wp_bind. case_match; [|done]. rewrite Hlocal. apply wp_bind. eapply wp_mono; [|apply wp_demote]. cbn beta.
    intros k' [f|] [_ Hq]; [done|]. apply wp_bind, (wp_mono _ _ _ (fun _ _ => True)); [done|]. apply wp_release. by rewrite (Hq eq_refl). }
  case_match; [apply wp_target|]. case_match.
  { apply wp_bind. case_match; [|done]. by apply (wp_mono _ _ _ (fun _ _ => True)), wp_stepDown. }
  case_match; [|apply wp_free, free_follow]. rewrite Hlocal. apply wp_bind. eapply wp_mono; [|apply wp_demote]. cbn beta.
  intros k' [f|] [_ Hq].
  - apply wp_bind, (wp_mono _ _ _ (fun _ _ => True)); [done|]. apply wp_free, free_shutdown.
  - apply wp_bind, (wp_mono _ _ _ (fun _ _ => True)); [intros; apply wp_free, free_follow|]. apply wp_handoff. by rewrite (Hq eq_refl).
Qed.

Lemma wp_fenced k c : rc_GroupReplicationMode c = false -> wp me k (reconcile_fenced r true c) (fun _ _ => True).
Proof using Hlocal.
  intros Hm. unfold reconcile_fenced. rewrite Hm, Hlocal. apply wp_bind. eapply wp_mono; [|apply wp_fence]. cbn beta.
  intros k' [f|] Hq; [done|]. apply wp_bind, (wp_mono _ _ _ (fun _ _ => True)); [done|]. apply wp_release. by rewrite (Hq eq_refl).
Qed.

(** What a pass leaves: the lease is enabled unless no Cluster was ever read. *)
Lemma wp_pass digest k enabled : wp me k (Reconcile digest r enabled) (fun _ _ => True).
Proof using Hlocal Hctl Hasync.
  unfold Reconcile. apply wp_bind. split; [done|]. intros [c|err] Hc; [|done]. destruct (Hc c eq_refl) as [Hm He].
  change (learn me k GetCluster (inl c)) with k. cbn [wp]. apply wp_bind, (wp_mono _ _ _ (fun _ _ => True)); [done|].
  assert (lease_enabled r c = true) as -> by (unfold lease_enabled; rewrite Hasync; exact He).
  unfold reconcile_role. case_match; [by apply wp_fenced|]. rewrite Hlocal. apply wp_bind, wp_inert; [apply inert_unfence|].
  intros [f|]; [done|]. apply wp_bind, wp_inert; [apply inert_status|]. intros [status|f]; [|done]. rewrite Hm. apply wp_async.
Qed.
End Pass.

(** ** The semi-sync set-up *)

Definition semisync_request (q : request) : Prop :=
  match q with
  | Exec stmt => benign_stmt e v stmt \/ exists on, stmt = SetReadOnlyStatement on
  | Scalar _ => True
  | _ => False
  end.

Lemma wp_pinned {A} i k (p : prog A) : within semisync_request p -> wp i k (pinned p) (fun _ _ => True).
Proof.
  intros Hp. specialize (Hp []). revert k Hp. generalize (@nil event). induction p as [a|r f IH]; intros h k; cbn; [done|].
  intros [Hr Hf]. destruct r; try done; (split; [done|]); intros a _; eapply IH, Hf.
Qed.

Lemma within_session waitCount timeoutMillis :
  within semisync_request (semisync_session (mkManager (Repl e v) v) waitCount timeoutMillis).
Proof.
  unfold semisync_session, ReadOnly, install_semisync, restoreReadOnly, InstallSemiSyncSource, InstallSemiSyncReplica, installPlugin,
    EnableSemiSync, SetSemiSyncWaitForReplicaCount, SetSemiSyncTimeoutMillis, SetReadOnly, SetSuperReadOnly, scalarString. cbn [m_repl m_version].
  walk; try exact I; first [apply within_exec|apply within_req];
    first [right; by eexists
          |left; first [by apply benign_super|apply benign_binlog; by auto|apply benign_plugin; by auto|apply benign_semisync; set_solver]].
Qed.

Lemma wp_setup i k waitCount timeoutMillis b : wp i k (setup_of (e := e) (v := v) waitCount timeoutMillis b) (fun _ _ => True).
Proof.
  unfold setup_of, configureSemiSync. apply wp_bind. destruct (SemiSyncIsPlugin e); cbn [negb]; [|done].
  apply wp_bind. split; [done|]. intros [f|] _; cbn [wp]; [by repeat split|]. apply (wp_mono _ _ _ (fun _ _ => True)); [|apply wp_pinned, within_session].
  intros k' [f|] _; by repeat split.
Qed.
End Knowledge.

(** ** The invariant *)

(** The holder had stopped when its Lease was taken; nobody was told to stop while
    writable; nobody was opened for the semi-sync plugins without the Lease. *)
Definition calm_incident (x : incident) : Prop :=
  match x with
  | Takeover _ _ stopped _ _ _ => stopped = true
  | ShutDown _ stillWritable => stillWritable = false
  | Opened _ owner => owner = true
  end.
Definition calm : list incident -> Prop := Forall calm_incident.

(** An unreleased Lease is taken only once it ran out by the taker's clock. *)
Definition timed_incident (x : incident) : Prop :=
  match x with
  | Takeover old new _ renewed duration at_ => old <> new /\ exists t, renewed = Some t /\ duration < at_ - t
  | ShutDown _ _ | Opened _ _ => True
  end.
Definition timed : list incident -> Prop := Forall timed_incident.

Section Safety.
Context {e : Engine} {v : Version} `{My : Mysqld e v} (digest : string -> string).
Context (rec : string -> Reconciler) (skew : string -> Duration) (ctl : string -> Controller).

(** Every instance runs the asynchronous role on a server of this engine. *)
Record deployed : Prop := {
  de_name i : r_InstanceName (rec i) = i;
  de_async i : r_groupReplication (rec i) = false;
  de_local i : r_Local (rec i) = LocalController (ctl i);
  de_server i : c_repl (ctl i) = mkManager (Repl e v) v
}.

Definition held (y : System) (i : string) : Prop := exists l, y_lease y = Some l /\ lo_HolderIdentity l = Some i.

Record node_ok (y : System) (i : string) (n : Node) (k : know) : Prop := {
  ok_seen l : k_seen k = Some l -> l ∈ y_past y;
  ok_now t : k_now k = Some t -> t <= y_now y + skew i;
  ok_wp : wp (e := e) (v := v) i k (n_pass n) (fun _ _ => True);
  ok_owner : calm (y_log y) -> k_owner k = true -> held y i;
  ok_quiet : calm (y_log y) -> k_quiet k = true -> writable (n_server n) = false;
  ok_held : calm (y_log y) -> writable (n_server n) = true -> held y i
}.

Record lease_ok (y : System) : Prop := {
  lo_names : y_nodes y !! "" = None;
  lo_current : y_lease y = last (y_past y);
  lo_versions j l : y_past y !! j = Some l -> lo_Version l = j;
  lo_renewed l : l ∈ y_past y -> holder l <> "" -> lo_RenewTime l <> None;
  lo_timed : timed (y_log y)
}.

Definition inv (y : System) : Prop := lease_ok y /\ forall i n, y_nodes y !! i = Some n -> exists k, node_ok y i n k.

Lemma initial_inv y : initial y -> inv y.
Proof.
  intros [Hl Hp Hg Hn Hs]. split.
  - constructor; rewrite ?Hp, ?Hg, ?Hl; try done; [by intros ? ?%elem_of_nil|constructor].
  - intros i n Hi. destruct (Hs i n Hi) as [Hw Hd]. exists nothing. constructor; try done; [by destruct (n_pass n)|].
    intros _ H. congruence.
Qed.

(** Changing one node. *)
Lemma inv_node y i n n' k' : inv y -> y_nodes y !! i = Some n -> node_ok y i n' k' -> inv (set_node i n' y).
Proof.
  intros [[] Hnodes] Hi Hok. split.
  - constructor; try done. cbn. apply lookup_insert_None. split; [done|]. intros ->. congruence.
  - intros j m. cbn. destruct (decide (i = j)) as [->|Hne].
    + rewrite lookup_insert_eq. intros [= <-]. exists k'. destruct Hok. by constructor.
    + rewrite lookup_insert_ne by done. intros Hj. destruct (Hnodes j m Hj) as [k []]. exists k. by constructor.
Qed.

(** Writing the Lease. *)
Lemma lease_put y l log :
  lease_ok y -> (holder l <> "" -> lo_RenewTime l <> None) -> timed log -> lease_ok (put_lease l y log).
Proof.
  intros [] Hr Ht. constructor; cbn; [done|by rewrite last_snoc| | |by apply Forall_app].
  - intros j m [Hj|[Hle Hj]]%lookup_app_Some; [by apply lo_versions0|]. apply list_lookup_singleton_Some in Hj as [Hj <-]. cbn. lia.
  - intros m [Hm| ->%list_elem_of_singleton]%elem_of_app; [by apply lo_renewed0|]. cbn. intros Hh.
    destruct (lo_RenewTime l) as [t|] eqn:E; [done|]. exfalso. by apply Hr.
Qed.

(** The others see a Lease that is still their holder's, unless that had stopped. *)
Lemma others_put y l log j m k :
  y_nodes y !! j = Some m -> node_ok y j m k ->
  (calm (y_log y ++ log) -> held y j -> lo_HolderIdentity l = Some j \/ stopped y j = true) ->
  exists k', node_ok (put_lease l y log) j m k'.
Proof.
  intros Hj [] Hh. assert (forall P : Prop, (calm (y_log y) -> P) -> calm (y_log (put_lease l y log)) -> P) as Hcalm.
  { intros P HP [H _]%Forall_app. by apply HP. }
  assert (forall x, x ∈ y_past y -> x ∈ y_past (put_lease l y log)) as Hpast by (intros x Hx; apply elem_of_app; by left).
  destruct (stopped y j) eqn:Es.
  - unfold stopped in Es. rewrite Hj in Es. apply andb_true_iff in Es as [Ew%negb_true_iff Ei]. exists nothing.
    constructor; cbn; try done; [by destruct (n_pass m)|]. intros _ H. congruence.
  - assert (forall P : Prop, (calm (y_log y) -> P -> held y j) -> calm (y_log (put_lease l y log)) -> P -> held (put_lease l y log) j) as Hheld.
    { intros P HP Hc p. destruct (Hh Hc) as [Hl|Hl]; [|eexists; split; [reflexivity|done]|done]. eapply Hcalm, Hc. intros Hc'. by apply HP. }
    exists k. constructor; [by eauto|done|done|exact (Hheld _ ok_owner0)|exact (Hcalm _ ok_quiet0)|exact (Hheld _ ok_held0)].
Qed.

(** A version names one Lease. *)
Lemma same_version y l cur : lease_ok y -> l ∈ y_past y -> y_lease y = Some cur -> lo_Version l = lo_Version cur -> l = cur.
Proof.
  intros [] [j Hj]%list_elem_of_lookup Hcur Hv. rewrite lo_current0, last_lookup in Hcur.
  rewrite (lo_versions0 _ _ Hj), (lo_versions0 _ _ Hcur) in Hv. congruence.
Qed.

(** A pass that writes the Lease, accepted. *)
Lemma take_ok y i n l cur k :
  inv y -> y_nodes y !! i = Some n -> node_ok y i n k -> allowed (e := e) (v := v) i k (UpdateLease l) ->
  y_lease y = Some cur -> lo_Version l = lo_Version cur ->
  (lo_HolderIdentity l = Some i /\ timed (takeover skew i y cur l) \/
   lo_HolderIdentity l = None /\ takeover skew i y cur l = [] /\ k_quiet k = true) /\
  lease_ok (put_lease l y (takeover skew i y cur l)) /\
  forall j m, j <> i -> y_nodes y !! j = Some m -> exists k', node_ok (put_lease l y (takeover skew i y cur l)) j m k'.
Proof.
  intros [Hg Hnodes] Hi Hok (l0 & Hs & Hv0 & Hcase) Hcur Hv.
  assert (l0 = cur) as -> by (eapply same_version; [done|by eapply ok_seen|done|congruence]).
  assert (cur ∈ y_past y) as Hin by by eapply ok_seen. assert (i <> "") as Hne by (intros ->; destruct Hg; congruence).
  destruct Hcase as [(Hl & Hr & Ht)|(Hl & Hh & Hq)].
  - assert (timed (takeover skew i y cur l)) as Htimed.
    { unfold takeover. rewrite bool_decide_true by done. cbn [andb]. destruct (negb (empty (holder cur)) && negb (String.eqb (holder cur) i)) eqn:E;
        rewrite ?E; [|constructor]. apply andb_true_iff in E as [E1%negb_true_iff%String.eqb_neq E2%negb_true_iff%String.eqb_neq].
      constructor; [|constructor]. split; [done|]. destruct Ht as [?|[?|[Hn|(renew & now & H1 & H2 & H3)]]]; [done..| |].
      - exfalso. by eapply lo_renewed.
      - exists renew. split; [done|]. pose proof (ok_now _ _ _ _ Hok now H2). lia. }
    split; [by left|]. split; [by apply lease_put|]. intros j m Hji Hj. destruct (Hnodes j m Hj) as [k' Hok'].
    eapply others_put; [done..|]. intros Hc (cur' & Hcur' & Hh'). assert (cur' = cur) as -> by congruence. right.
    apply Forall_app in Hc as [_ Hc]. unfold takeover, holder in Hc. rewrite bool_decide_true in Hc by done. rewrite Hh' in Hc. cbn in Hc.
    assert (j <> "") as Hj0 by (intros ->; destruct Hg; congruence).
    unfold empty in Hc. rewrite (proj2 (String.eqb_neq j "") Hj0), (proj2 (String.eqb_neq j i) Hji) in Hc. cbn in Hc.
    by apply Forall_inv in Hc.
  - assert (takeover skew i y cur l = []) as -> by (unfold takeover; by rewrite bool_decide_false by (by rewrite Hl)).
    split; [by right|]. split; [apply lease_put; [done| |constructor]; unfold holder; by rewrite Hl|]. intros j m Hji Hj.
    destruct (Hnodes j m Hj) as [k' Hok']. eapply others_put; [done..|]. intros _ (cur' & Hcur' & Hh'). congruence.
Qed.
(** The pass of [i] goes on with the Lease written. *)
Lemma inv_put y i n n' k' l log :
  lease_ok (put_lease l y log) -> y_nodes y !! i = Some n -> node_ok (put_lease l y log) i n' k' ->
  (forall j m, j <> i -> y_nodes y !! j = Some m -> exists k, node_ok (put_lease l y log) j m k) ->
  inv (set_node i n' (put_lease l y log)).
Proof.
  intros [] Hi Hok Hothers. split.
  - constructor; try done. cbn. apply lookup_insert_None. split; [done|]. intros ->. cbn in *. congruence.
  - intros j m. cbn. destruct (decide (i = j)) as [->|Hne].
    + rewrite lookup_insert_eq. intros [= <-]. exists k'. destruct Hok. by constructor.
    + rewrite lookup_insert_ne by done. intros Hj. destruct (Hothers j m (not_eq_sym Hne) Hj) as [k []]. exists k. by constructor.
Qed.

#[local] Arguments learn : simpl never.
#[local] Arguments put_lease : simpl never.

(** The rest of what a node knows, when it wrote the Lease. *)
Lemma put_ok y i n k l log k' p :
  node_ok y i n k -> k_seen k' = k_seen k -> k_now k' = k_now k -> k_quiet k' = k_quiet k ->
  wp (e := e) (v := v) i k' p (fun _ _ => True) ->
  (k_owner k' = true -> lo_HolderIdentity l = Some i) ->
  (lo_HolderIdentity l = Some i \/ k_quiet k = true) ->
  node_ok (put_lease l y log) i (mkNode (n_server n) (n_enabled n) p) k'.
Proof.
  intros [] Es En Eq Hwp Ho Hh. assert (calm (y_log (put_lease l y log)) -> calm (y_log y)) as Hcalm by (by intros [? _]%Forall_app).
  assert (lo_HolderIdentity l = Some i -> held (put_lease l y log) i) as Hheld by (intros H; eexists; split; [reflexivity|done]).
  constructor; cbn [n_server n_pass]; rewrite ?Es, ?En, ?Eq; auto.
  - intros x Hx. apply elem_of_app. left. by apply ok_seen0.
  - intros Hc Hw. destruct Hh as [Hh|Hh]; [auto|]. rewrite (ok_quiet0 (Hcalm Hc) Hh) in Hw. done.
Qed.

Lemma learn_owner i k l q : q = CreateLease l \/ q = UpdateLease l -> forall a : answer q,
  k_seen (learn i k q a) = k_seen k /\ k_now (learn i k q a) = k_now k /\ k_quiet (learn i k q a) = k_quiet k /\
  (k_owner (learn i k q a) = true -> lo_HolderIdentity l = Some i).
Proof.
  intros [-> | ->] b; unfold learn; cbn; (split; [done|]; split; [done|]; split; [done|]); destruct b; [done| |done|];
    by intros ?%bool_decide_eq_true.
Qed.

Lemma create_ok y i n k l f a y1 :
  inv y -> y_nodes y !! i = Some n -> node_ok y i n k -> n_pass n = Ask (CreateLease l) f ->
  y_lease y = None -> y1 = put_lease l y [] -> inv (set_node i (mkNode (n_server n) (n_enabled n) (f a)) y1).
Proof.
  intros [Hg Hnodes] Hi Hok Hp Hl ->. pose proof (ok_wp _ _ _ _ Hok) as Hwp. rewrite Hp in Hwp. destruct Hwp as [[Hh Hr] Hf].
  assert (lease_ok (put_lease l y [])) as Hg' by (apply lease_put; [done|done|constructor]).
  destruct (learn_owner i k l (CreateLease l) (or_introl eq_refl) a) as (E1 & E2 & E3 & E4).
  eapply inv_put; [done..| |]; [eapply put_ok; [done..|by apply Hf|done|by left]|].
  intros j m _ Hj. destruct (Hnodes j m Hj) as [k' Hok']. eapply others_put; [done..|]. intros _ (l' & Hl' & _). congruence.
Qed.

Lemma update_ok y i n k l f a cur y1 :
  inv y -> y_nodes y !! i = Some n -> node_ok y i n k -> n_pass n = Ask (UpdateLease l) f ->
  y_lease y = Some cur -> lo_Version l = lo_Version cur -> y1 = put_lease l y (takeover skew i y cur l) ->
  inv (set_node i (mkNode (n_server n) (n_enabled n) (f a)) y1).
Proof.
  intros Hinv Hi Hok Hp Hl Hv ->. pose proof (ok_wp _ _ _ _ Hok) as Hwp. rewrite Hp in Hwp. destruct Hwp as [Ha Hf].
  destruct (take_ok y i n l cur k Hinv Hi Hok Ha Hl Hv) as (Hcase & Hg & Hothers).
  destruct (learn_owner i k l (UpdateLease l) (or_intror eq_refl) a) as (E1 & E2 & E3 & E4).
  eapply inv_put; [done..| |done]. eapply put_ok; [done..|by apply Hf|done|]. destruct Hcase as [[H _]|(_ & _ & H)]; [by left|by right].
Qed.

(** A request that leaves the Lease and the others alone. *)
Lemma own_ok y i n k q f a s' :
  inv y -> y_nodes y !! i = Some n -> node_ok y i n k -> n_pass n = Ask q f -> legal q a ->
  let k' := learn i k q a in
  (forall l, k_seen k' = Some l -> l ∈ y_past y) -> (forall t, k_now k' = Some t -> t <= y_now y + skew i) ->
  (k_owner k' = true -> k_owner k = true) ->
  (calm (y_log y) -> k_quiet k' = true -> writable s' = false) ->
  (writable s' = true -> writable (n_server n) = true \/ k_owner k = true) ->
  inv (set_node i (mkNode s' (n_enabled n) (f a)) y).
Proof.
  intros Hinv Hi [] Hp Hlegal k' Hs Hn Ho Hq Hw. eapply (inv_node _ _ _ _ k'); [done..|]. rewrite Hp in ok_wp0. destruct ok_wp0 as [_ Hf].
  constructor; cbn [n_server n_pass]; auto; [by apply Hf|]. intros Hc Hw'. destruct (Hw Hw'); auto.
Qed.
(** Nothing of the state changes. *)
Lemma still_ok y i n k q f a :
  inv y -> y_nodes y !! i = Some n -> node_ok y i n k -> n_pass n = Ask q f -> legal q a ->
  let k' := learn i k q a in
  (forall l, k_seen k' = Some l -> l ∈ y_past y) -> (forall t, k_now k' = Some t -> t <= y_now y + skew i) ->
  (k_owner k' = true -> k_owner k = true) -> k_quiet k' = k_quiet k ->
  inv (set_node i (mkNode (n_server n) (n_enabled n) (f a)) y).
Proof.
  intros ? ? Hok ? ? k' ? ? ? Hq. eapply own_ok; [done..| |by left]. fold k'. rewrite Hq. by destruct Hok.
Qed.

Lemma exec_ok y i n k stmt f a s' :
  inv y -> y_nodes y !! i = Some n -> node_ok y i n k -> n_pass n = Ask (Exec stmt) f -> my_exec (n_server n) stmt s' a ->
  inv (set_node i (mkNode s' (n_enabled n) (f a)) y).
Proof.
  intros Hinv Hi Hok Hp Hx. pose proof (ok_wp _ _ _ _ Hok) as Hwp. rewrite Hp in Hwp. destruct Hwp as [Ha _]. destruct (Hok) as [Hs Hn _ Ho Hq Hh].
  destruct Ha as [Hb|[-> |[-> Howner]]].
  - pose proof (my_benign _ _ _ _ Hb Hx) as Hw. eapply own_ok; [done|done|done|done|done| | | | |auto]; unfold learn; rewrite !benign_eqb by done; [done..|].
    intros Hc Hk. destruct (writable s'); [|done]. rewrite <- (Hq Hc Hk). symmetry. by apply Hw.
  - pose proof (my_set _ _ _ Hx) as Hw. eapply own_ok; [done|done|done|done|done| | | | |auto]; unfold learn; rewrite String.eqb_refl; [by destruct a..|].
    intros Hc Hk. destruct a as [x|]; [|by apply my_set_done in Hx]. destruct (writable s'); [|done]. rewrite <- (Hq Hc Hk). symmetry. by apply Hw.
  - eapply own_ok; [done|done|done|done|done| | | | |auto]; unfold learn; cbn; try done.
Qed.

(** Only the log or the time moves. *)
Lemma node_frame y y' i n k :
  y_lease y' = y_lease y -> y_past y' = y_past y -> y_now y <= y_now y' -> (calm (y_log y') -> calm (y_log y)) ->
  node_ok y i n k -> node_ok y' i n k.
Proof.
  intros El Ep Et Hc []. assert (held y i -> held y' i) as Hh by (intros (l & ? & ?); exists l; by rewrite El).
  constructor; rewrite ?Ep; eauto. intros t Ht. specialize (ok_now0 t Ht). lia.
Qed.

Lemma inv_logged y log : inv y -> timed log -> inv (logged log y).
Proof.
  intros [[] Hnodes] Ht. split; [constructor; try done; by apply Forall_app|]. intros j m Hj. destruct (Hnodes j m Hj) as [k Hok].
  exists k. eapply node_frame, Hok; try done. by intros [? _]%Forall_app.
Qed.

(** A statement of the semi-sync set-up. *)
Lemma pinned_ok y i n k stmt f a s' :
  inv y -> y_nodes y !! i = Some n -> node_ok y i n k -> n_pass n = Ask (PinnedExec stmt) f -> my_exec (n_server n) stmt s' a ->
  inv (set_node i (mkNode s' (n_enabled n) (f a)) (logged (opened i y stmt) y)).
Proof.
  intros Hinv Hi Hok Hp Hx. set (y1 := logged _ y).
  assert (inv y1) as Hinv1 by (apply inv_logged; [done|unfold opened; case_match; by repeat constructor]).
  assert (node_ok y1 i n k) as Hok1 by (eapply node_frame, Hok; try done; by intros [? _]%Forall_app).
  eapply (inv_node _ _ _ _ (set_quiet k false)); [done..|]. pose proof (ok_wp _ _ _ _ Hok1) as Hwp. rewrite Hp in Hwp. destruct Hwp as [Ha Hf].
  destruct Hok1. constructor; cbn [n_server n_pass]; try done; [by apply Hf|]. intros Hc Hw.
  destruct Ha as [Hb|[[|] ->]]; [by eapply ok_held0, my_benign|by eapply ok_held0, my_set|].
  apply Forall_app in Hc as [_ Hc%Forall_inv]. cbn in Hc. unfold owns in Hc. unfold held. cbn.
  destruct (y_lease y) as [l|]; [|done]. exists l. split; [done|]. by apply bool_decide_eq_true in Hc.
Qed.

Lemma shutdown_ok y i n k f a s' :
  inv y -> y_nodes y !! i = Some n -> node_ok y i n k -> n_pass n = Ask SupervisorShutdown f ->
  (writable s' = true -> writable (n_server n) = true) -> (a = None -> writable s' = false) ->
  inv (set_node i (mkNode s' (n_enabled n) (f a)) y).
Proof.
  intros Hinv Hi Hok Hp Hw Hd. destruct (Hok) as [Hs Hn _ Ho Hq Hh]. eapply own_ok; [done|done|done|done|done| | | | |auto]; unfold learn; [by destruct a..|].
  intros Hc Hk. destruct a as [x|]; [|by apply Hd]. destruct (writable s'); [|done]. rewrite <- (Hq Hc Hk). symmetry. by apply Hw.
Qed.

Lemma put_nodes y l log : y_nodes (put_lease l y log) = y_nodes y.
Proof. done. Qed.

Lemma advance_inv y i n y' : inv y -> y_nodes y !! i = Some n -> advance skew i n y y' -> inv y'.
Proof.
  intros Hinv Hi. unfold advance. destruct (n_pass n) as [|q f] eqn:Hp; [done|]. intros (a & y1 & n1 & Hserve & Hn1 & ->).
  destruct (proj2 Hinv i n Hi) as [k Hok]. destruct (Hok) as [Hs Hn _ Ho Hq Hh].
  assert (forall b s', y1 = set_server i n s' y -> (set_node i (mkNode (n_server n1) (n_enabled n1) b) y1) = set_node i (mkNode s' (n_enabled n) b) y) as Hset.
  { intros b s' ->. cbn in Hn1. rewrite lookup_insert_eq in Hn1. injection Hn1 as <-. unfold set_server, set_node. cbn. f_equal. apply insert_insert_eq. }
  destruct q; cbn in Hserve;
    try (subst y1; assert (n1 = n) as -> by congruence; eapply still_ok; [done..| | | |]; done).
  - destruct Hserve as (s' & Hx & Hy). rewrite (Hset _ s' Hy). by eapply exec_ok.
  - destruct Hserve as (s' & Hx & ->). cbn in Hn1. rewrite lookup_insert_eq in Hn1. injection Hn1 as <-. cbn [n_server n_enabled].
    replace (set_node i _ _) with (set_node i (mkNode s' (n_enabled n) (f a)) (logged (opened i y stmt) y)); [by eapply pinned_ok|].
    unfold set_node, logged, set_server, set_node. cbn. f_equal. symmetry. apply insert_insert_eq.
  - destruct Hserve as (s' & H1 & H2 & Hy). rewrite (Hset _ s' Hy). by eapply shutdown_ok.
  - destruct Hserve as [-> ->]. assert (n1 = n) as -> by congruence. eapply still_ok; [done..| | | |]; try done.
    unfold learn. cbn. intros t [= <-]. destruct (k_now k) as [t|] eqn:E; cbn; [|lia]. pose proof (Hn t eq_refl). lia.
  - destruct Hserve as [-> Hc]. assert (n1 = n) as -> by congruence. eapply still_ok; done.
  - destruct Hserve as [-> Hl]. assert (n1 = n) as -> by congruence. eapply still_ok; [done..| | | |]; unfold learn; destruct a; try done.
    cbn. intros x [= <-]. by apply Hl.
  - destruct Hserve as [[-> Ha]|[Hl ->]]; rewrite ?put_nodes in Hn1; assert (n1 = n) as -> by congruence; [|by eapply create_ok].
    eapply still_ok; [done..| | | |]; unfold learn; by destruct a.
  - destruct Hserve as [[-> Ha]|(cur & Hl & Hv & ->)]; rewrite ?put_nodes in Hn1; assert (n1 = n) as -> by congruence; [|by eapply update_ok].
    eapply still_ok; [done..| | | |]; unfold learn; by destruct a.
Qed.

Hypothesis Hdeployed : deployed.

Lemma pass_wp i b k : wp (e := e) (v := v) i k (pass_of digest rec i b) (fun _ _ => True).
Proof using Hdeployed.
  destruct Hdeployed as [Hname Hasync Hlocal Hserver].
  pose proof (wp_pass (ctl i) (Hserver i) (rec i) (Hlocal i) (Hasync i) digest k b) as H. unfold me in H. by rewrite Hname in H.
Qed.

Lemma release_wp i b k : k_quiet k = true -> wp (e := e) (v := v) i k (release_of rec i b) (fun _ _ => True).
Proof using Hdeployed.
  intros Hq. destruct Hdeployed as [Hname _ _ _]. pose proof (wp_release (e := e) (v := v) (rec i) k b "" Hq) as H. unfold me in H.
  rewrite Hname in H. unfold release_of, shutdown_release. apply wp_bind. eapply wp_mono; [|exact H]. done.
Qed.

Lemma protocol_step_inv y y' : inv y -> step digest rec skew y y' -> inv y'.
Proof using Hdeployed.
  intros Hinv Hstep. destruct Hstep as [i n y y' Hi Ha|i n y b out Hi Hp|i n y Hi|i n y s' b count timeout Hi Hw|i n y s' b Hi Hw|i n y s' Hi Hw|y t Ht|y l Hl Hh].
  - by eapply advance_inv.
  - destruct (proj2 Hinv i n Hi) as [k []]. eapply (inv_node _ _ _ _ nothing); [done..|]. constructor; try done. apply pass_wp.
  - destruct (proj2 Hinv i n Hi) as [k Hok]. set (y1 := logged [ShutDown i (writable (n_server n))] y).
    assert (inv y1) as Hinv1 by (apply inv_logged; [done|by repeat constructor]).
    assert (node_ok y1 i n k) as Hok1 by (eapply node_frame, Hok; try done; by intros [? _]%Forall_app).
    apply (inv_node y1 i n _ (mkKnow None None false true)); [done..|]. destruct Hok1. constructor; try done.
    + by apply release_wp.
    + intros [_ Hc]%Forall_app _. by apply Forall_inv in Hc.
  - destruct (proj2 Hinv i n Hi) as [k []]. eapply (inv_node _ _ _ _ nothing); [done..|]. constructor; try done; [apply wp_setup|].
    cbn. auto.
  - destruct (proj2 Hinv i n Hi) as [k []]. eapply (inv_node _ _ _ _ nothing); [done..|]. constructor; try done. cbn. auto.
  - destruct (proj2 Hinv i n Hi) as [k []]. eapply (inv_node _ _ _ _ k); [done..|]. constructor; try done; cbn; auto.
    intros Hc Hk. destruct (writable s'); [|done]. rewrite <- (ok_quiet0 Hc Hk). symmetry. auto.
  - destruct Hinv as [[] Hnodes]. split; [by constructor|]. intros i n Hi. destruct (Hnodes i n Hi) as [k Hok]. exists k.
    by eapply node_frame, Hok.
  - destruct Hinv as [Hg Hnodes]. split.
    + apply lease_put; [done| |constructor]. destruct Hl as [Hl|(cur & Hl & ->)]; [unfold holder; by rewrite (Hh Hl)|].
      destruct Hg. rewrite lo_current0 in Hl. apply (lo_renewed0 cur). by apply last_Some_elem_of.
    + intros i n Hi. destruct (Hnodes i n Hi) as [k Hok]. eapply others_put; [done..|]. intros _ (cur' & Hcur' & Hh'). left.
      destruct Hl as [Hl|(cur & Hl & ->)]; [congruence|]. cbn. congruence.
Qed.

Lemma reach_inv y : reach digest rec skew y -> inv y.
Proof using Hdeployed. induction 1; [by apply initial_inv|by eapply protocol_step_inv]. Qed.
End Safety.

(** C3: in asynchronous replication with the primary Lease enabled, with every instance
    running its passes, and the semi-sync set-up of its starts, concurrently, at any
    interleaving of their requests, with stale reads, lost answers and skewed clocks:
    an unreleased Lease is only ever taken by another instance after it ran out by the
    taker's clock; and as long as the holder had stopped whenever that happened, no
    manager was told to stop while its server was writable, and no starting instance
    had its [read_only] cleared for the semi-sync plugins without holding the Lease, at
    most one server is writable, and its instance is the Lease's holder. *)
Theorem at_most_one_writable {e v} `{My : Mysqld e v} digest rec skew ctl y :
  deployed (e := e) (v := v) rec ctl -> reach digest rec skew y ->
  timed (y_log y) /\
  (calm (y_log y) -> forall i j n m, y_nodes y !! i = Some n -> y_nodes y !! j = Some m ->
     writable (n_server n) = true -> writable (n_server m) = true -> i = j /\ held y i).
Proof.
  intros Hd [Hg Hnodes]%(reach_inv _ _ _ _ Hd). split; [apply Hg|]. intros Hc i j n m Hi Hj Hwi Hwj.
  destruct (Hnodes i n Hi) as [k Hok]. destruct (Hnodes j m Hj) as [k' Hok'].
  pose proof (ok_held _ _ _ _ _ Hok Hc Hwi) as Hhi. destruct (ok_held _ _ _ _ _ Hok' Hc Hwj) as (l' & El' & Hl').
  split; [|done]. destruct Hhi as (l & El & Hl). congruence.
Qed.

(** ** Runs *)

(** A server that executes what it is told, or fails and does nothing. *)
Definition effect (stmt : string) (s : bool) : bool :=
  if String.eqb stmt (SetReadOnlyStatement true) then false
  else if String.eqb stmt (SetReadOnlyStatement false) then true else s.

#[export] Program Instance plain_mysqld (e : Engine) (v : Version) : Mysqld e v := {|
  server := bool;
  writable := id;
  my_exec s stmt s' err := (err = None /\ s' = effect stmt s) \/ (err <> None /\ s' = s)
|}.
Next Obligation. intros e v s stmt s' err Hb [[-> ->]|[_ ->]]; [|done]. unfold effect. by rewrite !(benign_eqb (e := e) (v := v)). Qed.
Next Obligation. by intros e v s s' err [[-> ->]|[_ ->]]. Qed.
Next Obligation. by intros e v s s' [[_ ->]|[]]. Qed.

Section Runs.
Context (e : Engine) (v : Version) (digest : string -> string) (rec : string -> Reconciler).
(** Every Cluster read answers [c]. *)
Context (c : RoleCluster) (Hc : rc_GroupReplicationMode c = false /\ default true (rc_EnablePrimaryLease c) = true).
Let plain := plain_mysqld e v.
#[local] Existing Instance plain.
Let in_sync (i : string) : Duration := 0.

(** Fresh reads, no failures, clocks in step, and no replica configured. *)
Definition reply (i : string) (n : Node) (y : System) (r : request) : answer r * System :=
  match r with
  | Exec stmt => (None, set_server i n (effect stmt (n_server n)) y)
  | PinnedExec stmt => (None, logged (opened i y stmt) (set_server i n (effect stmt (n_server n)) y))
  | SupervisorShutdown => (None, set_server i n false y)
  | Ping | Connect => (None, y)
  | Scalar _ | ScalarArgs _ _ => (inl (if n_server n then "0" else "1"), y)
  | FirstRow _ => (inl None, y)
  | Rows _ => (inl [], y)
  | GroupMembers => (inl [], y)
  | GetExpected => (RoleUnknown, y)
  | SetExpected _ | GateFence | GateUnfence => (tt, y)
  | Clock => (y_now y + in_sync i, y)
  | GetCluster => (inl c, y)
  | PatchCurrentPrimary _ _ _ | PatchPodAnnotation _ _ => (None, y)
  | GetLease => (match last (y_past y) with Some l => inl l | None => inr NotFound end, y)
  | CreateLease l =>
      match y_lease y with None => (None, put_lease l y []) | Some _ => (Some (APIError (Errorf "exists")), y) end
  | UpdateLease l =>
      match y_lease y with
      | Some cur => if Nat.eqb (lo_Version l) (lo_Version cur) then (None, put_lease l y (takeover in_sync i y cur l))
                    else (Some (APIError (Errorf "conflict")), y)
      | None => (Some NotFound, y)
      end
  | GetPodAnnotations => (inl ∅, y)
  end.

Lemma reply_serves i n y r : serve in_sync i n y r (reply i n y r).1 (reply i n y r).2.
Proof using Hc.
  destruct r; cbn; try done.
  - eexists. split; [|done]. by left.
  - eexists. split; [|done]. by left.
  - by exists false.
  - split; [done|]. by intros ? [= <-].
  - split; [done|]. intros l. destruct (last (y_past y)) eqn:E; [|done]. intros [= <-]. by apply last_Some_elem_of.
  - destruct (y_lease y) eqn:E; cbn; [by left|by right].
  - destruct (y_lease y) as [cur|] eqn:E; [|by left]. destruct (Nat.eqb_spec (lo_Version l) (lo_Version cur)); cbn; [right; by exists cur|by left].
Qed.

(** The next [fuel] requests of [i]'s pass, with nobody interfering. *)
Fixpoint requests (fuel : nat) (i : string) (p : prog (bool * Outcome)) (y : System) : System :=
  match fuel, p with
  | S fuel, Ask r k =>
      match y_nodes y !! i with
      | None => y
      | Some n =>
          let '(a, y1) := reply i n y r in
          match y_nodes y1 !! i with
          | None => y
          | Some n1 => requests fuel i (k a) (set_node i (mkNode (n_server n1) (n_enabled n1) (k a)) y1)
          end
      end
  | _, _ => y
  end.

Definition reachable : System -> Prop := reach digest rec in_sync.

Lemma requests_reach fuel i p y n : reachable y -> y_nodes y !! i = Some n -> n_pass n = p -> reachable (requests fuel i p y).
Proof using Hc.
  revert p y n. induction fuel as [|fuel IH]; intros [a|r k] y n Hy Hi Hp; cbn [requests]; try done. rewrite Hi.
  pose proof (reply_serves i n y r) as Hserve. destruct (reply i n y r) as [a y1]. cbn in Hserve.
  destruct (y_nodes y1 !! i) as [n1|] eqn:Hn1; [|done].
  apply (IH (k a) _ (mkNode (n_server n1) (n_enabled n1) (k a))); [|cbn; apply lookup_insert_eq|done].
  eapply reach_step; [exact Hy|]. eapply step_ask; [done|]. unfold advance. rewrite Hp. by exists a, y1, n1.
Qed.

(** The rest of it: no program of these runs makes more requests. *)
Definition finish (i : string) (p : prog (bool * Outcome)) (y : System) : System := requests 100 i p y.

Lemma finish_reaches i p y n : reachable y -> y_nodes y !! i = Some n -> n_pass n = p -> reachable (finish i p y).
Proof using Hc. apply requests_reach. Qed.

(** A whole pass of [i]. *)
Definition pass (i : string) (y : System) : System :=
  match y_nodes y !! i with
  | Some n =>
      match n_pass n with
      | Done (b, _) => finish i (pass_of digest rec i b) (set_node i (mkNode (n_server n) b (pass_of digest rec i b)) y)
      | Ask _ _ => y
      end
  | None => y
  end.

Lemma pass_reaches i y : reachable y -> reachable (pass i y).
Proof using Hc.
  intros Hy. unfold pass. destruct (y_nodes y !! i) as [n|] eqn:Hi; [|done]. destruct (n_pass n) as [[b out]|] eqn:Hp; [|done].
  eapply finish_reaches; [|cbn; apply lookup_insert_eq|done]. eapply reach_step; [exact Hy|]. by eapply step_pass.
Qed.

(** The deferred release, once [i] is told to stop. *)
Definition shut (i : string) (y : System) : System :=
  match y_nodes y !! i with
  | Some n =>
      let y := set_node i (mkNode (n_server n) (n_enabled n) (release_of rec i (n_enabled n))) y in
      finish i (release_of rec i (n_enabled n))
        (logged [ShutDown i (writable (n_server n))] y)
  | None => y
  end.

Lemma shut_reaches i y : reachable y -> reachable (shut i y).
Proof using Hc.
  intros Hy. unfold shut. destruct (y_nodes y !! i) as [n|] eqn:Hi; [|done].
  eapply finish_reaches; [|cbn; apply lookup_insert_eq|done]. eapply reach_step; [exact Hy|]. by eapply step_shutdown.
Qed.

(** The first [fuel] requests of a start of [i] with semi-sync on. *)
Definition setup (fuel : nat) (i : string) (y : System) : System :=
  requests fuel i (setup_of (e := e) (v := v) 1 0 true) (set_node i (mkNode false true (setup_of (e := e) (v := v) 1 0 true)) y).

Lemma setup_reaches fuel i y n : reachable y -> y_nodes y !! i = Some n -> reachable (setup fuel i y).
Proof using Hc.
  intros Hy Hi. eapply requests_reach; [|cbn; apply lookup_insert_eq|done]. eapply reach_step; [exact Hy|]. by eapply step_setup.
Qed.

Definition wait_until (t : Time) (y : System) : System :=
  if y_now y <=? t then mkSystem t (y_lease y) (y_past y) (y_nodes y) (y_log y) else y.

Lemma wait_reaches t y : reachable y -> reachable (wait_until t y).
Proof using e v. intros Hy. unfold wait_until. destruct (Z.leb_spec (y_now y) t); [|done]. eapply reach_step; [exact Hy|]. by apply step_time. Qed.
End Runs.

Module SampleProtocol.
Definition v84 := SampleRole.v84.
#[export] Instance server84 : Mysqld mysqlEngine v84 := plain_mysqld mysqlEngine v84.

(** Two instances of one Cluster, just started. *)
Definition fresh : Node := mkNode (My := server84) false true (Done (true, after 0)).
Definition start : System := mkSystem (My := server84) 0 None [] (<["c-1" := fresh]> (<["c-2" := fresh]> ∅)) [].
Notation passes target i := (pass mysqlEngine v84 id SampleRole.member (SampleRole.cluster target "c-1") i).

(** [c-1] is promoted at 0 and renews at 2 s. *)
Definition promoted : System := passes "c-1" "c-1" start.
Definition renewed : System := passes "c-1" "c-1" (wait_until mysqlEngine v84 (2 * second) promoted).

(** At 18 s the Cluster designates [c-2]. *)
Definition superseded : System := passes "c-2" "c-2" (wait_until mysqlEngine v84 (18 * second) renewed).

(** At 2 s the Pod of [c-1] is told to stop. *)
Definition stopping : System := shut mysqlEngine v84 SampleRole.member (SampleRole.cluster "c-1" "c-1") "c-1" renewed.
Definition succeeded : System := passes "c-2" "c-2" stopping.

(** At 2 s the container of the replica [c-2] restarts; its set-up has made six requests,
    the last of which cleared [read_only]. *)
Definition opening : System := setup mysqlEngine v84 (SampleRole.cluster "c-1" "c-1") 6 "c-2" renewed.

Definition online : System -> Prop := reachable mysqlEngine v84 id SampleRole.member.
Definition node_writable (y : System) (i : string) : option bool := (fun n => writable (n_server n)) <$> y_nodes y !! i.

Lemma start_initial : online start.
Proof.
  apply reach_init. constructor; try done. intros i n. cbn. intros [[_ <-]|[_ [[_ <-]|[_ H]]%lookup_insert_Some]]%lookup_insert_Some; done.
Qed.

Lemma renewed_online : online renewed.
Proof. by apply pass_reaches, wait_reaches, pass_reaches, start_initial. Qed.

Lemma members_deployed : deployed (e := mysqlEngine) (v := v84) SampleRole.member (fun _ => SampleRole.ctl).
Proof. by constructor. Qed.
End SampleProtocol.

Lemma at_most_one_writable_witness :
  SampleProtocol.node_writable SampleProtocol.renewed "c-1" = Some true /\ held SampleProtocol.renewed "c-1" /\
  timed (y_log SampleProtocol.renewed).
Proof.
  destruct (at_most_one_writable id SampleRole.member (fun _ => 0) (fun _ => SampleRole.ctl) SampleProtocol.renewed
              SampleProtocol.members_deployed SampleProtocol.renewed_online) as [Ht Hone].
  destruct (y_nodes SampleProtocol.renewed !! "c-1") as [n|] eqn:E; [|vm_compute in E; discriminate].
  assert (writable (n_server n) = true) as Hw by (vm_compute in E; injection E as <-; reflexivity).
  split; [unfold SampleProtocol.node_writable; rewrite E; apply (f_equal Some), Hw|]. split; [|exact Ht].
  refine (proj2 (Hone _ "c-1" "c-1" n n E E Hw Hw)). replace (y_log SampleProtocol.renewed) with (@nil incident) by reflexivity. constructor.
Defined.

(** A primary renews its Lease every [steadyRequeue] of 30 s and the Lease lasts
    15 s, so that half the time a healthy primary's Lease is free to take: here [c-1]
    last renewed at 2 s, waits for 32 s, and is still writable when [c-2] takes the
    Lease at 18 s and becomes writable too. *)
Lemma healthy_primary_is_superseded :
  let y := SampleProtocol.superseded in
  SampleProtocol.online y /\
  y_log y = [Takeover "c-1" "c-2" false (Some (2 * second)) (15 * second) (18 * second)] /\
  (exists n, y_nodes y !! "c-1" = Some n /\ writable (n_server n) = true /\ n_pass n = Done (true, after steadyRequeue)) /\
  SampleProtocol.node_writable y "c-2" = Some true.
Proof.
  split; [by apply pass_reaches, wait_reaches, SampleProtocol.renewed_online|]. split; [by vm_compute|]. split; [|by vm_compute].
  eexists. split; [vm_compute; reflexivity|]. by split.
Qed.

(** [Start] releases the Lease as soon as the manager was told to stop: [c-1] is still
    writable, no Lease was taken from anyone, and [c-2] becomes writable at once. *)
Lemma shutdown_releases_while_writable :
  let y := SampleProtocol.succeeded in
  SampleProtocol.online y /\ y_log y = [ShutDown "c-1" true] /\ y_now y = 2 * second /\
  SampleProtocol.node_writable y "c-1" = Some true /\ SampleProtocol.node_writable y "c-2" = Some true.
Proof.
  split; [by apply pass_reaches, shut_reaches, SampleProtocol.renewed_online|]. by vm_compute.
Qed.

(** A start with semi-sync on clears [read_only] of a replica that neither holds nor
    asks for the Lease: [c-2] is writable while [c-1] is. *)
Lemma semisync_start_opens_a_replica :
  let y := SampleProtocol.opening in
  SampleProtocol.online y /\ y_log y = [Opened "c-2" false] /\ held y "c-1" /\
  SampleProtocol.node_writable y "c-1" = Some true /\ SampleProtocol.node_writable y "c-2" = Some true.
Proof.
  split; [by eapply setup_reaches; [done|apply SampleProtocol.renewed_online|vm_compute; reflexivity]|].
  split; [by vm_compute|]. split; [|by vm_compute]. eexists. split; [vm_compute; reflexivity|reflexivity].
Qed.

(** C30: two of the conditions for a single writable server are needed, and the code
    breaks both in fault-free runs: the Lease of a healthy primary that waits out its
    [steadyRequeue] is taken by the next target while it is writable, and a primary
    whose manager is told to stop gives up its Lease while it is writable. *)
Theorem two_writable_servers_are_reachable :
  exists y1 y2, SampleProtocol.online y1 /\ SampleProtocol.online y2 /\
    (exists renewed at_, y_log y1 = [Takeover "c-1" "c-2" false (Some renewed) defaultLeaseDuration at_] /\ at_ < renewed + steadyRequeue) /\
    (exists n, y_nodes y1 !! "c-1" = Some n /\ n_pass n = Done (true, after steadyRequeue)) /\
    y_log y2 = [ShutDown "c-1" true] /\
    forall i, i = "c-1" \/ i = "c-2" -> SampleProtocol.node_writable y1 i = Some true /\ SampleProtocol.node_writable y2 i = Some true.
Proof.
  destruct healthy_primary_is_superseded as (H1 & H2 & (n & Hn & Hw & Hp) & H3).
  destruct shutdown_releases_while_writable as (G1 & G2 & _ & G3 & G4).
  exists SampleProtocol.superseded, SampleProtocol.succeeded. split; [exact H1|]. split; [exact G1|].
  split; [exists (2 * second), (18 * second); split; [exact H2|by vm_compute]|].
  split; [exists n; exact (conj Hn Hp)|]. split; [exact G2|].
  intros i [-> | ->]; [split; [|exact G3]|exact (conj H3 G4)].
  unfold SampleProtocol.node_writable. rewrite Hn. exact (f_equal Some Hw).
Qed.
