(* ===== verification/Users.v ===== *)
(** * Accounts, grants and schemas

    [pkg/engine/grants.go] and [metrics_account.go], and of
    [pkg/management/mysql/user] the statement builders, the account manager and the
    error classification.

    The builders are specified by what their statements say: [user_stmt] is the meaning
    of a statement and [stmt_tokens] how it is written, and the theorems show with the
    lexer of [SqlText] that whatever names, passwords, privileges and targets a request
    carries, the statements read as exactly those the request asks for.

    [strings.ToUpper] and [EqualFold] are modelled on ASCII.  Of an error, the statement
    its text quotes (redacted) is left out. *)

From Stdlib Require Import ZArith Lia Bool Ascii String.
From stdpp Require Import base list strings gmap.
From S2P Require Import Prelude GoStrings Versions SqlText Cluster GtidModel GroupReplication Instance RoleReconciler.

Local Open Scope Z_scope.
#[local] Arguments String.append : simpl nomatch.

(** ** Strings *)

Definition upper_ascii (c : ascii) : ascii :=
  if (97 <=? N_of_ascii c)%N && (N_of_ascii c <=? 122)%N then ascii_of_N (N_of_ascii c - 32) else c.

Fixpoint ToUpper (s : string) : string :=
  match s with
  | EmptyString => EmptyString
  | String c s' => String (upper_ascii c) (ToUpper s')
  end.

(** [strings.Fields], with the word read so far. *)
Fixpoint fields_from (w s : string) : list string :=
  match s with
  | EmptyString => if empty w then [] else [w]
  | String c s' =>
      if is_space c then (if empty w then [] else [w]) ++ fields_from "" s'
      else fields_from (w +:+ str1 c) s'
  end.
Definition Fields (s : string) : list string := fields_from "" s.

Definition HasPrefix (s prefix : string) : bool := String.prefix prefix s.
Definition EqualFold (s t : string) : bool := String.eqb (ToLower s) (ToLower t).
Definition ContainsChar (s : string) (c : ascii) : bool := negb (no_char c s).

(** ** Grant targets and privilege names *)

Record GrantTarget := mkGrantTarget { gt_Database : string; gt_Table : string }.
Definition GlobalGrantTarget : string := "*.*".
Definition IsGlobal (t : GrantTarget) : bool := String.eqb (gt_Database t) "*".

Definition SQL (t : GrantTarget) : string :=
  if IsGlobal t then GlobalGrantTarget
  else if empty (gt_Table t) then "`" +:+ gt_Database t +:+ "`.*"
  else "`" +:+ gt_Database t +:+ "`.`" +:+ gt_Table t +:+ "`".

(** [^[A-Za-z0-9_$]+$] *)
Definition bareIdentifier (s : string) : bool := negb (empty s) && all_chars is_word s.

Definition splitIdentifier (s : string) : result (string * string) :=
  match s with
  | String "*" rest => Ok ("*", rest)
  | String "`" rest =>
      let '(ident, tail, found) := Cut rest "`" in
      if negb found || empty ident then Err (Errorf "unterminated or empty quoted identifier")
      else if String.eqb ident "*" then Err (Errorf "invalid identifier: * is not a name")
      else Ok (ident, tail)
  | _ =>
      let '(ident, tail, found) := Cut s "." in
      if bareIdentifier ident then Ok (ident, if found then "." +:+ tail else "")
      else Err (Errorf "invalid identifier")
  end.

Definition bad_target : error := Errorf "target must be *.*, db.* or db.table".

Definition ParseGrantTarget (on : string) : result GrantTarget :=
  match splitIdentifier on with
  | Err e => Err e
  | Ok (db, String "." rest) =>
      if String.eqb rest "*" then Ok (mkGrantTarget db "")
      else
        match splitIdentifier rest with
        | Err e => Err e
        | Ok (table, tail) =>
            if String.eqb db "*" || String.eqb table "*" || negb (empty tail) then Err bad_target
            else Ok (mkGrantTarget db table)
        end
  | Ok _ => Err bad_target
  end.

(** Byte by byte; the bytes of a longer character are all the same invalid one. *)
Definition fold_byte (a b : ascii) : bool :=
  let high c := (128 <=? N_of_ascii c)%N in
  Ascii.eqb (lower_ascii a) (lower_ascii b) || (high a && high b).

Fixpoint GrantDatabaseMatches (db schema : string) : bool :=
  match db, schema with
  | EmptyString, EmptyString => true
  | String a db', String b schema' => (Ascii.eqb a "_" || fold_byte a b) && GrantDatabaseMatches db' schema'
  | _, _ => false
  end.

Definition is_upper (c : ascii) : bool := (65 <=? N_of_ascii c)%N && (N_of_ascii c <=? 90)%N.

(** [^[A-Z][A-Z0-9_]*$] *)
Definition privilegeWord (s : string) : bool :=
  match s with
  | EmptyString => false
  | String c s' => is_upper c && all_chars (fun c => is_upper c || is_digit c || Ascii.eqb c "_") s'
  end.

Definition multiWordPrivileges : list string :=
  ["ALL PRIVILEGES"; "ALTER ROUTINE"; "CREATE ROLE"; "CREATE ROUTINE"; "CREATE TABLESPACE"; "CREATE TEMPORARY TABLES"; "CREATE USER";
   "CREATE VIEW"; "DROP ROLE"; "GRANT OPTION"; "LOCK TABLES"; "REPLICATION CLIENT"; "REPLICATION SLAVE"; "SHOW DATABASES"; "SHOW VIEW";
   "BINLOG ADMIN"; "BINLOG MONITOR"; "BINLOG REPLAY"; "CONNECTION ADMIN"; "DELETE HISTORY"; "FEDERATED ADMIN"; "READ_ONLY ADMIN";
   "REPLICA MONITOR"; "REPLICATION MASTER ADMIN"; "REPLICATION REPLICA"; "REPLICATION SLAVE ADMIN"; "SET USER"; "SHOW CREATE ROUTINE";
   "SLAVE MONITOR"].

Definition NormalizePrivilegeName (p : string) : result string :=
  let name := ToUpper (Join (Fields p) " ") in
  if empty name then Err (Errorf "privilege name is empty")
  else if privilegeWord name || bool_decide (name ∈ multiWordPrivileges) then Ok name
  else Err (Errorf "invalid privilege").

(** ** The metrics account's rules *)

Definition MetricsAccountHost : string := "localhost".

Definition metricsAllowedPrivileges : list string := ["select"; "show view"].

Definition ValidateMetricsPrivilegeNames (privileges : list string) : result unit :=
  if Nat.eqb (length privileges) 0 then Err (Errorf "at least one privilege is required")
  else if forallb (fun p => bool_decide (ToLower (Join (Fields p) " ") ∈ metricsAllowedPrivileges)) privileges then Ok tt
  else Err (Errorf "privilege is not allowed").

Definition ParseMetricsGrantTarget (on : string) : result GrantTarget :=
  match ParseGrantTarget on with
  | Err e => Err e
  | Ok target =>
      let db := gt_Database target in
      let table := gt_Table target in
      if IsGlobal target then Err (Errorf "the target must name a database")
      else if ContainsChar db "%" || ContainsChar db backslash || ContainsChar table backslash then Err (Errorf "target may not contain % or backslash")
      else if GrantDatabaseMatches db "mysql" then Err (Errorf "target covers the mysql schema")
      else if EqualFold db "information_schema" then Err (Errorf "information_schema is readable without a grant")
      else Ok target
  end.

Record Privilege := mkPrivilege { pv_Privileges : list string; pv_On : string }.

Definition MetricsAccountBaseGrants : list Privilege :=
  [mkPrivilege ["PROCESS"; "REPLICATION CLIENT"; "REPLICATION SLAVE"] GlobalGrantTarget;
   mkPrivilege ["SELECT"] "performance_schema.*"].

(** ** Reserved names *)

Definition reservedUsers : list string := ["cnmsql_control"; "cnmsql_repl"; "cnmsql_backup"; "cnmsql_metrics"; "root"].
Definition IsReservedUser (name : string) : bool := HasPrefix name "mysql." || bool_decide (name ∈ reservedUsers).

Definition reservedDatabases : list string := ["mysql"; "information_schema"; "performance_schema"; "sys"].
Definition IsReservedDatabase (name : string) : bool := bool_decide (ToLower name ∈ reservedDatabases).

(** ** Statements *)

Record Dialect := mkDialect { dl_RevokeIfExists : bool }.
Definition MySQLDialect : Dialect := mkDialect true.
Definition MariaDBDialect : Dialect := mkDialect false.

Record CreateUserRequest := mkCreateUserRequest {
  cu_Name : string;
  cu_Host : string;
  cu_Password : string;
  cu_Superuser : bool;
  cu_MaxUserConnections : Z;
  cu_MaxQueriesPerHour : Z;
  cu_MaxUpdatesPerHour : Z;
  cu_MaxConnectionsPerHour : Z;
  cu_RequireTLS : string;
  cu_Privileges : list Privilege;
  cu_Revokes : list Privilege
}.

Record AlterUserRequest := mkAlterUserRequest {
  au_Name : string;
  au_Host : string;
  au_Password : option string;
  au_Superuser : option bool;
  au_MaxUserConnections : option Z;
  au_MaxQueriesPerHour : option Z;
  au_MaxUpdatesPerHour : option Z;
  au_MaxConnectionsPerHour : option Z;
  au_RequireTLS : option string;
  au_Privileges : option (list Privilege);
  au_Revokes : option (list Privilege)
}.

Record DropUserRequest := mkDropUserRequest { du_Name : string; du_Host : string }.
Record CreateDatabaseRequest := mkCreateDatabaseRequest { cd_Name : string; cd_CharacterSet : string; cd_Collation : string }.
Record DropDatabaseRequest := mkDropDatabaseRequest { dd_Name : string }.

Definition host_or_any (host : string) : string := if empty host then "%" else host.
Definition account (name host : string) : string := quote name +:+ "@" +:+ quote (host_or_any host).

Definition requireClause (requireTLS : string) : result string :=
  let r := ToLower requireTLS in
  if empty r || String.eqb r "none" then Ok "REQUIRE NONE"
  else if String.eqb r "ssl" then Ok "REQUIRE SSL"
  else if String.eqb r "x509" then Ok "REQUIRE X509"
  else Err (Errorf "invalid requireTLS value").

Definition resourceOptions (maxUserConns maxQueries maxUpdates maxConnsPerHour : Z) : string :=
  "WITH MAX_QUERIES_PER_HOUR " +:+ FormatInt maxQueries +:+ " MAX_UPDATES_PER_HOUR " +:+ FormatInt maxUpdates +:+
  " MAX_CONNECTIONS_PER_HOUR " +:+ FormatInt maxConnsPerHour +:+ " MAX_USER_CONNECTIONS " +:+ FormatInt maxUserConns.

Definition privilegeClause (p : Privilege) : result (string * string) :=
  let? names := map_result NormalizePrivilegeName (pv_Privileges p) in
  let? target := ParseGrantTarget (if empty (pv_On p) then GlobalGrantTarget else pv_On p) in
  Ok (Join names ", ", SQL target).

Definition superuser_grant (acct : string) : string := "GRANT ALL PRIVILEGES ON *.* TO " +:+ acct +:+ " WITH GRANT OPTION".

Definition grantStatements (name host : string) (superuser : bool) (privileges : list Privilege) : result (list string) :=
  let acct := account name host in
  if superuser then Ok [superuser_grant acct]
  else
    map_result (fun p =>
      if Nat.eqb (length (pv_Privileges p)) 0 then Err (Errorf "privilege entry has no privileges")
      else let? clause := privilegeClause p in
           Ok ("GRANT " +:+ fst clause +:+ " ON " +:+ snd clause +:+ " TO " +:+ acct)) privileges.

Definition revokeStatements (name host : string) (revokes : list Privilege) (d : Dialect) : result (list string) :=
  let verb := if dl_RevokeIfExists d then "REVOKE IF EXISTS " else "REVOKE " in
  let acct := account name host in
  map_result (fun p =>
    if Nat.eqb (length (pv_Privileges p)) 0 then Err (Errorf "revoke entry has no privileges")
    else let? clause := privilegeClause p in
         Ok (verb +:+ fst clause +:+ " ON " +:+ snd clause +:+ " FROM " +:+ acct)) revokes.

Definition CreateUserStatementsWithDialect (req : CreateUserRequest) (d : Dialect) : result (list string) :=
  let? require := requireClause (cu_RequireTLS req) in
  let create := "CREATE USER IF NOT EXISTS " +:+ account (cu_Name req) (cu_Host req) +:+ " IDENTIFIED BY " +:+ quote (cu_Password req) +:+
    " " +:+ require +:+ " " +:+
    resourceOptions (cu_MaxUserConnections req) (cu_MaxQueriesPerHour req) (cu_MaxUpdatesPerHour req) (cu_MaxConnectionsPerHour req) in
  let? grants := grantStatements (cu_Name req) (cu_Host req) (cu_Superuser req) (cu_Privileges req) in
  let? revokes := revokeStatements (cu_Name req) (cu_Host req) (cu_Revokes req) d in
  Ok (create :: grants ++ revokes).

Definition CreateUserStatements (req : CreateUserRequest) : result (list string) := CreateUserStatementsWithDialect req MySQLDialect.

(** The limits the request sets, in order. *)
Definition limit_clauses (req : AlterUserRequest) : list (string * Z) :=
  let add name v := match v with Some n => [(name, n)] | None => [] end in
  add "MAX_QUERIES_PER_HOUR" (au_MaxQueriesPerHour req) ++ add "MAX_UPDATES_PER_HOUR" (au_MaxUpdatesPerHour req) ++
  add "MAX_CONNECTIONS_PER_HOUR" (au_MaxConnectionsPerHour req) ++ add "MAX_USER_CONNECTIONS" (au_MaxUserConnections req).

Definition alter_clauses (req : AlterUserRequest) : result (list string) :=
  let password := match au_Password req with Some p => ["IDENTIFIED BY " +:+ quote p] | None => [] end in
  let? require := match au_RequireTLS req with Some r => let? c := requireClause r in Ok [c] | None => Ok [] end in
  let limits := match limit_clauses req with
                | [] => []
                | res => ["WITH " +:+ Join ((fun l => fst l +:+ " " +:+ FormatInt (snd l)) <$> res) " "]
                end in
  Ok (password ++ require ++ limits).

Definition AlterUserStatementsWithDialect (req : AlterUserRequest) (d : Dialect) : result (list string) :=
  let acct := account (au_Name req) (au_Host req) in
  let? clauses := alter_clauses req in
  let alter := if Nat.eqb (length clauses) 0 then [] else ["ALTER USER " +:+ acct +:+ " " +:+ Join clauses " "] in
  let superuser := default false (au_Superuser req) in
  let? grants := match au_Privileges req with
                 | Some privileges => grantStatements (au_Name req) (au_Host req) superuser privileges
                 | None => Ok (if superuser then [superuser_grant acct] else [])
                 end in
  let? revokes := match au_Revokes req with
                  | Some revokes => revokeStatements (au_Name req) (au_Host req) revokes d
                  | None => Ok []
                  end in
  Ok (alter ++ grants ++ revokes).

Definition AlterUserStatements (req : AlterUserRequest) : result (list string) := AlterUserStatementsWithDialect req MySQLDialect.

Definition DropUserStatement (name host : string) : string := "DROP USER IF EXISTS " +:+ account name host.

Definition CreateDatabaseStatement (req : CreateDatabaseRequest) : string :=
  "CREATE DATABASE IF NOT EXISTS " +:+ quoteIdent (cd_Name req) +:+
  (if empty (cd_CharacterSet req) then "" else " CHARACTER SET " +:+ quoteIdent (cd_CharacterSet req)) +:+
  (if empty (cd_Collation req) then "" else " COLLATE " +:+ quoteIdent (cd_Collation req)).

Definition DropDatabaseStatement (name : string) : string := "DROP DATABASE IF EXISTS " +:+ quoteIdent name.

Definition ListDatabasesQuery : string :=
  "SELECT schema_name FROM information_schema.schemata WHERE schema_name NOT IN ('mysql', 'information_schema', 'performance_schema', 'sys') ORDER BY schema_name".

Definition ListUsersQuery : string :=
  "SELECT User, Host, max_user_connections, max_questions, max_updates, max_connections, ssl_type FROM mysql.user WHERE User NOT LIKE 'mysql.%' AND User <> 'root' AND User NOT IN ('cnmsql_control', 'cnmsql_repl', 'cnmsql_backup', 'cnmsql_metrics') ORDER BY User, Host".

Definition ShowGrantsQuery (name host : string) : string := "SHOW GRANTS FOR " +:+ account name host.

(** ** The manager *)

Definition errNonexistingGrant : Z := 1141.
Definition errNonexistingTableGrant : Z := 1147.
Definition isNonexistingGrant (f : Failure) : bool := (f_Number f =? errNonexistingGrant) || (f_Number f =? errNonexistingTableGrant).
Definition isRevoke (stmt : string) : bool := HasPrefix (ToUpper (TrimSpace stmt)) "REVOKE ".

Fixpoint execAll (d : Dialect) (stmts : list string) : prog (option Failure) :=
  match stmts with
  | [] => Done None
  | stmt :: stmts' =>
      run! e := exec stmt in
      match e with
      | Some f =>
          if negb (dl_RevokeIfExists d) && isRevoke stmt && isNonexistingGrant f then execAll d stmts' else Done (Some f)
      | None => execAll d stmts'
      end
  end.

Definition refuse_request (e : error) : Failure := fails (match e with Errorf m => m | _ => "invalid request" end).

Definition run_statements (d : Dialect) (stmts : result (list string)) : prog (option Failure) :=
  match stmts with
  | Err e => Done (Some (refuse_request e))
  | Ok stmts => execAll d stmts
  end.

Definition CreateUser (d : Dialect) (req : CreateUserRequest) : prog (option Failure) :=
  if IsReservedUser (cu_Name req) then Done (Some (fails "refusing to create reserved account"))
  else run_statements d (CreateUserStatementsWithDialect req d).

Definition AlterUser (d : Dialect) (req : AlterUserRequest) : prog (option Failure) :=
  if IsReservedUser (au_Name req) then Done (Some (fails "refusing to alter reserved account"))
  else run_statements d (AlterUserStatementsWithDialect req d).

Definition DropUser (req : DropUserRequest) : prog (option Failure) :=
  if IsReservedUser (du_Name req) then Done (Some (fails "refusing to drop reserved account"))
  else exec (DropUserStatement (du_Name req) (du_Host req)).

Definition CreateDatabase (req : CreateDatabaseRequest) : prog (option Failure) := exec (CreateDatabaseStatement req).

Definition DropDatabase (req : DropDatabaseRequest) : prog (option Failure) :=
  if IsReservedDatabase (dd_Name req) then Done (Some (fails "refusing to drop system database"))
  else exec (DropDatabaseStatement (dd_Name req)).

(** Rows of a single column. *)
Definition column (rows : list (list string)) : option (list string) := mapM (fun row => match row with [x] => Some x | _ => None end) rows.

Definition showGrants (name host : string) : prog (list string + Failure) :=
  run! rows := req (Rows (ShowGrantsQuery name host)) in
  Done (match rows with
        | inr f => inr (wrap "showing grants" f)
        | inl rows => match column rows with Some grants => inl grants | None => inr (fails "scanning grant row") end
        end).

Definition ListDatabases : prog (list string + Failure) :=
  run! rows := req (Rows ListDatabasesQuery) in
  Done (match rows with
        | inr f => inr (wrap "listing databases" f)
        | inl rows => match column rows with Some dbs => inl dbs | None => inr (fails "scanning database row") end
        end).

Record UserInfo := mkUserInfo {
  ui_Name : string;
  ui_Host : string;
  ui_MaxUserConnections : Z;
  ui_MaxQueriesPerHour : Z;
  ui_MaxUpdatesPerHour : Z;
  ui_MaxConnectionsPerHour : Z;
  ui_RequireTLS : string;
  ui_Grants : list string
}.

Definition sslTypeToRequireTLS (sslType : string) : string :=
  if String.eqb sslType "X509" then "x509"
  else if String.eqb sslType "ANY" || String.eqb sslType "SPECIFIED" then "ssl" else "none".

Definition scan_int32 (s : string) : option Z := n ← ParseInt s; if (- 2 ^ 31 <=? n) && (n <? 2 ^ 31) then Some n else None.

Definition scan_user (row : list string) : option UserInfo :=
  match row with
  | [name; host; conns; queries; updates; perHour; ssl] =>
      conns ← scan_int32 conns; queries ← scan_int32 queries; updates ← scan_int32 updates; perHour ← scan_int32 perHour;
      Some (mkUserInfo name host conns queries updates perHour (sslTypeToRequireTLS ssl) [])
  | _ => None
  end.

Fixpoint with_grants (users : list UserInfo) : prog (list UserInfo + Failure) :=
  match users with
  | [] => Done (inl [])
  | u :: users' =>
      run! grants := showGrants (ui_Name u) (ui_Host u) in
      match grants with
      | inr f => Done (inr f)
      | inl grants =>
          run! rest := with_grants users' in
          Done (match rest with
                | inr f => inr f
                | inl us => inl (mkUserInfo (ui_Name u) (ui_Host u) (ui_MaxUserConnections u) (ui_MaxQueriesPerHour u) (ui_MaxUpdatesPerHour u)
                                   (ui_MaxConnectionsPerHour u) (ui_RequireTLS u) grants :: us)
                end)
      end
  end.

Definition ListUsers : prog (list UserInfo + Failure) :=
  run! rows := req (Rows ListUsersQuery) in
  match rows with
  | inr f => Done (inr (wrap "listing users" f))
  | inl rows => match mapM scan_user rows with Some users => with_grants users | None => Done (inr (fails "scanning user row")) end
  end.

(** ** What the statements say *)

Inductive user_stmt :=
| SCreate (name host password require : string) (limits : list (string * Z))
| SAlter (name host : string) (password require : option string) (limits : list (string * Z))
| SGrant (name host : string) (privileges : list string) (target : GrantTarget) (grantOption : bool)
| SRevoke (name host : string) (ifExists : bool) (privileges : list string) (target : GrantTarget)
| SDrop (name host : string).

Definition words (s : string) : list token := Word <$> Split s " ".
Definition account_tokens (esc : bool) (name host : string) : list token :=
  [Str (literal esc name); Sym "@"; Str (literal esc (host_or_any host))].
Definition target_tokens (t : GrantTarget) : list token :=
  if IsGlobal t then [Sym "*"; Sym "."; Sym "*"]
  else Id (gt_Database t) :: Sym "." :: (if empty (gt_Table t) then [Sym "*"] else [Id (gt_Table t)]).
Definition limit_tokens (limits : list (string * Z)) : list token := concat ((fun l => Word (fst l) :: num_tokens (snd l)) <$> limits).
Definition with_tokens (limits : list (string * Z)) : list token := match limits with [] => [] | _ => Word "WITH" :: limit_tokens limits end.
Definition password_tokens (esc : bool) (p : string) : list token := words "IDENTIFIED BY" ++ [Str (literal esc p)].

Definition stmt_tokens (esc : bool) (s : user_stmt) : list token :=
  match s with
  | SCreate name host password require limits =>
      words "CREATE USER IF NOT EXISTS" ++ account_tokens esc name host ++ password_tokens esc password ++ words require ++ with_tokens limits
  | SAlter name host password require limits =>
      words "ALTER USER" ++ account_tokens esc name host ++ from_option (password_tokens esc) [] password ++ from_option words [] require ++
      with_tokens limits
  | SGrant name host privileges target grantOption =>
      words "GRANT" ++ commas (words <$> privileges) ++ words "ON" ++ target_tokens target ++ words "TO" ++ account_tokens esc name host ++
      (if grantOption then words "WITH GRANT OPTION" else [])
  | SRevoke name host ifExists privileges target =>
      words (if ifExists then "REVOKE IF EXISTS" else "REVOKE") ++ commas (words <$> privileges) ++ words "ON" ++ target_tokens target ++
      words "FROM" ++ account_tokens esc name host
  | SDrop name host => words "DROP USER IF EXISTS" ++ account_tokens esc name host
  end.

Definition stmt_account (s : user_stmt) : string * string :=
  match s with
  | SCreate name host _ _ _ | SAlter name host _ _ _ | SGrant name host _ _ _ | SRevoke name host _ _ _ | SDrop name host => (name, host)
  end.

(** ** What a request asks for *)

Definition entry (p : Privilege) : result (list string * GrantTarget) :=
  if Nat.eqb (length (pv_Privileges p)) 0 then Err (Errorf "no privileges")
  else
    let? names := map_result NormalizePrivilegeName (pv_Privileges p) in
    let? target := ParseGrantTarget (if empty (pv_On p) then GlobalGrantTarget else pv_On p) in
    Ok (names, target).

Definition everything : GrantTarget := mkGrantTarget "*" "".

Definition asked_grants (name host : string) (superuser : bool) (privileges : list Privilege) : result (list user_stmt) :=
  if superuser then Ok [SGrant name host ["ALL PRIVILEGES"] everything true]
  else map_result (fun p => let? e := entry p in Ok (SGrant name host (fst e) (snd e) false)) privileges.

Definition asked_revokes (name host : string) (revokes : list Privilege) (d : Dialect) : result (list user_stmt) :=
  map_result (fun p => let? e := entry p in Ok (SRevoke name host (dl_RevokeIfExists d) (fst e) (snd e))) revokes.

Definition asked_create (req : CreateUserRequest) (d : Dialect) : result (list user_stmt) :=
  let? require := requireClause (cu_RequireTLS req) in
  let? grants := asked_grants (cu_Name req) (cu_Host req) (cu_Superuser req) (cu_Privileges req) in
  let? revokes := asked_revokes (cu_Name req) (cu_Host req) (cu_Revokes req) d in
  Ok (SCreate (cu_Name req) (cu_Host req) (cu_Password req) require
        [("MAX_QUERIES_PER_HOUR", cu_MaxQueriesPerHour req); ("MAX_UPDATES_PER_HOUR", cu_MaxUpdatesPerHour req);
         ("MAX_CONNECTIONS_PER_HOUR", cu_MaxConnectionsPerHour req); ("MAX_USER_CONNECTIONS", cu_MaxUserConnections req)]
      :: grants ++ revokes).

Definition asked_alter (req : AlterUserRequest) (d : Dialect) : result (list user_stmt) :=
  let? require := match au_RequireTLS req with Some r => let? c := requireClause r in Ok (Some c) | None => Ok None end in
  let superuser := default false (au_Superuser req) in
  let? grants := match au_Privileges req with
                 | Some privileges => asked_grants (au_Name req) (au_Host req) superuser privileges
                 | None => asked_grants (au_Name req) (au_Host req) superuser []
                 end in
  let? revokes := asked_revokes (au_Name req) (au_Host req) (default [] (au_Revokes req)) d in
  Ok ((if bool_decide (au_Password req = None) && bool_decide (au_RequireTLS req = None) && Nat.eqb (length (limit_clauses req)) 0 then []
       else [SAlter (au_Name req) (au_Host req) (au_Password req) require (limit_clauses req)]) ++ grants ++ revokes).

(** ** Reading *)

Lemma reads_sep esc x y ts us : reads esc x ts -> reads esc y us -> reads esc (x +:+ " " +:+ y) (ts ++ us).
Proof. intros Hx Hy. apply reads_app; [done|by apply reads_space|reflexivity|discriminate]. Qed.

Lemma lex_ident esc s v rest :
  lex esc (Inside backquote v) (ReplaceAll s backquote (String backquote (str1 backquote)) +:+ rest) = lex esc (Inside backquote (v +:+ s)) rest.
Proof.
  revert v. induction s as [|c s IH]; intros v; [cbn; by rewrite append_nil_r|]. cbn [ReplaceAll].
  destruct (Ascii.eqb_spec c backquote) as [->|Hc].
  - cbn [str1 String.append lex]; cbn -[lex ReplaceAll String.append]. by rewrite IH, append_assoc.
  - cbn [String.append lex]. rewrite (proj2 (Ascii.eqb_neq _ _) Hc). change (Ascii.eqb backquote apostrophe) with false.
    by rewrite andb_false_r, IH, append_assoc.
Qed.

Lemma reads_quoteIdent esc s : reads esc (quoteIdent s) [Id s].
Proof.
  intros rest Hrest. unfold quoteIdent. rewrite !append_assoc. cbn [str1 String.append lex]. unfold lex_outside at 1.
  change (is_word backquote) with false. cbn -[lex ReplaceAll]. rewrite lex_ident. cbn [lex String.append].
  rewrite Ascii.eqb_refl, ends_outside by auto. cbn. by destruct (lex _ _ rest).
Qed.

Lemma ReplaceAll_no_char s c new : no_char c s = true -> ReplaceAll s c new = s.
Proof.
  unfold no_char. induction s as [|x s IH]; cbn; [done|]. intros [Hx Hs]%andb_true_iff. apply negb_true_iff in Hx. by rewrite Hx, IH.
Qed.

Lemma quoteIdent_plain s : no_char backquote s = true -> "`" +:+ s +:+ "`" = quoteIdent s.
Proof. intros Hs. unfold quoteIdent. by rewrite ReplaceAll_no_char. Qed.

Lemma reads_account esc name host : reads esc (account name host) (account_tokens esc name host).
Proof.
  unfold account, account_tokens. apply (reads_app esc _ _ [_] [_; _]); [apply reads_quote| |reflexivity|discriminate].
  apply reads_sym; [reflexivity|reflexivity|discriminate|discriminate|apply reads_quote].
Qed.

(** Texts of words and single spaces. *)
Definition plain_words (s : string) : bool := forallb (fun w => negb (empty w) && all_chars is_word w) (Split s " ").

Lemma Join_Split s sep : Join (Split s sep) (str1 sep) = s.
Proof.
  induction s as [|c s IH]; [done|]. cbn [Split]. destruct (Ascii.eqb_spec c sep) as [->|Hc].
  - destruct (Split s sep) as [|h t] eqn:E; [by destruct s; cbn in E; repeat case_match|]. cbn in *. by rewrite IH.
  - destruct (Split s sep) as [|h [|h' t]] eqn:E; cbn in *; by rewrite <- IH.
Qed.

Lemma reads_words_join esc l : forallb (fun w => negb (empty w) && all_chars is_word w) l = true -> reads esc (Join l " ") (Word <$> l).
Proof.
  induction l as [|w l IH]; [intros _; apply reads_nil|]. cbn [forallb]. intros [[Hne Hw]%andb_true_iff Hl]%andb_true_iff.
  apply negb_true_iff in Hne. destruct l as [|w' l]; [by apply reads_word|].
  change (Join (w :: w' :: l) " ") with (w +:+ " " +:+ Join (w' :: l) " "). apply (reads_sep esc _ _ [_]); [by apply reads_word|by apply IH].
Qed.

Lemma reads_words esc s : plain_words s = true -> reads esc s (words s).
Proof. intros H. rewrite <- (Join_Split s " ") at 1. by apply reads_words_join. Qed.

Lemma upper_is_word c : is_upper c || is_digit c || Ascii.eqb c "_" = true -> is_word c = true /\ Ascii.eqb c " " = false.
Proof. destruct c as [[] [] [] [] [] [] [] []]; cbn; try done. Qed.

Lemma privilegeWord_words s : privilegeWord s = true -> plain_words s = true.
Proof.
  destruct s as [|c s]; [done|]. cbn [privilegeWord]. intros [Hc Hs]%andb_true_iff. set (p := fun c => is_upper c || is_digit c || Ascii.eqb c "_") in Hs.
  assert (all_chars p (String c s) = true) as Hall by (cbn; unfold p at 1; by rewrite Hc).
  unfold plain_words. rewrite Split_no_sep.
  - cbn [forallb]. rewrite andb_true_r. apply andb_true_iff. split; [done|]. eapply all_chars_impl; [|exact Hall]. intros x Hx. by apply upper_is_word.
  - unfold no_char. eapply all_chars_impl; [|exact Hall]. intros x Hx. apply negb_true_iff. by apply upper_is_word.
Qed.

Lemma multiWord_words s : s ∈ multiWordPrivileges -> plain_words s = true.
Proof.
  intros Hs. assert (Forall (fun s => plain_words s = true) multiWordPrivileges) as H by (by repeat constructor).
  rewrite Forall_forall in H. by apply H.
Qed.

Lemma Normalize_words p n : NormalizePrivilegeName p = Ok n -> plain_words n = true.
Proof.
  unfold NormalizePrivilegeName. destruct (empty _); [done|]. destruct (privilegeWord _ || _) eqn:E; [|done]. intros [= <-].
  apply orb_true_iff in E as [E|E%bool_decide_eq_true]; [by apply privilegeWord_words|by apply multiWord_words].
Qed.

Lemma reads_privileges esc ps names :
  map_result NormalizePrivilegeName ps = Ok names -> reads esc (Join names ", ") (commas (words <$> names)).
Proof.
  intros H%map_result_Forall2. apply reads_join. induction H as [|p n ps names Hn H IH]; constructor; [|done].
  by eapply reads_words, Normalize_words.
Qed.

(** ** Grant targets *)

Definition plain_name (s : string) : Prop := s <> "" /\ s <> "*" /\ no_char backquote s = true.
Definition wf_target (t : GrantTarget) : Prop := t = everything \/ (plain_name (gt_Database t) /\ (gt_Table t = "" \/ plain_name (gt_Table t))).

Lemma Cut_before s sep before after found : Cut s sep = (before, after, found) -> no_char sep before = true.
Proof.
  revert before after found. induction s as [|c s IH]; intros before after found; cbn; [by intros [= <- _ _]|].
  destruct (Ascii.eqb c sep) eqn:E; [by intros [= <- _ _]|]. destruct (Cut s sep) as [[b a] f]. intros [= <- <- <-]. unfold no_char. cbn. rewrite E.
  by eapply IH.
Qed.

Lemma word_no_quote s : all_chars is_word s = true -> no_char backquote s = true.
Proof.
  unfold no_char. apply all_chars_impl. intros c Hc. apply negb_true_iff, Ascii.eqb_neq. by intros ->.
Qed.

Lemma splitIdentifier_name s ident rest :
  splitIdentifier s = Ok (ident, rest) -> ident = "*" \/ plain_name ident.
Proof.
  assert (forall s, (let '(ident, tail, found) := Cut s "." in
      if bareIdentifier ident then Ok (ident, if found then "." +:+ tail else "") else Err (Errorf "invalid identifier")) = Ok (ident, rest) ->
      ident = "*" \/ plain_name ident) as Hbare.
  { clear s. intros s. destruct (Cut s ".") as [[i t] f]. destruct (bareIdentifier i) eqn:E; [|done]. intros [= <- _].
    apply andb_true_iff in E as [E1%negb_true_iff%String.eqb_neq E2]. right. repeat split; [done| |by apply word_no_quote]. intros ->. done. }
  unfold splitIdentifier. destruct s as [|c s]; [apply Hbare|].
  destruct c as [[] [] [] [] [] [] [] []]; try apply Hbare; [by intros [= <- _]; left|].
  destruct (Cut s "`") as [[i t] f] eqn:E. destruct (negb f || empty i) eqn:E1; [done|]. destruct (String.eqb_spec i "*"); [done|]. intros [= <- _].
  right. apply orb_false_iff in E1 as [_ E1%String.eqb_neq]. by repeat split; [| |eapply Cut_before].
Qed.

Lemma ParseGrantTarget_wf on t : ParseGrantTarget on = Ok t -> wf_target t.
Proof.
  unfold ParseGrantTarget. destruct (splitIdentifier on) as [[db rest]|] eqn:E; [|done]. apply splitIdentifier_name in E.
  destruct rest as [|c rest]; [done|]. destruct c as [[] [] [] [] [] [] [] []]; try done.
  destruct (String.eqb_spec rest "*") as [->|Hr].
  - intros [= <-]. destruct E as [->|E]; [by left|right]. split; [done|by left].
  - destruct (splitIdentifier rest) as [[table tail]|] eqn:E'; [|done]. apply splitIdentifier_name in E'.
    destruct (String.eqb_spec db "*"); [done|]. destruct (String.eqb_spec table "*"); [done|]. destruct (empty tail); [|done]. intros [= <-].
    right. destruct E as [|E]; [done|]. destruct E' as [|E']; [done|]. split; [done|by right].
Qed.

Lemma reads_target esc t : wf_target t -> reads esc (SQL t) (target_tokens t).
Proof.
  assert (forall rest ts, reads esc rest ts -> reads esc (String "." rest) (Sym "." :: ts)) as Hdot by (intros; by apply reads_sym).
  assert (reads esc "*" [Sym "*"]) as Hstar by (apply reads_sym; [done..|apply reads_nil]).
  intros [->|([Hne [Hs Hq]] & Ht)]; unfold SQL, target_tokens.
  { cbn. apply reads_sym; [done..|]. by apply Hdot. }
  unfold IsGlobal. rewrite (proj2 (String.eqb_neq _ _) Hs). destruct (empty (gt_Table t)) eqn:Ee.
  - replace ("`" +:+ gt_Database t +:+ "`.*") with (quoteIdent (gt_Database t) +:+ ".*") by (rewrite <- quoteIdent_plain, !append_assoc; done).
    apply (reads_app esc _ _ [_]); [apply reads_quoteIdent|by apply Hdot|done|done].
  - destruct Ht as [Ht|(Ht1 & Ht2 & Ht3)]; [by rewrite Ht in Ee|].
    replace ("`" +:+ gt_Database t +:+ "`.`" +:+ gt_Table t +:+ "`") with (quoteIdent (gt_Database t) +:+ "." +:+ quoteIdent (gt_Table t))
      by (rewrite <- !quoteIdent_plain by done; rewrite !append_assoc; done).
    apply (reads_app esc _ _ [_]); [apply reads_quoteIdent|apply Hdot, reads_quoteIdent|done|done].
Qed.

(** ** Statements *)

Definition says (esc : bool) (stmt : string) (s : user_stmt) : Prop := reads esc stmt (stmt_tokens esc s).

(** The same outcome, and statements that say what was asked. *)
Definition tells (esc : bool) (built : result (list string)) (asked : result (list user_stmt)) : Prop :=
  match built, asked with
  | Ok stmts, Ok ss => Forall2 (says esc) stmts ss
  | Err _, Err _ => True
  | _, _ => False
  end.

Lemma tells_map {A} esc (f : A -> result string) (g : A -> result user_stmt) l :
  (forall x, match f x, g x with Ok s, Ok t => says esc s t | Err _, Err _ => True | _, _ => False end) ->
  tells esc (map_result f l) (map_result g l).
Proof.
  intros H. induction l as [|x l IH]; cbn; [constructor|]. specialize (H x). destruct (f x), (g x); try done. cbn.
  destruct (map_result f l), (map_result g l); cbn in *; try done. by constructor.
Qed.

(** A privilege entry and its clause. *)
Lemma clause_entry esc p :
  Nat.eqb (length (pv_Privileges p)) 0 = false ->
  match privilegeClause p, entry p with
  | Ok c, Ok e => reads esc (fst c) (commas (words <$> fst e)) /\ reads esc (snd c) (target_tokens (snd e))
  | Err _, Err _ => True
  | _, _ => False
  end.
Proof.
  intros Hn. unfold privilegeClause, entry. rewrite Hn. destruct (map_result NormalizePrivilegeName (pv_Privileges p)) as [names|] eqn:En; [|done].
  cbn. destruct (ParseGrantTarget _) as [t|] eqn:Et; [|done]. cbn. split; [by eapply reads_privileges|].
  by eapply reads_target, ParseGrantTarget_wf.
Qed.

Lemma reads_word_then esc w x ts : plain_words w = true -> reads esc x ts -> reads esc (w +:+ " " +:+ x) (words w ++ ts).
Proof. intros Hw Hx. by apply reads_sep; [apply reads_words|]. Qed.

Lemma says_grant esc name host privs target ps t :
  reads esc privs (commas (words <$> ps)) -> reads esc target (target_tokens t) ->
  says esc ("GRANT " +:+ privs +:+ " ON " +:+ target +:+ " TO " +:+ account name host) (SGrant name host ps t false).
Proof.
  intros Hp Ht. unfold says. cbn [stmt_tokens]. rewrite app_nil_r.
  apply (reads_word_then esc "GRANT"); [done|]. apply (reads_sep esc privs ("ON" +:+ " " +:+ target +:+ " TO " +:+ account name host)); [done|].
  apply reads_word_then; [done|]. apply (reads_sep esc target ("TO" +:+ " " +:+ account name host)); [done|].
  apply reads_word_then; [done|]. apply reads_account.
Qed.

Lemma says_revoke esc name host privs target ps t ifExists :
  reads esc privs (commas (words <$> ps)) -> reads esc target (target_tokens t) ->
  says esc ((if ifExists : bool then "REVOKE IF EXISTS " else "REVOKE ") +:+ privs +:+ " ON " +:+ target +:+ " FROM " +:+ account name host)
    (SRevoke name host ifExists ps t).
Proof.
  intros Hp Ht. unfold says. cbn [stmt_tokens].
  assert (reads esc (privs +:+ " ON " +:+ target +:+ " FROM " +:+ account name host)
    (commas (words <$> ps) ++ words "ON" ++ target_tokens t ++ words "FROM" ++ account_tokens esc name host)) as H.
  { apply (reads_sep esc privs ("ON" +:+ " " +:+ target +:+ " FROM " +:+ account name host)); [done|].
    apply reads_word_then; [done|]. apply (reads_sep esc target ("FROM" +:+ " " +:+ account name host)); [done|].
    apply reads_word_then; [done|]. apply reads_account. }
  destruct ifExists; [by apply (reads_word_then esc "REVOKE IF EXISTS")|by apply (reads_word_then esc "REVOKE")].
Qed.

Lemma says_superuser esc name host : says esc (superuser_grant (account name host)) (SGrant name host ["ALL PRIVILEGES"] everything true).
Proof.
  unfold says. cbn [stmt_tokens]. apply (reads_word_then esc "GRANT" ("ALL PRIVILEGES ON *.* TO " +:+ account name host +:+ " WITH GRANT OPTION")); [done|].
  apply (reads_word_then esc "ALL PRIVILEGES" ("ON *.* TO " +:+ account name host +:+ " WITH GRANT OPTION")); [done|].
  apply (reads_word_then esc "ON" ("*.* TO " +:+ account name host +:+ " WITH GRANT OPTION")); [done|].
  apply (reads_sep esc "*.*" ("TO " +:+ account name host +:+ " WITH GRANT OPTION")); [by apply (reads_target esc everything); left|].
  apply (reads_word_then esc "TO" (account name host +:+ " WITH GRANT OPTION")); [done|].
  apply (reads_sep esc (account name host) "WITH GRANT OPTION"); [apply reads_account|by apply reads_words].
Qed.

Lemma tells_grants esc name host superuser privileges :
  tells esc (grantStatements name host superuser privileges) (asked_grants name host superuser privileges).
Proof.
  unfold grantStatements, asked_grants. destruct superuser; [constructor; [apply says_superuser|constructor]|]. apply tells_map. intros p.
  pose proof (clause_entry esc p) as H. unfold entry in *. destruct (Nat.eqb _ 0); [done|]. specialize (H eq_refl).
  destruct (privilegeClause p) as [c|], (map_result _ _) as [ns|]; cbn in *; try done;
    destruct (ParseGrantTarget _) as [t|]; cbn in *; try done. by apply says_grant; destruct H.
Qed.

Lemma tells_revokes esc name host revokes d : tells esc (revokeStatements name host revokes d) (asked_revokes name host revokes d).
Proof.
  unfold revokeStatements, asked_revokes. apply tells_map. intros p.
  pose proof (clause_entry esc p) as H. unfold entry in *. destruct (Nat.eqb _ 0); [done|]. specialize (H eq_refl).
  destruct (privilegeClause p) as [c|], (map_result _ _) as [ns|]; cbn in *; try done;
    destruct (ParseGrantTarget _) as [t|]; cbn in *; try done. by apply says_revoke; destruct H.
Qed.

Lemma require_words r c : requireClause r = Ok c -> plain_words c = true.
Proof. unfold requireClause. by repeat case_match; intros [= <-]. Qed.

Lemma reads_limits esc limits :
  forallb (fun l => negb (empty (fst l)) && all_chars is_word (fst l)) limits = true ->
  reads esc (Join ((fun l => fst l +:+ " " +:+ FormatInt (snd l)) <$> limits) " ") (limit_tokens limits).
Proof.
  induction limits as [|[n z] limits IH]; [intros _; apply reads_nil|]. cbn [forallb fst snd]. intros [[Hne Hw]%andb_true_iff Hl]%andb_true_iff.
  apply negb_true_iff in Hne. assert (reads esc (n +:+ " " +:+ FormatInt z) (Word n :: num_tokens z)) as H1
    by (apply (reads_sep esc _ _ [_]); [by apply reads_word|apply reads_FormatInt]).
  destruct limits as [|l limits]; [cbn; by rewrite app_nil_r|]. cbn [fmap list_fmap fst snd] in *. unfold limit_tokens. cbn [fmap list_fmap concat fst snd].
  apply (reads_sep esc _ (Join _ " ")); [done|]. by apply IH.
Qed.

Lemma limit_names req : forallb (fun l => negb (empty (fst l)) && all_chars is_word (fst l)) (limit_clauses req) = true.
Proof. unfold limit_clauses. by repeat case_match. Qed.

#[local] Arguments limit_clauses : simpl never.

Lemma says_create esc name host password require conns queries updates perHour :
  plain_words require = true ->
  says esc ("CREATE USER IF NOT EXISTS " +:+ account name host +:+ " IDENTIFIED BY " +:+ quote password +:+ " " +:+ require +:+ " " +:+
            resourceOptions conns queries updates perHour)
    (SCreate name host password require
       [("MAX_QUERIES_PER_HOUR", queries); ("MAX_UPDATES_PER_HOUR", updates); ("MAX_CONNECTIONS_PER_HOUR", perHour); ("MAX_USER_CONNECTIONS", conns)]).
Proof.
  intros Hr. unfold says. cbn [stmt_tokens].
  apply (reads_word_then esc "CREATE USER IF NOT EXISTS"); [done|].
  apply (reads_sep esc (account name host) ("IDENTIFIED BY" +:+ " " +:+ quote password +:+ " " +:+ require +:+ " " +:+
    resourceOptions conns queries updates perHour)); [apply reads_account|].
  unfold password_tokens. rewrite <- app_assoc. apply reads_word_then; [done|]. apply reads_sep; [apply reads_quote|].
  apply reads_sep; [by apply reads_words|]. unfold resourceOptions, with_tokens.
  apply (reads_sep esc "WITH" _ [_]); [by apply reads_word|].
  exact (reads_limits esc [("MAX_QUERIES_PER_HOUR", queries); ("MAX_UPDATES_PER_HOUR", updates); ("MAX_CONNECTIONS_PER_HOUR", perHour);
                           ("MAX_USER_CONNECTIONS", conns)] eq_refl).
Qed.

Lemma tells_create esc req d : tells esc (CreateUserStatementsWithDialect req d) (asked_create req d).
Proof.
  unfold CreateUserStatementsWithDialect, asked_create. destruct (requireClause _) as [require|] eqn:Er; [|done]. cbn.
  pose proof (tells_grants esc (cu_Name req) (cu_Host req) (cu_Superuser req) (cu_Privileges req)) as Hg.
  pose proof (tells_revokes esc (cu_Name req) (cu_Host req) (cu_Revokes req) d) as Hr.
  destruct (grantStatements _ _ _ _), (asked_grants _ _ _ _); try done. cbn. destruct (revokeStatements _ _ _ _), (asked_revokes _ _ _ _); try done.
  constructor; [by apply says_create, (require_words (cu_RequireTLS req))|by apply Forall2_app].
Qed.

Lemma reads_spaced esc l ts : Forall2 (reads esc) l ts -> reads esc (Join l " ") (concat ts).
Proof.
  induction 1 as [|x t l ts Hx Hl IH]; [apply reads_nil|]. destruct Hl as [|y u l ts Hy Hl]; [cbn; by rewrite app_nil_r|].
  change (Join (x :: y :: l) " ") with (x +:+ " " +:+ Join (y :: l) " "). by apply reads_sep.
Qed.

(** The clauses of an [ALTER USER], and what they say. *)
Definition clause_tokens (esc : bool) (password require : option string) (limits : list (string * Z)) : list (list token) :=
  match password with Some p => [password_tokens esc p] | None => [] end ++
  match require with Some c => [words c] | None => [] end ++
  match limits with [] => [] | _ => [with_tokens limits] end.

Lemma clause_tokens_concat esc password require limits :
  concat (clause_tokens esc password require limits) =
  from_option (password_tokens esc) [] password ++ from_option words [] require ++ with_tokens limits.
Proof. unfold clause_tokens. destruct password, require, limits; cbn; by rewrite ?app_nil_r, <- ?app_assoc. Qed.

Lemma alter_clauses_read esc req :
  match alter_clauses req, (match au_RequireTLS req with Some r => let? c := requireClause r in Ok (Some c) | None => Ok None end) with
  | Ok clauses, Ok require => Forall2 (reads esc) clauses (clause_tokens esc (au_Password req) require (limit_clauses req))
  | Err _, Err _ => True
  | _, _ => False
  end.
Proof.
  assert (forall require, match (match require with Some r => let? c := requireClause r in Ok [c] | None => Ok [] end),
      (match require with Some r => let? c := requireClause r in Ok (Some c) | None => Ok None end) with
      | Ok cs, Ok c => Forall2 (reads esc) cs (match c with Some c => [words c] | None => [] end)
      | Err _, Err _ => True | _, _ => False end) as Hr.
  { intros [r|]; [|constructor]. destruct (requireClause r) eqn:E; [|done]. cbn. constructor; [by eapply reads_words, require_words|constructor]. }
  unfold alter_clauses, clause_tokens. specialize (Hr (au_RequireTLS req)).
  destruct (match au_RequireTLS req with Some r => let? c := requireClause r in Ok [c] | None => Ok [] end) as [cs|],
    (match au_RequireTLS req with Some r => let? c := requireClause r in Ok (Some c) | None => Ok None end) as [c|]; try done. cbn.
  apply Forall2_app; [|apply Forall2_app; [done|]].
  - destruct (au_Password req) as [p|]; [|constructor]. constructor; [|constructor]. apply (reads_word_then esc "IDENTIFIED BY"); [done|apply reads_quote].
  - pose proof (limit_names req) as Hn. destruct (limit_clauses req) as [|l ls]; [constructor|]. constructor; [|constructor].
    apply (reads_sep esc "WITH" _ [_]); [by apply reads_word|]. exact (reads_limits esc (l :: ls) Hn).
Qed.

Lemma clause_tokens_length esc password require limits :
  length (clause_tokens esc password require limits) = 0%nat <-> password = None /\ require = None /\ limits = [].
Proof. destruct password, require, limits; cbn; split; try lia; try done; by intros (? & ? & ?). Qed.

Lemma tells_alter esc req d : tells esc (AlterUserStatementsWithDialect req d) (asked_alter req d).
Proof.
  unfold AlterUserStatementsWithDialect, asked_alter. pose proof (alter_clauses_read esc req) as Hc.
  assert (forall c, (match au_RequireTLS req with Some r => let? c := requireClause r in Ok (Some c) | None => Ok None end) = Ok c ->
    (c = None <-> au_RequireTLS req = None)) as Hsame.
  { destruct (au_RequireTLS req) as [r|]; cbn; [|by intros c [= <-]]. destruct (requireClause r); cbn; [|done]. by intros c [= <-]. }
  destruct (alter_clauses req) as [clauses|],
    (match au_RequireTLS req with Some r => let? c := requireClause r in Ok (Some c) | None => Ok None end) as [require|]; try done. cbn.
  specialize (Hsame _ eq_refl).
  pose proof (tells_grants esc (au_Name req) (au_Host req) (default false (au_Superuser req)) (default [] (au_Privileges req))) as Hg.
  pose proof (tells_revokes esc (au_Name req) (au_Host req) (default [] (au_Revokes req)) d) as Hr.
  set (built := match au_Privileges req with Some privileges => _ | None => _ end).
  set (asked := match au_Privileges req with Some privileges => _ | None => _ end).
  assert (tells esc built asked) as Hg'.
  { subst built asked. destruct (au_Privileges req); [done|]. unfold grantStatements in Hg. by destruct (default false (au_Superuser req)). }
  destruct built, asked; try done. cbn.
  replace (match au_Revokes req with Some revokes => revokeStatements (au_Name req) (au_Host req) revokes d | None => Ok [] end)
    with (revokeStatements (au_Name req) (au_Host req) (default [] (au_Revokes req)) d) by (by destruct (au_Revokes req)).
  destruct (revokeStatements _ _ _ _), (asked_revokes _ _ _ _); try done. cbn. apply Forall2_app; [|by apply Forall2_app].
  pose proof (Forall2_length _ _ _ Hc) as Hlen. destruct (Nat.eqb_spec (length clauses) 0) as [E|E].
  - rewrite Hlen, clause_tokens_length, Hsame in E. destruct E as (-> & -> & ->). constructor.
  - destruct (bool_decide _ && _ && _) eqn:Eb.
    + apply andb_true_iff in Eb as [[E1%bool_decide_eq_true E2%bool_decide_eq_true]%andb_true_iff E3%Nat.eqb_eq]. destruct E.
      rewrite Hlen, clause_tokens_length, Hsame. apply nil_length_inv in E3. done.
    + constructor; [|constructor]. unfold says. cbn [stmt_tokens]. rewrite <- clause_tokens_concat.
      apply (reads_word_then esc "ALTER USER"); [done|]. apply (reads_sep esc (account (au_Name req) (au_Host req)) (Join clauses " ")); [apply reads_account|]. by apply reads_spaced.
Qed.

(** ** Theorems *)

Definition reads_as (esc : bool) (stmt : string) (s : user_stmt) : Prop := lex esc (Outside "") stmt = Some (stmt_tokens esc s).

Lemma tells_reads esc built asked :
  tells esc built asked ->
  match built, asked with
  | Ok stmts, Ok ss => Forall2 (reads_as esc) stmts ss
  | Err _, Err _ => True
  | _, _ => False
  end.
Proof.
  destruct built, asked; cbn; try done. intros H. eapply Forall2_impl; [exact H|]. intros stmt s Hs. by apply reads_all.
Qed.

(** whatever names, hosts, passwords, privileges and targets a request carries,
    building its statements fails exactly when an entry is no privilege list on one
    grammatical target or the TLS requirement is unknown, and otherwise the statements
    read, one by one and in order, as the [CREATE USER] or [ALTER USER], the grants and
    the revokes the request asks for: nothing in a value adds a clause, a grantee or a
    statement. *)
Theorem user_statements_say_what_was_asked esc create alter d :
  match CreateUserStatementsWithDialect create d, asked_create create d with
  | Ok stmts, Ok ss => Forall2 (reads_as esc) stmts ss
  | Err _, Err _ => True
  | _, _ => False
  end /\
  match AlterUserStatementsWithDialect alter d, asked_alter alter d with
  | Ok stmts, Ok ss => Forall2 (reads_as esc) stmts ss
  | Err _, Err _ => True
  | _, _ => False
  end.
Proof. split; apply tells_reads; [apply tells_create|apply tells_alter]. Qed.

(** A statement that lets its account pass privileges on: the clause, or the
    privilege [GRANT OPTION] among those granted. *)
Definition gives_grant_option (s : user_stmt) : Prop :=
  match s with SGrant _ _ ps _ option => option = true \/ "GRANT OPTION" ∈ ps | _ => False end.

(** Statements on one account that grant nothing but what is asked for: everything to
    a superuser, else the privileges of one requested entry on its target. *)
Definition granted (superuser : bool) (privileges : list Privilege) (s : user_stmt) : Prop :=
  match s with
  | SGrant _ _ ps t option =>
      if superuser then ps = ["ALL PRIVILEGES"] /\ t = everything /\ option = true
      else option = false /\ exists p, p ∈ privileges /\ entry p = Ok (ps, t)
  | _ => True
  end.

Definition on_account (name host : string) (superuser : bool) (privileges : list Privilege) (s : user_stmt) : Prop :=
  stmt_account s = (name, host) /\ granted superuser privileges s /\
  (gives_grant_option s -> superuser = true \/
     exists p x, p ∈ privileges /\ x ∈ pv_Privileges p /\ NormalizePrivilegeName x = Ok "GRANT OPTION").

(** An entry grants a name only when one of its own normalizes to it. *)
Lemma entry_names p ps t x : entry p = Ok (ps, t) -> x ∈ ps -> exists y, y ∈ pv_Privileges p /\ NormalizePrivilegeName y = Ok x.
Proof.
  unfold entry. destruct (Nat.eqb _ _); [done|]. destruct (map_result _ _) as [names|] eqn:En; [|done]. cbn [rbind].
  destruct (ParseGrantTarget _); [|done]. cbn [rbind]. intros [= -> _] [i Hi]%list_elem_of_lookup.
  destruct (Forall2_lookup_r _ _ _ _ _ (proj1 (map_result_Forall2 _ _ _) En) Hi) as (y & Hy & E). exists y. split; [|done].
  by eapply list_elem_of_lookup_2.
Qed.

Lemma granted_on_account name host superuser privileges s :
  stmt_account s = (name, host) -> granted superuser privileges s -> on_account name host superuser privileges s.
Proof.
  intros Ha Hg. split_and!; [done..|]. destruct s; cbn; try done. destruct superuser; [by left|]. destruct Hg as (-> & p & Hp & E).
  intros [?|Hin]; [done|]. right. destruct (entry_names _ _ _ _ E Hin) as (y & Hy & En). by exists p, y.
Qed.

Lemma asked_grants_account name host superuser privileges ss :
  asked_grants name host superuser privileges = Ok ss -> Forall (on_account name host superuser privileges) ss.
Proof.
  unfold asked_grants. destruct superuser; [intros [= <-]; constructor; [by apply granted_on_account|constructor]|].
  intros H%map_result_Forall2. apply Forall_forall. intros s [i Hi]%list_elem_of_lookup.
  destruct (Forall2_lookup_r _ _ _ _ _ H Hi) as (p & Hp & E). destruct (entry p) as [[ps t]|] eqn:Ep; [|done]. injection E as <-.
  apply granted_on_account; [done|]. split; [done|]. exists p. split; [|done]. by eapply list_elem_of_lookup_2.
Qed.

Lemma asked_revokes_account name host superuser privileges revokes d ss :
  asked_revokes name host revokes d = Ok ss -> Forall (on_account name host superuser privileges) ss.
Proof.
  unfold asked_revokes. intros H%map_result_Forall2. induction H as [|p s ps ss Hp H IH]; constructor; [|done].
  destruct (entry p); [|done]. injection Hp as <-. by apply granted_on_account.
Qed.

Lemma asked_create_account req d ss :
  asked_create req d = Ok ss -> Forall (on_account (cu_Name req) (cu_Host req) (cu_Superuser req) (cu_Privileges req)) ss.
Proof.
  unfold asked_create. destruct (requireClause _); [|done]. cbn. destruct (asked_grants _ _ _ _) eqn:Eg; [|done]. cbn.
  destruct (asked_revokes _ _ _ _) eqn:Er; [|done]. intros [= <-]. constructor; [by apply granted_on_account|].
  apply Forall_app. split; [by eapply asked_grants_account|by eapply asked_revokes_account].
Qed.

Lemma asked_alter_account req d ss :
  asked_alter req d = Ok ss ->
  Forall (on_account (au_Name req) (au_Host req) (default false (au_Superuser req)) (default [] (au_Privileges req))) ss.
Proof.
  unfold asked_alter. destruct (match au_RequireTLS req with Some r => _ | None => _ end); [|done]. cbn.
  replace (match au_Privileges req with
           | Some privileges => asked_grants (au_Name req) (au_Host req) (default false (au_Superuser req)) privileges
           | None => asked_grants (au_Name req) (au_Host req) (default false (au_Superuser req)) []
           end) with (asked_grants (au_Name req) (au_Host req) (default false (au_Superuser req)) (default [] (au_Privileges req)))
    by (by destruct (au_Privileges req)).
  destruct (asked_grants _ _ _ _) eqn:Eg; [|done]. cbn. destruct (asked_revokes _ _ _ _) eqn:Er; [|done]. intros [= <-].
  apply Forall_app. split; [|apply Forall_app; split; [by eapply asked_grants_account|by eapply asked_revokes_account]].
  case_match; [constructor|]. constructor; [|constructor]. by apply granted_on_account.
Qed.

(** Every statement executed reads as one on this account, which is not reserved. *)
Definition confined (esc : bool) (name host : string) (superuser : bool) (privileges : list Privilege) (q : request) : Prop :=
  forall stmt, q = Exec stmt ->
    IsReservedUser name = false /\ exists s, reads_as esc stmt s /\ on_account name host superuser privileges s.

Lemma execAll_within Q d stmts : Forall (fun stmt => Q (Exec stmt)) stmts -> within Q (execAll d stmts).
Proof.
  induction 1 as [|stmt stmts Hs H IH]; cbn [execAll]; [apply within_done|]. apply within_bind; [by apply within_exec|].
  intros [f|]; [|done]. case_match; [done|apply within_done].
Qed.

Lemma run_confined esc name host superuser privileges d built asked :
  IsReservedUser name = false -> tells esc built asked -> (forall ss, asked = Ok ss -> Forall (on_account name host superuser privileges) ss) ->
  within (confined esc name host superuser privileges) (run_statements d built).
Proof.
  intros Hres Ht Ha. destruct built as [stmts|]; cbn; [|apply within_done]. destruct asked as [ss|]; [|done].
  apply execAll_within. specialize (Ha ss eq_refl). apply Forall_forall. intros stmt Hin.
  apply list_elem_of_lookup in Hin as [i Hi]. destruct (Forall2_lookup_l _ _ _ _ _ Ht Hi) as (s & Hs & Hsays).
  intros stmt' [= <-]. split; [done|]. exists s. split; [by apply reads_all|]. by eapply Forall_lookup_1.
Qed.

(** C32: every statement the account manager executes for a request to create, alter or
    drop a user, whatever the request carries and the server answers, reads as a
    statement on the requested account, which is not a reserved one, and grants nothing
    but everything to a requested superuser or else the privileges of one requested
    entry on its target, so that the account can pass privileges on only when the
    request makes it a superuser or names the privilege [GRANT OPTION]; and a request
    to drop a schema drops that name only and never a system schema, in whatever case
    it is written.  (The operator's own metrics account, which is reserved, is managed
    by [EnsureMetricsAccount], and schemas are created by [CreateDatabase].) *)
Theorem accounts_are_confined esc d create alter drop schema :
  within (confined esc (cu_Name create) (cu_Host create) (cu_Superuser create) (cu_Privileges create)) (CreateUser d create) /\
  within (confined esc (au_Name alter) (au_Host alter) (default false (au_Superuser alter)) (default [] (au_Privileges alter))) (AlterUser d alter) /\
  within (confined esc (du_Name drop) (du_Host drop) false []) (DropUser drop) /\
  within (fun q => forall stmt, q = Exec stmt ->
      lex esc (Outside "") stmt = Some (words "DROP DATABASE IF EXISTS" ++ [Id (dd_Name schema)]) /\ ToLower (dd_Name schema) ∉ reservedDatabases)
    (DropDatabase schema).
Proof.
  split; [|split; [|split]].
  - unfold CreateUser. destruct (IsReservedUser _) eqn:E; [apply within_done|].
    eapply run_confined; [done|apply tells_create|]. intros ss. apply asked_create_account.
  - unfold AlterUser. destruct (IsReservedUser _) eqn:E; [apply within_done|].
    eapply run_confined; [done|apply tells_alter|]. intros ss. apply asked_alter_account.
  - unfold DropUser. destruct (IsReservedUser _) eqn:E; [apply within_done|]. apply within_exec. intros stmt [= <-]. split; [done|].
    exists (SDrop (du_Name drop) (du_Host drop)). split; [|by apply granted_on_account]. apply reads_all.
    apply (reads_word_then esc "DROP USER IF EXISTS"); [done|apply reads_account].
  - unfold DropDatabase, IsReservedDatabase. case_bool_decide; [apply within_done|]. apply within_exec. intros stmt [= <-]. split; [|done].
    apply reads_all. apply (reads_word_then esc "DROP DATABASE IF EXISTS"); [done|apply reads_quoteIdent].
Qed.
