(* ===== verification/MetricsGrants.v ===== *)
(** * The grants of the metrics account

    [pkg/management/mysql/user/metrics_grants.go] and [metrics_account.go]: parsing what
    [SHOW GRANTS] prints, planning the grants and revokes that bring the account to its
    base and declared grants, and applying the plan.

    A plan is compared with sets of privilege-on-target keys: applied to what the
    account holds it leaves exactly what is wanted.  Whatever the request declares, the
    account is only ever granted its base grants and read access to named schemas that
    cannot cover the [mysql] schema; [covers_schema] is how the server reads a schema
    name in a grant, with its wildcards. *)

From Stdlib Require Import ZArith Lia Bool Ascii String.
From stdpp Require Import base list strings gmap sets.
From S2P Require Import Prelude GoStrings Versions SqlText Cluster GtidModel GroupReplication Instance RoleReconciler Users.

Local Open Scope Z_scope.
#[local] Arguments String.append : simpl nomatch.

(** ** Reading [SHOW GRANTS] *)

Record MetricsGrantPlan := mkMetricsGrantPlan {
  mp_Grants : list string;
  mp_Revokes : list string;
  mp_Granted : list string;
  mp_Revoked : list string
}.

Definition privilegeAliases : gmap string string :=
  <["binlog monitor" := "replication client"]> (<["slave monitor" := "replication client"]> (<["replication replica" := "replication slave"]> ∅)).

Record grantPair := mkGrantPair { gp_privilege : string; gp_target : string; gp_key : string }.

Definition double_quote : ascii := "034".
(** [identifierQuotes.Replace] *)
Definition strip_quotes (s : string) : string := string_filter (fun c => negb (Ascii.eqb c backquote) && negb (Ascii.eqb c double_quote)) s.

Definition newGrantPair (privilege target : string) : grantPair :=
  let priv := ToLower (Join (Fields (strip_quotes privilege)) " ") in
  let priv := default priv (privilegeAliases !! priv) in
  let target := TrimSpace target in
  mkGrantPair (TrimSpace privilege) target (priv +:+ "@" +:+ strip_quotes target).

Record parsedGrant := mkParsedGrant { pg_privileges : list string; pg_target : string; pg_roles : string; pg_grantOption : bool }.

Definition is_quote (c : ascii) : bool := Ascii.eqb c backquote || Ascii.eqb c apostrophe || Ascii.eqb c double_quote.

(** [s] starts with [sep], ignoring case. *)
Definition prefix_fold (sep s : string) : bool :=
  (String.length sep <=? String.length s)%nat && EqualFold (substring 0 (String.length sep) s) sep.
Definition drop_string (n : nat) (s : string) : string := substring n (String.length s - n) s.

(** [indexTopLevel], as the text before the separator and after it; [q] is the open
    quote. *)
Fixpoint cut_top (sep : string) (q : option ascii) (depth : Z) (s : string) : option (string * string) :=
  match s with
  | EmptyString => None
  | String c s' =>
      let skip q depth := (fun p => (String c (fst p), snd p)) <$> cut_top sep q depth s' in
      match q with
      | Some q' => skip (if Ascii.eqb c q' then None else Some q') depth
      | None =>
          if is_quote c then skip (Some c) depth
          else if Ascii.eqb c "(" then skip None (depth + 1)
          else if Ascii.eqb c ")" then skip None (depth - 1)
          else if (depth =? 0) && prefix_fold sep s then Some ("", drop_string (String.length sep) s)
          else skip None depth
      end
  end.
Definition indexTopLevel (s sep : string) : option (string * string) := cut_top sep None 0 s.

Fixpoint split_top (sep : ascii) (q : option ascii) (depth : Z) (s : string) : list string :=
  match s with
  | EmptyString => [EmptyString]
  | String c s' =>
      let skip q depth := match split_top sep q depth s' with h :: t => String c h :: t | [] => [str1 c] end in
      match q with
      | Some q' => skip (if Ascii.eqb c q' then None else Some q') depth
      | None =>
          if is_quote c then skip (Some c) depth
          else if Ascii.eqb c "(" then skip None (depth + 1)
          else if Ascii.eqb c ")" then skip None (depth - 1)
          else if Ascii.eqb c sep && (depth =? 0) then EmptyString :: split_top sep None depth s'
          else skip None depth
      end
  end.
Definition splitTopLevel (s : string) (sep : ascii) : list string := split_top sep None 0 s.

Definition HasSuffix (s suffix : string) : bool :=
  (String.length suffix <=? String.length s)%nat &&
  String.eqb (drop_string (String.length s - String.length suffix) s) suffix.

Definition parseShowGrant (line : string) : option parsedGrant :=
  let line := TrimSpace line in
  if negb (prefix_fold "GRANT " line) then None
  else
    let body := drop_string (String.length "GRANT ") line in
    match indexTopLevel body " TO " with
    | None => None
    | Some (head, tail) =>
        let grantOption := HasSuffix (ToUpper tail) " WITH GRANT OPTION" in
        match indexTopLevel head " ON " with
        | None => Some (mkParsedGrant [] "" (TrimSpace head) grantOption)
        | Some (privs, target) =>
            Some (mkParsedGrant (List.filter (fun p => negb (empty p)) (TrimSpace <$> splitTopLevel privs ",")) (TrimSpace target) "" grantOption)
        end
    end.

(** ** The plan *)

Definition pairs_of (p : Privilege) : list grantPair := (fun priv => newGrantPair priv (pv_On p)) <$> pv_Privileges p.
Definition pairKeys (privileges : list Privilege) : gset string := list_to_set (gp_key <$> (privileges ≫= pairs_of)).

(** The privileges of a line, with the grant option unless it is a proxy grant. *)
Definition line_privileges (g : parsedGrant) : list string :=
  if pg_grantOption g && bool_decide (indexTopLevel (pg_target g) "@" = None) then pg_privileges g ++ ["GRANT OPTION"] else pg_privileges g.

(** The pairs a line grants; roles are not pairs. *)
Definition line_pairs (line : string) : list grantPair :=
  match parseShowGrant line with
  | Some g =>
      if negb (empty (pg_roles g)) then []
      else List.filter (fun gp => negb (HasPrefix (gp_key gp) "usage@")) ((fun priv => newGrantPair priv (pg_target g)) <$> line_privileges g)
  | None => []
  end.
Definition line_roles (line : string) : list string :=
  match parseShowGrant line with Some g => if negb (empty (pg_roles g)) then [pg_roles g] else [] | None => [] end.

(** The wanted pairs not held, each key once. *)
Fixpoint missing_pairs (have : gset string) (wanted : list grantPair) : list grantPair :=
  match wanted with
  | [] => []
  | gp :: wanted' =>
      if bool_decide (gp_key gp ∈ have) then missing_pairs have wanted'
      else gp :: missing_pairs ({[gp_key gp]} ∪ have) wanted'
  end.

Record targetGroup := mkTargetGroup { tg_target : string; tg_privileges : list string }.

Fixpoint add_to_group (groups : list targetGroup) (p : grantPair) : list targetGroup :=
  match groups with
  | [] => [mkTargetGroup (gp_target p) [gp_privilege p]]
  | g :: groups' =>
      if String.eqb (tg_target g) (gp_target p) then mkTargetGroup (tg_target g) (tg_privileges g ++ [gp_privilege p]) :: groups'
      else g :: add_to_group groups' p
  end.
Definition groupByTarget (pairs : list grantPair) : list targetGroup := foldl add_to_group [] pairs.
Definition summaries (g : targetGroup) : list string := (fun p => p +:+ " ON " +:+ tg_target g) <$> tg_privileges g.

Definition grant_statement (acct : string) (g : targetGroup) : string :=
  "GRANT " +:+ Join (tg_privileges g) ", " +:+ " ON " +:+ tg_target g +:+ " TO " +:+ acct.
Definition revoke_statement (acct : string) (g : targetGroup) : string :=
  "REVOKE " +:+ Join (tg_privileges g) ", " +:+ " ON " +:+ tg_target g +:+ " FROM " +:+ acct.

Definition PlanMetricsGrants (name host : string) (observed : list string) (base declared : list Privilege) : MetricsGrantPlan :=
  let acct := account name host in
  let held := observed ≫= line_pairs in
  let extras := List.filter (fun gp => negb (bool_decide (gp_key gp ∈ pairKeys base)) && negb (bool_decide (gp_key gp ∈ pairKeys declared))) held in
  let roles := observed ≫= line_roles in
  let missing := missing_pairs (list_to_set (gp_key <$> held)) ((base ++ declared) ≫= pairs_of) in
  mkMetricsGrantPlan
    (grant_statement acct <$> groupByTarget missing)
    ((revoke_statement acct <$> groupByTarget extras) ++ ((fun r => "REVOKE " +:+ r +:+ " FROM " +:+ acct) <$> roles))
    (groupByTarget missing ≫= summaries)
    ((groupByTarget extras ≫= summaries) ++ ((fun r => "role " +:+ r) <$> roles)).

(** ** Applying it *)

Record MetricsAccountResponse := mkMetricsAccountResponse { mr_Created : bool; mr_Granted : list string; mr_Revoked : list string }.

Definition declared_entry (lowerCase : bool) (p : Privilege) : result Privilege :=
  let? _ := ValidateMetricsPrivilegeNames (pv_Privileges p) in
  let? target := ParseMetricsGrantTarget (pv_On p) in
  let target := if lowerCase then mkGrantTarget (ToLower (gt_Database target)) (ToLower (gt_Table target)) else target in
  Ok (mkPrivilege ((fun name => ToUpper (Join (Fields name) " ")) <$> pv_Privileges p) (SQL target)).

Definition metricsDeclaredGrants (grants : list Privilege) (lowerCase : bool) : result (list Privilege) :=
  map_result (declared_entry lowerCase) grants.

(** Every statement is tried; the failures are joined. *)
Fixpoint exec_each (d : Dialect) (stmts : list string) : prog (list Failure) :=
  match stmts with
  | [] => Done []
  | stmt :: stmts' =>
      run! e := execAll d [stmt] in
      run! rest := exec_each d stmts' in
      Done (match e with Some f => f :: rest | None => rest end)
  end.

Definition join_failures (fs : list Failure) : option Failure :=
  match fs with [] => None | f :: _ => Some (mkFailure (f_Number f) (Join (f_Message <$> fs) (str1 "010"))) end.

Definition EnsureMetricsAccount (d : Dialect) (name : string) (privileges : list Privilege) : prog (MetricsAccountResponse + Failure) :=
  if empty name then Done (inr (fails "no metrics account is configured on this instance"))
  else
    match metricsDeclaredGrants privileges false with
    | Err e => Done (inr (refuse_request e))
    | Ok _ =>
        let host := MetricsAccountHost in
        run! lower := req (Scalar "SELECT @@GLOBAL.lower_case_table_names") in
        match (match lower with inl s => ParseInt s | inr _ => None end) with
        | None => Done (inr (fails "reading lower_case_table_names"))
        | Some lower =>
            match metricsDeclaredGrants privileges (negb (lower =? 0)) with
            | Err e => Done (inr (refuse_request e))
            | Ok declared =>
                run! count := req (ScalarArgs "SELECT COUNT(*) FROM mysql.user WHERE User = ? AND Host = ?" [name; host]) in
                match (match count with inl s => ParseInt s | inr _ => None end) with
                | None => Done (inr (fails "looking up the metrics account"))
                | Some count =>
                    run! created := (if count =? 0 then exec ("CREATE USER IF NOT EXISTS " +:+ account name host) else Done None) in
                    match created with
                    | Some f => Done (inr f)
                    | None =>
                        run! observed := showGrants name host in
                        match observed with
                        | inr f => Done (inr f)
                        | inl observed =>
                            let plan := PlanMetricsGrants name host observed MetricsAccountBaseGrants declared in
                            run! errs := exec_each d (mp_Revokes plan ++ mp_Grants plan) in
                            Done (match join_failures errs with
                                  | Some f => inr f
                                  | None => inl (mkMetricsAccountResponse (count =? 0) (mp_Granted plan) (mp_Revoked plan))
                                  end)
                        end
                    end
                end
            end
        end
    end.

(** ** Lemmas *)

Definition keys (pairs : list grantPair) : gset string := list_to_set (gp_key <$> pairs).
Definition held_pairs (observed : list string) : list grantPair := observed ≫= line_pairs.
Definition wanted_keys (base declared : list Privilege) : gset string := keys ((base ++ declared) ≫= pairs_of).

Lemma elem_of_keys k pairs : k ∈ keys pairs <-> exists p, p ∈ pairs /\ gp_key p = k.
Proof. unfold keys. rewrite elem_of_list_to_set, list_elem_of_fmap. naive_solver. Qed.

Lemma missing_pairs_spec have wanted :
  NoDup (gp_key <$> missing_pairs have wanted) /\ keys (missing_pairs have wanted) = keys wanted ∖ have /\
  missing_pairs have wanted ⊆ wanted.
Proof.
  revert have. induction wanted as [|p wanted IH]; intros have; cbn [missing_pairs]; [split; [constructor|]; split; set_solver|].
  case_bool_decide as E.
  - destruct (IH have) as (H1 & H2 & H3). split; [done|]. split; [|by apply list_subseteq_cons].
    rewrite H2. change (keys (p :: wanted)) with ({[gp_key p]} ∪ keys wanted). set_solver.
  - destruct (IH ({[gp_key p]} ∪ have)) as (H1 & H2 & H3). split; [|split; [|by apply list_subseteq_skip]].
    + cbn. constructor; [|done]. intros Hin. assert (gp_key p ∈ keys (missing_pairs ({[gp_key p]} ∪ have) wanted)) as H
        by (unfold keys; by apply elem_of_list_to_set). rewrite H2 in H. set_solver.
    + change (keys (p :: missing_pairs ({[gp_key p]} ∪ have) wanted)) with ({[gp_key p]} ∪ keys (missing_pairs ({[gp_key p]} ∪ have) wanted)).
      rewrite H2. change (keys (p :: wanted)) with ({[gp_key p]} ∪ keys wanted). apply set_eq. intros k.
      rewrite elem_of_union, !elem_of_difference, !elem_of_union, !elem_of_singleton. clear -E. destruct (decide (k = gp_key p)) as [->|]; tauto.
Qed.

(** What a list of groups names. *)
Definition ungroup (g : targetGroup) : list (string * string) := (fun p => (tg_target g, p)) <$> tg_privileges g.
Definition named (p : grantPair) : string * string := (gp_target p, gp_privilege p).

Lemma add_to_group_named groups p : (add_to_group groups p ≫= ungroup) ≡ₚ named p :: (groups ≫= ungroup).
Proof.
  induction groups as [|g groups IH]; cbn; [done|]. destruct (String.eqb_spec (tg_target g) (gp_target p)) as [E|E]; cbn.
  - unfold ungroup at 1. cbn. rewrite fmap_app. cbn. rewrite <- app_assoc. cbn. unfold named. rewrite <- E. rewrite <- Permutation_middle. done.
  - rewrite IH. by rewrite <- Permutation_middle.
Qed.

Lemma add_to_group_targets groups p :
  NoDup (tg_target <$> groups) -> NoDup (tg_target <$> add_to_group groups p) /\
  forall t, t ∈ tg_target <$> add_to_group groups p <-> t = gp_target p \/ t ∈ tg_target <$> groups.
Proof.
  induction groups as [|g groups IH]; cbn; [intros _; split; [apply NoDup_singleton|set_solver]|]. intros [Hn Hg]%NoDup_cons.
  destruct (String.eqb_spec (tg_target g) (gp_target p)) as [E|E]; cbn; [split; [by constructor|set_solver]|].
  destruct (IH Hg) as [H1 H2]. split; [constructor; [|done]; rewrite H2; by intros [?|?]|].
  intros t. rewrite !elem_of_cons, H2. tauto.
Qed.

Lemma groupByTarget_spec pairs :
  (groupByTarget pairs ≫= ungroup) ≡ₚ named <$> pairs /\ NoDup (tg_target <$> groupByTarget pairs).
Proof.
  unfold groupByTarget. induction pairs as [|p pairs [IH1 IH2]] using rev_ind; [split; [done|constructor]|].
  rewrite foldl_snoc. cbn. split; [|by apply add_to_group_targets]. rewrite add_to_group_named, IH1, fmap_app. cbn.
  by rewrite Permutation_app_comm.
Qed.

Lemma pairKeys_keys privileges : pairKeys privileges = keys (privileges ≫= pairs_of).
Proof. done. Qed.

Definition extra_pairs (observed : list string) (base declared : list Privilege) : list grantPair :=
  List.filter (fun gp => negb (bool_decide (gp_key gp ∈ pairKeys base)) && negb (bool_decide (gp_key gp ∈ pairKeys declared))) (held_pairs observed).

Lemma extra_pairs_elem observed base declared p :
  p ∈ extra_pairs observed base declared <-> p ∈ held_pairs observed /\ gp_key p ∉ wanted_keys base declared.
Proof.
  unfold extra_pairs, wanted_keys. rewrite elem_of_filter_bool, andb_true_iff, !negb_true_iff, !bool_decide_eq_false, !pairKeys_keys.
  rewrite bind_app. unfold keys. rewrite fmap_app, list_to_set_app_L, not_elem_of_union. tauto.
Qed.

(** the plan for the metrics account is exact.  Its grants are, grouped by target,
    the wanted pairs the account does not hold, each once, and its revokes the pairs it
    holds and should not and every role; applied to what the account holds they leave
    exactly the base and declared grants, and none of those is revoked. *)
Theorem metrics_plan_is_exact name host observed base declared :
  let plan := PlanMetricsGrants name host observed base declared in
  let acct := account name host in
  exists missing extras,
    (mp_Grants plan = grant_statement acct <$> groupByTarget missing /\
     mp_Revokes plan = (revoke_statement acct <$> groupByTarget extras) ++
       ((fun r => "REVOKE " +:+ r +:+ " FROM " +:+ acct) <$> (observed ≫= line_roles))) /\
    (forall pairs, pairs = missing \/ pairs = extras ->
       (groupByTarget pairs ≫= ungroup) ≡ₚ named <$> pairs /\ NoDup (tg_target <$> groupByTarget pairs)) /\
    NoDup (gp_key <$> missing) /\ keys missing ## keys (held_pairs observed) /\
    keys extras ## wanted_keys base declared /\
    (keys (held_pairs observed) ∪ keys missing) ∖ keys extras = wanted_keys base declared.
Proof.
  intros plan acct. exists (missing_pairs (keys (held_pairs observed)) ((base ++ declared) ≫= pairs_of)), (extra_pairs observed base declared).
  split; [done|]. split; [intros pairs _; apply groupByTarget_spec|].
  destruct (missing_pairs_spec (keys (held_pairs observed)) ((base ++ declared) ≫= pairs_of)) as (H1 & H2 & _).
  fold (wanted_keys base declared) in H2. split; [done|]. rewrite H2.
  split; [apply elem_of_disjoint; by intros k [_ ?]%elem_of_difference|].
  assert (forall k, k ∈ keys (extra_pairs observed base declared) <-> k ∈ keys (held_pairs observed) /\ k ∉ wanted_keys base declared) as Hx.
  { intros k. rewrite !elem_of_keys. setoid_rewrite extra_pairs_elem. naive_solver. }
  split; [apply elem_of_disjoint; by intros k [_ ?]%Hx|]. apply set_eq. intros k. rewrite elem_of_difference, elem_of_union, elem_of_difference, Hx.
  destruct (decide (k ∈ wanted_keys base declared)), (decide (k ∈ keys (held_pairs observed))); tauto.
Qed.

(** ** What the account may be granted *)

(** How the server reads a schema name in a grant: [_] is any character, [%] any
    characters, a backslash takes the next character literally, and case is ignored. *)
Inductive covers_schema : string -> string -> Prop :=
| cover_nil : covers_schema "" ""
| cover_any p c s : covers_schema p s -> covers_schema (String "_" p) (String c s)
| cover_run p w s : covers_schema p s -> covers_schema (String "%" p) (w +:+ s)
| cover_escaped c p c' s : lower_ascii c = lower_ascii c' -> covers_schema p s -> covers_schema (String backslash (String c p)) (String c' s)
| cover_char c p c' s :
    c <> "_"%char -> c <> "%"%char -> c <> backslash -> lower_ascii c = lower_ascii c' -> covers_schema p s -> covers_schema (String c p) (String c' s).

Definition low (c : ascii) : bool := (N_of_ascii c <? 128)%N.

Lemma covers_matches p s :
  no_char "%" p = true -> no_char backslash p = true -> covers_schema p s -> GrantDatabaseMatches p s = true.
Proof.
  intros Hp Hb H. induction H as [|p c s H IH|p w s H IH|c p c' s Hc H IH|c p c' s H1 H2 H3 Hc H IH]; cbn in *; try done.
  - by apply IH.
  - apply andb_true_iff in Hp as [_ Hp], Hb as [_ Hb]. unfold fold_byte. rewrite Hc, Ascii.eqb_refl, orb_true_r. cbn. by apply IH.
Qed.

Lemma lower_underscore c : Ascii.eqb (lower_ascii c) "_" = Ascii.eqb c "_".
Proof. by destruct c as [[] [] [] [] [] [] [] []]. Qed.

Lemma lower_high c : (128 <=? N_of_ascii (lower_ascii c))%N = (128 <=? N_of_ascii c)%N.
Proof. by destruct c as [[] [] [] [] [] [] [] []]. Qed.

Lemma matches_lower p s : GrantDatabaseMatches (ToLower p) s = GrantDatabaseMatches p s.
Proof.
  revert s. induction p as [|c p IH]; intros [|c' s]; cbn; [done..|]. unfold fold_byte.
  by rewrite lower_underscore, lower_ascii_idem, lower_high, IH.
Qed.

Lemma no_char_lower c p : lower_ascii c = c -> (forall x, Ascii.eqb (lower_ascii x) c = true -> Ascii.eqb x c = true) ->
  no_char c p = true -> no_char c (ToLower p) = true.
Proof.
  intros Hc Hx. unfold no_char. induction p as [|x p IH]; cbn; [done|]. intros [H1 H2]%andb_true_iff. apply andb_true_iff. split; [|by apply IH].
  apply negb_true_iff. apply negb_true_iff in H1. destruct (Ascii.eqb (lower_ascii x) c) eqn:E; [|done]. by rewrite (Hx _ E) in H1.
Qed.

Lemma symbol_lower (c x : ascii) : c = "%"%char \/ c = backslash \/ c = backquote -> Ascii.eqb (lower_ascii x) c = true -> Ascii.eqb x c = true.
Proof. intros [-> |[-> | ->]]; by destruct x as [[] [] [] [] [] [] [] []]. Qed.

Lemma plain_name_lower s : plain_name s -> plain_name (ToLower s).
Proof.
  intros (H1 & H2 & H3). repeat split; [by rewrite ToLower_empty| |apply no_char_lower; [done| |done]; intros x; by apply symbol_lower; auto].
  intros E. apply H2. destruct s as [|c [|c' s]]; [done| |done]. cbn in E. injection E as E. f_equal. revert E. clear.
  by destruct c as [[] [] [] [] [] [] [] []].
Qed.

(** Read access to a named schema, or to a table of it, other than [mysql]. *)
Definition readable_target (t : GrantTarget) : Prop := wf_target t /\ IsGlobal t = false /\ ~ covers_schema (gt_Database t) "mysql".

Lemma ParseMetrics_readable on t lowerCase :
  ParseMetricsGrantTarget on = Ok t ->
  readable_target (if lowerCase : bool then mkGrantTarget (ToLower (gt_Database t)) (ToLower (gt_Table t)) else t).
Proof.
  unfold ParseMetricsGrantTarget. destruct (ParseGrantTarget on) as [t'|] eqn:Ep; [|done]. apply ParseGrantTarget_wf in Ep.
  destruct (IsGlobal t') eqn:Eg; [done|]. destruct (_ || _ || _) eqn:Ec; [done|]. destruct (GrantDatabaseMatches _ _) eqn:Em; [done|].
  destruct (EqualFold _ _); [done|]. intros [= <-]. apply orb_false_iff in Ec as [[E1 E2]%orb_false_iff _]. apply negb_false_iff in E1, E2.
  destruct Ep as [->|[Hd Ht]]; [done|].
  assert (forall db, no_char "%" db = true -> no_char backslash db = true -> GrantDatabaseMatches db "mysql" = false -> ~ covers_schema db "mysql") as Hcov.
  { intros db H1 H2 H3 H4. by rewrite (covers_matches _ _ H1 H2 H4) in H3. }
  destruct lowerCase; [|split; [by right|]; split; [done|by apply Hcov]]. pose proof (plain_name_lower _ Hd) as Hd'. split; [|split].
  - right. cbn. split; [done|]. destruct Ht as [->|Ht]; [by left|right; by apply plain_name_lower].
  - unfold IsGlobal. cbn. apply String.eqb_neq, Hd'.
  - cbn. apply Hcov; [apply no_char_lower; [done| |done]; intros x; apply symbol_lower; auto..|by rewrite matches_lower].
Qed.

Lemma upper_lower c : upper_ascii (lower_ascii c) = upper_ascii c.
Proof. by destruct c as [[] [] [] [] [] [] [] []]. Qed.
Lemma ToUpper_lower s : ToUpper (ToLower s) = ToUpper s.
Proof. induction s as [|c s IH]; cbn; [done|]. by rewrite upper_lower, IH. Qed.

Definition metrics_privileges : list string := ["SELECT"; "SHOW VIEW"].

Lemma declared_entry_readable lowerCase p q :
  declared_entry lowerCase p = Ok q -> Forall (fun n => n ∈ metrics_privileges) (pv_Privileges q) /\ exists t, pv_On q = SQL t /\ readable_target t.
Proof.
  unfold declared_entry, ValidateMetricsPrivilegeNames. destruct (Nat.eqb _ 0); [done|]. destruct (forallb _ _) eqn:Ef; [|done]. cbn.
  destruct (ParseMetricsGrantTarget _) as [t|] eqn:Et; [|done]. intros [= <-]. cbn. split; [|eexists; split; [done|by apply (ParseMetrics_readable _ _ lowerCase Et)]].
  rewrite forallb_forall in Ef. apply Forall_forall. intros n (x & -> & Hx)%list_elem_of_fmap. apply list_elem_of_In in Hx.
  specialize (Ef x Hx). apply bool_decide_eq_true in Ef. rewrite <- ToUpper_lower.
  apply elem_of_cons in Ef as [->|[->|[]%elem_of_nil]%elem_of_cons]; cbn; [left|right; left].
Qed.

Lemma trim_right_snoc s c : is_space c = false -> trim_right (s +:+ str1 c) = s +:+ str1 c.
Proof.
  intros Hc. induction s as [|x s IH]; cbn; [by rewrite Hc|]. rewrite IH. by destruct s.
Qed.

Lemma TrimSpace_framed c s c' : is_space c = false -> is_space c' = false -> TrimSpace (String c (s +:+ str1 c')) = String c (s +:+ str1 c').
Proof. intros Hc Hc'. unfold TrimSpace. cbn [trim_left]. rewrite Hc. exact (trim_right_snoc (String c s) c' Hc'). Qed.

Lemma TrimSpace_SQL t : TrimSpace (SQL t) = SQL t.
Proof.
  unfold SQL. destruct (IsGlobal t); [done|]. destruct (empty (gt_Table t)).
  - change ("`" +:+ gt_Database t +:+ "`.*") with (String "`" (gt_Database t +:+ ("`." +:+ str1 "*"))). rewrite <- append_assoc. by apply TrimSpace_framed.
  - change ("`" +:+ gt_Database t +:+ "`.`" +:+ gt_Table t +:+ "`") with (String "`" (gt_Database t +:+ ("`.`" +:+ (gt_Table t +:+ str1 "`")))).
    rewrite <- !append_assoc. by apply TrimSpace_framed.
Qed.

(** A base grant, or read access. *)
Definition may_hold (target priv : string) : Prop :=
  (exists b, b ∈ MetricsAccountBaseGrants /\ priv ∈ pv_Privileges b /\ target = pv_On b) \/
  (priv ∈ metrics_privileges /\ exists t, target = SQL t /\ readable_target t).

Lemma wanted_may_hold declared :
  Forall (fun q => Forall (fun n => n ∈ metrics_privileges) (pv_Privileges q) /\ exists t, pv_On q = SQL t /\ readable_target t) declared ->
  Forall (fun p => may_hold (gp_target p) (gp_privilege p)) ((MetricsAccountBaseGrants ++ declared) ≫= pairs_of).
Proof.
  intros Hd. apply Forall_forall. intros p (q & Hp & Hq)%list_elem_of_bind. apply list_elem_of_fmap in Hp as (priv & -> & Hpriv). cbn [gp_target gp_privilege newGrantPair].
  apply elem_of_app in Hq as [Hq|Hq].
  - left. exists q. split; [done|].
    apply elem_of_cons in Hq as [->|[->|[]%elem_of_nil]%elem_of_cons]; cbn in Hpriv |- *;
      repeat (apply elem_of_cons in Hpriv as [->|Hpriv]; [split; [set_solver|done]|]); by apply elem_of_nil in Hpriv.
  - right. rewrite Forall_forall in Hd. destruct (Hd q Hq) as [Hn (t & Ht & Hr)]. rewrite Forall_forall in Hn. specialize (Hn _ Hpriv).
    assert (TrimSpace priv = priv) as -> by (by apply elem_of_cons in Hn as [->|[->|[]%elem_of_nil]%elem_of_cons]).
    split; [done|]. exists t. by rewrite Ht, TrimSpace_SQL.
Qed.

Lemma grouped_may_hold pairs :
  Forall (fun p => may_hold (gp_target p) (gp_privilege p)) pairs ->
  Forall (fun g => Forall (may_hold (tg_target g)) (tg_privileges g)) (groupByTarget pairs).
Proof.
  intros H. destruct (groupByTarget_spec pairs) as [Hg _]. apply Forall_forall. intros g Hin. apply Forall_forall. intros priv Hpriv.
  assert ((tg_target g, priv) ∈ named <$> pairs) as Hn.
  { rewrite <- Hg. apply list_elem_of_bind. exists g. split; [|done]. apply list_elem_of_fmap. by exists priv. }
  apply list_elem_of_fmap in Hn as (p & [= -> ->] & Hp). rewrite Forall_forall in H. by apply H.
Qed.

(** What may be executed for the account. *)
Definition metrics_statement (name : string) (stmt : string) : Prop :=
  let acct := account name MetricsAccountHost in
  stmt = "CREATE USER IF NOT EXISTS " +:+ acct \/
  (exists rest, stmt = "REVOKE " +:+ rest +:+ " FROM " +:+ acct) \/
  (exists g, stmt = grant_statement acct g /\ Forall (may_hold (tg_target g)) (tg_privileges g)).

Lemma plan_statements name observed declared :
  Forall (fun q => Forall (fun n => n ∈ metrics_privileges) (pv_Privileges q) /\ exists t, pv_On q = SQL t /\ readable_target t) declared ->
  let plan := PlanMetricsGrants name MetricsAccountHost observed MetricsAccountBaseGrants declared in
  Forall (metrics_statement name) (mp_Revokes plan ++ mp_Grants plan).
Proof.
  intros Hd plan. apply Forall_app. split; [apply Forall_app; split|]; apply Forall_forall; intros stmt (x & -> & Hx)%list_elem_of_fmap.
  - right; left. exists (Join (tg_privileges x) ", " +:+ " ON " +:+ tg_target x). unfold revoke_statement. by rewrite !append_assoc.
  - right; left. by exists x.
  - right; right. exists x. split; [done|]. revert x Hx. apply Forall_forall, grouped_may_hold.
    apply Forall_forall. intros p Hp. apply missing_pairs_spec in Hp. revert p Hp. by apply Forall_forall, wanted_may_hold.
Qed.

Lemma exec_each_within Q d stmts : Forall (fun stmt => Q (Exec stmt)) stmts -> within Q (exec_each d stmts).
Proof.
  induction 1 as [|stmt stmts Hs H IH]; cbn [exec_each]; [apply within_done|]. apply within_bind; [by apply execAll_within; repeat constructor|].
  intros e. apply within_bind; [done|]. intros rest. apply within_done.
Qed.

Lemma declared_readable lowerCase privileges declared :
  metricsDeclaredGrants privileges lowerCase = Ok declared ->
  Forall (fun q => Forall (fun n => n ∈ metrics_privileges) (pv_Privileges q) /\ exists t, pv_On q = SQL t /\ readable_target t) declared.
Proof.
  intros H%map_result_Forall2. induction H as [|p q ps qs Hq H IH]; constructor; [by eapply declared_entry_readable|done].
Qed.

(** whatever grants are requested for the metrics account and whatever the server
    answers, every statement executed creates the account, revokes from it, or grants it
    base grants or [SELECT] and [SHOW VIEW] on a named schema, or one table of it, that
    does not cover the [mysql] schema however the server reads the name's wildcards. *)
Theorem metrics_account_only_reads d name privileges :
  within (fun q => forall stmt, q = Exec stmt -> metrics_statement name stmt) (EnsureMetricsAccount d name privileges).
Proof.
  unfold EnsureMetricsAccount. destruct (empty name); [apply within_done|]. destruct (metricsDeclaredGrants privileges false); [|apply within_done].
  apply within_bind; [by apply within_req|]. intros lower. destruct (match lower with inl s => ParseInt s | inr _ => None end) as [l|]; [|apply within_done].
  destruct (metricsDeclaredGrants privileges (negb (l =? 0))) as [declared|] eqn:Ed; [|apply within_done]. apply declared_readable in Ed.
  apply within_bind; [by apply within_req|]. intros count. destruct (match count with inl s => ParseInt s | inr _ => None end) as [n|]; [|apply within_done].
  apply within_bind; [destruct (n =? 0); [|apply within_done]; apply within_exec; intros stmt [= <-]; by left|]. intros [f|]; [apply within_done|].
  apply within_bind; [unfold showGrants; apply within_bind; [by apply within_req|intros; apply within_done]|]. intros [observed|f]; [|apply within_done].
  apply within_bind; [|intros; apply within_done]. apply exec_each_within. apply Forall_forall. intros stmt Hin stmt' [= <-].
  revert stmt Hin. by apply Forall_forall, plan_statements.
Qed.

(** Keys drop the quotes: a dot inside a name reads like the one between names. *)
Lemma keys_confuse_dots :
  mp_Revokes (PlanMetricsGrants "m" "localhost" ["GRANT SELECT ON `a.b`.`c` TO `m`@`localhost`"] [] [mkPrivilege ["SELECT"] "`a`.`b.c`"]) = [] /\
  mp_Grants (PlanMetricsGrants "m" "localhost" ["GRANT SELECT ON `a.b`.`c` TO `m`@`localhost`"] [] [mkPrivilege ["SELECT"] "`a`.`b.c`"]) = [].
Proof. by vm_compute. Qed.
