(* ===== verification/Config.v ===== *)
(** * The server's configuration file

    [pkg/management/mysql/config/config.go]: which parameters a user may set, and the
    [my.cnf] rendered from the operator's settings and the user's.

    The specification is how the server reads such a file ([settings]: lines, comments,
    sections and [key = value]) and an option name ([selects]: dashes and underscores
    alike, [loose_] and one value modifier in front, and any unambiguous prefix of an
    option).  The theorems show that no accepted parameter can set an option of the
    managed and denied lists, and that the rendered file reads as the operator's settings
    and then the user's, none of which sets an option the operator renders but
    [gtid_strict_mode], [binlog_checksum] and the semi-sync options, which are in
    neither list.

    The sets of keys are lists and the parameters a map; warnings about deprecated keys
    do not change the file.  Of an error only that there is one is kept. *)

From Stdlib Require Import ZArith Lia Bool Ascii String.
From stdpp Require Import base list strings gmap.
From S2P Require Import Prelude GoStrings Versions SqlText Users.

Local Open Scope Z_scope.
#[local] Arguments String.append : simpl nomatch.

(** ** Parameter names *)

Definition managedKeys : list string :=
  ["server-id"; "server_id"; "gtid_mode"; "gtid-mode"; "enforce_gtid_consistency"; "enforce-gtid-consistency"; "log_bin"; "log-bin";
   "log_replica_updates"; "log_slave_updates"; "relay_log"; "relay-log"; "read_only"; "super_read_only"; "datadir"; "socket";
   "report_host"; "admin_address"; "admin-address"; "admin_port"; "admin-port"; "extra_port"; "extra_max_connections"; "ssl_ca";
   "ssl-ca"; "ssl_cert"; "ssl-cert"; "ssl_key"; "ssl-key"; "binlog_format"; "binlog-format"; "sync_binlog"; "max_binlog_size";
   "binlog_expire_logs_seconds"; "expire_logs_days"; "slow_query_log_file"; "log_slow_query_file"; "log_output"].

Definition deniedKeys : list string :=
  ["gtid_domain_id"; "gtid-domain-id"; "basedir"; "pid_file"; "port"; "tmpdir"; "plugin_dir"; "secure_file_priv"; "log_error";
   "log_bin_basename"; "relay_log_basename"; "general_log_file"; "server_uuid"; "skip_slave_start"; "skip_replica_start";
   "report_port"; "auto_generate_certs"; "admin_ssl_ca"; "admin_ssl_cert"; "admin_ssl_key"; "admin_tls_ciphersuites";
   "tls_ciphersuites"; "init_file"; "init_replica"; "init_slave"; "plugin_load"; "early_plugin_load"; "innodb_data_home_dir";
   "innodb_data_file_path"; "innodb_log_group_home_dir"; "innodb_undo_directory"; "innodb_directories";
   "innodb_temp_tablespaces_dir"; "innodb_temp_data_file_path"; "innodb_tmpdir"; "innodb_doublewrite_dir";
   "innodb_redo_log_archive_dirs"; "innodb_buffer_pool_filename"; "log_bin_index"; "relay_log_index"; "relay_log_info_file";
   "master_info_file"; "log_tc"; "log_basename"; "aria_log_dir_path"; "slave_load_tmpdir"; "replica_load_tmpdir"; "lc_messages_dir";
   "character_sets_dir"; "ft_stopword_file"; "debug"; "keyring_file_data"; "keyring_encrypted_file_data"; "mysqlx_socket"; "chroot";
   "user"; "sha256_password_private_key_path"; "sha256_password_public_key_path"; "caching_sha2_password_private_key_path";
   "caching_sha2_password_public_key_path"; "ssl_capath"; "ssl_crl"; "ssl_crlpath"; "admin_ssl_capath"; "admin_ssl_crl";
   "admin_ssl_crlpath"; "skip_grant_tables"; "skip_networking"; "bind_address"].

Definition optionModifiers : list string := ["skip_"; "enable_"; "disable_"; "maximum_"; "autoset_"].

(** Options of the server that are also prefixes of other options. *)
Definition exactOptionPrefixes : list string :=
  ["general_log"; "innodb"; "innodb_doublewrite"; "lc_messages"; "log_slow_query"; "mysqlx"; "slow_query_log"; "ssl"].

Definition groupReplicationKeyPrefix : string := "group_replication_".
Definition keyPluginLoadAdd : string := "plugin_load_add".
Definition keyExpireLogsDays : string := "expire_logs_days".

(** [^[A-Za-z0-9_.-]+$] *)
Definition key_char (c : ascii) : bool := is_word c && negb (Ascii.eqb c "$") || Ascii.eqb c "." || Ascii.eqb c "-".
Definition validParameterKey (key : string) : bool := negb (empty key) && all_chars key_char key.

Definition normalizeKey (key : string) : string := ReplaceAll (ToLower (TrimSpace key)) "-" "_".

Definition isGroupReplicationManagedKey (normalized : string) : bool :=
  HasPrefix normalized groupReplicationKeyPrefix || String.eqb normalized keyPluginLoadAdd.

Definition IsManagedKey (key : string) : bool :=
  let k := normalizeKey key in isGroupReplicationManagedKey k || bool_decide (k ∈ managedKeys).

Definition isDeniedName (name : string) : bool :=
  if isGroupReplicationManagedKey name then true
  else if bool_decide (name ∈ managedKeys) then true
  else if bool_decide (name ∈ deniedKeys) then true
  else if bool_decide (name ∈ exactOptionPrefixes) then false
  else if HasPrefix groupReplicationKeyPrefix name || HasPrefix keyPluginLoadAdd name then true
  else existsb (fun full => HasPrefix full name) (managedKeys ++ deniedKeys).

(** [strings.CutPrefix], where it cuts. *)
Definition CutPrefix (s prefix : string) : option string :=
  if HasPrefix s prefix then Some (substring (String.length prefix) (String.length s - String.length prefix) s) else None.

Fixpoint first_modifier (rest : string) (modifiers : list string) : list string :=
  match modifiers with
  | [] => []
  | m :: modifiers' => match CutPrefix rest m with Some name => [name] | None => first_modifier rest modifiers' end
  end.

(** The option names [IsDeniedKey] looks at. *)
Definition denied_names (k : string) : list string :=
  let loose := CutPrefix k "loose_" in
  let rest := default k loose in
  [k] ++ option_list loose ++ first_modifier rest optionModifiers.

Definition IsDeniedKey (key : string) : bool := existsb isDeniedName (denied_names (normalizeKey key)).

Definition line_break (c : ascii) : bool := Ascii.eqb c "010" || Ascii.eqb c "013" || Ascii.eqb c "000".

(** Malformed or conflicting. *)
Definition refused (key value : string) : bool :=
  negb (validParameterKey key) || negb (all_chars (fun c => negb (line_break c)) value) || IsDeniedKey key.

Definition ValidateUserParameters (params : gmap string string) : result unit :=
  if existsb (fun kv => refused (fst kv) (snd kv)) (map_to_list params) then Err (Errorf "malformed or managed by the operator") else Ok tt.

(** Variables removed at a version. *)
Definition removedKeys : list (string * (Z * Z)) :=
  [("default_authentication_plugin", (8, 4)); ("master_info_repository", (8, 4)); ("relay_log_info_repository", (8, 4));
   (keyExpireLogsDays, (8, 4)); ("log_bin_use_v1_row_events", (8, 4)); ("slave_rows_search_algorithms", (8, 4))].

Definition removedAt (normalized : string) (ver : Version) : bool :=
  existsb (fun r => String.eqb (fst r) normalized && AtLeast ver (fst (snd r)) (snd (snd r)) 0) removedKeys.

(** ** The configuration *)

Inductive Role := RolePrimary | RoleReplica | OtherRole.
Record TLSPaths := mkTLSPaths { tls_CA : string; tls_Cert : string; tls_Key : string }.
Definition isset (t : TLSPaths) : bool := negb (empty (tls_CA t)) && negb (empty (tls_Cert t)) && negb (empty (tls_Key t)).
Record SemiSyncConfig := mkSemiSyncConfig { sy_Enabled : bool; sy_WaitForReplicaCount : Z; sy_TimeoutMillis : Z }.
Record Archiving := mkArchiving { ar_Enabled : bool; ar_MaxBinlogSizeMB : Z; ar_BinlogExpireSeconds : Z }.

Record GroupReplicationConfig := mkGroupReplicationConfig {
  gc_GroupName : string;
  gc_LocalAddress : string;
  gc_GroupSeeds : string;
  gc_IPAllowlist : string;
  gc_Consistency : string;
  gc_ExitStateAction : string;
  gc_AutoRejoinTries : Z;
  gc_RecoverySSL : TLSPaths
}.

(** [SemiSyncNaming] is set when the engine says what the server has. *)
Record ServerConfig := mkServerConfig {
  sc_ServerID : Z;
  sc_Version : string;
  sc_Role : Role;
  sc_DataDir : string;
  sc_Socket : string;
  sc_Port : Z;
  sc_SlowLogFile : string;
  sc_ReportHost : string;
  sc_BinlogFormat : string;
  sc_AdminAddress : string;
  sc_AdminPort : Z;
  sc_TLS : TLSPaths;
  sc_SemiSync : SemiSyncConfig;
  sc_Archiving : Archiving;
  sc_Group : bool;
  sc_GroupReplication : GroupReplicationConfig;
  sc_UserParameters : gmap string string;
  sc_HasAdminInterface : bool;
  sc_HasExtraPort : bool;
  sc_HasSuperReadOnly : bool;
  sc_HasLogReplicaUpdates : bool;
  sc_SemiSyncNaming : option SemiSyncNaming;
  sc_GTIDSettings : list (string * string)
}.

Definition DefaultAdminPort : Z := 33062.
Definition DefaultAdminAddress : string := "127.0.0.1".
Definition ControlPoolSize : Z := 4.

Definition pair_ : Type := string * string.
Definition when (b : bool) (l : list pair_) : list pair_ := if b then l else [].

Definition binlogExpire (ver : Version) (seconds : Z) : pair_ :=
  if AtLeast ver 8 0 0 then ("binlog_expire_logs_seconds", FormatInt seconds)
  else (keyExpireLogsDays, FormatInt (Z.max (Z.quot (i64 (seconds + 86399)) 86400) 1)).

Definition groupReplicationSettings (c : ServerConfig) (ver : Version) : list pair_ :=
  let gr := sc_GroupReplication c in
  [(keyPluginLoadAdd, "group_replication.so");
   ("group_replication_group_name", gc_GroupName gr);
   ("group_replication_local_address", gc_LocalAddress gr);
   ("group_replication_group_seeds", gc_GroupSeeds gr);
   ("group_replication_start_on_boot", "OFF");
   ("group_replication_bootstrap_group", "OFF");
   ("group_replication_single_primary_mode", "ON");
   ("group_replication_enforce_update_everywhere_checks", "OFF")] ++
  when (GroupReplicationDefaultsToMySQLStack ver) [("group_replication_communication_stack", "XCOM")] ++
  when (negb (empty (gc_Consistency gr))) [("group_replication_consistency", gc_Consistency gr)] ++
  when (negb (empty (gc_ExitStateAction gr))) [("group_replication_exit_state_action", gc_ExitStateAction gr)] ++
  [("group_replication_autorejoin_tries", FormatInt (gc_AutoRejoinTries gr));
   ("group_replication_ssl_mode", "REQUIRED");
   ("group_replication_recovery_use_ssl", "ON")] ++
  when (HasGroupReplicationClone ver) [(keyPluginLoadAdd, "mysql_clone.so")] ++
  when (isset (gc_RecoverySSL gr))
    [("group_replication_recovery_ssl_ca", tls_CA (gc_RecoverySSL gr));
     ("group_replication_recovery_ssl_cert", tls_Cert (gc_RecoverySSL gr));
     ("group_replication_recovery_ssl_key", tls_Key (gc_RecoverySSL gr))] ++
  when (negb (empty (gc_IPAllowlist gr))) [("group_replication_ip_allowlist", gc_IPAllowlist gr)] ++
  when (GroupReplicationRequiresNoBinlogChecksum ver) [("binlog_checksum", "NONE")].

Definition semisync_settings (s : SemiSyncConfig) (naming : SemiSyncNaming) : list pair_ :=
  [("loose-" +:+ ss_EnabledVarSource naming, "1"); ("loose-" +:+ ss_EnabledVarReplica naming, "1")] ++
  when ((0 <? sy_WaitForReplicaCount s) && negb (empty (ss_WaitForCountVar naming))) [("loose-" +:+ ss_WaitForCountVar naming, FormatInt (sy_WaitForReplicaCount s))] ++
  when (0 <? sy_TimeoutMillis s) [("loose-" +:+ ss_TimeoutVar naming, FormatInt (sy_TimeoutMillis s))] ++
  when (negb (empty (ss_WaitPointVar naming))) [("loose-" +:+ ss_WaitPointVar naming, "AFTER_SYNC")].

Definition archiving_settings (a : Archiving) (ver : Version) : list pair_ :=
  [("sync_binlog", "1")] ++
  when (0 <? ar_MaxBinlogSizeMB a) [("max_binlog_size", FormatInt (i64 (i64 (ar_MaxBinlogSizeMB a * 1024) * 1024)))] ++
  when (0 <? ar_BinlogExpireSeconds a) [binlogExpire ver (ar_BinlogExpireSeconds a)].

(** The GTID settings of the two engines, which the operator passes in. *)
Definition mysqlEngine_GTIDConfigSettings : list pair_ := [("gtid_mode", "ON"); ("enforce_gtid_consistency", "ON")].
Definition mariadbEngine_GTIDConfigSettings : list pair_ := [("gtid_strict_mode", "ON")].

Definition managedSettings (c : ServerConfig) (ver : Version) : list pair_ :=
  let engineCapabilities := match sc_SemiSyncNaming c with Some _ => true | None => false end in
  let hasAdminInterface := if engineCapabilities then sc_HasAdminInterface c else HasAdminInterface ver in
  let hasExtraPort := engineCapabilities && sc_HasExtraPort c in
  let hasLogReplicaUpdates := if engineCapabilities then sc_HasLogReplicaUpdates c else HasLogReplicaUpdates ver in
  let hasSuperReadOnly := if engineCapabilities then sc_HasSuperReadOnly c else HasSuperReadOnly ver in
  let naming := default (SemiSync ver) (sc_SemiSyncNaming c) in
  let adminPort := if sc_AdminPort c =? 0 then DefaultAdminPort else sc_AdminPort c in
  [("server-id", FormatInt (sc_ServerID c)); ("datadir", sc_DataDir c); ("socket", sc_Socket c)] ++
  when (negb (empty (sc_SlowLogFile c))) [("slow_query_log_file", sc_SlowLogFile c); ("log_output", "FILE")] ++
  (if engineCapabilities then sc_GTIDSettings c else [("gtid_mode", "ON"); ("enforce_gtid_consistency", "ON")]) ++
  [("log_bin", "binlog"); ("relay_log", "relay-bin"); ("binlog_format", if empty (sc_BinlogFormat c) then "ROW" else sc_BinlogFormat c)] ++
  when (negb (sc_Port c =? 0)) [("port", FormatInt (sc_Port c))] ++
  when (negb (empty (sc_ReportHost c))) [("report_host", sc_ReportHost c)] ++
  when hasAdminInterface
    [("admin_address", if empty (sc_AdminAddress c) then DefaultAdminAddress else sc_AdminAddress c); ("admin_port", FormatInt adminPort)] ++
  when hasExtraPort [("extra_port", FormatInt adminPort); ("extra_max_connections", FormatInt ControlPoolSize)] ++
  [(if hasLogReplicaUpdates then "log_replica_updates" else "log_slave_updates", "ON")] ++
  match sc_Role c with RoleReplica => [("read_only", "ON")] ++ when hasSuperReadOnly [("super_read_only", "ON")] | _ => [] end ++
  when (isset (sc_TLS c)) [("ssl_ca", tls_CA (sc_TLS c)); ("ssl_cert", tls_Cert (sc_TLS c)); ("ssl_key", tls_Key (sc_TLS c))] ++
  when (sy_Enabled (sc_SemiSync c)) (semisync_settings (sc_SemiSync c) naming) ++
  when (ar_Enabled (sc_Archiving c)) (archiving_settings (sc_Archiving c) ver) ++
  when (sc_Group c) (groupReplicationSettings c ver).

(** ** Rendering *)

Definition newline : ascii := "010".

Definition filterRemovedParams (params : gmap string string) (ver : Version) : gmap string string :=
  filter (fun kv => removedAt (normalizeKey (fst kv)) ver = false) params.

Definition mapToOrderedPairs (params : gmap string string) : list pair_ :=
  (fun k => (k, default "" (params !! k))) <$> isort String.leb (fst <$> map_to_list params).

Definition line_of (p : pair_) : string := if empty (snd p) then fst p else fst p +:+ " = " +:+ snd p.
Definition writeSection (header : string) (pairs : list pair_) : string :=
  foldr (fun line rest => line +:+ String newline rest) "" (header :: (line_of <$> pairs)).

Definition Render (c : ServerConfig) : result string :=
  if sc_ServerID c <=? 0 then Err (Errorf "serverID must be greater than 0")
  else if match sc_Role c with OtherRole => true | _ => false end then Err (Errorf "invalid role")
  else
    let? _ := ValidateUserParameters (sc_UserParameters c) in
    let? ver := Parse (sc_Version c) in
    let userParams := filterRemovedParams (sc_UserParameters c) ver in
    Ok ("# Generated by cnmsql instance manager. Do not edit." +:+ str1 newline +:+ "[mysqld]" +:+ str1 newline +:+
        writeSection "# --- operator-managed ---" (managedSettings c ver) +:+
        (if bool_decide (userParams = ∅) then "" else writeSection "# --- user-provided ---" (mapToOrderedPairs userParams))).

Definition strip_line (line : string) : bool :=
  let trimmed := TrimSpace line in
  if negb (empty trimmed) && negb (HasPrefix trimmed "#") && negb (HasPrefix trimmed "[") then
    isGroupReplicationManagedKey (normalizeKey (fst (fst (Cut trimmed "="))))
  else false.

Definition StripGroupReplication (content : string) : string :=
  Join (List.filter (fun line => negb (strip_line line)) (Split content newline)) (str1 newline).

(** ** How the server reads it *)

(** An option name, without [loose_] and at most one value modifier. *)
Definition modified (k n : string) : Prop := n = k \/ exists m, m ∈ optionModifiers /\ k = m +:+ n.
Definition names (k n : string) : Prop := modified k n \/ exists r, k = "loose_" +:+ r /\ modified r n.

(** The name itself, or a prefix of it that is no option of its own. *)
Definition selects (n full : string) : Prop := n = full \/ (HasPrefix full n = true /\ n ∉ exactOptionPrefixes).
Definition sets (key full : string) : Prop := exists n, names (normalizeKey key) n /\ selects n full.

(** The option a rendered key sets. *)
Definition option_name (key : string) : string := default (normalizeKey key) (CutPrefix (normalizeKey key) "loose_").

(** The options the operator renders and lets a user parameter override. *)
Definition left_open (full : string) : Prop :=
  full ∈ ["gtid_strict_mode"; "binlog_checksum"] \/ HasPrefix full "rpl_semi_sync_" = true.

(** The options of the two key lists that user parameters are checked against. *)
Definition protected (full : string) : Prop :=
  full ∈ managedKeys \/ full ∈ deniedKeys \/ full = keyPluginLoadAdd \/ HasPrefix full groupReplicationKeyPrefix = true.

Definition directive (c : ascii) : bool := Ascii.eqb c "#" || Ascii.eqb c ";" || Ascii.eqb c "[" || Ascii.eqb c "!".

(** The setting of a line: comments, sections and directives are none. *)
Definition setting_of (line : string) : option pair_ :=
  match TrimSpace line with
  | EmptyString => None
  | String c _ as t => if directive c then None else let '(k, v, _) := Cut t "=" in Some (TrimSpace k, TrimSpace v)
  end.
Definition settings (content : string) : list pair_ := omap setting_of (Split content newline).

(** ** Names *)

Lemma prefix_app p s : HasPrefix s p = true <-> exists r, s = p +:+ r.
Proof.
  unfold HasPrefix. revert s. induction p as [|c p IH]; intros s.
  - split; [intros _; by exists s|by destruct s].
  - destruct s as [|c' s]; [split; [done|by intros (r & [=])]|].
    change (String.prefix (String c p) (String c' s)) with (if ascii_dec c c' then String.prefix p s else false).
    destruct (ascii_dec c c') as [->|Hc].
    + rewrite IH. split; intros (r & Hr); exists r; [by rewrite Hr|by injection Hr].
    + split; [done|]. intros (r & [= -> _]). done.
Qed.

Lemma prefix_comparable a b s : HasPrefix s a = true -> HasPrefix s b = true -> HasPrefix a b = true \/ HasPrefix b a = true.
Proof.
  rewrite !prefix_app. revert b s. induction a as [|c a IH]; intros b s (r & ->) (r' & Hr); [right; by exists b|].
  destruct b as [|c' b]; [left; by exists (String c a)|]. cbn in Hr. injection Hr as -> Hr.
  destruct (IH b (a +:+ r)) as [(x & ->)|(x & ->)]; [by exists r|by exists r'|left|right]; by exists x.
Qed.

Lemma substring_all s : substring 0 (String.length s) s = s.
Proof. induction s as [|c s IH]; cbn; [done|]. by rewrite IH. Qed.

Lemma substring_app p r : substring (String.length p) (String.length (p +:+ r) - String.length p) (p +:+ r) = r.
Proof.
  induction p as [|c p IH]; cbn; [|exact IH]. rewrite Nat.sub_0_r. apply substring_all.
Qed.

Lemma CutPrefix_spec s p r : CutPrefix s p = Some r <-> s = p +:+ r.
Proof.
  unfold CutPrefix. destruct (HasPrefix s p) eqn:E.
  - apply prefix_app in E as (r' & ->). rewrite substring_app. split; [by intros [= ->]|]. intros H. f_equal.
    induction p as [|c p IH]; cbn in H; [done|]. injection H as H. by apply IH.
  - split; [done|]. intros ->. assert (HasPrefix (p +:+ r) p = true) by (apply prefix_app; by exists r). congruence.
Qed.

(** Two modifiers never both fit. *)
Lemma modifiers_disjoint m m' n n' :
  m ∈ "loose_" :: optionModifiers -> m' ∈ "loose_" :: optionModifiers -> m +:+ n = m' +:+ n' -> m = m'.
Proof.
  intros H H'. repeat (apply elem_of_cons in H as [->|H]); try by apply elem_of_nil in H.
  all: repeat (apply elem_of_cons in H' as [->|H']); try (by apply elem_of_nil in H'); cbn; (done || discriminate).
Qed.

Lemma first_modifier_spec rest ms n :
  ms ⊆ optionModifiers -> n ∈ first_modifier rest ms <-> exists m, m ∈ ms /\ rest = m +:+ n.
Proof.
  induction ms as [|m ms IH]; intros Hsub; cbn [first_modifier].
  { split; [by intros ?%elem_of_nil|by intros (m & ?%elem_of_nil & _)]. }
  assert (ms ⊆ optionModifiers) as Hms by (intros x Hx; apply Hsub; by right).
  destruct (CutPrefix rest m) as [n'|] eqn:E.
  - apply CutPrefix_spec in E. rewrite list_elem_of_singleton. split.
    + intros ->. exists m. split; [left|done].
    + intros (m' & Hm' & Hr). assert (m = m') as <-.
      { rewrite E in Hr. eapply modifiers_disjoint; [| |exact Hr]; right; apply Hsub; [left|done]. }
      apply CutPrefix_spec in E, Hr. congruence.
  - rewrite IH by done. split.
    + intros (m' & Hm' & ->). exists m'. split; [by right|done].
    + intros (m' & [->|Hm']%elem_of_cons & Hr); [|by exists m']. apply CutPrefix_spec in Hr. congruence.
Qed.

Lemma denied_names_spec k n : n ∈ denied_names k <-> names k n.
Proof.
  unfold denied_names, names, modified. rewrite !elem_of_app, list_elem_of_singleton, first_modifier_spec by done.
  destruct (CutPrefix k "loose_") as [r|] eqn:E; cbn [option_list option_rect from_option]; unfold id.
  - apply CutPrefix_spec in E as ->. rewrite list_elem_of_singleton. split.
    + intros [->|[->|(m & Hm & ->)]]; [by left; left|right; exists r; split; [done|by left]|].
      right. eexists. split; [done|]. right. by exists m.
    + intros [[->|(m & Hm & Hk)]|(r' & Hr & [->|(m & Hm & ->)])].
      * by left.
      * exfalso. assert ("loose_" = m) as <- by (eapply modifiers_disjoint; [left|by right|exact Hk]).
        repeat (apply elem_of_cons in Hm as [Hm|Hm]; [discriminate|]). by apply elem_of_nil in Hm.
      * right; left. cbn in Hr. by injection Hr as ->.
      * right; right. cbn in Hr. injection Hr as ->. by exists m.
  - rewrite elem_of_nil. split.
    + intros [->|[[]|(m & Hm & ->)]]; [by left; left|]. left. right. by exists m.
    + intros [[->|(m & Hm & Hk)]|(r' & Hr & _)]; [by left|right; right; by exists m|]. apply CutPrefix_spec in Hr. congruence.
Qed.

Lemma isDeniedName_spec n : isDeniedName n = true <-> exists full, protected full /\ selects n full.
Proof.
  unfold isDeniedName, isGroupReplicationManagedKey. destruct (HasPrefix n groupReplicationKeyPrefix) eqn:E1; cbn [orb].
  { split; [|done]. intros _. exists n. split; [by right; right; right|by left]. }
  destruct (String.eqb_spec n keyPluginLoadAdd) as [->|E2].
  { split; [|done]. intros _. exists keyPluginLoadAdd. split; [by right; right; left|by left]. }
  case_bool_decide as E3; [split; [intros _; exists n; split; [by left|by left]|done]|].
  case_bool_decide as E4; [split; [intros _; exists n; split; [by right; left|by left]|done]|].
  case_bool_decide as E5.
  { split; [done|]. intros (full & Hp & [<-|[_ []]]); [|done]. unfold protected in Hp. rewrite E1 in Hp. naive_solver. }
  destruct (HasPrefix groupReplicationKeyPrefix n || HasPrefix keyPluginLoadAdd n) eqn:E6.
  { split; [|done]. intros _. apply orb_true_iff in E6 as [E6|E6].
    - exists groupReplicationKeyPrefix. split; [|by right]. right; right; right. apply prefix_app. by exists "".
    - exists keyPluginLoadAdd. split; [by right; right; left|by right]. }
  apply orb_false_iff in E6 as [E6 E7]. rewrite existsb_exists. split.
  - intros (full & Hin & Hfull). exists full. split; [|by right].
    apply list_elem_of_In, elem_of_app in Hin as [Hin|Hin]; [by left|by right; left].
  - intros (full & Hp & [<-|[Hpre _]]).
    + unfold protected in Hp. rewrite E1 in Hp. naive_solver.
    + destruct Hp as [Hp|[Hp|[->|Hp]]].
      * exists full. split; [apply list_elem_of_In, elem_of_app; by left|done].
      * exists full. split; [apply list_elem_of_In, elem_of_app; by right|done].
      * congruence.
      * destruct (prefix_comparable _ _ _ Hpre Hp); congruence.
Qed.

Lemma IsDeniedKey_spec key : IsDeniedKey key = true <-> exists full, protected full /\ sets key full.
Proof.
  unfold IsDeniedKey, sets. rewrite existsb_exists. setoid_rewrite <- list_elem_of_In. setoid_rewrite denied_names_spec.
  setoid_rewrite isDeniedName_spec. naive_solver.
Qed.

(** A name of the right characters and a value of one line. *)
Definition one_line (s : string) : bool := all_chars (fun c => negb (line_break c)) s.

(** a set of user parameters is accepted exactly when every name has the form of an
    option name, every value is one line, and no name lets the server set an option the
    operator manages or denies, in whatever spelling the server understands: case,
    dashes, [loose_], a value modifier, or a prefix it would expand. *)
Theorem parameters_are_accepted_iff_harmless params :
  ValidateUserParameters params = Ok tt <->
  forall key value, params !! key = Some value ->
    validParameterKey key = true /\ one_line value = true /\ forall full, protected full -> ~ sets key full.
Proof.
  unfold ValidateUserParameters. destruct (existsb _ _) eqn:E.
  - split; [done|]. intros H. exfalso. apply existsb_exists in E as ([key value] & Hin%list_elem_of_In%elem_of_map_to_list & Hr).
    destruct (H key value Hin) as (H1 & H2 & H3). unfold refused in Hr. cbn [fst snd] in Hr. unfold one_line in H2. rewrite H1, H2 in Hr. cbn in Hr.
    apply IsDeniedKey_spec in Hr as (full & Hp & Hs). by eapply H3.
  - split; [|done]. intros _ key value Hkv. apply elem_of_map_to_list, list_elem_of_In in Hkv.
    assert (refused key value = false) as Hr.
    { destruct (refused key value) eqn:Er; [|done]. rewrite <- E. symmetry. apply existsb_exists. by exists (key, value). }
    apply orb_false_iff in Hr as [[H1%negb_false_iff H2%negb_false_iff]%orb_false_iff H3]. split; [done|]. split; [done|].
    intros full Hp Hs. assert (IsDeniedKey key = true) by (apply IsDeniedKey_spec; by exists full). congruence.
Qed.

(** ** Lines *)

Lemma trim_right_app a b : trim_right (a +:+ b) = match trim_right b with EmptyString => trim_right a | t => a +:+ t end.
Proof.
  induction a as [|c a IH]; cbn; [by destruct (trim_right b)|]. rewrite IH. destruct (trim_right b) as [|x t]; [done|]. by destruct a.
Qed.

Lemma trim_right_idem s : trim_right (trim_right s) = trim_right s.
Proof.
  induction s as [|c s IH]; cbn; [done|]. destruct (trim_right s) as [|x t] eqn:E; [destruct (is_space c) eqn:Ec; cbn; by rewrite ?Ec|].
  cbn [trim_right] in *. by rewrite IH.
Qed.

Lemma trim_left_right s : trim_left (trim_right s) = trim_right (trim_left s).
Proof.
  induction s as [|c s IH]; [done|]. cbn [trim_right trim_left]. destruct (is_space c) eqn:Ec.
  - rewrite <- IH. destruct (trim_right s) as [|x t] eqn:E; [done|]. cbn [trim_left]. by rewrite Ec.
  - cbn [trim_right]. destruct (trim_right s) as [|x t] eqn:E; rewrite ?Ec; cbn [trim_left]; by rewrite Ec.
Qed.

Lemma TrimSpace_right v : TrimSpace (trim_right v) = TrimSpace v.
Proof. unfold TrimSpace. by rewrite trim_left_right, trim_right_idem. Qed.

Lemma key_char_plain c : key_char c = true -> is_space c = false /\ Ascii.eqb c "=" = false /\ directive c = false /\ Ascii.eqb c newline = false.
Proof. destruct c as [[] [] [] [] [] [] [] []]; cbn; try done. Qed.

Lemma key_trim key : all_chars key_char key = true -> trim_right key = key.
Proof.
  induction key as [|c key IH]; cbn; [done|]. intros [Hc Hk]%andb_true_iff. rewrite IH by done. destruct (key_char_plain c Hc) as (-> & _).
  by destruct key.
Qed.

Lemma key_no_equals key : all_chars key_char key = true -> no_char "=" key = true.
Proof. apply all_chars_impl. intros c Hc. by destruct (key_char_plain c Hc) as (_ & -> & _). Qed.

Lemma setting_of_line key value :
  validParameterKey key = true -> setting_of (line_of (key, value)) = Some (key, TrimSpace value).
Proof.
  intros [Hne%negb_true_iff Hk]%andb_true_iff. destruct key as [|c key]; [done|]. cbn in Hk. apply andb_true_iff in Hk as [Hc Hk].
  destruct (key_char_plain c Hc) as (Hs & Heq & Hd & _). pose proof (key_no_equals key Hk) as Hne'.
  assert (forall x, TrimSpace (String c x) = trim_right (String c x)) as Htrim by (intros x; unfold TrimSpace; cbn [trim_left]; by rewrite Hs).
  assert (trim_right (String c key) = String c key) as Hkey by (apply key_trim; cbn; by rewrite Hc).
  assert (TrimSpace (String c key) = String c key) as Hkey' by (by rewrite Htrim).
  assert (TrimSpace (String c (key +:+ " ")) = String c key) as Hkey''
    by (rewrite Htrim; change (String c (key +:+ " ")) with (String c key +:+ " "); rewrite trim_right_app; exact Hkey).
  unfold line_of. cbn [fst snd]. destruct (empty value) eqn:Ev.
  - apply String.eqb_eq in Ev as ->. unfold setting_of. rewrite Hkey'. rewrite Hd. rewrite Cut_no_sep by (apply key_no_equals; cbn; by rewrite Hc).
    by rewrite Hkey'.
  - unfold setting_of. change (String c key +:+ " = " +:+ value) with (String c (key +:+ " = " +:+ value)). rewrite Htrim.
    change (String c (key +:+ " = " +:+ value)) with (String c key +:+ (" = " +:+ value)). rewrite trim_right_app, trim_right_app.
    assert (no_char "=" (String c key +:+ " ") = true) as Hcut.
    { unfold no_char in *. rewrite all_chars_app. cbn. rewrite Heq. cbn. by rewrite andb_true_r. }
    assert (forall rest, Cut (String c key +:+ String " " (String "=" rest)) "=" = (String c key +:+ " ", rest, true)) as HC.
    { intros rest. change (String " " (String "=" rest)) with (" " +:+ String "=" rest). rewrite <- append_assoc. by apply Cut_app. }
    assert (TrimSpace value = match trim_right value with EmptyString => "" | t => TrimSpace (" " +:+ t) end) as Hval.
    { rewrite <- TrimSpace_right. by destruct (trim_right value). }
    rewrite Hval. destruct (trim_right value) as [|x t] eqn:Et.
    + change (trim_right " = ") with " =". cbn [String.append] in *. rewrite Hd. rewrite (HC ""). by rewrite Hkey''.
    + cbn [String.append] in *. rewrite Hd. rewrite (HC (String " " (String x t))). by rewrite Hkey''.
Qed.

(** ** The file *)

Lemma Split_lines lines tail :
  Forall (fun l => no_char newline l = true) lines ->
  Split (foldr (fun line rest => line +:+ String newline rest) tail lines) newline = lines ++ Split tail newline.
Proof. induction 1 as [|l lines Hl H IH]; cbn [foldr]; [done|]. rewrite Split_app by done. cbn. by rewrite IH. Qed.

Lemma foldr_lines lines tail : foldr (fun line rest => line +:+ String newline rest) "" lines +:+ tail = foldr (fun line rest => line +:+ String newline rest) tail lines.
Proof. induction lines as [|l lines IH]; cbn [foldr]; [done|]. rewrite append_assoc. cbn [String.append]. by rewrite IH. Qed.

Definition good_pair (p : pair_) : Prop := validParameterKey (fst p) = true /\ no_char newline (snd p) = true.

Lemma line_of_no_newline p : good_pair p -> no_char newline (line_of p) = true.
Proof.
  intros [[_ Hk]%andb_true_iff Hv]. assert (no_char newline (fst p) = true) as Hk'.
  { revert Hk. apply all_chars_impl. intros c Hc. by destruct (key_char_plain c Hc) as (_ & _ & _ & ->). }
  unfold line_of. destruct (empty (snd p)); [done|]. unfold no_char in *. rewrite !all_chars_app, Hk', Hv. done.
Qed.

Definition read_pair (p : pair_) : pair_ := (fst p, TrimSpace (snd p)).

Lemma settings_lines header pairs tail :
  no_char newline header = true -> setting_of header = None -> Forall good_pair pairs ->
  settings (writeSection header pairs +:+ tail) = (read_pair <$> pairs) ++ settings tail.
Proof.
  intros Hh Hs Hp. unfold writeSection, settings. rewrite foldr_lines, Split_lines.
  - rewrite omap_app. cbn [omap list_omap]. rewrite Hs. f_equal. induction Hp as [|p pairs Hg Hp IH]; cbn; [done|].
    destruct p as [k v]. rewrite setting_of_line by (by destruct Hg). by rewrite IH.
  - constructor; [done|]. apply Forall_fmap. eapply Forall_impl; [exact Hp|]. intros p. apply line_of_no_newline.
Qed.

(** The operator's own strings are single lines, and its GTID settings and
    semi-sync names those of an engine. *)
Record wf_config (c : ServerConfig) : Prop := {
  wf_strings : Forall (fun s => no_char newline s = true)
    [sc_DataDir c; sc_Socket c; sc_SlowLogFile c; sc_ReportHost c; sc_BinlogFormat c; sc_AdminAddress c;
     tls_CA (sc_TLS c); tls_Cert (sc_TLS c); tls_Key (sc_TLS c);
     gc_GroupName (sc_GroupReplication c); gc_LocalAddress (sc_GroupReplication c); gc_GroupSeeds (sc_GroupReplication c);
     gc_IPAllowlist (sc_GroupReplication c); gc_Consistency (sc_GroupReplication c); gc_ExitStateAction (sc_GroupReplication c);
     tls_CA (gc_RecoverySSL (sc_GroupReplication c)); tls_Cert (gc_RecoverySSL (sc_GroupReplication c));
     tls_Key (gc_RecoverySSL (sc_GroupReplication c))];
  wf_gtid : sc_GTIDSettings c ∈ [mysqlEngine_GTIDConfigSettings; mariadbEngine_GTIDConfigSettings];
  wf_naming n : sc_SemiSyncNaming c = Some n -> (exists v, n = SemiSync v) \/ n = mariadbSemiSyncNaming
}.

Lemma FormatInt_no_newline n : no_char newline (FormatInt n) = true.
Proof.
  unfold FormatInt. pose proof (fun n => FormatUint_no_char n newline eq_refl) as H. destruct (n <? 0); [|apply H].
  unfold no_char in *. cbn. apply H.
Qed.

Lemma loose_key v : all_chars key_char v = true -> validParameterKey ("loose-" +:+ v) = true.
Proof. intros H. unfold validParameterKey. rewrite all_chars_app, H. done. Qed.

Lemma naming_of_an_engine c ver :
  wf_config c -> let n := default (SemiSync ver) (sc_SemiSyncNaming c) in
  (exists v, n = SemiSync v) \/ n = mariadbSemiSyncNaming.
Proof. intros []. destruct (sc_SemiSyncNaming c) as [n|]; cbn; [by apply wf_naming0|]. left. by exists ver. Qed.

Lemma naming_keys c ver :
  wf_config c -> let n := default (SemiSync ver) (sc_SemiSyncNaming c) in
  Forall (fun s => all_chars key_char s = true) [ss_EnabledVarSource n; ss_EnabledVarReplica n; ss_WaitForCountVar n; ss_TimeoutVar n; ss_WaitPointVar n].
Proof.
  intros Hwf n. destruct (naming_of_an_engine c ver Hwf) as [[v E]|E]; fold n in E; rewrite E; [|by repeat constructor].
  unfold SemiSync. case_match; by repeat constructor.
Qed.

Lemma gtid_good c : wf_config c -> Forall good_pair (sc_GTIDSettings c).
Proof. intros [_ Hg _]. by repeat (apply elem_of_cons in Hg as [->|Hg]; [repeat constructor|]); apply not_elem_of_nil in Hg. Qed.

Lemma Forall_when (Q : pair_ -> Prop) b l : (b = true -> Forall Q l) -> Forall Q (when b l).
Proof. destruct b; cbn; [auto|constructor]. Qed.

(** Splits a claim about all of [managedSettings] into its settings. *)
Ltac each_setting :=
  unfold managedSettings, groupReplicationSettings, semisync_settings, archiving_settings, binlogExpire;
  repeat first [apply Forall_app; split | apply Forall_when; let H := fresh "Hwhen" in intros H | apply Forall_cons; split | apply Forall_nil; exact I
               | match goal with |- Forall _ (if ?b then _ else _) => destruct b end
               | match goal with |- Forall _ (match ?b with _ => _ end) => destruct b end].

Lemma managed_good c ver : wf_config c -> Forall good_pair (managedSettings c ver).
Proof.
  intros Hwf. pose proof (naming_keys c ver Hwf) as Hn. cbn zeta in Hn. pose proof (gtid_good c Hwf) as Hg. destruct Hwf as [Hs _ _].
  repeat match goal with H : Forall _ (_ :: _) |- _ => apply Forall_cons in H as [? H] end. pose proof FormatInt_no_newline as Hint.
  each_setting.
  all: try exact Hg.
  all: try match goal with |- good_pair (if ?b then _ else _) => destruct b end.
  all: split; cbn [fst snd].
  all: try match goal with |- context [if ?b then _ else _] => destruct b end.
  all: match goal with
       | H : ?P |- ?P => exact H
       | |- no_char _ (FormatInt _) = true => apply Hint
       | |- validParameterKey ("loose-" +:+ _) = true => apply loose_key; match goal with H : ?P |- ?P => exact H end
       | |- _ => reflexivity
       end.
Qed.

(** What the operator renders is protected from user parameters, or left open. *)
Definition kept (p : pair_) : Prop := left_open (option_name (fst p)) \/ protected (option_name (fst p)).

#[local] Instance kept_dec p : Decision (kept p).
Proof. unfold kept, left_open, protected. apply _. Defined.

Lemma semisync_kept s n : (exists v, n = SemiSync v) \/ n = mariadbSemiSyncNaming -> Forall kept (semisync_settings s n).
Proof.
  intros [[v ->]| ->]; [unfold SemiSync; destruct (usesSourceSemiSyncNaming v)|]; each_setting;
    first [left; right; vm_compute; reflexivity | by rewrite andb_false_r in Hwhen | by vm_compute in Hwhen].
Qed.

Lemma managed_kept c ver : wf_config c -> Forall kept (managedSettings c ver).
Proof.
  intros Hwf. pose proof (semisync_kept (sc_SemiSync c) _ (naming_of_an_engine c ver Hwf)) as Hs.
  assert (Forall kept (sc_GTIDSettings c)) as Hg.
  { destruct Hwf as [_ Hg _]. apply elem_of_cons in Hg as [->|Hg%list_elem_of_singleton]; [|rewrite Hg];
      (apply (bool_decide_unpack _); vm_compute; exact I). }
  unfold managedSettings. generalize dependent (semisync_settings (sc_SemiSync c) (default (SemiSync ver) (sc_SemiSyncNaming c))).
  intros semisync Hs. each_setting. all: try exact Hg; try exact Hs.
  all: repeat match goal with |- kept (if ?b then _ else _) => destruct b | |- kept (if ?b then _ else _, _) => destruct b end.
  all: match goal with |- kept (?k, _) => change (kept (k, "")); apply (bool_decide_unpack _); vm_compute; exact I end.
Qed.

Lemma elem_of_ordered params k v : (k, v) ∈ mapToOrderedPairs params <-> params !! k = Some v.
Proof.
  unfold mapToOrderedPairs. rewrite list_elem_of_fmap. setoid_rewrite (isort_perm String.leb). split.
  - intros (k' & [= -> ->] & ([k0 v0] & -> & Hin%elem_of_map_to_list)%list_elem_of_fmap). cbn. by rewrite Hin.
  - intros Hk. exists k. rewrite Hk. split; [done|]. apply list_elem_of_fmap. exists (k, v). split; [done|]. by apply elem_of_map_to_list.
Qed.

Lemma ordered_empty : mapToOrderedPairs ∅ = [].
Proof. unfold mapToOrderedPairs. by rewrite map_to_list_empty. Qed.

Lemma one_line_no_newline s : one_line s = true -> no_char newline s = true.
Proof. apply all_chars_impl. intros c Hc. unfold line_break in Hc. apply negb_true_iff in Hc. apply negb_true_iff. by apply orb_false_iff in Hc as [[? _]%orb_false_iff _]. Qed.

Lemma user_good params ver :
  ValidateUserParameters params = Ok tt -> Forall good_pair (mapToOrderedPairs (filterRemovedParams params ver)).
Proof.
  intros H. apply Forall_forall. intros [k v] [Hk _]%elem_of_ordered%map_lookup_filter_Some.
  destruct (proj1 (parameters_are_accepted_iff_harmless params) H k v Hk) as (H1 & H2 & _). split; [done|by apply one_line_no_newline].
Qed.

Lemma settings_header rest :
  settings ("# Generated by cnmsql instance manager. Do not edit." +:+ str1 newline +:+ "[mysqld]" +:+ str1 newline +:+ rest) = settings rest.
Proof.
  unfold settings.
  change ("# Generated by cnmsql instance manager. Do not edit." +:+ str1 newline +:+ "[mysqld]" +:+ str1 newline +:+ rest) with
    ("# Generated by cnmsql instance manager. Do not edit." +:+ String newline ("[mysqld]" +:+ String newline rest)).
  by rewrite !Split_app.
Qed.

(** C31: for strings of the operator's own that are single lines and the settings of
    an engine, a rendered configuration reads, line by line as the server does, as the
    operator's settings in order and then the user's that the version still knows; no
    setting of the user's part sets an option that the operator renders, under any of
    the names the server knows it by, except [gtid_strict_mode], [binlog_checksum] and
    the [rpl_semi_sync_] options, which are left open; nor does any set an option of
    the managed and denied lists. *)
Theorem rendered_file_keeps_the_operators_settings c content :
  wf_config c -> Render c = Ok content ->
  exists ver user, Parse (sc_Version c) = Ok ver /\
    settings content = (read_pair <$> managedSettings c ver) ++ (read_pair <$> user) /\
    (forall k v, (k, v) ∈ user <-> sc_UserParameters c !! k = Some v /\ removedAt (normalizeKey k) ver = false) /\
    (forall k v kv, (k, v) ∈ managedSettings c ver -> ~ left_open (option_name k) ->
       kv ∈ read_pair <$> user -> ~ sets (fst kv) (option_name k)) /\
    forall full kv, protected full -> kv ∈ read_pair <$> user -> ~ sets (fst kv) full.
Proof.
  intros Hwf. unfold Render. destruct (sc_ServerID c <=? 0); [done|]. destruct (match sc_Role c with OtherRole => true | _ => false end); [done|].
  destruct (ValidateUserParameters _) as [[]|] eqn:Ev; [|done]. cbn [rbind]. destruct (Parse _) as [ver|] eqn:Ep; [|done]. cbn [rbind].
  match goal with |- Ok ?t = _ -> _ => generalize (eq_refl t); generalize t at -1; intros text Et [= <-]; subst text end.
  exists ver, (mapToOrderedPairs (filterRemovedParams (sc_UserParameters c) ver)). split; [done|].
  assert (forall full kv, protected full -> kv ∈ read_pair <$> mapToOrderedPairs (filterRemovedParams (sc_UserParameters c) ver) ->
    ~ sets (fst kv) full) as Hprot.
  { intros full kv Hp ([k v] & -> & [Hk _]%elem_of_ordered%map_lookup_filter_Some)%list_elem_of_fmap. cbn [fst read_pair].
    by apply (proj1 (parameters_are_accepted_iff_harmless _) Ev k v Hk). }
  split; [|split; [|split; [|exact Hprot]]].
  - rewrite settings_header, settings_lines; [|reflexivity|reflexivity|by apply managed_good]. f_equal.
    case_bool_decide as E; [by rewrite E, ordered_empty|]. rewrite <- (append_nil_r (writeSection _ _)).
    rewrite settings_lines; [apply app_nil_r|reflexivity|reflexivity|by apply user_good].
  - intros k v. rewrite elem_of_ordered. unfold filterRemovedParams. by rewrite map_lookup_filter_Some.
  - intros k v kv Hin Ho. apply Hprot. by destruct (proj1 (Forall_forall _ _) (managed_kept c ver Hwf) _ Hin).
Qed.

(** ** Stripping the group settings *)

Lemma trim_left_idem s : trim_left (trim_left s) = trim_left s.
Proof. induction s as [|c s IH]; cbn; [done|]. destruct (is_space c) eqn:E; [done|]. cbn. by rewrite E. Qed.

Lemma TrimSpace_idem s : TrimSpace (TrimSpace s) = TrimSpace s.
Proof. unfold TrimSpace. by rewrite trim_left_right, trim_left_idem, trim_right_idem. Qed.

Lemma normalizeKey_trim s : normalizeKey (TrimSpace s) = normalizeKey s.
Proof. unfold normalizeKey. by rewrite TrimSpace_idem. Qed.

(** A name that starts with a mark is no group setting. *)
Lemma mark_not_group c s : c = ";"%char \/ c = "!"%char -> isGroupReplicationManagedKey (normalizeKey (String c s)) = false.
Proof.
  intros Hc. assert (exists t, normalizeKey (String c s) = String c t) as (t & ->).
  { unfold normalizeKey, TrimSpace. assert (trim_left (String c s) = String c s) as -> by (destruct Hc as [-> | ->]; done).
    cbn [trim_right]. destruct (trim_right s) as [|x y]; destruct Hc as [-> | ->]; cbn; eauto. }
  destruct Hc as [-> | ->]; done.
Qed.

Lemma strip_line_setting line :
  strip_line line = match setting_of line with Some kv => isGroupReplicationManagedKey (normalizeKey (fst kv)) | None => false end.
Proof.
  unfold strip_line, setting_of. destruct (TrimSpace line) as [|c t]; [done|]. change (negb (empty (String c t))) with true. cbn [andb].
  destruct (Cut (String c t) "=") as [[k v] found] eqn:Ec. cbn [fst].
  assert (HasPrefix (String c t) "#" = Ascii.eqb c "#" /\ HasPrefix (String c t) "[" = Ascii.eqb c "[") as [-> ->].
  { unfold HasPrefix. split; unfold String.prefix; destruct (ascii_dec _ c) as [<-|Hc]; try (by destruct t); symmetry; apply Ascii.eqb_neq; congruence. }
  unfold directive. destruct (Ascii.eqb c "#"); [done|]. destruct (Ascii.eqb_spec c ";") as [->|H1].
  - cbn [orb negb andb]. change (Ascii.eqb ";" "[") with false. cbn [negb]. cbn in Ec. destruct (Cut t "=") as [[b a] f]. injection Ec as <- _ _.
    apply mark_not_group. by left.
  - destruct (Ascii.eqb c "["); [done|]. destruct (Ascii.eqb_spec c "!") as [->|H2]; cbn [orb negb andb].
    + cbn in Ec. destruct (Cut t "=") as [[b a] f]. injection Ec as <- _ _. apply mark_not_group. by right.
    + cbn [fst]. by rewrite normalizeKey_trim.
Qed.

Lemma settings_filter lines :
  omap setting_of (List.filter (fun line => negb (strip_line line)) lines) =
  List.filter (fun kv => negb (isGroupReplicationManagedKey (normalizeKey (fst kv)))) (omap setting_of lines).
Proof.
  induction lines as [|l lines IH]; [done|]. cbn [List.filter omap list_omap]. rewrite strip_line_setting. destruct (setting_of l) as [kv|] eqn:E; cbn [negb].
  - cbn [List.filter]. destruct (isGroupReplicationManagedKey _); cbn [negb omap list_omap]; [done|]. by rewrite E, IH.
  - cbn [omap list_omap]. by rewrite E, IH.
Qed.

(** The stripped copy [mysqld --initialize] gets has every setting but the group's. *)
Theorem stripping_is_exact content :
  settings (StripGroupReplication content) =
  List.filter (fun kv => negb (isGroupReplicationManagedKey (normalizeKey (fst kv)))) (settings content).
Proof.
  unfold settings, StripGroupReplication. rewrite <- settings_filter.
  set (kept := List.filter _ _). assert (Forall (fun l => no_char newline l = true) kept) as Hk.
  { apply Forall_forall. intros l [Hl _]%elem_of_filter_bool. assert (all_chars (fun _ => true) content = true) as Hc by (clear; by induction content).
    pose proof (Split_pieces _ _ newline Hc) as Hp. rewrite Forall_forall in Hp. by apply Hp. }
  destruct kept as [|l ls]; [done|]. unfold str1. rewrite (Split_Join (l :: ls) newline); [done|done|exact Hk].
Qed.

(** ** Samples *)

Module SampleConfig.
Definition group : GroupReplicationConfig := mkGroupReplicationConfig "" "" "" "" "" "" 0 (mkTLSPaths "" "" "").
Definition server (params : gmap string string) : ServerConfig :=
  mkServerConfig 1 "10.11.8" RoleReplica "/var/lib/mysql" "/run/mysqld.sock" 3306 "" "c-1" "" "" 0 (mkTLSPaths "" "" "")
    (mkSemiSyncConfig false 0 0) (mkArchiving true 64 0) false group params false true false false (Some mariadbSemiSyncNaming)
    [("gtid_strict_mode", "ON")].

Lemma wf params : wf_config (server params).
Proof. constructor; [by repeat constructor|by repeat constructor|]. intros n [= <-]. by repeat constructor. Qed.
End SampleConfig.

Lemma rendered_file_keeps_the_operators_settings_witness :
  exists content user, Render (SampleConfig.server {["max_connections" := "500"]}) = Ok content /\
    settings content = (read_pair <$> managedSettings (SampleConfig.server {["max_connections" := "500"]}) (mkVersion 10 11 8)) ++ (read_pair <$> user) /\
    ("max_connections", "500") ∈ user.
Proof.
  destruct (Render (SampleConfig.server {["max_connections" := "500"]})) as [content|] eqn:E; [|vm_compute in E; discriminate].
  destruct (rendered_file_keeps_the_operators_settings _ content (SampleConfig.wf _) E) as (ver & user & Hv & Hs & Hu & _).
  assert (ver = mkVersion 10 11 8) as -> by (vm_compute in Hv; congruence). exists content, user. split; [done|]. split; [exact Hs|].
  apply Hu. split; vm_compute; reflexivity.
Defined.

(** Not every setting the operator renders is protected: on MariaDB a user parameter
    turns off the strict GTID mode the operator turns on. *)
Lemma strict_mode_is_overridable :
  exists content, Render (SampleConfig.server {["gtid_strict_mode" := "OFF"]}) = Ok content /\
    List.filter (fun kv => String.eqb (fst kv) "gtid_strict_mode") (settings content) = [("gtid_strict_mode", "ON"); ("gtid_strict_mode", "OFF")].
Proof. eexists. split; vm_compute; reflexivity. Qed.
