(* ===== verification/Status.v ===== *)
(** * Observing a cluster

    [internal/controller/cluster_status.go] and
    [internal/controller/cluster_timeline.go]: how a pass polls the instances and
    aggregates what they answer, the phase it derives, what of the archive's state
    it believes, the MariaDB primary timeline it records, and how the result is
    merged into the Cluster's status.

    The answers of the API server and of the instances are arguments, by instance
    name, and so is the topology's view ([Observation] and [GroupReplication] model
    it).  Storage pressure (a floating-point percentage), certificates and the
    events are left out; the status fields not modelled enter only as whether they
    changed. *)

From Stdlib Require Import ZArith Lia Bool Ascii String.
From stdpp Require Import base list strings gmap sorting.
From S2P Require Import Prelude GoStrings Gtid GtidText GtidModel MariaGtid MariaTimeline Archive Cluster Switchover GroupReplication.

Local Open Scope Z_scope.
#[local] Arguments String.append : simpl nomatch.

(** ** Conditions *)

Record Condition := mkCondition {
  cd_Type : string;
  cd_Status : string;
  cd_Reason : string;
  cd_Message : string;
  cd_ObservedGeneration : Z
}.

Definition ConditionTrue : string := "True".
Definition ConditionFalse : string := "False".
Definition conditionStatus (ok : bool) : string := if ok then ConditionTrue else ConditionFalse.

(** [apimeta]: a list of conditions holds at most what was last set of each type. *)
Class StatusConditions := {
  FindStatusCondition : list Condition -> string -> option Condition;
  SetStatusCondition : list Condition -> Condition -> list Condition;
  RemoveStatusCondition : list Condition -> string -> list Condition;
  find_set l c : FindStatusCondition (SetStatusCondition l c) (cd_Type c) = Some c;
  find_set_other l c t : t <> cd_Type c -> FindStatusCondition (SetStatusCondition l c) t = FindStatusCondition l t;
  find_remove l t : FindStatusCondition (RemoveStatusCondition l t) t = None;
  find_remove_other l t t' : t' <> t -> FindStatusCondition (RemoveStatusCondition l t) t' = FindStatusCondition l t'
}.

Definition IsStatusConditionTrue `{StatusConditions} (l : list Condition) (t : string) : bool :=
  match FindStatusCondition l t with Some c => String.eqb (cd_Status c) ConditionTrue | None => false end.

(** ** What an instance reports *)

(** [webserver.ArchivingStatus]; a fork is its GTIDs and when it was detected. *)
Record ArchivingReport := mkArchivingReport {
  wa_LastArchivedBinlog : string;
  wa_LastArchivedGTID : string;
  wa_LastArchivedTime : string;
  wa_PendingFiles : Z;
  wa_LastError : string;
  wa_LastErrorTime : string;
  wa_PurgeHeldBy : list string;
  wa_PurgeHeldSince : string;
  wa_Forks : list (string * string);
  wa_ForkCheckedAt : string;
  wa_ForkCheckGeneration : Z;
  wa_OldestSegmentPosition : string;
  wa_DisownedGTIDs : string;
  wa_Gaps : list string;
  wa_CoveredGTIDSet : string;
  wa_MariaDBTimeline : list ArchiveEpoch
}.

Definition RolePrimary : string := "primary".
Definition ReasonCredentialMismatch : string := "CredentialMismatch".
Definition ReasonReplicationLag : string := "ReplicationLag".

(** [webserver.Status]; [re_ReplicationError] is [replication.lastError]. *)
Record Report := mkReport {
  re_Role : string;
  re_IsReady : bool;
  re_NotReadyReason : string;
  re_ReadOnly : bool;
  re_SuperReadOnly : bool;
  re_GTIDExecuted : string;
  re_GTIDSlavePos : string;
  re_ServerID : Z;
  re_ReplicationError : option string;
  re_ExecutableHash : string;
  re_LagMillis : option Z;
  re_Archiving : option ArchivingReport
}.

(** ** The archiving status *)

(** [ContinuousArchivingStatus].  The fields read from the archive index, which
    [carryForks] copies together, are a record of their own. *)
Record ArchiveFields := mkArchiveFields {
  af_ForkGTIDs : list string;
  af_ForkDetectedAt : option Time;
  af_OldestSegmentPosition : string;
  af_DisownedGTIDs : string;
  af_Gaps : list string;
  af_GapsSince : option Time;
  af_CoveredGTIDSet : string
}.

Record ContinuousArchivingStatus := mkContinuousArchivingStatus {
  ca_Enabled : bool;
  ca_LastArchivedBinlog : string;
  ca_LastArchivedGTID : string;
  ca_LastArchivedTime : option Time;
  ca_PendingFiles : Z;
  ca_LastFailureReason : string;
  ca_LastFailureTime : option Time;
  ca_PurgeHeldBy : list string;
  ca_PurgeHeldSince : option Time;
  ca_Archive : ArchiveFields
}.

Definition ArchiveFields_zero : ArchiveFields := mkArchiveFields [] None "" "" [] None "".
Definition ca_Gaps (ca : ContinuousArchivingStatus) : list string := af_Gaps (ca_Archive ca).
Definition ca_GapsSince (ca : ContinuousArchivingStatus) : option Time := af_GapsSince (ca_Archive ca).

Definition gtidPersistInterval : Duration := 5 * 60 * 1000000000.

Definition archiveReportCurrent (a : option ArchivingReport) (generation : Z) : bool :=
  match a with
  | Some a => negb (String.eqb (wa_ForkCheckedAt a) "") && (generation <=? wa_ForkCheckGeneration a)
  | None => false
  end.

Definition carryForks (prior : option ContinuousArchivingStatus) : ArchiveFields :=
  match prior with Some p => ca_Archive p | None => ArchiveFields_zero end.

Section Archiving.
(** [time.Parse(time.RFC3339, ...)]. *)
Context (parse_RFC3339 : string -> option Time).

Definition parseInstanceTime (stamp : string) : option Time := if String.eqb stamp "" then None else parse_RFC3339 stamp.

(** The loop over the forks: their GTIDs, and the earliest detection. *)
Definition note_fork (acc : list string * option Time) (fork : string * string) : list string * option Time :=
  let '(gtids, detectedAt) := acc in
  (gtids ++ [fst fork],
   match parseInstanceTime (snd fork) with
   | Some at_ => match detectedAt with Some d => if at_ <? d then Some at_ else Some d | None => Some at_ end
   | None => detectedAt
   end).

(** The fields of a current report; [now] is the clock. *)
Definition reported_fields (a : ArchivingReport) (prior : option ContinuousArchivingStatus) (now : Time) : ArchiveFields :=
  let gapsSince :=
    match wa_Gaps a with
    | [] => None
    | gaps =>
        match prior with
        | Some p =>
            match ca_GapsSince p with
            | Some since => if bool_decide (ca_Gaps p = gaps) then Some since else Some now
            | None => Some now
            end
        | None => Some now
        end
    end in
  let '(forks, detectedAt) := foldl note_fork ([], None) (wa_Forks a) in
  mkArchiveFields forks detectedAt (wa_OldestSegmentPosition a) (wa_DisownedGTIDs a) (wa_Gaps a) gapsSince (wa_CoveredGTIDSet a).

(** [status] is the primary's report, if it answered. *)
Definition aggregateArchiving (status : option Report) (prior : option ContinuousArchivingStatus) (generation : Z) (now : Time)
  : ContinuousArchivingStatus :=
  match status ≫= re_Archiving with
  | None => mkContinuousArchivingStatus true "" "" None 0 "" None [] None (carryForks prior)
  | Some a =>
      mkContinuousArchivingStatus true (wa_LastArchivedBinlog a) (wa_LastArchivedGTID a) (parseInstanceTime (wa_LastArchivedTime a))
        (wa_PendingFiles a) (wa_LastError a) (parseInstanceTime (wa_LastErrorTime a)) (wa_PurgeHeldBy a)
        (parseInstanceTime (wa_PurgeHeldSince a))
        (if archiveReportCurrent (Some a) generation then reported_fields a prior now else carryForks prior)
  end.
End Archiving.

Definition applyArchivingStatus (enabled : bool) (latest observed : option ContinuousArchivingStatus) : option ContinuousArchivingStatus :=
  if negb enabled then None else match observed with Some ca => Some ca | None => latest end.

Definition archivingHealthy (status : option ContinuousArchivingStatus) : bool :=
  match status with Some s => String.eqb (ca_LastFailureReason s) "" | None => false end.

Definition primaryArchiveReport (status : option Report) (generation : Z) : option ArchivingReport :=
  match status with
  | Some s => if archiveReportCurrent (re_Archiving s) generation then re_Archiving s else None
  | None => None
  end.

(** [disownedGTIDs] of [cluster_topology_reconciler.go]. *)
Definition disownedGTIDs (enabled : bool) (status : option Report) (generation : Z) (recorded : option ContinuousArchivingStatus) : string :=
  if negb enabled then ""
  else match primaryArchiveReport status generation with
       | Some report => wa_DisownedGTIDs report
       | None => match recorded with Some ca => af_DisownedGTIDs (ca_Archive ca) | None => "" end
       end.

(** ** The MariaDB primary timeline ([cluster_timeline.go]) *)

Record Epoch := mkEpoch { eo_Instance : string; eo_ServerID : Z; eo_Handoff : string; eo_Since : Time }.

Definition toEngineTimeline (epochs : list Epoch) : MariaDBTimeline :=
  (fun e => mkMariaDBEpoch (eo_ServerID e) (eo_Handoff e)) <$> epochs.

Record timelineUpdate := mkTimelineUpdate {
  tu_Observed : bool;
  tu_Timeline : list Epoch;
  tu_Truncated : bool;
  tu_PinnedBy : list string
}.

Definition writablePrimary (status : Report) : bool :=
  String.eqb (re_Role status) RolePrimary && negb (re_ReadOnly status) && negb (re_SuperReadOnly status) &&
  negb (re_ServerID status =? 0).

Definition canonicalMariaDBPosition (raw : string) : string :=
  match mariadbGTID_Canonical raw with Ok canonical => canonical | Err _ => raw end.

Definition archivedTimeline (report : option ArchivingReport) (now : Time) : list Epoch :=
  match report with
  | Some r => (fun e => mkEpoch (ae_Instance e) (ae_ServerID e) (ae_Handoff e) now) <$> wa_MariaDBTimeline r
  | None => []
  end.

(** What the timeline is computed from: the Cluster's recorded state, and this
    pass's observation. *)
Record TimelineInput := mkTimelineInput {
  ti_MariaDB : bool;
  ti_Replica : bool;
  ti_Recorded : list Epoch;
  ti_RecordedGTID : gmap string string;
  ti_RecordedArchiving : option ContinuousArchivingStatus;
  ti_Archiving : bool;
  ti_Generation : Z;
  ti_PrimaryName : string;
  ti_InstanceNames : list string;
  ti_Status : gmap string Report;
  ti_GTID : gmap string string
}.

Definition ti_primary (i : TimelineInput) : option Report := ti_Status i !! ti_PrimaryName i.

Definition oldestArchivedPosition (i : TimelineInput) : string :=
  match primaryArchiveReport (ti_primary i) (ti_Generation i) with
  | Some report => wa_OldestSegmentPosition report
  | None => match ti_RecordedArchiving i with Some ca => af_OldestSegmentPosition (ca_Archive ca) | None => "" end
  end.

Definition archiveTimelineReference : string := "archive".

(** The position of an instance, this pass's or the last recorded one. *)
Definition reference_of (i : TimelineInput) (name : string) : option string :=
  let nonempty (o : option string) := o ≫= fun p => if String.eqb p "" then None else Some p in
  match nonempty (ti_GTID i !! name) with
  | Some p => Some p
  | None => nonempty (ti_RecordedGTID i !! name)
  end.

Definition timelineReferences (i : TimelineInput) : gmap string string :=
  let refs := foldl (fun refs name => match reference_of i name with Some p => <[name := p]> refs | None => refs end) ∅ (ti_InstanceNames i) in
  if ti_Archiving i && negb (String.eqb (oldestArchivedPosition i) "") then <[archiveTimelineReference := oldestArchivedPosition i]> refs
  else refs.

Definition MariaDBTimelineCeiling : Z := 256.

(** The recorded timeline, or the archive's, with the primary's epoch. *)
Definition extended_timeline (i : TimelineInput) (now : Time) : list Epoch :=
  let timeline := match ti_Recorded i with
                  | [] => archivedTimeline (primaryArchiveReport (ti_primary i) (ti_Generation i)) now
                  | t => t
                  end in
  match ti_primary i with
  | Some status =>
      if writablePrimary status &&
         match last timeline with Some e => negb (String.eqb (eo_Instance e) (ti_PrimaryName i)) | None => true end then
        let handoff := match timeline with [] => re_GTIDExecuted status | _ => re_GTIDSlavePos status end in
        timeline ++ [mkEpoch (ti_PrimaryName i) (re_ServerID status) (canonicalMariaDBPosition handoff) now]
      else timeline
  | None => timeline
  end.

Definition nextMariaDBTimeline (i : TimelineInput) (now : Time) : timelineUpdate :=
  if negb (ti_MariaDB i) || ti_Replica i then mkTimelineUpdate true [] false []
  else
    match extended_timeline i now with
    | [] => mkTimelineUpdate true [] false []
    | timeline =>
        let pruned := PruneMariaDBTimeline (toEngineTimeline timeline) (timelineReferences i) MariaDBTimelineCeiling in
        mkTimelineUpdate true (drop (pr_Dropped pruned) timeline) (pr_Truncated pruned) (pr_PinnedBy pruned)
    end.

(** ** Polling *)

(** A Pod: its phase, its containers (why one waits, and its restarts), the
    [Ready] conditions, the fencing annotation and whether it is terminating. *)
Record PodInfo := mkPodInfo {
  po_Phase : string;
  po_Containers : list (option string * Z);
  po_ReadyConditions : list bool;
  po_Fenced : bool;
  po_Terminating : bool
}.

Definition crashLoopRestartThreshold : Z := 3.

Definition podFailed (pod : PodInfo) : bool :=
  String.eqb (po_Phase pod) "Failed" ||
  existsb (fun cs => bool_decide (fst cs = Some "CrashLoopBackOff") && (crashLoopRestartThreshold <=? snd cs)) (po_Containers pod).
Definition podReady (pod : PodInfo) : bool := existsb id (po_ReadyConditions pod).
Definition podRunning (pod : PodInfo) : bool := String.eqb (po_Phase pod) "Running".

(** The answers about one instance: its claim ([Ok None] when there is none,
    otherwise whether a resize is pending), its Pod and its control endpoint. *)
Record Answer := mkAnswer {
  an_pvc : result (option bool);
  an_pod : result (option PodInfo);
  an_status : option Report
}.

(** What the loop collects. *)
Record Seen := mkSeen {
  se_ResizingPVCs : list string;
  se_FencedInstances : list string;
  se_TerminatingInstances : list string;
  se_FailedInstances : list string;
  se_PrimaryName : string;
  se_StatusByInstance : gmap string Report;
  se_GTIDByInstance : gmap string string;
  se_ExecutableHashByInstance : gmap string string;
  se_ReplicationLagByInstance : gmap string Z;
  se_ReadyInstances : Z
}.

Definition note_name (b : bool) (name : string) (l : list string) : list string := if b then l ++ [name] else l.
Definition note_value {V} (b : bool) (name : string) (v : V) (m : gmap string V) : gmap string V := if b then <[name := v]> m else m.

(** The Pod's part of an iteration. *)
Definition see_pod (name : string) (pod : PodInfo) (s : Seen) : Seen :=
  mkSeen (se_ResizingPVCs s) (note_name (po_Fenced pod) name (se_FencedInstances s))
    (note_name (po_Terminating pod) name (se_TerminatingInstances s)) (note_name (podFailed pod) name (se_FailedInstances s))
    (se_PrimaryName s) (se_StatusByInstance s) (se_GTIDByInstance s) (se_ExecutableHashByInstance s)
    (se_ReplicationLagByInstance s) (se_ReadyInstances s).

(** The report's part; [inRange] is [i <= plan.Instances]. *)
Definition see_report (name : string) (inRange : bool) (r : Report) (s : Seen) : Seen :=
  mkSeen (se_ResizingPVCs s) (se_FencedInstances s) (se_TerminatingInstances s) (se_FailedInstances s)
    (if String.eqb (re_Role r) RolePrimary then name else se_PrimaryName s)
    (<[name := r]> (se_StatusByInstance s))
    (note_value (negb (String.eqb (re_GTIDExecuted r) "")) name (re_GTIDExecuted r) (se_GTIDByInstance s))
    (note_value (negb (String.eqb (re_ExecutableHash r) "")) name (re_ExecutableHash r) (se_ExecutableHashByInstance s))
    (match re_LagMillis r with Some ms => <[name := ms]> (se_ReplicationLagByInstance s) | None => se_ReplicationLagByInstance s end)
    (if re_IsReady r && inRange then se_ReadyInstances s + 1 else se_ReadyInstances s).

Definition see_resizing (pvc : string) (s : Seen) : Seen :=
  mkSeen (se_ResizingPVCs s ++ [pvc]) (se_FencedInstances s) (se_TerminatingInstances s) (se_FailedInstances s) (se_PrimaryName s)
    (se_StatusByInstance s) (se_GTIDByInstance s) (se_ExecutableHashByInstance s) (se_ReplicationLagByInstance s) (se_ReadyInstances s).

Section Observe.
Context (cluster : string) (instances : Z).
(** [pvc_name] is [plan.instanceFor(...).PVCName]. *)
Context (pvc_name : string -> string).

Definition instanceName (ordinal : Z) : string := cluster +:+ "-" +:+ FormatInt ordinal.
Definition ordinals : list Z := seqZ 1 instances.
Definition instanceNames : list string := instanceName <$> ordinals.

Definition poll_instance (answer : string -> Answer) (s : Seen) (ordinal : Z) : result Seen :=
  let name := instanceName ordinal in
  let a := answer name in
  let? resizing := an_pvc a in
  let s := match resizing with Some true => see_resizing (pvc_name name) s | _ => s end in
  let? pod := an_pod a in
  match pod with
  | None => Ok s
  | Some pod =>
      let s := see_pod name pod s in
      if negb (podReady pod) && negb (podRunning pod) then Ok s
      else match an_status a with
           | None => Ok s
           | Some r => Ok (see_report name (ordinal <=? instances) r s)
           end
  end.

Definition outOfRangePrimaries (currentPrimary targetPrimary : string) : list string :=
  foldl (fun names name =>
    match instanceOrdinal cluster name with
    | Some _ => if instanceInRange cluster instances name || bool_decide (name ∈ names) then names else names ++ [name]
    | None => names
    end) [] [currentPrimary; targetPrimary].

Definition observedOrdinals (outOfRange : list string) : list Z :=
  ordinals ++ ((fun name => default 0 (instanceOrdinal cluster name)) <$> outOfRange).

(** [topology.Observation]. *)
Record TopologyView := mkTopologyView {
  tv_PrimaryName : string;
  tv_PrimaryAuthoritative : bool;
  tv_DivergedInstances : list string;
  tv_ReplicationBrokenInstances : list string;
  tv_GroupReplication : option GroupReplicationStatus
}.

Record BootstrapJob := mkBootstrapJob {
  bj_Instance : string;
  bj_Job : string;
  bj_Mode : string;
  bj_Failed : bool;
  bj_Reason : string;
  bj_Message : string;
  bj_Unschedulable : bool;
  bj_UnschedulableMessage : string
}.

(** [observedCluster]. *)
Record Observed := mkObserved {
  oc_Seen : Seen;
  oc_InstanceNames : list string;
  oc_PrimaryName : string;
  oc_PrimaryGTIDReadAt : Time;
  oc_ReadyInstances : Z;
  oc_View : TopologyView;
  oc_Timeline : timelineUpdate;
  oc_ContinuousArchiving : option ContinuousArchivingStatus;
  oc_CredentialMismatch : list string;
  oc_LagGated : list string;
  oc_OutOfRangePrimary : string;
  oc_BootstrapJobs : list BootstrapJob;
  oc_MissingCredentialSecrets : list string;
  oc_Ready : bool;
  oc_Progressing : bool;
  oc_Phase : string;
  oc_PhaseReason : string
}.

(** [collectCredentialMismatches]. *)
Definition with_reason (reason : string) (names : list string) (statuses : gmap string Report) : list string :=
  List.filter (fun name => match statuses !! name with Some r => String.eqb (re_NotReadyReason r) reason | None => false end) names.

Definition unreadyInstanceNames (names : list string) (statuses : gmap string Report) : list string :=
  List.filter (fun name => match statuses !! name with Some r => negb (re_IsReady r) | None => true end) names.

Definition failedBootstrapJobs (jobs : list BootstrapJob) : list BootstrapJob := List.filter bj_Failed jobs.

Definition bootstrapFailureReason (failed : list BootstrapJob) : string :=
  Join ((fun j => "bootstrap Job " +:+ bj_Job j +:+ " for " +:+ bj_Instance j +:+ " failed (" +:+ bj_Reason j +:+ "): " +:+ bj_Message j) <$> failed) "; ".

(** ** The phase *)

(** The group's recorded status and the establishment, as the Cluster has them. *)
Record Recorded := mkRecorded {
  rd_IsGroupReplication : bool;
  rd_GroupReplication : option GroupReplicationStatus;
  rd_SpecInstances : Z;
  rd_EstablishedAt : option Time
}.

Definition IsEstablished (r : Recorded) : bool := bool_decide (is_Some (rd_EstablishedAt r)).

Definition online_members (gr : GroupReplicationStatus) : Z := count (fun m => String.eqb (me_State m) MemberStateOnline) (gr_Members gr).

Definition isQuorumLost (r : Recorded) (observed : option GroupReplicationStatus) : bool :=
  if negb (rd_IsGroupReplication r) then false
  else
    match rd_GroupReplication r with
    | None => false
    | Some gr =>
        if negb (gr_Bootstrapped gr) then false
        else
          match observed with
          | None => if gr_ObservedViewMax gr =? 0 then true else rd_SpecInstances r <=? gr_ObservedViewMax gr
          | Some view =>
              let denominator := if gr_ObservedViewMax gr <=? 0 then Z.of_nat (length (gr_Members view)) else gr_ObservedViewMax gr in
              online_members view * 2 <=? denominator
          end
    end.

Definition isFullOutage (r : Recorded) (observed : option GroupReplicationStatus) : bool :=
  if negb (rd_IsGroupReplication r) then false
  else
    match rd_GroupReplication r with
    | None => false
    | Some gr =>
        if negb (gr_Bootstrapped gr) then false
        else if match observed with Some view => 0 <? online_members view | None => false end then false
        else IsEstablished r
    end.

Definition PhasePending : string := "Pending".
Definition PhaseProvisioning : string := "Provisioning".
Definition PhaseReady : string := "Ready".
Definition PhaseBlocked : string := "Blocked".
Definition PhaseFullOutage : string := "FullOutage".
Definition PhaseDegraded : string := "Degraded".

Definition missingCredentialAdvice : string :=
  "the bootstrapped MySQL accounts still use its previous password, " +:+
  "so it must be restored, not regenerated; new instances cannot bootstrap and restarted ones cannot start until it is".

Definition named (what : string) (l : list string) : list string := match l with [] => [] | _ => [what +:+ Join l ", "] end.

Definition degradedReason (o : Observed) : string :=
  let statuses := se_StatusByInstance (oc_Seen o) in
  let failed := se_FailedInstances (oc_Seen o) in
  let broken := tv_ReplicationBrokenInstances (oc_View o) in
  let explained := failed ++ broken ++ oc_CredentialMismatch o ++ oc_LagGated o in
  let base := FormatInt (oc_ReadyInstances o) +:+ "/" +:+ FormatInt instances +:+ " instances ready" in
  let describe name := match statuses !! name ≫= re_ReplicationError with
                       | Some e => if String.eqb e "" then name else name +:+ " (" +:+ e +:+ ")"
                       | None => name
                       end in
  let mismatch := match oc_CredentialMismatch o with
                  | [] => []
                  | l => ["credential mismatch: " +:+ Join l ", " +:+
                          " (mysqld rejected the control connection credentials; run ALTER USER to the Secret's value or restore the Secret)"]
                  end in
  let notReady := List.filter (fun name => negb (bool_decide (name ∈ explained))) (unreadyInstanceNames (oc_InstanceNames o) statuses) in
  let detail := named "failing to start: " failed ++ named "replication broken: " (describe <$> broken) ++ mismatch ++
                named "behind maxReadyLag: " (oc_LagGated o) ++ named "unreachable or not ready: " notReady in
  match detail with [] => base | _ => base +:+ "; " +:+ Join detail "; " end.

(** [settleReadiness]: the primary above the desired count, if any, and [Ready]. *)
Definition outOfRangePrimary (primaryName : string) : string :=
  if negb (String.eqb primaryName "") && negb (instanceInRange cluster instances primaryName) then primaryName else "".

Definition settled_ready (readyInstances : Z) (diverged : list string) (outOfRange : string) : bool :=
  (readyInstances =? instances) && Nat.eqb (length diverged) 0 && String.eqb outOfRange "".

(** The phase, its reason, and the two flags. *)
Definition computeClusterPhase (r : Recorded) (o : Observed) : string * string * bool * bool :=
  let view := oc_View o in
  let gr := tv_GroupReplication view in
  let keep phase reason := (phase, reason, oc_Ready o, oc_Progressing o) in
  if isFullOutage r gr then
    (PhaseFullOutage, "all members are down; re-bootstrapping the group from the last-seen primary", false, false)
  else if isQuorumLost r gr then (PhaseBlocked, "group has lost quorum; manual recovery required", false, false)
  else if negb (Nat.eqb (length (tv_DivergedInstances view)) 0) then
    keep PhaseDegraded ("replica(s) diverged from primary " +:+ oc_PrimaryName o +:+ " and cannot safely rejoin: " +:+
                        Join (tv_DivergedInstances view) ", ")
  else
    match failedBootstrapJobs (oc_BootstrapJobs o) with
    | _ :: _ as failed =>
        if IsEstablished r then keep PhaseDegraded (bootstrapFailureReason failed)
        else (PhaseBlocked, bootstrapFailureReason failed, oc_Ready o, false)
    | [] =>
        if negb (Nat.eqb (length (oc_MissingCredentialSecrets o)) 0) then
          keep PhaseDegraded ("credential Secret(s) missing: " +:+ Join (oc_MissingCredentialSecrets o) ", " +:+ "; " +:+ missingCredentialAdvice)
        else if oc_Ready o then keep PhaseReady "All instances are ready"
        else if negb (Nat.eqb (length (se_FailedInstances (oc_Seen o))) 0) || negb (Nat.eqb (length (tv_ReplicationBrokenInstances view)) 0) then
          keep PhaseDegraded (degradedReason o)
        else if negb (String.eqb (oc_OutOfRangePrimary o) "") && (oc_ReadyInstances o =? instances) then
          keep PhaseProvisioning ("primary " +:+ oc_OutOfRangePrimary o +:+ " is above the desired " +:+ FormatInt instances +:+
                                  " instances; switching over before scaling down")
        else if IsEstablished r then keep PhaseDegraded (degradedReason o)
        else
          match oc_ReadyInstances o =? 0, oc_BootstrapJobs o with
          | true, j :: _ =>
              keep PhasePending ("Waiting for bootstrap Job " +:+ bj_Job j +:+ " (" +:+ bj_Mode j +:+ ") of " +:+ bj_Instance j +:+
                (if bj_Unschedulable j then "; its Pod cannot schedule: " +:+ bj_UnschedulableMessage j else ""))
          | true, [] => keep PhasePending "Waiting for the primary instance"
          | false, _ => keep PhaseProvisioning (FormatInt (oc_ReadyInstances o) +:+ "/" +:+ FormatInt instances +:+ " instances ready")
          end
    end.
(** *** The pass *)

(** What the pass knows of the Cluster before it polls. *)
Record Known := mkKnown {
  kn_Recorded : Recorded;
  kn_MariaDB : bool;
  kn_Replica : bool;
  kn_ArchivingEnabled : bool;
  kn_PlanPrimary : string;
  kn_CurrentPrimary : string;
  kn_TargetPrimary : string;
  kn_Generation : Z;
  kn_Timeline : list Epoch;
  kn_GTIDExecutedByInstance : gmap string string;
  kn_ContinuousArchiving : option ContinuousArchivingStatus
}.

Definition no_view : TopologyView := mkTopologyView "" false [] [] None.

Definition timeline_input (k : Known) (names : list string) (s : Seen) (gtids : gmap string string) : TimelineInput :=
  mkTimelineInput (kn_MariaDB k) (kn_Replica k) (kn_Timeline k) (kn_GTIDExecutedByInstance k) (kn_ContinuousArchiving k)
    (kn_ArchivingEnabled k) (kn_Generation k) (se_PrimaryName s) names (se_StatusByInstance s) gtids.

(** The clock, the second read of the primary, the topology, the bootstrap Jobs
    and the account Secrets. *)
Record Environment := mkEnvironment {
  en_answer : string -> Answer;
  en_reread : string -> option Report;
  en_readAt : Time;
  en_now : Time;
  en_parse : string -> option Time;
  en_topology : Seen -> gmap string string -> timelineUpdate -> string -> TopologyView;
  en_jobs : result (list BootstrapJob);
  en_secrets : result (list string)
}.

Definition with_phase (o : Observed) (x : string * string * bool * bool) : Observed :=
  let '(phase, reason, ready, progressing) := x in
  mkObserved (oc_Seen o) (oc_InstanceNames o) (oc_PrimaryName o) (oc_PrimaryGTIDReadAt o) (oc_ReadyInstances o) (oc_View o)
    (oc_Timeline o) (oc_ContinuousArchiving o) (oc_CredentialMismatch o) (oc_LagGated o) (oc_OutOfRangePrimary o)
    (oc_BootstrapJobs o) (oc_MissingCredentialSecrets o) ready progressing phase reason.

Definition with_gtids (s : Seen) (gtids : gmap string string) : Seen :=
  mkSeen (se_ResizingPVCs s) (se_FencedInstances s) (se_TerminatingInstances s) (se_FailedInstances s) (se_PrimaryName s)
    (se_StatusByInstance s) gtids (se_ExecutableHashByInstance s) (se_ReplicationLagByInstance s) (se_ReadyInstances s).

(** The diverged replicas that were counted as ready are taken out again. *)
Definition discount (statuses : gmap string Report) (diverged : list string) (ready : Z) : Z :=
  foldl (fun n name => match statuses !! name with Some r => if re_IsReady r then n - 1 else n | None => n end) ready diverged.

Definition seen_zero (primary : string) : Seen := mkSeen [] [] [] [] primary ∅ ∅ ∅ ∅ 0.

(** The primary's GTID set is read again last. *)
Definition reread (env : Environment) (s : Seen) : Seen * Time :=
  if String.eqb (se_PrimaryName s) "" then (s, 0)
  else match en_reread env (se_PrimaryName s) with
       | Some r =>
           if String.eqb (re_GTIDExecuted r) "" then (s, 0)
           else (with_gtids s (<[se_PrimaryName s := re_GTIDExecuted r]> (se_GTIDByInstance s)), en_readAt env)
       | None => (s, 0)
       end.

Definition observe (k : Known) (env : Environment) : result Observed :=
  let outOfRange := outOfRangePrimaries (kn_CurrentPrimary k) (kn_TargetPrimary k) in
  let names := instanceNames ++ outOfRange in
  let? s := fold_result (poll_instance (en_answer env)) (seen_zero (kn_PlanPrimary k)) (observedOrdinals outOfRange) in
  let '(s, readAt) := reread env s in
  let timeline := nextMariaDBTimeline (timeline_input k names s (se_GTIDByInstance s)) (en_now env) in
  let disowned := disownedGTIDs (kn_ArchivingEnabled k) (se_StatusByInstance s !! se_PrimaryName s) (kn_Generation k) (kn_ContinuousArchiving k) in
  let view := en_topology env s (se_GTIDByInstance s) timeline disowned in
  let primary := if tv_PrimaryAuthoritative view then tv_PrimaryName view else se_PrimaryName s in
  let archiving :=
    if kn_ArchivingEnabled k then
      Some (aggregateArchiving (en_parse env) (se_StatusByInstance s !! primary) (kn_ContinuousArchiving k) (kn_Generation k) (en_now env))
    else None in
  let ready := discount (se_StatusByInstance s) (tv_DivergedInstances view) (se_ReadyInstances s) in
  let above := outOfRangePrimary primary in
  let isReady := settled_ready ready (tv_DivergedInstances view) above in
  let? jobs := en_jobs env in
  let? secrets := en_secrets env in
  let o := mkObserved s names primary readAt ready view timeline archiving
    (with_reason ReasonCredentialMismatch names (se_StatusByInstance s)) (with_reason ReasonReplicationLag names (se_StatusByInstance s))
    above jobs secrets isReady (negb isReady) "" "" in
  Ok (with_phase o (computeClusterPhase (kn_Recorded k) o)).
End Observe.

(** ** The archive's record over many passes *)

Section Passes.
Context (parse_RFC3339 : string -> option Time).

(** One pass over the archiving status: the primary's report, the Cluster's primary
    generation, the clock. *)
Record ArchivingPass := mkArchivingPass { ap_Status : option Report; ap_Generation : Z; ap_Now : Time }.

Definition pass_archiving (ca : ContinuousArchivingStatus) (p : ArchivingPass) : ContinuousArchivingStatus :=
  aggregateArchiving parse_RFC3339 (ap_Status p) (Some ca) (ap_Generation p) (ap_Now p).

(** The report of a pass that speaks for the archive. *)
Definition current_report (p : ArchivingPass) : option ArchivingReport :=
  match ap_Status p ≫= re_Archiving with
  | Some a => if archiveReportCurrent (Some a) (ap_Generation p) then Some a else None
  | None => None
  end.

(** The fields say what a report said. *)
Definition fields_of (f : ArchiveFields) (a : ArchivingReport) : Prop :=
  af_ForkGTIDs f = fst <$> wa_Forks a /\ af_OldestSegmentPosition f = wa_OldestSegmentPosition a /\
  af_DisownedGTIDs f = wa_DisownedGTIDs a /\ af_Gaps f = wa_Gaps a /\ af_CoveredGTIDSet f = wa_CoveredGTIDSet a.

Lemma note_forks_gtids forks acc : fst (foldl (note_fork parse_RFC3339) acc forks) = fst acc ++ (fst <$> forks).
Proof.
  revert acc. induction forks as [|f forks IH]; intros [gtids at_]; cbn; [by rewrite app_nil_r|].
  rewrite IH. cbn. by rewrite <- app_assoc.
Qed.

Lemma reported_fields_of a prior now : fields_of (reported_fields parse_RFC3339 a prior now) a.
Proof.
  unfold reported_fields. destruct (foldl _ _ _) as [forks at_] eqn:E.
  pose proof (note_forks_gtids (wa_Forks a) ([], None)) as Hf. rewrite E in Hf. cbn in Hf. by subst.
Qed.

Lemma pass_archiving_fields ca p :
  ca_Archive (pass_archiving ca p) =
  match current_report p with
  | Some a => reported_fields parse_RFC3339 a (Some ca) (ap_Now p)
  | None => ca_Archive ca
  end.
Proof.
  unfold pass_archiving, aggregateArchiving, current_report. destruct (ap_Status p ≫= re_Archiving) as [a|]; [|done]. cbn [ca_Archive].
  by destruct (archiveReportCurrent (Some a) (ap_Generation p)).
Qed.

Lemma passes_fields ps ca :
  match last (omap current_report ps) with
  | Some a => fields_of (ca_Archive (foldl pass_archiving ca ps)) a
  | None => ca_Archive (foldl pass_archiving ca ps) = ca_Archive ca
  end.
Proof.
  induction ps as [|p ps IH] using rev_ind; [done|]. rewrite foldl_app, omap_app. cbn [foldl].
  rewrite pass_archiving_fields. cbn [omap list_omap]. destruct (current_report p) as [a|].
  - rewrite last_snoc. apply reported_fields_of.
  - by rewrite app_nil_r.
Qed.

Lemma passes_gaps_since ps ca gaps since :
  gaps <> [] -> ca_Gaps ca = gaps -> ca_GapsSince ca = Some since ->
  (forall a, a ∈ omap current_report ps -> wa_Gaps a = gaps) ->
  ca_Gaps (foldl pass_archiving ca ps) = gaps /\ ca_GapsSince (foldl pass_archiving ca ps) = Some since.
Proof.
  intros Hne. revert ca. induction ps as [|p ps IH]; intros ca Hg Hs Ha; [done|]. cbn [foldl]. cbn in Ha. apply IH.
  - unfold ca_Gaps. rewrite pass_archiving_fields. destruct (current_report p) as [a|]; [|done].
    destruct (reported_fields_of a (Some ca) (ap_Now p)) as (_ & _ & _ & -> & _). apply Ha. by left.
  - unfold ca_GapsSince. rewrite pass_archiving_fields. destruct (current_report p) as [a|] eqn:Ea; [|done].
    unfold reported_fields. destruct (foldl _ _ _) as [forks at_]. cbn. rewrite Hs, Hg.
    assert (wa_Gaps a = gaps) as -> by (apply Ha; by left). destruct gaps; [done|]. by rewrite bool_decide_true.
  - intros a Hin. apply Ha. destruct (current_report p); [by right|done].
Qed.
End Passes.

(** ** The timeline *)

(** No instance follows itself. *)
Fixpoint alternates (t : list Epoch) : Prop :=
  match t with
  | a :: ((b :: _) as t') => eo_Instance a <> eo_Instance b /\ alternates t'
  | _ => True
  end.

Lemma alternates_snoc t e :
  alternates t -> (forall l, last t = Some l -> eo_Instance l <> eo_Instance e) -> alternates (t ++ [e]).
Proof.
  induction t as [|a t IH]; [done|]. intros Ht Hl. destruct t as [|b t]; cbn.
  - split; [by apply Hl|done].
  - destruct Ht as [Hab Ht]. split; [done|]. apply IH; [done|]. intros l Hlast. apply Hl. by rewrite last_cons_cons.
Qed.

Lemma alternates_drop n t : alternates t -> alternates (drop n t).
Proof.
  revert t. induction n as [|n IH]; intros t Ht; [done|]. destruct t as [|a [|b t]]; cbn; [done| |].
  - by destruct n.
  - destruct Ht as [_ Ht]. by apply IH.
Qed.

Lemma extended_alternates i now :
  alternates (ti_Recorded i) -> (ti_Recorded i = [] -> alternates (archivedTimeline (primaryArchiveReport (ti_primary i) (ti_Generation i)) now)) ->
  alternates (extended_timeline i now).
Proof.
  intros Hr Ha. unfold extended_timeline. set (t := match ti_Recorded i with [] => _ | x => x end).
  assert (alternates t) as Ht by (subst t; destruct (ti_Recorded i); [by apply Ha|done]).
  destruct (ti_primary i) as [status|]; [|done]. destruct (_ && _) eqn:E; [|done]. apply alternates_snoc; [done|].
  intros l Hl. rewrite Hl in E. boolp. done.
Qed.

Lemma extended_last i now status :
  ti_primary i = Some status -> writablePrimary status = true ->
  eo_Instance <$> last (extended_timeline i now) = Some (ti_PrimaryName i).
Proof.
  intros Hp Hw. unfold extended_timeline. rewrite Hp, Hw. set (t := match ti_Recorded i with [] => _ | x => x end).
  destruct (last t) as [e|] eqn:El; cbn.
  - destruct (String.eqb_spec (eo_Instance e) (ti_PrimaryName i)) as [Ee|]; cbn.
    + by rewrite El, <- Ee.
    + by rewrite last_snoc.
  - by rewrite last_snoc.
Qed.

Lemma last_drop {A} n (l : list A) : (n < length l)%nat -> last (drop n l) = last l.
Proof.
  revert l. induction n as [|n IH]; intros l Hn; [done|]. destruct l as [|a [|b l]]; cbn in *; [lia|lia|].
  change (last (drop n (b :: l)) = last (b :: l)). apply IH. cbn. lia.
Qed.

Lemma toEngineTimeline_drop n t : toEngineTimeline (drop n t) = drop n (toEngineTimeline t).
Proof. apply fmap_drop. Qed.

Lemma next_timeline i now :
  ti_MariaDB i = true -> ti_Replica i = false -> extended_timeline i now <> [] ->
  let pruned := PruneMariaDBTimeline (toEngineTimeline (extended_timeline i now)) (timelineReferences i) MariaDBTimelineCeiling in
  nextMariaDBTimeline i now =
    mkTimelineUpdate true (drop (pr_Dropped pruned) (extended_timeline i now)) (pr_Truncated pruned) (pr_PinnedBy pruned) /\
  (pr_Dropped pruned < length (extended_timeline i now))%nat /\
  toEngineTimeline (drop (pr_Dropped pruned) (extended_timeline i now)) = pr_Timeline pruned.
Proof.
  intros Hm Hr Hne pruned. destruct (Prune_drop (toEngineTimeline (extended_timeline i now)) (timelineReferences i) MariaDBTimelineCeiling)
    as (H1 & _ & H3). fold pruned in H1, H3. split_and!.
  - unfold nextMariaDBTimeline. rewrite Hm, Hr. cbn. fold pruned. by destruct (extended_timeline i now).
  - assert (pr_Timeline pruned <> []) as Hp by (apply H3; by destruct (extended_timeline i now)).
    rewrite H1 in Hp. apply Nat.nle_gt. intros Hle. apply Hp, drop_ge. unfold toEngineTimeline. by rewrite length_fmap.
  - by rewrite toEngineTimeline_drop, H1.
Qed.

Lemma references_lookup i name raw :
  name ∈ ti_InstanceNames i -> name <> archiveTimelineReference -> reference_of i name = Some raw ->
  timelineReferences i !! name = Some raw.
Proof.
  intros Hin Hne Hr. unfold timelineReferences.
  assert (forall l (m : gmap string string), (name ∈ l \/ m !! name = Some raw) ->
    foldl (fun refs n => match reference_of i n with Some p => <[n := p]> refs | None => refs end) m l !! name = Some raw) as Hf.
  { induction l as [|n l IH]; intros m Hor; cbn; [destruct Hor as [?%elem_of_nil|?]; done|]. apply IH.
    destruct (decide (n = name)) as [->|Hn].
    - rewrite Hr, lookup_insert_eq. by right.
    - destruct Hor as [[->|?]%elem_of_cons|Hm]; [done|by left|right].
      destruct (reference_of i n); [by rewrite lookup_insert_ne|done]. }
  specialize (Hf (ti_InstanceNames i) ∅ (or_introl Hin)).
  destruct (ti_Archiving i && _); [by rewrite lookup_insert_ne|done].
Qed.

(** ** Readiness *)

Section Ready.
Context (cluster : string) (instances : Z) (pvc_name : string -> string) (answer : string -> Answer).

(** The instance answered that it is ready, and is one of the desired ones. *)
Definition counts (ordinal : Z) : bool :=
  let a := answer (instanceName cluster ordinal) in
  match an_pod a, an_status a with
  | Ok (Some pod), Some r => (podReady pod || podRunning pod) && re_IsReady r && (ordinal <=? instances)
  | _, _ => false
  end.

Lemma poll_instance_counts s ordinal s' :
  poll_instance cluster instances pvc_name answer s ordinal = Ok s' ->
  se_ReadyInstances s' = se_ReadyInstances s + if counts ordinal then 1 else 0.
Proof.
  unfold poll_instance, counts. set (a := answer (instanceName cluster ordinal)). intros H.
  apply rbind_Ok in H as (resizing & _ & H). apply rbind_Ok in H as (pod & -> & H).
  assert (se_ReadyInstances (match resizing with Some true => see_resizing (pvc_name (instanceName cluster ordinal)) s | _ => s end)
    = se_ReadyInstances s) as Es by (by destruct resizing as [[]|]).
  destruct pod as [pod|]; [|injection H as <-; lia]. rewrite <- negb_orb in H.
  destruct (podReady pod || podRunning pod); cbn in H |- *.
  - destruct (an_status a) as [r|]; injection H as <-; cbn; [|lia].
    destruct (re_IsReady r), (ordinal <=? instances); cbn; lia.
  - injection H as <-. cbn. destruct (an_status a); lia.
Qed.

Lemma poll_counts l s s' :
  fold_result (poll_instance cluster instances pvc_name answer) s l = Ok s' ->
  se_ReadyInstances s' = se_ReadyInstances s + count counts l.
Proof.
  revert s. induction l as [|o l IH]; intros s; cbn; [intros [= <-]; unfold count; cbn; lia|].
  intros H. apply rbind_Ok in H as (s1 & H1 & H). apply IH in H. apply poll_instance_counts in H1. rewrite H, H1.
  unfold count. cbn. destruct (counts o); cbn [length]; lia.
Qed.

Lemma counts_out_of_range names :
  Forall (fun o => instances < o) names -> count counts names = 0.
Proof.
  unfold count. induction 1 as [|o l Ho _ IH]; [done|]. cbn.
  assert (counts o = false) as ->; [|done]. unfold counts. destruct (an_pod _) as [[pod|]|]; try done.
  destruct (an_status _); [|done]. replace (o <=? instances) with false by lia. by rewrite andb_false_r.
Qed.

Lemma outOfRange_ordinals current target :
  Forall (fun o => instances < o)
    ((fun name => default 0 (instanceOrdinal cluster name)) <$> outOfRangePrimaries cluster instances current target).
Proof.
  unfold outOfRangePrimaries.
  assert (forall l acc, Forall (fun name => instanceInRange cluster instances name = false /\ is_Some (instanceOrdinal cluster name)) acc ->
    Forall (fun name => instanceInRange cluster instances name = false /\ is_Some (instanceOrdinal cluster name))
      (foldl (fun names name => match instanceOrdinal cluster name with
        | Some _ => if instanceInRange cluster instances name || bool_decide (name ∈ names) then names else names ++ [name]
        | None => names end) acc l)) as Hf.
  { induction l as [|n l IH]; intros acc Ha; cbn; [done|]. apply IH. destruct (instanceOrdinal cluster n) eqn:E; [|done].
    destruct (_ || _) eqn:Eb; [done|]. boolp. apply Forall_app. split; [done|]. constructor; [by rewrite E|constructor]. }
  specialize (Hf [current; target] [] (List.Forall_nil _)). apply Forall_fmap. eapply Forall_impl; [exact Hf|].
  intros name [Hr [o Ho]]. cbn. unfold instanceInRange in Hr. rewrite Ho in *. cbn. by boolp.
Qed.

Lemma filter_full {A} (p : A -> bool) l : length (List.filter p l) = length l -> Forall (fun x => p x = true) l.
Proof.
  induction l as [|x l IH]; cbn; [by constructor|]. pose proof (filter_length_le p l) as Hle.
  destruct (p x) eqn:E; cbn; intros H; [|lia]. constructor; [done|]. apply IH. lia.
Qed.

(** When as many instances are ready as desired, each of them is. *)
Lemma all_ready current target s s' :
  fold_result (poll_instance cluster instances pvc_name answer) s
    (observedOrdinals cluster instances (outOfRangePrimaries cluster instances current target)) = Ok s' ->
  se_ReadyInstances s = 0 -> se_ReadyInstances s' = instances -> forall i, 1 <= i <= instances -> counts i = true.
Proof.
  intros Hp H0 Hn i Hi. apply poll_counts in Hp. unfold observedOrdinals, count in Hp.
  rewrite List.filter_app, length_app, Nat2Z.inj_add in Hp.
  fold (count counts ((fun name => default 0 (instanceOrdinal cluster name)) <$> outOfRangePrimaries cluster instances current target)) in Hp.
  rewrite counts_out_of_range in Hp by apply outOfRange_ordinals.
  assert (length (List.filter counts (ordinals instances)) = length (ordinals instances)) as Hl.
  { unfold ordinals in *. rewrite length_seqZ. lia. }
  apply filter_full in Hl. rewrite Forall_forall in Hl. apply Hl. apply elem_of_seqZ. lia.
Qed.
End Ready.

(** Only one branch says Ready. *)
Lemma phase_ready instances r o :
  fst (fst (fst (computeClusterPhase instances r o))) = PhaseReady ->
  oc_Ready o = true /\ isFullOutage r (tv_GroupReplication (oc_View o)) = false /\
  isQuorumLost r (tv_GroupReplication (oc_View o)) = false /\ failedBootstrapJobs (oc_BootstrapJobs o) = [] /\
  oc_MissingCredentialSecrets o = [].
Proof.
  unfold computeClusterPhase. destruct (isFullOutage r _); [done|]. destruct (isQuorumLost r _); [done|].
  destruct (negb _); [done|]. destruct (failedBootstrapJobs _) as [|j js]; [|by destruct (IsEstablished r)].
  destruct (negb (Nat.eqb (length (oc_MissingCredentialSecrets o)) 0)) eqn:Em; [done|].
  destruct (oc_Ready o).
  - intros _. boolp. apply Nat.eqb_eq, length_zero_iff_nil in Em. done.
  - destruct (_ || _); [done|]. destruct (_ && _); [done|]. destruct (IsEstablished r); [done|].
    destruct (oc_ReadyInstances o =? 0); [by destruct (oc_BootstrapJobs o)|done].
Qed.

Lemma reread_ready env s s' at_ : reread env s = (s', at_) -> se_ReadyInstances s' = se_ReadyInstances s.
Proof.
  unfold reread. destruct (String.eqb _ _); [by intros [= <- _]|]. destruct (en_reread env _) as [r|]; [|by intros [= <- _]].
  destruct (String.eqb _ _); [by intros [= <- _]|]. by intros [= <- _].
Qed.

(** Opens a successful pass. *)
Lemma observe_inv cluster instances pvc_name k env o :
  observe cluster instances pvc_name k env = Ok o ->
  exists s s' at_, fold_result (poll_instance cluster instances pvc_name (en_answer env)) (seen_zero (kn_PlanPrimary k))
      (observedOrdinals cluster instances (outOfRangePrimaries cluster instances (kn_CurrentPrimary k) (kn_TargetPrimary k))) = Ok s /\
    reread env s = (s', at_) /\ oc_Seen o = s' /\
    oc_ReadyInstances o = discount (se_StatusByInstance s') (tv_DivergedInstances (oc_View o)) (se_ReadyInstances s') /\
    exists o0, oc_Phase o = fst (fst (fst (computeClusterPhase instances (kn_Recorded k) o0))) /\ oc_View o0 = oc_View o /\
      oc_BootstrapJobs o0 = oc_BootstrapJobs o /\ oc_MissingCredentialSecrets o0 = oc_MissingCredentialSecrets o /\
      oc_Ready o0 = settled_ready instances (oc_ReadyInstances o) (tv_DivergedInstances (oc_View o))
        (outOfRangePrimary cluster instances (oc_PrimaryName o)).
Proof.
  unfold observe. intros H. apply rbind_Ok in H as (s & Hp & H). destruct (reread env s) as [s' at_] eqn:Er.
  apply rbind_Ok in H as (jobs & _ & H). apply rbind_Ok in H as (secrets & _ & H).
  match type of H with Ok (with_phase ?o1 (computeClusterPhase _ _ _)) = _ => set (o0 := o1) in H end.
  destruct (computeClusterPhase instances (kn_Recorded k) o0) as [[[phase reason] ready] progressing] eqn:Ec.
  injection H as <-. exists s, s', at_. split; [done|]. split; [done|]. split; [done|]. split; [done|].
  exists o0. rewrite Ec. done.
Qed.

(** ** Properties *)

(** C36: The Ready phase is justified: a pass that ends in it polled every desired
    instance and each answered that it is ready, no replica has diverged, the
    primary, if one is named, is one of the desired instances, a group has not lost its
    quorum ([isQuorumLost]), and neither a bootstrap nor a credential is broken. *)
Theorem ready_phase_is_justified cluster instances pvc_name k env o :
  observe cluster instances pvc_name k env = Ok o -> oc_Phase o = PhaseReady ->
  (forall i, 1 <= i <= instances -> exists pod r, an_pod (en_answer env (instanceName cluster i)) = Ok (Some pod) /\
     an_status (en_answer env (instanceName cluster i)) = Some r /\ re_IsReady r = true) /\
  tv_DivergedInstances (oc_View o) = [] /\
  (oc_PrimaryName o = "" \/ instanceInRange cluster instances (oc_PrimaryName o) = true) /\
  isQuorumLost (kn_Recorded k) (tv_GroupReplication (oc_View o)) = false /\
  failedBootstrapJobs (oc_BootstrapJobs o) = [] /\ oc_MissingCredentialSecrets o = [].
Proof.
  intros (s & s' & at_ & Hp & Hr & Hs & Hn & o0 & Hph & Hv & Hj & Hm & Hrd)%observe_inv Hready.
  rewrite Hready in Hph. symmetry in Hph. apply phase_ready in Hph as (H1 & _ & H2 & H3 & H4).
  rewrite Hrd in H1. unfold settled_ready in H1. apply andb_true_iff in H1 as [(Hrn & Hd)%andb_true_iff Ho]. boolp.
  apply Nat.eqb_eq, length_zero_iff_nil in Hd. rewrite Hd in Hn. cbn in Hn. rewrite (reread_ready _ _ _ _ Hr) in Hn. rewrite Hv, Hj, Hm in *. split_and!; try done.
  - intros i Hi. pose proof (all_ready _ _ _ _ _ _ _ _ Hp eq_refl ltac:(congruence) i Hi) as Hc. unfold counts in Hc.
    destruct (an_pod _) as [[pod|]|]; try done. destruct (an_status _) as [r|]; [|done]. boolp. by exists pod, r.
  - unfold outOfRangePrimary in *. destruct (String.eqb_spec (oc_PrimaryName o) ""); [by left|right].
    by destruct (instanceInRange _ _ _).
Qed.

(** What the status says of the archive is what the last current report said:
    over any sequence of passes the forks, the disowned set, the gaps, the coverage
    and the oldest position come from the last report whose fork check ran under the
    Cluster's primary generation, and stay as they were without one; and while such
    reports name the same gaps, the time since which they stand does not move. *)
Theorem archive_state_follows_current_reports parse_RFC3339 ps ca :
  (match last (omap current_report ps) with
   | Some a => fields_of (ca_Archive (foldl (pass_archiving parse_RFC3339) ca ps)) a
   | None => ca_Archive (foldl (pass_archiving parse_RFC3339) ca ps) = ca_Archive ca
   end) /\
  forall since, ca_Gaps ca <> [] -> ca_GapsSince ca = Some since ->
    (forall a, a ∈ omap current_report ps -> wa_Gaps a = ca_Gaps ca) ->
    ca_GapsSince (foldl (pass_archiving parse_RFC3339) ca ps) = Some since.
Proof.
  split; [apply passes_fields|]. intros since Hne Hs Ha. by eapply passes_gaps_since.
Qed.

(** C39: The recorded timeline follows the primary, when the stored one (or, when none
    is stored, the archived one) alternates: after a pass that saw a writable primary its last epoch names that primary, no instance follows itself, it keeps
    to the ceiling, and unless that forced history out, the author of everything at
    or past an instance's position is still recorded. *)
Theorem timeline_follows_the_primary i now :
  ti_MariaDB i = true -> ti_Replica i = false -> alternates (ti_Recorded i) ->
  (ti_Recorded i = [] -> alternates (archivedTimeline (primaryArchiveReport (ti_primary i) (ti_Generation i)) now)) ->
  let u := nextMariaDBTimeline i now in
  alternates (tu_Timeline u) /\ Z.of_nat (length (tu_Timeline u)) <= MariaDBTimelineCeiling /\
  (forall status, ti_primary i = Some status -> writablePrimary status = true ->
     eo_Instance <$> last (tu_Timeline u) = Some (ti_PrimaryName i)) /\
  (tu_Truncated u = false -> forall name raw p d e n a,
     name ∈ ti_InstanceNames i -> name <> archiveTimelineReference -> reference_of i name = Some raw ->
     parseMariaPos raw = Ok p -> p !! d = Some e -> me_seq e <= n ->
     authored (toEngineTimeline (extended_timeline i now)) d n a -> authored (toEngineTimeline (tu_Timeline u)) d n a).
Proof.
  intros Hm Hr Hrec Harch u. destruct (decide (extended_timeline i now = [])) as [He|He].
  - assert (u = mkTimelineUpdate true [] false []) as -> by (unfold u, nextMariaDBTimeline; rewrite Hm, Hr, He; done).
    split_and!; [done|done| |].
    + intros status Hp Hw. pose proof (extended_last i now status Hp Hw) as Hl. by rewrite He in Hl.
    + intros _ name raw p d e n a _ _ _ _ _ _. by rewrite He.
  - destruct (next_timeline i now Hm Hr He) as (Hu & Hlt & Ht). fold u in Hu.
    destruct (Prune_drop (toEngineTimeline (extended_timeline i now)) (timelineReferences i) MariaDBTimelineCeiling) as (_ & Hc & _).
    rewrite Hu. cbn [tu_Timeline tu_Truncated]. split_and!.
    + by apply alternates_drop, extended_alternates.
    + rewrite <- Ht in Hc. unfold toEngineTimeline in Hc. rewrite length_fmap in Hc. by apply Hc.
    + intros status Hp Hw. rewrite last_drop by done. by eapply extended_last.
    + intros Htr name raw p d e n a Hin Hne Href Hraw Hd Hn Ha. rewrite Ht. eapply Prune_authored; eauto.
      by apply references_lookup.
Qed.

(** ** Witnesses *)

Module StatusSample.
Definition report (role : string) (ready ro : bool) (gtid : string) (archiving : option ArchivingReport) : Report :=
  mkReport role ready "" ro ro gtid "0-1-100" 2 None "" None archiving.
Definition running : PodInfo := mkPodInfo "Running" [(None, 0)] [true] false false.
Definition answers (name : string) : Answer :=
  mkAnswer (Ok (Some false)) (Ok (Some running))
    (Some (report (if String.eqb name "prod-1" then "primary" else "replica") true (negb (String.eqb name "prod-1")) "0-1-120" None)).
Definition recorded : Recorded := mkRecorded false None 2 None.
Definition known : Known := mkKnown recorded true false false "prod-1" "prod-1" "prod-1" 1 [] ∅ None.
Definition environment (answer : string -> Answer) : Environment :=
  mkEnvironment answer (fun name => an_status (answer name)) 100 100 (fun _ => None) (fun _ _ _ _ => no_view) (Ok []) (Ok []).
Definition archiving (generation : Z) (forks : list (string * string)) (gaps : list string) : ArchivingReport :=
  mkArchivingReport "" "" "" 0 "" "" [] "" forks "2026-06-12T10:00:00Z" generation "" "" gaps "" [].
(** Server 1 led; server 2 is now the writable primary. *)
Definition promoted : TimelineInput :=
  mkTimelineInput true false [mkEpoch "prod-1" 1 "" 10] ∅ None false 2 "prod-2" ["prod-1"; "prod-2"]
    {["prod-2" := report "primary" true false "0-1-100" None]} {["prod-1" := "0-1-90"]}.
End StatusSample.

Lemma ready_phase_is_justified_witness :
  match observe "prod" 2 (fun n => n) StatusSample.known (StatusSample.environment StatusSample.answers) with
  | Ok o => oc_Phase o = PhaseReady /\ tv_DivergedInstances (oc_View o) = []
  | Err _ => False
  end.
Proof.
  destruct (observe "prod" 2 (fun n => n) StatusSample.known (StatusSample.environment StatusSample.answers)) as [o|e] eqn:E;
    [|vm_compute in E; discriminate].
  assert (oc_Phase o = PhaseReady) as Hp by (vm_compute in E; injection E as <-; reflexivity).
  split; [exact Hp|].
  exact (proj1 (proj2 (ready_phase_is_justified "prod" 2 (fun n => n) StatusSample.known (StatusSample.environment StatusSample.answers) o E Hp))).
Defined.

Lemma archive_state_follows_current_reports_witness :
  let fresh := mkArchivingPass (Some (StatusSample.report "primary" true false "" (Some (StatusSample.archiving 3 [("u:6-7", "")] ["u:4-5"])))) 3 50 in
  let stale := mkArchivingPass (Some (StatusSample.report "primary" true false "" (Some (StatusSample.archiving 2 [] [])))) 3 60 in
  let ca := mkContinuousArchivingStatus true "" "" None 0 "" None [] None (mkArchiveFields [] None "" "" ["u:4-5"] (Some 10) "") in
  af_ForkGTIDs (ca_Archive (foldl (pass_archiving (fun _ => None)) ca [fresh; stale])) = ["u:6-7"] /\
  ca_GapsSince (foldl (pass_archiving (fun _ => None)) ca [fresh; stale]) = Some 10.
Proof.
  intros fresh stale ca. split; [vm_compute; reflexivity|].
  apply (proj2 (archive_state_follows_current_reports (fun _ => None) [fresh; stale] ca) 10); [done|reflexivity|].
  intros a Ha. vm_compute in Ha. apply list_elem_of_singleton in Ha as ->. reflexivity.
Defined.

Lemma timeline_follows_the_primary_witness :
  let u := nextMariaDBTimeline StatusSample.promoted 20 in
  (eo_Instance <$> tu_Timeline u) = ["prod-1"; "prod-2"] /\ alternates (tu_Timeline u).
Proof.
  intros u. split; [vm_compute; reflexivity|].
  apply (timeline_follows_the_primary StatusSample.promoted 20); [reflexivity|reflexivity|exact I|discriminate].
Defined.

(** A diverged instance above the desired count was never counted as ready, and is
    taken out of the count all the same. *)
Lemma out_of_range_divergence_is_discounted :
  let view (_ : Seen) (_ : gmap string string) (_ : timelineUpdate) (_ : string) := mkTopologyView "prod-1" true ["prod-3"] [] None in
  let k := mkKnown StatusSample.recorded true false false "prod-1" "prod-1" "prod-3" 1 [] ∅ None in
  let env := mkEnvironment StatusSample.answers (fun _ => None) 100 100 (fun _ => None) view (Ok []) (Ok []) in
  (oc_ReadyInstances <$> match observe "prod" 2 (fun n => n) k env with Ok o => Some o | Err _ => None end) = Some 1.
Proof. by vm_compute. Qed.
