(* ===== verification/Backups.v ===== *)
(** * Base backups: dead branches, archive gaps and the choice for a recovery

    [internal/controller/cluster_dead_backups.go],
    [internal/controller/cluster_archive_gap.go] and
    [internal/controller/cluster_recovery_select.go]: which completed backups sit
    on a branch the surviving timeline left, how that reaches the archive index
    and the Backup objects, which gaps of the archive the newest backup is past,
    and which backup a recovery starts from.

    The archive index is written in the object-store model, with other writers
    and lost answers; the API server's answers are arguments.  The theorems show
    that a verdict names exactly the transactions that left the timeline, that (with
    conditional writes) a Backup is newly marked only once the index knows, and that
    the automatic choice of a backup, with the index at hand, passes over what the
    index knows to be dead. *)

From Stdlib Require Import ZArith Lia Bool Ascii String.
From stdpp Require Import base list strings gmap sorting.
From S2P Require Import Prelude GoStrings Gtid GtidText GtidModel MariaGtid MariaTimeline Cluster Status Instance.
From S2P Require Import Archive Forks GtidOps Replay ObjectStore Retention.

Local Open Scope Z_scope.
#[local] Arguments String.append : simpl nomatch.

(** ** Backups *)

Definition BackupPhaseCompleted : string := "completed".
Definition BackupMethodLogical : string := "logical".

(** [Backup], the fields read here; [bs_StatusMethod] is [status.method]. *)
Record Backup := mkBackup {
  bs_Name : string;
  bs_Cluster : string;
  bs_Method : string;
  bs_StatusMethod : string;
  bs_Phase : string;
  bs_EndGTID : string;
  bs_StoppedAt : option Time;
  bs_Conditions : list Condition;
  bs_Generation : Z
}.

Definition isLogicalBackup (b : Backup) : bool :=
  String.eqb (bs_Method b) BackupMethodLogical || String.eqb (bs_StatusMethod b) BackupMethodLogical.

(** ** Dead branches *)

Record deadBranch := mkDeadBranch { db_gtidSet : string; db_ranges : list ArchiveDisownedRange }.

Definition deadBranch_empty (d : deadBranch) : bool :=
  String.eqb (db_gtidSet d) "" && Nat.eqb (length (db_ranges d)) 0.

(** [After+1] wraps at 64 bits. *)
Definition range_String (r : ArchiveDisownedRange) : string :=
  let part (seq : Z) := FormatUint (dr_Domain r) +:+ "-" +:+ FormatUint (dr_Server r) +:+ "-" +:+ FormatUint seq in
  part (u64 (dr_After r + 1)) +:+ ".." +:+ part (dr_Through r).

Definition deadBranch_String (d : deadBranch) : string :=
  if negb (String.eqb (db_gtidSet d) "") then db_gtidSet d else Join (range_String <$> db_ranges d) ",".

(** The loop over the anchor's GTIDs. *)
Definition dead_range (timeline : MariaDBTimeline) (g : MariaDBGTID) : option ArchiveDisownedRange :=
  match Timeline_DeadAfter timeline g with
  | Some after => if after <? g_Seq g then Some (mkArchiveDisownedRange (g_Domain g) (g_Server g) after (g_Seq g)) else None
  | None => None
  end.

Definition judgeAnchor (anchor primaryGTID : string) (timeline : MariaDBTimeline) (mariadb : bool) : result deadBranch :=
  if negb mariadb then
    let? dead := DifferenceGTIDStrings anchor primaryGTID in Ok (mkDeadBranch dead [])
  else if Nat.eqb (length timeline) 0 then Ok (mkDeadBranch "" [])
  else
    let? gtids := ParseMariaDBPosition anchor in
    Ok (mkDeadBranch "" (omap (dead_range timeline) gtids)).

Definition set_Disowned (idx : ArchiveIndex) (d : option ArchiveDisowned) (updatedAt : Time) : ArchiveIndex :=
  mkArchiveIndex (ix_ClusterName idx) (ix_ClusterUID idx) (ix_Segments idx) (ix_CoveredGTIDSet idx) updatedAt
    (ix_ForkCheck idx) (ix_Generation idx) d (ix_ArchivedThrough idx) (ix_MariaDBTimeline idx).

(** The MySQL part of [foldDeadBranch]: the record and the changed flag. *)
Definition fold_gtidSet (out : ArchiveDisowned) (dead : string) : result (ArchiveDisowned * bool) :=
  if String.eqb dead "" then Ok (out, false)
  else
    let? union := UnionGTIDStrings [ds_GTIDSet out; dead] in
    let changed := match GTIDContains (ds_GTIDSet out) dead with Ok contains => negb contains | Err _ => true end in
    Ok (mkArchiveDisowned union (ds_Ranges out), changed).

Definition foldDeadBranch (dead : deadBranch) (idx : ArchiveIndex) (exists_ : bool) : IO (result (ArchiveIndex * bool)) :=
  if negb exists_ then ret (Ok (idx, false))
  else
    let out := default (mkArchiveDisowned "" []) (ix_Disowned idx) in
    match fold_gtidSet out (db_gtidSet dead) with
    | Err e => ret (Err e)
    | Ok (out, changed) =>
        let '(out, changed) := add_ranges out changed (db_ranges dead) in
        if changed : bool then do! at_ := now in ret (Ok (set_Disowned idx (Some out) at_, true))
        else ret (Ok (set_Disowned idx (Some out) (ix_UpdatedAt idx), false))
    end.

Section Record.
Context `{Versioning}.

(** [client] is the answer of [objectStoreClient]. *)
Definition recordDisowned (client : result unit) (key : string) (dead : deadBranch) : IO (result unit) :=
  match client with
  | Err e => ret (Err e)
  | Ok _ =>
      do! (_, r) := UpdateArchiveIndex key (fun (_ : unit) idx exists_ => do! m := foldDeadBranch dead idx exists_ in ret (tt, m)) tt in
      ret r
  end.
End Record.

(** What the operator asks of the API server, in order. *)
Inductive call :=
| PatchBackup (name : string) (conditions : list Condition)
| WarnCluster (reason message : string).

Definition ConditionDeadBranch : string := "DeadBranch".

Definition dead_message (dead : deadBranch) : string :=
  "The backup holds " +:+ deadBranch_String dead +:+ ", which the surviving timeline never executed: it cannot recover a time " +:+
  "or the latest point, only a targetGTID that names that branch".

Definition dead_condition (backup : Backup) (dead : deadBranch) : Condition :=
  if deadBranch_empty dead then
    mkCondition ConditionDeadBranch ConditionFalse "OnSurvivingTimeline"
      "The surviving timeline holds every transaction of the backup's anchor" (bs_Generation backup)
  else
    mkCondition ConditionDeadBranch ConditionTrue "AnchorHoldsDisownedTransactions" (dead_message dead) (bs_Generation backup).

Section Judge.
Context `{Versioning} `{StatusConditions}.

(** [patched] is the answer to the status patch of a Backup. *)
Definition setDeadBranchCondition (patched : string -> result unit) (backup : Backup) (dead : deadBranch) : list call :=
  let condition := dead_condition backup dead in
  let existing := FindStatusCondition (bs_Conditions backup) ConditionDeadBranch in
  let settled :=
    match existing with
    | None => deadBranch_empty dead
    | Some e => String.eqb (cd_Status e) (cd_Status condition) && String.eqb (cd_Message e) (cd_Message condition)
    end in
  if settled then []
  else
    PatchBackup (bs_Name backup) (SetStatusCondition (bs_Conditions backup) condition) ::
    match patched (bs_Name backup) with
    | Err _ => []
    | Ok _ =>
        if deadBranch_empty dead then []
        else [WarnCluster ConditionDeadBranch ("Backup " +:+ bs_Name backup +:+ " was taken on a dead branch: " +:+ cd_Message condition)]
    end.

(** [observedCluster], the fields the judgement reads. *)
Record observedBackups := mkObservedBackups {
  ob_PrimaryGTIDReadAt : Time;
  ob_PrimaryName : string;
  ob_StatusByInstance : gmap string (option Status);
  ob_GTIDByInstance : gmap string string;
  ob_Timeline : MariaDBTimeline
}.

Definition writableStatus (status : option Status) : bool :=
  match status with
  | Some s => match su_Role s with RolePrimary => true | _ => false end && negb (su_ReadOnly s) && negb (su_SuperReadOnly s)
  | None => false
  end.

(** The filter of the loop. *)
Definition judged (cluster : string) (readAt : Time) (b : Backup) : bool :=
  String.eqb (bs_Cluster b) cluster && String.eqb (bs_Phase b) BackupPhaseCompleted && negb (isLogicalBackup b) &&
  negb (String.eqb (bs_EndGTID b) "") &&
  match bs_StoppedAt b with Some t => t <? readAt | None => false end.

Definition verdict (primaryGTID : string) (timeline : MariaDBTimeline) (mariadb : bool) (b : Backup) : option (Backup * deadBranch) :=
  match judgeAnchor (bs_EndGTID b) primaryGTID timeline mariadb with
  | Ok dead => Some (b, dead)
  | Err _ => None
  end.

Definition newly_dead (v : Backup * deadBranch) : bool :=
  negb (deadBranch_empty (snd v)) && negb (IsStatusConditionTrue (bs_Conditions (fst v)) ConditionDeadBranch).

Definition merge_dead (vs : list (Backup * deadBranch)) : result deadBranch :=
  let? union := UnionGTIDStrings (db_gtidSet <$> (snd <$> vs)) in
  Ok (mkDeadBranch union (concat (db_ranges <$> (snd <$> vs)))).

(** [backups] is the answer to the listing; [key] is the key of the index. *)
Definition judgeBackups (spec : ClusterSpec) (cluster key : string) (observed : observedBackups)
    (backups : result (list Backup)) (client : result unit) (patched : string -> result unit) : IO (list call) :=
  let nothing := ret [] in
  if negb (IsArchivingEnabled spec) || IsZero (ob_PrimaryGTIDReadAt observed) then nothing
  else if negb (writableStatus (default None (ob_StatusByInstance observed !! ob_PrimaryName observed))) then nothing
  else
    let primaryGTID := default "" (ob_GTIDByInstance observed !! ob_PrimaryName observed) in
    if String.eqb primaryGTID "" then nothing
    else
      let mariadb := String.eqb (ResolvedFlavor spec) "mariadb" in
      match backups with
      | Err _ => nothing
      | Ok items =>
          let verdicts := omap (verdict primaryGTID (ob_Timeline observed) mariadb)
                            (List.filter (judged cluster (ob_PrimaryGTIDReadAt observed)) items) in
          let mark := concat ((fun v => setDeadBranchCondition patched (fst v) (snd v)) <$> verdicts) in
          match List.filter newly_dead verdicts with
          | [] => ret mark
          | newlyDead =>
              match merge_dead newlyDead with
              | Err _ => nothing
              | Ok merged =>
                  do! err := recordDisowned client key merged in
                  match err with Err _ => nothing | Ok _ => ret mark end
              end
          end
      end.
End Judge.

(** ** Archive gaps *)

(** [strings.Cut(rng, "..")]. *)
Fixpoint cut_dots (s : string) : option (string * string) :=
  match s with
  | String "." (String "." s') => Some ("", s')
  | String c s' => match cut_dots s' with Some (a, b) => Some (String c a, b) | None => None end
  | EmptyString => None
  end.

Definition anchorCoversGap (anchor gap : string) : bool :=
  if String.eqb anchor "" then false
  else
    let '(domain, rng, ok) := Cut gap "-" in
    if ok && no_char ":" gap then
      match ParseUint domain 32 with
      | None => false
      | Some d =>
          match cut_dots rng with
          | None => false
          | Some (_, last) =>
              match ParseUint last 64 with
              | None => false
              | Some through => through <=? MariaSeqForDomain anchor d
              end
          end
      end
    else match GTIDContains anchor gap with Ok contains => contains | Err _ => false end.

Definition openArchiveGaps (gaps : list string) (anchor : string) : list string :=
  List.filter (fun gap => negb (anchorCoversGap anchor gap)) gaps.

(** The loop of [newestPhysicalBackup]. *)
Definition newer_backup (cluster : string) (newest : option Backup) (b : Backup) : option Backup :=
  if String.eqb (bs_Cluster b) cluster && String.eqb (bs_Phase b) BackupPhaseCompleted && negb (isLogicalBackup b) then
    match bs_StoppedAt b, newest with
    | None, _ => newest
    | Some _, None => Some b
    | Some t, Some n => if default 0 (bs_StoppedAt n) <? t then Some b else newest
    end
  else newest.

Definition newestPhysicalBackup (cluster : string) (backups : result (list Backup)) : result (option Backup) :=
  let? items := backups in Ok (foldl (newer_backup cluster) None items).

Definition archiveGapGrace : Duration := gtidPersistInterval + 2 * 60 * 1000000000.

Definition archiveGapSettled (ca : ContinuousArchivingStatus) (now : Time) : bool :=
  match ca_GapsSince ca with None => true | Some since => archiveGapGrace <=? now - since end.

Definition ConditionArchiveGap : string := "ArchiveGap".

Section Gap.
Context `{StatusConditions}.

Definition gap_condition (status reason message : string) (generation : Z) : Condition :=
  mkCondition ConditionArchiveGap status reason message generation.

(** The conditions of the Cluster after the pass. *)
Definition applyArchiveGapCondition (spec : ClusterSpec) (cluster : string) (generation : Z) (conditions : list Condition)
    (ca : option ContinuousArchivingStatus) (backups : result (list Backup)) (now : Time) : list Condition :=
  if negb (IsArchivingEnabled spec) then RemoveStatusCondition conditions ConditionArchiveGap
  else
    match ca with
    | None => conditions
    | Some ca =>
        let set status reason message := SetStatusCondition conditions (gap_condition status reason message generation) in
        match ca_Gaps ca with
        | [] => set ConditionFalse "NoGap" "The binary-log archive holds every transaction after the newest base backup"
        | gaps =>
            match newestPhysicalBackup cluster backups with
            | Err _ => conditions
            | Ok backup =>
                let anchor := default "" (bs_EndGTID <$> backup) in
                let name := default "none" (bs_Name <$> backup) in
                match openArchiveGaps gaps anchor with
                | [] => set ConditionFalse "GapBehindNewestBackup"
                    ("The binary-log archive is missing " +:+ Join gaps "; " +:+ ", before the newest base backup (" +:+ name +:+
                     "): recovery to a point before that backup cannot cross them")
                | open =>
                    if negb (archiveGapSettled ca now) then
                      set ConditionFalse "GapPendingRepair"
                        ("The binary-log archive is missing " +:+ Join open "; " +:+
                         "; waiting for a former primary to ship it before taking a base backup")
                    else set ConditionTrue "TransactionsMissingFromArchive"
                        ("The binary-log archive is missing " +:+ Join open "; " +:+ ", which the newest base backup (" +:+ name +:+
                         ") does not hold: point-in-time recovery cannot cross them until a base backup taken after them completes")
                end
            end
        end
    end.

(** What [onArchiveGap] asks of the API server: an event, and the backup to create
    when the cluster has an object store, named after a digest of the gaps. *)
Inductive gap_call := WarnGap (message : string) | CreateGapBackup (name : string).

Definition ensureArchiveGapBackup (digest : string -> string) (spec : ClusterSpec) (cluster : string)
    (ca : option ContinuousArchivingStatus) : list gap_call :=
  match spec_Backup spec, ca with
  | Some bk, Some ca =>
      if bk_ObjectStore bk then
        [CreateGapBackup (cluster +:+ "-archive-gap-" +:+ substring 0 10 (digest (Join (ca_Gaps ca) ";")))]
      else []
  | _, _ => []
  end.

Definition onArchiveGap (digest : string -> string) (spec : ClusterSpec) (cluster : string)
    (ca : option ContinuousArchivingStatus) (conditions : list Condition) (wasGapped : bool) : list gap_call :=
  match FindStatusCondition conditions ConditionArchiveGap with
  | Some c =>
      if wasGapped || negb (String.eqb (cd_Status c) ConditionTrue) then []
      else WarnGap (cd_Message c) :: ensureArchiveGapBackup digest spec cluster ca
  | None => []
  end.
End Gap.

(** ** Choosing a backup to recover from *)

Record RecoveryTarget := mkRecoveryTarget {
  rt_TargetTime : string;
  rt_TargetGTID : string;
  rt_TargetImmediate : option bool
}.

Definition replaysBinlogs (target : option RecoveryTarget) : bool :=
  match target with Some t => negb (default false (rt_TargetImmediate t)) | None => false end.

(** The fork records of the segments, and the index's own. *)
Definition disowned_sets (index : ArchiveIndex) : list string :=
  match ix_Disowned index with Some d => [ds_GTIDSet d] | None => [] end ++
  omap (fun seg => fk_GTIDSet <$> sg_Fork seg) (ix_Segments index).

Definition segment_disowns (g : MariaDBGTID) (seg : ArchiveSegment) : bool :=
  match sg_Fork seg with
  | None => false
  | Some fork =>
      match fk_AfterSeq fork !! g_Domain g with
      | None => false
      | Some cut =>
          match ParseMariaDBPosition (sg_GTIDSet seg) with
          | Err _ => false
          | Ok position =>
              existsb (fun last => (g_Domain last =? g_Domain g) && (g_Server last =? g_Server g) && (cut <? g_Seq g)) position
          end
      end
  end.

Definition gtid_disowned (index : ArchiveIndex) (g : MariaDBGTID) : bool :=
  match ix_Disowned index with
  | Some d => existsb (fun r => Range_Holds r (g_Domain g) (g_Server g) (g_Seq g)) (ds_Ranges d)
  | None => false
  end || existsb (segment_disowns g) (ix_Segments index).

Definition anchorOnDeadBranch (anchor : string) (index : option ArchiveIndex) (mariadb : bool) : bool :=
  match index with
  | None => false
  | Some index =>
      if String.eqb anchor "" then false
      else if negb mariadb then
        match UnionGTIDStrings (disowned_sets index) with
        | Err _ => false
        | Ok all =>
            if String.eqb all "" then false
            else match IntersectsGTIDStrings anchor all with Ok held => held | Err _ => false end
        end
      else
        match ParseMariaDBPosition anchor with
        | Err _ => false
        | Ok gtids => existsb (gtid_disowned index) gtids
        end
  end.

Section Recovery.
(** [time.Parse(time.RFC3339, ...)]. *)
Context (parse_RFC3339 : string -> option Time).

Definition later_first (a b : BackupEntry) : bool := completed b <=? completed a.

Definition anchor_of (e : BackupEntry) : string := bu_AnchorGTID (be_Meta e).

(** The [switch] of the loop: whether an entry is skipped. *)
Definition skipped (targetTime : option Time) (targetGTID : string) (replays : bool) (index : option ArchiveIndex)
    (mariadb : bool) (entry : BackupEntry) : bool :=
  let anchor := anchor_of entry in
  if match targetTime with Some t => t <? completed entry | None => false end then true
  else if negb (String.eqb targetGTID "") && negb (String.eqb anchor "") then
    match (if mariadb then mariadbGTID_Contains else mysqlGTID_Contains) targetGTID anchor with
    | Ok contains => negb contains
    | Err _ => true
    end
  else replays && String.eqb targetGTID "" && anchorOnDeadBranch anchor index mariadb.

Definition target_time (target : option RecoveryTarget) : result (option Time) :=
  match target with
  | Some t =>
      if String.eqb (rt_TargetTime t) "" then Ok None
      else match parse_RFC3339 (rt_TargetTime t) with
           | Some at_ => Ok (Some at_)
           | None => Err (Errorf "invalid recovery targetTime")
           end
  | None => Ok None
  end.

Definition selectRecoveryBackup (entries : list BackupEntry) (target : option RecoveryTarget) (index : option ArchiveIndex)
    (mariadb : bool) : result BackupEntry :=
  match entries with
  | [] => Err (Errorf "no base backups found in object store")
  | _ =>
      let sorted := isort later_first entries in
      let? targetTime := target_time target in
      let targetGTID := default "" (rt_TargetGTID <$> target) in
      match List.find (fun e => negb (skipped targetTime targetGTID (replaysBinlogs target) index mariadb e)) sorted with
      | Some e => Ok e
      | None => Err (Errorf "no base backup can reach the recovery target")
      end
  end.

Definition checkNamedBackupTarget (backup : Backup) (target : option RecoveryTarget) : result unit :=
  match target, bs_StoppedAt backup with
  | Some t, Some stopped =>
      let? at_ := target_time target in
      match at_ with
      | Some at_ => if at_ <? stopped then Err (Errorf "recovery targetTime is before the backup completed") else Ok tt
      | None => Ok tt
      end
  | _, _ => Ok tt
  end.
End Recovery.

(** ** Verdicts *)

Lemma judgeAnchor_mysql anchor primary timeline dead :
  judgeAnchor anchor primary timeline false = Ok dead ->
  db_ranges dead = [] /\
  (forall t, mysql_holds (db_gtidSet dead) t <-> mysql_holds anchor t /\ ~ mysql_holds primary t) /\
  (deadBranch_empty dead = true <-> forall t, mysql_holds anchor t -> mysql_holds primary t).
Proof.
  unfold judgeAnchor. cbn. intros H. inv_result.
  match goal with H : DifferenceGTIDStrings _ _ = Ok _ |- _ => apply DifferenceGTIDStrings_spec in H as (A & B & D & HA & HB & -> & HD & Hw & Hin) end.
  cbn. assert (forall t, mysql_holds (GTIDSet_String D) t <-> mysql_holds anchor t /\ ~ mysql_holds primary t) as Ht.
  { intros t. by rewrite (mysql_holds_parsed _ _ t HA), (mysql_holds_parsed _ _ t HB), (mysql_holds_parsed _ _ t HD). }
  split_and!; [done|done|]. unfold deadBranch_empty. cbn. rewrite andb_true_r, String.eqb_eq.
  rewrite GTIDSet_String_empty by done. split.
  - intros -> t Ha. destruct (mysql_holds_dec primary t) as [?|Hp]; [done|].
    destruct (proj2 (Ht t) (conj Ha Hp)) as (S & HS & Hs). rewrite HD in HS. injection HS as <-. by destruct (gtid_in_empty (fst t) (snd t)).
  - intros Hs. apply set_wf_canonical; [by apply text_wf_set|by apply text_wf_set, text_wf_empty|].
    intros u n. pose proof (gtid_in_empty u n). split; [|done]. intros Hn. apply Hin in Hn as [Ha Hp].
    destruct Hp. apply (mysql_holds_parsed _ _ (u, n) HB), Hs. by apply (mysql_holds_parsed _ _ (u, n) HA).
Qed.

Lemma judgeAnchor_mariadb anchor primary timeline dead :
  judgeAnchor anchor primary timeline true = Ok dead ->
  db_gtidSet dead = "" /\
  (deadBranch_empty dead = false -> exists gtids, ParseMariaDBPosition anchor = Ok gtids /\
     db_ranges dead = omap (dead_range timeline) gtids).
Proof.
  unfold judgeAnchor. cbn. destruct (Nat.eqb_spec (length timeline) 0) as [E|E].
  - intros [= <-]. done.
  - intros H. inv_result. split; [done|]. intros _. eauto.
Qed.

Lemma dead_range_Some timeline g r :
  dead_range timeline g = Some r ->
  exists after, Timeline_DeadAfter timeline g = Some after /\ after < g_Seq g /\
    r = mkArchiveDisownedRange (g_Domain g) (g_Server g) after (g_Seq g).
Proof.
  unfold dead_range. destruct (Timeline_DeadAfter timeline g) as [after|]; [|done].
  destruct (Z.ltb_spec after (g_Seq g)); [|done]. intros [= <-]. eauto.
Qed.

Lemma dead_ranges_sound timeline gtids d s n :
  ranges_hold (omap (dead_range timeline) gtids) d s n ->
  ~ authored timeline d n s /\ exists g, g ∈ gtids /\ g_Domain g = d /\ g_Server g = s /\ n <= g_Seq g.
Proof.
  intros (r & (g & Hg & (after & Ha & Hlt & ->)%dead_range_Some)%list_elem_of_omap & Hh).
  apply Range_Holds_spec in Hh as (<- & <- & H1 & H2). cbn in *. apply DeadAfter_sound in Ha as [_ Hd].
  split; [apply Hd; lia|]. by exists g.
Qed.

(** ** Folding into the index *)

(** The index holds what a verdict found dead. *)
Definition records (i : ArchiveIndex) (dead : deadBranch) : Prop :=
  (forall t, mysql_holds (db_gtidSet dead) t -> mysql_holds (disowned_set (ix_Disowned i)) t) /\
  (forall d s n, ranges_hold (db_ranges dead) d s n -> ranges_hold (disowned_ranges (ix_Disowned i)) d s n).

(** Only the record grew. *)
Definition grows (old new : ArchiveIndex) : Prop :=
  new = set_Disowned old (ix_Disowned new) (ix_UpdatedAt new) /\
  (forall t, mysql_holds (disowned_set (ix_Disowned old)) t -> mysql_holds (disowned_set (ix_Disowned new)) t) /\
  (forall d s n, ranges_hold (disowned_ranges (ix_Disowned old)) d s n -> ranges_hold (disowned_ranges (ix_Disowned new)) d s n).

Lemma fold_gtidSet_spec out dead out' changed :
  fold_gtidSet out dead = Ok (out', changed) ->
  ds_Ranges out' = ds_Ranges out /\
  (forall t, mysql_holds (ds_GTIDSet out') t <-> mysql_holds (ds_GTIDSet out) t \/ mysql_holds dead t) /\
  (changed = false -> forall t, mysql_holds dead t -> mysql_holds (ds_GTIDSet out) t).
Proof.
  unfold fold_gtidSet. destruct (String.eqb_spec dead "") as [->|Hne].
  - intros [= <- <-]. split_and!; [done| |]; intros; pose proof (mysql_holds_empty t); tauto.
  - intros H. apply rbind_Ok in H as (u & Hu & [= <- <-]). cbn. split_and!; [done| |].
    + intros t. rewrite (mysql_holds_union _ _ t Hu). setoid_rewrite elem_of_cons. setoid_rewrite list_elem_of_singleton. naive_solver.
    + destruct (GTIDContains _ _) as [b|] eqn:Ec; [|done]. intros Hb t Ht. apply negb_false_iff in Hb as ->.
      unfold GTIDContains in Ec. inv_result.
      match goal with HA : ParseGTIDSet (ds_GTIDSet out) = Ok _, HB : ParseGTIDSet dead = Ok _ |- _ =>
        pose proof (mysql_subset _ _ _ _ HA HB) as Hsub end.
      apply Hsub; [|done]. by match goal with H : GTIDSet_Contains _ _ = true |- _ => rewrite H end.
Qed.

Lemma AddRange_same o r o' : Disowned_AddRange o r = (o', false) -> o' = o.
Proof.
  unfold Disowned_AddRange. destruct (_ <=? _); [by intros [= <-]|].
  destruct (add_range _ _) as [l g] eqn:E. intros [= <- ->]. apply add_range_false in E as ->. by destruct o.
Qed.

Lemma add_ranges_same rs o c o' : add_ranges o c rs = (o', false) -> o' = o /\ c = false.
Proof.
  unfold add_ranges. revert o c. induction rs as [|r rs IH]; intros o c; cbn; [by intros [= <- <-]|].
  destruct (Disowned_AddRange o r) as [o1 g1] eqn:E. intros [-> Hc]%IH. destruct g1; [done|].
  by apply AddRange_same in E as ->.
Qed.

Lemma foldDeadBranch_spec dead idx env w w' i changed :
  foldDeadBranch dead idx true env w = (w', Ok (i, changed)) ->
  grows idx i /\ records i dead /\ (changed = false -> records idx dead).
Proof.
  unfold foldDeadBranch. cbn. set (out := default _ _).
  assert (disowned_set (ix_Disowned idx) = ds_GTIDSet out /\ disowned_ranges (ix_Disowned idx) = ds_Ranges out) as [E1 E2]
    by (unfold out; by destruct (ix_Disowned idx)).
  destruct (fold_gtidSet out (db_gtidSet dead)) as [[out1 c1]|e] eqn:Ef; [|by intros [= <-]].
  apply fold_gtidSet_spec in Ef as (Hr & Hs & Hc).
  destruct (add_ranges out1 c1 (db_ranges dead)) as [out2 c2] eqn:Ea.
  pose proof (add_ranges_hold _ _ _ _ _ Ea) as [Hs2 Hr2].
  intros H. assert (exists at_, i = set_Disowned idx (Some out2) at_ /\ changed = c2) as (at_ & -> & ->).
  { destruct c2; [|injection H as _ <- <-; eauto]. inv_io. eauto. }
  unfold grows, records. cbn. rewrite E1, E2, Hs2. split_and!.
  - done.
  - intros t Ht. apply Hs. by left.
  - intros d s n Hh. apply Hr2. left. by rewrite Hr.
  - intros t Ht. apply Hs. by right.
  - intros d s n Hh. apply Hr2. by right.
  - intros ->. apply add_ranges_same in Ea as [-> ->]. split; [by apply Hc|].
    intros d s n Hh. rewrite <- Hr. apply Hr2. by right.
Qed.

Section Recorded.
Context `{Versioning}.

Definition dead_mutation (dead : deadBranch) (_ : unit) (idx : ArchiveIndex) (exists_ : bool)
  : IO (unit * result (ArchiveIndex * bool)) :=
  do! m := foldDeadBranch dead idx exists_ in ret (tt, m).

Lemma dead_mutation_quiet dead r i b : quiet (dead_mutation dead r i b).
Proof.
  apply quiet_bind; [|intros; apply quiet_ret]. unfold foldDeadBranch. destruct b; cbn; [|apply quiet_ret].
  destruct (fold_gtidSet _ _) as [[out c]|]; [|apply quiet_ret].
  destruct (add_ranges _ _ _) as [out' []]; [|apply quiet_ret]. apply quiet_bind; [apply quiet_ask|intros; apply quiet_ret].
Qed.

(** A write that replaces the index by one whose record grew, and nothing else. *)
Definition grown_write (key : string) (wr : write) : Prop :=
  wr_key wr = key /\ exists old i, wr_old wr = Some (OIndex old) /\ wr_new wr = OIndex i /\ grows old i.

Lemma dead_mutates dead env old r i wr :
  mutates (dead_mutation dead) (fun _ => True) env old r i wr ->
  match old with
  | None => wr = false
  | Some o => grows o i /\ records i dead /\ (wr = false -> records o dead)
  end.
Proof.
  intros (r0 & w & w' & _ & Hm). unfold dead_mutation in Hm. apply bind_inv in Hm as (w1 & m & Hf & Hr). inv_io.
  destruct old as [o|]; cbn in Hf; [by apply foldDeadBranch_spec in Hf|]. unfold foldDeadBranch in Hf. cbn in Hf. by injection Hf as _ _ <-.
Qed.

Lemma recordDisowned_spec client key dead env w w' r :
  e_conditional env = true -> w_unconditional w = false -> recordDisowned client key dead env w = (w', r) ->
  exists new, w_log w' = w_log w ++ new /\ Forall (grown_write key) new /\
    (r = Ok tt -> w_store w' !! key = None \/ exists i, w_store w' !! key = Some (OIndex i) /\ records i dead).
Proof.
  intros Hc Hu. unfold recordDisowned. destruct client as [u|e].
  2: { intros [= <- <-]. exists []. by rewrite app_nil_r. }
  intros Hr. apply bind_inv in Hr as (w1 & [[] r1] & Hup & Hr). inv_io. fold (dead_mutation dead) in Hup.
  apply (update_loop_atomic key _ (dead_mutation_quiet dead) (fun _ => True)) in Hup as (new & Hlog & Hnew & Hok); [|done..].
  exists new. split_and!; [done| |].
  - eapply Forall_impl; [exact Hnew|]. intros wr (Hk & old & r' & i & Ho & Hm & Hn). split; [done|].
    apply dead_mutates in Hm. destruct old as [o|]; [|done]. exists o, i. by destruct Hm as [? _].
  - intros E. destruct (Hok E) as (old & i & wr & Hm & Hf & Ht). apply dead_mutates in Hm. destruct old as [o|].
    + right. destruct Hm as (_ & Hi & Ho). destruct wr; [exists i; split; [by apply Ht|done]|exists o; split; [by apply Hf|by apply Ho]].
    + left. by apply Hf.
Qed.

Context `{StatusConditions}.

Lemma merge_records vs merged i v :
  merge_dead vs = Ok merged -> records i merged -> v ∈ vs -> records i (snd v).
Proof.
  unfold merge_dead. intros Hm [H1 H2] Hv. apply rbind_Ok in Hm as (u & Hu & [= <-]). cbn in *. split.
  - intros t Ht. apply H1, (mysql_holds_union _ _ t Hu). exists (db_gtidSet (snd v)). split; [|done].
    by apply list_elem_of_fmap_2, list_elem_of_fmap_2.
  - intros d s n (r & Hr & Hh). apply H2. exists r. split; [|done]. apply list_elem_of_In, in_concat.
    exists (db_ranges (snd v)). split; apply list_elem_of_In; [by apply list_elem_of_fmap_2, list_elem_of_fmap_2|done].
Qed.

Lemma setDeadBranchCondition_patch patched b dead name conds :
  PatchBackup name conds ∈ setDeadBranchCondition patched b dead ->
  name = bs_Name b /\ conds = SetStatusCondition (bs_Conditions b) (dead_condition b dead).
Proof.
  unfold setDeadBranchCondition. destruct (match FindStatusCondition _ _ with Some _ => _ | None => _ end).
  { by intros ?%elem_of_nil. }
  intros [[= -> ->]|Hin]%elem_of_cons; [done|]. destruct (patched (bs_Name b)); [|by apply elem_of_nil in Hin].
  destruct (deadBranch_empty dead); [by apply elem_of_nil in Hin|]. by apply list_elem_of_singleton in Hin.
Qed.

Lemma dead_condition_true b dead l :
  IsStatusConditionTrue (SetStatusCondition l (dead_condition b dead)) ConditionDeadBranch = negb (deadBranch_empty dead).
Proof.
  unfold IsStatusConditionTrue. assert (cd_Type (dead_condition b dead) = ConditionDeadBranch) as E
    by (unfold dead_condition; by destruct (deadBranch_empty dead)).
  rewrite <- E at 1. rewrite find_set. unfold dead_condition. by destruct (deadBranch_empty dead).
Qed.

(** A patch of the pass comes from the verdict on one of the judged Backups. *)
Lemma marks_of patched vs name conds :
  PatchBackup name conds ∈ concat ((fun v => setDeadBranchCondition patched (fst v) (snd v)) <$> vs) ->
  exists v, v ∈ vs /\ name = bs_Name (fst v) /\ conds = SetStatusCondition (bs_Conditions (fst v)) (dead_condition (fst v) (snd v)).
Proof.
  intros (l & (v & <- & Hv)%in_map_iff & Hp)%list_elem_of_In%in_concat. apply list_elem_of_In, setDeadBranchCondition_patch in Hp as [-> ->].
  exists v. split; [by apply list_elem_of_In|done].
Qed.
End Recorded.

(** ** The pass *)

Section Pass.
Context `{Versioning} `{StatusConditions}.
Context (spec : ClusterSpec) (cluster key : string) (observed : observedBackups) (items : list Backup).
Context (client : result unit) (patched : string -> result unit).

Definition primary_gtid : string := default "" (ob_GTIDByInstance observed !! ob_PrimaryName observed).
Definition on_mariadb : bool := String.eqb (ResolvedFlavor spec) "mariadb".

(** A Backup the pass may mark, and why. *)
Definition found_dead (b : Backup) (dead : deadBranch) : Prop :=
  b ∈ items /\ judged cluster (ob_PrimaryGTIDReadAt observed) b = true /\
  judgeAnchor (bs_EndGTID b) primary_gtid (ob_Timeline observed) on_mariadb = Ok dead /\ deadBranch_empty dead = false.

(** The index in the store holds what was found, or there is no index. *)
Definition known (st : Store) (dead : deadBranch) : Prop :=
  st !! key = None \/ exists i, st !! key = Some (OIndex i) /\ records i dead.

Lemma judgeBackups_spec env w w' calls :
  e_conditional env = true -> w_unconditional w = false ->
  judgeBackups spec cluster key observed (Ok items) client patched env w = (w', calls) ->
  (exists new, w_log w' = w_log w ++ new /\ Forall (grown_write key) new) /\
  forall name conds, PatchBackup name conds ∈ calls -> IsStatusConditionTrue conds ConditionDeadBranch = true ->
    exists b dead, bs_Name b = name /\ found_dead b dead /\
      (IsStatusConditionTrue (bs_Conditions b) ConditionDeadBranch = true \/ known (w_store w') dead).
Proof.
  intros Hc Hu. unfold judgeBackups. fold primary_gtid on_mariadb.
  assert (forall w'' calls', ret [] env w = (w'', calls') ->
    (exists new, w_log w'' = w_log w ++ new /\ Forall (grown_write key) new) /\
    forall name conds, PatchBackup name conds ∈ calls' -> IsStatusConditionTrue conds ConditionDeadBranch = true ->
    exists b dead, bs_Name b = name /\ found_dead b dead /\
      (IsStatusConditionTrue (bs_Conditions b) ConditionDeadBranch = true \/ known (w_store w'') dead)) as Hnone.
  { intros w'' calls' [= <- <-]. split; [exists []; by rewrite app_nil_r|]. by intros ? ? ?%elem_of_nil. }
  destruct (_ || _); [apply Hnone|]. destruct (negb _); [apply Hnone|]. destruct (String.eqb primary_gtid ""); [apply Hnone|].
  set (vs := omap _ _). assert (forall v, v ∈ vs -> deadBranch_empty (snd v) = false -> found_dead (fst v) (snd v)) as Hvs.
  { intros v (b & Hb & Hv)%list_elem_of_omap Hd. apply list_elem_of_In, filter_In in Hb as [Hb Hj].
    unfold verdict in Hv. destruct (judgeAnchor _ _ _ _) as [dead|] eqn:Ed; [|done]. injection Hv as <-.
    by split; [apply list_elem_of_In|]. }
  assert (forall st name conds, (forall v, v ∈ List.filter newly_dead vs -> known st (snd v)) ->
    PatchBackup name conds ∈ concat ((fun v => setDeadBranchCondition patched (fst v) (snd v)) <$> vs) ->
    IsStatusConditionTrue conds ConditionDeadBranch = true ->
    exists b dead, bs_Name b = name /\ found_dead b dead /\
      (IsStatusConditionTrue (bs_Conditions b) ConditionDeadBranch = true \/ known st dead)) as Hmark.
  { intros st name conds Hk (v & Hv & -> & ->)%marks_of Ht. rewrite dead_condition_true in Ht. boolp.
    exists (fst v), (snd v). split; [done|]. split; [by apply Hvs|].
    destruct (IsStatusConditionTrue (bs_Conditions (fst v)) ConditionDeadBranch) eqn:Em; [by left|right].
    apply Hk, list_elem_of_In, filter_In. split; [by apply list_elem_of_In|]. unfold newly_dead. by rewrite Ht, Em. }
  destruct (List.filter newly_dead vs) as [|v0 nd] eqn:En.
  { intros [= <- <-]. split; [exists []; by rewrite app_nil_r|]. intros name conds. apply Hmark. by intros ? ?%elem_of_nil. }
  rewrite <- En in *. destruct (merge_dead _) as [merged|] eqn:Em; [|apply Hnone].
  intros Hr. apply bind_inv in Hr as (w1 & err & Hrec & Hr).
  apply recordDisowned_spec in Hrec as (new & Hlog & Hnew & Hok); [|done..]. destruct err as [[]|].
  - inv_io. split; [by exists new|]. intros name conds. apply Hmark. intros v Hv.
    destruct (Hok eq_refl) as [?|(i & Hi & Hrec)]; [by left|right]. exists i. split; [done|]. by eapply merge_records.
  - inv_io. split; [by exists new|]. by intros ? ? ?%elem_of_nil.
Qed.
End Pass.

(** ** What the index knows keeps a recovery away *)

Lemma disowned_set_listed i t :
  mysql_holds (disowned_set (ix_Disowned i)) t -> exists s, s ∈ disowned_sets i /\ mysql_holds s t.
Proof.
  unfold disowned_set, disowned_sets. destruct (ix_Disowned i) as [d|]; cbn; intros Ht.
  - exists (ds_GTIDSet d). split; [by left|done].
  - by apply mysql_holds_empty in Ht.
Qed.

Lemma mysql_dead_anchor anchor primary timeline dead i :
  judgeAnchor anchor primary timeline false = Ok dead -> deadBranch_empty dead = false -> anchor <> "" ->
  records i dead -> Forall mysql_valid (disowned_sets i) -> anchorOnDeadBranch anchor (Some i) false = true.
Proof.
  intros Hj He Hne [Hrec _] Hval. pose proof (judgeAnchor_mysql _ _ _ _ Hj) as (_ & Hd & Hem).
  unfold judgeAnchor in Hj. cbn in Hj. inv_result.
  match goal with H : DifferenceGTIDStrings _ _ = Ok _ |- _ => apply DifferenceGTIDStrings_spec in H as (A & B & D & HA & HB & -> & HD & Hw & Hin) end.
  cbn in *. destruct (mysql_union_ok _ Hval) as (all & Hall & _ & Hu).
  assert (exists t, mysql_holds anchor t /\ mysql_holds all t) as ([u n] & Ha & Hl).
  { unfold deadBranch_empty in He. cbn in He. rewrite andb_true_r in He. boolp.
    destruct (decide (D = ∅)) as [->|HD0]; [by destruct He; apply GTIDSet_String_empty; [apply text_wf_empty|]|].
    destruct (gtid_witness D) as (u & n & Hn); [by apply text_wf_set|done|].
    exists (u, n). apply Hin in Hn as [HnA HnB]. split; [by apply (mysql_holds_parsed _ _ (u, n) HA)|].
    apply Hu, disowned_set_listed, Hrec, (mysql_holds_parsed _ _ (u, n) HD). by apply Hin. }
  unfold anchorOnDeadBranch. destruct (String.eqb_spec anchor ""); [done|]. cbn. rewrite Hall.
  destruct (String.eqb_spec all "") as [->|_]; [by apply mysql_holds_empty in Hl|].
  destruct Hl as (U & HU & HUn). unfold IntersectsGTIDStrings. rewrite HA, HU. cbn.
  destruct (IntersectsGTIDStrings anchor all) as [r|] eqn:Er.
  - unfold IntersectsGTIDStrings in Er. rewrite HA, HU in Er. cbn in Er. injection Er as Er. rewrite Er.
    destruct r; [done|]. exfalso.
    assert (IntersectsGTIDStrings anchor all = Ok false) as Hi by (unfold IntersectsGTIDStrings; rewrite HA, HU; cbn; by rewrite Er).
    apply IntersectsGTIDStrings_spec in Hi as (A' & U' & HA' & HU' & Hno). rewrite HA in HA'. rewrite HU in HU'. simplify_eq.
    destruct Hno as [Hno _]. eapply (Hno eq_refl u n); [|exact HUn]. by apply (mysql_holds_parsed _ _ (u, n) HA).
  - unfold IntersectsGTIDStrings in Er. rewrite HA, HU in Er. done.
Qed.

Lemma mariadb_dead_anchor anchor primary timeline dead i :
  judgeAnchor anchor primary timeline true = Ok dead -> deadBranch_empty dead = false -> anchor <> "" ->
  records i dead -> anchorOnDeadBranch anchor (Some i) true = true.
Proof.
  intros Hj He Hne [_ Hrec]. apply judgeAnchor_mariadb in Hj as [Hs Hr]. destruct (Hr He) as (gtids & Hp & Hd).
  assert (exists g r, g ∈ gtids /\ dead_range timeline g = Some r) as (g & r & Hg & Hgr).
  { unfold deadBranch_empty in He. rewrite Hs in He. cbn in He. destruct (db_ranges dead) as [|r l]; [done|].
    assert (r ∈ omap (dead_range timeline) gtids) as (g & Hg & Hgr)%list_elem_of_omap by (rewrite <- Hd; by left). eauto. }
  apply dead_range_Some in Hgr as Hgr'. destruct Hgr' as (after & _ & Hlt & ->).
  unfold anchorOnDeadBranch. destruct (String.eqb_spec anchor ""); [done|]. cbn. rewrite Hp.
  apply existsb_exists. exists g. split; [by apply list_elem_of_In|]. unfold gtid_disowned. apply orb_true_iff. left.
  destruct (Hrec (g_Domain g) (g_Server g) (g_Seq g)) as (x & Hx & Hh).
  { rewrite Hd. eexists. split; [apply list_elem_of_omap; by exists g|]. apply Range_Holds_spec. cbn. lia. }
  unfold disowned_ranges in Hx. destruct (ix_Disowned i) as [o|]; cbn in *; [|by apply elem_of_nil in Hx].
  apply existsb_exists. exists x. split; [by apply list_elem_of_In|done].
Qed.

(** ** The choice *)

Lemma later_first_total a b : later_first a b = false -> later_first b a = true.
Proof. unfold later_first. lia. Qed.

Lemma later_first_trans a b c : later_first a b = true -> later_first b c = true -> later_first a c = true.
Proof. unfold later_first. lia. Qed.

Lemma find_first {A} (p : A -> bool) l x :
  List.find p l = Some x -> exists front rest, l = front ++ x :: rest /\ p x = true /\ Forall (fun y => p y = false) front.
Proof.
  induction l as [|y l IH]; cbn; [done|]. destruct (p y) eqn:E.
  - intros [= <-]. exists [], l. split_and!; [done|done|constructor].
  - intros (front & rest & -> & Hx & Hf)%IH. exists (y :: front), rest. split_and!; [done|done|by constructor].
Qed.

(** A later entry than the one chosen was skipped. *)
Lemma select_newest p (entries : list BackupEntry) e :
  List.find p (isort later_first entries) = Some e ->
  e ∈ entries /\ p e = true /\ forall e', e' ∈ entries -> completed e < completed e' -> p e' = false.
Proof.
  intros (front & rest & E & Hp & Hf)%find_first.
  assert (forall x, x ∈ entries <-> x ∈ front ++ e :: rest) as Hin.
  { intros x. rewrite <- E. by rewrite isort_perm. }
  split_and!; [apply Hin, elem_of_app; right; by left|done|]. intros e' He' Hlt. apply Hin, elem_of_app in He' as [He'|He'].
  - rewrite Forall_forall in Hf. by apply Hf.
  - apply elem_of_cons in He' as [->|He']; [lia|]. exfalso.
    assert (StronglySorted (fun a b => later_first a b = true) (front ++ e :: rest)) as Hs.
    { rewrite <- E. apply isort_sorted; [exact later_first_total|exact later_first_trans]. }
    assert (forall l, StronglySorted (fun a b => later_first a b = true) (l ++ e :: rest) -> later_first e e' = true) as Hl.
    { induction l as [|y l IH]; cbn; inversion 1; subst; [|by apply IH].
      match goal with H : Forall _ rest |- _ => rewrite Forall_forall in H; by apply H end. }
    apply Hl in Hs. unfold later_first in Hs. lia.
Qed.

Section Choice.
Context (parse_RFC3339 : string -> option Time) (entries : list BackupEntry) (target : option RecoveryTarget).
Context (index : option ArchiveIndex) (mariadb : bool).

Definition wanted_gtid : string := default "" (rt_TargetGTID <$> target).

Lemma selectRecoveryBackup_inv e :
  selectRecoveryBackup parse_RFC3339 entries target index mariadb = Ok e ->
  exists targetTime, target_time parse_RFC3339 target = Ok targetTime /\
    let skip := skipped targetTime wanted_gtid (replaysBinlogs target) index mariadb in
    e ∈ entries /\ skip e = false /\ forall e', e' ∈ entries -> completed e < completed e' -> skip e' = true.
Proof.
  unfold selectRecoveryBackup. intros Hs. assert (entries <> []) as Hne by (by destruct entries).
  assert ((let? targetTime := target_time parse_RFC3339 target in
    match List.find (fun e => negb (skipped targetTime wanted_gtid (replaysBinlogs target) index mariadb e)) (isort later_first entries) with
    | Some e => Ok e | None => Err (Errorf "no base backup can reach the recovery target") end) = Ok e) as H
    by (by destruct entries).
  apply rbind_Ok in H as (tt_ & Ht & H). exists tt_. split; [done|].
  destruct (List.find _ _) as [x|] eqn:Ef; [|done]. injection H as ->.
  apply select_newest in Ef as (H1 & H2 & H3). cbn. boolp. split_and!; [done|done|].
  intros e' He' Hlt. apply H3 in Hlt; [|done]. by boolp.
Qed.

Lemma skipped_false targetTime e :
  skipped targetTime wanted_gtid (replaysBinlogs target) index mariadb e = false ->
  (forall t, targetTime = Some t -> completed e <= t) /\
  (wanted_gtid <> "" -> anchor_of e <> "" ->
     (if mariadb then mariadbGTID_Contains else mysqlGTID_Contains) wanted_gtid (anchor_of e) = Ok true) /\
  (replaysBinlogs target = true -> wanted_gtid = "" -> anchorOnDeadBranch (anchor_of e) index mariadb = false).
Proof.
  unfold skipped. intros Hs. destruct (match targetTime with Some t => _ | None => _ end) eqn:Et; [done|].
  split; [intros t ->; by boolp|]. destruct (String.eqb_spec wanted_gtid "") as [Ew|Ew]; cbn in Hs.
  - rewrite andb_true_r in Hs. split; [done|]. intros Hr _. by rewrite Hr in Hs.
  - split; [|done]. intros _ Hne. destruct (String.eqb_spec (anchor_of e) ""); [done|]. cbn in Hs.
    destruct ((if mariadb then _ else _) wanted_gtid (anchor_of e)) as [[]|]; done.
Qed.
End Choice.

(** ** Properties *)

(** A verdict on a base backup is exact.  On MySQL it names the transactions of
    the backup's anchor that the primary has not executed, and is empty only when
    there are none; on MariaDB it names only transactions of the anchor that the
    surviving timeline gives to another author. *)
Theorem dead_verdicts_are_exact anchor primaryGTID timeline mariadb dead :
  judgeAnchor anchor primaryGTID timeline mariadb = Ok dead ->
  (mariadb = false ->
     (forall t, mysql_holds (db_gtidSet dead) t <-> mysql_holds anchor t /\ ~ mysql_holds primaryGTID t) /\
     (deadBranch_empty dead = true <-> forall t, mysql_holds anchor t -> mysql_holds primaryGTID t)) /\
  (mariadb = true -> forall d s n, ranges_hold (db_ranges dead) d s n ->
     ~ authored timeline d n s /\
     exists gtids g, ParseMariaDBPosition anchor = Ok gtids /\ g ∈ gtids /\ g_Domain g = d /\ g_Server g = s /\ n <= g_Seq g).
Proof.
  intros Hj. split; intros ->; [by apply judgeAnchor_mysql in Hj as (_ & ? & ?)|]. intros d s n Hh.
  apply judgeAnchor_mariadb in Hj as [_ Hr]. destruct (deadBranch_empty dead) eqn:Ee.
  - unfold deadBranch_empty in Ee. boolp. apply Nat.eqb_eq, length_zero_iff_nil in H0. rewrite H0 in Hh.
    by destruct Hh as (r & ?%elem_of_nil & _).
  - destruct (Hr eq_refl) as (gtids & Hp & Hd). rewrite Hd in Hh. apply dead_ranges_sound in Hh as (Ha & g & Hg).
    split; [done|]. by exists gtids, g.
Qed.

(** C34: On an endpoint that honours conditional writes, a Backup that was not yet
    marked is marked as taken on a dead branch only when its judged anchor holds
    dead transactions, and not before the archive index in the store, if the store
    has one, records them: however the other writers interleave and whichever
    requests fail.  A Backup that was already marked may be patched again without
    a new look at the index.  What the pass writes to the index only grows its
    record. *)
Theorem backups_are_marked_after_the_index `{Versioning} `{StatusConditions} spec cluster key observed items client patched env w w' calls :
  e_conditional env = true -> w_unconditional w = false ->
  judgeBackups spec cluster key observed (Ok items) client patched env w = (w', calls) ->
  (exists new, w_log w' = w_log w ++ new /\ Forall (grown_write key) new) /\
  forall name conds, PatchBackup name conds ∈ calls -> IsStatusConditionTrue conds ConditionDeadBranch = true ->
    exists b dead, bs_Name b = name /\ found_dead spec cluster observed items b dead /\
      (IsStatusConditionTrue (bs_Conditions b) ConditionDeadBranch = true \/ known key (w_store w') dead).
Proof. apply judgeBackups_spec. Qed.

(** C35: The automatic choice of a base backup, made with the archive index in hand,
    is the newest backup that can reach the target: it completed by the target time,
    its anchor, when known, is within the target GTID set, and every later backup
    fails one of these or sits on a dead branch.  For a target that is a time or the
    latest point, the chosen backup is none with a known anchor whose dead
    transactions the index records (in sets that parse).  A recovery that names its
    backup does not make this choice, and one that could not read the index makes
    it without the last check. *)
Theorem recovery_choice_is_sound parse_RFC3339 entries target i mariadb e :
  selectRecoveryBackup parse_RFC3339 entries target (Some i) mariadb = Ok e ->
  e ∈ entries /\
  (exists targetTime, target_time parse_RFC3339 target = Ok targetTime /\
     (forall t, targetTime = Some t -> completed e <= t) /\
     forall e', e' ∈ entries -> completed e < completed e' ->
       skipped targetTime (wanted_gtid target) (replaysBinlogs target) (Some i) mariadb e' = true) /\
  (wanted_gtid target <> "" -> anchor_of e <> "" ->
     (if mariadb then mariadbGTID_Contains else mysqlGTID_Contains) (wanted_gtid target) (anchor_of e) = Ok true) /\
  (replaysBinlogs target = true -> wanted_gtid target = "" -> anchor_of e <> "" ->
     forall primaryGTID timeline dead, judgeAnchor (anchor_of e) primaryGTID timeline mariadb = Ok dead ->
       records i dead -> (mariadb = false -> Forall mysql_valid (disowned_sets i)) -> deadBranch_empty dead = true).
Proof.
  intros (targetTime & Ht & Hin & Hs & Hlater)%selectRecoveryBackup_inv.
  apply skipped_false in Hs as (H1 & H2 & H3). split_and!; [done|by exists targetTime|done|].
  intros Hr Hw Hne primaryGTID timeline dead Hj Hrec Hval. specialize (H3 Hr Hw).
  destruct (deadBranch_empty dead) eqn:Ee; [done|]. exfalso. destruct mariadb.
  - by rewrite (mariadb_dead_anchor _ _ _ _ _ Hj Ee Hne Hrec) in H3.
  - by rewrite (mysql_dead_anchor _ _ _ _ _ Hj Ee Hne Hrec (Hval eq_refl)) in H3.
Qed.

(** ** The gap condition *)

Definition eligible (cluster : string) (b : Backup) : bool :=
  String.eqb (bs_Cluster b) cluster && String.eqb (bs_Phase b) BackupPhaseCompleted && negb (isLogicalBackup b) &&
  bool_decide (is_Some (bs_StoppedAt b)).
Definition stopped (b : Backup) : Time := default 0 (bs_StoppedAt b).

Lemma newer_backup_eq cluster newest b :
  newer_backup cluster newest b =
  if eligible cluster b && match newest with Some n => stopped n <? stopped b | None => true end then Some b else newest.
Proof.
  unfold newer_backup, eligible, stopped. destruct (_ && _ && _); [|done]. cbn.
  destruct (bs_StoppedAt b) as [t|]; destruct newest; cbn; try done. 
Qed.

(** The newest physical backup: none of the others stopped later. *)
Lemma newest_spec cluster items newest :
  (forall n, newest = Some n -> eligible cluster n = true) ->
  match foldl (newer_backup cluster) newest items with
  | Some b => (newest = Some b \/ b ∈ items) /\ eligible cluster b = true /\
      (forall n, newest = Some n -> stopped n <= stopped b) /\
      forall b', b' ∈ items -> eligible cluster b' = true -> stopped b' <= stopped b
  | None => newest = None /\ forall b', b' ∈ items -> eligible cluster b' = false
  end.
Proof.
  revert newest. induction items as [|b items IH]; intros newest Hn; cbn [foldl].
  - destruct newest as [n|]; [|split; [done|by intros ? ?%elem_of_nil]].
    split_and!; [by left|by apply Hn|by intros ? [= ->]|by intros ? ?%elem_of_nil].
  - specialize (IH (newer_backup cluster newest b)). rewrite newer_backup_eq in *.
    destruct (eligible cluster b) eqn:Eb; cbn in *.
    + destruct (match newest with Some n => stopped n <? stopped b | None => true end) eqn:El.
      * specialize (IH ltac:(by intros ? [= <-])). destruct (foldl _ _ _) as [x|]; [|by destruct IH].
        destruct IH as (H1 & H2 & H3 & H4). specialize (H3 b eq_refl). split_and!; [|done| |].
        -- destruct H1 as [[= <-]|?]; right; [by left|by right].
        -- intros n ->. boolp. lia.
        -- intros b' [->|?]%elem_of_cons ?; [done|by apply H4].
      * destruct newest as [n|]; [|done]. boolp. specialize (IH Hn). destruct (foldl _ _ _) as [x|]; [|by destruct IH].
        destruct IH as (H1 & H2 & H3 & H4). specialize (H3 n eq_refl). split_and!; [|done| |].
        -- destruct H1 as [?|?]; [by left|right; by right].
        -- by intros ? [= <-].
        -- intros b' [->|?]%elem_of_cons ?; [lia|by apply H4].
    + specialize (IH Hn). destruct (foldl _ _ _) as [x|].
      * destruct IH as (H1 & H2 & H3 & H4). split_and!; [|done|done|].
        -- destruct H1 as [?|?]; [by left|right; by right].
        -- intros b' [->|?]%elem_of_cons ?; [congruence|by apply H4].
      * destruct IH as [-> IH]. split; [done|]. by intros b' [->|?]%elem_of_cons; [|apply IH].
Qed.

(** A MySQL gap is covered exactly when the anchor holds all of it. *)
Lemma anchorCoversGap_mysql anchor gap :
  no_char ":" gap = false -> mysql_valid anchor -> mysql_valid gap ->
  anchorCoversGap anchor gap = true <-> anchor <> "" /\ forall t, mysql_holds gap t -> mysql_holds anchor t.
Proof.
  intros Hg (A & HA) (G & HG). unfold anchorCoversGap. destruct (String.eqb_spec anchor ""); [by split; [|intros []]|].
  destruct (Cut gap "-") as [[domain rng] ok]. rewrite Hg, andb_false_r. unfold GTIDContains. rewrite HA, HG. cbn.
  rewrite (mysql_subset _ _ _ _ HA HG). tauto.
Qed.

Section GapCondition.
Context `{StatusConditions}.

(** With archiving on, gaps reported and the Backups listed, the condition is True
    exactly when a gap the newest backup is not past has stood for the grace. *)
Lemma gap_condition_spec spec cluster generation conditions ca items now :
  IsArchivingEnabled spec = true -> ca_Gaps ca <> [] ->
  let anchor := default "" (bs_EndGTID <$> foldl (newer_backup cluster) None items) in
  IsStatusConditionTrue (applyArchiveGapCondition spec cluster generation conditions (Some ca) (Ok items) now) ConditionArchiveGap = true <->
  (exists gap, gap ∈ ca_Gaps ca /\ anchorCoversGap anchor gap = false) /\ archiveGapSettled ca now = true.
Proof.
  intros Ha Hg anchor. unfold applyArchiveGapCondition, newestPhysicalBackup. rewrite Ha. cbn [negb rbind].
  destruct (ca_Gaps ca) as [|g0 gs] eqn:Eg; [done|]. fold anchor. rewrite <- Eg.
  assert ((exists gap, gap ∈ ca_Gaps ca /\ anchorCoversGap anchor gap = false) <-> openArchiveGaps (ca_Gaps ca) anchor <> []) as ->.
  { unfold openArchiveGaps. split.
    - intros (gap & Hin & Hgap) E. assert (gap ∈ @nil string) as []%elem_of_nil. rewrite <- E.
      apply list_elem_of_In, filter_In. split; [by apply list_elem_of_In|by rewrite Hgap].
    - destruct (List.filter _ _) as [|x l] eqn:E; [done|]. intros _. exists x.
      assert (In x (List.filter (fun gap => negb (anchorCoversGap anchor gap)) (ca_Gaps ca))) as [Hi Hx]%filter_In
        by (rewrite E; by left). boolp. split; [by apply list_elem_of_In|done]. }
  unfold IsStatusConditionTrue.
  assert (forall status reason message, FindStatusCondition (SetStatusCondition conditions (gap_condition status reason message generation)) ConditionArchiveGap
    = Some (gap_condition status reason message generation)) as Hf by (intros; apply find_set).
  destruct (openArchiveGaps (ca_Gaps ca) anchor) as [|o os]; [rewrite Hf; cbn; split; [done|by intros [? _]]|].
  destruct (archiveGapSettled ca now); cbn [negb]; rewrite Hf; cbn; naive_solver.
Qed.
End GapCondition.

(** ** Witnesses *)

Module BackupSample.
(** Conditions as a list with one entry of each type. *)
Fixpoint set_condition (l : list Condition) (c : Condition) : list Condition :=
  match l with
  | [] => [c]
  | x :: l' => if String.eqb (cd_Type x) (cd_Type c) then c :: l' else x :: set_condition l' c
  end.
Definition find_condition (l : list Condition) (t : string) : option Condition :=
  List.find (fun c => String.eqb (cd_Type c) t) l.
Definition remove_condition (l : list Condition) (t : string) : list Condition :=
  List.filter (fun c => negb (String.eqb (cd_Type c) t)) l.

#[local] Program Instance conditions : StatusConditions := {|
  FindStatusCondition := find_condition;
  SetStatusCondition := set_condition;
  RemoveStatusCondition := remove_condition
|}.
Next Obligation.
  intros l c. unfold find_condition. induction l as [|x l IH]; cbn; [by rewrite String.eqb_refl|].
  destruct (String.eqb (cd_Type x) (cd_Type c)) eqn:E; cbn; [by rewrite String.eqb_refl|by rewrite E].
Qed.
Next Obligation.
  intros l c t Hne. unfold find_condition. induction l as [|x l IH]; cbn.
  - destruct (String.eqb_spec (cd_Type c) t); [congruence|done].
  - destruct (String.eqb_spec (cd_Type x) (cd_Type c)) as [E|E]; cbn.
    + rewrite E. destruct (String.eqb_spec (cd_Type c) t); [congruence|done].
    + by rewrite IH.
Qed.
Next Obligation.
  intros l t. unfold find_condition, remove_condition. induction l as [|x l IH]; cbn; [done|].
  destruct (String.eqb (cd_Type x) t) eqn:E; cbn; [done|by rewrite E].
Qed.
Next Obligation.
  intros l t t' Hne. unfold find_condition, remove_condition. induction l as [|x l IH]; cbn; [done|].
  destruct (String.eqb_spec (cd_Type x) t) as [->|E]; cbn.
  - destruct (String.eqb_spec t t'); [congruence|done].
  - by rewrite IH.
Qed.

Definition spec : ClusterSpec := mkClusterSpec None None None None 0 0 false "mysql" (Some (mkBackupSpec true (Some true))).
Definition uuid : string := "3e11fa47-71ca-11e1-9e33-c80aa9429562".
Definition status : Status := mkStatus RolePrimary false false "" None None.
Definition observed : observedBackups :=
  mkObservedBackups 100 "prod-1" {["prod-1" := Some status]} {["prod-1" := uuid +:+ ":1-5"]} [].
Definition backup (name : string) (stopped : Time) (anchor : string) (marks : list Condition) : Backup :=
  mkBackup name "prod" "xtrabackup" "xtrabackup" "completed" anchor (Some stopped) marks 1.
Definition ahead : Backup := backup "ahead" 50 (uuid +:+ ":1-7") [].
Definition behind : Backup := backup "behind" 40 (uuid +:+ ":1-3") [].
Definition store : World := mkWorld {["index" := OIndex ArchiveIndex_zero]} 0 [] false.
Definition run : World * list call :=
  judgeBackups (H := ContentTags.tags) spec "prod" "index" observed (Ok [behind; ahead]) (Ok tt) (fun _ => Ok tt) Race.alone store.
Definition entry (id : string) (at_ : Time) (anchor : string) : BackupEntry :=
  mkBackupEntry id (mkBackupMetadata id "prod" "" id "prod-1" "xtrabackup" "" true 0 "" anchor "" at_ at_).
Definition known_index : ArchiveIndex := set_Disowned ArchiveIndex_zero (Some (mkArchiveDisowned (uuid +:+ ":6-7") [])) 0.
Definition latest_point : option RecoveryTarget := Some (mkRecoveryTarget "" "" None).
End BackupSample.

#[local] Existing Instance BackupSample.conditions.

Lemma dead_verdicts_are_exact_witness :
  let anchor := BackupSample.uuid +:+ ":1-7" in let primary := BackupSample.uuid +:+ ":1-5" in
  judgeAnchor anchor primary [] false = Ok (mkDeadBranch (BackupSample.uuid +:+ ":6-7") []) /\
  forall t, mysql_holds (BackupSample.uuid +:+ ":6-7") t <-> mysql_holds anchor t /\ ~ mysql_holds primary t.
Proof.
  intros anchor primary. split; [vm_compute; reflexivity|].
  destruct (dead_verdicts_are_exact anchor primary [] false (mkDeadBranch (BackupSample.uuid +:+ ":6-7") [])) as [H _];
    [vm_compute; reflexivity|]. by destruct (H eq_refl) as [Ht _].
Defined.

Lemma backups_are_marked_after_the_index_witness :
  map (fun c => match c with PatchBackup name _ => name | WarnCluster r _ => r end) (snd BackupSample.run) = ["ahead"; "DeadBranch"] /\
  forall name conds, PatchBackup name conds ∈ snd BackupSample.run -> IsStatusConditionTrue conds ConditionDeadBranch = true ->
    exists b dead, bs_Name b = name /\
      found_dead BackupSample.spec "prod" BackupSample.observed [BackupSample.behind; BackupSample.ahead] b dead /\
      (IsStatusConditionTrue (bs_Conditions b) ConditionDeadBranch = true \/ known "index" (w_store (fst BackupSample.run)) dead).
Proof.
  split; [vm_compute; reflexivity|].
  destruct (@backups_are_marked_after_the_index ContentTags.tags BackupSample.conditions BackupSample.spec "prod" "index"
    BackupSample.observed [BackupSample.behind; BackupSample.ahead] (Ok tt) (fun _ => Ok tt) Race.alone BackupSample.store
    (fst BackupSample.run) (snd BackupSample.run)) as [_ Hm]; [reflexivity|reflexivity| |exact Hm].
  unfold BackupSample.run. by destruct (judgeBackups _ _ _ _ _ _ _ _ _).
Defined.

Lemma recovery_choice_is_sound_witness :
  let entries := [BackupSample.entry "behind" 40 (BackupSample.uuid +:+ ":1-3"); BackupSample.entry "ahead" 50 (BackupSample.uuid +:+ ":1-7")] in
  selectRecoveryBackup (fun _ => None) entries BackupSample.latest_point (Some BackupSample.known_index) false =
    Ok (BackupSample.entry "behind" 40 (BackupSample.uuid +:+ ":1-3")) /\
  BackupSample.entry "behind" 40 (BackupSample.uuid +:+ ":1-3") ∈ entries.
Proof.
  intros entries. split; [vm_compute; reflexivity|].
  apply (recovery_choice_is_sound (fun _ => None) entries BackupSample.latest_point BackupSample.known_index false).
  vm_compute. reflexivity.
Defined.

(** ** Two things the conditions do not say *)

(** A newest backup on a dead branch counts as past a gap: the condition turns
    False and no backup is taken, while a recovery to the latest point has to start
    from the older backup, before the gap. *)
Lemma dead_backup_hides_a_gap :
  let gap := BackupSample.uuid +:+ ":4-5" in
  let mark := mkCondition ConditionDeadBranch ConditionTrue "AnchorHoldsDisownedTransactions" "" 1 in
  let dead := BackupSample.backup "ahead" 50 (BackupSample.uuid +:+ ":1-7") [mark] in
  let ca := mkContinuousArchivingStatus true "" "" None 0 "" None [] None (mkArchiveFields [] None "" "" [gap] None "") in
  let conds := applyArchiveGapCondition BackupSample.spec "prod" 1 [] (Some ca) (Ok [BackupSample.behind; dead]) 1000 in
  (cd_Reason <$> FindStatusCondition conds ConditionArchiveGap) = Some "GapBehindNewestBackup" /\
  onArchiveGap (fun s => s) BackupSample.spec "prod" (Some ca) conds false = [] /\
  anchorOnDeadBranch (bs_EndGTID dead) (Some BackupSample.known_index) false = true /\
  anchorCoversGap (bs_EndGTID BackupSample.behind) gap = false.
Proof. by vm_compute. Qed.

(** Once the condition is True, nothing more is created, whatever became of the
    first attempt and however the gaps grew. *)
Lemma gap_backup_is_tried_once `{StatusConditions} digest spec cluster ca conds :
  onArchiveGap digest spec cluster ca conds true = [].
Proof. unfold onArchiveGap. by destruct (FindStatusCondition _ _). Qed.
