(* ===== verification/StatusPatch.v ===== *)
(** * Recording an observation

    [patchStatus] of [internal/controller/cluster_status.go]: how what a pass
    observed is merged into the stored status.  The conditions, the establishment,
    the snapshot of the instances' positions and the archiving status come from
    [Status] and [Backups]; the judgement of the Backups runs in the object-store
    model, as it does there.  The status fields that are not modelled enter as
    whether they changed, and the merge of the group's status as a function.

    The theorems show that a position once recorded survives every later pass for
    as long as the instance belongs to the cluster, which is what a failover
    measures its loss against, and that a list of archive gaps that stands unchanged
    long enough turns the condition True and has a base backup taken. *)

From Stdlib Require Import ZArith Lia Bool Ascii String.
From stdpp Require Import base list strings gmap.
From S2P Require Import Prelude GoStrings Gtid GtidText GtidModel MariaGtid MariaTimeline Archive Cluster GroupReplication Instance Status Replay ObjectStore Backups.

Local Open Scope Z_scope.
#[local] Arguments String.append : simpl nomatch.

#[export] Instance GroupMember_eq_dec : EqDecision GroupMember.
Proof. solve_decision. Defined.
#[export] Instance GroupReplicationStatus_eq_dec : EqDecision GroupReplicationStatus.
Proof. solve_decision. Defined.
#[export] Instance Condition_eq_dec : EqDecision Condition.
Proof. solve_decision. Defined.
#[export] Instance Epoch_eq_dec : EqDecision Epoch.
Proof. solve_decision. Defined.
#[export] Instance ArchiveFields_eq_dec : EqDecision ArchiveFields.
Proof. solve_decision. Defined.
#[export] Instance ContinuousArchivingStatus_eq_dec : EqDecision ContinuousArchivingStatus.
Proof. solve_decision. Defined.

(** ** The stored status *)

Record StoredStatus := mkStoredStatus {
  ss_Instances : Z;
  ss_InstanceNames : list string;
  ss_Phase : string;
  ss_PhaseReason : string;
  ss_ReadyInstances : Z;
  ss_DivergedInstances : list string;
  ss_FencedInstances : list string;
  ss_FailedInstances : list string;
  ss_ReplicationBrokenInstances : list string;
  ss_ResizingPVC : list string;
  ss_EstablishedAt : option Time;
  ss_GroupReplication : option GroupReplicationStatus;
  ss_ContinuousArchiving : option ContinuousArchivingStatus;
  ss_MariaDBTimeline : list Epoch;
  ss_ExecutableHashByInstance : gmap string string;
  ss_GTIDExecutedByInstance : gmap string string;
  ss_GTIDExecutedUpdatedAt : option Time;
  ss_ReplicationLagByInstance : gmap string Z;
  ss_ReplicationLagUpdatedAt : option Time;
  ss_Conditions : list Condition
}.

#[export] Instance StoredStatus_eq_dec : EqDecision StoredStatus.
Proof. solve_decision. Defined.

(** What the specification says, and what the passes do not model of the rest. *)
Record Settings := mkSettings {
  sn_Spec : ClusterSpec;
  sn_Name : string;
  sn_Instances : Z;
  sn_Generation : Z;
  sn_PurgeAfterArchive : bool
}.

(** [observed.Plan.Instances] is an argument of the functions that read it. *)
Definition establishedPhase (phase : string) : bool := String.eqb phase PhaseReady || String.eqb phase PhaseDegraded.

Definition establish (before : StoredStatus) (ready : bool) (now : Time) : option Time :=
  match ss_EstablishedAt before with
  | Some t => Some t
  | None => if ready || establishedPhase (ss_Phase before) then Some now else None
  end.

(** A snapshot never taken is stale. *)
Definition snapshot_stale (interval : Duration) (updatedAt : option Time) (now : Time) : bool :=
  match updatedAt with None => true | Some t => interval <=? now - t end.
Definition gtidSnapshotStale : option Time -> Time -> bool := snapshot_stale gtidPersistInterval.
Definition lagPersistInterval : Duration := 15 * 1000000000.
Definition lagSnapshotStale : option Time -> Time -> bool := snapshot_stale lagPersistInterval.

(** The merge of the positions: this pass's, or the last recorded. *)
Definition merge_positions (names : list string) (observed recorded : gmap string string) : gmap string string :=
  foldl (fun merged name =>
    match observed !! name with
    | Some gtid => <[name := gtid]> merged
    | None => match recorded !! name with Some gtid => <[name := gtid]> merged | None => merged end
    end) ∅ names.

(** ** Conditions *)

Section Conditions.
Context `{StatusConditions}.

Definition conditionContinuousArchiving : string := "ContinuousArchiving".

Definition applyContinuousArchivingCondition (generation : Z) (observed : option ContinuousArchivingStatus) (l : list Condition)
  : list Condition :=
  match observed with
  | None => l
  | Some ca =>
      let healthy := archivingHealthy observed in
      SetStatusCondition l (mkCondition conditionContinuousArchiving (conditionStatus healthy)
        (if healthy then "Archiving" else "ArchivingDegraded")
        (if healthy then "Continuous binlog archiving is healthy"
         else "Continuous binlog archiving is degraded: " +:+ ca_LastFailureReason ca) generation)
  end.

Definition binlogPurgeHeldAfter : Duration := 3 * gtidPersistInterval.
Definition ConditionBinlogPurgeHeld : string := "BinlogPurgeHeld".

(** [format_time] is [UTC().Format(time.RFC3339)]. *)
Definition applyBinlogPurgeHeldCondition (format_time : Time -> string) (sn : Settings) (ca : option ContinuousArchivingStatus)
    (now : Time) (l : list Condition) : list Condition :=
  if negb (IsArchivingEnabled (sn_Spec sn)) || negb (sn_PurgeAfterArchive sn) then RemoveStatusCondition l ConditionBinlogPurgeHeld
  else
    let purging := mkCondition ConditionBinlogPurgeHeld ConditionFalse "Purging"
      "Every instance has applied the archived binary logs the purge gate may remove" (sn_Generation sn) in
    SetStatusCondition l
      match ca with
      | Some ca =>
          match ca_PurgeHeldSince ca, ca_PurgeHeldBy ca with
          | Some since, _ :: _ =>
              if binlogPurgeHeldAfter <=? now - since then
                mkCondition ConditionBinlogPurgeHeld ConditionTrue "ReplicasBehind"
                  ("Binary log purge held since " +:+ format_time since +:+ " by instances that have not applied it: " +:+
                   Join (ca_PurgeHeldBy ca) ", ") (sn_Generation sn)
              else purging
          | _, _ => purging
          end
      | None => purging
      end.

Definition ConditionArchiveForked : string := "ArchiveForked".

Definition applyArchiveForkedCondition (sn : Settings) (ca : option ContinuousArchivingStatus) (l : list Condition) : list Condition :=
  if negb (IsArchivingEnabled (sn_Spec sn)) then RemoveStatusCondition l ConditionArchiveForked
  else
    match ca with
    | None => l
    | Some ca =>
        SetStatusCondition l
          match af_ForkGTIDs (ca_Archive ca) with
          | [] => mkCondition ConditionArchiveForked ConditionFalse "NoFork"
              "No archive segment holds transactions the surviving timeline disowned" (sn_Generation sn)
          | forks => mkCondition ConditionArchiveForked ConditionTrue "DisownedTransactionsArchived"
              ("The binary-log archive holds transactions the surviving timeline never executed: " +:+ Join forks "; " +:+
               ". Point-in-time recovery to a time or to the latest point leaves them out; " +:+
               "a targetGTID naming them recovers that branch") (sn_Generation sn)
          end
    end.

Definition ConditionBootstrapFailed : string := "BootstrapFailed".

Definition applyBootstrapFailedCondition (generation : Z) (o : Observed) (l : list Condition) : list Condition :=
  SetStatusCondition l
    match failedBootstrapJobs (oc_BootstrapJobs o) with
    | [] => mkCondition ConditionBootstrapFailed ConditionFalse "NoFailedBootstrapJobs" "No instance bootstrap Job has failed" generation
    | j :: _ as failed => mkCondition ConditionBootstrapFailed ConditionTrue (bj_Reason j) (bootstrapFailureReason failed) generation
    end.

Definition conditionReady : string := "Ready".
Definition conditionProgressing : string := "Progressing".

(** ** The patch *)

(** The answers of a pass: the Get and the Patch of the Cluster, the clock, the
    Backups listed for the gap condition and for the judgement, the object-store
    client and the patches of the Backups. *)
Record PatchAnswers := mkPatchAnswers {
  pa_latest : result StoredStatus;
  pa_now : Time;
  pa_backups : result (list Backup);
  pa_judged : result (list Backup);
  pa_client : result unit;
  pa_patched : string -> result unit;
  pa_stored : result unit;
  pa_format : Time -> string
}.

(** The condition updates, in order. *)
Definition merge_conditions (sn : Settings) (o : Observed) (pa : PatchAnswers) (ca : option ContinuousArchivingStatus) (l : list Condition)
  : list Condition :=
  let l := applyContinuousArchivingCondition (sn_Generation sn) (oc_ContinuousArchiving o) l in
  let l := applyBinlogPurgeHeldCondition (pa_format pa) sn ca (pa_now pa) l in
  let l := applyArchiveForkedCondition sn ca l in
  let l := applyArchiveGapCondition (sn_Spec sn) (sn_Name sn) (sn_Generation sn) l ca (pa_backups pa) (pa_now pa) in
  let l := SetStatusCondition l (mkCondition conditionReady (conditionStatus (oc_Ready o)) (oc_Phase o) (oc_PhaseReason o) (sn_Generation sn)) in
  let l := SetStatusCondition l (mkCondition conditionProgressing (conditionStatus (oc_Progressing o)) (oc_Phase o) (oc_PhaseReason o) (sn_Generation sn)) in
  match oc_InstanceNames o with [] => l | _ => applyBootstrapFailedCondition (sn_Generation sn) o l end.

(** The status before the two throttled snapshots. *)
Definition merge_observed (sn : Settings) (instances : Z)
    (merge_group : option GroupReplicationStatus -> option GroupReplicationStatus -> option GroupReplicationStatus)
    (o : Observed) (pa : PatchAnswers) (before : StoredStatus) : StoredStatus :=
  let s := oc_Seen o in
  let view := oc_View o in
  let ca := applyArchivingStatus (IsArchivingEnabled (sn_Spec sn)) (ss_ContinuousArchiving before) (oc_ContinuousArchiving o) in
  mkStoredStatus
    (match oc_InstanceNames o with [] => sn_Instances sn | _ => instances end)
    (oc_InstanceNames o) (oc_Phase o) (oc_PhaseReason o) (oc_ReadyInstances o)
    (tv_DivergedInstances view) (se_FencedInstances s) (se_FailedInstances s) (tv_ReplicationBrokenInstances view) (se_ResizingPVCs s)
    (establish before (oc_Ready o) (pa_now pa))
    (merge_group (ss_GroupReplication before) (tv_GroupReplication view)) ca
    (if tu_Observed (oc_Timeline o) then tu_Timeline (oc_Timeline o) else ss_MariaDBTimeline before)
    (if decide (se_ExecutableHashByInstance s = ∅) then ss_ExecutableHashByInstance before else se_ExecutableHashByInstance s)
    (ss_GTIDExecutedByInstance before) (ss_GTIDExecutedUpdatedAt before)
    (ss_ReplicationLagByInstance before) (ss_ReplicationLagUpdatedAt before)
    (merge_conditions sn o pa ca (ss_Conditions before)).

Definition with_snapshots (st : StoredStatus) (gtids : gmap string string) (gtidsAt : option Time) (lag : gmap string Z)
    (lagAt : option Time) : StoredStatus :=
  mkStoredStatus (ss_Instances st) (ss_InstanceNames st) (ss_Phase st) (ss_PhaseReason st) (ss_ReadyInstances st)
    (ss_DivergedInstances st) (ss_FencedInstances st) (ss_FailedInstances st) (ss_ReplicationBrokenInstances st) (ss_ResizingPVC st)
    (ss_EstablishedAt st) (ss_GroupReplication st) (ss_ContinuousArchiving st) (ss_MariaDBTimeline st) (ss_ExecutableHashByInstance st)
    gtids gtidsAt lag lagAt (ss_Conditions st).

(** The snapshots of the positions and of the lag; [rest] is whether a field that
    is not modelled changed. *)
Definition take_snapshots (o : Observed) (now : Time) (rest : bool) (before latest : StoredStatus) : StoredStatus :=
  let otherChanged := rest || negb (bool_decide (before = latest)) in
  let observed := se_GTIDByInstance (oc_Seen o) in
  let lag := se_ReplicationLagByInstance (oc_Seen o) in
  let '(gtids, gtidsAt) :=
    if negb (bool_decide (observed = ∅)) && (otherChanged || gtidSnapshotStale (ss_GTIDExecutedUpdatedAt before) now) then
      (merge_positions (oc_InstanceNames o) observed (ss_GTIDExecutedByInstance latest), Some now)
    else (ss_GTIDExecutedByInstance latest, ss_GTIDExecutedUpdatedAt latest) in
  let '(lags, lagAt) :=
    if otherChanged || lagSnapshotStale (ss_ReplicationLagUpdatedAt before) now then
      if bool_decide (lag = ∅) then (∅, ss_ReplicationLagUpdatedAt latest) else (lag, Some now)
    else (ss_ReplicationLagByInstance latest, ss_ReplicationLagUpdatedAt latest) in
  with_snapshots latest gtids gtidsAt lags lagAt.

(** A report, as the judgement of the Backups reads it. *)
Definition status_of (r : Report) : Instance.Status :=
  Instance.mkStatus (if String.eqb (re_Role r) Status.RolePrimary then Instance.RolePrimary
                     else if String.eqb (re_Role r) "replica" then Instance.RoleReplica else Instance.RoleUnknown)
    (re_ReadOnly r) (re_SuperReadOnly r) (re_GTIDExecuted r) None None.

Definition backup_view (o : Observed) : observedBackups :=
  mkObservedBackups (oc_PrimaryGTIDReadAt o) (oc_PrimaryName o) ((fun r => Some (status_of r)) <$> se_StatusByInstance (oc_Seen o))
    (se_GTIDByInstance (oc_Seen o)) (toEngineTimeline (tu_Timeline (oc_Timeline o))).

(** What the pass asks of the API server besides the status. *)
Inductive patch_call := OnBackup (c : Backups.call) | OnGap (c : gap_call).

Context `{Versioning}.

Definition patchStatus (sn : Settings) (instances : Z) (merge_group : option GroupReplicationStatus -> option GroupReplicationStatus -> option GroupReplicationStatus)
    (digest : string -> string) (key : string) (o : Observed) (pa : PatchAnswers) (rest : bool)
  : IO (result (option StoredStatus) * list patch_call) :=
  match pa_latest pa with
  | Err e => ObjectStore.ret (Err e, [])
  | Ok before =>
      let latest := take_snapshots o (pa_now pa) rest before (merge_observed sn instances merge_group o pa before) in
      do! marks := judgeBackups (sn_Spec sn) (sn_Name sn) key (backup_view o) (pa_judged pa) (pa_client pa) (pa_patched pa) in
      let marks := OnBackup <$> marks in
      if negb rest && bool_decide (before = latest) then ObjectStore.ret (Ok None, marks)
      else
        match pa_stored pa with
        | Err e => ObjectStore.ret (Err e, marks)
        | Ok _ =>
            let wasGapped := IsStatusConditionTrue (ss_Conditions before) ConditionArchiveGap in
            ObjectStore.ret (Ok (Some latest), marks ++ (OnGap <$> onArchiveGap digest (sn_Spec sn) (sn_Name sn) (ss_ContinuousArchiving latest)
                                      (ss_Conditions latest) wasGapped))
        end
  end.
End Conditions.

(** ** The positions *)

Definition position_of (observed recorded : gmap string string) (name : string) : option string :=
  match observed !! name with Some gtid => Some gtid | None => recorded !! name end.

(** A member of the cluster keeps a position, and nobody else does. *)
Lemma merge_positions_lookup names observed recorded name :
  merge_positions names observed recorded !! name = if bool_decide (name ∈ names) then position_of observed recorded name else None.
Proof.
  unfold merge_positions. induction names as [|n names IH] using rev_ind; [done|]. rewrite foldl_app. cbn [foldl].
  set (m := foldl _ _ names) in *.
  assert (match observed !! n with
          | Some gtid => <[n := gtid]> m
          | None => match recorded !! n with Some gtid => <[n := gtid]> m | None => m end
          end = match position_of observed recorded n with Some gtid => <[n := gtid]> m | None => m end) as ->
    by (unfold position_of; by destruct (observed !! n)).
  destruct (decide (n = name)) as [->|Hne].
  - rewrite (bool_decide_true (name ∈ names ++ [name])) by set_solver.
    destruct (position_of observed recorded name) eqn:E; [by rewrite lookup_insert_eq|]. rewrite IH. by destruct (bool_decide _).
  - replace (bool_decide (name ∈ names ++ [n])) with (bool_decide (name ∈ names)) by (apply bool_decide_ext; set_solver).
    rewrite <- IH. destruct (position_of observed recorded n); [by rewrite lookup_insert_ne|done].
Qed.

(** The snapshot of the positions: taken now, or kept while it is fresh. *)
Lemma take_snapshots_positions o now rest before latest :
  let after := take_snapshots o now rest before latest in
  let observed := se_GTIDByInstance (oc_Seen o) in
  ss_GTIDExecutedByInstance after = merge_positions (oc_InstanceNames o) observed (ss_GTIDExecutedByInstance latest) /\
    ss_GTIDExecutedUpdatedAt after = Some now /\ observed <> ∅ \/
  ss_GTIDExecutedByInstance after = ss_GTIDExecutedByInstance latest /\
    ss_GTIDExecutedUpdatedAt after = ss_GTIDExecutedUpdatedAt latest /\
    (observed = ∅ \/ gtidSnapshotStale (ss_GTIDExecutedUpdatedAt before) now = false).
Proof.
  intros after observed. unfold after, take_snapshots. fold observed.
  set (other := rest || _).
  destruct (negb (bool_decide (observed = ∅)) && (other || gtidSnapshotStale (ss_GTIDExecutedUpdatedAt before) now)) eqn:E.
  - left. boolp. destruct (other || lagSnapshotStale _ _); [destruct (bool_decide (se_ReplicationLagByInstance _ = ∅))|]; done.
  - right. assert (observed = ∅ \/ gtidSnapshotStale (ss_GTIDExecutedUpdatedAt before) now = false) as Hor.
    { destruct (decide (observed = ∅)) as [?|Hne]; [by left|right]. rewrite bool_decide_false in E by done. cbn in E. boolp. done. }
    destruct (other || lagSnapshotStale _ _); [destruct (bool_decide (se_ReplicationLagByInstance _ = ∅))|]; done.
Qed.

Section Patch.
Context `{StatusConditions} `{Versioning}.

(** What a patch that succeeded left in the status. *)
Lemma patchStatus_inv sn instances merge_group digest key o pa rest env w w' r calls :
  patchStatus sn instances merge_group digest key o pa rest env w = (w', (Ok r, calls)) ->
  exists before, pa_latest pa = Ok before /\
    let latest := take_snapshots o (pa_now pa) rest before (merge_observed sn instances merge_group o pa before) in
    (r = None /\ before = latest /\ (forall c, OnGap c ∉ calls)) \/
    (r = Some latest /\ forall c, OnGap c ∈ calls <->
       c ∈ onArchiveGap digest (sn_Spec sn) (sn_Name sn) (ss_ContinuousArchiving latest) (ss_Conditions latest)
             (IsStatusConditionTrue (ss_Conditions before) ConditionArchiveGap)).
Proof.
  unfold patchStatus. destruct (pa_latest pa) as [before|e]; [|done]. unfold ObjectStore.bind at 1.
  destruct (judgeBackups _ _ _ _ _ _ _ env w) as [w1 marks]. intros Hr. exists before. split; [done|]. cbn zeta in *.
  set (latest := take_snapshots _ _ _ _ _) in *.
  assert (forall c, OnGap c ∉ OnBackup <$> marks) as Hm by (intros c (x & ? & _)%list_elem_of_fmap; done).
  destruct (negb rest && bool_decide (before = latest)) eqn:E.
  - left. injection Hr as _ <- <-. boolp. done.
  - right. destruct (pa_stored pa); [|done]. injection Hr as _ <- <-. split; [done|]. intros c. rewrite elem_of_app.
    split.
    + intros [[]%Hm|(x & [= ->] & Hx)%list_elem_of_fmap]. done.
    + intros Hc. right. apply list_elem_of_fmap. by exists c.
Qed.

(** One pass over the stored status: a patch that was stored (its answer may be
    lost), or nothing. *)
Inductive pass (o : Observed) : StoredStatus -> StoredStatus -> Prop :=
| pass_stored sn instances merge_group digest key pa rest env w w' before after calls :
    pa_latest pa = Ok before ->
    patchStatus sn instances merge_group digest key o pa rest env w = (w', (Ok (Some after), calls)) ->
    pass o before after
| pass_nothing before : pass o before before.

Inductive passes : list Observed -> StoredStatus -> StoredStatus -> Prop :=
| passes_nil st : passes [] st st
| passes_cons o os st st' st'' : pass o st st' -> passes os st' st'' -> passes (o :: os) st st''.

(** The instance is a member in a pass, or the pass read no positions at all. *)
Definition member (name : string) (o : Observed) : Prop := name ∈ oc_InstanceNames o \/ se_GTIDByInstance (oc_Seen o) = ∅.

Lemma pass_position name o st st' :
  pass o st st' -> member name o -> is_Some (ss_GTIDExecutedByInstance st !! name) ->
  ss_GTIDExecutedByInstance st' !! name = ss_GTIDExecutedByInstance st !! name \/
  is_Some (se_GTIDByInstance (oc_Seen o) !! name) /\
    ss_GTIDExecutedByInstance st' !! name = se_GTIDByInstance (oc_Seen o) !! name.
Proof.
  intros [sn instances mg digest key pa rest env w w' before after calls Hl Hp|before] Hm [g Hg]; [|by left].
  apply patchStatus_inv in Hp as (b & Hb & Hr). rewrite Hl in Hb. injection Hb as <-. cbn zeta in Hr.
  set (latest := merge_observed _ _ _ _ _ _) in Hr.
  destruct Hr as [[? _]|[[= ->] _]]; [done|].
  destruct (take_snapshots_positions o (pa_now pa) rest before latest) as [(-> & _ & Hne)|(-> & _)]; [|by left].
  destruct Hm as [Hin|?]; [|done]. rewrite merge_positions_lookup, bool_decide_true by done. unfold position_of.
  destruct (se_GTIDByInstance (oc_Seen o) !! name) eqn:E; [right; split; [by eexists|done]|by left].
Qed.

Lemma passes_position name os st st' g :
  passes os st st' -> (forall o, o ∈ os -> member name o) -> ss_GTIDExecutedByInstance st !! name = Some g ->
  exists g', ss_GTIDExecutedByInstance st' !! name = Some g' /\
    (g' = g \/ exists o, o ∈ os /\ se_GTIDByInstance (oc_Seen o) !! name = Some g').
Proof.
  intros Hp. revert g. induction Hp as [st|o os st st1 st' H1 _ IH]; intros g Hm Hg; [exists g; by split; [|left]|].
  assert (exists g1, ss_GTIDExecutedByInstance st1 !! name = Some g1 /\
            (g1 = g \/ se_GTIDByInstance (oc_Seen o) !! name = Some g1)) as (g1 & Hg1 & Hor).
  { destruct (pass_position name o st st1 H1 (Hm o ltac:(by left)) ltac:(by eexists)) as [E|[[g1 E1] E]].
    - exists g. rewrite E. by split; [|left].
    - exists g1. rewrite E, E1. by split; [|right]. }
  destruct (IH g1 (fun o' Ho' => Hm o' (list_elem_of_further _ _ _ Ho')) Hg1) as (g' & Hg' & Hor'). exists g'. split; [done|].
  destruct Hor' as [->|(o' & Ho' & ?)].
  - destruct Hor as [->|?]; [by left|right]. exists o. by split; [left|].
  - right. exists o'. by split; [right|].
Qed.
End Patch.

(** ** The gap condition *)

Section Gap.
Context `{StatusConditions}.

(** The updates before and after the gap's leave its condition alone. *)
Lemma merged_gap sn o pa ca l :
  exists l', FindStatusCondition l' ConditionArchiveGap = FindStatusCondition l ConditionArchiveGap /\
    FindStatusCondition (merge_conditions sn o pa ca l) ConditionArchiveGap =
    FindStatusCondition (applyArchiveGapCondition (sn_Spec sn) (sn_Name sn) (sn_Generation sn) l' ca (pa_backups pa) (pa_now pa)) ConditionArchiveGap.
Proof.
  unfold merge_conditions.
  exists (applyArchiveForkedCondition sn ca (applyBinlogPurgeHeldCondition (pa_format pa) sn ca (pa_now pa)
            (applyContinuousArchivingCondition (sn_Generation sn) (oc_ContinuousArchiving o) l))). split.
  - transitivity (FindStatusCondition (applyBinlogPurgeHeldCondition (pa_format pa) sn ca (pa_now pa)
      (applyContinuousArchivingCondition (sn_Generation sn) (oc_ContinuousArchiving o) l)) ConditionArchiveGap); [|
      transitivity (FindStatusCondition (applyContinuousArchivingCondition (sn_Generation sn) (oc_ContinuousArchiving o) l) ConditionArchiveGap)].
    + unfold applyArchiveForkedCondition. destruct (negb _); [by apply find_remove_other|]. destruct ca as [ca|]; [|done].
      apply find_set_other. by destruct (af_ForkGTIDs _).
    + unfold applyBinlogPurgeHeldCondition. destruct (_ || _); [by apply find_remove_other|].
      apply find_set_other. destruct ca as [ca|]; [|done]. destruct (ca_PurgeHeldSince ca), (ca_PurgeHeldBy ca); try done.
      by destruct (binlogPurgeHeldAfter <=? _).
    + unfold applyContinuousArchivingCondition. destruct (oc_ContinuousArchiving o); [by apply find_set_other|done].
  - set (g := applyArchiveGapCondition _ _ _ _ _ _ _). cbn zeta.
    assert (FindStatusCondition (SetStatusCondition (SetStatusCondition g (mkCondition conditionReady (conditionStatus (oc_Ready o)) (oc_Phase o) (oc_PhaseReason o) (sn_Generation sn)))
              (mkCondition conditionProgressing (conditionStatus (oc_Progressing o)) (oc_Phase o) (oc_PhaseReason o) (sn_Generation sn))) ConditionArchiveGap
            = FindStatusCondition g ConditionArchiveGap) as E by (by rewrite !find_set_other).
    destruct (oc_InstanceNames o); [exact E|]. unfold applyBootstrapFailedCondition. rewrite find_set_other, E; [done|].
    by destruct (failedBootstrapJobs _).
Qed.

(** A gap the newest base backup does not hold. *)
Definition open_gap (cluster : string) (items : list Backup) (ca : ContinuousArchivingStatus) : Prop :=
  exists gap, gap ∈ ca_Gaps ca /\ anchorCoversGap (default "" (bs_EndGTID <$> foldl (newer_backup cluster) None items)) gap = false.

(** The condition turns True in a pass only over a settled, open gap. *)
Lemma gap_condition_turns spec cluster generation conditions ca backups now :
  IsStatusConditionTrue conditions ConditionArchiveGap = false ->
  IsStatusConditionTrue (applyArchiveGapCondition spec cluster generation conditions ca backups now) ConditionArchiveGap = true <->
  exists c items, IsArchivingEnabled spec = true /\ ca = Some c /\ backups = Ok items /\ open_gap cluster items c /\
    archiveGapSettled c now = true.
Proof.
  intros Hf. split.
  - intros Ht. destruct (IsArchivingEnabled spec) eqn:Ea.
    2:{ unfold applyArchiveGapCondition, IsStatusConditionTrue in Ht. rewrite Ea in Ht. cbn in Ht. by rewrite find_remove in Ht. }
    destruct ca as [c|].
    2:{ unfold applyArchiveGapCondition in Ht. rewrite Ea in Ht. cbn in Ht. congruence. }
    destruct (ca_Gaps c) as [|g gs] eqn:Eg.
    { unfold applyArchiveGapCondition, IsStatusConditionTrue, gap_condition in Ht. rewrite Ea, Eg in Ht. cbn [negb] in Ht.
      match type of Ht with context [SetStatusCondition _ ?x] => pose proof (find_set conditions x) as E end. cbn in E.
      unfold ConditionArchiveGap in *. by rewrite E in Ht. }
    destruct backups as [items|e].
    2:{ unfold applyArchiveGapCondition, newestPhysicalBackup in Ht. rewrite Ea, Eg in Ht. cbn in Ht. congruence. }
    apply gap_condition_spec in Ht as [Ho Hs]; [|done|by rewrite Eg]. by exists c, items.
  - intros (c & items & Ha & -> & -> & (gap & Hin & Hc) & Hs). apply gap_condition_spec; [done| |].
    + intros E. rewrite E in Hin. by apply elem_of_nil in Hin.
    + split; [by exists gap|done].
Qed.

Lemma archiving_has_store spec : IsArchivingEnabled spec = true -> exists bk, spec_Backup spec = Some bk /\ bk_ObjectStore bk = true.
Proof. unfold IsArchivingEnabled. destruct (spec_Backup spec) as [bk|]; [|done]. intros E. boolp. by exists bk. Qed.

(** A backup is asked for exactly when the condition turned True. *)
Lemma onArchiveGap_creates digest spec cluster ca conditions was :
  (exists name, CreateGapBackup name ∈ onArchiveGap digest spec cluster ca conditions was) <->
  was = false /\ IsStatusConditionTrue conditions ConditionArchiveGap = true /\
  exists bk c, spec_Backup spec = Some bk /\ bk_ObjectStore bk = true /\ ca = Some c.
Proof.
  unfold onArchiveGap, IsStatusConditionTrue, ensureArchiveGapBackup.
  destruct (FindStatusCondition conditions ConditionArchiveGap) as [c|].
  2:{ split; [by intros [n []%elem_of_nil]|by intros (_ & ? & _)]. }
  destruct was, (String.eqb (cd_Status c) ConditionTrue); cbn;
    try (split; [by intros [n []%elem_of_nil]|by intros (? & ? & _)]).
  split.
  - intros [n [?|Hin]%elem_of_cons]; [done|]. destruct (spec_Backup spec) as [bk|]; [|by apply elem_of_nil in Hin].
    destruct ca as [ca|]; [|by apply elem_of_nil in Hin]. destruct (bk_ObjectStore bk) eqn:E; [|by apply elem_of_nil in Hin].
    split_and!; try done. by exists bk, ca.
  - intros (_ & _ & bk & ca' & -> & Hb & ->). rewrite Hb. eexists. right. by left.
Qed.
End Gap.

Lemma take_snapshots_rest o now rest before latest :
  ss_Conditions (take_snapshots o now rest before latest) = ss_Conditions latest /\
  ss_ContinuousArchiving (take_snapshots o now rest before latest) = ss_ContinuousArchiving latest /\
  ss_EstablishedAt (take_snapshots o now rest before latest) = ss_EstablishedAt latest.
Proof. unfold take_snapshots. repeat case_match; done. Qed.

Section Gaps.
Context `{StatusConditions} `{Versioning}.
Context (sn : Settings) (instances : Z) (merge_group : option GroupReplicationStatus -> option GroupReplicationStatus -> option GroupReplicationStatus)
  (digest : string -> string) (key : string) (o : Observed) (pa : PatchAnswers) (rest : bool) (before : StoredStatus).

(** The archiving status the pass records. *)
Definition recorded_archiving : option ContinuousArchivingStatus :=
  applyArchivingStatus (IsArchivingEnabled (sn_Spec sn)) (ss_ContinuousArchiving before) (oc_ContinuousArchiving o).

(** A gap the newest backup does not hold has stood out the grace. *)
Definition gap_is_due : Prop :=
  exists ca items, IsArchivingEnabled (sn_Spec sn) = true /\ recorded_archiving = Some ca /\ pa_backups pa = Ok items /\
    open_gap (sn_Name sn) items ca /\ archiveGapSettled ca (pa_now pa) = true.

Definition gapped (st : StoredStatus) : bool := IsStatusConditionTrue (ss_Conditions st) ConditionArchiveGap.

Lemma patchStatus_gap env w w' r calls :
  patchStatus sn instances merge_group digest key o pa rest env w = (w', (Ok r, calls)) -> pa_latest pa = Ok before ->
  (gapped before = false -> gapped (default before r) = true <-> gap_is_due) /\
  ((exists name, OnGap (CreateGapBackup name) ∈ calls) <-> gapped before = false /\ gap_is_due).
Proof.
  intros Hp Hb. apply patchStatus_inv in Hp as (b & Hb' & Hr). rewrite Hb in Hb'. injection Hb' as <-. cbn zeta in Hr.
  set (merged := merge_observed sn instances merge_group o pa before) in Hr.
  set (latest := take_snapshots o (pa_now pa) rest before merged) in Hr.
  destruct (take_snapshots_rest o (pa_now pa) rest before merged) as (Ec & Ea & _). fold latest in Ec, Ea.
  assert (gapped before = false -> gapped latest = true <-> gap_is_due) as Hg.
  { intros Hf. unfold gapped, IsStatusConditionTrue in *. rewrite Ec. cbn [merged merge_observed ss_Conditions]. fold recorded_archiving.
    destruct (merged_gap sn o pa recorded_archiving (ss_Conditions before)) as (l' & El & ->). rewrite <- El in Hf.
    exact (gap_condition_turns _ _ _ l' _ _ _ Hf). }
  destruct Hr as [(-> & Heq & Hno)|(-> & Hcalls)]; cbn [default].
  - rewrite <- Heq in Hg. split; [done|]. split; [by intros [name []%Hno]|]. intros [Hf Hd]. apply (Hg Hf) in Hd. congruence.
  - split; [done|]. setoid_rewrite Hcalls. rewrite onArchiveGap_creates. fold (gapped before) (gapped latest). split.
    + intros (Hf & Ht & _). split; [done|]. by apply Hg.
    + intros [Hf Hd]. split; [done|]. split; [by apply Hg|]. destruct Hd as (ca & items & Hen & Hca & _).
      apply archiving_has_store in Hen as (bk & Hbk & Hos). exists bk, ca. split_and!; try done. by rewrite Ea.
Qed.
End Gaps.

(** ** Properties *)

(** C33: What a failover measures its loss against is never forgotten: through any
    passes, stored or not, an instance that stays a member keeps a recorded position,
    the one it had or one a pass read from it, even while it does not answer; and
    after a pass that read positions the snapshot is younger than the persist
    interval. *)
Theorem recorded_positions_survive `{StatusConditions} `{Versioning} :
  (forall name os st st' g, passes os st st' -> (forall o, o ∈ os -> member name o) ->
     ss_GTIDExecutedByInstance st !! name = Some g ->
     exists g', ss_GTIDExecutedByInstance st' !! name = Some g' /\
       (g' = g \/ exists o, o ∈ os /\ se_GTIDByInstance (oc_Seen o) !! name = Some g')) /\
  (forall sn instances merge_group digest key o pa rest env w w' r calls before,
     pa_latest pa = Ok before -> se_GTIDByInstance (oc_Seen o) <> ∅ ->
     patchStatus sn instances merge_group digest key o pa rest env w = (w', (Ok r, calls)) ->
     exists t, ss_GTIDExecutedUpdatedAt (default before r) = Some t /\ pa_now pa - t < gtidPersistInterval).
Proof.
  split; [intros; by eapply passes_position|].
  intros sn instances mg digest key o pa rest env w w' r calls before Hb Hne (b & Hb' & Hr)%patchStatus_inv.
  rewrite Hb in Hb'. injection Hb' as <-. cbn zeta in Hr.
  set (latest := take_snapshots _ _ _ _ _) in Hr.
  assert (default before r = latest) as -> by (destruct Hr as [(-> & Heq & _)|[-> _]]; [exact Heq|done]).
  unfold latest. destruct (take_snapshots_positions o (pa_now pa) rest before (merge_observed sn instances mg o pa before)) as [(_ & -> & _)|(_ & -> & [?|Hs])].
  - exists (pa_now pa). split; [done|]. rewrite Z.sub_diag. done.
  - done.
  - cbn [merge_observed ss_GTIDExecutedUpdatedAt]. unfold gtidSnapshotStale, snapshot_stale in Hs.
    destruct (ss_GTIDExecutedUpdatedAt before) as [t|]; [|done]. exists t. split; [done|]. by apply Z.leb_gt in Hs.
Qed.

(** C38: An archive gap ends in a base backup, for a Cluster whose condition is not
    True: a patch turns the condition True, and asks for a backup, exactly when the
    recorded list of gaps has been the same for the grace and the newest backup misses
    one of them; and a list of gaps that is recorded and that every current report since
    repeated as a whole is such a list once the grace has passed, if the newest backup
    still misses one of its gaps.  The time belongs to the whole list: a report that
    changes it in any way starts the grace again. *)
Theorem standing_gap_gets_a_backup `{StatusConditions} `{Versioning} sn instances merge_group digest key o pa rest before env w w' r calls :
  pa_latest pa = Ok before -> gapped before = false ->
  patchStatus sn instances merge_group digest key o pa rest env w = (w', (Ok r, calls)) ->
  (gapped (default before r) = true <-> gap_is_due sn o pa before) /\
  ((exists name, OnGap (CreateGapBackup name) ∈ calls) <-> gap_is_due sn o pa before) /\
  (forall parse ca ps since items,
     IsArchivingEnabled (sn_Spec sn) = true -> ca_Gaps ca <> [] -> ca_GapsSince ca = Some since ->
     (forall a, a ∈ omap current_report ps -> wa_Gaps a = ca_Gaps ca) ->
     oc_ContinuousArchiving o = Some (foldl (pass_archiving parse) ca ps) ->
     archiveGapGrace <= pa_now pa - since -> pa_backups pa = Ok items -> open_gap (sn_Name sn) items ca ->
     exists name, OnGap (CreateGapBackup name) ∈ calls).
Proof.
  intros Hb Hf Hp. destruct (patchStatus_gap sn instances merge_group digest key o pa rest before env w w' r calls Hp Hb) as [H1 H2].
  split; [by apply H1|]. split; [by rewrite H2; naive_solver|].
  intros parse ca ps since items Hen Hne Hs Ha Ho Hgr Hi (gap & Hin & Hc). apply H2. split; [done|].
  destruct (passes_gaps_since parse ps ca (ca_Gaps ca) since Hne eq_refl Hs Ha) as [Eg Es].
  exists (foldl (pass_archiving parse) ca ps), items. unfold recorded_archiving, applyArchivingStatus. rewrite Hen, Ho.
  split_and!; try done.
  - exists gap. by rewrite Eg.
  - unfold archiveGapSettled. rewrite Es. by apply Z.leb_le.
Qed.

(** *** Examples *)

Module PatchSample.
Import BackupSample.

Definition report (name gtid : string) (archiving : option ArchivingReport) : Report :=
  mkReport (if String.eqb name "prod-1" then "primary" else "replica") true "" (negb (String.eqb name "prod-1"))
    (negb (String.eqb name "prod-1")) gtid "" 1 None "" None archiving.
Definition settings : Settings := mkSettings spec "prod" 2 1 false.
Definition gap : string := uuid +:+ ":4-5".
Definition first_seen : ContinuousArchivingStatus :=
  mkContinuousArchivingStatus true "" "" None 0 "" None [] None (mkArchiveFields [] None "" "" [gap] (Some 10) "").
Definition again : ArchivingPass :=
  mkArchivingPass (Some (report "prod-1" "" (Some (StatusSample.archiving 1 [] [gap])))) 1 (10 + archiveGapGrace).
Definition ca : ContinuousArchivingStatus := foldl (pass_archiving (fun _ => None)) first_seen [again].

Definition observed_as (phase : string) (gtids : gmap string string) (ca : option ContinuousArchivingStatus) : Observed :=
  mkObserved (mkSeen [] [] [] [] "prod-1" ∅ gtids ∅ ∅ 2) ["prod-1"; "prod-2"] "prod-1" 0 2 no_view (mkTimelineUpdate false [] false [])
    ca [] [] "" [] [] true false phase "".
Definition empty_status : StoredStatus :=
  mkStoredStatus 2 ["prod-1"; "prod-2"] "" "" 0 [] [] [] [] [] None None None [] ∅ {["prod-1" := "a"; "prod-2" := "b"]} None ∅ None [].
Definition answers (before : StoredStatus) (now : Time) : PatchAnswers :=
  mkPatchAnswers (Ok before) now (Ok [behind]) (Ok [behind]) (Ok tt) (fun _ => Ok tt) (Ok tt) (fun _ => "").
Definition run (o : Observed) (before : StoredStatus) (now : Time) : World * (result (option StoredStatus) * list patch_call) :=
  patchStatus (H := conditions) (H0 := ContentTags.tags) settings 2 (fun _ x => x) (fun s => s) "index" o (answers before now) false Race.alone store.
(** The primary stopped answering; the replica moved on. *)
Definition primary_lost : Observed := observed_as PhaseDegraded {["prod-2" := "c"]} None.
Definition after_loss : StoredStatus := match fst (snd (run primary_lost empty_status 100)) with Ok (Some st) => st | _ => empty_status end.
End PatchSample.

Lemma recorded_positions_survive_witness :
  ss_GTIDExecutedByInstance PatchSample.after_loss !! "prod-2" = Some "c" /\
  exists g', ss_GTIDExecutedByInstance PatchSample.after_loss !! "prod-1" = Some g' /\
    (g' = "a" \/ exists o, o ∈ [PatchSample.primary_lost] /\ se_GTIDByInstance (oc_Seen o) !! "prod-1" = Some g').
Proof.
  split; [vm_compute; reflexivity|].
  apply (proj1 (@recorded_positions_survive BackupSample.conditions ContentTags.tags) "prod-1" [PatchSample.primary_lost]
    PatchSample.empty_status PatchSample.after_loss "a").
  - apply (passes_cons _ _ _ PatchSample.after_loss); [|constructor].
    eapply (pass_stored PatchSample.primary_lost PatchSample.settings 2 (fun _ x => x) (fun s => s) "index"
      (PatchSample.answers PatchSample.empty_status 100) false Race.alone BackupSample.store); [reflexivity|].
    vm_compute. reflexivity.
  - intros o ->%list_elem_of_singleton. left. left.
  - vm_compute. reflexivity.
Defined.

Lemma standing_gap_gets_a_backup_witness :
  let o := PatchSample.observed_as PhaseReady ∅ (Some PatchSample.ca) in
  exists name, OnGap (CreateGapBackup name) ∈ snd (snd (PatchSample.run o PatchSample.empty_status (10 + archiveGapGrace))).
Proof.
  intros o. destruct (PatchSample.run o PatchSample.empty_status (10 + archiveGapGrace)) as [w' [r calls]] eqn:E.
  destruct r as [r|e]; [|vm_compute in E; discriminate].
  destruct (@standing_gap_gets_a_backup BackupSample.conditions ContentTags.tags PatchSample.settings 2 (fun _ x => x) (fun s => s)
    "index" o (PatchSample.answers PatchSample.empty_status (10 + archiveGapGrace)) false PatchSample.empty_status
    Race.alone BackupSample.store w' r calls) as (_ & _ & Hlive); [reflexivity|vm_compute; reflexivity|exact E|].
  apply (Hlive (fun _ => None) PatchSample.first_seen [PatchSample.again] 10 [BackupSample.behind]).
  - vm_compute. reflexivity.
  - discriminate.
  - reflexivity.
  - intros a Ha. vm_compute in Ha. apply list_elem_of_singleton in Ha as ->. reflexivity.
  - reflexivity.
  - vm_compute. discriminate.
  - reflexivity.
  - exists PatchSample.gap. split; [left|vm_compute; reflexivity].
Defined.

(** ** Establishment *)

(** Once recorded it stays, with its time. *)
Lemma establishment_is_sticky `{StatusConditions} `{Versioning} os st st' t :
  passes os st st' -> ss_EstablishedAt st = Some t -> ss_EstablishedAt st' = Some t.
Proof.
  induction 1 as [st|o os st st1 st' H1 _ IH]; [done|]. intros Ht. apply IH.
  destruct H1 as [sn instances mg digest key pa rest env w w' before after calls Hl Hp|before]; [|done].
  apply patchStatus_inv in Hp as (b & Hb & Hr). rewrite Hl in Hb. injection Hb as <-. cbn zeta in Hr.
  destruct Hr as [[? _]|[[= ->] _]]; [done|].
  destruct (take_snapshots_rest o (pa_now pa) rest before (merge_observed sn instances mg o pa before)) as (_ & _ & ->).
  cbn [merge_observed ss_EstablishedAt]. unfold establish. by rewrite Ht.
Qed.

(** Degraded is reached without having been Ready: a crash-looping Pod of the very
    first bootstrap makes the phase Degraded, and the next pass, still without a
    ready instance, records the cluster as established. *)
Lemma never_ready_is_established :
  let crashing := mkPodInfo "Running" [(Some "CrashLoopBackOff", 3)] [false] false false in
  let answers (_ : string) := mkAnswer (Ok (Some false)) (Ok (Some crashing)) None in
  match observe "prod" 2 (fun n => n) StatusSample.known (StatusSample.environment answers) with
  | Ok o =>
      IsEstablished (kn_Recorded StatusSample.known) = false /\ oc_ReadyInstances o = 0 /\ oc_Phase o = PhaseDegraded /\
      match fst (snd (PatchSample.run o PatchSample.empty_status 100)) with
      | Ok (Some st) =>
          ss_EstablishedAt st = None /\
          (ss_EstablishedAt <$> match fst (snd (PatchSample.run o st 200)) with Ok r => r | Err _ => None end) = Some (Some 200)
      | _ => False
      end
  | Err _ => False
  end.
Proof. vm_compute. split_and!; reflexivity. Qed.

(** A second gap, reported while the first one's grace runs, starts the grace of both
    again: at the time the first was due no backup is asked for. *)
Lemma new_gap_restarts_the_grace :
  let second := mkArchivingPass (Some (PatchSample.report "prod-1" "" (Some (StatusSample.archiving 1 []
                  [PatchSample.gap; BackupSample.uuid +:+ ":9"])))) 1 (9 + archiveGapGrace) in
  let o := PatchSample.observed_as PhaseReady ∅ (Some (foldl (pass_archiving (fun _ => None)) PatchSample.first_seen [second])) in
  ca_GapsSince (foldl (pass_archiving (fun _ => None)) PatchSample.first_seen [second]) = Some (9 + archiveGapGrace) /\
  snd (snd (PatchSample.run o PatchSample.empty_status (10 + archiveGapGrace))) = [].
Proof. vm_compute. by split. Qed.
