(* ===== verification/Requests.v ===== *)
(** * Programs that talk to a server

    A pass of a controller as a finite tree: it ends with a value, or sends a
    request and goes on with the answer.  A run is the list of the requests it sent
    with the answers it got.  Nothing is said of the answers, so what holds of every
    run holds whatever the server and its other clients do. *)

From Stdlib Require Import ZArith Lia Bool.
From stdpp Require Import base list.
From S2P Require Import Prelude.

Inductive tree (R : Type) (answer : R -> Type) (A : Type) : Type :=
| Return (a : A)
| Send (r : R) (k : answer r -> tree R answer A).
Arguments Return {R answer A} a.
Arguments Send {R answer A} r k.

(** A request and the answer it got. *)
Record event (R : Type) (answer : R -> Type) := mkEvent { ev_request : R; ev_answer : answer ev_request }.
Arguments mkEvent {R answer} _ _.
Arguments ev_request {R answer} _.
Arguments ev_answer {R answer} _.

Section Trees.
Context {R : Type} {answer : R -> Type}.
Notation tree := (tree R answer).
Notation event := (event R answer).

Fixpoint tbind {A B} (p : tree A) (f : A -> tree B) : tree B :=
  match p with
  | Return a => f a
  | Send r k => Send r (fun x => tbind (k x) f)
  end.

Definition send (r : R) : tree (answer r) := Send r Return.

(** A fallible step: go on with its value. *)
Definition tbind_result {A B} (p : tree (result A)) (f : A -> tree (result B)) : tree (result B) :=
  tbind p (fun r => match r with Ok a => f a | Err e => Return (Err e) end).

(** The run [tr] of a program ends with [b]. *)
Fixpoint runs {A} (p : tree A) (tr : list event) (b : A) : Prop :=
  match p with
  | Return a => tr = [] /\ b = a
  | Send r k => exists x tr', tr = mkEvent r x :: tr' /\ runs (k x) tr' b
  end.

Lemma runs_bind {A B} (p : tree A) (f : A -> tree B) tr b :
  runs (tbind p f) tr b <-> exists tr1 tr2 a, tr = tr1 ++ tr2 /\ runs p tr1 a /\ runs (f a) tr2 b.
Proof.
  revert tr. induction p as [a|r k IH]; intros tr; cbn.
  - split.
    + intros H. by exists [], tr, a.
    + by intros (tr1 & tr2 & a' & -> & (-> & ->) & H).
  - split.
    + intros (x & tr' & -> & (tr1 & tr2 & a & -> & H1 & H2)%IH). exists (mkEvent r x :: tr1), tr2, a. eauto 10.
    + intros (tr1 & tr2 & a & -> & (x & tr' & -> & H1) & H2). exists x, (tr' ++ tr2). split; [done|]. apply IH. eauto 10.
Qed.

Lemma runs_send r tr x : runs (send r) tr x <-> tr = [mkEvent r x].
Proof.
  cbn. split.
  - by intros (y & tr' & -> & -> & ->).
  - intros ->. by exists x, [].
Qed.

Lemma runs_bind_result {A B} (p : tree (result A)) (f : A -> tree (result B)) tr b :
  runs (tbind_result p f) tr b <->
  (exists e, runs p tr (Err e) /\ b = Err e) \/
  exists tr1 tr2 a, tr = tr1 ++ tr2 /\ runs p tr1 (Ok a) /\ runs (f a) tr2 b.
Proof.
  unfold tbind_result. rewrite runs_bind. split.
  - intros (tr1 & tr2 & [a|e] & -> & H1 & H2); [right; eauto 10|]. destruct H2 as (-> & ->). rewrite app_nil_r. left. eauto.
  - intros [(e & H1 & ->)|(tr1 & tr2 & a & -> & H1 & H2)].
    + exists tr, [], (Err e). by rewrite app_nil_r.
    + by exists tr1, tr2, (Ok a).
Qed.

(** Every request a program may send satisfies [P]. *)
Fixpoint every {A} (P : R -> Prop) (p : tree A) : Prop :=
  match p with
  | Return _ => True
  | Send r k => P r /\ forall x, every P (k x)
  end.

Lemma every_return {A} P (a : A) : every P (Return a).
Proof. done. Qed.

Lemma every_send P r : P r -> every P (send r).
Proof. done. Qed.

Lemma every_bind {A B} P (p : tree A) (f : A -> tree B) : every P p -> (forall a, every P (f a)) -> every P (tbind p f).
Proof. intros Hp Hf. induction p as [a|r k IH]; cbn in *; [done|]. destruct Hp as [Hr Hk]. split; [done|]. auto. Qed.

Lemma every_bind_result {A B} P (p : tree (result A)) (f : A -> tree (result B)) :
  every P p -> (forall a, every P (f a)) -> every P (tbind_result p f).
Proof. intros Hp Hf. apply every_bind; [done|]. by intros [a|e]. Qed.

Lemma every_runs {A} P (p : tree A) tr a : every P p -> runs p tr a -> Forall (fun e => P (ev_request e)) tr.
Proof.
  revert tr. induction p as [b|r k IH]; intros tr; cbn; [by intros _ (-> & _)|].
  intros [Hr Hk] (x & tr' & -> & H). constructor; [done|]. eauto.
Qed.

Lemma every_impl {A} (P Q : R -> Prop) (p : tree A) : (forall r, P r -> Q r) -> every P p -> every Q p.
Proof. intros H. induction p as [a|r k IH]; cbn; [done|]. intros [Hr Hk]. auto. Qed.

(** Answering every request from a table. *)
Fixpoint exec {A} (table : forall r, answer r) (p : tree A) : list event * A :=
  match p with
  | Return a => ([], a)
  | Send r k => let '(tr, a) := exec table (k (table r)) in (mkEvent r (table r) :: tr, a)
  end.

Lemma exec_runs {A} table (p : tree A) : runs p (exec table p).1 (exec table p).2.
Proof.
  induction p as [a|r k IH]; cbn; [done|]. specialize (IH (table r)). destruct (exec table (k (table r))) as [tr a].
  cbn in *. eauto.
Qed.
End Trees.

Declare Scope tree_scope.
Delimit Scope tree_scope with tree.
Notation "'ask!' x := m 'in' k" := (tbind m (fun x => k)) (at level 200, x pattern, right associativity) : tree_scope.
Notation "'try?' x := m 'in' k" := (tbind_result m (fun x => k)) (at level 200, x pattern, right associativity) : tree_scope.

Create HintDb every.
#[export] Hint Resolve every_return every_send every_bind every_bind_result : every.

(** Proves [every P p] by following the program. *)
Ltac every_tac :=
  repeat first
    [ apply every_return | apply every_send; done | apply every_bind_result; [|intro] | apply every_bind; [|intro]
    | progress auto with every nocore | case_match ].

(** Opens a run of a sequence. *)
Ltac open_run H :=
  lazymatch type of H with
  | runs (tbind_result _ _) _ _ => apply runs_bind_result in H
  | runs (tbind _ _) _ _ => apply runs_bind in H
  end.
