(* ===== verification/Provision.v ===== *)
(** * Provisioning, rolling, re-initialising and removing instances

    [internal/controller/cluster_topology.go], [cluster_reinit.go],
    [cluster_auto_reinit.go], the volume's part of [cluster_bootstrap.go] and
    [ensurePVC], [rollForResize] and [ensurePod] of [cluster_resources.go]: what a pass
    does to the Pods, the data volumes and the bootstrap Jobs of a cluster.

    A pass is a tree of requests to the API server ([Requests]), and the theorems
    quantify over its answers.  What the Pod templates hold, the rendered
    configuration and the hash of a Job are arguments; a ConfigMap or Service that is
    created or updated is one request.  Setting an owner reference does not fail. *)

From Stdlib Require Import ZArith Lia Bool Ascii String.
From stdpp Require Import base list strings gmap.
From S2P Require Import Prelude GoStrings Requests Election Cluster Failover Switchover GroupReplication Status.

Local Open Scope Z_scope.
Local Open Scope tree_scope.
#[local] Arguments String.append : simpl nomatch.

(** ** Objects *)

Record ContainerStatus := mkContainerStatus {
  cs_Name : string;
  cs_Waiting : option string;
  cs_RestartCount : Z;
  cs_LastTerminated : option string;
  cs_Terminated : option string
}.

Record Pod := mkPod {
  pd_Name : string;
  pd_Phase : string;
  pd_Terminating : bool;
  pd_ReadyConditions : list bool;
  pd_Labels : gmap string string;
  pd_Annotations : gmap string string;
  pd_Containers : list ContainerStatus
}.

Definition fencingAnnotation : string := "cnmsql.cnmsql.co/fencing".
Definition routableLabel : string := "mysql.cnmsql.co/routable".
Definition routableTrue : string := "true".
Definition podTemplateHashAnnotation : string := "cnmsql.cnmsql.co/pod-template-hash".

Definition isPodFenced (p : Pod) : bool := bool_decide (pd_Annotations p !! fencingAnnotation = Some routableTrue).

(** What the observation reads of it. *)
Definition pod_info (p : Pod) : PodInfo :=
  mkPodInfo (pd_Phase p) ((fun cs => (cs_Waiting cs, cs_RestartCount cs)) <$> pd_Containers p) (pd_ReadyConditions p)
    (isPodFenced p) (pd_Terminating p).

(** A data volume; [pv_Requested] is the requested size, a condition is its type and
    whether it is True. *)
Record PVC := mkPVC {
  pv_Name : string;
  pv_UID : string;
  pv_Annotations : gmap string string;
  pv_Terminating : bool;
  pv_Requested : Z;
  pv_Conditions : list (string * bool)
}.

Definition pvcStatusAnnotation : string := "mysql.cnmsql.co/pvc-status".
Definition pvcStatusInitializing : string := "initializing".
Definition pvcStatusReady : string := "ready".

Definition pvcBootstrapped (pvc : PVC) : bool :=
  match pv_Annotations pvc !! pvcStatusAnnotation with Some status => String.eqb status pvcStatusReady | None => true end.

Definition pvcResizePending (pvc : PVC) : bool :=
  existsb (fun c => snd c && (String.eqb (fst c) "Resizing" || String.eqb (fst c) "FileSystemResizePending")) (pv_Conditions pvc).

Inductive bootstrapMode := bootstrapModeInitDB | bootstrapModeRestore | bootstrapModeJoin | bootstrapModeImport.
Definition mode_string (m : bootstrapMode) : string :=
  match m with
  | bootstrapModeInitDB => "initdb"
  | bootstrapModeRestore => "restore"
  | bootstrapModeJoin => "join"
  | bootstrapModeImport => "import"
  end.

(** A bootstrap Job: the volume it is bound to and the hash of its specification. *)
Record Job := mkJob {
  jb_Name : string;
  jb_Instance : string;
  jb_PVCUID : string;
  jb_Hash : string;
  jb_Terminating : bool;
  jb_Conditions : list (string * bool)
}.

Definition jobFinished (job : Job) (conditionType : string) : bool :=
  existsb (fun c => String.eqb (fst c) conditionType && snd c) (jb_Conditions job).
Definition JobComplete : string := "Complete".
Definition JobFailed : string := "Failed".

(** The Cluster object, the fields these functions read; [kc_Reinit] is the reinit
    annotation. *)
Record KCluster := mkKCluster {
  kc_IsGroupReplication : bool;
  kc_Instances : Z;
  kc_EstablishedAt : option Time;
  kc_Reinit : option string;
  kc_CurrentPrimary : string;
  kc_TargetPrimary : string;
  kc_Phase : string;
  kc_GroupReplication : option GroupReplicationStatus;
  kc_StorageSize : string;
  kc_ResizeInUseVolumes : option bool
}.

Definition established (c : KCluster) : bool := bool_decide (is_Some (kc_EstablishedAt c)).
Definition ShouldResizeInUseVolumes (c : KCluster) : bool := default true (kc_ResizeInUseVolumes c).

Definition with_Reinit (c : KCluster) (v : option string) : KCluster :=
  mkKCluster (kc_IsGroupReplication c) (kc_Instances c) (kc_EstablishedAt c) v (kc_CurrentPrimary c) (kc_TargetPrimary c)
    (kc_Phase c) (kc_GroupReplication c) (kc_StorageSize c) (kc_ResizeInUseVolumes c).

(** ** The plan *)

(** The fields these functions read; [pl_Recovery] and [pl_Import] are whether the plan has
    such a source. *)
Record clusterPlan := mkClusterPlan {
  pl_Instances : Z;
  pl_PrimaryName : string;
  pl_Recovery : bool;
  pl_Import : bool
}.

Record instancePlan := mkInstancePlan {
  ip_Name : string;
  ip_Ordinal : Z;
  ip_IsPrimary : bool;
  ip_PVCName : string;
  ip_ConfigMapName : string;
  ip_ServiceName : string
}.

(** ** Requests *)

(** How a write ends. *)
Inductive outcome := Accepted | NotFound | AlreadyExists | Rejected (e : error).

Inductive request :=
| GetPod (name : string)
| CreatePod (name : string) (labels annotations : gmap string string)
| PatchPod (name : string) (labels annotations : gmap string string)
| DeletePod (name : string)
| ListPods
| GetPVC (name : string)
| CreatePVC (name : string)
| MarkPVCReady (name : string)
| GrowPVC (name : string) (size : Z)
| DeletePVC (name : string)
| ListPVCs
| ListJobs (instance : option string)
| CreateJob (job : Job)
| DeleteJob (name : string)
| EnsureConfigMap (name : string)
| EnsureService (name : string)
| DeleteConfigMap (name : string)
| DeleteService (name : string)
| PatchReinit (value : option string).

(** A Get answers [Ok None] when there is no such object; a patch answers the object
    as the server has it then. *)
Definition answer (r : request) : Type :=
  match r with
  | GetPod _ => result (option Pod)
  | ListPods => result (list Pod)
  | GetPVC _ => result (option PVC)
  | MarkPVCReady _ | GrowPVC _ _ => result PVC
  | ListPVCs => result (list PVC)
  | ListJobs _ => result (list Job)
  | EnsureConfigMap _ | EnsureService _ => result unit
  | PatchReinit _ => result KCluster
  | _ => outcome
  end.

Abbreviation program := (tree request answer).
Abbreviation trace := (list (event request answer)).

(** The error of a write, and [client.IgnoreNotFound], [client.IgnoreAlreadyExists]. *)
Definition written (o : outcome) : result unit :=
  match o with
  | Accepted => Ok tt
  | NotFound => Err (Errorf "not found")
  | AlreadyExists => Err (Errorf "already exists")
  | Rejected e => Err e
  end.
Definition IgnoreNotFound (o : outcome) : result unit := match o with NotFound => Ok tt | _ => written o end.
Definition IgnoreAlreadyExists (o : outcome) : result unit := match o with AlreadyExists => Ok tt | _ => written o end.

(** The order in which a Go map is ranged over. *)
Class MapRange := {
  map_range : gset string -> list string;
  map_range_spec s x : x ∈ map_range s <-> x ∈ s
}.

Section Provision.
(** The name of the Cluster. *)
Context (cluster : string).

Definition primaryName (p : clusterPlan) : string :=
  if negb (String.eqb (pl_PrimaryName p) "") then pl_PrimaryName p else instanceName cluster 1.

Definition instanceFor (p : clusterPlan) (ordinal : Z) : instancePlan :=
  let name := instanceName cluster ordinal in
  mkInstancePlan name ordinal (String.eqb name (primaryName p)) name (name +:+ "-config") name.

(** ** Re-initialisation *)

Definition reinitRequestedInstances (c : KCluster) : list string :=
  match kc_Reinit c with
  | None => []
  | Some raw =>
      if String.eqb raw "" then []
      else List.filter (fun name => negb (String.eqb name "")) (TrimSpace <$> Split raw ",")
  end.

Definition reinitRequested (c : KCluster) (name : string) : bool := bool_decide (name ∈ reinitRequestedInstances c).

(** The Cluster after the call, and whether it succeeded: the object is changed
    before it is patched, and the answer replaces it. *)
Definition patch_reinit (c : KCluster) (value : option string) : program (KCluster * result unit) :=
  ask! r := send (PatchReinit value) in
  match r with
  | Ok c' => Return (c', Ok tt)
  | Err e => Return (with_Reinit c value, Err e)
  end.

Definition clearReinitRequest (c : KCluster) (name : string) : program (KCluster * result unit) :=
  let remaining := List.filter (fun n => negb (String.eqb n name)) (reinitRequestedInstances c) in
  let value := match remaining with [] => None | _ => Some (Join remaining ",") end in
  if bool_decide (value = kc_Reinit c) then Return (c, Ok tt) else patch_reinit c value.

Definition addReinitRequests (c : KCluster) (names : list string) : program (KCluster * result unit) :=
  let existing := reinitRequestedInstances c in
  let merged := foldl (fun merged name => if bool_decide (name ∈ merged) then merged else merged ++ [name]) existing names in
  if Nat.eqb (length merged) (length existing) then Return (c, Ok tt) else patch_reinit c (Some (Join merged ",")).

Definition autoReinitRestartThreshold : Z := 7.
Definition corruptionReinitRestartThreshold : Z := crashLoopRestartThreshold.
Definition instanceContainerName : string := "mysql".
Definition CorruptionSentinel : string := "CNMSQL_INNODB_CORRUPTION".

(** [strings.Contains]. *)
Definition Contains (s sub : string) : bool := match String.index 0 sub s with Some _ => true | None => false end.

Definition containerReportedCorruption (cs : ContainerStatus) : bool :=
  match cs_LastTerminated cs with Some m => Contains m CorruptionSentinel | None => false end ||
  match cs_Terminated cs with Some m => Contains m CorruptionSentinel | None => false end.

Definition stuck (cs : ContainerStatus) : bool :=
  String.eqb (cs_Name cs) instanceContainerName && bool_decide (cs_Waiting cs = Some "CrashLoopBackOff") &&
  ((if containerReportedCorruption cs then corruptionReinitRestartThreshold else autoReinitRestartThreshold) <=? cs_RestartCount cs).
Definition shouldAutoReinit (p : Pod) : bool := existsb stuck (pd_Containers p).

(** The loop over the failed instances; the names to re-initialise. *)
Fixpoint auto_reinit_loop (c : KCluster) (primary : string) (failed : list string) : program (result (list string)) :=
  match failed with
  | [] => Return (Ok [])
  | name :: failed' =>
      if String.eqb name primary || reinitRequested c name then auto_reinit_loop c primary failed'
      else
        try? pod := send (GetPod name) in
        try? rest := auto_reinit_loop c primary failed' in
        Return (Ok (match pod with Some p => if shouldAutoReinit p then name :: rest else rest | None => rest end))
  end.

Definition reconcileAutoReinit (c : KCluster) (o : Observed) : program (KCluster * result unit) :=
  let failed := se_FailedInstances (oc_Seen o) in
  let primary := oc_PrimaryName o in
  if kc_IsGroupReplication c then Return (c, Ok tt)
  else if negb (established c) then Return (c, Ok tt)
  else if Nat.eqb (length failed) 0 then Return (c, Ok tt)
  else if String.eqb primary "" then Return (c, Ok tt)
  else if negb (match se_StatusByInstance (oc_Seen o) !! primary with Some r => re_IsReady r | None => false end) then Return (c, Ok tt)
  else
    ask! names := auto_reinit_loop c primary failed in
    match names with
    | Err e => Return (c, Err e)
    | Ok [] => Return (c, Ok tt)
    | Ok toReinit => addReinitRequests c toReinit
    end.

(** ** Bootstrap Jobs *)

Definition deleteBootstrapJob (job : Job) : program (result unit) :=
  if jb_Terminating job then Return (Ok tt)
  else ask! o := send (DeleteJob (jb_Name job)) in Return (IgnoreNotFound o).

Fixpoint delete_jobs (jobs : list Job) : program (result unit) :=
  match jobs with
  | [] => Return (Ok tt)
  | job :: jobs' => try? _ := deleteBootstrapJob job in delete_jobs jobs'
  end.

Definition bootstrapJobs (instance : string) : program (result (list Job)) :=
  try? jobs := send (ListJobs (Some instance)) in
  Return (Ok (isort (fun a b => String.leb (jb_Name a) (jb_Name b)) jobs)).

(** How many Jobs were left. *)
Definition deleteBootstrapJobs (instance : string) : program (result nat) :=
  try? jobs := bootstrapJobs instance in
  try? _ := delete_jobs jobs in
  Return (Ok (length jobs)).

Definition instancePodExists (inst : instancePlan) : program (result bool) :=
  try? pod := send (GetPod (ip_Name inst)) in Return (Ok (bool_decide (is_Some pod))).

Definition instancePVCBootstrapped (inst : instancePlan) : program (result bool) :=
  try? pvc := send (GetPVC (ip_PVCName inst)) in
  Return (Ok (match pvc with Some v => pvcBootstrapped v | None => false end)).

(** The teardown of the Pod and of the volume: whether each was gone already. *)
Definition teardown_pod (inst : instancePlan) : program (result bool) :=
  try? pod := send (GetPod (ip_Name inst)) in
  match pod with
  | None => Return (Ok true)
  | Some p =>
      if pd_Terminating p then Return (Ok false)
      else ask! o := send (DeletePod (ip_Name inst)) in Return (match IgnoreNotFound o with Ok _ => Ok false | Err e => Err e end)
  end.
Definition teardown_pvc (inst : instancePlan) : program (result bool) :=
  try? pvc := send (GetPVC (ip_PVCName inst)) in
  match pvc with
  | None => Return (Ok true)
  | Some v =>
      if pv_Terminating v then Return (Ok false)
      else ask! o := send (DeletePVC (ip_PVCName inst)) in Return (match IgnoreNotFound o with Ok _ => Ok false | Err e => Err e end)
  end.

Definition reconcileReinit (c : KCluster) (inst : instancePlan) : program (KCluster * result bool) :=
  let fail e := Return (c, Err e) in
  if negb (reinitRequested c (ip_Name inst)) then Return (c, Ok false)
  else if ip_IsPrimary inst then
    ask! (c', r) := clearReinitRequest c (ip_Name inst) in
    Return (c', match r with Ok _ => Ok false | Err e => Err e end)
  else
    ask! podGone := teardown_pod inst in
    match podGone with
    | Err e => fail e
    | Ok podGone =>
        ask! jobsLeft := deleteBootstrapJobs (ip_Name inst) in
        match jobsLeft with
        | Err e => fail e
        | Ok jobsLeft =>
            ask! pvcGone := teardown_pvc inst in
            match pvcGone with
            | Err e => fail e
            | Ok pvcGone =>
                if negb podGone || negb pvcGone || (0 <? jobsLeft)%nat then Return (c, Ok true)
                else
                  ask! (c', r) := clearReinitRequest c (ip_Name inst) in
                  Return (c', match r with Ok _ => Ok false | Err e => Err e end)
            end
        end
    end.

(** ** One instance *)

Definition podAnnotationsOwnedElsewhere : list string :=
  [fencingAnnotation; "cnmsql.cnmsql.co/unreachable-since"; "cnmsql.cnmsql.co/reload-applied"; "cnmsql.cnmsql.co/force-quorum-members";
   "cnmsql.cnmsql.co/force-group-rebootstrap"; "mysql.cnmsql.co/gr-observed"].

Section Instances.
(** [resource.ParseQuantity]; the labels, the annotations and the Job hash the operator
    would give an instance now. *)
Context (ParseQuantity : string -> result Z).
Context (labelsFor : KCluster -> instancePlan -> gmap string string).
Context (podAnnotations : KCluster -> clusterPlan -> instancePlan -> result (gmap string string)).
Context (jobHash : KCluster -> clusterPlan -> instancePlan -> bootstrapMode -> result string).

Definition bootstrapModeFor (c : KCluster) (plan : clusterPlan) (inst : instancePlan) : bootstrapMode :=
  if ip_IsPrimary inst then
    if pl_Recovery plan then bootstrapModeRestore else if pl_Import plan then bootstrapModeImport else bootstrapModeInitDB
  else if kc_IsGroupReplication c then bootstrapModeInitDB else bootstrapModeJoin.

Definition bootstrapJob (c : KCluster) (plan : clusterPlan) (inst : instancePlan) (mode : bootstrapMode) (pvc : PVC) : result Job :=
  let? hash := jobHash c plan inst mode in
  Ok (mkJob (ip_Name inst +:+ "-" +:+ mode_string mode) (ip_Name inst) (pv_UID pvc) hash false []).

Definition ensurePVC (c : KCluster) (inst : instancePlan) : program (result bool) :=
  try? found := send (GetPVC (ip_PVCName inst)) in
  match found with
  | None =>
      match (if String.eqb (kc_StorageSize c) "" then Ok 0 else ParseQuantity (kc_StorageSize c)) with
      | Err e => Return (Err e)
      | Ok _ => ask! o := send (CreatePVC (ip_PVCName inst)) in
                Return (match written o with Ok _ => Ok false | Err e => Err e end)
      end
  | Some pvc =>
      try? pvc := (match pv_Annotations pvc !! pvcStatusAnnotation with
                   | Some _ => Return (Ok pvc)
                   | None => send (MarkPVCReady (ip_PVCName inst))
                   end) in
      if String.eqb (kc_StorageSize c) "" then Return (Ok false)
      else
        match ParseQuantity (kc_StorageSize c) with
        | Err e => Return (Err e)
        | Ok desired =>
            try? pvc := (if pv_Requested pvc <? desired then send (GrowPVC (ip_PVCName inst) desired) else Return (Ok pvc)) in
            Return (Ok (negb (ShouldResizeInUseVolumes c) && pvcResizePending pvc))
        end
  end.

(** The switch over the instance's Jobs: only the first one decides. *)
Definition bootstrap_with_job (inst : instancePlan) (pvc : PVC) (desired job : Job) : program (result bool) :=
  let drop := try? _ := deleteBootstrapJob job in Return (Ok false) in
  if jb_Terminating job then Return (Ok false)
  else if negb (String.eqb (jb_PVCUID job) (pv_UID pvc)) then drop
  else if jobFinished job JobComplete then
    try? _ := send (MarkPVCReady (ip_PVCName inst)) in drop
  else if jobFinished job JobFailed then
    if negb (String.eqb (jb_Hash job) (jb_Hash desired)) then drop else Return (Ok false)
  else Return (Ok false).

Definition ensureBootstrapped (c : KCluster) (plan : clusterPlan) (inst : instancePlan) : program (result bool) :=
  try? found := send (GetPVC (ip_PVCName inst)) in
  match found with
  | None => Return (Ok false)
  | Some pvc =>
      if pvcBootstrapped pvc then
        try? jobsLeft := deleteBootstrapJobs (ip_Name inst) in Return (Ok (Nat.eqb jobsLeft 0))
      else
        try? podExists := instancePodExists inst in
        if (podExists : bool) then Return (Ok false)
        else if ip_IsPrimary inst && established c then Return (Ok false)
        else
          match bootstrapJob c plan inst (bootstrapModeFor c plan inst) pvc with
          | Err e => Return (Err e)
          | Ok desired =>
              try? jobs := bootstrapJobs (ip_Name inst) in
              match jobs with
              | job :: _ => bootstrap_with_job inst pvc desired job
              | [] => ask! o := send (CreateJob desired) in
                      Return (match IgnoreAlreadyExists o with Ok _ => Ok false | Err e => Err e end)
              end
          end
  end.

Definition rollForResize (inst : instancePlan) (allowRoll : bool) : program (result bool) :=
  if negb allowRoll then Return (Ok false)
  else
    try? pod := send (GetPod (ip_Name inst)) in
    match pod with
    | None => Return (Ok false)
    | Some p =>
        if pd_Terminating p then Return (Ok true)
        else ask! o := send (DeletePod (ip_Name inst)) in Return (match written o with Ok _ => Ok true | Err e => Err e end)
    end.

(** The live values of what other passes own are kept. *)
Definition keep_label (live desired : gmap string string) : gmap string string :=
  match live !! routableLabel with Some v => <[routableLabel := v]> desired | None => desired end.
Definition keep_annotations (live desired : gmap string string) : gmap string string :=
  foldl (fun m key => match live !! key with Some v => <[key := v]> m | None => m end) desired podAnnotationsOwnedElsewhere.

(** [m[key]] of a Go map of strings. *)
Definition value_of (m : gmap string string) (key : string) : string := default "" (m !! key).

Definition ensurePod (c : KCluster) (plan : clusterPlan) (inst : instancePlan) (allowRoll : bool) : program (result bool) :=
  let labels := labelsFor c inst in
  match podAnnotations c plan inst with
  | Err e => Return (Err e)
  | Ok annotations =>
      let finish o := Return (match written o with Ok _ => Ok false | Err e => Err e end) in
      try? pod := send (GetPod (ip_Name inst)) in
      match pod with
      | None => ask! o := send (CreatePod (ip_Name inst) labels annotations) in finish o
      | Some p =>
          if pd_Terminating p then Return (Ok false)
          else
            let labels := keep_label (pd_Labels p) labels in
            let annotations := keep_annotations (pd_Annotations p) annotations in
            if negb (String.eqb (value_of (pd_Annotations p) podTemplateHashAnnotation) (value_of annotations podTemplateHashAnnotation)) then
              if negb allowRoll then Return (Ok false)
              else ask! o := send (DeletePod (ip_Name inst)) in Return (match written o with Ok _ => Ok true | Err e => Err e end)
            else if bool_decide (pd_Labels p = labels) && bool_decide (pd_Annotations p = annotations) then Return (Ok false)
            else ask! o := send (PatchPod (ip_Name inst) labels annotations) in finish o
      end
  end.

Definition ensureInstance (c : KCluster) (plan : clusterPlan) (inst : instancePlan) (allowRoll : bool) : program (KCluster * result bool) :=
  ask! (c, handled) := reconcileReinit c inst in
  match handled with
  | Err e => Return (c, Err e)
  | Ok true => Return (c, Ok true)
  | Ok false =>
      ask! r :=
        (try? _ := send (EnsureConfigMap (ip_ConfigMapName inst)) in
         try? needsResizeRoll := ensurePVC c inst in
         try? _ := send (EnsureService (ip_ServiceName inst)) in
         try? bootstrapped := ensureBootstrapped c plan inst in
         if negb bootstrapped then Return (Ok false)
         else
           try? rolled := (if (needsResizeRoll : bool) then rollForResize inst allowRoll else Return (Ok false)) in
           if (rolled : bool) then Return (Ok true) else ensurePod c plan inst allowRoll) in
      Return (c, r)
  end.

(** ** All instances *)

Definition memberOnline (gr : option GroupReplicationStatus) (instance : string) : bool :=
  match gr with
  | None => false
  | Some gr =>
      match List.find (fun m => String.eqb (me_Instance m) instance) (gr_Members gr) with
      | Some m => String.eqb (me_State m) MemberStateOnline
      | None => false
      end
  end.

(** Whether a Pod that was read is ready, with the observed status. *)
Definition live_ready (c : KCluster) (o : Observed) (name : string) (pod : option Pod) : bool :=
  match pod with
  | None => false
  | Some p =>
      if pd_Terminating p || negb (podReady (pod_info p)) then false
      else
        match se_StatusByInstance (oc_Seen o) !! name with
        | Some r => re_IsReady r && (if kc_IsGroupReplication c then memberOnline (tv_GroupReplication (oc_View o)) name else true)
        | None => false
        end
  end.

Definition instanceFullyReady (c : KCluster) (o : Observed) (inst : instancePlan) : program (result bool) :=
  try? pod := send (GetPod (ip_Name inst)) in Return (Ok (live_ready c o (ip_Name inst) pod)).

Fixpoint replicas_ready_loop (c : KCluster) (plan : clusterPlan) (o : Observed) (primary : string) (ordinals : list Z) : program (result bool) :=
  match ordinals with
  | [] => Return (Ok true)
  | i :: ordinals' =>
      let inst := instanceFor plan i in
      if String.eqb (ip_Name inst) primary then replicas_ready_loop c plan o primary ordinals'
      else
        try? ready := instanceFullyReady c o inst in
        if negb ready then Return (Ok false) else replicas_ready_loop c plan o primary ordinals'
  end.

Definition replicasFullyReady (c : KCluster) (plan : clusterPlan) (o : Observed) (primary : string) : program (result bool) :=
  replicas_ready_loop c plan o primary (ordinals (pl_Instances plan)).

Definition instancePendingRoll (c : KCluster) (plan : clusterPlan) (inst : instancePlan) : program (result bool) :=
  try? pod := send (GetPod (ip_Name inst)) in
  match pod with
  | None => Return (Ok false)
  | Some p =>
      if pd_Terminating p then Return (Ok false)
      else
        match podAnnotations c plan inst with
        | Err e => Return (Err e)
        | Ok annotations =>
            Return (Ok (negb (String.eqb (value_of (pd_Annotations p) podTemplateHashAnnotation) (value_of annotations podTemplateHashAnnotation))))
        end
  end.

(** [DonorAvailable] of the two topologies; [failover] is [topologyFailoverState]. *)
Definition DonorAvailable (c : KCluster) (group : option GroupReplicationStatus) (failover : FailoverState) : bool :=
  if kc_IsGroupReplication c then
    match group with
    | Some g => gr_HasQuorum g && existsb (fun m => String.eqb (me_State m) MemberStateOnline) (gr_Members g)
    | None => false
    end
  else PrimaryHealthy failover.

Definition quorumRecoveryBlocked (c : KCluster) : bool :=
  kc_IsGroupReplication c && String.eqb (kc_Phase c) PhaseBlocked &&
  match kc_GroupReplication c with Some g => gr_Bootstrapped g && negb (gr_HasQuorum g) | None => false end.

Definition gateInstance (c : KCluster) (plan : clusterPlan) (inst : instancePlan) (o : Observed) (failover : FailoverState)
  : program (result bool) :=
  try? podExists := instancePodExists inst in
  try? bootstrapped := (if negb podExists || quorumRecoveryBlocked c then instancePVCBootstrapped inst else Return (Ok false)) in
  if (bootstrapped : bool) then Return (Ok true)
  else
    try? prevReady := instanceFullyReady c o (instanceFor plan (ip_Ordinal inst - 1)) in
    if negb prevReady then Return (Ok false)
    else if (podExists : bool) then Return (Ok true)
    else Return (Ok (DonorAvailable c (tv_GroupReplication (oc_View o)) failover)).

(** The loop: the Cluster, and whether it went through. *)
Fixpoint instances_loop (c : KCluster) (plan : clusterPlan) (o : Observed) (failover : FailoverState) (primary : string) (ordinals : list Z)
  : program (KCluster * result bool) :=
  match ordinals with
  | [] => Return (c, Ok true)
  | i :: ordinals' =>
      let inst := instanceFor plan i in
      ask! proceed := (if 1 <? i then gateInstance c plan inst o failover else Return (Ok true)) in
      match proceed with
      | Err e => Return (c, Err e)
      | Ok false => Return (c, Ok false)
      | Ok true =>
          ask! (c, rolled) := ensureInstance c plan inst (negb (String.eqb (ip_Name inst) primary)) in
          match rolled with
          | Err e => Return (c, Err e)
          | Ok true => Return (c, Ok false)
          | Ok false => instances_loop c plan o failover primary ordinals'
          end
      end
  end.

(** The roll of the primary, last. *)
Definition roll_primary (c : KCluster) (plan : clusterPlan) (o : Observed) (primary : string) : program (result bool) :=
  match instanceOrdinal cluster primary with
  | None => Return (Ok true)
  | Some ordinal =>
      let inst := instanceFor plan ordinal in
      try? pendingRoll := instancePendingRoll c plan inst in
      if negb pendingRoll then Return (Ok true)
      else if oc_Ready o then
        try? replicasReady := replicasFullyReady c plan o primary in
        if (replicasReady : bool) then
          ask! (_, r) := ensureInstance c plan inst true in
          Return (match r with Ok _ => Ok false | Err e => Err e end)
        else Return (Ok false)
      else Return (Ok false)
  end.

Definition acting_primary (plan : clusterPlan) (o : Observed) : string :=
  if String.eqb (oc_PrimaryName o) "" then primaryName plan else oc_PrimaryName o.

(** A total outage starts with the recorded primary alone. *)
Definition outage_ordinal (c : KCluster) (o : Observed) : option Z :=
  if String.eqb (oc_Phase o) PhaseFullOutage && negb (String.eqb (kc_CurrentPrimary c) "") then instanceOrdinal cluster (kc_CurrentPrimary c)
  else None.

Definition reconcileInstances (c : KCluster) (plan : clusterPlan) (o : Observed) (failover : FailoverState) : program (result bool) :=
  ask! (c, r) := reconcileAutoReinit c o in
  match r with
  | Err e => Return (Err e)
  | Ok _ =>
      match outage_ordinal c o with
      | Some ordinal =>
          ask! (_, r) := ensureInstance c plan (instanceFor plan ordinal) false in
          Return (match r with Ok _ => Ok false | Err e => Err e end)
      | None =>
          let primary := acting_primary plan o in
          ask! (c, done) := instances_loop c plan o failover primary (ordinals (pl_Instances plan)) in
          match done with
          | Err e => Return (Err e)
          | Ok false => Return (Ok false)
          | Ok true => roll_primary c plan o primary
          end
      end
  end.
End Instances.

(** ** Scaling down *)

Definition deleteUnbootstrappedPVC (inst : instancePlan) : program (result unit) :=
  try? found := send (GetPVC (ip_PVCName inst)) in
  match found with
  | None => Return (Ok tt)
  | Some pvc =>
      if pvcBootstrapped pvc then Return (Ok tt)
      else ask! o := send (DeletePVC (ip_PVCName inst)) in Return (IgnoreNotFound o)
  end.

Definition removeInstanceResources (inst : instancePlan) : program (result unit) :=
  try? _ := deleteBootstrapJobs (ip_Name inst) in
  try? _ := (ask! o := send (DeletePod (ip_Name inst)) in Return (IgnoreNotFound o)) in
  try? _ := (ask! o := send (DeleteConfigMap (ip_ConfigMapName inst)) in Return (IgnoreNotFound o)) in
  try? _ := (ask! o := send (DeleteService (ip_ServiceName inst)) in Return (IgnoreNotFound o)) in
  deleteUnbootstrappedPVC inst.

Definition surplus (plan : clusterPlan) (name : string) : bool :=
  match instanceOrdinal cluster name with Some ordinal => pl_Instances plan <? ordinal | None => false end.

(** The names of the surplus instances with a bootstrap Job or an unfinished volume. *)
Definition surplus_names (plan : clusterPlan) (jobs : list Job) (pvcs : list PVC) : gset string :=
  list_to_set (List.filter (surplus plan)
    ((jb_Instance <$> jobs) ++
     (pv_Name <$> List.filter (fun pvc => bool_decide (pv_Annotations pvc !! pvcStatusAnnotation = Some pvcStatusInitializing)) pvcs))).

Fixpoint collect_loop (c : KCluster) (plan : clusterPlan) (names : list string) : program (result unit) :=
  match names with
  | [] => Return (Ok tt)
  | name :: names' =>
      let next := collect_loop c plan names' in
      match instanceOrdinal cluster name with
      | None => next
      | Some ordinal =>
          let inst := instanceFor plan ordinal in
          if ordinal <=? pl_Instances plan then next
          else if String.eqb (ip_Name inst) (primaryName plan) || String.eqb (ip_Name inst) (kc_TargetPrimary c) then next
          else
            ask! podExists := instancePodExists inst in
            match podExists with
            | Ok false => try? _ := removeInstanceResources inst in next
            | _ => next
            end
      end
  end.

Definition garbageCollectSurplusBootstrap `{MapRange} (c : KCluster) (plan : clusterPlan) : program (result unit) :=
  try? jobs := send (ListJobs None) in
  try? pvcs := send ListPVCs in
  collect_loop c plan (map_range (surplus_names plan jobs pvcs)).

Definition stampFencingAnnotation (p : Pod) : program (result unit) :=
  if isPodFenced p then Return (Ok tt)
  else ask! o := send (PatchPod (pd_Name p) (pd_Labels p) (<[fencingAnnotation := routableTrue]> (pd_Annotations p))) in Return (written o).

(** Whether the quorum guard of the topology refuses the removal. *)
Definition scale_down_blocked (c : KCluster) : bool :=
  kc_IsGroupReplication c &&
  match ScaleDownQuorumGuard (mkGroupCluster "" (kc_Instances c) (kc_CurrentPrimary c) 0 (kc_TargetPrimary c) (kc_GroupReplication c)) with Some guard => qr_Blocked guard | None => false end.

Fixpoint scale_down_loop (c : KCluster) (plan : clusterPlan) (pods : list Pod) : program (result unit) :=
  match pods with
  | [] => Return (Ok tt)
  | pod :: pods' =>
      let next := scale_down_loop c plan pods' in
      match instanceOrdinal cluster (pd_Name pod) with
      | None => next
      | Some ordinal =>
          if (ordinal <=? pl_Instances plan) || String.eqb (pd_Name pod) (primaryName plan) || String.eqb (pd_Name pod) (kc_TargetPrimary c) then next
          else if scale_down_blocked c then next
          else if kc_IsGroupReplication c && negb (isPodFenced pod) then
            try? _ := stampFencingAnnotation pod in next
          else try? _ := removeInstanceResources (instanceFor plan ordinal) in next
      end
  end.

Definition scaleDownReplicas `{MapRange} (c : KCluster) (plan : clusterPlan) : program (result unit) :=
  let current := kc_CurrentPrimary c in
  let target := kc_TargetPrimary c in
  if negb (String.eqb current "") && negb (String.eqb target "") && negb (String.eqb target current) then Return (Ok tt)
  else
    try? _ := garbageCollectSurplusBootstrap c plan in
    try? pods := send ListPods in
    scale_down_loop c plan pods.
End Provision.
