(* ===== verification/ProvisionSafety.v ===== *)
(** * What provisioning may delete

    Theorems about [Provision]: whatever the API server answers, a pass deletes at
    most one Pod, and why; which data volumes it may delete; and when a Pod or a
    bootstrap Job is created on a volume. *)

From Stdlib Require Import ZArith Lia Bool Ascii String.
From stdpp Require Import base list strings gmap.
From S2P Require Import Prelude GoStrings Requests Election Cluster Failover Switchover GroupReplication Status Provision.

Local Open Scope Z_scope.
#[local] Arguments String.append : simpl nomatch.

(** ** Requests of a run *)

Definition sent (tr : trace) : list request := ev_request <$> tr.

Definition pods_deleted (tr : trace) : list string := omap (fun r => match r with DeletePod n => Some n | _ => None end) (sent tr).
Definition volumes_deleted (tr : trace) : list string := omap (fun r => match r with DeletePVC n => Some n | _ => None end) (sent tr).

Lemma sent_app tr1 tr2 : sent (tr1 ++ tr2) = sent tr1 ++ sent tr2.
Proof. apply fmap_app. Qed.
Lemma pods_deleted_app tr1 tr2 : pods_deleted (tr1 ++ tr2) = pods_deleted tr1 ++ pods_deleted tr2.
Proof. unfold pods_deleted. by rewrite sent_app, omap_app. Qed.
Lemma volumes_deleted_app tr1 tr2 : volumes_deleted (tr1 ++ tr2) = volumes_deleted tr1 ++ volumes_deleted tr2.
Proof. unfold volumes_deleted. by rewrite sent_app, omap_app. Qed.

(** Requests that delete neither Pods nor volumes. *)
Definition keeps (r : request) : Prop := match r with DeletePod _ | DeletePVC _ => False | _ => True end.

Definition deletes_nothing (tr : trace) : Prop := pods_deleted tr = [] /\ volumes_deleted tr = [].

Lemma every_keeps {A} (p : program A) tr a : every keeps p -> runs p tr a -> deletes_nothing tr.
Proof.
  intros H Hr. pose proof (every_runs _ _ _ _ H Hr) as Hf. clear Hr. unfold deletes_nothing, pods_deleted, volumes_deleted, sent.
  induction Hf as [|e tr He _ IH]; [done|]. cbn. destruct (ev_request e); try done; by destruct He.
Qed.

Lemma deletes_nothing_app tr1 tr2 : deletes_nothing (tr1 ++ tr2) <-> deletes_nothing tr1 /\ deletes_nothing tr2.
Proof.
  unfold deletes_nothing. rewrite pods_deleted_app, volumes_deleted_app. split.
  - intros [[? ?]%app_eq_nil [? ?]%app_eq_nil]. done.
  - intros [[-> ->] [-> ->]]. done.
Qed.

(** ** Operations that delete nothing *)

Lemma patch_reinit_keeps c v : every keeps (patch_reinit c v).
Proof. unfold patch_reinit. every_tac. Qed.
Lemma clearReinitRequest_keeps c n : every keeps (clearReinitRequest c n).
Proof. unfold clearReinitRequest. pose proof patch_reinit_keeps. every_tac. Qed.
Lemma addReinitRequests_keeps c l : every keeps (addReinitRequests c l).
Proof. unfold addReinitRequests. pose proof patch_reinit_keeps. every_tac. Qed.
Lemma delete_jobs_keeps jobs : every keeps (delete_jobs jobs).
Proof. induction jobs as [|j jobs IH]; cbn [delete_jobs]; [done|]. unfold deleteBootstrapJob. every_tac. Qed.
Lemma deleteBootstrapJobs_keeps n : every keeps (deleteBootstrapJobs n).
Proof. unfold deleteBootstrapJobs. pose proof delete_jobs_keeps. every_tac. Qed.
#[local] Hint Resolve patch_reinit_keeps clearReinitRequest_keeps addReinitRequests_keeps delete_jobs_keeps deleteBootstrapJobs_keeps : every.

Lemma auto_reinit_loop_keeps c primary failed : every keeps (auto_reinit_loop c primary failed).
Proof. induction failed as [|n failed IH]; cbn [auto_reinit_loop]; [done|]. every_tac. Qed.
#[local] Hint Resolve auto_reinit_loop_keeps : every.
Lemma reconcileAutoReinit_keeps c o : every keeps (reconcileAutoReinit c o).
Proof. unfold reconcileAutoReinit. every_tac. Qed.
Lemma ensurePVC_keeps PQ c inst : every keeps (ensurePVC PQ c inst).
Proof. unfold ensurePVC. every_tac. Qed.
Lemma bootstrap_with_job_keeps inst pvc desired job : every keeps (bootstrap_with_job inst pvc desired job).
Proof. unfold bootstrap_with_job, deleteBootstrapJob. every_tac. Qed.
#[local] Hint Resolve reconcileAutoReinit_keeps ensurePVC_keeps bootstrap_with_job_keeps : every.
Lemma ensureBootstrapped_keeps jh c plan inst : every keeps (ensureBootstrapped jh c plan inst).
Proof. unfold ensureBootstrapped, instancePodExists, bootstrapJobs. every_tac. Qed.
Lemma instanceFullyReady_keeps c o inst : every keeps (instanceFullyReady c o inst).
Proof. unfold instanceFullyReady. every_tac. Qed.
#[local] Hint Resolve ensureBootstrapped_keeps instanceFullyReady_keeps : every.
Lemma gateInstance_keeps cl c plan inst o fo : every keeps (gateInstance cl c plan inst o fo).
Proof. unfold gateInstance, instancePodExists, instancePVCBootstrapped. every_tac. Qed.
Lemma replicas_ready_loop_keeps cl c plan o primary l : every keeps (replicas_ready_loop cl c plan o primary l).
Proof. induction l as [|i l IH]; cbn [replicas_ready_loop]; [done|]. every_tac. Qed.
Lemma instancePendingRoll_keeps pa c plan inst : every keeps (instancePendingRoll pa c plan inst).
Proof. unfold instancePendingRoll. every_tac. Qed.

(** ** Operations that delete *)

(** Opens the runs of single steps, and of all steps. *)
Ltac step_inv :=
  repeat match goal with
  | H : runs (Return _) _ _ |- _ => destruct H as [? ?]; subst
  | H : @runs _ _ _ (@send _ _ ?r) ?tr ?x |- _ => apply (proj1 (@runs_send _ answer r tr x)) in H; subst
  | H : (_, _) = (_, _) |- _ => progress simplify_eq
  end.
Ltac run_inv :=
  repeat match goal with
  | _ => progress step_inv
  | H : runs (tbind_result _ _) _ _ |- _ => apply runs_bind_result in H as [(? & ? & ?)|(? & ? & ? & ? & ? & ?)]; subst
  | H : runs (tbind _ _) _ _ |- _ => apply runs_bind in H as (? & ? & ? & ? & ? & ?); subst
  end.

Lemma teardown_pod_run inst tr r :
  runs (teardown_pod inst) tr r ->
  volumes_deleted tr = [] /\ (pods_deleted tr = [] \/ pods_deleted tr = [ip_Name inst] /\ r <> Ok true).
Proof.
  unfold teardown_pod. intros H. run_inv; [cbn; auto|]. destruct x1 as [p|]; [destruct (pd_Terminating p)|]; run_inv; cbn; auto.
  split; [done|]. right. split; [done|]. by destruct (IgnoreNotFound _).
Qed.

Lemma teardown_pvc_run inst tr r :
  runs (teardown_pvc inst) tr r ->
  pods_deleted tr = [] /\ (volumes_deleted tr = [] \/ volumes_deleted tr = [ip_PVCName inst] /\ r <> Ok true).
Proof.
  unfold teardown_pvc. intros H. run_inv; [cbn; auto|]. destruct x1 as [v|]; [destruct (pv_Terminating v)|]; run_inv; cbn; auto.
  split; [done|]. right. split; [done|]. by destruct (IgnoreNotFound _).
Qed.

Lemma reconcileReinit_run c inst tr c' r :
  runs (reconcileReinit c inst) tr (c', r) ->
  deletes_nothing tr \/
  reinitRequested c (ip_Name inst) = true /\ ip_IsPrimary inst = false /\ r <> Ok false /\
    (pods_deleted tr = [] \/ pods_deleted tr = [ip_Name inst]) /\ (volumes_deleted tr = [] \/ volumes_deleted tr = [ip_PVCName inst]).
Proof.
  unfold reconcileReinit. destruct (reinitRequested c (ip_Name inst)) eqn:Eq; cbn [negb].
  2:{ intros H. run_inv. by left. }
  destruct (ip_IsPrimary inst) eqn:Ep.
  { intros H. left. eapply every_keeps; [|exact H]. every_tac. }
  intros H. open_run H. destruct H as (tr1 & tr2 & podGone & -> & H1 & H). apply teardown_pod_run in H1 as [Hv1 Hp1].
  destruct podGone as [podGone|e].
  2:{ run_inv. rewrite app_nil_r. right. split_and!; try done; naive_solver. }
  open_run H. destruct H as (tr2' & tr3 & jobs & -> & H2 & H).
  apply (every_keeps _ _ _ (deleteBootstrapJobs_keeps _)) in H2 as [Hp2 Hv2].
  destruct jobs as [jobs|e].
  2:{ run_inv. rewrite app_nil_r, pods_deleted_app, volumes_deleted_app, Hv1, Hp2, Hv2, app_nil_r. right. split_and!; try done; naive_solver. }
  open_run H. destruct H as (tr3' & tr4 & pvcGone & -> & H3 & H). apply teardown_pvc_run in H3 as [Hp3 Hv3].
  assert (forall tr', deletes_nothing tr' ->
    pods_deleted (tr1 ++ tr2' ++ tr3' ++ tr') = pods_deleted tr1 /\ volumes_deleted (tr1 ++ tr2' ++ tr3' ++ tr') = volumes_deleted tr3') as Hd.
  { intros tr' [Ha Hb]. rewrite !pods_deleted_app, !volumes_deleted_app, Hp2, Hp3, Hv1, Hv2, Ha, Hb. by rewrite !app_nil_r. }
  destruct pvcGone as [pvcGone|e].
  2:{ run_inv. right. destruct (Hd []) as [-> ->]; [done|]. split_and!; try done; naive_solver. }
  destruct (negb podGone || negb pvcGone || (0 <? jobs)%nat) eqn:E.
  { run_inv. right. destruct (Hd []) as [-> ->]; [done|]. split_and!; try done; naive_solver. }
  assert (deletes_nothing tr4) as H4 by (eapply every_keeps; [|exact H]; every_tac).
  boolp. left. destruct (Hd tr4 H4) as [E1 E2]. split.
  - rewrite E1. destruct Hp1 as [?|[_ Hr]]; [done|]. by destruct podGone.
  - rewrite E2. destruct Hv3 as [?|[_ Hr]]; [done|]. by destruct pvcGone.
Qed.

Lemma rollForResize_run inst allow tr r :
  runs (rollForResize inst allow) tr r ->
  volumes_deleted tr = [] /\ (pods_deleted tr = [] \/ pods_deleted tr = [ip_Name inst] /\ allow = true /\ r <> Ok false).
Proof.
  unfold rollForResize. destruct allow; cbn [negb]; intros H; [|run_inv; cbn; auto].
  run_inv; [cbn; auto|]. destruct x1 as [p|]; [destruct (pd_Terminating p)|]; run_inv; cbn; auto.
  split; [done|]. right. split_and!; [done..|]. by destruct (written _).
Qed.

Lemma ensurePod_run lf pa c plan inst allow tr r :
  runs (ensurePod lf pa c plan inst allow) tr r ->
  volumes_deleted tr = [] /\ (pods_deleted tr = [] \/ pods_deleted tr = [ip_Name inst] /\ allow = true /\ r <> Ok false).
Proof.
  unfold ensurePod. destruct (pa c plan inst) as [annotations|e]; intros H; [|run_inv; cbn; auto].
  run_inv; [cbn; auto|]. destruct x1 as [p|]; [|run_inv; cbn; auto]. destruct (pd_Terminating p); [run_inv; cbn; auto|].
  destruct (negb (String.eqb _ _)); [destruct allow; cbn [negb] in *; run_inv; cbn; auto|].
  - split; [done|]. right. split_and!; [done..|]. by destruct (written _).
  - destruct (_ && _); run_inv; cbn; auto.
Qed.

(** Why an instance's Pod or volume was deleted: it was to be re-initialised, or its
    Pod was rolled. *)
Definition re_initialised (c : KCluster) (inst : instancePlan) (tr : trace) : Prop :=
  reinitRequested c (ip_Name inst) = true /\ ip_IsPrimary inst = false /\
  (pods_deleted tr = [] \/ pods_deleted tr = [ip_Name inst]) /\ (volumes_deleted tr = [] \/ volumes_deleted tr = [ip_PVCName inst]).
Definition rolled (inst : instancePlan) (tr : trace) : Prop := pods_deleted tr = [ip_Name inst] /\ volumes_deleted tr = [].

Lemma re_initialised_app c inst tr tr' : deletes_nothing tr' -> re_initialised c inst tr -> re_initialised c inst (tr ++ tr').
Proof. intros [Hp Hv]. unfold re_initialised. by rewrite pods_deleted_app, volumes_deleted_app, Hp, Hv, !app_nil_r. Qed.
Lemma rolled_app inst tr1 tr2 tr3 : deletes_nothing tr1 -> deletes_nothing tr3 -> rolled inst tr2 -> rolled inst (tr1 ++ tr2 ++ tr3).
Proof. intros [H1 H2] [H3 H4]. unfold rolled. by rewrite !pods_deleted_app, !volumes_deleted_app, H1, H2, H3, H4, !app_nil_r. Qed.

Section Instance.
Context (PQ : string -> result Z) (lf : KCluster -> instancePlan -> gmap string string)
  (pa : KCluster -> clusterPlan -> instancePlan -> result (gmap string string))
  (jh : KCluster -> clusterPlan -> instancePlan -> bootstrapMode -> result string).

Lemma ensureInstance_run c plan inst allow tr c' r :
  runs (ensureInstance PQ lf pa jh c plan inst allow) tr (c', r) ->
  deletes_nothing tr \/ r <> Ok false /\ (re_initialised c inst tr \/ allow = true /\ rolled inst tr).
Proof.
  unfold ensureInstance. intros H. open_run H. destruct H as (tr1 & tr2 & [c1 handled] & -> & H1 & H).
  apply reconcileReinit_run in H1 as [H1|(Hq & Hn & Hr & Hp & Hv)].
  2:{ right. assert (tr2 = [] /\ r = handled) as [-> ->] by (destruct handled as [[]|]; [|done|]; run_inv; done).
      rewrite app_nil_r. split; [done|]. left. done. }
  destruct handled as [[]|e]; [run_inv; left; by rewrite app_nil_r| |run_inv; left; by rewrite app_nil_r].
  open_run H. destruct H as (tr3 & tr4 & r' & -> & H & Hend). destruct Hend as [-> [= <- <-]]. rewrite app_nil_r.
  open_run H. destruct H as [(e & H & ->)|(ta & tb & [] & -> & Ha & H)].
  { run_inv. left. by apply deletes_nothing_app. }
  open_run H. destruct H as [(e & H & ->)|(tc & td & needs & -> & Hc & H)].
  { apply (every_keeps _ _ _ (ensurePVC_keeps _ _ _)) in H. run_inv. left. by apply deletes_nothing_app. }
  apply (every_keeps _ _ _ (ensurePVC_keeps _ _ _)) in Hc.
  open_run H. destruct H as [(e & H & ->)|(te & tf & [] & -> & He & H)].
  { run_inv. left. rewrite !deletes_nothing_app. done. }
  open_run H. destruct H as [(e & H & ->)|(tg & th & boot & -> & Hg & H)].
  { apply (every_keeps _ _ _ (ensureBootstrapped_keeps _ _ _ _)) in H. run_inv. left. rewrite !deletes_nothing_app. done. }
  apply (every_keeps _ _ _ (ensureBootstrapped_keeps _ _ _ _)) in Hg. step_inv.
  set (pre := tr1 ++ [mkEvent (EnsureConfigMap (ip_ConfigMapName inst)) (Ok tt)] ++ tc ++ [mkEvent (EnsureService (ip_ServiceName inst)) (Ok tt)] ++ tg).
  assert (deletes_nothing pre) as Hpre by (unfold pre; rewrite !deletes_nothing_app; done).
  assert (deletes_nothing th \/ r <> Ok false /\ allow = true /\ rolled inst th) as Hth.
  { destruct boot; cbn [negb] in H; [|run_inv; by left]. open_run H.
    assert (forall tr b, runs (if needs : bool then rollForResize inst allow else Return (Ok false)) tr b ->
      volumes_deleted tr = [] /\ (pods_deleted tr = [] \/ pods_deleted tr = [ip_Name inst] /\ allow = true /\ b <> Ok false)) as Hroll.
    { intros tr b. destruct needs; [apply rollForResize_run|]. intros Hb. run_inv. cbn. auto. }
    destruct H as [(e & H & ->)|(ti & tj & b & -> & Hi & H)].
    - apply Hroll in H as [Hv [Hp|(Hp & Ha' & _)]]; [by left|right]. done.
    - apply Hroll in Hi as [Hv [Hp|(Hp & Ha' & Hb)]].
      + destruct b; [run_inv; left; rewrite app_nil_r; done|].
        apply ensurePod_run in H as [Hv2 [Hp2|(Hp2 & Ha2 & Hr2)]].
        * left. rewrite deletes_nothing_app. done.
        * right. split; [done|]. split; [done|]. unfold rolled. by rewrite pods_deleted_app, volumes_deleted_app, Hp, Hv, Hp2, Hv2.
      + destruct b; [|done]. run_inv. right. rewrite app_nil_r. done. }
  replace (tr1 ++ [mkEvent (EnsureConfigMap (ip_ConfigMapName inst)) (Ok tt)] ++ tc ++ [mkEvent (EnsureService (ip_ServiceName inst)) (Ok tt)] ++ tg ++ th)
    with (pre ++ th ++ []) by (unfold pre; rewrite app_nil_r; rewrite <- !app_assoc; done).
  destruct Hth as [Hth|(Hr & Ha' & Hth)].
  - left. rewrite app_nil_r. by apply deletes_nothing_app.
  - right. split; [done|]. right. split; [done|]. by apply rolled_app.
Qed.
End Instance.

(** ** The loop over the instances *)

(** The Cluster as it was given, or as the server answered a patch. *)
Definition version (c : KCluster) (tr : trace) (c' : KCluster) : Prop :=
  c' = c \/ exists v, (mkEvent (PatchReinit v) (Ok c') : event request answer) ∈ tr.

Lemma version_refl c tr : version c tr c.
Proof. by left. Qed.
Lemma version_app_l c tr tr' c' : version c tr c' -> version c (tr ++ tr') c'.
Proof. intros [->|[v Hv]]; [by left|right]. exists v. apply elem_of_app. by left. Qed.
Lemma version_trans c tr1 tr2 c1 c2 : version c tr1 c1 -> version c1 tr2 c2 -> version c (tr1 ++ tr2) c2.
Proof.
  intros H1 [->|[v Hv]]; [by apply version_app_l|right]. exists v. apply elem_of_app. by right.
Qed.
#[local] Hint Resolve version_refl version_app_l version_trans : core.

Lemma patch_reinit_version c v tr c' : runs (patch_reinit c v) tr (c', Ok tt) -> version c tr c'.
Proof. unfold patch_reinit. intros H. run_inv. destruct x1 as [c1|e]; run_inv. right. exists v. cbn. left. Qed.

Lemma clearReinitRequest_version c n tr c' : runs (clearReinitRequest c n) tr (c', Ok tt) -> version c tr c'.
Proof. unfold clearReinitRequest. case_match; intros Hr; [run_inv; auto|]. by eapply patch_reinit_version. Qed.

Lemma reconcileReinit_version c inst tr c' b : runs (reconcileReinit c inst) tr (c', Ok b) -> version c tr c'.
Proof.
  unfold reconcileReinit. destruct (negb _); [intros H; run_inv; auto|].
  assert (forall tr', runs (tbind (clearReinitRequest c (ip_Name inst)) (fun '(c', r) => Return (c', match r with Ok _ => Ok false | Err e => Err e end))) tr' (c', Ok b)
    -> version c tr' c') as Hclear.
  { intros tr' H. open_run H. destruct H as (t1 & t2 & [c1 [[]|e]] & -> & H1 & H2); run_inv. rewrite app_nil_r.
    by eapply clearReinitRequest_version. }
  destruct (ip_IsPrimary inst); [apply Hclear|]. intros H. open_run H. destruct H as (t1 & t2 & [pg|e] & -> & _ & H); [|run_inv; done].
  open_run H. destruct H as (t3 & t4 & [jl|e] & -> & _ & H); [|run_inv; done].
  open_run H. destruct H as (t5 & t6 & [vg|e] & -> & _ & H); [|run_inv; done].
  assert (version c t6 c') as Hv by (destruct (_ || _); [run_inv; auto|by apply Hclear]).
  destruct Hv as [->|[v Hv]]; [by left|right]. exists v. rewrite !elem_of_app. auto.
Qed.

Lemma ensureInstance_version PQ lf pa jh c plan inst allow tr c' b :
  runs (ensureInstance PQ lf pa jh c plan inst allow) tr (c', Ok b) -> version c tr c'.
Proof.
  unfold ensureInstance. intros H. open_run H. destruct H as (t1 & t2 & [c1 [handled|e]] & -> & H1 & H); [|run_inv; done].
  apply reconcileReinit_version in H1. destruct handled; [run_inv; rewrite app_nil_r; done|].
  apply runs_bind in H as (t3 & t4 & r & -> & _ & H). step_inv. by apply version_app_l.
Qed.

Lemma reconcileAutoReinit_version c o tr c' : runs (reconcileAutoReinit c o) tr (c', Ok tt) -> version c tr c'.
Proof.
  unfold reconcileAutoReinit. repeat (case_match; [intros Hr; run_inv; by auto|]). intros Hr.
  apply runs_bind in Hr as (t1 & t2 & names & -> & _ & Hr). destruct names as [[|n names]|e]; [run_inv; auto| |run_inv; done].
  unfold addReinitRequests in Hr. case_match; [run_inv; auto|]. apply patch_reinit_version in Hr as [->|[v Hv]]; [by left|right].
  exists v. rewrite elem_of_app. auto.
Qed.

Section Loop.
Context (cluster : string) (PQ : string -> result Z) (lf : KCluster -> instancePlan -> gmap string string)
  (pa : KCluster -> clusterPlan -> instancePlan -> result (gmap string string))
  (jh : KCluster -> clusterPlan -> instancePlan -> bootstrapMode -> result string).
Context (plan : clusterPlan) (o : Observed) (fo : FailoverState).

(** The Pod was read in this run, and is ready. *)
Definition read_ready (c : KCluster) (name : string) (tr : trace) : Prop :=
  exists pod, (mkEvent (GetPod name) (Ok pod) : event request answer) ∈ tr /\ live_ready c o name pod = true.

(** Why an instance after the first may be touched. *)
Definition gate_passed (c : KCluster) (i : Z) (tr : trace) : Prop :=
  read_ready c (instanceName cluster (i - 1)) tr \/
  (mkEvent (GetPod (instanceName cluster i)) (Ok None) : event request answer) ∈ tr \/ quorumRecoveryBlocked c = true.

Lemma read_ready_app c name tr1 tr2 tr3 : read_ready c name tr2 -> read_ready c name (tr1 ++ tr2 ++ tr3).
Proof. intros (pod & Hin & Hl). exists pod. rewrite !elem_of_app. auto. Qed.
Lemma gate_passed_app c i tr1 tr2 tr3 : gate_passed c i tr2 -> gate_passed c i (tr1 ++ tr2 ++ tr3).
Proof.
  intros [H|[H|H]]; [left; by apply read_ready_app|right; left; rewrite !elem_of_app; auto|by right; right].
Qed.

Lemma instanceFullyReady_run c inst tr : runs (instanceFullyReady c o inst) tr (Ok true) -> read_ready c (ip_Name inst) tr.
Proof.
  unfold instanceFullyReady. intros H. run_inv; [done|].
  match goal with H : Ok true = Ok _ |- _ => injection H as E end. eexists. split; [left|by rewrite <- E].
Qed.

Lemma gateInstance_run c i tr :
  runs (gateInstance cluster c plan (instanceFor cluster plan i) o fo) tr (Ok true) -> gate_passed c i tr.
Proof.
  unfold gateInstance. intros H. open_run H. destruct H as [(e & _ & ?)|(t1 & t2 & podExists & -> & H1 & H)]; [done|].
  open_run H. destruct H as [(e & _ & ?)|(t3 & t4 & boot & -> & H3 & H)]; [done|].
  assert (podExists = false -> mkEvent (GetPod (instanceName cluster i)) (Ok None) ∈ t1) as Hgone.
  { intros ->. unfold instancePodExists in H1. run_inv; [done|].
    match goal with H : Ok false = Ok _ |- _ => injection H as E end. symmetry in E. apply bool_decide_eq_false in E.
    match goal with x : option Pod |- _ => destruct x end; [by destruct E|]. left. }
  destruct boot.
  - destruct podExists; cbn [negb orb] in H3.
    + destruct (quorumRecoveryBlocked c) eqn:E; [by right; right|run_inv; done].
    + right. left. rewrite elem_of_app. auto.
  - open_run H. destruct H as [(e & _ & ?)|(t5 & t6 & ready & -> & H5 & H)]; [done|].
    destruct ready; cbn [negb] in H; [|run_inv; done]. left.
    change (instanceName cluster (i - 1)) with (ip_Name (instanceFor cluster plan (ip_Ordinal (instanceFor cluster plan i) - 1))).
    apply instanceFullyReady_run in H5. rewrite app_assoc. by apply read_ready_app.
Qed.

(** Why a Pod was deleted. *)
Inductive pod_deletion (primary : string) (c : KCluster) (tr : trace) (name : string) : Prop :=
| by_reinit : reinitRequested c name = true -> name <> primaryName cluster plan -> pod_deletion primary c tr name
| by_roll i : name = instanceName cluster i -> 1 <= i <= pl_Instances plan -> name <> primary -> (1 < i -> gate_passed c i tr) ->
    pod_deletion primary c tr name
| by_last_roll ordinal : instanceOrdinal cluster primary = Some ordinal -> name = instanceName cluster ordinal -> oc_Ready o = true ->
    (forall i, 1 <= i <= pl_Instances plan -> instanceName cluster i <> primary -> read_ready c (instanceName cluster i) tr) ->
    pod_deletion primary c tr name.

Lemma pod_deletion_app primary c tr1 tr2 tr3 name : pod_deletion primary c tr2 name -> pod_deletion primary c (tr1 ++ tr2 ++ tr3) name.
Proof.
  intros [Hq Hn|i -> Hi Hn Hg|ordinal Ho -> Hr Ha].
  - by apply by_reinit.
  - eapply by_roll; [done|done|done|]. intros H1. by apply gate_passed_app, Hg.
  - eapply by_last_roll; [done|done|done|]. intros i Hi Hne. by apply read_ready_app, Ha.
Qed.

(** What a run may have deleted, and why. *)
Definition justified (primary : string) (c : KCluster) (tr : trace) : Prop :=
  (pods_deleted tr = [] \/ exists name c', pods_deleted tr = [name] /\ version c tr c' /\ pod_deletion primary c' tr name) /\
  (volumes_deleted tr = [] \/ exists name c', volumes_deleted tr = [name] /\ version c tr c' /\ reinitRequested c' name = true /\
     name <> primaryName cluster plan).

Lemma nothing_justified primary c tr : deletes_nothing tr -> justified primary c tr.
Proof. intros [Hp Hv]. split; by left. Qed.

Lemma version_app_mid c c1 tr1 tr2 tr3 c2 : version c tr1 c1 -> version c1 tr2 c2 -> version c (tr1 ++ tr2 ++ tr3) c2.
Proof. intros H1 H2. rewrite app_assoc. apply version_app_l. by eapply version_trans. Qed.

Lemma justified_app primary c c1 tr1 tr2 tr3 :
  deletes_nothing tr1 -> deletes_nothing tr3 -> version c tr1 c1 -> justified primary c1 tr2 -> justified primary c (tr1 ++ tr2 ++ tr3).
Proof.
  intros [Hp1 Hv1] [Hp3 Hv3] Hver [Hp Hv]. unfold justified.
  rewrite !pods_deleted_app, !volumes_deleted_app, Hp1, Hp3, Hv1, Hv3, !app_nil_r. cbn [app]. split.
  - destruct Hp as [->|(name & c' & -> & Hc & Hd)]; [by left|right]. exists name, c'. split; [done|]. split.
    + by eapply version_app_mid.
    + by apply pod_deletion_app.
  - destruct Hv as [->|(name & c' & -> & Hc & Hd)]; [by left|right]. exists name, c'. split; [done|]. split; [|done].
    by eapply version_app_mid.
Qed.

Lemma re_initialised_justified primary c i tr : re_initialised c (instanceFor cluster plan i) tr -> justified primary c tr.
Proof.
  intros (Hq & Hn & Hp & Hv). cbn in *. assert (instanceName cluster i <> primaryName cluster plan) as Hne by (by apply String.eqb_neq).
  split.
  - destruct Hp as [->| ->]; [by left|right]. exists (instanceName cluster i), c. split; [done|]. split; [auto|]. by apply by_reinit.
  - destruct Hv as [->| ->]; [by left|right]. exists (instanceName cluster i), c. auto.
Qed.

Lemma rolled_justified primary c i tr name :
  name = instanceName cluster i -> rolled (instanceFor cluster plan i) tr -> pod_deletion primary c tr name -> justified primary c tr.
Proof. intros -> [Hp Hv] Hd. split; [right|by left]. exists (instanceName cluster i), c. auto. Qed.

Lemma instances_loop_run primary l c tr c' r :
  (forall i, i ∈ l -> 1 <= i <= pl_Instances plan) ->
  runs (instances_loop cluster PQ lf pa jh c plan o fo primary l) tr (c', r) ->
  justified primary c tr /\ (r = Ok true -> deletes_nothing tr /\ version c tr c').
Proof.
  revert c tr. induction l as [|i l IH]; intros c tr Hl; cbn [instances_loop]; [intros H; run_inv; split; [by apply nothing_justified|intros _; by split; [|left]]|].
  intros H. open_run H. destruct H as (t1 & t2 & proceed & -> & H1 & H).
  assert (deletes_nothing t1) as Hd1.
  { eapply every_keeps; [|exact H1]. destruct (1 <? i); [apply gateInstance_keeps|done]. }
  assert (proceed = Ok true -> 1 < i -> gate_passed c i t1) as Hgate.
  { intros -> Hi. replace (1 <? i) with true in H1 by lia. by apply gateInstance_run in H1. }
  destruct proceed as [[]|e]; [|run_inv; rewrite app_nil_r; split; [by apply nothing_justified|done]..].
  cbv beta iota in H.
  open_run H. destruct H as (t3 & t4 & [c1 rolled1] & -> & H3 & H).
  pose proof (ensureInstance_run _ _ _ _ _ _ _ _ _ _ _ H3) as Hrun.
  destruct Hrun as [Hd3|[Hr Hwhy]].
  - destruct rolled1 as [[]|e]; [run_inv; rewrite app_nil_r; split; [apply nothing_justified, deletes_nothing_app; done|done]| |
      run_inv; rewrite app_nil_r; split; [apply nothing_justified, deletes_nothing_app; done|done]].
    apply ensureInstance_version in H3. destruct (IH c1 t4 (fun j Hj => Hl j (list_elem_of_further _ _ _ Hj)) H) as [Hj Hok].
    split.
    + rewrite app_assoc, <- (app_nil_r (_ ++ t4)), <- app_assoc. eapply justified_app; [by apply deletes_nothing_app|done| |exact Hj].
      eapply version_trans; [|exact H3]. auto.
    + intros Hr. destruct (Hok Hr) as [Hd4 Hv4]. rewrite !deletes_nothing_app. split; [done|].
      eapply version_trans; [by left|]. by eapply version_trans.
  - assert (t4 = [] /\ r <> Ok true) as [-> Hne] by (destruct rolled1 as [[]|e]; [|done|]; run_inv; done).
    split; [|done]. destruct Hwhy as [Hre|[Hallow Hro]].
    + eapply justified_app; [done|done|by left|]. by eapply re_initialised_justified.
    + apply negb_true_iff, String.eqb_neq in Hallow. eapply (rolled_justified _ _ i); [done|by apply rolled_app|].
      apply (by_roll _ _ _ _ i); [done|apply Hl; by left|done|]. intros Hi.
      apply (gate_passed_app _ _ [] t1). by apply Hgate.
Qed.

Lemma replicas_ready_run primary l c tr :
  runs (replicas_ready_loop cluster c plan o primary l) tr (Ok true) ->
  forall i, i ∈ l -> instanceName cluster i <> primary -> read_ready c (instanceName cluster i) tr.
Proof.
  revert tr. induction l as [|j l IH]; intros tr; cbn [replicas_ready_loop]; [by intros _ i ?%elem_of_nil|].
  destruct (String.eqb_spec (ip_Name (instanceFor cluster plan j)) primary) as [E|E].
  - intros H i [->|Hi]%elem_of_cons Hne; [done|]. by apply IH.
  - intros H. open_run H. destruct H as [(e & _ & ?)|(t1 & t2 & ready & -> & H1 & H)]; [done|].
    destruct ready; cbn [negb] in H; [|by run_inv]. apply instanceFullyReady_run in H1.
    intros i [->|Hi]%elem_of_cons Hne.
    + by apply (read_ready_app _ _ [] t1 t2).
    + rewrite <- (app_nil_r t2). by apply read_ready_app, IH.
Qed.

Lemma roll_primary_run c primary tr r :
  runs (roll_primary cluster PQ lf pa jh c plan o primary) tr r -> justified primary c tr /\ (r = Ok true -> deletes_nothing tr).
Proof.
  unfold roll_primary. destruct (instanceOrdinal cluster primary) as [ordinal|] eqn:Eo.
  2:{ intros H. run_inv. split; [by apply nothing_justified|done]. }
  set (inst := instanceFor cluster plan ordinal). intros H.
  assert (forall tr' : trace, deletes_nothing tr' -> justified primary c tr' /\ (r = Ok true -> deletes_nothing tr')) as Hno.
  { intros tr' Hd. split; [by apply nothing_justified|done]. }
  open_run H. destruct H as [(e & H & ->)|(t1 & t2 & pending & -> & H1 & H)].
  { apply Hno. eapply every_keeps; [apply instancePendingRoll_keeps|exact H]. }
  assert (deletes_nothing t1) as Hd1 by (eapply every_keeps; [apply instancePendingRoll_keeps|exact H1]).
  destruct pending; cbn [negb] in H; [|run_inv; rewrite app_nil_r; by apply Hno].
  destruct (oc_Ready o) eqn:Eready; [|run_inv; rewrite app_nil_r; by apply Hno].
  open_run H. destruct H as [(e & H & ->)|(t3 & t4 & ready & -> & H3 & H)].
  { apply Hno, deletes_nothing_app. split; [done|]. eapply every_keeps; [apply replicas_ready_loop_keeps|exact H]. }
  assert (deletes_nothing t3) as Hd3 by (eapply every_keeps; [apply replicas_ready_loop_keeps|exact H3]).
  destruct ready; [|run_inv; rewrite app_nil_r; by apply Hno, deletes_nothing_app].
  open_run H. destruct H as (t5 & t6 & [c1 r1] & -> & H5 & H). run_inv. rewrite app_nil_r.
  assert ((match r1 with Ok _ => Ok false | Err e => Err e end : result bool) <> Ok true) as Hne by (by destruct r1).
  split; [|done]. apply ensureInstance_run in H5 as [Hd5|[_ [Hre|[_ Hro]]]].
  - apply nothing_justified. by rewrite !deletes_nothing_app.
  - rewrite app_assoc, <- (app_nil_r (_ ++ t5)), <- app_assoc.
    eapply justified_app; [by apply deletes_nothing_app|done|by left|]. by eapply re_initialised_justified.
  - eapply (rolled_justified _ _ ordinal); [done| |].
    + rewrite app_assoc, <- (app_nil_r (_ ++ t5)), <- app_assoc. apply rolled_app; [by apply deletes_nothing_app|done|done].
    + eapply by_last_roll; [done|done|done|]. intros i Hi Hip. apply read_ready_app.
      eapply replicas_ready_run; [exact H3| |done]. unfold ordinals. apply elem_of_seqZ. lia.
Qed.

Lemma reconcileInstances_run c tr r :
  runs (reconcileInstances cluster PQ lf pa jh c plan o fo) tr r ->
  justified (acting_primary cluster plan o) c tr /\ (r = Ok true -> deletes_nothing tr).
Proof.
  unfold reconcileInstances. intros H. open_run H. destruct H as (t1 & t2 & [c1 r1] & -> & H1 & H).
  assert (deletes_nothing t1) as Hd1 by (eapply every_keeps; [apply reconcileAutoReinit_keeps|exact H1]).
  destruct r1 as [[]|e]; [|run_inv; rewrite app_nil_r; split; [by apply nothing_justified|done]].
  apply reconcileAutoReinit_version in H1. destruct (outage_ordinal cluster c1 o) as [ordinal|].
  - open_run H. destruct H as (t3 & t4 & [c2 r2] & -> & H3 & H). run_inv.
    assert ((match r2 with Ok _ => Ok false | Err e => Err e end : result bool) <> Ok true) as Hne by (by destruct r2).
    split; [|done]. eapply justified_app; [done|done|exact H1|]. apply ensureInstance_run in H3 as [?|[_ [?|[? _]]]].
    + by apply nothing_justified.
    + by eapply re_initialised_justified.
    + done.
  - open_run H. destruct H as (t3 & t4 & [c2 loop] & -> & H3 & H).
    apply instances_loop_run in H3 as [Hj Hok].
    2:{ intros i Hi. unfold ordinals in Hi. apply elem_of_seqZ in Hi. lia. }
    destruct loop as [[]|e]; [|run_inv; split; [by eapply justified_app|done]..].
    destruct (Hok eq_refl) as [Hd3 Hv3]. apply roll_primary_run in H as [Hj4 Hok4]. split.
    + rewrite app_assoc, <- (app_nil_r (_ ++ t4)), <- app_assoc.
      eapply justified_app; [by apply deletes_nothing_app|done|by eapply version_trans|done].
    + intros Hr. rewrite !deletes_nothing_app. auto.
Qed.
End Loop.

(** ** Scaling down *)

Section ScaleDown.
Context (cluster : string) (plan : clusterPlan) (c : KCluster).

(** The volume was read in this run and is not bootstrapped. *)
Definition read_unfinished (name : string) (tr : trace) : Prop :=
  exists pvc, (mkEvent (GetPVC name) (Ok (Some pvc)) : event request answer) ∈ tr /\ pvcBootstrapped pvc = false.

(** The Pod was read as absent, or listed as fenced. *)
Definition read_gone (name : string) (tr : trace) : Prop := (mkEvent (GetPod name) (Ok None) : event request answer) ∈ tr.

Definition surplus_instance (name : string) : Prop :=
  exists ordinal, name = instanceName cluster ordinal /\ pl_Instances plan < ordinal /\ name <> primaryName cluster plan /\
    name <> kc_TargetPrimary c.

(** A Pod was deleted of a surplus instance that left the group; a volume, of a surplus
    instance whose bootstrap never finished. *)
Definition removes (fenced : string -> Prop) (tr : trace) : Prop :=
  (forall n, n ∈ pods_deleted tr -> surplus_instance n /\
     (read_gone n tr \/ kc_IsGroupReplication c = false \/ fenced n /\ scale_down_blocked c = false)) /\
  (forall n, n ∈ volumes_deleted tr -> surplus_instance n /\ read_unfinished n tr).

Lemma removes_nothing fenced tr : deletes_nothing tr -> removes fenced tr.
Proof. intros [Hp Hv]. split; intros n; rewrite ?Hp, ?Hv; by intros ?%elem_of_nil. Qed.

Lemma removes_app fenced tr1 tr2 : removes fenced tr1 -> removes fenced tr2 -> removes fenced (tr1 ++ tr2).
Proof.
  intros [Hp1 Hv1] [Hp2 Hv2]. split; intros n; rewrite ?pods_deleted_app, ?volumes_deleted_app.
  - unfold read_gone. rewrite !elem_of_app. intros [Hn|Hn]; [destruct (Hp1 n Hn) as [? Hor]|destruct (Hp2 n Hn) as [? Hor]];
      (split; [done|]); (destruct Hor as [Hg|Hg]; [left; by auto|by right]).
  - rewrite elem_of_app. intros [Hn|Hn]; [destruct (Hv1 n Hn) as [? (pvc & Hin & Hb)]|destruct (Hv2 n Hn) as [? (pvc & Hin & Hb)]];
      (split; [done|]); exists pvc; rewrite elem_of_app; auto.
Qed.

Lemma removeInstanceResources_run inst tr r :
  runs (removeInstanceResources inst) tr r ->
  (forall n, n ∈ pods_deleted tr -> n = ip_Name inst) /\
  (forall n, n ∈ volumes_deleted tr -> n = ip_PVCName inst /\ read_unfinished n tr).
Proof.
  unfold removeInstanceResources. intros H. open_run H.
  destruct H as [(e & H & ->)|(t1 & t2 & jobs & -> & H1 & H)].
  { apply (every_keeps _ _ _ (deleteBootstrapJobs_keeps _)) in H as [-> ->]. by split; intros n ?%elem_of_nil. }
  apply (every_keeps _ _ _ (deleteBootstrapJobs_keeps _)) in H1 as [Hp1 Hv1].
  assert ((forall n, n ∈ pods_deleted t2 -> n = ip_Name inst) /\
          (forall n, n ∈ volumes_deleted t2 -> n = ip_PVCName inst /\ read_unfinished n t2)) as [Hp2 Hv2].
  2:{ rewrite pods_deleted_app, volumes_deleted_app, Hp1, Hv1. split; [done|]. intros n [-> (pvc & Hin & Hb)]%Hv2. split; [done|].
      exists pvc. rewrite elem_of_app. auto. }
  clear t1 jobs Hp1 Hv1. unfold deleteUnbootstrappedPVC in H. run_inv.
  1-4: cbn; split; intros n; [by intros ->%list_elem_of_singleton|by intros ?%elem_of_nil].
  match goal with pvc : option PVC |- _ => rename pvc into found end.
  destruct found as [pvc|]; [destruct (pvcBootstrapped pvc) eqn:Eb|]; run_inv; cbn; split; intros n;
    try (by intros ->%list_elem_of_singleton); try (by intros ?%elem_of_nil).
  intros ->%list_elem_of_singleton. split; [done|]. exists pvc. split; [|done]. do 3 right. left.
Qed.

Lemma removal_removes (fenced : string -> Prop) ordinal tr r :
  runs (removeInstanceResources (instanceFor cluster plan ordinal)) tr r -> surplus_instance (instanceName cluster ordinal) ->
  (kc_IsGroupReplication c = false \/ fenced (instanceName cluster ordinal) /\ scale_down_blocked c = false) -> removes fenced tr.
Proof.
  intros [Hp Hv]%removeInstanceResources_run Hs Hf. split.
  - intros n ->%Hp. by auto.
  - intros n [-> Hr]%Hv. by auto.
Qed.

Lemma collect_loop_run fenced names tr r : runs (collect_loop cluster c plan names) tr r -> removes fenced tr.
Proof.
  revert tr. induction names as [|name names IH]; intros tr; cbn [collect_loop]; [intros H; run_inv; by apply removes_nothing|].
  destruct (instanceOrdinal cluster name) as [ordinal|]; [|apply IH].
  destruct (Z.leb_spec ordinal (pl_Instances plan)) as [Hle|Hgt]; [apply IH|].
  destruct (String.eqb (ip_Name (instanceFor cluster plan ordinal)) (primaryName cluster plan) || String.eqb _ _) eqn:Epr; [apply IH|].
  boolp. cbn [ip_Name instanceFor] in H, H0. intros Hr. open_run Hr.
  destruct Hr as (t1 & t2 & podExists & -> & H1 & Hr).
  assert (deletes_nothing t1) as Hd1 by (eapply every_keeps; [|exact H1]; unfold instancePodExists; every_tac).
  destruct podExists as [[]|e]; [apply removes_app; [by apply removes_nothing|by apply IH]| |apply removes_app; [by apply removes_nothing|by apply IH]].
  assert (read_gone (instanceName cluster ordinal) t1) as Hgone.
  { clear Hr. unfold instancePodExists in H1. run_inv; [done|]. match goal with Hx : Ok false = Ok _ |- _ => injection Hx as E end.
    symmetry in E. apply bool_decide_eq_false in E. match goal with x : option Pod |- _ => destruct x end; [by destruct E|]. left. }
  assert (surplus_instance (instanceName cluster ordinal)) as Hs by (by exists ordinal).
  assert (forall tr r, runs (removeInstanceResources (instanceFor cluster plan ordinal)) tr r -> removes fenced (t1 ++ tr)) as Hrm.
  { intros tr' r' [Hp Hv]%removeInstanceResources_run. destruct Hd1 as [Hd1 Hd1'].
    split; intros n; rewrite ?pods_deleted_app, ?volumes_deleted_app, ?Hd1, ?Hd1'; cbn [app].
    - intros ->%Hp. split; [done|]. left. unfold read_gone in *. cbn. rewrite elem_of_app. by left.
    - intros [-> (pvc & Hin & Hb)]%Hv. split; [done|]. exists pvc. rewrite elem_of_app. auto. }
  open_run Hr. destruct Hr as [(e & Hr & ->)|(t3 & t4 & [] & -> & H3 & Hr)]; [by eapply Hrm|].
  rewrite app_assoc. apply removes_app; [by eapply Hrm|by apply IH].
Qed.

(** Listed as fenced, under a name that says which instance it is. *)
Definition listed_fenced (pods : list Pod) (name : string) : Prop :=
  exists p ordinal, p ∈ pods /\ isPodFenced p = true /\ instanceOrdinal cluster (pd_Name p) = Some ordinal /\ name = instanceName cluster ordinal.

Lemma scale_down_loop_run all pods tr r :
  (forall p, p ∈ pods -> p ∈ all) ->
  (forall p ordinal, p ∈ all -> instanceOrdinal cluster (pd_Name p) = Some ordinal -> pd_Name p = instanceName cluster ordinal) ->
  runs (scale_down_loop cluster c plan pods) tr r -> removes (listed_fenced all) tr.
Proof.
  intros Hall Hcan. revert tr. induction pods as [|p pods IH]; intros tr; cbn [scale_down_loop]; [intros H; run_inv; by apply removes_nothing|].
  specialize (IH (fun q Hq => Hall q (list_elem_of_further _ _ _ Hq))).
  destruct (instanceOrdinal cluster (pd_Name p)) as [ordinal|] eqn:Eo; [|apply IH].
  pose proof (Hcan p ordinal (Hall p ltac:(by left)) Eo) as Ename.
  destruct (Z.leb_spec ordinal (pl_Instances plan)) as [Hle|Hgt]; [apply IH|]. cbn [orb].
  destruct (String.eqb (pd_Name p) (primaryName cluster plan) || String.eqb (pd_Name p) (kc_TargetPrimary c)) eqn:Epr; [apply IH|].
  boolp. rewrite Ename in H, H0.
  destruct (scale_down_blocked c) eqn:Eb; [apply IH|].
  assert (surplus_instance (instanceName cluster ordinal)) as Hs by (by exists ordinal).
  destruct (kc_IsGroupReplication c && negb (isPodFenced p)) eqn:Ef; intros Hr; open_run Hr.
  - assert (forall tr r, runs (stampFencingAnnotation p) tr r -> deletes_nothing tr) as Hst.
    { intros tr' r' H'. eapply every_keeps; [|exact H']. unfold stampFencingAnnotation. every_tac. }
    destruct Hr as [(e & Hr & ->)|(t1 & t2 & [] & -> & H1 & Hr)]; [by eapply removes_nothing, Hst|].
    apply removes_app; [by eapply removes_nothing, Hst|by apply IH].
  - assert (kc_IsGroupReplication c = false \/ listed_fenced all (instanceName cluster ordinal) /\ scale_down_blocked c = false) as Hw.
    { apply andb_false_iff in Ef as [?|Ef]; [by left|right]. split; [|done]. exists p, ordinal. split; [apply Hall; by left|].
      by apply negb_false_iff in Ef. }
    destruct Hr as [(e & Hr & ->)|(t1 & t2 & [] & -> & H1 & Hr)]; [by eapply removal_removes|].
    apply removes_app; [by eapply removal_removes|by apply IH].
Qed.

Lemma scaleDownReplicas_run `{MapRange} tr r :
  (forall pods p ordinal, (mkEvent ListPods (Ok pods) : event request answer) ∈ tr -> p ∈ pods ->
     instanceOrdinal cluster (pd_Name p) = Some ordinal -> pd_Name p = instanceName cluster ordinal) ->
  runs (scaleDownReplicas cluster c plan) tr r ->
  (exists all, removes (listed_fenced all) tr /\ (all = [] \/ (mkEvent ListPods (Ok all) : event request answer) ∈ tr)) /\
  (~ deletes_nothing tr -> kc_CurrentPrimary c = "" \/ kc_TargetPrimary c = "" \/ kc_TargetPrimary c = kc_CurrentPrimary c).
Proof.
  intros Hcan. unfold scaleDownReplicas.
  destruct (negb (String.eqb (kc_CurrentPrimary c) "") && _ && _) eqn:Ech.
  { intros Hr. run_inv. split; [exists []; split; [by apply removes_nothing|by left]|]. intros Hd. by destruct Hd. }
  intros Hr. split.
  2:{ intros _. destruct (String.eqb_spec (kc_CurrentPrimary c) ""); [by left|]. right.
      destruct (String.eqb_spec (kc_TargetPrimary c) ""); [by left|]. right.
      destruct (String.eqb_spec (kc_TargetPrimary c) (kc_CurrentPrimary c)); done. }
  open_run Hr. unfold garbageCollectSurplusBootstrap in Hr.
  assert (forall fenced tr r, runs (tbind_result (send (ListJobs None)) (fun jobs => tbind_result (send ListPVCs) (fun pvcs =>
    collect_loop cluster c plan (map_range (surplus_names cluster plan jobs pvcs))))) tr r -> removes fenced tr) as Hgc.
  { intros fenced tr' r' H'. open_run H'. destruct H' as [(e & H' & ->)|(t1 & t2 & jobs & -> & H1 & H')]; [run_inv; by apply removes_nothing|].
    step_inv. open_run H'. destruct H' as [(e & H' & ->)|(t3 & t4 & pvcs & -> & H3 & H')]; [run_inv; by apply removes_nothing|]. step_inv.
    apply removes_app; [by apply removes_nothing|]. apply removes_app; [by apply removes_nothing|]. by eapply collect_loop_run. }
  destruct Hr as [(e & Hr & ->)|(t1 & t2 & [] & -> & H1 & Hr)]; [exists []; split; [by eapply Hgc|by left]|].
  open_run Hr. destruct Hr as [(e & Hr & ->)|(t3 & t4 & pods & -> & H3 & Hr)].
  { step_inv. exists []. split; [|by left]. apply removes_app; [by eapply Hgc|by apply removes_nothing]. }
  step_inv. assert (mkEvent ListPods (Ok pods) ∈ t1 ++ [mkEvent ListPods (Ok pods)] ++ t4) as Hin by (rewrite !elem_of_app; right; left; by left).
  exists pods. split; [|by right]. apply removes_app; [by eapply Hgc|]. apply removes_app; [by apply removes_nothing|].
  eapply scale_down_loop_run; [|exact (fun p ordinal => Hcan pods p ordinal Hin)|exact Hr]. done.
Qed.
End ScaleDown.

(** ** Automatic re-initialisation *)

(** The instance was read as crash-looping in a way only new data can fix. *)
Definition read_stuck (name : string) (tr : trace) : Prop :=
  exists p, (mkEvent (GetPod name) (Ok (Some p)) : event request answer) ∈ tr /\ shouldAutoReinit p = true.

Lemma auto_reinit_loop_run c primary failed tr names :
  runs (auto_reinit_loop c primary failed) tr (Ok names) ->
  forall n, n ∈ names -> n ∈ failed /\ n <> primary /\ read_stuck n tr.
Proof.
  revert tr names. induction failed as [|m failed IH]; intros tr names; cbn [auto_reinit_loop].
  { intros [_ [= ->]] n ?%elem_of_nil. done. }
  destruct (String.eqb m primary || reinitRequested c m) eqn:E.
  { intros Hr n Hn. destruct (IH _ _ Hr n Hn) as (? & ? & ?). split_and!; [by right|done|done]. }
  boolp. intros Hr. open_run Hr. destruct Hr as [(e & _ & ?)|(t1 & t2 & pod & -> & H1 & Hr)]; [done|]. step_inv.
  open_run Hr. destruct Hr as [(e & _ & ?)|(t3 & t4 & rest & -> & H3 & Hr)]; [done|]. destruct Hr as [-> [= ->]].
  assert (forall n, n ∈ rest -> n ∈ m :: failed /\ n <> primary /\ read_stuck n ([mkEvent (GetPod m) (Ok pod)] ++ t3 ++ [])) as Hrest.
  { intros n Hn. destruct (IH _ _ H3 n Hn) as (? & ? & (p & Hin & Hs)). split_and!; [by right|done|]. exists p. rewrite !elem_of_app. auto. }
  destruct pod as [p|]; [|done]. destruct (shouldAutoReinit p) eqn:Es; [|done].
  intros n [->|Hn]%elem_of_cons; [|by apply Hrest]. split_and!; [by left|done|]. exists p. split; [left|done].
Qed.

Lemma added_requests (existing names : list string) :
  exists added, foldl (fun merged name => if bool_decide (name ∈ merged) then merged else merged ++ [name]) existing names = existing ++ added /\
    forall n, n ∈ added -> n ∈ names.
Proof.
  induction names as [|m names IH] using rev_ind; [exists []; split; [by rewrite app_nil_r|by intros n ?%elem_of_nil]|].
  rewrite foldl_app. destruct IH as (added & -> & Hin). cbn [foldl]. case_bool_decide.
  - exists added. split; [done|]. intros n Hn. rewrite elem_of_app. auto.
  - exists (added ++ [m]). split; [by rewrite app_assoc|]. intros n. rewrite !elem_of_app. intros [?|?]; auto.
Qed.

Lemma reconcileAutoReinit_run c o tr c' r v (x : result KCluster) :
  runs (reconcileAutoReinit c o) tr (c', r) -> (mkEvent (PatchReinit v) x : event request answer) ∈ tr ->
  kc_IsGroupReplication c = false /\ established c = true /\
  (exists report, se_StatusByInstance (oc_Seen o) !! oc_PrimaryName o = Some report /\ re_IsReady report = true) /\
  exists added, v = Some (Join (reinitRequestedInstances c ++ added) ",") /\
    forall n, n ∈ added -> n ∈ se_FailedInstances (oc_Seen o) /\ n <> oc_PrimaryName o /\ read_stuck n tr.
Proof.
  unfold reconcileAutoReinit. destruct (kc_IsGroupReplication c); [by intros [-> _] ?%elem_of_nil|].
  destruct (established c); cbn [negb]; [|by intros [-> _] ?%elem_of_nil].
  destruct (Nat.eqb _ _); [by intros [-> _] ?%elem_of_nil|]. destruct (String.eqb _ _); [by intros [-> _] ?%elem_of_nil|].
  destruct (se_StatusByInstance (oc_Seen o) !! oc_PrimaryName o) as [report|] eqn:Er; [|by intros [-> _] ?%elem_of_nil].
  destruct (re_IsReady report) eqn:Ey; cbn [negb]; [|by intros [-> _] ?%elem_of_nil].
  intros Hr Hin. split_and!; [done|done|by exists report|]. open_run Hr. destruct Hr as (t1 & t2 & names & -> & H1 & Hr).
  assert (forall y : result KCluster, mkEvent (PatchReinit v) y ∉ t1) as Hno.
  { intros y Hy. assert (every (fun r => match r with PatchReinit _ => False | _ => True end) (auto_reinit_loop c (oc_PrimaryName o) (se_FailedInstances (oc_Seen o)))) as He.
    { generalize (se_FailedInstances (oc_Seen o)) as l. induction l as [|m l IH]; cbn [auto_reinit_loop]; [done|]. every_tac. }
    pose proof (every_runs _ _ _ _ He H1) as Hf. rewrite Forall_forall in Hf. exact (Hf _ Hy). }
  apply elem_of_app in Hin as [Hin|Hin]; [by destruct (Hno x)|].
  destruct names as [names|e]; [|destruct Hr as [-> _]; by apply elem_of_nil in Hin].
  assert (exists added, v = Some (Join (reinitRequestedInstances c ++ added) ",") /\ forall n, n ∈ added -> n ∈ names) as (added & -> & Hadd).
  { assert (runs (addReinitRequests c names) t2 (c', r)) as Hr'.
    { destruct names as [|n names]; [|done]. unfold addReinitRequests. cbn [foldl]. by rewrite Nat.eqb_refl. }
    unfold addReinitRequests in Hr'. destruct (added_requests (reinitRequestedInstances c) names) as (added & E & Hadd). rewrite E in Hr'.
    exists added. split; [|done]. destruct (Nat.eqb _ _); [destruct Hr' as [-> _]; by apply elem_of_nil in Hin|].
    unfold patch_reinit in Hr'. open_run Hr'. destruct Hr' as (t3 & t4 & y & -> & H3 & Hr'). step_inv.
    assert (t4 = []) as -> by (destruct y; by destruct Hr'). rewrite app_nil_r in Hin. apply list_elem_of_singleton in Hin.
    by injection Hin. }
  exists added. split; [done|]. intros n Hn. destruct (auto_reinit_loop_run _ _ _ _ _ H1 n (Hadd n Hn)) as (? & ? & (p & Hp & Hs)).
  split_and!; [done|done|]. exists p. rewrite elem_of_app. auto.
Qed.

(** ** The properties *)

(** C13: One pass over the instances takes down at most one Pod, whatever the API server
    answers and whatever else changes meanwhile.  The Pod belongs to an instance
    other than the recorded primary whose re-initialisation was requested; or to an instance that is not the
    acting primary and that is the first one (on no further condition), or whose
    predecessor was read as ready in this very pass, or whose own Pod had been read as
    absent in it, or in a group that is blocked without quorum; or
    to the acting primary, with the cluster observed ready and every other instance
    read as ready in this pass.  At most one data volume is deleted, of an instance
    other than the recorded primary whose re-initialisation was requested.  A pass
    that reports the instances as provisioned deleted nothing. *)
Theorem instances_go_down_one_at_a_time cluster PQ lf pa jh plan o fo c tr r :
  runs (reconcileInstances cluster PQ lf pa jh c plan o fo) tr r ->
  (pods_deleted tr = [] \/
   exists name c', pods_deleted tr = [name] /\ version c tr c' /\ pod_deletion cluster plan o (acting_primary cluster plan o) c' tr name) /\
  (volumes_deleted tr = [] \/
   exists name c', volumes_deleted tr = [name] /\ version c tr c' /\ reinitRequested c' name = true /\ name <> primaryName cluster plan) /\
  (r = Ok true -> pods_deleted tr = [] /\ volumes_deleted tr = []).
Proof. intros [[Hp Hv] Hok]%reconcileInstances_run. done. Qed.

(** C14: Scaling down deletes the Pods of surplus instances only, never of the planned or
    the target primary, and in a group only after the Pod was listed as fenced (it left
    the group) with the quorum guard agreeing, or was read as absent.  A data volume is
    deleted only when it was read in this pass and its bootstrap never finished: the
    data of a removed instance is kept.  While a primary change is in flight nothing is
    deleted.  The Pods that carry an ordinal are assumed to be named by the operator. *)
Theorem scale_down_keeps_data `{MapRange} cluster plan c tr r :
  (forall pods p ordinal, (mkEvent ListPods (Ok pods) : event request answer) ∈ tr -> p ∈ pods ->
     instanceOrdinal cluster (pd_Name p) = Some ordinal -> pd_Name p = instanceName cluster ordinal) ->
  runs (scaleDownReplicas cluster c plan) tr r ->
  (forall n, n ∈ pods_deleted tr -> surplus_instance cluster plan c n /\
     (read_gone n tr \/ kc_IsGroupReplication c = false \/
      scale_down_blocked c = false /\ exists pods, (mkEvent ListPods (Ok pods) : event request answer) ∈ tr /\ listed_fenced cluster pods n)) /\
  (forall n, n ∈ volumes_deleted tr -> surplus_instance cluster plan c n /\ read_unfinished n tr) /\
  (kc_CurrentPrimary c <> "" -> kc_TargetPrimary c <> "" -> kc_TargetPrimary c <> kc_CurrentPrimary c -> tr = []).
Proof.
  intros Hcan Hr. assert (kc_CurrentPrimary c <> "" -> kc_TargetPrimary c <> "" -> kc_TargetPrimary c <> kc_CurrentPrimary c -> tr = []) as Hidle.
  { intros H1%String.eqb_neq H2%String.eqb_neq H3%String.eqb_neq. unfold scaleDownReplicas in Hr. rewrite H1, H2, H3 in Hr. by destruct Hr. }
  apply scaleDownReplicas_run in Hr as [(all & [Hp Hv] & Hall) _]; [|done]. split_and!; [|done|done].
  intros n [Hs [Hg|[Hg|[Hf Hb]]]]%Hp; (split; [done|]); [by left|by right; left|right; right]. split; [done|]. exists all.
  split; [|done]. destruct Hall as [->|]; [|done]. by destruct Hf as (p & ordinal & ?%elem_of_nil & _).
Qed.

(** The operator asks by itself for new data only in an established cluster without
    group replication whose acting primary reports ready, keeps the requests that were
    there, and adds only instances that were observed as failed, are not the acting
    primary, and whose Pod was read in this pass as crash-looping past the threshold. *)
Theorem only_stuck_replicas_are_reinitialised c o tr c' r v (x : result KCluster) :
  runs (reconcileAutoReinit c o) tr (c', r) -> (mkEvent (PatchReinit v) x : event request answer) ∈ tr ->
  kc_IsGroupReplication c = false /\ established c = true /\
  (exists report, se_StatusByInstance (oc_Seen o) !! oc_PrimaryName o = Some report /\ re_IsReady report = true) /\
  exists added, v = Some (Join (reinitRequestedInstances c ++ added) ",") /\
    forall n, n ∈ added -> n ∈ se_FailedInstances (oc_Seen o) /\ n <> oc_PrimaryName o /\ read_stuck n tr.
Proof. apply reconcileAutoReinit_run. Qed.

(** ** Samples *)

Module ProvisionSample.
Definition hash (h : string) : gmap string string := {[podTemplateHashAnnotation := h]}.
Definition pod (name : string) (ready : bool) (h : string) : Pod := mkPod name "Running" false [ready] ∅ (hash h) [].
Definition volume (name : string) : PVC := mkPVC name ("uid-" +:+ name) {[pvcStatusAnnotation := pvcStatusReady]} false 10 [].

(** A server that answers from fixed objects. *)
Definition table (c : KCluster) (pods : gmap string Pod) (pvcs : gmap string PVC) (r : request) : answer r :=
  match r with
  | GetPod n => Ok (pods !! n)
  | ListPods => Ok (snd <$> map_to_list pods)
  | GetPVC n => Ok (pvcs !! n)
  | MarkPVCReady n | GrowPVC n _ => match pvcs !! n with Some v => Ok v | None => Err (Errorf "not found") end
  | ListPVCs => Ok (snd <$> map_to_list pvcs)
  | ListJobs _ => Ok []
  | EnsureConfigMap _ | EnsureService _ => Ok tt
  | PatchReinit v => Ok (with_Reinit c v)
  | CreatePod _ _ _ | PatchPod _ _ _ | DeletePod _ | CreatePVC _ | DeletePVC _ | CreateJob _ | DeleteJob _
  | DeleteConfigMap _ | DeleteService _ => Accepted
  end.

Definition report (ready : bool) : Report := mkReport "" ready "" false false "" "" 0 None "" None None.
Definition seen (ready failed : list string) : Seen :=
  mkSeen [] [] [] failed "" (list_to_map ((fun n => (n, report true)) <$> ready)) ∅ ∅ ∅ 0.
Definition observed (ready failed : list string) (primary : string) (group : option GroupReplicationStatus) : Observed :=
  mkObserved (seen ready failed) [] primary 0 0 (mkTopologyView "" false [] [] group) (mkTimelineUpdate false [] false []) None [] [] "" [] []
    true false "" "".
Definition kcluster (group : bool) (reinit : option string) (current : string) (resize : option bool) : KCluster :=
  mkKCluster group 3 (Some 1) reinit current "" "" None "10Gi" resize.
Definition plan (primary : string) : clusterPlan := mkClusterPlan 3 primary false false.
Definition no_failover : FailoverState := mkFailoverState "" [] ∅ [] [] [].

(** The Pod template of the operator has the hash "new", and every quantity is 10. *)
Definition pass (c : KCluster) (o : Observed) : program (result bool) :=
  reconcileInstances "prod" (fun _ => Ok 10) (fun _ _ => ∅) (fun _ _ _ => Ok (hash "new")) (fun _ _ _ _ => Ok "h") c (plan (kc_CurrentPrimary c)) o no_failover.

Definition online (names : list string) : GroupReplicationStatus :=
  mkGroupReplicationStatus "g" true "" ((fun n => mkGroupMember n MemberStateOnline "" true) <$> names) true 3 3 "" "" "".

Definition three (f : string -> Pod) : gmap string Pod := {["prod-1" := f "prod-1"; "prod-2" := f "prod-2"; "prod-3" := f "prod-3"]}.
Definition volumes : gmap string PVC := {["prod-1" := volume "prod-1"; "prod-2" := volume "prod-2"; "prod-3" := volume "prod-3"]}.
Definition named (p : Pod) : bool :=
  match instanceOrdinal "prod" (pd_Name p) with Some i => bool_decide (pd_Name p = instanceName "prod" i) | None => true end.
End ProvisionSample.
Import ProvisionSample.

(** The second instance, on an old template, is rolled after the first is ready. *)
Lemma instances_go_down_one_at_a_time_witness :
  let c := kcluster false None "prod-1" None in
  let o := observed ["prod-1"; "prod-2"; "prod-3"] [] "prod-1" None in
  let pods := <["prod-2" := pod "prod-2" true "old"]> (three (fun n => pod n true "new")) in
  let tr := (exec (table c pods volumes) (pass c o)).1 in
  pods_deleted tr = ["prod-2"] /\ exists name c', pods_deleted tr = [name] /\ version c tr c' /\ pod_deletion "prod" (plan "prod-1") o "prod-1" c' tr name.
Proof.
  intros c o pods tr. assert (pods_deleted tr = ["prod-2"]) as E by (vm_compute; reflexivity). split; [exact E|].
  destruct (instances_go_down_one_at_a_time "prod" _ _ _ _ (plan "prod-1") o no_failover c tr _ (exec_runs (table c pods volumes) (pass c o)))
    as [[E'|H] _]; [rewrite E in E'; discriminate|exact H].
Defined.

(** The fourth instance of a three-instance cluster goes, its volume stays. *)
Lemma scale_down_keeps_data_witness :
  let c := kcluster false None "prod-1" None in
  let range := Build_MapRange elements (fun s x => elem_of_elements s x) in
  let pods := <["prod-4" := pod "prod-4" true "new"]> (three (fun n => pod n true "new")) in
  let tr := (exec (table c pods (<["prod-4" := volume "prod-4"]> volumes)) (scaleDownReplicas (H := range) "prod" c (plan "prod-1"))).1 in
  pods_deleted tr = ["prod-4"] /\ volumes_deleted tr = [] /\ surplus_instance "prod" (plan "prod-1") c "prod-4".
Proof.
  intros c range pods tr. assert (pods_deleted tr = ["prod-4"]) as E by (vm_compute; reflexivity).
  split; [exact E|]. split; [vm_compute; reflexivity|].
  refine (proj1 (proj1 (scale_down_keeps_data (H := range) "prod" (plan "prod-1") c tr _ _ (exec_runs (table c _ _) (scaleDownReplicas (H := range) "prod" c (plan "prod-1")))) "prod-4" _)).
  - intros l p ordinal Hin Hp Ho.
    assert (forallb (fun e => match e : event request answer with mkEvent ListPods (Ok l) => forallb named l | _ => true end) tr = true) as Hf
      by (vm_compute; reflexivity).
    rewrite forallb_forall in Hf. specialize (Hf _ (proj1 (list_elem_of_In _ _) Hin)). cbn in Hf. rewrite forallb_forall in Hf.
    specialize (Hf _ (proj1 (list_elem_of_In _ _) Hp)). unfold named in Hf. rewrite Ho in Hf. by apply bool_decide_eq_true in Hf.
  - rewrite E. by left.
Defined.

(** A replica whose server was killed over a corrupted tablespace three times. *)
Lemma only_stuck_replicas_are_reinitialised_witness :
  let c := kcluster false (Some "prod-2") "prod-1" None in
  let o := observed ["prod-1"; "prod-2"] ["prod-3"] "prod-1" None in
  let crashed := mkPod "prod-3" "Running" false [false] ∅ ∅ [mkContainerStatus "mysql" (Some "CrashLoopBackOff") 3 (Some "CNMSQL_INNODB_CORRUPTION") None] in
  let tr := (exec (table c {["prod-3" := crashed]} ∅) (reconcileAutoReinit c o)).1 in
  (mkEvent (PatchReinit (Some "prod-2,prod-3")) (Ok (with_Reinit c (Some "prod-2,prod-3"))) : event request answer) ∈ tr /\ established c = true.
Proof.
  intros c o crashed tr.
  assert ((mkEvent (PatchReinit (Some "prod-2,prod-3")) (Ok (with_Reinit c (Some "prod-2,prod-3"))) : event request answer) ∈ tr) as Hin
    by (vm_compute; right; left).
  split; [exact Hin|].
  pose proof (exec_runs (table c {["prod-3" := crashed]} ∅) (reconcileAutoReinit c o)) as Hr.
  rewrite (surjective_pairing (exec _ _).2) in Hr.
  exact (proj1 (proj2 (only_stuck_replicas_are_reinitialised c o tr _ _ _ _ Hr Hin))).
Defined.

(** ** What the code does not do *)

(** A pending offline resize of the primary's volume is not applied: the primary's Pod
    has the current template, so its roll is not pending, and the pass reports the
    instances as provisioned. *)
Lemma primary_resize_is_never_applied :
  let c := kcluster false None "prod-1" (Some false) in
  let o := observed ["prod-1"; "prod-2"; "prod-3"] [] "prod-1" None in
  let pending := mkPVC "prod-1" "uid-prod-1" {[pvcStatusAnnotation := pvcStatusReady]} false 10 [("FileSystemResizePending", true)] in
  let run := exec (table c (three (fun n => pod n true "new")) (<["prod-1" := pending]> volumes)) (pass c o) in
  run.2 = Ok true /\ pods_deleted run.1 = [].
Proof. by vm_compute. Qed.

(** In a group of three whose third member is down, the first one is rolled. *)
Lemma first_member_rolls_with_another_one_down :
  let c := kcluster true None "prod-2" None in
  let o := observed ["prod-1"; "prod-2"] ["prod-3"] "prod-2" (Some (online ["prod-1"; "prod-2"])) in
  let pods := <["prod-3" := pod "prod-3" false "old"]> (three (fun n => pod n true "old")) in
  pods_deleted (exec (table c pods volumes) (pass c o)).1 = ["prod-1"].
Proof. by vm_compute. Qed.

(** A re-initialisation of the member that the group elected is carried out while the
    Cluster still records another primary. *)
Lemma elected_primary_is_reinitialised :
  let c := kcluster true (Some "prod-2") "prod-1" None in
  let o := observed ["prod-1"; "prod-2"; "prod-3"] [] "prod-2" (Some (online ["prod-1"; "prod-2"; "prod-3"])) in
  let run := exec (table c (three (fun n => pod n true "new")) volumes) (pass c o) in
  pods_deleted run.1 = ["prod-2"] /\ volumes_deleted run.1 = ["prod-2"].
Proof. by vm_compute. Qed.
