(* ===== verification/ProvisionProtocol.v ===== *)
(** * A data volume has one user

    The passes of [Provision] against an API server: between any two requests the
    kubelet, the Job controller and the garbage collector change Pods, volumes and
    Jobs, requests fail, and answers are lost after the request took effect.  Reads
    are of the current objects.

    The theorem shows that an instance never has a Pod and a bootstrap Job at the
    same time, so that nothing else writes to a volume while it is bootstrapped, and
    that a volume is only marked as bootstrapped when a Job bound to that very
    volume completed. *)

From Stdlib Require Import ZArith Lia Bool Ascii String.
From stdpp Require Import base list strings gmap.
From S2P Require Import Prelude GoStrings Requests Election Cluster Failover Switchover GroupReplication Status Provision.

Local Open Scope Z_scope.
#[local] Arguments String.append : simpl nomatch.

(** ** The API server *)

(** The objects, by name, and the volumes (by UID) on which a Job completed. *)
Record world := mkWorld {
  k_pods : gmap string Pod;
  k_pvcs : gmap string PVC;
  k_jobs : gmap string Job;
  k_done : gset string
}.

Definition set_pods (w : world) (m : gmap string Pod) : world := mkWorld m (k_pvcs w) (k_jobs w) (k_done w).
Definition set_pvcs (w : world) (m : gmap string PVC) : world := mkWorld (k_pods w) m (k_jobs w) (k_done w).
Definition set_jobs (w : world) (m : gmap string Job) : world := mkWorld (k_pods w) (k_pvcs w) m (k_done w).

(** The same volume with the same bootstrap status. *)
Definition same_volume (v v' : PVC) : Prop :=
  pv_UID v = pv_UID v' /\ pv_Annotations v !! pvcStatusAnnotation = pv_Annotations v' !! pvcStatusAnnotation.
Definition same_job (j j' : Job) : Prop := jb_Instance j = jb_Instance j' /\ jb_PVCUID j = jb_PVCUID j'.

(** What the others do: they change and remove objects, and a Job completes.  Only
    the operator creates the objects of a cluster and writes the bootstrap status. *)
Inductive interferes : world -> world -> Prop :=
| change_pod w n p p' : k_pods w !! n = Some p -> interferes w (set_pods w (<[n := p']> (k_pods w)))
| remove_pod w n : interferes w (set_pods w (delete n (k_pods w)))
| change_pvc w n v v' : k_pvcs w !! n = Some v -> same_volume v v' -> interferes w (set_pvcs w (<[n := v']> (k_pvcs w)))
| remove_pvc w n : interferes w (set_pvcs w (delete n (k_pvcs w)))
| change_job w n j j' : k_jobs w !! n = Some j -> same_job j j' ->
    interferes w (mkWorld (k_pods w) (k_pvcs w) (<[n := j']> (k_jobs w))
                    (if jobFinished j' JobComplete then {[jb_PVCUID j']} ∪ k_done w else k_done w))
| remove_job w n : interferes w (set_jobs w (delete n (k_jobs w))).

Definition marked (v : PVC) : PVC :=
  mkPVC (pv_Name v) (pv_UID v) (<[pvcStatusAnnotation := pvcStatusReady]> (pv_Annotations v)) (pv_Terminating v) (pv_Requested v) (pv_Conditions v).

(** The effects of the writes. *)
Definition pod_created (w : world) (n : string) (w' : world) : Prop :=
  k_pods w !! n = None /\ exists p, w' = set_pods w (<[n := p]> (k_pods w)).
Definition pod_changed (w : world) (n : string) (w' : world) : Prop :=
  exists p p', k_pods w !! n = Some p /\ w' = set_pods w (<[n := p']> (k_pods w)).
Definition pvc_created (w : world) (n : string) (w' : world) : Prop :=
  k_pvcs w !! n = None /\ exists v, pv_UID v ∉ k_done w /\ pv_Annotations v !! pvcStatusAnnotation = Some pvcStatusInitializing /\
    w' = set_pvcs w (<[n := v]> (k_pvcs w)).
Definition pvc_becomes (w : world) (n : string) (f : PVC -> PVC -> Prop) (w' : world) : Prop :=
  exists v v', k_pvcs w !! n = Some v /\ f v v' /\ w' = set_pvcs w (<[n := v']> (k_pvcs w)).
Definition job_created (w : world) (j : Job) (w' : world) : Prop :=
  k_jobs w !! jb_Name j = None /\ w' = set_jobs w (<[jb_Name j := j]> (k_jobs w)).
Definition job_changed (w : world) (n : string) (w' : world) : Prop :=
  exists j j', k_jobs w !! n = Some j /\ same_job j j' /\ jb_Conditions j = jb_Conditions j' /\ w' = set_jobs w (<[n := j']> (k_jobs w)).

(** A write that is accepted takes effect; one that fails may have. *)
Definition write_effect (x : outcome) (w w' : world) (effect : world -> Prop) : Prop :=
  match x with
  | Accepted => effect w'
  | Rejected _ => effect w' \/ w' = w
  | _ => w' = w
  end.

Definition serve (w : world) (r : request) : answer r -> world -> Prop :=
  match r with
  | GetPod n => fun x w' => w' = w /\ match x with Ok o => o = k_pods w !! n | Err _ => True end
  | CreatePod n _ _ => fun x w' => write_effect x w w' (pod_created w n)
  | PatchPod n _ _ | DeletePod n => fun x w' => write_effect x w w' (fun w' => pod_changed w n w' \/ w' = w)
  | GetPVC n => fun x w' => w' = w /\ match x with Ok o => o = k_pvcs w !! n | Err _ => True end
  | CreatePVC n => fun x w' => write_effect x w w' (pvc_created w n)
  | MarkPVCReady n => fun x w' =>
      match x with
      | Ok v => pvc_becomes w n (fun old new => new = marked old /\ v = new) w'
      | Err _ => w' = w \/ pvc_becomes w n (fun old new => new = marked old) w'
      end
  | GrowPVC n _ => fun x w' => w' = w \/ pvc_becomes w n same_volume w'
  | DeletePVC n => fun x w' => write_effect x w w' (fun w' => pvc_becomes w n same_volume w' \/ w' = w)
  | ListJobs instance => fun x w' => w' = w /\
      match x with
      | Ok l => forall j, j ∈ l <-> exists name, k_jobs w !! name = Some j /\ match instance with Some n => jb_Instance j = n | None => True end
      | Err _ => True
      end
  | CreateJob j => fun x w' => write_effect x w w' (job_created w j)
  | DeleteJob n => fun x w' => write_effect x w w' (fun w' => job_changed w n w' \/ w' = w)
  | _ => fun _ w' => w' = w
  end.

(** Runs of a pass, request by request, with interference. *)
Inductive reaches {A} : world -> program A -> world -> program A -> Prop :=
| reaches_refl w p : reaches w p w p
| reaches_env w p w' w'' p'' : interferes w w' -> reaches w' p w'' p'' -> reaches w p w'' p''
| reaches_serve w r k x w' w'' p'' : serve w r x w' -> reaches w' (k x) w'' p'' -> reaches w (Send r k) w'' p''.

(** ** The invariant *)

Section Protocol.
(** The volumes from before bootstrap Jobs. *)
Context (legacy : gset string).

Record Inv (w : world) : Prop := mkInv {
  inv_exclusive n p name j : k_pods w !! n = Some p -> k_jobs w !! name = Some j -> jb_Instance j <> n;
  inv_complete name j : k_jobs w !! name = Some j -> jobFinished j JobComplete = true -> jb_PVCUID j ∈ k_done w;
  inv_bootstrapped n v : k_pvcs w !! n = Some v -> pvcBootstrapped v = true -> pv_UID v ∈ k_done w ∪ legacy
}.

Lemma same_volume_bootstrapped v v' : same_volume v v' -> pvcBootstrapped v' = pvcBootstrapped v.
Proof. intros [_ E]. unfold pvcBootstrapped. by rewrite E. Qed.

Lemma inv_pod_changed w n p' : Inv w -> is_Some (k_pods w !! n) -> Inv (set_pods w (<[n := p']> (k_pods w))).
Proof.
  intros [He Hc Hb] [p Hp]. split; cbn; [|done|done]. intros m q name j Hm Hj. destruct (decide (n = m)) as [->|Hne].
  - by eapply He.
  - rewrite lookup_insert_ne in Hm by done. by eapply He.
Qed.

Lemma inv_pod_created w n p' :
  Inv w -> (forall name j, k_jobs w !! name = Some j -> jb_Instance j <> n) -> Inv (set_pods w (<[n := p']> (k_pods w))).
Proof.
  intros [He Hc Hb] Hj. split; cbn; [|done|done]. intros m q name j Hm Hl. destruct (decide (n = m)) as [->|Hne]; [by eapply Hj|].
  rewrite lookup_insert_ne in Hm by done. by eapply He.
Qed.

Lemma inv_pvc w n v' : Inv w -> (pvcBootstrapped v' = true -> pv_UID v' ∈ k_done w ∪ legacy) -> Inv (set_pvcs w (<[n := v']> (k_pvcs w))).
Proof.
  intros [He Hc Hb] Hv. split; cbn; [done|done|]. intros m v. destruct (decide (n = m)) as [->|Hne].
  - rewrite lookup_insert_eq. by intros [= <-].
  - rewrite lookup_insert_ne by done. apply Hb.
Qed.

Lemma inv_same_volume w n v v' : Inv w -> k_pvcs w !! n = Some v -> same_volume v v' -> Inv (set_pvcs w (<[n := v']> (k_pvcs w))).
Proof.
  intros Hi Hv Hs. apply inv_pvc; [done|]. rewrite (same_volume_bootstrapped _ _ Hs). destruct Hs as [<- _]. by apply inv_bootstrapped with (n := n).
Qed.

Lemma inv_job w n j' :
  Inv w -> (forall m p, k_pods w !! m = Some p -> jb_Instance j' <> m) -> (jobFinished j' JobComplete = true -> jb_PVCUID j' ∈ k_done w) ->
  Inv (set_jobs w (<[n := j']> (k_jobs w))).
Proof.
  intros [He Hc Hb] Hp Hd. split; cbn; [| |done].
  - intros m p name j Hm. destruct (decide (n = name)) as [->|Hne]; [rewrite lookup_insert_eq; intros [= <-]; by eapply Hp|].
    rewrite lookup_insert_ne by done. by eapply He.
  - intros name j. destruct (decide (n = name)) as [->|Hne]; [rewrite lookup_insert_eq; intros [= <-]; done|].
    rewrite lookup_insert_ne by done. apply Hc.
Qed.

Lemma inv_done w s : Inv w -> Inv (mkWorld (k_pods w) (k_pvcs w) (k_jobs w) (s ∪ k_done w)).
Proof.
  intros [He Hc Hb]. split; cbn; [done| |].
  - intros name j Hj Hd. apply elem_of_union_r. by eapply Hc.
  - intros n v Hv Hbo. specialize (Hb n v Hv Hbo). set_solver.
Qed.

Lemma interferes_inv w w' : interferes w w' -> Inv w -> Inv w'.
Proof.
  intros Hs Hi. destruct Hs as [w n p p' Hp|w n|w n v v' Hv Hvv|w n|w n j j' Hj Hjj|w n].
  - apply inv_pod_changed; [done|by eexists].
  - destruct Hi as [He Hc Hb]. split; cbn; [|done|done]. intros m p name j [_ Hm]%lookup_delete_Some. by eapply He.
  - by eapply inv_same_volume.
  - destruct Hi as [He Hc Hb]. split; cbn; [done|done|]. intros m v [_ Hm]%lookup_delete_Some. by eapply Hb.
  - assert (forall m p, k_pods w !! m = Some p -> jb_Instance j' <> m) as Hp.
    { intros m p Hm. destruct Hjj as [<- _]. by eapply inv_exclusive. }
    destruct (jobFinished j' JobComplete) eqn:Ed.
    + pose proof (inv_done w {[jb_PVCUID j']} Hi) as Hi'. apply (inv_job _ n j' Hi' Hp). intros _. apply elem_of_union_l. set_solver.
    + apply (inv_job w n j' Hi Hp). congruence.
  - destruct Hi as [He Hc Hb]. split; cbn; [| |done].
    + intros m p name j Hm [_ Hj]%lookup_delete_Some. by eapply He.
    + intros name j [_ Hj]%lookup_delete_Some. by eapply Hc.
Qed.

Lemma interferes_all_inv w w' : rtc interferes w w' -> Inv w -> Inv w'.
Proof. induction 1; [done|]. eauto using interferes_inv. Qed.

(** ** What stays true *)

Definition absent (n : string) (w : world) : Prop := k_pods w !! n = None.
Definition no_jobs (n : string) (w : world) : Prop := forall name j, k_jobs w !! name = Some j -> jb_Instance j <> n.
Definition volume_is (n uid : string) (w : world) : Prop := forall v, k_pvcs w !! n = Some v -> pv_UID v = uid.
Definition ready_uid (uid : string) (w : world) : Prop := uid ∈ k_done w ∪ legacy.

(** Nothing appeared. *)
Record quiet (w w' : world) : Prop := mkQuiet {
  quiet_pods n : absent n w -> absent n w';
  quiet_jobs n : no_jobs n w -> no_jobs n w';
  quiet_volumes n uid : volume_is n uid w -> volume_is n uid w';
  quiet_ready uid : ready_uid uid w -> ready_uid uid w'
}.

#[global] Instance quiet_preorder : PreOrder quiet.
Proof.
  split; [by intros w; split|]. intros w1 w2 w3 [A1 A2 A3 A4] [B1 B2 B3 B4]. split; auto.
Qed.

Lemma quiet_change_pod w n p p' : k_pods w !! n = Some p -> quiet w (set_pods w (<[n := p']> (k_pods w))).
Proof.
  intros Hp. split; unfold absent; try done. intros m Hm. cbn. rewrite lookup_insert_ne; [done|]. intros ->. congruence.
Qed.

Lemma quiet_change_pvc w n v v' : k_pvcs w !! n = Some v -> pv_UID v = pv_UID v' -> quiet w (set_pvcs w (<[n := v']> (k_pvcs w))).
Proof.
  intros Hv Hu. split; try done. intros m uid Hm x. cbn. destruct (decide (n = m)) as [->|Hne].
  - rewrite lookup_insert_eq. intros [= <-]. rewrite <- Hu. by apply Hm.
  - rewrite lookup_insert_ne by done. apply Hm.
Qed.

Lemma quiet_change_job w n j j' done : k_jobs w !! n = Some j -> same_job j j' -> k_done w ⊆ done ->
  quiet w (mkWorld (k_pods w) (k_pvcs w) (<[n := j']> (k_jobs w)) done).
Proof.
  intros Hj [Hi _] Hs. split; try by auto.
  - intros m Hm name x. cbn. destruct (decide (n = name)) as [->|Hne].
    + rewrite lookup_insert_eq. intros [= <-]. rewrite <- Hi. by eapply Hm.
    + rewrite lookup_insert_ne by done. apply Hm.
  - unfold ready_uid. cbn. set_solver.
Qed.

Lemma interferes_quiet w w' : interferes w w' -> quiet w w'.
Proof.
  intros [w1 n p p' Hp|w1 n|w1 n v v' Hv [Hu _]|w1 n|w1 n j j' Hj Hjj|w1 n].
  - by eapply quiet_change_pod.
  - split; try done. intros m Hm. unfold absent. cbn. apply lookup_delete_None. by right.
  - by eapply quiet_change_pvc.
  - split; try done. intros m uid Hm v. cbn. intros [_ Hv]%lookup_delete_Some. by apply Hm.
  - eapply quiet_change_job; [done|done|]. destruct (jobFinished _ _); set_solver.
  - split; try done. intros m Hm name j. cbn. intros [_ Hj]%lookup_delete_Some. by eapply Hm.
Qed.

Lemma interferes_all_quiet w w' : rtc interferes w w' -> quiet w w'.
Proof. induction 1 as [|w w1 w2 H1 _ IH]; [done|]. etrans; [by apply interferes_quiet|done]. Qed.

(** ** Programs that keep the invariant *)

(** Whatever happens before and at each request, the invariant holds after it, and the
    program ends in a world where [Q] holds. *)
Fixpoint safe {A} (p : program A) (Q : world -> A -> Prop) (w : world) : Prop :=
  match p with
  | Return a => Q w a
  | Send r k => forall w1 x w2, rtc interferes w w1 -> serve w1 r x w2 -> Inv w2 /\ safe (k x) Q w2
  end.

Lemma safe_bind {A B} (p : program A) (f : A -> program B) Q Q' w :
  safe p Q w -> (forall w' a, Q w' a -> safe (f a) Q' w') -> safe (tbind p f) Q' w.
Proof.
  intros Hp Hf. revert w Hp. induction p as [a|r k IH]; intros w; cbn; [apply Hf|].
  intros Hp w1 x w2 Hi Hs. destruct (Hp w1 x w2 Hi Hs) as [Hinv Hk]. split; [done|]. by apply IH.
Qed.

Lemma safe_bind_result {A B} (p : program (result A)) (f : A -> program (result B)) Q Q' w :
  safe p Q w -> (forall w' a, Q w' (Ok a) -> safe (f a) Q' w') -> (forall w' e, Q w' (Err e) -> Q' w' (Err e)) ->
  safe (tbind_result p f) Q' w.
Proof. intros Hp Hf He. eapply safe_bind; [exact Hp|]. intros w' [a|e] Hq; [by apply Hf|by apply He]. Qed.

Lemma safe_mono {A} (p : program A) (Q Q' : world -> A -> Prop) w : safe p Q w -> (forall w' a, Q w' a -> Q' w' a) -> safe p Q' w.
Proof.
  intros Hp HQ. revert w Hp. induction p as [a|r k IH]; intros w; cbn; [apply HQ|]. intros Hp w1 x w2 Hi Hs.
  destruct (Hp w1 x w2 Hi Hs). auto.
Qed.

Lemma safe_env {A} (p : program A) w w' : rtc interferes w w' -> safe p (fun _ _ => True) w -> safe p (fun _ _ => True) w'.
Proof. intros Hi. destruct p as [a|r k]; cbn; [done|]. intros Hp w1 x w2 Hi' Hs. eapply Hp; [by etrans|done]. Qed.

Lemma safe_reaches {A} w (p : program A) w' p' : reaches w p w' p' -> Inv w -> safe p (fun _ _ => True) w -> Inv w'.
Proof.
  induction 1 as [|w p w1 w2 p2 Hi _ IH|w r k x w1 w2 p2 Hs _ IH]; intros Hinv Hp; [done| |].
  - apply IH; [by eapply interferes_inv|]. eapply safe_env; [|done]. by apply rtc_once.
  - destruct (Hp w x w1) as [Hinv1 Hk]; [done|done|]. by apply IH.
Qed.

(** Requests that create nothing and do not write a bootstrap status. *)
Definition inert (r : request) : Prop :=
  match r with CreatePod _ _ _ | CreatePVC _ | CreateJob _ | MarkPVCReady _ => False | _ => True end.

Lemma write_effect_cases x w w' effect : write_effect x w w' effect -> effect w' \/ w' = w.
Proof. destruct x; cbn; auto. Qed.

Lemma inert_serve w r x w' : inert r -> Inv w -> serve w r x w' -> Inv w' /\ quiet w w'.
Proof.
  intros Hin Hi Hs. assert (w' = w -> Inv w' /\ quiet w w') as Hid by (by intros ->).
  assert (forall n v v', k_pvcs w !! n = Some v -> same_volume v v' -> w' = set_pvcs w (<[n := v']> (k_pvcs w)) -> Inv w' /\ quiet w w') as Hpvc.
  { intros n v v' Hv Hvv ->. split; [by eapply inv_same_volume|]. eapply quiet_change_pvc; [done|]. by destruct Hvv. }
  destruct r; cbn in Hin, Hs; try done; try (by apply Hid; destruct Hs); try (by apply Hid); try apply write_effect_cases in Hs.
  1-2: destruct Hs as [[(p & p' & Hp & ->)| ->]| ->]; try (by apply Hid);
    (split; [apply inv_pod_changed; [done|by eexists]|by eapply quiet_change_pod]).
  - destruct Hs as [->|(v & v' & Hv & Hvv & ->)]; [by apply Hid|by eapply Hpvc].
  - destruct Hs as [[(v & v' & Hv & Hvv & ->)| ->]| ->]; [by eapply Hpvc|by apply Hid..].
  - destruct Hs as [[(j & j' & Hj & Hjj & Hc & ->)| ->]| ->]; [|by apply Hid..]. split.
    + apply inv_job; [done| |].
      * intros m p Hm. destruct Hjj as [<- _]. by eapply inv_exclusive.
      * unfold jobFinished. rewrite <- Hc. destruct Hjj as [_ <-]. by eapply inv_complete.
    + by eapply quiet_change_job.
Qed.

Definition calm (w : world) {A} (w' : world) (_ : A) : Prop := Inv w' /\ quiet w w'.

Lemma safe_inert {A} (p : program A) w : every inert p -> Inv w -> safe p (calm w) w.
Proof.
  intros He Hi. assert (forall w', Inv w' -> quiet w w' -> safe p (calm w) w') as H; [|by apply H].
  clear Hi. induction p as [a|r k IH]; intros w' Hi Hq; [done|]. destruct He as [Hr He]. intros w1 x w2 Henv Hs.
  pose proof (interferes_all_inv _ _ Henv Hi) as Hi1. destruct (inert_serve _ _ _ _ Hr Hi1 Hs) as [Hi2 Hq2]. split; [done|].
  apply IH; [done|done|]. etrans; [exact Hq|]. etrans; [by apply interferes_all_quiet|done].
Qed.

(** ** The steps *)

Lemma interrupted w w1 : rtc interferes w w1 -> Inv w -> Inv w1 /\ quiet w w1.
Proof. intros H Hi. split; [by eapply interferes_all_inv|by apply interferes_all_quiet]. Qed.

(** A request that is answered from the current objects. *)
Lemma safe_read r (Q : world -> answer r -> Prop) w :
  Inv w -> inert r -> (forall w1 w2 x, Inv w2 -> quiet w w2 -> serve w1 r x w2 -> Q w2 x) -> safe (send r) Q w.
Proof.
  intros Hi Hr HQ w1 x w2 Henv Hs. destruct (interrupted _ _ Henv Hi) as [Hi1 Hq1].
  destruct (inert_serve _ _ _ _ Hr Hi1 Hs) as [Hi2 Hq2]. split; [done|]. cbn. eapply HQ; [done| |exact Hs]. by etrans.
Qed.

Lemma patch_reinit_inert c v : every inert (patch_reinit c v).
Proof. unfold patch_reinit. every_tac. Qed.
Lemma clearReinitRequest_inert c n : every inert (clearReinitRequest c n).
Proof. unfold clearReinitRequest. every_tac; apply patch_reinit_inert. Qed.
Lemma deleteBootstrapJob_inert job : every inert (deleteBootstrapJob job).
Proof. unfold deleteBootstrapJob. every_tac. Qed.
Lemma delete_jobs_inert jobs : every inert (delete_jobs jobs).
Proof. induction jobs as [|j jobs IH]; cbn [delete_jobs]; [done|]. apply every_bind_result; [apply deleteBootstrapJob_inert|done]. Qed.
Lemma deleteBootstrapJobs_inert n : every inert (deleteBootstrapJobs n).
Proof. unfold deleteBootstrapJobs, bootstrapJobs. every_tac. apply delete_jobs_inert. Qed.
Lemma teardown_pod_inert inst : every inert (teardown_pod inst).
Proof. unfold teardown_pod. every_tac. Qed.
Lemma teardown_pvc_inert inst : every inert (teardown_pvc inst).
Proof. unfold teardown_pvc. every_tac. Qed.
Lemma instanceFullyReady_inert c o inst : every inert (instanceFullyReady c o inst).
Proof. unfold instanceFullyReady. every_tac. Qed.
#[local] Hint Resolve clearReinitRequest_inert deleteBootstrapJob_inert delete_jobs_inert deleteBootstrapJobs_inert teardown_pod_inert
  teardown_pvc_inert instanceFullyReady_inert patch_reinit_inert : every.

Lemma reconcileReinit_inert c inst : every inert (reconcileReinit c inst).
Proof. unfold reconcileReinit. every_tac. Qed.
Lemma rollForResize_inert inst allow : every inert (rollForResize inst allow).
Proof. unfold rollForResize. every_tac. Qed.
Lemma auto_reinit_loop_inert c primary failed : every inert (auto_reinit_loop c primary failed).
Proof. induction failed as [|m failed IH]; cbn [auto_reinit_loop]; [done|]. every_tac. Qed.
Lemma addReinitRequests_inert c l : every inert (addReinitRequests c l).
Proof. unfold addReinitRequests. every_tac. Qed.
#[local] Hint Resolve auto_reinit_loop_inert addReinitRequests_inert : every.
Lemma reconcileAutoReinit_inert c o : every inert (reconcileAutoReinit c o).
Proof. unfold reconcileAutoReinit. every_tac. Qed.
Lemma gateInstance_inert cl c plan inst o fo : every inert (gateInstance cl c plan inst o fo).
Proof. unfold gateInstance, instancePodExists, instancePVCBootstrapped. every_tac. Qed.
Lemma replicas_ready_loop_inert cl c plan o primary l : every inert (replicas_ready_loop cl c plan o primary l).
Proof. induction l as [|i l IH]; cbn [replicas_ready_loop]; [done|]. every_tac. Qed.
Lemma instancePendingRoll_inert pa c plan inst : every inert (instancePendingRoll pa c plan inst).
Proof. unfold instancePendingRoll. every_tac. Qed.

Lemma removeInstanceResources_inert inst : every inert (removeInstanceResources inst).
Proof. unfold removeInstanceResources, deleteUnbootstrappedPVC. every_tac. Qed.
#[local] Hint Resolve removeInstanceResources_inert : every.
Lemma collect_loop_inert cl c plan names : every inert (collect_loop cl c plan names).
Proof. induction names as [|n names IH]; cbn [collect_loop]; [done|]. unfold instancePodExists. every_tac. Qed.
Lemma scale_down_loop_inert cl c plan pods : every inert (scale_down_loop cl c plan pods).
Proof. induction pods as [|p pods IH]; cbn [scale_down_loop]; [done|]. unfold stampFencingAnnotation. every_tac. Qed.
#[local] Hint Resolve collect_loop_inert scale_down_loop_inert : every.
Lemma scaleDownReplicas_inert `{MapRange} cl c plan : every inert (scaleDownReplicas cl c plan).
Proof. unfold scaleDownReplicas, garbageCollectSurplusBootstrap. every_tac. Qed.

(** *** The requests that create something or mark a volume *)

Lemma safe_send r (Q : world -> answer r -> Prop) w :
  Inv w -> (forall w1 x w2, Inv w1 -> quiet w w1 -> serve w1 r x w2 -> Inv w2 /\ Q w2 x) -> safe (send r) Q w.
Proof. intros Hi HQ w1 x w2 Henv Hs. destruct (interrupted _ _ Henv Hi) as [Hi1 Hq1]. by destruct (HQ _ _ _ Hi1 Hq1 Hs). Qed.

Lemma create_pod_safe n labels annotations w : Inv w -> no_jobs n w -> safe (send (CreatePod n labels annotations)) (fun w' _ => Inv w') w.
Proof.
  intros Hi Hn. apply safe_send; [done|]. intros w1 x w2 Hi1 Hq Hs. apply write_effect_cases in Hs as [(_ & p & ->)| ->]; [|done].
  pose proof (inv_pod_created w1 n p Hi1 (quiet_jobs _ _ Hq n Hn)). done.
Qed.

Lemma create_job_safe j w :
  Inv w -> absent (jb_Instance j) w -> jobFinished j JobComplete = false -> safe (send (CreateJob j)) (fun w' _ => Inv w') w.
Proof.
  intros Hi Ha Hf. apply safe_send; [done|]. intros w1 x w2 Hi1 Hq Hs. apply write_effect_cases in Hs as [(_ & ->)| ->]; [|done].
  assert (Inv (set_jobs w1 (<[jb_Name j := j]> (k_jobs w1)))); [|done]. apply inv_job; [done| |by rewrite Hf].
  intros m p Hm Hne. apply (quiet_pods _ _ Hq) in Ha. unfold absent in Ha. rewrite Hne in Ha. congruence.
Qed.

Lemma create_pvc_safe n w : Inv w -> safe (send (CreatePVC n)) (fun w' _ => Inv w') w.
Proof.
  intros Hi. apply safe_send; [done|]. intros w1 x w2 Hi1 Hq Hs. apply write_effect_cases in Hs as [(_ & v & Hu & Ha & ->)| ->]; [|done].
  assert (Inv (set_pvcs w1 (<[n := v]> (k_pvcs w1)))); [|done]. apply inv_pvc; [done|]. unfold pvcBootstrapped. by rewrite Ha.
Qed.

Lemma mark_ready_safe n uid w :
  Inv w -> volume_is n uid w -> ready_uid uid w -> safe (send (MarkPVCReady n)) (calm w) w.
Proof.
  intros Hi Hv Hr. apply safe_send; [done|]. intros w1 x w2 Hi1 Hq Hs.
  assert (w2 = w1 \/ exists v, k_pvcs w1 !! n = Some v /\ w2 = set_pvcs w1 (<[n := marked v]> (k_pvcs w1))) as [->|(v & Hl & ->)].
  { destruct x as [x|e]; cbn in Hs.
    - destruct Hs as (v & v' & Hl & [-> _] & ->). right. by exists v.
    - destruct Hs as [->|(v & v' & Hl & -> & ->)]; [by left|right]. by exists v. }
  - done.
  - assert (Inv (set_pvcs w1 (<[n := marked v]> (k_pvcs w1)))) as Hi2.
    { apply inv_pvc; [done|]. intros _. cbn. rewrite (quiet_volumes _ _ Hq _ _ Hv _ Hl). by apply (quiet_ready _ _ Hq). }
    split; [done|]. split; [done|]. etrans; [exact Hq|]. by eapply quiet_change_pvc.
Qed.

(** *** The parts of an instance *)

Lemma bootstrapJobs_safe n w :
  Inv w -> safe (bootstrapJobs n) (fun w' r => calm w w' r /\
    match r with
    | Ok l => (l = [] -> no_jobs n w') /\ forall j, j ∈ l -> jobFinished j JobComplete = true -> ready_uid (jb_PVCUID j) w'
    | Err _ => True
    end) w.
Proof.
  intros Hi. unfold bootstrapJobs.
  eapply safe_bind_result with (Q := fun w' (r : result (list Job)) => calm w w' r /\
    match r with
    | Ok l => (forall j name, k_jobs w' !! name = Some j -> jb_Instance j = n -> j ∈ l) /\
        forall j, j ∈ l -> jobFinished j JobComplete = true -> ready_uid (jb_PVCUID j) w'
    | Err _ => True
    end).
  - apply safe_read; [done|done|]. intros w1 w2 x Hi2 Hq [-> Hx]. split; [done|]. destruct x as [l|]; [|done]. split.
    + intros j name Hj Hn. apply Hx. eauto.
    + intros j (name & Hj & _)%Hx Hc. apply elem_of_union_l. by eapply inv_complete.
  - intros w' l [Hc [Hn Hl]]. cbn. split; [done|]. split.
    + intros E name j Hj Hi'. apply (Hn _ _ Hj) in Hi'. rewrite <- (isort_perm (fun a b => String.leb (jb_Name a) (jb_Name b))), E in Hi'.
      by apply elem_of_nil in Hi'.
    + intros j Hj. apply Hl. by rewrite isort_perm in Hj.
  - done.
Qed.

Lemma deleteBootstrapJobs_safe n w :
  Inv w -> safe (deleteBootstrapJobs n) (fun w' r => Inv w' /\ (r = Ok 0%nat -> no_jobs n w')) w.
Proof.
  intros Hi. unfold deleteBootstrapJobs. eapply safe_bind_result; [by apply bootstrapJobs_safe| |by intros w' e [[? _] _]].
  intros w' [|j jobs] [[Hi' _] [Hn _]].
  - cbn. auto.
  - eapply safe_bind_result with (Q := calm w'); [by apply safe_inert; [apply delete_jobs_inert|]| |]; by intros w2 ? [Hi2 _].
Qed.

Lemma instancePodExists_safe inst w :
  Inv w -> safe (instancePodExists inst) (fun w' r => calm w w' r /\ (r = Ok false -> absent (ip_Name inst) w')) w.
Proof.
  intros Hi. unfold instancePodExists.
  eapply safe_bind_result with (Q := fun w' (r : result (option Pod)) => calm w w' r /\ (r = Ok None -> absent (ip_Name inst) w')).
  - apply safe_read; [done|done|]. intros w1 w2 x Hi2 Hq [-> Hx]. split; [done|]. intros ->. by unfold absent.
  - intros w' pod [Hc Hn]. cbn. split; [done|]. destruct pod; [done|]. auto.
  - intros w' e [Hc _]. done.
Qed.

(** A read of the volume: what is known of it from then on. *)
Lemma get_pvc_safe n w :
  Inv w -> safe (send (GetPVC n)) (fun w' r => calm w w' r /\
    match r with Ok (Some v) => volume_is n (pv_UID v) w' /\ (pvcBootstrapped v = true -> ready_uid (pv_UID v) w') | _ => True end) w.
Proof.
  intros Hi. apply safe_read; [done|done|]. intros w1 w2 x Hi2 Hq [-> Hx]. split; [done|]. destruct x as [[v|]|e]; [|done..].
  split; [|by eapply inv_bootstrapped]. intros v' Hv'. congruence.
Qed.

Lemma ensurePVC_safe PQ c inst w : Inv w -> safe (ensurePVC PQ c inst) (fun w' _ => Inv w') w.
Proof.
  intros Hi. unfold ensurePVC. eapply safe_bind_result; [by apply get_pvc_safe| |by intros w' e [[? _] _]].
  intros w' [v|] [[Hi' _] Hv].
  - destruct Hv as [Hu Hr]. eapply safe_bind_result with (Q := fun w'' _ => Inv w'').
    + destruct (pv_Annotations v !! pvcStatusAnnotation) eqn:Ea; [done|].
      eapply safe_mono; [eapply mark_ready_safe; [done|done|]|by intros w2 a [? _]]. apply Hr. unfold pvcBootstrapped. by rewrite Ea.
    + intros w2 v2 Hi2. eapply safe_mono; [apply safe_inert|by intros w3 a [? _]]; [every_tac|done].
    + done.
  - destruct (if String.eqb _ _ then _ else _); [|done]. eapply safe_bind; [by apply create_pvc_safe|]. by intros w2 o.
Qed.

Lemma bootstrap_with_job_safe inst v desired job w :
  Inv w -> volume_is (ip_PVCName inst) (pv_UID v) w -> (jobFinished job JobComplete = true -> ready_uid (jb_PVCUID job) w) ->
  safe (bootstrap_with_job inst v desired job) (fun w' r => Inv w' /\ r <> Ok true) w.
Proof.
  intros Hi Hv Hj. unfold bootstrap_with_job.
  assert (forall w, Inv w -> safe (tbind_result (deleteBootstrapJob job) (fun _ => Return (Ok false))) (fun w' r => Inv w' /\ r <> Ok true) w) as Hdrop.
  { intros w' Hi'. eapply safe_bind_result; [by apply safe_inert; [apply deleteBootstrapJob_inert|]| |]; by intros w2 ? [? _]. }
  destruct (jb_Terminating job); [done|].
  destruct (String.eqb_spec (jb_PVCUID job) (pv_UID v)) as [Eu|_]; cbn [negb]; [|by apply Hdrop].
  destruct (jobFinished job JobComplete).
  - eapply safe_bind_result; [eapply mark_ready_safe; [done|done|rewrite <- Eu; auto]| |by intros w' e [? _]]. intros w' v' [Hi' _]. by apply Hdrop.
  - destruct (jobFinished job JobFailed); [|done]. destruct (negb _); [by apply Hdrop|done].
Qed.

Section Passes.
Context (PQ : string -> result Z) (lf : KCluster -> instancePlan -> gmap string string)
  (pa : KCluster -> clusterPlan -> instancePlan -> result (gmap string string))
  (jh : KCluster -> clusterPlan -> instancePlan -> bootstrapMode -> result string).

Lemma bootstrapJob_fresh c plan inst mode v j : bootstrapJob jh c plan inst mode v = Ok j -> jb_Instance j = ip_Name inst /\ jobFinished j JobComplete = false.
Proof. unfold bootstrapJob. destruct (jh c plan inst mode); cbn; [|done]. by intros [= <-]. Qed.

Lemma start_bootstrap_safe c plan inst v w :
  Inv w -> absent (ip_Name inst) w -> volume_is (ip_PVCName inst) (pv_UID v) w ->
  safe (match bootstrapJob jh c plan inst (bootstrapModeFor c plan inst) v with
        | Err e => Return (Err e)
        | Ok desired =>
            tbind_result (bootstrapJobs (ip_Name inst)) (fun jobs =>
              match jobs with
              | job :: _ => bootstrap_with_job inst v desired job
              | [] => tbind (send (CreateJob desired)) (fun o => Return (match IgnoreAlreadyExists o with Ok _ => Ok false | Err e => Err e end))
              end)
        end) (fun w' r => Inv w' /\ r <> Ok true) w.
Proof.
  intros Hi Ha Hv. destruct (bootstrapJob _ _ _ _ _ _) as [desired|e] eqn:Ed; [|done]. apply bootstrapJob_fresh in Ed as [En Ef].
  eapply safe_bind_result; [by apply bootstrapJobs_safe| |by intros w' e [[? _] _]]. intros w' jobs [[Hi' Hq] [_ Hj]].
  destruct jobs as [|job jobs].
  - eapply safe_bind; [apply create_job_safe; [done| |done]|].
    + rewrite En. by apply (quiet_pods _ _ Hq).
    + intros w2 o Hi2. cbn. split; [done|]. by destruct (IgnoreAlreadyExists o).
  - apply bootstrap_with_job_safe; [done|by apply (quiet_volumes _ _ Hq)|]. apply Hj. by left.
Qed.

Lemma ensureBootstrapped_safe c plan inst w :
  Inv w -> safe (ensureBootstrapped jh c plan inst) (fun w' r => Inv w' /\ (r = Ok true -> no_jobs (ip_Name inst) w')) w.
Proof.
  intros Hi. unfold ensureBootstrapped. eapply safe_bind_result; [by apply get_pvc_safe| |by intros w' e [[? _] _]].
  intros w' [v|] [[Hi' _] Hv]; [|done]. destruct Hv as [Hu Hr]. destruct (pvcBootstrapped v).
  - eapply safe_bind_result; [by apply deleteBootstrapJobs_safe| |by intros w2 e [? _]].
    intros w2 [|left] [Hi2 Hn]; cbn; [split; [done|auto]|done].
  - eapply safe_bind_result; [by apply instancePodExists_safe| |by intros w2 e [[? _] _]].
    intros w2 [] [[Hi2 Hq] Hn]; [done|]. destruct (_ && _); [done|].
    eapply safe_mono; [apply start_bootstrap_safe; [done|auto|by apply (quiet_volumes _ _ Hq)]|]. by intros w3 r [? ?].
Qed.

Lemma ensurePod_safe c plan inst allow w : Inv w -> no_jobs (ip_Name inst) w -> safe (ensurePod lf pa c plan inst allow) (fun w' _ => Inv w') w.
Proof.
  intros Hi Hn. unfold ensurePod. destruct (pa c plan inst); [|done].
  eapply safe_bind_result with (Q := calm w); [by apply safe_inert| |by intros w' e [? _]]. intros w' [p|] [Hi' Hq].
  - eapply safe_mono; [apply safe_inert; [every_tac|done]|]. by intros w2 r [? _].
  - eapply safe_bind; [apply create_pod_safe; [done|by apply (quiet_jobs _ _ Hq)]|]. by intros w2 o.
Qed.

Lemma ensureInstance_safe c plan inst allow w : Inv w -> safe (ensureInstance PQ lf pa jh c plan inst allow) (fun w' _ => Inv w') w.
Proof.
  intros Hi. unfold ensureInstance. eapply safe_bind; [by apply safe_inert; [apply reconcileReinit_inert|]|].
  intros w1 [c1 handled] [Hi1 _]. destruct handled as [[]|]; [done| |done].
  eapply safe_bind with (Q := fun w' _ => Inv w'); [|done].
  eapply safe_bind_result with (Q := calm w1); [by apply safe_inert| |by intros w' e [? _]]. intros w2 [] [Hi2 _].
  eapply safe_bind_result; [by apply ensurePVC_safe| |done]. intros w3 needs Hi3.
  eapply safe_bind_result with (Q := calm w3); [by apply safe_inert| |by intros w' e [? _]]. intros w4 [] [Hi4 _].
  eapply safe_bind_result; [by apply ensureBootstrapped_safe| |by intros w' e [? _]]. intros w5 [] [Hi5 Hn]; cbn [negb]; [|done].
  eapply safe_bind_result with (Q := calm w5); [apply safe_inert; [destruct needs; [apply rollForResize_inert|done]|done]| |by intros w' e [? _]].
  intros w6 rolled [Hi6 Hq]. destruct rolled; [done|]. apply ensurePod_safe; [done|]. apply (quiet_jobs _ _ Hq). auto.
Qed.

Context (cluster : string).

Lemma instances_loop_safe c plan o fo primary l w :
  Inv w -> safe (instances_loop cluster PQ lf pa jh c plan o fo primary l) (fun w' _ => Inv w') w.
Proof.
  revert c w. induction l as [|i l IH]; intros c w Hi; cbn [instances_loop]; [done|].
  eapply safe_bind with (Q := calm w); [apply safe_inert; [destruct (1 <? i); [apply gateInstance_inert|done]|done]|].
  intros w1 [[]|] [Hi1 _]; [|done..]. eapply safe_bind; [by apply ensureInstance_safe|]. intros w2 [c2 [[]|]] Hi2; [done| |done]. by apply IH.
Qed.

Lemma roll_primary_safe c plan o primary w : Inv w -> safe (roll_primary cluster PQ lf pa jh c plan o primary) (fun w' _ => Inv w') w.
Proof.
  intros Hi. unfold roll_primary. destruct (instanceOrdinal cluster primary) as [ordinal|]; [|done].
  eapply safe_bind_result with (Q := calm w); [by apply safe_inert; [apply instancePendingRoll_inert|]| |by intros w' e [? _]].
  intros w1 [] [Hi1 _]; cbn [negb]; [|done]. destruct (oc_Ready o); [|done].
  eapply safe_bind_result with (Q := calm w1); [by apply safe_inert; [apply replicas_ready_loop_inert|]| |by intros w' e [? _]].
  intros w2 [] [Hi2 _]; [|done]. eapply safe_bind; [by apply ensureInstance_safe|]. by intros w3 [c3 r].
Qed.

Lemma reconcileInstances_safe c plan o fo w : Inv w -> safe (reconcileInstances cluster PQ lf pa jh c plan o fo) (fun w' _ => Inv w') w.
Proof.
  intros Hi. unfold reconcileInstances. eapply safe_bind; [by apply safe_inert; [apply reconcileAutoReinit_inert|]|].
  intros w1 [c1 [[]|]] [Hi1 _]; [|done]. destruct (outage_ordinal cluster c1 o) as [ordinal|].
  - eapply safe_bind; [by apply ensureInstance_safe|]. by intros w2 [c2 r].
  - eapply safe_bind; [by apply instances_loop_safe|]. intros w2 [c2 [[]|]] Hi2; [|done..]. by apply roll_primary_safe.
Qed.
End Passes.
End Protocol.

(** ** The operator at work *)

(** Passes over the instances and removals, in any order, with any Cluster, plan and
    observation, each possibly cut short, among the steps of the others. *)
Inductive operates (cluster : string) : world -> world -> Prop :=
| others_act w w' : interferes w w' -> operates cluster w w'
| reconciles PQ lf pa jh c plan o fo w w' p' :
    reaches w (reconcileInstances cluster PQ lf pa jh c plan o fo) w' p' -> operates cluster w w'
| scales_down (H : MapRange) c plan w w' p' : reaches w (scaleDownReplicas (H := H) cluster c plan) w' p' -> operates cluster w w'.

Lemma operates_inv legacy cluster w w' : operates cluster w w' -> Inv legacy w -> Inv legacy w'.
Proof.
  intros [w1 w2 Hs|PQ lf pa jh c plan o fo w1 w2 p' Hr|H c plan w1 w2 p' Hr] Hi.
  - by eapply interferes_inv.
  - eapply safe_reaches; [exact Hr|done|]. eapply safe_mono; [by apply reconcileInstances_safe|done].
  - eapply safe_reaches; [exact Hr|done|]. eapply safe_mono; [apply safe_inert; [apply scaleDownReplicas_inert|done]|done].
Qed.

Lemma operates_all_inv legacy cluster w w' : rtc (operates cluster) w w' -> Inv legacy w -> Inv legacy w'.
Proof. induction 1 as [|w w1 w2 H1 _ IH]; [done|]. intros Hi. by eapply IH, operates_inv. Qed.

(** C12: An instance never has a Pod and a bootstrap Job at the same time, and a volume is
    only taken for bootstrapped when a Job bound to that very volume completed (or it is
    from before bootstrap Jobs).  This holds after every step of every sequence of
    passes and removals of the operator, whatever their arguments, when passes stop
    half way, writes fail or take effect without the operator learning of it, and the
    kubelet, the Job controller and the garbage collector act between any two
    requests; reads are of the current objects. *)
Theorem job_and_pod_never_share_a_volume legacy cluster w w' :
  Inv legacy w -> rtc (operates cluster) w w' ->
  (forall n p name j, k_pods w' !! n = Some p -> k_jobs w' !! name = Some j -> jb_Instance j <> n) /\
  (forall n v, k_pvcs w' !! n = Some v -> pvcBootstrapped v = true -> pv_UID v ∈ k_done w' ∪ legacy).
Proof. intros Hi Hr. destruct (operates_all_inv _ _ _ _ Hr Hi) as [He _ Hb]. split; [exact He|exact Hb]. Qed.

(** ** A server *)

Module ServerSample.
Definition empty_world : world := mkWorld ∅ ∅ ∅ ∅.

(** It keeps what is created, marks volumes and refuses every other write. *)
Definition server (w : world) (r : request) : answer r * world :=
  match r with
  | GetPod n => (Ok (k_pods w !! n), w)
  | CreatePod n labels annotations =>
      match k_pods w !! n with
      | Some _ => (AlreadyExists, w)
      | None => (Accepted, set_pods w (<[n := mkPod n "Pending" false [] labels annotations []]> (k_pods w)))
      end
  | GetPVC n => (Ok (k_pvcs w !! n), w)
  | CreatePVC n =>
      match k_pvcs w !! n with
      | Some _ => (AlreadyExists, w)
      | None => (Accepted, set_pvcs w (<[n := mkPVC n (fresh (k_done w)) {[pvcStatusAnnotation := pvcStatusInitializing]} false 0 []]> (k_pvcs w)))
      end
  | MarkPVCReady n =>
      match k_pvcs w !! n with
      | Some v => (Ok (marked v), set_pvcs w (<[n := marked v]> (k_pvcs w)))
      | None => (Err (Errorf "not found"), w)
      end
  | ListJobs instance =>
      (Ok (List.filter (fun j => match instance with Some n => String.eqb (jb_Instance j) n | None => true end) (snd <$> map_to_list (k_jobs w))), w)
  | CreateJob j =>
      match k_jobs w !! jb_Name j with
      | Some _ => (AlreadyExists, w)
      | None => (Accepted, set_jobs w (<[jb_Name j := j]> (k_jobs w)))
      end
  | ListPods => (Ok [], w)
  | ListPVCs => (Ok [], w)
  | GrowPVC _ _ => (Err (Errorf "refused"), w)
  | EnsureConfigMap _ | EnsureService _ => (Ok tt, w)
  | PatchReinit _ => (Err (Errorf "refused"), w)
  | PatchPod _ _ _ | DeletePod _ | DeletePVC _ | DeleteJob _ | DeleteConfigMap _ | DeleteService _ => (NotFound, w)
  end.

Lemma server_serves w r : serve w r (server w r).1 (server w r).2.
Proof.
  destruct r; cbn; try done.
  - destruct (k_pods w !! name) eqn:E; cbn; [done|]. split; [done|]. by eexists.
  - destruct (k_pvcs w !! name) eqn:E; cbn; [done|]. split; [done|]. eexists. split; [|split; [|done]]; cbn.
    + apply is_fresh.
    + by vm_compute.
  - destruct (k_pvcs w !! name) eqn:E; cbn; [|by left]. by eexists _, _.
  - by left.
  - split; [done|]. intros j. rewrite list_elem_of_In, filter_In, <- list_elem_of_In, list_elem_of_fmap. split.
    + intros [([name j'] & -> & Hj%elem_of_map_to_list) Hf]. exists name. split; [done|]. destruct instance; [by apply String.eqb_eq|done].
    + intros (name & Hj & Hf). split; [exists (name, j); split; [done|by apply elem_of_map_to_list]|].
      destruct instance; [by apply String.eqb_eq|done].
  - destruct (k_jobs w !! jb_Name job) eqn:E; cbn; [done|]. done.
Qed.

Fixpoint drive {A} (w : world) (p : program A) : world * A :=
  match p with
  | Return a => (w, a)
  | Send r k => drive (server w r).2 (k (server w r).1)
  end.

Lemma drive_reaches {A} w (p : program A) : reaches w p (drive w p).1 (Return (drive w p).2).
Proof. revert w. induction p as [a|r k IH]; intros w; cbn; [constructor|]. eapply reaches_serve; [apply server_serves|apply IH]. Qed.

(** A new cluster of one instance. *)
Definition sample_cluster : KCluster := mkKCluster false 1 None None "" "" "" None "" None.
Definition sample_observed : Observed :=
  mkObserved (mkSeen [] [] [] [] "" ∅ ∅ ∅ ∅ 0) [] "" 0 0 (mkTopologyView "" false [] [] None) (mkTimelineUpdate false [] false []) None [] [] "" [] []
    false false "" "".
Definition pass : program (result bool) :=
  reconcileInstances "prod" (fun _ => Ok 0) (fun _ _ => ∅) (fun _ _ _ => Ok ∅) (fun _ _ _ _ => Ok "h") sample_cluster
    (mkClusterPlan 1 "prod-1" false false) sample_observed (mkFailoverState "" [] ∅ [] [] []).

Definition job_name : string := "prod-1-initdb".
Definition completed (j : Job) : Job := mkJob (jb_Name j) (jb_Instance j) (jb_PVCUID j) (jb_Hash j) (jb_Terminating j) [("Complete", true)].

(** The Job controller completes the Job, and the garbage collector removes it. *)
Definition complete_job (w : world) : world :=
  match k_jobs w !! job_name with
  | Some j => mkWorld (k_pods w) (k_pvcs w) (<[job_name := completed j]> (k_jobs w)) ({[jb_PVCUID j]} ∪ k_done w)
  | None => w
  end.
Definition remove_jobs (w : world) : world := set_jobs w (delete job_name (k_jobs w)).

Lemma complete_job_operates w : rtc (operates "prod") w (complete_job w).
Proof.
  unfold complete_job. destruct (k_jobs w !! job_name) as [j|] eqn:E; [|done]. apply rtc_once, others_act.
  exact (change_job w job_name j (completed j) E (conj eq_refl eq_refl)).
Qed.

(** A pass creates the volume and its Job; the next one marks the volume; the third one
    creates the Pod. *)
Definition w1 : world := (drive empty_world pass).1.
Definition w2 : world := (drive (complete_job w1) pass).1.
Definition w3 : world := (drive (remove_jobs w2) pass).1.

Lemma pass_operates w : operates "prod" w (drive w pass).1.
Proof. eapply reconciles. apply (drive_reaches w pass). Qed.

Lemma sample_run : rtc (operates "prod") empty_world w3.
Proof.
  eapply rtc_l; [apply (pass_operates empty_world)|]. etrans; [apply (complete_job_operates w1)|].
  eapply rtc_l; [apply (pass_operates (complete_job w1))|]. eapply rtc_l; [apply others_act, (remove_job w2 job_name)|].
  apply rtc_once, (pass_operates (remove_jobs w2)).
Qed.

Lemma empty_inv : Inv ∅ empty_world.
Proof. split; cbn; intros *; rewrite ?lookup_empty; done. Qed.
End ServerSample.

Lemma job_and_pod_never_share_a_volume_witness :
  k_jobs ServerSample.w1 !! ServerSample.job_name <> None /\ k_pods ServerSample.w1 !! "prod-1" = None /\
  k_pods ServerSample.w3 !! "prod-1" <> None /\
  (forall n v, k_pvcs ServerSample.w3 !! n = Some v -> pvcBootstrapped v = true -> pv_UID v ∈ k_done ServerSample.w3 ∪ ∅).
Proof.
  split; [vm_compute; discriminate|]. split; [vm_compute; reflexivity|]. split; [vm_compute; discriminate|].
  exact (proj2 (job_and_pod_never_share_a_volume ∅ "prod" _ _ ServerSample.empty_inv ServerSample.sample_run)).
Defined.
