(* ===== verification/Guard.v ===== *)
(** * Guards: fences, quorum recovery, routing, disruption budgets and the group's handoff

    [internal/controller/cluster_guard.go] and
    [internal/controller/groupreplication/cluster_switchover.go]: what the operator does
    to a cluster it must not break further.  Passes are trees of requests ([Requests]);
    events and log lines are left out. *)

From Stdlib Require Import ZArith Lia Bool Ascii String.
From stdpp Require Import base list strings gmap.
From S2P Require Import Prelude GoStrings Requests Gtid GtidText Election Cluster Failover GroupReplication Status Provision.

Local Open Scope Z_scope.
Local Open Scope tree_scope.
#[local] Arguments String.append : simpl nomatch.

(** ** Data *)

(** The Cluster, the fields these functions read; [gu_Window] is the node maintenance
    window: whether it is in progress, and [reusePVC]. *)
Record GuardCluster := mkGuardCluster {
  gu_Name : string;
  gu_IsGroupReplication : bool;
  gu_Group : GroupCluster;
  gu_Established : bool;
  gu_FencedInstances : list string;
  gu_Annotations : gmap string string;
  gu_EnablePDB : option bool;
  gu_Window : option (bool * option bool);
  gu_TargetPrimaryTimestamp : option Time;
  gu_MaxSwitchoverDelay : Z
}.

Definition MemberRoleSecondary : string := "SECONDARY".
Definition routableFalse : string := "false".
Definition forceQuorumRecoveryAnnotation : string := "cnmsql.cnmsql.co/force-quorum-recovery".
Definition forceQuorumMembersAnnotation : string := "cnmsql.cnmsql.co/force-quorum-members".
Definition forceGroupRebootstrapAnnotation : string := "cnmsql.cnmsql.co/force-group-rebootstrap".
Definition unreachableSinceAnnotation : string := "cnmsql.cnmsql.co/unreachable-since".
Definition provisioningRequeue : Duration := 10 * second.
Definition readyResync : Duration := 30 * second.
Definition deRouteGracePeriod : Duration := 30 * second.

(** A PodDisruptionBudget: the number in one of two fields, and the role it selects. *)
Inductive budget_field := UsesMinAvailable | UsesMaxUnavailable.
Record Budget := mkBudget { bu_Field : budget_field; bu_Value : Z; bu_Role : option string }.

(** ** Requests *)

Inductive guard_request :=
| ReadClock
| ReadCluster
| ClearAnnotation (key : string)
| ResetViewMax
| StampTarget (now : Time)
| RevertTarget (current : string)
| AskStatus (instance : string)
| SetAsPrimary (instance uuid : string)
| ReadPod (name : string)
| AnnotatePod (name : string) (labels annotations : gmap string string)
| ReadPDB (name : string)
| RemovePDB (name : string)
| ApplyPDB (name : string) (b : Budget).

(** [AskStatus] answers the group status of a reply. *)
Definition guard_answer (r : guard_request) : Type :=
  match r with
  | ReadClock => Time
  | ReadCluster => result GuardCluster
  | AskStatus _ => result (option GroupReplicationMemberStatus)
  | ReadPod _ => result (option Pod)
  | ReadPDB _ => result (option Budget)
  | RemovePDB _ => outcome
  | _ => option error
  end.

Abbreviation program := (tree guard_request guard_answer).
Abbreviation trace := (list (event guard_request guard_answer)).

(** ** The fence guard *)

(** A slice filtered into its own array ([s[:0]] and [append]): what the array holds. *)
Definition overwrite {A} (keep : A -> bool) (l : list A) : list A :=
  let filtered := List.filter keep l in filtered ++ drop (length filtered) l.

Fixpoint removeString (ss : list string) (s : string) : list string :=
  match ss with
  | [] => []
  | v :: ss' => if String.eqb v s then ss' else v :: removeString ss' s
  end.

Definition with_members (gr : GroupReplicationStatus) (members : list GroupMember) : GroupReplicationStatus :=
  mkGroupReplicationStatus (gr_GroupName gr) (gr_Bootstrapped gr) (gr_PrimaryMember gr) members (gr_HasQuorum gr) (gr_ObservedViewMax gr)
    (gr_ObservedOnlineMax gr) (gr_ViewID gr) (gr_CommunicationProtocol gr) (gr_CommunicationProtocolTarget gr).
Definition with_group (c : GroupCluster) (gr : option GroupReplicationStatus) : GroupCluster :=
  mkGroupCluster (gc_Namespace c) (gc_Instances c) (gc_CurrentPrimary c) (gc_CurrentPrimaryGeneration c) (gc_TargetPrimary c) gr.

(** [observed] with another view of the group; with other fences, blocked. *)
Definition with_view (o : Observed) (gr : option GroupReplicationStatus) : Observed :=
  let v := oc_View o in
  mkObserved (oc_Seen o) (oc_InstanceNames o) (oc_PrimaryName o) (oc_PrimaryGTIDReadAt o) (oc_ReadyInstances o)
    (mkTopologyView (tv_PrimaryName v) (tv_PrimaryAuthoritative v) (tv_DivergedInstances v) (tv_ReplicationBrokenInstances v) gr)
    (oc_Timeline o) (oc_ContinuousArchiving o) (oc_CredentialMismatch o) (oc_LagGated o) (oc_OutOfRangePrimary o) (oc_BootstrapJobs o)
    (oc_MissingCredentialSecrets o) (oc_Ready o) (oc_Progressing o) (oc_Phase o) (oc_PhaseReason o).
Definition fence_blocked (o : Observed) (fences : list string) (reason : string) : Observed :=
  let s := oc_Seen o in
  mkObserved
    (mkSeen (se_ResizingPVCs s) fences (se_TerminatingInstances s) (se_FailedInstances s) (se_PrimaryName s) (se_StatusByInstance s)
       (se_GTIDByInstance s) (se_ExecutableHashByInstance s) (se_ReplicationLagByInstance s) (se_ReadyInstances s))
    (oc_InstanceNames o) (oc_PrimaryName o) (oc_PrimaryGTIDReadAt o) (oc_ReadyInstances o) (oc_View o) (oc_Timeline o)
    (oc_ContinuousArchiving o) (oc_CredentialMismatch o) (oc_LagGated o) (oc_OutOfRangePrimary o) (oc_BootstrapJobs o)
    (oc_MissingCredentialSecrets o) false false PhaseBlocked reason.

(** The reason [FenceQuorumGuard] gives. *)
Definition fence_reason (members : list GroupMember) (fenceSet : list string) (guard : QuorumResult) : string :=
  let fencing := count (fun name => existsb (fun m => String.eqb (me_Instance m) name) members) fenceSet in
  "fencing " +:+ FormatInt fencing +:+ " member(s) would drop the group to " +:+ FormatInt (qr_CurrentSize guard - fencing) +:+
  " active members, below quorum (" +:+ FormatInt (qr_Quorum guard) +:+ ")".

(** The reason, and the observation as the guard leaves it.  The merged status shares
    the observed members, so filtering them changes the observation. *)
Definition checkFenceQuorumGuard (c : GuardCluster) (o : Observed) : string * Observed :=
  let fences := se_FencedInstances (oc_Seen o) in
  if negb (gu_IsGroupReplication c) || Nat.eqb (length fences) 0 then ("", o)
  else
    let persisted name := bool_decide (name ∈ gu_FencedInstances c) in
    let newFences := List.filter (fun name => negb (persisted name)) fences in
    if Nat.eqb (length newFences) 0 then ("", o)
    else
      let seen := tv_GroupReplication (oc_View o) in
      let latest := MergeStatus (gu_Group c) seen in
      let keep m := negb (persisted (me_Instance m)) in
      let '(latest, o) :=
        if Nat.eqb (length (gu_FencedInstances c)) 0 then (latest, o)
        else
          (with_group latest ((fun gr => with_members gr (List.filter keep (gr_Members gr))) <$> gc_GroupReplication latest),
           with_view o ((fun gr => with_members gr (overwrite keep (gr_Members gr))) <$> seen)) in
      match FenceQuorumGuard latest newFences with
      | Some guard =>
          if qr_Blocked guard then
            let reason := fence_reason (match gc_GroupReplication latest with Some gr => gr_Members gr | None => [] end) newFences guard in
            (reason, fence_blocked o (foldl removeString fences newFences) reason)
          else ("", o)
      | None => ("", o)
      end.

(** ** Guided quorum recovery *)

Definition clearAnnotation (key : string) : program unit :=
  ask! latest := send ReadCluster in
  match latest with
  | Err _ => Return tt
  | Ok latest =>
      if bool_decide (gu_Annotations latest = ∅) then Return tt
      else ask! _ := send (ClearAnnotation key) in Return tt
  end.

(** [ComputeForceQuorumRecovery] of the topology of the Cluster. *)
Definition topology_recovery (c : GuardCluster) (gtidByInstance : gmap string string) : option ForceQuorumRecovery :=
  if gu_IsGroupReplication c then ComputeForceQuorumRecovery (gu_Group c) gtidByInstance else None.

Definition doorbell (r : ForceQuorumRecovery) : string * string :=
  match fq_Action r with
  | QuorumRecoveryForceMembers => (forceQuorumMembersAnnotation, fq_ForceMembers r)
  | QuorumRecoveryRebootstrap => (forceGroupRebootstrapAnnotation, "yes")
  end.

(** Arming the survivor: the requeue, the error and whether the pass is claimed. *)
Definition arm (annotated : bool) (recovery : ForceQuorumRecovery) : program (Duration * option error * bool) :=
  ask! pod := send (ReadPod (fq_Survivor recovery)) in
  match pod with
  | Err e => Return (0, Some e, true)
  | Ok None => Return (provisioningRequeue, None, false)
  | Ok (Some p) =>
      if negb (podRunning (pod_info p)) then Return (provisioningRequeue, None, false)
      else
        let '(key, value) := doorbell recovery in
        if String.eqb (value_of (pd_Annotations p) key) value then Return (provisioningRequeue, None, true)
        else
          ask! err := send (AnnotatePod (fq_Survivor recovery) (pd_Labels p) (<[key := value]> (pd_Annotations p))) in
          match err with
          | Some e => Return (0, Some e, true)
          | None =>
              ask! _ := send ResetViewMax in
              ask! _ := (if annotated then clearAnnotation forceQuorumRecoveryAnnotation else Return tt) in
              Return (provisioningRequeue, None, true)
          end
  end.

Definition handleQuorumRecovery (c : GuardCluster) (o : Observed) : program (Duration * option error * bool) :=
  if negb (gu_IsGroupReplication c) then Return (0, None, false)
  else
    ask! latest := send ReadCluster in
    match latest with
    | Err e => Return (0, Some e, true)
    | Ok latest =>
        let annotated := String.eqb (value_of (gu_Annotations latest) forceQuorumRecoveryAnnotation) "yes" in
        let autoFullOutage := String.eqb (oc_Phase o) PhaseFullOutage in
        let refuse := ask! _ := (if annotated then clearAnnotation forceQuorumRecoveryAnnotation else Return tt) in Return (0, None, false) in
        if negb annotated && negb autoFullOutage then Return (0, None, false)
        else
          match gc_GroupReplication (gu_Group latest) with
          | None => refuse
          | Some gr =>
              if negb (gr_Bootstrapped gr) then refuse
              else if gr_HasQuorum gr && negb autoFullOutage then refuse
              else
                match topology_recovery latest (se_GTIDByInstance (oc_Seen o)) with
                | None => Return (readyResync, None, false)
                | Some recovery => arm annotated recovery
                end
          end
    end.

(** ** Routing *)

Section Routing.
(** [time.Parse] and [Format] with [time.RFC3339]. *)
Context (parse_RFC3339 : string -> option Time) (format_RFC3339 : Time -> string).

(** What a Pod's labels and annotations become. *)
Definition route (eligible primary fenced reachable : bool) (now : Time) (p : Pod) : gmap string string * gmap string string :=
  let since := value_of (pd_Annotations p) unreachableSinceAnnotation in
  let unreachable := eligible && negb primary && negb fenced && negb reachable in
  let annotations :=
    if unreachable then
      if String.eqb since "" then <[unreachableSinceAnnotation := format_RFC3339 now]> (pd_Annotations p) else pd_Annotations p
    else delete unreachableSinceAnnotation (pd_Annotations p) in
  let deRouted := unreachable && negb (String.eqb since "") &&
    match parse_RFC3339 since with Some ts => deRouteGracePeriod <=? now - ts | None => false end in
  (<[routableLabel := if fenced || deRouted then routableFalse else routableTrue]> (pd_Labels p), annotations).

Definition route_of (c : GuardCluster) (o : Observed) (now : Time) (name : string) (p : Pod) : gmap string string * gmap string string :=
  route (gu_Established c) (String.eqb name (oc_PrimaryName o)) (bool_decide (name ∈ se_FencedInstances (oc_Seen o)))
    (bool_decide (is_Some (se_StatusByInstance (oc_Seen o) !! name))) now p.

Fixpoint fencing_loop (c : GuardCluster) (o : Observed) (now : Time) (names : list string) : program (result unit) :=
  match names with
  | [] => Return (Ok tt)
  | name :: names' =>
      try? pod := send (ReadPod name) in
      match pod with
      | None => fencing_loop c o now names'
      | Some p =>
          if pd_Terminating p then fencing_loop c o now names'
          else
            let '(labels, annotations) := route_of c o now name p in
            if bool_decide (labels = pd_Labels p) && bool_decide (annotations = pd_Annotations p) then fencing_loop c o now names'
            else
              ask! err := send (AnnotatePod name labels annotations) in
              match err with
              | Some e => Return (Err e)
              | None => fencing_loop c o now names'
              end
      end
  end.

Definition reconcileFencing (c : GuardCluster) (o : Observed) : program (result unit) :=
  ask! now := send ReadClock in fencing_loop c o (Truncate now second) (oc_InstanceNames o).
End Routing.

(** ** Disruption budgets *)

Definition primaryPDBName (c : GuardCluster) : string := gu_Name c +:+ "-primary".
Definition replicaPDBName (c : GuardCluster) : string := gu_Name c +:+ "-replicas".
Definition groupPDBName (c : GuardCluster) : string := gu_Name c +:+ "-group".

Definition inNodeMaintenance (c : GuardCluster) : bool :=
  match gu_Window c with Some (inProgress, reusePVC) => inProgress && default true reusePVC | None => false end.

(** Go's [/] truncates. *)
Definition replicaMinAvailable (replicas : Z) : Z := if replicas <=? 0 then 0 else replicas - Z.max (Z.quot replicas 2) 1.

Definition rolePrimary : string := "primary".
Definition roleReplica : string := "replica".
Definition buildPDB (role : string) (maxUnavailable : Z) : Budget := mkBudget UsesMaxUnavailable maxUnavailable (Some role).
Definition buildMinAvailablePDB (role : string) (minAvailable : Z) : Budget := mkBudget UsesMinAvailable minAvailable (Some role).
Definition buildClusterWidePDB (maxUnavailable : Z) : Budget := mkBudget UsesMaxUnavailable maxUnavailable None.

Definition usesMinAvailable (b : Budget) : bool := match bu_Field b with UsesMinAvailable => true | UsesMaxUnavailable => false end.

Definition deletePDBOnBudgetFieldChange (name : string) (desired : Budget) : program (result unit) :=
  try? existing := send (ReadPDB name) in
  match existing with
  | None => Return (Ok tt)
  | Some existing =>
      if Bool.eqb (usesMinAvailable existing) (usesMinAvailable desired) then Return (Ok tt)
      else ask! o := send (RemovePDB name) in Return (IgnoreNotFound o)
  end.

(** [build] is [Some] when the budget is wanted. *)
Definition reconcileOnePDB (name : string) (build : option Budget) : program (result unit) :=
  match build with
  | None =>
      try? existing := send (ReadPDB name) in
      match existing with
      | None => Return (Ok tt)
      | Some _ => ask! o := send (RemovePDB name) in Return (written o)
      end
  | Some desired =>
      try? _ := deletePDBOnBudgetFieldChange name desired in
      ask! err := send (ApplyPDB name desired) in
      Return (match err with Some e => Err e | None => Ok tt end)
  end.

Definition deleteAsyncSplitPDBs (c : GuardCluster) : program unit :=
  ask! _ := reconcileOnePDB (primaryPDBName c) None in
  ask! _ := reconcileOnePDB (replicaPDBName c) None in
  Return tt.

Definition reconcilePDB (c : GuardCluster) (instances : Z) : program (result unit) :=
  let pdbEnabled := default true (gu_EnablePDB c) in
  let maintenance := inNodeMaintenance c in
  let singleInstance := instances <=? 1 in
  let wanted (want : bool) b := if want then Some b else None in
  if gu_IsGroupReplication c then
    if negb pdbEnabled || singleInstance then
      ask! _ := reconcileOnePDB (groupPDBName c) None in
      ask! _ := deleteAsyncSplitPDBs c in
      Return (Ok tt)
    else
      ask! _ := deleteAsyncSplitPDBs c in
      reconcileOnePDB (groupPDBName c) (wanted (pdbEnabled && negb maintenance) (buildClusterWidePDB (fst (PDBMaxUnavailable (gu_Group c)))))
  else
    try? _ := reconcileOnePDB (primaryPDBName c) (wanted (pdbEnabled && negb maintenance) (buildPDB rolePrimary 1)) in
    reconcileOnePDB (replicaPDBName c)
      (wanted (pdbEnabled && negb singleInstance && negb maintenance) (buildMinAvailablePDB roleReplica (replicaMinAvailable (instances - 1)))).

(** ** The group's handoff *)

(** The host up to its first dot, unless it starts with one. *)
Definition short_host (host : string) : string :=
  match Cut host "." with (before, _, true) => if String.eqb before "" then host else before | _ => host end.

Definition memberUUIDForInstance (queryInstance targetInstance : string) : program (result string) :=
  try? status := send (AskStatus queryInstance) in
  match status with
  | None => Return (Err (Errorf "no Group Replication status"))
  | Some status =>
      match List.find (fun m => negb (String.eqb (gm_Host m) "") && String.eqb (short_host (gm_Host m)) targetInstance) (gs_Members status) with
      | Some m => Return (Ok (gm_MemberID m))
      | None => Return (Err (Errorf "not in the group view"))
      end
  end.

Definition ensureSwitchoverStarted (c : GuardCluster) : program (result Time) :=
  match gu_TargetPrimaryTimestamp c with
  | Some timestamp => Return (Ok timestamp)
  | None =>
      ask! now := send ReadClock in
      let now := Truncate now second in
      ask! err := send (StampTarget now) in
      Return (match err with Some e => Err e | None => Ok now end)
  end.

Definition abortSwitchover (current : string) : program (FailoverResult * option error) :=
  ask! err := send (RevertTarget current) in
  Return (match err with Some e => (no_result, Some e) | None => (handled, None) end).

Definition ready_secondary (m : GroupMember) : bool :=
  String.eqb (me_State m) MemberStateOnline && String.eqb (me_Role m) MemberRoleSecondary.

Definition ReconcileSwitchover (c : GuardCluster) : program (FailoverResult * option error) :=
  let target := gc_TargetPrimary (gu_Group c) in
  let current := gc_CurrentPrimary (gu_Group c) in
  let nothing := Return (no_result, None) in
  if String.eqb target "" || String.eqb target current || String.eqb current "" then nothing
  else
    ask! uuid := memberUUIDForInstance current target in
    match uuid with
    | Err _ => nothing
    | Ok targetUUID =>
        match gc_GroupReplication (gu_Group c) with
        | None => nothing
        | Some gr =>
            match List.find (fun m => String.eqb (me_Instance m) target) (gr_Members gr) with
            | None => nothing
            | Some targetMember =>
                if negb (ready_secondary targetMember) then nothing
                else
                  ask! started := ensureSwitchoverStarted c in
                  match started with
                  | Err e => Return (no_result, Some e)
                  | Ok startedAt =>
                      let maxDelay := gu_MaxSwitchoverDelay c * second in
                      ask! late := (if 0 <? maxDelay then ask! now := send ReadClock in Return (maxDelay <? now - startedAt) else Return false) in
                      if (late : bool) then abortSwitchover current
                      else
                        ask! err := send (SetAsPrimary current targetUUID) in
                        Return (match err with
                                | Some _ => (no_result, None)
                                | None => (mkFailoverResult true 0 (Some (mkOperationPhase "Switchover" (SwitchingOver target) false true)), None)
                                end)
                  end
            end
        end
    end.

Definition SwitchoverTargetReady (c : GuardCluster) (observed : FailoverState) (target : string) : bool :=
  match fs_Instances observed !! target with
  | Some status =>
      if negb (fi_Ready status) then false
      else
        match gc_GroupReplication (gu_Group c) with
        | None => false
        | Some gr => match List.find (fun m => String.eqb (me_Instance m) target) (gr_Members gr) with Some m => ready_secondary m | None => false end
        end
  | None => false
  end.

(** ** Lemmas *)

Lemma removeString_after pre x l : x ∉ pre -> removeString (pre ++ x :: l) x = pre ++ l.
Proof.
  induction pre as [|y pre IH]; cbn; [by rewrite String.eqb_refl|]. rewrite not_elem_of_cons. intros [Hne Hx].
  destruct (String.eqb_spec y x) as [->|_]; [done|]. by rewrite IH.
Qed.

(** Removing every rejected name leaves the accepted ones. *)
Lemma remove_rejected (p : string -> bool) l : foldl removeString l (List.filter (fun n => negb (p n)) l) = List.filter p l.
Proof.
  assert (forall pre, Forall (fun n => p n = true) pre ->
    foldl removeString (pre ++ l) (List.filter (fun n => negb (p n)) l) = pre ++ List.filter p l) as H; [|exact (H [] (List.Forall_nil _))].
  induction l as [|x l IH]; intros pre Hpre; [done|]. cbn [List.filter]. destruct (p x) eqn:Ex; cbn [negb foldl].
  - rewrite (cons_middle x pre l), (cons_middle x pre (List.filter p l)), !app_assoc. apply IH. apply Forall_app. split; [done|].
    by apply Forall_singleton.
  - rewrite removeString_after; [by apply IH|]. intros Hin. rewrite Forall_forall in Hpre. specialize (Hpre x Hin). congruence.
Qed.

Lemma MergeStatus_members c observed :
  exists gr, gc_GroupReplication (MergeStatus c observed) = Some gr /\ gc_Instances (MergeStatus c observed) = gc_Instances c /\
    gr_Members gr = match observed with Some s => gr_Members s | None => [] end.
Proof. unfold MergeStatus. destruct observed; eexists; split_and!; reflexivity. Qed.

Lemma count_filter {A} (p q : A -> bool) l : count p (List.filter q l) = count (fun x => p x && q x) l.
Proof. induction l as [|x l IH]; [done|]. cbn [List.filter]. rewrite count_cons. destruct (q x); rewrite ?count_cons, IH; destruct (p x); cbn; lia. Qed.

Lemma count_ext {A} (p q : A -> bool) l : (forall x, p x = q x) -> count p l = count q l.
Proof. intros H. induction l as [|x l IH]; [done|]. by rewrite !count_cons, IH, H. Qed.

Lemma fenced_elem names m : fenced names m = bool_decide (me_Instance m ∈ names).
Proof.
  unfold fenced. destruct (existsb _ _) eqn:E; symmetry.
  - apply existsb_exists in E as (n & Hn & ->%String.eqb_eq). apply bool_decide_eq_true. by apply list_elem_of_In.
  - apply bool_decide_eq_false. intros Hin%list_elem_of_In. apply not_true_iff_false in E. apply E. apply existsb_exists.
    exists (me_Instance m). split; [done|apply String.eqb_refl].
Qed.

Lemma NoDup_filter_names (keep : GroupMember -> bool) l : NoDup (me_Instance <$> l) -> NoDup (me_Instance <$> List.filter keep l).
Proof.
  induction l as [|m l IH]; [done|]. cbn [List.filter]. rewrite fmap_cons, NoDup_cons. intros [Hm Hl]. destruct (keep m); [|by apply IH].
  rewrite fmap_cons, NoDup_cons. split; [|by apply IH]. intros (x & Hx & [Hxl _]%elem_of_filter_bool)%list_elem_of_fmap.
  apply Hm. rewrite Hx. by apply list_elem_of_fmap_2.
Qed.

Lemma filter_comm {A} (p q : A -> bool) l : List.filter p (List.filter q l) = List.filter q (List.filter p l).
Proof. induction l as [|x l IH]; [done|]. cbn. destruct (p x) eqn:Ep, (q x) eqn:Eq; cbn; rewrite ?Ep, ?Eq, IH; done. Qed.

(** A member of the view whose UUID was traced to an instance; [observeGroup] leaves
    the name of any other empty. *)
Definition resolved (m : GroupMember) : bool := negb (String.eqb (me_Instance m) "").

(** The members known to stay: active, traced to an instance, and neither fenced
    before nor to be fenced. *)
Definition stays (c : GuardCluster) (fences : list string) (m : GroupMember) : bool :=
  active m && resolved m && negb (fenced fences m) && negb (fenced (gu_FencedInstances c) m).

(** Active members nobody knows the instance of. *)
Definition untraced (m : GroupMember) : bool := active m && negb (resolved m).

Lemma count_cover {A} (p q r : A -> bool) l :
  (forall x, p x = true -> q x = true \/ r x = true) -> count p l <= count q l + count r l.
Proof.
  intros H. induction l as [|x l IH]; [done|]. rewrite !count_cons. specialize (H x).
  destruct (p x), (q x), (r x); try lia; destruct (H eq_refl); done.
Qed.

Lemma fence_count_resolved members fenceSet :
  NoDup (me_Instance <$> List.filter resolved members) -> "" ∉ fenceSet ->
  count active members - count (fun name => existsb (fun m => String.eqb (me_Instance m) name) members) fenceSet <=
  count (fun m => active m && negb (fenced fenceSet m)) members.
Proof.
  intros Hnd He. rewrite (count_split active (fenced fenceSet) members).
  rewrite (count_ext (fun m => active m && fenced fenceSet m) (fun m => (active m && fenced fenceSet m) && resolved m)), <- count_filter.
  2: { intros m. rewrite fenced_elem. unfold resolved. destruct (String.eqb_spec (me_Instance m) "") as [E|]; cbn; [|by rewrite andb_true_r].
       rewrite E, (bool_decide_eq_false_2 _ He). by destruct (active m). }
  enough (count (fun m => active m && fenced fenceSet m) (List.filter resolved members) <=
    count (fun name => existsb (fun m => String.eqb (me_Instance m) name) members) fenceSet) by lia.
  apply (count_names me_Instance); [done|]. intros m [Hm _]%elem_of_filter_bool [_ Hf]%andb_true_iff. rewrite fenced_elem in Hf.
  apply bool_decide_eq_true in Hf. split; [done|]. apply existsb_exists. exists m. split; [by apply list_elem_of_In|apply String.eqb_refl].
Qed.

(** What the guard's arithmetic bounds. *)
Lemma guard_count c fences members :
  let persisted name := bool_decide (name ∈ gu_FencedInstances c) in
  let kept := List.filter (fun m => negb (persisted (me_Instance m))) members in
  let newFences := List.filter (fun name => negb (persisted name)) fences in
  NoDup (me_Instance <$> List.filter resolved members) -> "" ∉ fences ->
  count active kept - count (fun name => existsb (fun m => String.eqb (me_Instance m) name) kept) newFences <=
  count (stays c fences) members + count untraced members.
Proof.
  intros persisted kept newFences Hnd He. etrans; [apply fence_count_resolved|].
  - unfold kept. rewrite filter_comm. by apply NoDup_filter_names.
  - unfold newFences. by intros [? _]%elem_of_filter_bool.
  - unfold kept. rewrite count_filter. apply count_cover. intros m [[Ha Hn]%andb_true_iff Hp]%andb_true_iff. unfold stays, untraced.
    rewrite Ha. destruct (resolved m); [left|by right]. rewrite !fenced_elem in *. cbn. unfold persisted in Hp.
    apply negb_true_iff, bool_decide_eq_false in Hp, Hn. rewrite (bool_decide_eq_false_2 _ Hp). cbn. rewrite andb_true_r.
    apply negb_true_iff, bool_decide_eq_false. intros Hf. apply Hn. unfold newFences. apply elem_of_filter_bool. split; [done|].
    unfold persisted. by rewrite (bool_decide_eq_false_2 _ Hp).
Qed.

Lemma untraced_none members :
  (forall m, m ∈ members -> active m = true -> resolved m = true) -> count untraced members = 0.
Proof.
  intros H. induction members as [|m l IH]; [done|]. rewrite count_cons, IH by (intros; apply H; [by right|done]).
  unfold untraced. destruct (active m) eqn:E; [|done]. by rewrite (H m ltac:(by left) E).
Qed.

Lemma filter_all_id {A} (p : A -> bool) l : (forall x, p x = true) -> List.filter p l = l.
Proof. intros H. induction l as [|x l IH]; cbn; [done|]. by rewrite H, IH. Qed.

(** The guard on a set of fences with a new one: it is the arithmetic of
    [FenceQuorumGuard] on the members that are not fenced yet. *)
Lemma checkFenceQuorumGuard_run c o :
  let fences := se_FencedInstances (oc_Seen o) in
  let persisted name := bool_decide (name ∈ gu_FencedInstances c) in
  let newFences := List.filter (fun name => negb (persisted name)) fences in
  let members := match tv_GroupReplication (oc_View o) with Some gr => gr_Members gr | None => [] end in
  let kept := List.filter (fun m => negb (persisted (me_Instance m))) members in
  let left := count active kept - count (fun name => existsb (fun m => String.eqb (me_Instance m) name) kept) newFences in
  gu_IsGroupReplication c = true -> newFences <> [] ->
  if left <? quorum (gc_Instances (gu_Group c)) then
    exists o1 reason, checkFenceQuorumGuard c o = (reason, fence_blocked o1 (List.filter persisted fences) reason) /\ reason <> ""
  else exists o1, checkFenceQuorumGuard c o = ("", o1) /\ se_FencedInstances (oc_Seen o1) = fences.
Proof.
  intros fences persisted newFences members kept left Hg Hnew. unfold checkFenceQuorumGuard. cbv zeta. fold fences. rewrite Hg. cbn [negb orb].
  assert (Nat.eqb (length fences) 0 = false) as -> by (apply Nat.eqb_neq; intros El%nil_length_inv; by apply Hnew; unfold newFences; rewrite El).
  change (List.filter (fun name => negb (bool_decide (name ∈ gu_FencedInstances c))) fences) with newFences.
  assert (Nat.eqb (length newFences) 0 = false) as -> by (apply Nat.eqb_neq; by intros El%nil_length_inv).
  destruct (MergeStatus_members (gu_Group c) (tv_GroupReplication (oc_View o))) as (gr & Egr & En & Em). fold members in Em.
  set (pair := if Nat.eqb (length (gu_FencedInstances c)) 0 then _ else _).
  assert (exists latest o1, pair = (latest, o1) /\ oc_Seen o1 = oc_Seen o /\ gc_Instances latest = gc_Instances (gu_Group c) /\
    exists gr', gc_GroupReplication latest = Some gr' /\ gr_Members gr' = kept) as (latest & o1 & -> & Es & Ei & gr' & El & Ek).
  { unfold pair. destruct (Nat.eqb_spec (length (gu_FencedInstances c)) 0) as [E|E].
    - eexists _, o. split_and!; [done|done|exact En|]. exists gr. split; [done|]. rewrite Em. unfold kept. symmetry. apply filter_all_id.
      intros m. apply nil_length_inv in E. unfold persisted. rewrite E. done.
    - eexists _, _. split_and!; [done|done|exact En|]. cbn [gc_GroupReplication with_group]. rewrite Egr. cbn. eexists. split; [done|].
      cbn. by rewrite Em. }
  unfold FenceQuorumGuard. rewrite El, Ei, Ek. change (count active kept - count _ newFences) with left.
  destruct (left <? quorum (gc_Instances (gu_Group c))).
  - cbn [qr_Blocked]. exists o1. unfold newFences. rewrite remove_rejected. by eexists.
  - exists o1. split; [done|]. by rewrite Es.
Qed.

(** *** Recovery *)

(** The Pods a run annotated. *)
Definition pods_annotated (tr : trace) : list string := omap (fun e => match ev_request e with AnnotatePod n _ _ => Some n | _ => None end) tr.

Lemma pods_annotated_app tr1 tr2 : pods_annotated (tr1 ++ tr2) = pods_annotated tr1 ++ pods_annotated tr2.
Proof. unfold pods_annotated. apply omap_app. Qed.

(** Programs that leave the Pods alone. *)
Definition pods_kept (r : guard_request) : Prop := match r with AnnotatePod _ _ _ => False | _ => True end.

Lemma every_pods_kept {A} (p : program A) tr a : every pods_kept p -> runs p tr a -> pods_annotated tr = [].
Proof.
  intros He Hr. pose proof (every_runs _ _ _ _ He Hr) as Hf. clear He Hr. induction Hf as [|[r x] tr Hr _ IH]; [done|]. by destruct r.
Qed.

Lemma clearAnnotation_kept key : every pods_kept (clearAnnotation key).
Proof. unfold clearAnnotation. every_tac. Qed.

(** The doorbell is written at most once, on the survivor, after it was read as running. *)
Lemma arm_run annotated recovery tr r :
  runs (arm annotated recovery) tr r ->
  pods_annotated tr = [] \/
  exists p x tr', tr = mkEvent (ReadPod (fq_Survivor recovery)) (Ok (Some p)) ::
      mkEvent (AnnotatePod (fq_Survivor recovery) (pd_Labels p) (<[(doorbell recovery).1 := (doorbell recovery).2]> (pd_Annotations p))) x :: tr' /\
    podRunning (pod_info p) = true /\ pods_annotated tr' = [].
Proof.
  unfold arm. intros H. open_run H. destruct H as (t1 & t2 & pod & -> & H1 & H). apply runs_send in H1 as ->.
  destruct pod as [[p|]|e]; [|left; by destruct H as [-> _]..].
  destruct (podRunning (pod_info p)) eqn:Er; cbn [negb] in H; [|left; by destruct H as [-> _]].
  destruct (doorbell recovery) as [key value]. destruct (String.eqb _ _); [left; by destruct H as [-> _]|].
  open_run H. destruct H as (t3 & t4 & err & -> & H3 & H). apply runs_send in H3 as ->. right. exists p, err, t4. split; [done|]. split; [done|].
  destruct err as [e|]; [by destruct H as [-> _]|]. eapply every_pods_kept; [|exact H].
  apply every_bind; [done|]. intros ?. apply every_bind; [|done]. destruct annotated; [apply clearAnnotation_kept|done].
Qed.

(** What a recovery was armed on. *)
Definition recovery_grounds (o : Observed) (tr : trace) (name : string) : Prop :=
  exists latest gr recovery p labels x,
    (mkEvent ReadCluster (Ok latest) : event guard_request guard_answer) ∈ tr /\
    gu_IsGroupReplication latest = true /\ gc_GroupReplication (gu_Group latest) = Some gr /\ gr_Bootstrapped gr = true /\ gr_HasQuorum gr = false /\
    (gu_Annotations latest !! forceQuorumRecoveryAnnotation = Some "yes" \/ oc_Phase o = PhaseFullOutage) /\
    recovery_safe (gu_Group latest) (se_GTIDByInstance (oc_Seen o)) gr recovery /\ name = fq_Survivor recovery /\
    (mkEvent (ReadPod name) (Ok (Some p)) : event guard_request guard_answer) ∈ tr /\ podRunning (pod_info p) = true /\
    (mkEvent (AnnotatePod name labels (<[(doorbell recovery).1 := (doorbell recovery).2]> (pd_Annotations p))) x : event guard_request guard_answer) ∈ tr.

Lemma handleQuorumRecovery_run c o tr r :
  runs (handleQuorumRecovery c o) tr r ->
  pods_annotated tr = [] \/ exists name, gu_IsGroupReplication c = true /\ pods_annotated tr = [name] /\ recovery_grounds o tr name.
Proof.
  unfold handleQuorumRecovery. destruct (gu_IsGroupReplication c); cbn [negb]; [|intros [-> _]; by left].
  intros H. open_run H. destruct H as (t1 & t2 & latest & -> & H1 & H). apply runs_send in H1 as ->.
  destruct latest as [latest|e]; [|left; by destruct H as [-> _]].
  set (annotated := String.eqb _ "yes") in H. cbv zeta in H.
  assert (forall tr r, runs (tbind (if annotated then clearAnnotation forceQuorumRecoveryAnnotation else Return tt)
    (fun _ => Return (0, None : option error, false))) tr r -> pods_annotated tr = []) as Hrefuse.
  { intros tr' r' H'. eapply every_pods_kept; [|exact H']. apply every_bind; [|done]. destruct annotated; [apply clearAnnotation_kept|done]. }
  destruct (negb annotated && negb (String.eqb (oc_Phase o) PhaseFullOutage)) eqn:Ein; [left; by destruct H as [-> _]|].
  destruct (gc_GroupReplication (gu_Group latest)) as [gr|] eqn:Egr; [|left; rewrite pods_annotated_app; by rewrite (Hrefuse _ _ H)].
  destruct (gr_Bootstrapped gr) eqn:Eb; cbn [negb] in H; [|left; rewrite pods_annotated_app; by rewrite (Hrefuse _ _ H)].
  destruct (gr_HasQuorum gr && _) eqn:Eq; [left; rewrite pods_annotated_app; by rewrite (Hrefuse _ _ H)|].
  destruct (topology_recovery latest _) as [recovery|] eqn:Et; [|left; by destruct H as [-> _]].
  unfold topology_recovery in Et. destruct (gu_IsGroupReplication latest) eqn:El; [|done].
  apply quorum_recovery_is_safe in Et as (gr' & Egr' & Hq & Hsafe). assert (gr' = gr) as -> by congruence.
  apply arm_run in H as [Hno|(p & x & t3 & -> & Hp & Ht3)]; [left; by rewrite pods_annotated_app, Hno|]. right. exists (fq_Survivor recovery).
  split; [done|]. split; [transitivity (fq_Survivor recovery :: pods_annotated t3); [done|by rewrite Ht3]|].
  exists latest, gr, recovery, p, (pd_Labels p), x. split_and!; [left|done|done|done|done| |done|done|right; left|done|right; right; left].
  apply andb_false_iff in Ein as [Ha|Ha]; apply negb_false_iff in Ha; [left|right; by apply String.eqb_eq].
  unfold annotated, value_of in Ha. apply String.eqb_eq in Ha. by destruct (_ !! _); cbn in Ha; subst.
Qed.

(** *** Routing *)

Section RoutingLemmas.
Context (parse_RFC3339 : string -> option Time) (format_RFC3339 : Time -> string).

(** An established replica that has not answered for the grace period. *)
Definition lost (c : GuardCluster) (o : Observed) (now : Time) (name : string) (p : Pod) : Prop :=
  gu_Established c = true /\ name <> oc_PrimaryName o /\ name ∉ se_FencedInstances (oc_Seen o) /\ se_StatusByInstance (oc_Seen o) !! name = None /\
  exists since ts, pd_Annotations p !! unreachableSinceAnnotation = Some since /\ since <> "" /\ parse_RFC3339 since = Some ts /\
    deRouteGracePeriod <= now - ts.

(** A Pod is taken out of routing exactly when it is fenced or lost, and put back
    otherwise. *)
Lemma route_exact c o now name p :
  let labels := (route_of parse_RFC3339 format_RFC3339 c o now name p).1 in
  (labels !! routableLabel = Some routableFalse <-> name ∈ se_FencedInstances (oc_Seen o) \/ lost c o now name p) /\
  (labels !! routableLabel = Some routableFalse \/ labels !! routableLabel = Some routableTrue).
Proof.
  unfold route_of, route. cbn [fst]. rewrite lookup_insert_eq. match goal with |- context [bool_decide _ || ?d] => set (deRouted := d) end.
  assert (deRouted = true <-> lost c o now name p) as Hd.
  { unfold deRouted, lost, value_of. rewrite !andb_true_iff, !negb_true_iff, String.eqb_neq, bool_decide_eq_false, String.eqb_neq.
    rewrite <- not_true_iff_false, bool_decide_eq_true, <- eq_None_not_Some. split.
    - intros [[(((? & ?) & ?) & ?) Hs] Hp]. split_and!; [done..|]. destruct (pd_Annotations p !! unreachableSinceAnnotation) as [since|]; [|done].
      cbn in Hs, Hp. destruct (parse_RFC3339 since) as [ts|] eqn:Ep; [|done]. exists since, ts. split_and!; [done..|]. lia.
    - intros (? & ? & ? & ? & since & ts & Es & Hs & Ep & Hg). rewrite Es. cbn. rewrite Ep. split_and!; [done..|]. lia. }
  destruct (decide (name ∈ se_FencedInstances (oc_Seen o))) as [Hf|Hf].
  - rewrite (bool_decide_eq_true_2 _ Hf). cbn. split; [split; [by left|done]|by left].
  - rewrite (bool_decide_eq_false_2 _ Hf). cbn [orb]. destruct deRouted.
    + split; [split; [intros _; right; by apply Hd|done]|by left].
    + split; [split; [done|]|by right]. intros [?|Hl]; [done|]. by apply Hd in Hl.
Qed.

(** The labels a live Pod was left with. *)
Definition routed (tr : trace) (name : string) (p : Pod) (labels : gmap string string) : Prop :=
  labels = pd_Labels p \/ exists annotations, (mkEvent (AnnotatePod name labels annotations) None : event guard_request guard_answer) ∈ tr.

Lemma fencing_loop_run c o now names tr :
  runs (fencing_loop parse_RFC3339 format_RFC3339 c o now names) tr (Ok tt) ->
  forall name, name ∈ names -> exists pod, (mkEvent (ReadPod name) (Ok pod) : event guard_request guard_answer) ∈ tr /\
    forall p, pod = Some p -> pd_Terminating p = false -> routed tr name p (route_of parse_RFC3339 format_RFC3339 c o now name p).1.
Proof.
  revert tr. induction names as [|n names IH]; intros tr; cbn [fencing_loop]; [by intros _ name ?%elem_of_nil|].
  intros H. open_run H. destruct H as [(e & _ & ?)|(t1 & t2 & pod & -> & H1 & H)]; [done|]. apply (runs_send (answer := guard_answer) (ReadPod n)) in H1 as ->.
  assert (forall t0 t : trace, runs (fencing_loop parse_RFC3339 format_RFC3339 c o now names) t (Ok tt) -> forall name, name ∈ names ->
    exists pod, (mkEvent (ReadPod name) (Ok pod) : event guard_request guard_answer) ∈ t0 ++ t /\
    forall p, pod = Some p -> pd_Terminating p = false -> routed (t0 ++ t) name p (route_of parse_RFC3339 format_RFC3339 c o now name p).1) as Hrest.
  { intros t0 t Ht name Hn. destruct (IH t Ht name Hn) as (pod' & Hin & Hp). exists pod'. split; [apply elem_of_app; by right|].
    intros p -> Htm. destruct (Hp p eq_refl Htm) as [?|(a & Ha)]; [by left|right]. exists a. apply elem_of_app. by right. }
  assert (forall t0 t : trace, (mkEvent (ReadPod n) (Ok pod) : event guard_request guard_answer) ∈ t0 ->
    runs (fencing_loop parse_RFC3339 format_RFC3339 c o now names) t (Ok tt) ->
    (forall p, pod = Some p -> pd_Terminating p = false -> routed (t0 ++ t) n p (route_of parse_RFC3339 format_RFC3339 c o now n p).1) ->
    forall name, name ∈ n :: names -> exists pod, (mkEvent (ReadPod name) (Ok pod) : event guard_request guard_answer) ∈ t0 ++ t /\
    forall p, pod = Some p -> pd_Terminating p = false -> routed (t0 ++ t) name p (route_of parse_RFC3339 format_RFC3339 c o now name p).1) as Hcons.
  { intros t0 t Hin Ht Hp name [->|Hn]%elem_of_cons; [|by apply Hrest]. exists pod. split; [apply elem_of_app; by left|done]. }
  destruct pod as [p|]; [|by apply Hcons; [left| |]]. destruct (pd_Terminating p) eqn:Et.
  { apply Hcons; [left|done|]. intros p' [= <-]. congruence. }
  destruct (route_of parse_RFC3339 format_RFC3339 c o now n p) as [labels annotations] eqn:Er. destruct (_ && _) eqn:Eq.
  - apply andb_true_iff in Eq as [El%bool_decide_eq_true _]. apply Hcons; [left|done|]. intros p' [= <-] _. left. by rewrite Er.
  - open_run H. destruct H as (t3 & t4 & err & -> & H3 & H). apply runs_send in H3 as ->. destruct err as [e|]; [by destruct H|].
    rewrite app_assoc. apply Hcons; [left|done|]. intros p' [= <-] _. right. exists annotations. rewrite Er. right. left.
Qed.

(** A pass over the Pods leaves each live one in or out of routing exactly as it
    should be: out when its instance is fenced, or when it is an established replica
    that has not answered for the grace period. *)
Theorem routing_is_exact c o tr :
  runs (reconcileFencing parse_RFC3339 format_RFC3339 c o) tr (Ok tt) ->
  exists clock, (mkEvent ReadClock clock : event guard_request guard_answer) ∈ tr /\
  forall name, name ∈ oc_InstanceNames o ->
  exists pod, (mkEvent (ReadPod name) (Ok pod) : event guard_request guard_answer) ∈ tr /\
    forall p, pod = Some p -> pd_Terminating p = false ->
    exists labels, routed tr name p labels /\
      (labels !! routableLabel = Some routableFalse <-> name ∈ se_FencedInstances (oc_Seen o) \/ lost c o (Truncate clock second) name p) /\
      (labels !! routableLabel = Some routableFalse \/ labels !! routableLabel = Some routableTrue).
Proof.
  unfold reconcileFencing. intros H. open_run H. destruct H as (t1 & t2 & clock & -> & H1 & H). apply runs_send in H1 as ->.
  exists clock. split; [left|]. intros name Hn. destruct (fencing_loop_run _ _ _ _ _ H name Hn) as (pod & Hin & Hp). exists pod.
  split; [by right|]. intros p -> Ht. exists (route_of parse_RFC3339 format_RFC3339 c o (Truncate clock second) name p).1.
  split; [|apply route_exact]. destruct (Hp p eq_refl Ht) as [?|(a & Ha)]; [by left|right]. exists a. by right.
Qed.
End RoutingLemmas.

(** *** Disruption budgets *)

(** The disruptions Kubernetes allows: the healthy Pods above the desired number, which
    is [minAvailable], or [maxUnavailable] below the scale of the owner. *)
Definition disruptionsAllowed (scale healthy : Z) (b : Budget) : Z :=
  healthy - match bu_Field b with UsesMinAvailable => bu_Value b | UsesMaxUnavailable => scale - bu_Value b end.

Lemma reconcileOnePDB_applies name b tr :
  runs (reconcileOnePDB name (Some b)) tr (Ok tt) -> (mkEvent (ApplyPDB name b) None : event guard_request guard_answer) ∈ tr.
Proof.
  unfold reconcileOnePDB. intros H. open_run H. destruct H as [(e & _ & ?)|(t1 & t2 & [] & -> & _ & H)]; [done|].
  open_run H. destruct H as (t3 & t4 & err & -> & H3 & H). apply (runs_send (answer := guard_answer) (ApplyPDB name b)) in H3 as ->.
  destruct err; [by destruct H|]. apply elem_of_app. right. left.
Qed.

(** Draining nodes cannot break what the budgets protect.  In a group, after every
    disruption its budget allows, a quorum of healthy members is left.  Without a group
    the primary is never evicted from a cluster of several instances, and of healthy
    replicas at most half, but always one, may be evicted at once. *)
Theorem drains_keep_quorum c instances tr :
  gu_EnablePDB c <> Some false -> inNodeMaintenance c = false -> 2 <= instances <= MaxInt32 -> gc_Instances (gu_Group c) = instances ->
  runs (reconcilePDB c instances) tr (Ok tt) ->
  if gu_IsGroupReplication c then
    exists b, (mkEvent (ApplyPDB (groupPDBName c) b) None : event guard_request guard_answer) ∈ tr /\ bu_Role b = None /\
      forall healthy evicted, evicted <= disruptionsAllowed instances healthy b -> quorum instances <= healthy - evicted
  else
    exists primary replicas, (mkEvent (ApplyPDB (primaryPDBName c) primary) None : event guard_request guard_answer) ∈ tr /\
      (mkEvent (ApplyPDB (replicaPDBName c) replicas) None : event guard_request guard_answer) ∈ tr /\
      disruptionsAllowed instances 1 primary <= 0 /\
      disruptionsAllowed instances (instances - 1) replicas = Z.max ((instances - 1) / 2) 1.
Proof.
  intros He Hm Hn Hi. unfold reconcilePDB. assert (default true (gu_EnablePDB c) = true) as -> by (by destruct (gu_EnablePDB c) as [[]|]).
  rewrite Hm. replace (instances <=? 1) with false by lia. cbn [negb orb andb]. destruct (gu_IsGroupReplication c); intros H.
  - open_run H. destruct H as (t1 & t2 & [] & -> & _ & H). apply reconcileOnePDB_applies in H. eexists. split; [apply elem_of_app; right; exact H|].
    split; [done|]. intros healthy evicted. unfold disruptionsAllowed, PDBMaxUnavailable. cbn. rewrite Hi.
    destruct (quorum_majority instances ltac:(lia)) as (? & ? & ?). unfold MaxInt32 in *. lia.
  - open_run H. destruct H as [(e & _ & ?)|(t1 & t2 & [] & -> & H1 & H)]; [done|]. apply reconcileOnePDB_applies in H1, H.
    eexists _, _. split; [apply elem_of_app; left; exact H1|]. split; [apply elem_of_app; right; exact H|].
    unfold disruptionsAllowed, replicaMinAvailable. cbn. replace (instances - 1 <=? 0) with false by lia.
    rewrite Z.quot_div_nonneg by lia. lia.
Qed.

(** *** The handoff *)

Lemma memberUUID_run query target tr uuid :
  runs (memberUUIDForInstance query target) tr (Ok uuid) ->
  exists status m, tr = [mkEvent (AskStatus query) (Ok (Some status))] /\ m ∈ gs_Members status /\ gm_MemberID m = uuid /\ short_host (gm_Host m) = target.
Proof.
  unfold memberUUIDForInstance. intros H. open_run H. destruct H as [(e & _ & ?)|(t1 & t2 & status & -> & H1 & H)]; [done|].
  apply (runs_send (answer := guard_answer) (AskStatus query)) in H1 as ->. destruct status as [status|]; [|by destruct H].
  destruct (List.find _ _) as [m|] eqn:Ef; [|by destruct H]. destruct H as [-> [= ->]]. apply find_elem in Ef as [Hin Hm]. boolp.
  exists status, m. rewrite app_nil_r. done.
Qed.

(** A request a program never sends is not in its runs. *)
Lemma every_not {A} q (y : guard_answer q) (p : program A) tr a :
  every (fun r => r <> q) p -> runs p tr a -> (mkEvent q y : event guard_request guard_answer) ∉ tr.
Proof. intros He Hr Hin. pose proof (every_runs _ _ _ _ He Hr) as Hf. rewrite Forall_forall in Hf. by apply (Hf _ Hin). Qed.

(** The group is asked to hand over only through the current primary,
    to the member that the primary itself sees under the target's name, recorded as an
    ONLINE secondary, and within the delay the handoff is allowed. *)
Theorem handoff_goes_to_a_secondary c tr r instance uuid x :
  runs (ReconcileSwitchover c) tr r -> (mkEvent (SetAsPrimary instance uuid) x : event guard_request guard_answer) ∈ tr ->
  instance = gc_CurrentPrimary (gu_Group c) /\ gc_TargetPrimary (gu_Group c) <> instance /\
  (exists gr m, gc_GroupReplication (gu_Group c) = Some gr /\ m ∈ gr_Members gr /\ me_Instance m = gc_TargetPrimary (gu_Group c) /\ ready_secondary m = true) /\
  (exists status m, (mkEvent (AskStatus instance) (Ok (Some status)) : event guard_request guard_answer) ∈ tr /\ m ∈ gs_Members status /\
     gm_MemberID m = uuid /\ short_host (gm_Host m) = gc_TargetPrimary (gu_Group c)) /\
  (0 < gu_MaxSwitchoverDelay c -> forall started, gu_TargetPrimaryTimestamp c = Some started ->
     exists now, (mkEvent ReadClock now : event guard_request guard_answer) ∈ tr /\ now - started <= gu_MaxSwitchoverDelay c * second).
Proof.
  unfold ReconcileSwitchover. destruct (_ || _ || _) eqn:E0; [intros [-> _] ?%elem_of_nil; done|]. boolp. intros Hr Hin.
  open_run Hr. destruct Hr as (t1 & t2 & found & -> & K1 & Hr).
  apply elem_of_app in Hin as [Hin|Hin]; [eapply every_not in Hin; [done| |exact K1]; unfold memberUUIDForInstance; every_tac|].
  destruct found as [targetUUID|]; [|destruct Hr as [-> _]; by apply elem_of_nil in Hin]. apply memberUUID_run in K1 as (status & m & -> & Hm & Hu & Hh).
  destruct (gc_GroupReplication (gu_Group c)) as [gr|]; [|destruct Hr as [-> _]; by apply elem_of_nil in Hin].
  destruct (List.find _ _) as [tm|] eqn:Ef; [|destruct Hr as [-> _]; by apply elem_of_nil in Hin]. apply find_elem in Ef as [Htm Etm].
  apply String.eqb_eq in Etm. destruct (ready_secondary tm) eqn:Er; cbn [negb] in Hr; [|destruct Hr as [-> _]; by apply elem_of_nil in Hin].
  open_run Hr. destruct Hr as (t3 & t4 & started & -> & K3 & Hr).
  apply elem_of_app in Hin as [Hin|Hin]; [eapply every_not in Hin; [done| |exact K3]; unfold ensureSwitchoverStarted; every_tac|].
  destruct started as [startedAt|]; [|destruct Hr as [-> _]; by apply elem_of_nil in Hin].
  open_run Hr. destruct Hr as (t5 & t6 & late & -> & K5 & Hr).
  apply elem_of_app in Hin as [Hin|Hin]; [eapply every_not in Hin; [done| |exact K5]; destruct (_ <? _); every_tac|].
  destruct late; [eapply every_not in Hin; [done| |exact Hr]; unfold abortSwitchover; every_tac|].
  open_run Hr. destruct Hr as (t7 & t8 & err & -> & K7 & Hr). destruct Hr as [-> _]. rewrite app_nil_r in Hin.
  apply (runs_send (answer := guard_answer)) in K7 as ->. apply list_elem_of_singleton in Hin.
  assert (SetAsPrimary instance uuid = SetAsPrimary (gc_CurrentPrimary (gu_Group c)) targetUUID) as [= -> ->]
    by exact (f_equal ev_request Hin).
  split_and!; [done|done|by exists gr, tm|exists status, m; split; [left|done]|].
  intros Hd started Hs. unfold ensureSwitchoverStarted in K3. rewrite Hs in K3. destruct K3 as [-> [= ->]].
  replace (0 <? gu_MaxSwitchoverDelay c * second) with true in K5 by (unfold second; lia). open_run K5.
  destruct K5 as (t9 & t10 & now & -> & K9 & K5). apply runs_send in K9 as ->. destruct K5 as [-> E]. exists now. split.
  - right. left.
  - lia.
Qed.

(** ** The properties *)

(** C11: A fence is only let through when the group survives it, as far as the members
    of the view are traced to instances: when a pass accepts a fence that was not in
    force before, the active members of the observed view that are neither fenced
    already nor about to be, together with the active members that could not be traced
    to an instance, are at least a quorum of the configured ones.  When every active
    member is traced, that is a quorum of unfenced ones.  Without a view no new fence
    is accepted.  A refused pass drops exactly the new fences, keeps
    those in force, and reports the cluster as blocked. *)
Theorem fences_keep_quorum c o reason o' :
  checkFenceQuorumGuard c o = (reason, o') -> gu_IsGroupReplication c = true ->
  (forall gr, tv_GroupReplication (oc_View o) = Some gr -> NoDup (me_Instance <$> List.filter resolved (gr_Members gr))) ->
  let fences := se_FencedInstances (oc_Seen o) in "" ∉ fences ->
  (reason = "" -> se_FencedInstances (oc_Seen o') = fences /\
     ((forall n, n ∈ fences -> n ∈ gu_FencedInstances c) \/
      exists gr, tv_GroupReplication (oc_View o) = Some gr /\
        quorum (gc_Instances (gu_Group c)) <= count (stays c fences) (gr_Members gr) + count untraced (gr_Members gr) /\
        ((forall m, m ∈ gr_Members gr -> active m = true -> resolved m = true) ->
         quorum (gc_Instances (gu_Group c)) <= count (stays c fences) (gr_Members gr)))) /\
  (reason <> "" -> se_FencedInstances (oc_Seen o') = List.filter (fun n => bool_decide (n ∈ gu_FencedInstances c)) fences /\
     oc_Phase o' = PhaseBlocked /\ oc_Ready o' = false).
Proof.
  intros Hrun Hg Hnd fences He. set (newFences := List.filter (fun n => negb (bool_decide (n ∈ gu_FencedInstances c))) fences).
  destruct (decide (newFences = [])) as [Hnew|Hnew].
  { assert (checkFenceQuorumGuard c o = ("", o)) as E.
    { unfold checkFenceQuorumGuard. cbv zeta. fold fences newFences. rewrite Hg, Hnew. cbn [negb orb length Nat.eqb]. by destruct (Nat.eqb _ _). }
    rewrite E in Hrun. injection Hrun as <- <-. split; [|done]. intros _. split; [done|]. left. intros n Hn.
    destruct (decide (n ∈ gu_FencedInstances c)) as [|Hp]; [done|]. assert (n ∈ newFences) as Hin; [|rewrite Hnew in Hin; by apply elem_of_nil in Hin].
    apply elem_of_filter_bool. split; [done|]. by rewrite bool_decide_eq_false_2. }
  pose proof (checkFenceQuorumGuard_run c o Hg Hnew) as H. cbv zeta in H. match type of H with context [if ?l <? _ then _ else _] => set (left := l) in H end.
  destruct (Z.ltb_spec left (quorum (gc_Instances (gu_Group c)))) as [Hl|Hl].
  - destruct H as (o1 & reason1 & E & Hne). rewrite E in Hrun. injection Hrun as <- <-. split; [done|]. intros _. split; [|done]. done.
  - destruct H as (o1 & E & Ef). rewrite E in Hrun. injection Hrun as <- <-. split; [|done]. intros _. split; [done|]. right.
    destruct (tv_GroupReplication (oc_View o)) as [gr|] eqn:Egr.
    + exists gr. split; [done|].
      assert (quorum (gc_Instances (gu_Group c)) <= count (stays c fences) (gr_Members gr) + count untraced (gr_Members gr)) as Hq
        by (etrans; [exact Hl|]; apply guard_count; [by apply Hnd|done]).
      split; [done|]. intros Hall. rewrite (untraced_none _ Hall) in Hq. lia.
    + exfalso. assert (left <= 0) as Hz by exact (guard_count c fences [] NoDup_nil_2 He).
      unfold quorum in Hl. destruct (Z.leb_spec (gc_Instances (gu_Group c)) 0); [lia|]. rewrite Z.quot_div_nonneg in Hl by lia.
      pose proof (Z.div_pos (gc_Instances (gu_Group c)) 2). lia.
Qed.

(** C10: A pass re-forms a group only on recorded grounds, and rings at most one
    member's doorbell, whatever the API server answers.  The Cluster was read again and
    is a bootstrapped group recorded without quorum; an administrator asked for it or
    the observed phase is a full outage; the member's Pod was read as running in this
    pass.  While members are ONLINE the doorbell goes to one of them: the only one, or
    the one with the PRIMARY role, or one whose known position holds that of every
    other ONLINE member of known position.  With none ONLINE it goes to the recorded
    primary, whose position is not compared with anyone's, or, when none is recorded, to
    a member whose known position holds those of all instances, at least as many as are
    configured. *)
Theorem quorum_recovery_is_guarded c o tr r :
  runs (handleQuorumRecovery c o) tr r ->
  pods_annotated tr = [] \/ exists name, gu_IsGroupReplication c = true /\ pods_annotated tr = [name] /\ recovery_grounds o tr name.
Proof. apply handleQuorumRecovery_run. Qed.

(** ** Samples *)

Module GuardSample.
Definition member (name state : string) : GroupMember := mkGroupMember name state MemberRoleSecondary true.
Definition group (quorate : bool) (members : list GroupMember) : GroupReplicationStatus :=
  mkGroupReplicationStatus "g" true "" members quorate 5 5 "" "" "".
Definition gcluster (instances : Z) (gr : GroupReplicationStatus) (fenced : list string) (annotations : gmap string string) : GuardCluster :=
  mkGuardCluster "prod" true (mkGroupCluster "ns" instances "" 1 "" (Some gr)) true fenced annotations None None None 0.
Definition seen (fences : list string) (gtids : gmap string string) : Seen := mkSeen [] fences [] [] "" ∅ gtids ∅ ∅ 0.
Definition observed (fences : list string) (gtids : gmap string string) (gr : option GroupReplicationStatus) (phase : string) : Observed :=
  mkObserved (seen fences gtids) [] "" 0 0 (mkTopologyView "" false [] [] gr) (mkTimelineUpdate false [] false []) None [] [] "" [] []
    false false phase "".
Definition pod (name : string) : Pod := mkPod name "Running" false [true] ∅ ∅ [].

(** A server with one Cluster, where every Pod runs. *)
Definition table (c : GuardCluster) (r : guard_request) : guard_answer r :=
  match r with
  | ReadClock => 0
  | ReadCluster => Ok c
  | AskStatus _ => Ok None
  | ReadPod n => Ok (Some (pod n))
  | ReadPDB _ => Ok None
  | RemovePDB _ => Accepted
  | ClearAnnotation _ | ResetViewMax | StampTarget _ | RevertTarget _ | SetAsPrimary _ _ | AnnotatePod _ _ _ | ApplyPDB _ _ => None
  end.
End GuardSample.
Import GuardSample.

(** Of five members one may be fenced, and then a second one. *)
Lemma fences_keep_quorum_witness :
  let members := (fun n => member n MemberStateOnline) <$> ["c-1"; "c-2"; "c-3"; "c-4"; "c-5"] in
  let c := gcluster 5 (group true members) ["c-1"] ∅ in
  let o := observed ["c-1"; "c-2"] ∅ (Some (group true members)) "" in
  fst (checkFenceQuorumGuard c o) = "" /\ quorum 5 <= count (stays c ["c-1"; "c-2"]) members + count untraced members.
Proof.
  intros members c o. assert (fst (checkFenceQuorumGuard c o) = "") as E by (vm_compute; reflexivity). split; [exact E|].
  destruct (proj1 (fences_keep_quorum c o _ _ (surjective_pairing _) eq_refl
    ltac:(intros gr Hgr; injection Hgr as <-; apply (bool_decide_eq_true_1 _); vm_compute; reflexivity)
    ltac:(apply (bool_decide_eq_false_1 _); vm_compute; reflexivity)) E)
    as [_ [H|(gr & Hgr & H & _)]].
  - exfalso. specialize (H "c-2" ltac:(right; left)). apply list_elem_of_singleton in H. discriminate.
  - injection Hgr as <-. exact H.
Defined.

(** A member the view could not be traced to is not recognised as the instance being
    fenced: fencing [c-2] and [c-3] of three is accepted while the view names only
    [c-1] and [c-2], and leaves one member of the two that make a quorum. *)
Lemma untraced_member_hides_a_fence :
  let members := [member "c-1" MemberStateOnline; member "c-2" MemberStateOnline; member "" MemberStateOnline] in
  let c := gcluster 3 (group true members) [] ∅ in
  let o := observed ["c-2"; "c-3"] ∅ (Some (group true members)) "" in
  fst (checkFenceQuorumGuard c o) = "" /\ quorum 3 = 2 /\ count (stays c ["c-2"; "c-3"]) members = 1.
Proof. by vm_compute. Qed.

(** Two survivors of five; the one that is ahead is chosen. *)
Lemma quorum_recovery_is_guarded_witness :
  let gr := group false [member "c-1" MemberStateOnline; member "c-2" MemberStateOnline] in
  let c := gcluster 5 gr [] {[forceQuorumRecoveryAnnotation := "yes"]} in
  let o := observed [] {["c-1" := "a:1-5"; "c-2" := "a:1-7"]} (Some gr) PhaseBlocked in
  let tr := (exec (table c) (handleQuorumRecovery c o)).1 in
  pods_annotated tr = ["c-2"] /\ recovery_grounds o tr "c-2".
Proof.
  intros gr c o tr. assert (pods_annotated tr = ["c-2"]) as E by (vm_compute; reflexivity). split; [exact E|].
  destruct (quorum_recovery_is_guarded c o tr _ (exec_runs (table c) (handleQuorumRecovery c o))) as [E'|(name & _ & E' & H)].
  - rewrite E in E'. discriminate.
  - rewrite E in E'. injection E' as <-. exact H.
Defined.

(** ** What the code does not do *)

(** After a full outage the recorded primary is re-formed from without a look at the
    positions: [c-1] is, although [c-2] is known to hold more. *)
Lemma recorded_primary_is_not_compared :
  let gr := group false [member "c-1" "OFFLINE"; member "c-2" "OFFLINE"] in
  let c := mkGuardCluster "prod" true (mkGroupCluster "ns" 2 "c-1" 1 "c-1" (Some gr)) true [] ∅ None None None 0 in
  let o := observed [] {["c-1" := "a:1-5"; "c-2" := "a:1-7"]} (Some gr) PhaseFullOutage in
  pods_annotated (exec (table c) (handleQuorumRecovery c o)).1 = ["c-1"] /\ GTIDContains "a:1-5" "a:1-7" = Ok false.
Proof. by vm_compute. Qed.

(** The guard filters the members in place.  A fence it checks while another one is in
    force leaves the observed members with the last ones twice, and the status merged
    from them has a quorum that is not there. *)
Lemma fence_guard_counts_members_twice :
  let members := [member "c-1" "OFFLINE"; member "c-2" "OFFLINE"; member "c-3" MemberStateOnline; member "c-4" "UNREACHABLE"; member "c-5" MemberStateOnline] in
  let c := gcluster 5 (group false members) ["c-1"; "c-2"] ∅ in
  let o := observed ["c-1"; "c-2"; "c-3"] ∅ (Some (group false members)) "" in
  let quorate o := gr_HasQuorum <$> gc_GroupReplication (MergeStatus (gu_Group c) (tv_GroupReplication (oc_View o))) in
  let o' := snd (checkFenceQuorumGuard c o) in
  ((fun gr => me_Instance <$> gr_Members gr) <$> tv_GroupReplication (oc_View o')) = Some ["c-3"; "c-4"; "c-5"; "c-4"; "c-5"] /\
  quorate o = Some false /\ quorate o' = Some true.
Proof. by vm_compute. Qed.

(** A member that is down counts as one more loss when it is fenced: with two of three
    members ONLINE, the fence of the third is refused. *)
Lemma failed_member_cannot_be_fenced :
  let members := [member "c-1" MemberStateOnline; member "c-2" MemberStateOnline; member "c-3" "UNREACHABLE"] in
  let c := gcluster 3 (group true members) [] ∅ in
  let o := observed ["c-3"] ∅ (Some (group true members)) "" in
  quorum 3 <= count (stays c ["c-3"]) members /\ fst (checkFenceQuorumGuard c o) <> "".
Proof. by vm_compute. Qed.

(** A full outage seen while the Cluster still records a quorum is not recovered: the
    handler goes on, but no survivor is computed from the recorded quorum. *)
Lemma recorded_quorum_delays_recovery :
  let c := gcluster 3 (group true []) [] ∅ in
  let o := observed [] {["c-1" := "a:1-5"]} None PhaseFullOutage in
  (exec (table c) (handleQuorumRecovery c o)).2 = (readyResync, None, false).
Proof. by vm_compute. Qed.

(** Without a group the group's budget is not looked at. *)
Lemma group_budget_survives_a_topology_change c instances :
  gu_IsGroupReplication c = false ->
  every (fun r => match r with RemovePDB n => n <> groupPDBName c | _ => True end) (reconcilePDB c instances).
Proof.
  assert (primaryPDBName c <> groupPDBName c /\ replicaPDBName c <> groupPDBName c) as [Hp Hr].
  { unfold primaryPDBName, replicaPDBName, groupPDBName. split; intros E%(inj (String.append (gu_Name c))); discriminate. }
  intros Hg. unfold reconcilePDB. rewrite Hg. cbv zeta.
  assert (forall name b, name <> groupPDBName c ->
    every (fun r => match r with RemovePDB n => n <> groupPDBName c | _ => True end) (reconcileOnePDB name b)) as H1.
  { intros name [b|] Hn; unfold reconcileOnePDB, deletePDBOnBudgetFieldChange; every_tac. }
  apply every_bind_result; [by apply H1|]. intros _. by apply H1.
Qed.
